(* ===== verification/_CoqProject ===== *)
-Q . S2P
Prelude.v
GoTime.v
Domain.v
Keys.v
GoText.v
GoParse.v
Hash.v
Float64.v
RateLimit.v
Ring.v
Bloom.v
IdemBloom.v
LeaseTable.v
PebbleDB.v
RaftStore.v
Snapshot.v
Raft.v
RaftGroup.v
RaftAddr.v
MuxTransport.v
SubRepo.v
SubInv.v
Notifier.v
Topics.v
MemoryPlugin.v
Auth.v
Middleware.v
IdentityMW.v
Backoff.v
TaskRepo.v
ResultRepo.v
Sharded.v
Cluster.v
ClusterRoute.v
Reaper.v
Scheduler.v
Uploader.v
ResultsService.v
WorkerStream.v
ProducerStream.v
ProducerClient.v
WorkerClient.v
Controllers.v
Config.v
Shards.v
RedisStore.v
RedisTasks.v
RedisLease.v
RedisResults.v
Migrate.v
RedisSharded.v
Wiring.v
Invariant.v
KeyScan.v
Bulk.v
RepoInv.v
Lifecycle.v
Sweeps.v
BatchOps.v
ResultInv.v
ClaimManyInv.v
Recovery.v
System.v
Effects.v
Guarantees.v
ShardedInv.v
ClusterInv.v
ClusterRun.v
Divergences.v
Startup.v
Failover.v
