(* ===== verification/Prelude.v ===== *)
(** * codeQ: a durable task queue, verified

    The program ([src/]) is a task queue in Go.  Producers enqueue tasks under
    a command, a tenant and a priority; workers claim them for a lease, extend
    it, give them back or submit a result; sweeps take back expired leases and
    delete old tasks.  Tasks live in a key-value store (Pebble); pending tasks
    are also announced on in-memory channels, leases are kept in memory and
    rebuilt at start-up.  The store can be sharded within a process, spread
    over nodes by a hash ring, and each shard's writes can go through a Raft
    group.  Clients reach it over HTTP or over streams, with client libraries;
    tokens say who they are; subscribers are told when a queue has work.  An
    older backend keeps the same queues in one or several Redis servers, with
    a tool that moves queues between them.

    ** Conventions

    A Go string or byte slice is a [string], an integer a [Z] with its width
    written out where it can overflow ([wrap64], [wrapu64]), a time a [Z] of
    nanoseconds since 1970 passed in as [now].  A method that can fail and
    change state is an action [M S A], a function from a state to a result or
    an error and the state afterwards ([Prelude]); [wp] is its weakest
    precondition and [keeps] its invariant form.  What concurrency leaves open
    (map order, the finishing order of goroutines, what happens between two
    steps of a poll) is an argument.  Third-party code is a class with laws
    and an instance that shows the laws can hold: the storage engine
    ([PebbleDB.Pebble], [memstore]; range deletion in [RaftStore.PebbleRange]),
    the JSON codec ([Domain.JSON], [framed]), msgpack ([RaftStore.LogCodec],
    [msgpack]), the batch encoding ([Raft.BatchRepr], [repr]), the consensus
    library ([Raft.hraft]), the timestamps and JSON maps of the cluster's
    messages ([Cluster.Timestamppb], [Cluster.MapJSON], [wire]), a Redis server
    whose round trips may fail ([RedisStore.Server], [memServer], [upServer];
    for the migrator [Migrate.Redis], [memory]).  What the
    network does with each request is an argument ([Cluster.ce_net]), and so
    are a verified token's contents, the answers of webhooks, the parsers of
    YAML, floats and URLs, and JSON texts.  A component that calls another is
    stated against its interface: topics against [Topics.TopicStore], streams
    against [WorkerStream.services], the HTTP API against [Controllers.api].
    A theorem on what a caller is authorised to do says that nothing changes
    when every other call of the interface is replaced by a crash.

    ** Files

    - [Prelude], [GoTime], [GoText], [GoParse], [Hash], [Float64]: the monad,
      byte strings and their order, the calendar and RFC 3339 text of package
      time and its parser, package strings, integers in text, FNV-1a and
      SHA-256, IEEE arithmetic.
    - [Domain]: [src/pkg/domain], tasks and results with the source's fields.
    - [Keys]: [src/internal/repository/pebble/keys.go], the key layout.  A key
      is also a value of the type [qkey]; [enc] gives its bytes.
    - [LeaseTable], [PebbleDB]: [lease_table.go] and [db.go] beside it.  [DB]
      holds the engine, the sequence counter, the replicator and the leases.
    - [TaskRepo], [ResultRepo], [Reaper]: the repositories and the sweeps; the
      state [Repo] adds the channels, the delayed counters, the flags of
      running migrations and the times of the last repairs.
    - [Backoff], [Scheduler], [Uploader], [ResultsService]: [src/internal/backoff],
      [src/internal/services], [src/internal/providers/uploader.go].
    - [Sharded]: the sharded repositories of the same directory, over a list
      of [Repo]s.
    - [RaftStore], [Snapshot], [Raft], [RaftGroup]: [src/internal/raft]: the
      log and stable stores, the snapshot format, the state machine, the
      handle that replicates batches, and a group of nodes as a step relation;
      [MuxTransport]: [mux_transport.go], the port the groups of a node share,
      its goroutines as steps.
    - [Ring], [Bloom], [Cluster]: [src/internal/cluster]: the hash ring, the
      filters the members exchange and their cache, the gRPC handlers, the
      task and result routers, the connection pool and the gossip.  A [Cluster]
      is a map of [member]s, each with its [Repo], filter, cache and dialed
      connections.
    - [RateLimit]: [src/internal/ratelimit], the in-memory limiter.
    - [SubRepo], [SubInv]: the subscriptions ([subscription_repository.go] of the
      Pebble directory and the services) and their invariant; [Notifier]:
      [notifier_service.go] and [result_callback_service.go] of
      [src/internal/services], with the requests they send as values.
    - [Topics]: [src/internal/core/queuetopic], [src/internal/application/topics],
      the Pebble topic store and its HTTP handler.
    - [MemoryPlugin]: [src/pkg/persistence], the in-memory plugin, with the task
      objects its maps and queues share.
    - [Auth], [Middleware]: [src/pkg/auth], [src/internal/authclaims] and the
      guards of [src/internal/middleware], over the state of the validators;
      [IdentityMW]: [src/internal/identitymw], a second token validator.
    - [Shards], [Migrate]: [src/internal/shard], the keys and the routing of the
      Redis shards, the migrator and the verifier.
    - [RedisStore], [RedisTasks], [RedisResults], [RedisSharded], [IdemBloom]: the
      Redis repositories of [src/internal/repository].  [RedisStore] has the
      commands they use as data ([rcmd]) with what a server does for each
      ([exec]) and the claim script; a repository's state is a server and its
      local filters.  [RedisLease] has the theorems on leases and keys.
    - [RaftAddr], [Wiring]: [raft_addr.go] and [application_pebble.go] of
      [src/pkg/app] with its stream servers: the start with every failure branch,
      and the shutdown, as a trace of what is opened and closed.
    - [WorkerStream], [ProducerStream]: the event handlers of
      [src/internal/worker] and [src/internal/producer].
    - [ProducerClient], [WorkerClient]: [src/pkg/producerclient] and
      [src/pkg/workerclient]: the goroutines of a session as actions ([exec])
      and as steps ([wstep]).
    - [Controllers]: [src/internal/controllers] and the routes of
      [src/pkg/app/url_mappings.go]; [serve] takes a request through guards,
      limiter and handler.
    - [Config]: [src/pkg/config], loading and validation.
    - [Invariant], [KeyScan], [Bulk], [RepoInv], [Lifecycle], [Sweeps],
      [BatchOps], [ResultInv], [ClaimManyInv], [Recovery]: the invariant of the
      store and its proofs, one file per group of operations.
    - [System]: events (service calls, ticks, restarts) and reachable states.
    - [Effects], [Guarantees], [Startup], [Divergences], [ShardedInv],
      [ClusterRoute], [ClusterInv], [ClusterRun], [Failover]: the theorems.

    ** What is shown

    - Over every reachable state ([System.reachable]: any sequence of calls,
      sweeps and restarts, with failing commits): a task stands in at most one
      queue and the one its status names; final statuses are absorbing; a
      restart keeps the store and rebuilds the channels in order ([System]).
    - Each operation on every branch: enqueue, claim, heartbeat, abandon, nack,
      submit, requeue; who may settle a task; that sweeps leave held leases
      alone ([Guarantees]); statistics and start-up ([Startup]).
    - The key layout is injective and ordered ([Keys]), group commit equals
      sequential commits ([PebbleDB]), the long poll ends ([Scheduler]),
      uploads stay in their directory ([Uploader], [ResultsService]).
    - Sharding: every task is on the shard of its id and on no other, and each
      shard keeps the invariant ([ShardedInv]).
    - Replication: the log store refines a finite map, snapshots round-trip and
      cut-off ones are refused, nodes at one log position agree, and the
      replicated handle satisfies what the repositories ask of a store
      ([RaftStore], [Snapshot], [RaftGroup], [Raft]).
    - The cluster: all nodes agree on the owner of a key, and a joining node
      only takes keys ([Ring]); a task is stored on its owner only, whatever the
      network loses ([ClusterInv]); a call that gets through has the effect and
      the answer of the call on the owner's repository ([ClusterRoute]); the
      filters have no false negatives, concurrent additions included ([Bloom]).
    - Who may do what: an HTTP request makes only the service calls its token
      authorises ([Controllers]), a worker stream only those of its session
      ([WorkerStream]), a producer stream only creations of its tenant
      ([ProducerStream]); the tenant is the one the claims resolve to ([Auth],
      [Middleware]).  Followers redirect writes to the leader ([Controllers]).
    - The limiter decides as an integer token bucket and never allows more than
      burst and rate ([RateLimit]); topics are well typed and separate by tenant
      ([Topics]); who is notified ([Notifier]); claims of the memory plugin are
      exclusive ([MemoryPlugin]).
    - The clients: a producer's call gets the answer to its own request
      ([ProducerClient]), a worker answers for every task of a batch
      ([WorkerClient]).  Loaded configurations are in range, and validation
      decides its rules ([Config]).
    - The process: a start that fails closes what it opened, in order, and the
      shutdown closes the rest ([Wiring]); connections on the shared port reach
      their group ([MuxTransport]).
    - The Redis backend: a live lease survives any claim and any failed round
      trip, a key in force answers with its task ([RedisLease]), a call that
      fans out acts at the shard of the task ([RedisSharded]), completion
      ([RedisResults]), a migration moves everything or fails ([Migrate]), a
      remembered key is reported ([IdemBloom]).
    - Where the code does not do what it means to: tasks the reaper strands,
      retention that ignores renewals, a cleanup that leaves queue entries,
      idempotency lost between shards, tasks a new leader cannot see, claims
      that strand tasks on other members, peers' filters that deny stored
      tasks, results that lose fields between members ([Divergences],
      [ShardedInv], [Failover], [ClusterRun], [Backoff]); reads and results
      across tenants ([Divergences]), subscriptions lost at a restart ([SubInv]),
      group turns that reach nobody ([Notifier]), buckets refilled early
      ([RateLimit]), keys used after their withdrawal ([Auth]), tasks the memory
      plugin loses ([MemoryPlugin]), a mode no variable changes ([Config]),
      calls that outlive their stream ([ProducerClient]), workers that stop
      asking ([WorkerClient]), resources a failed start leaves ([Wiring],
      [MuxTransport]), tasks lost, duplicated or hidden by a lost read
      ([RedisLease]), queues reordered or lost by a migration ([Migrate]) and
      stale copies that answer for it afterwards ([RedisSharded]).

    ** Bounds and fuel

    [time_ok] bounds clock readings to the years an int64 of nanoseconds
    holds.  The long poll's fuel is the number of its 250 ms rounds in thirty
    seconds, and [ClaimTask_terminates] shows it is enough.  Parsers recurse
    on the length of their input; [restoreLoop] and the commit loops on a
    fuel of that length, and their theorems show that the result is produced.
    [GenerateLocalID] tries 64 ids and a stream's poll the configured number of
    claims, the source's bounds.  [limiter_refines_bucket] is about rates of
    whole tokens a second and whole seconds, where the floats are exact.  The
    concrete cluster of [ClusterRun] has filters for ten ids and one position
    per node.  The loops of the migrator run for the length of the queue, and
    [migrate_moves] shows that this is enough; a Redis claim makes as many
    attempts as its inspection limit, the source's bound.

    ** Not modelled

    Of the Redis backend the limiter, the topic store, the subscriptions, the
    persistence plugin and the application over it: scripts or adapters of the
    same operations.  Network transports and the goroutines that only write to
    them, decoding of HTTP bodies, generated protobuf code but for the
    cluster's message types, the verification of a JWT's signature, metrics
    and tracing, the command line client, and the server's main function.  Two
    shard ids of one Redis server are two servers in [RedisSharded].  The
    commands of a Redis call run at one reading of the clock.  A process that
    stops between two writes of one operation is covered, since commits are
    atomic and in-memory state is rebuilt; writes lost by an unsynced engine
    are not. *)

From stdpp Require Export base option list gmap strings fin_maps sorting.
From Stdlib Require Export ZArith Lia Ascii.

(** ** Conventions

    A Go [string] and a Go [[]byte] are both finite byte sequences; both are
    [string] here (a Rocq [string] is a list of 8-bit characters), and the
    conversions between them are the identity.  Go's [int], [int64] and
    [uint64] are [Z]; a wrap-around is written out with [wrap64] or [wrapu64]
    where the code multiplies or adds values a caller controls. *)

Declare Scope codeq_scope.
Delimit Scope codeq_scope with codeq.
Global Open Scope string_scope.
Global Open Scope Z_scope.
Global Open Scope list_scope.
Global Open Scope codeq_scope.

(** Close a goal made of conjunctions, implications and linear facts. *)
Ltac fin :=
  repeat (split || intros || destruct_and! || destruct_or!); try done; try lia; try congruence.

(** ** Machine integers *)

Definition two64 : Z := 18446744073709551616.
Definition MaxInt64 : Z := 9223372036854775807.
Definition MinInt64 : Z := -9223372036854775808.

Definition wrapu64 (z : Z) : Z := z mod two64.
Definition wrap64 (z : Z) : Z := (z + 9223372036854775808) mod two64 - 9223372036854775808.

Lemma wrap64_id z : MinInt64 <= z <= MaxInt64 -> wrap64 z = z.
Proof. unfold wrap64, MinInt64, MaxInt64, two64. intros H. rewrite Z.mod_small by lia. lia. Qed.

Lemma wrap64_multiple x : wrap64 (x * two64) = 0.
Proof. unfold wrap64. by rewrite Z.add_comm, Z_mod_plus_full. Qed.

Lemma wrapu64_id z : 0 <= z < two64 -> wrapu64 z = z.
Proof. apply Z.mod_small. Qed.

Lemma wrap64_range z : MinInt64 <= wrap64 z <= MaxInt64.
Proof.
  unfold wrap64, MinInt64, MaxInt64, two64.
  pose proof (Z.mod_pos_bound (z + 9223372036854775808) 18446744073709551616 ltac:(lia)). lia.
Qed.

Lemma wrapu64_range z : 0 <= wrapu64 z < two64.
Proof. apply Z.mod_pos_bound. reflexivity. Qed.

(** ** Bytes *)

(** The value of a byte, and the byte of a value ([byte(n)] in Go keeps the
    low eight bits). *)
Definition ch (a : ascii) : Z := Z.of_N (N_of_ascii a).
Definition byte (z : Z) : ascii := ascii_of_N (Z.to_N (z mod 256)).

Global Arguments ch : simpl never.
Global Arguments byte : simpl never.

Lemma ch_range a : 0 <= ch a < 256.
Proof.
  unfold ch. pose proof (N_ascii_bounded a). lia.
Qed.

Lemma byte_ch a : byte (ch a) = a.
Proof.
  unfold byte. rewrite Z.mod_small by apply ch_range. unfold ch.
  rewrite N2Z.id. apply ascii_N_embedding.
Qed.

Lemma ch_byte z : ch (byte z) = z mod 256.
Proof.
  unfold ch, byte. pose proof (Z.mod_pos_bound z 256 ltac:(lia)).
  rewrite N_ascii_embedding by lia. lia.
Qed.

Lemma ch_inj a b : ch a = ch b -> a = b.
Proof. intros H. rewrite <- (byte_ch a), <- (byte_ch b). by rewrite H. Qed.

(** ** Strings: concatenation, prefixes, length *)

Definition slen (s : string) : Z := Z.of_nat (String.length s).

(** stdpp keeps [String.append] from reducing under [simpl]; the equations
    are applied by name. *)
Lemma app_cons_s x (a b : string) : String x a +:+ b = String x (a +:+ b).
Proof. reflexivity. Qed.

Lemma app_empty_s (b : string) : "" +:+ b = b.
Proof. reflexivity. Qed.

Ltac sapp := repeat (rewrite app_cons_s || rewrite app_empty_s); simpl.
Ltac sapp_in H := repeat (rewrite app_cons_s in H || rewrite app_empty_s in H); simpl in H.

Lemma app_assoc_s (a b c : string) : (a +:+ b) +:+ c = a +:+ (b +:+ c).
Proof. induction a as [|x a IH]; sapp; [done | by rewrite IH]. Qed.

Lemma app_nil_s (a : string) : a +:+ "" = a.
Proof. induction a as [|x a IH]; sapp; [done | by rewrite IH]. Qed.

Lemma app_inj_l (p a b : string) : p +:+ a = p +:+ b -> a = b.
Proof. induction p as [|x p IH]; sapp; [done|]. intros H. injection H. auto. Qed.

Lemma cons_inj_s x y (a b : string) : String x a = String y b -> x = y /\ a = b.
Proof. intros H. by injection H. Qed.

Lemma length_app_s (a b : string) :
  String.length (a +:+ b) = (String.length a + String.length b)%nat.
Proof. induction a as [|x a IH]; sapp; [done | by rewrite IH]. Qed.

Lemma app_inj_len (a b c d : string) :
  String.length a = String.length c -> a +:+ b = c +:+ d -> a = c /\ b = d.
Proof.
  revert c. induction a as [|x a IH]; intros [|y c]; sapp; try done.
  intros Hl H. injection H as -> H. injection Hl as Hl.
  destruct (IH c Hl H) as [-> ->]. done.
Qed.

Fixpoint has_prefix (p s : string) : bool :=
  match p, s with
  | EmptyString, _ => true
  | String a p', String b s' => Ascii.eqb a b && has_prefix p' s'
  | String _ _, EmptyString => false
  end.

Lemma has_prefix_spec p s : has_prefix p s = true <-> exists r, s = p +:+ r.
Proof.
  revert s. induction p as [|a p IH]; intros s; simpl.
  - split; [intros _; by exists s | done].
  - destruct s as [|b s]; simpl.
    + split; [done | by intros [r Hr]].
    + rewrite andb_true_iff, Ascii.eqb_eq, IH. split.
      * intros [-> [r ->]]. by exists r.
      * intros [r Hr]. sapp_in Hr. injection Hr as -> ->. eauto.
Qed.

Lemma has_prefix_app p s : has_prefix p (p +:+ s) = true.
Proof. apply has_prefix_spec. eauto. Qed.

(** [elem c s]: the byte [c] occurs in [s]. *)
Fixpoint elem (c : ascii) (s : string) : bool :=
  match s with
  | EmptyString => false
  | String a s' => Ascii.eqb a c || elem c s'
  end.

Lemma elem_app c a b : elem c (a +:+ b) = elem c a || elem c b.
Proof. induction a as [|x a IH]; sapp; [done | by rewrite IH, orb_assoc]. Qed.

(** Splitting at the first occurrence of a separator is unambiguous. *)
Lemma split_unique (c : ascii) (a b x y : string) :
  elem c a = false -> elem c x = false ->
  a +:+ String c b = x +:+ String c y -> a = x /\ b = y.
Proof.
  revert x. induction a as [|p a IH]; intros [|q x]; sapp; intros Ha Hx H.
  - by injection H as ->.
  - injection H as -> _. by rewrite Ascii.eqb_refl in Hx.
  - injection H as -> _. by rewrite Ascii.eqb_refl in Ha.
  - injection H as -> H. apply orb_false_iff in Ha, Hx.
    destruct (IH x (proj2 Ha) (proj2 Hx) H) as [-> ->]. done.
Qed.

(** ** The order of byte strings: [bytes.Compare], Go's [<] on strings *)

Fixpoint scmp (s t : string) : comparison :=
  match s, t with
  | EmptyString, EmptyString => Eq
  | EmptyString, String _ _ => Lt
  | String _ _, EmptyString => Gt
  | String a s', String b t' =>
      match ch a ?= ch b with Eq => scmp s' t' | c => c end
  end.

Definition sltb (s t : string) : bool := match scmp s t with Lt => true | _ => false end.
Definition sleb (s t : string) : bool := match scmp s t with Gt => false | _ => true end.
Definition slt (s t : string) : Prop := scmp s t = Lt.
Definition sle (s t : string) : Prop := sleb s t = true.

Lemma scmp_cons a s b t :
  scmp (String a s) (String b t) = match ch a ?= ch b with Eq => scmp s t | c => c end.
Proof. reflexivity. Qed.

Lemma scmp_refl s : scmp s s = Eq.
Proof. induction s as [|a s IH]; simpl; [done|]. by rewrite Z.compare_refl. Qed.

Lemma scmp_eq s t : scmp s t = Eq <-> s = t.
Proof.
  split; [|intros ->; apply scmp_refl].
  revert t. induction s as [|a s IH]; intros [|b t]; simpl; try done.
  destruct (Z.compare_spec (ch a) (ch b)); try done.
  intros Hs. f_equal; [by apply ch_inj | auto].
Qed.

Lemma scmp_antisym s t : scmp s t = CompOpp (scmp t s).
Proof.
  revert t. induction s as [|a s IH]; intros [|b t]; simpl; try done.
  rewrite (Z.compare_antisym (ch b) (ch a)).
  destruct (ch b ?= ch a); simpl; auto.
Qed.

Lemma slt_trans s t u : slt s t -> slt t u -> slt s u.
Proof.
  unfold slt. revert t u. induction s as [|a s IH]; intros [|b t] [|c u]; simpl; try done.
  destruct (Z.compare_spec (ch a) (ch b)), (Z.compare_spec (ch b) (ch c)); try done;
    intros H1 H2; (destruct (Z.compare_spec (ch a) (ch c)); try lia; eauto).
Qed.

Lemma sle_slt s t : sle s t <-> s = t \/ slt s t.
Proof.
  unfold sle, sleb, slt. rewrite <- scmp_eq. destruct (scmp s t); intuition congruence.
Qed.

Lemma slt_irrefl s : ~ slt s s.
Proof. unfold slt. by rewrite scmp_refl. Qed.

Lemma slt_sltb s t : sltb s t = true <-> slt s t.
Proof. unfold sltb, slt. destruct (scmp s t); naive_solver. Qed.

Lemma sle_not_slt s t : sle s t <-> ~ slt t s.
Proof.
  unfold sle, sleb, slt. rewrite (scmp_antisym t s). destruct (scmp s t); simpl; naive_solver.
Qed.

#[export] Instance sle_dec s t : Decision (sle s t) := decide (sleb s t = true).
#[export] Instance slt_dec s t : Decision (slt s t).
Proof. unfold slt. solve_decision. Defined.

#[export] Instance sle_refl : Reflexive sle.
Proof. intros s. apply sle_slt. by left. Qed.

#[export] Instance sle_trans : Transitive sle.
Proof.
  intros s t u. rewrite !sle_slt. intros [->|H1] [->|H2]; auto. right. by eapply slt_trans.
Qed.

#[export] Instance sle_total : Total sle.
Proof.
  intros s t. unfold sle, sleb. rewrite (scmp_antisym t s).
  destruct (scmp s t); simpl; auto.
Qed.

#[export] Instance sle_antisym : AntiSymm (=) sle.
Proof.
  intros s t. rewrite !sle_slt. intros [->|H1] [H2|H2]; auto.
  exfalso. eapply slt_irrefl, slt_trans; eauto.
Qed.

Lemma scmp_app p s t : scmp (p +:+ s) (p +:+ t) = scmp s t.
Proof. induction p as [|a p IH]; sapp; [done|]. by rewrite Z.compare_refl. Qed.

Lemma slt_app p s t : slt (p +:+ s) (p +:+ t) <-> slt s t.
Proof. unfold slt. by rewrite scmp_app. Qed.

Lemma sle_app p s t : sle (p +:+ s) (p +:+ t) <-> sle s t.
Proof. unfold sle, sleb. by rewrite scmp_app. Qed.

Lemma sle_prefix p s : sle p (p +:+ s).
Proof. rewrite <- (app_nil_s p) at 1. apply sle_app. by destruct s. Qed.

(** A key that is at least [p] and lies below some extension-free bound of
    equal length: comparing fixed-width components decides the order. *)
Lemma scmp_app_len a b s t :
  String.length a = String.length b ->
  scmp (a +:+ s) (b +:+ t) = match scmp a b with Eq => scmp s t | c => c end.
Proof.
  revert b. induction a as [|x a IH]; intros [|y b]; sapp; try done.
  intros Hl. injection Hl as Hl. destruct (ch x ?= ch y); auto.
Qed.

(** ** Big-endian integers *)

(** [binary.BigEndian.PutUint64] and its narrower variants: the low [w] bytes
    of [n], most significant first. *)
Fixpoint be_bytes (w : nat) (n : Z) : string :=
  match w with
  | O => ""
  | S w' => String (byte (Z.shiftr n (8 * Z.of_nat w'))) (be_bytes w' n)
  end.

(** The integer a big-endian byte string denotes ([binary.BigEndian.Uint32],
    [Uint64] on strings of that length). *)
Fixpoint be_value_acc (acc : Z) (s : string) : Z :=
  match s with
  | EmptyString => acc
  | String a s' => be_value_acc (acc * 256 + ch a) s'
  end.
Definition be_value (s : string) : Z := be_value_acc 0 s.

Lemma be_bytes_length w n : String.length (be_bytes w n) = w.
Proof. induction w as [|w IH]; simpl; [done | by rewrite IH]. Qed.

Lemma pow256 w : 2 ^ (8 * Z.of_nat w) = 256 ^ Z.of_nat w.
Proof. rewrite Z.pow_mul_r by lia. done. Qed.

Lemma pow256_pos w : 0 < 256 ^ Z.of_nat w.
Proof. apply Z.pow_pos_nonneg; lia. Qed.

Lemma pow256_S w : 256 ^ Z.of_nat (S w) = 256 * 256 ^ Z.of_nat w.
Proof. rewrite Nat2Z.inj_succ, Z.pow_succ_r by lia. done. Qed.

Lemma be_bytes_top w n :
  ch (byte (Z.shiftr n (8 * Z.of_nat w))) = n / 256 ^ Z.of_nat w mod 256.
Proof. rewrite ch_byte, Z.shiftr_div_pow2, pow256 by lia. done. Qed.

Lemma mod_mod_mul x a b : 0 < a -> 0 < b -> (x mod (b * a)) mod a = x mod a.
Proof.
  intros Ha Hb. rewrite (Z.mul_comm b a), Z.rem_mul_r by lia.
  rewrite (Z.mul_comm a (_ mod b)), Z.mod_add by lia. by rewrite Z.mod_mod by lia.
Qed.

Lemma be_bytes_mod w m n :
  (w <= m)%nat -> be_bytes w (n mod 256 ^ Z.of_nat m) = be_bytes w n.
Proof.
  intros Hm. induction w as [|w IH]; [done|]. simpl. rewrite IH by lia. f_equal.
  apply ch_inj. rewrite !be_bytes_top.
  replace (Z.of_nat m) with (Z.of_nat (m - S w) + 1 + Z.of_nat w) by lia.
  rewrite !Z.pow_add_r by lia. rewrite Z.pow_1_r.
  pose proof (pow256_pos w) as Hw. pose proof (pow256_pos (m - S w)) as Hd.
  set (A := 256 ^ Z.of_nat w) in *. set (B := 256 ^ Z.of_nat (m - S w)) in *.
  rewrite (Z.mul_comm (B * 256) A), Z.rem_mul_r, (Z.mul_comm A), Z.div_add by lia.
  rewrite (Z.div_small (n mod A) A) by (apply Z.mod_pos_bound; lia).
  rewrite Z.add_0_l. apply mod_mod_mul; lia.
Qed.

(** Fixed-width big-endian encoding turns numeric order into byte order: the
    fact every ordered index of the store relies on. *)
Lemma be_bytes_cmp w a b :
  0 <= a < 256 ^ Z.of_nat w -> 0 <= b < 256 ^ Z.of_nat w ->
  scmp (be_bytes w a) (be_bytes w b) = (a ?= b).
Proof.
  revert a b. induction w as [|w IH]; intros a b Ha Hb.
  { simpl in *. symmetry. apply Z.compare_eq_iff. lia. }
  rewrite pow256_S in Ha, Hb. simpl. rewrite !be_bytes_top.
  pose proof (pow256_pos w) as Hw. set (A := 256 ^ Z.of_nat w) in *.
  assert (0 <= a / A < 256) as Ha'.
  { split; [apply Z.div_pos | apply Z.div_lt_upper_bound]; lia. }
  assert (0 <= b / A < 256) as Hb'.
  { split; [apply Z.div_pos | apply Z.div_lt_upper_bound]; lia. }
  rewrite !Z.mod_small by lia.
  pose proof (Z.div_mod a A ltac:(lia)). pose proof (Z.div_mod b A ltac:(lia)).
  pose proof (Z.mod_pos_bound a A ltac:(lia)). pose proof (Z.mod_pos_bound b A ltac:(lia)).
  destruct (Z.compare_spec (a / A) (b / A)).
  - rewrite <- (be_bytes_mod w w a), <- (be_bytes_mod w w b) by lia.
    rewrite IH by done. fold A.
    destruct (Z.compare_spec (a mod A) (b mod A)); symmetry;
      [apply Z.compare_eq_iff | apply Z.compare_lt_iff | apply Z.compare_gt_iff]; nia.
  - symmetry. apply Z.compare_lt_iff. nia.
  - symmetry. apply Z.compare_gt_iff. nia.
Qed.

Lemma be_bytes_inj w a b :
  0 <= a < 256 ^ Z.of_nat w -> 0 <= b < 256 ^ Z.of_nat w ->
  be_bytes w a = be_bytes w b -> a = b.
Proof.
  intros Ha Hb H. apply Z.compare_eq_iff. rewrite <- (be_bytes_cmp w) by done.
  by rewrite H, scmp_refl.
Qed.

Lemma be_value_acc_be_bytes w acc n :
  be_value_acc acc (be_bytes w n) = acc * 256 ^ Z.of_nat w + n mod 256 ^ Z.of_nat w.
Proof.
  revert acc. induction w as [|w IH]; intros acc.
  { simpl. rewrite Z.mod_1_r. lia. }
  simpl be_bytes. simpl be_value_acc. rewrite IH, be_bytes_top, pow256_S.
  pose proof (pow256_pos w). rewrite (Z.mul_comm 256 (256 ^ _)).
  rewrite (Z.rem_mul_r n (256 ^ Z.of_nat w) 256) by lia. lia.
Qed.

Lemma be_value_be_bytes w n : 0 <= n < 256 ^ Z.of_nat w -> be_value (be_bytes w n) = n.
Proof.
  intros H. unfold be_value. rewrite be_value_acc_be_bytes, Z.mod_small by done. lia.
Qed.

(** Or-ing a value into cleared low bits adds it. *)
Lemma lor_low k x y : 0 <= k -> x mod 2 ^ k = 0 -> 0 <= y < 2 ^ k -> Z.lor x y = x + y.
Proof.
  intros Hk Hx Hy. rewrite <- Z.lxor_lor, <- Z.add_nocarry_lxor; [done | |];
    apply Z.bits_inj'; intros i Hi; rewrite Z.land_spec, Z.bits_0;
    (destruct (Z.lt_ge_cases i k);
     [ rewrite <- (Z.mod_pow2_bits_low x k i), Hx, Z.bits_0 by lia; done
     | rewrite <- (Z.mod_small y (2 ^ k)), (Z.mod_pow2_bits_high y k i) by lia;
       by rewrite andb_false_r ]).
Qed.

(** ** Ordered range scans *)

(** [below k hi]: [k] is under the exclusive upper bound, [None] meaning that
    the scan has no upper bound (a nil [UpperBound]). *)
Definition below (k : string) (hi : option string) : Prop :=
  match hi with None => True | Some h => slt k h end.

#[export] Instance below_dec k hi : Decision (below k hi).
Proof. destruct hi; apply _. Defined.

(** The keys of [m] in [[lo, hi)] in byte order: what an iterator with these
    bounds visits from [First] through [Next]. *)
Definition range_keys {V} (m : gmap string V) (lo : string) (hi : option string)
  : list string :=
  merge_sort sle (filter (fun k => sle lo k /\ below k hi) (map_to_list m).*1).

Section range_keys.
Context {V : Type}.
Implicit Types (m : gmap string V) (lo k : string) (hi : option string).

Lemma elem_of_range_keys m lo hi k :
  k ∈ range_keys m lo hi <-> is_Some (m !! k) /\ sle lo k /\ below k hi.
Proof.
  unfold range_keys. rewrite merge_sort_Permutation, list_elem_of_filter.
  rewrite list_elem_of_fmap. split.
  - intros [Hr [[k' v] [-> Hk]]]. apply elem_of_map_to_list in Hk. eauto.
  - intros [[v Hv] Hr]. split; [done|]. exists (k, v). split; [done|].
    by apply elem_of_map_to_list.
Qed.

Lemma NoDup_range_keys m lo hi : NoDup (range_keys m lo hi).
Proof.
  unfold range_keys. rewrite merge_sort_Permutation.
  apply NoDup_filter, NoDup_fst_map_to_list.
Qed.

Lemma StronglySorted_range_keys m lo hi : StronglySorted sle (range_keys m lo hi).
Proof. apply (StronglySorted_merge_sort sle _). Qed.
End range_keys.

(** Two sorted duplicate-free lists with the same members are equal, so a scan
    is determined by its members. *)
Lemma sorted_ext (l1 l2 : list string) :
  StronglySorted sle l1 -> StronglySorted sle l2 -> NoDup l1 -> NoDup l2 ->
  (forall k, k ∈ l1 <-> k ∈ l2) -> l1 = l2.
Proof.
  intros S1 S2 N1 N2 H.
  apply (StronglySorted_unique sle); [done | done |].
  by apply NoDup_Permutation.
Qed.

Lemma submseteq_NoDup {A} (l k : list A) : l ⊆+ k -> NoDup k -> NoDup l.
Proof. intros [x ->]%submseteq_Permutation [? _]%NoDup_app. done. Qed.

Lemma NoDup_map_inj {A B} (f : A -> B) (l : list A) x y : NoDup (map f l) -> x ∈ l -> y ∈ l -> f x = f y -> x = y.
Proof.
  induction l as [|a l IH]; cbn; [by intros _ ?%not_elem_of_nil|]. intros [Ha Hn]%NoDup_cons Hx Hy E.
  apply elem_of_cons in Hx as [->|Hx]; apply elem_of_cons in Hy as [->|Hy]; [done | | | by apply IH].
  - destruct Ha. rewrite E. by apply list_elem_of_fmap_2.
  - destruct Ha. rewrite <- E. by apply list_elem_of_fmap_2.
Qed.

Lemma submseteq_fst {A B} (out : list (A * B)) (l : list A) a b : map fst out ⊆+ l -> (a, b) ∈ out -> a ∈ l.
Proof. intros Hs Hin. eapply elem_of_submseteq; [|exact Hs]. apply list_elem_of_fmap. by exists (a, b). Qed.

(** ** Errors *)

(** Go errors: pebble's [ErrNotFound], the typed [*NotLeaderError], a plain
    message ([errors.New], [fmt.Errorf] without [%w]), a wrapped error
    ([fmt.Errorf("msg: %w", e)]), an error of a package outside the
    repository, and a run-time panic; the typed errors of
    [src/internal/core/queuetopic/errors.go]. *)
Inductive error :=
  | ErrNotFound
  | NotLeaderError (LeaderURL : string)
  | ValidationError (Field Message : string)
  | NotFoundError (TopicID : string)
  | ConflictError (TopicID : string)
  | UnavailableError (Reason : string)
  | ErrText (msg : string)
  | ErrWrap (msg : string) (e : error)
  | ErrExternal (msg : string)
  | Panic (msg : string).

#[export] Instance error_eq_dec : EqDecision error.
Proof. solve_decision. Defined.

(** [errors.Is(err, pebble.ErrNotFound)] and [errors.Is(err, ErrNotLeader)]. *)
Fixpoint is_not_found (e : error) : bool :=
  match e with ErrNotFound => true | ErrWrap _ e' => is_not_found e' | _ => false end.

Fixpoint is_not_leader (e : error) : bool :=
  match e with NotLeaderError _ => true | ErrWrap _ e' => is_not_leader e' | _ => false end.

(** [fmt]'s [%q] of printable ASCII text without quotes and backslashes. *)
Definition quoted (s : string) : string := String (byte 34) (s +:+ String (byte 34) "").

(** The text [err.Error()] returns. *)
Fixpoint error_text (e : error) : string :=
  match e with
  | ErrNotFound => "pebble: not found"
  | NotLeaderError u =>
      if bool_decide (u <> "") then "pebble: not leader (try " +:+ u +:+ ")"
      else "pebble: not leader"
  | ValidationError f m => "invalid " +:+ f +:+ ": " +:+ m
  | NotFoundError i => "queue topic " +:+ quoted i +:+ " not found"
  | ConflictError i => "queue topic " +:+ quoted i +:+ " changed concurrently"
  | UnavailableError r => "queue topic administration unavailable: " +:+ r
  | ErrText m => m
  | ErrWrap m e' => m +:+ ": " +:+ error_text e'
  | ErrExternal m => m
  | Panic m => m
  end.

Inductive res (A : Type) :=
  | Ok (a : A)
  | Err (e : error).
Arguments Ok {A} a.
Arguments Err {A} e.

Definition is_ok {A} (r : res A) : bool := match r with Ok _ => true | Err _ => false end.

(** ** Stateful fallible code *)

(** A computation over a state [S]: Go code keeps the writes it made before it
    returned an error, so the state survives an error. *)
Definition M (S A : Type) : Type := S -> res A * S.

Definition mret {S A} (a : A) : M S A := fun s => (Ok a, s).
Definition mthrow {S A} (e : error) : M S A := fun s => (Err e, s).
Definition mbnd {S A B} (m : M S A) (f : A -> M S B) : M S B :=
  fun s => match m s with
           | (Ok a, s') => f a s'
           | (Err e, s') => (Err e, s')
           end.
Definition mget {S} : M S S := fun s => (Ok s, s).
Definition mput {S} (s : S) : M S unit := fun _ => (Ok tt, s).
Definition mmod {S} (f : S -> S) : M S unit := fun s => (Ok tt, f s).

(** [mtry m] runs [m] and hands its error to the caller as a value: the
    [x, err := f()] form, after which the code inspects [err]. *)
Definition mtry {S A} (m : M S A) : M S (res A) := fun s => let (r, s') := m s in (Ok r, s').

(** [mlift]: run a computation over a component of the state. *)
Definition mlift {S T A} (get : S -> T) (set : T -> S -> S) (m : M T A) : M S A :=
  fun s => let (r, t) := m (get s) in (r, set t s).

Notation "'let!' x ':=' m 'in' k" := (mbnd m (fun x => k))
  (at level 10, x pattern, m at level 99, k at level 200) : codeq_scope.
Notation "m1 ';;!' m2" := (mbnd m1 (fun _ => m2))
  (at level 100, m2 at level 200, right associativity) : codeq_scope.

(** [for _, x := range l { body }], stopping at the first error. *)
Fixpoint mfor {S A} (l : list A) (body : A -> M S unit) : M S unit :=
  match l with
  | [] => mret tt
  | x :: l' => body x ;;! mfor l' body
  end.

(** The same loop with an accumulator. *)
Fixpoint mfold {S A B} (l : list A) (b : B) (body : B -> A -> M S B) : M S B :=
  match l with
  | [] => mret b
  | x :: l' => let! b' := body b x in mfold l' b' body
  end.

Lemma mbnd_ret {S A B} (a : A) (f : A -> M S B) : mbnd (mret a) f = f a.
Proof. reflexivity. Qed.

(** ** Hoare triples over [M] *)

(** [hoare P m Q]: from a state of [P], [m] ends in a result and a state of
    [Q]; both the normal and the error return are covered. *)
Definition hoare {S A} (P : S -> Prop) (m : M S A) (Q : res A -> S -> Prop) : Prop :=
  forall s, P s -> Q (fst (m s)) (snd (m s)).

(** [keeps I m]: [m] preserves [I] on every path. *)
Definition keeps {S A} (I : S -> Prop) (m : M S A) : Prop := hoare I m (fun _ s => I s).

Create HintDb codeq discriminated.

Section hoare.
Context {S : Type}.
Implicit Types (P I : S -> Prop).

Lemma hoare_ret {A} (a : A) P (Q : res A -> S -> Prop) :
  (forall s, P s -> Q (Ok a) s) -> hoare P (mret a) Q.
Proof. intros H s Hs. by apply H. Qed.

Lemma hoare_throw {A} e P (Q : res A -> S -> Prop) :
  (forall s, P s -> Q (Err e) s) -> hoare P (mthrow e) Q.
Proof. intros H s Hs. by apply H. Qed.

Lemma hoare_bind {A B} (m : M S A) (f : A -> M S B) P R Q :
  hoare P m R ->
  (forall a, hoare (R (Ok a)) (f a) Q) ->
  (forall e s, R (Err e) s -> Q (Err e) s) ->
  hoare P (mbnd m f) Q.
Proof.
  intros Hm Hf He s Hs. specialize (Hm s Hs). unfold mbnd.
  destruct (m s) as [[a|e] s']; simpl in *; [by apply Hf | auto].
Qed.

Lemma hoare_conseq {A} (m : M S A) P P' (Q Q' : res A -> S -> Prop) :
  hoare P' m Q' -> (forall s, P s -> P' s) -> (forall r s, Q' r s -> Q r s) ->
  hoare P m Q.
Proof. intros Hm HP HQ s Hs. apply HQ, Hm, HP, Hs. Qed.

Lemma hoare_try {A} (m : M S A) P Q :
  hoare P m (fun r s => Q (Ok r) s) -> hoare P (mtry m) Q.
Proof. intros Hm s Hs. specialize (Hm s Hs). unfold mtry. by destruct (m s). Qed.

Lemma keeps_ret {A} I (a : A) : keeps I (mret a).
Proof. intros s Hs. done. Qed.

Lemma keeps_throw {A} I e : keeps I (mthrow (A := A) e).
Proof. intros s Hs. done. Qed.

Lemma keeps_get I : keeps I mget.
Proof. intros s Hs. done. Qed.

Lemma keeps_bind {A B} I (m : M S A) (f : A -> M S B) :
  keeps I m -> (forall a, keeps I (f a)) -> keeps I (mbnd m f).
Proof. intros Hm Hf. eapply hoare_bind; [exact Hm | intros a; apply Hf | done]. Qed.

Lemma keeps_try {A} I (m : M S A) : keeps I m -> keeps I (mtry m).
Proof. intros Hm. by apply hoare_try. Qed.

Lemma keeps_mod I (f : S -> S) : (forall s, I s -> I (f s)) -> keeps I (mmod f).
Proof. intros H s Hs. by apply H. Qed.

Lemma keeps_for {A} I (l : list A) (body : A -> M S unit) :
  (forall x, x ∈ l -> keeps I (body x)) -> keeps I (mfor l body).
Proof.
  induction l as [|x l IH]; intros H; simpl; [apply keeps_ret|].
  apply keeps_bind; [apply H; constructor|]. intros _. apply IH. intros y Hy.
  apply H. by constructor.
Qed.

Lemma keeps_fold {A B} I (l : list A) (b : B) (body : B -> A -> M S B) :
  (forall b x, x ∈ l -> keeps I (body b x)) -> keeps I (mfold l b body).
Proof.
  revert b. induction l as [|x l IH]; intros b H; simpl; [apply keeps_ret|].
  apply keeps_bind; [apply H; constructor|]. intros b'. apply IH. intros c y Hy.
  apply H. by constructor.
Qed.

Lemma keeps_if {A} I (c : bool) (m1 m2 : M S A) :
  keeps I m1 -> keeps I m2 -> keeps I (if c then m1 else m2).
Proof. by destruct c. Qed.
End hoare.

Lemma keeps_lift {S T A} (get : S -> T) (set : T -> S -> S) (I : S -> Prop) (J : S -> T -> Prop)
  (m : M T A) :
  (forall s, I s -> J s (get s)) ->
  (forall s t, I s -> J s t -> I (set t s)) ->
  (forall s, I s -> keeps (J s) m) -> keeps I (mlift get set m).
Proof.
  intros Hget Hset Hm s Hs. unfold mlift.
  specialize (Hm s Hs (get s) (Hget s Hs)).
  destruct (m (get s)) as [r t]. simpl in *. auto.
Qed.

#[export] Hint Resolve keeps_ret keeps_throw keeps_get keeps_bind keeps_try keeps_if : codeq.

(** ** Weakest preconditions *)

(** [wp m Q s]: running [m] from [s] ends in [Q].  The rules below read a
    computation from the front, one statement at a time. *)
Definition wp {S A} (m : M S A) (Q : res A -> S -> Prop) (s : S) : Prop := Q (fst (m s)) (snd (m s)).

Section wp.
Context {S : Type}.

Lemma keeps_wp {A} (I : S -> Prop) (m : M S A) :
  keeps I m <-> forall s, I s -> wp m (fun _ s' => I s') s.
Proof. done. Qed.

Lemma wp_mono {A} (m : M S A) (Q R : res A -> S -> Prop) s :
  wp m Q s -> (forall x s', Q x s' -> R x s') -> wp m R s.
Proof. unfold wp. auto. Qed.

Lemma wp_ret {A} (a : A) (Q : res A -> S -> Prop) s : Q (Ok a) s -> wp (mret a) Q s.
Proof. done. Qed.

Lemma wp_throw {A} e (Q : res A -> S -> Prop) s : Q (Err e) s -> wp (mthrow e) Q s.
Proof. done. Qed.

Lemma wp_bind {A B} (m : M S A) (f : A -> M S B) Q s :
  wp m (fun x s' => match x with Ok a => wp (f a) Q s' | Err e => Q (Err e) s' end) s ->
  wp (mbnd m f) Q s.
Proof. unfold wp, mbnd. by destruct (m s) as [[a|e] s']. Qed.

Lemma wp_try {A} (m : M S A) Q s : wp m (fun x s' => Q (Ok x) s') s -> wp (mtry m) Q s.
Proof. unfold wp, mtry. by destruct (m s). Qed.

Lemma wp_get (Q : res S -> S -> Prop) s : Q (Ok s) s -> wp mget Q s.
Proof. done. Qed.

Lemma wp_mod (f : S -> S) (Q : res unit -> S -> Prop) s : Q (Ok tt) (f s) -> wp (mmod f) Q s.
Proof. done. Qed.

Lemma wp_if {A} (c : bool) (m1 m2 : M S A) Q s :
  (c = true -> wp m1 Q s) -> (c = false -> wp m2 Q s) -> wp (if c then m1 else m2) Q s.
Proof. destruct c; auto. Qed.

Lemma wp_lift {T A} (get : T -> S) (set : S -> T -> T) (m : M S A) Q t :
  wp m (fun x s' => Q x (set s' t)) (get t) -> wp (mlift get set m) Q t.
Proof. unfold wp, mlift. by destruct (m (get t)). Qed.

(** A loop keeps what its body keeps. *)
Lemma wp_fold {A B} (I : B -> S -> Prop) (l : list A) (b : B) (body : B -> A -> M S B)
  (Q : res B -> S -> Prop) s :
  I b s ->
  (forall b x s, x ∈ l -> I b s ->
     wp (body b x) (fun y s' => match y with Ok b' => I b' s' | Err e => Q (Err e) s' end) s) ->
  (forall b s, I b s -> Q (Ok b) s) ->
  wp (mfold l b body) Q s.
Proof.
  revert b s. induction l as [|x l IH]; intros b s Hb Hbody HQ; simpl; [by apply HQ|].
  apply wp_bind. eapply wp_mono; [apply Hbody; [constructor | exact Hb]|].
  intros [b'|e] s' Hs'; [|done]. apply IH; [done | | done].
  intros c y s1 Hy. apply Hbody. by constructor.
Qed.

(** The same with an invariant over the processed prefix. *)
Lemma wp_fold_prefix {A B} (I : list A -> B -> S -> Prop) (l : list A) (b : B) (body : B -> A -> M S B)
  (Q : res B -> S -> Prop) s :
  I [] b s ->
  (forall pre x post b s, l = pre ++ x :: post -> I pre b s ->
     wp (body b x) (fun y s' => match y with Ok b' => I (pre ++ [x]) b' s' | Err e => Q (Err e) s' end) s) ->
  (forall b s, I l b s -> Q (Ok b) s) ->
  wp (mfold l b body) Q s.
Proof.
  intros Hb Hbody HQ.
  assert (forall post pre b s, l = pre ++ post -> I pre b s -> wp (mfold post b body) Q s) as Hgen.
  { intros post. induction post as [|x post IH]; intros pre b0 s0 El HI; simpl.
    - apply HQ. rewrite app_nil_r in El. by subst l.
    - apply wp_bind. eapply wp_mono; [eapply Hbody; [exact El | exact HI]|].
      intros [b'|e] s' Hs'; [|done]. apply (IH (pre ++ [x])); [by rewrite <- app_assoc | done]. }
  by apply (Hgen l []).
Qed.

Lemma wp_for_prefix {A} (I : list A -> S -> Prop) (l : list A) (body : A -> M S unit)
  (Q : res unit -> S -> Prop) s :
  I [] s ->
  (forall pre x post s, l = pre ++ x :: post -> I pre s ->
     wp (body x) (fun y s' => match y with Ok _ => I (pre ++ [x]) s' | Err e => Q (Err e) s' end) s) ->
  (forall s, I l s -> Q (Ok tt) s) ->
  wp (mfor l body) Q s.
Proof.
  intros Hb Hbody HQ.
  assert (forall post pre s, l = pre ++ post -> I pre s -> wp (mfor post body) Q s) as Hgen.
  { intros post. induction post as [|x post IH]; intros pre s0 El HI; simpl.
    - apply HQ. rewrite app_nil_r in El. by subst l.
    - apply wp_bind. eapply wp_mono; [eapply Hbody; [exact El | exact HI]|].
      intros [[]|e] s' Hs'; [|done]. apply (IH (pre ++ [x])); [by rewrite <- app_assoc | done]. }
  by apply (Hgen l []).
Qed.

Lemma wp_for {A} (I : S -> Prop) (l : list A) (body : A -> M S unit) (Q : res unit -> S -> Prop) s :
  I s ->
  (forall x s, x ∈ l -> I s ->
     wp (body x) (fun y s' => match y with Ok _ => I s' | Err e => Q (Err e) s' end) s) ->
  (forall s, I s -> Q (Ok tt) s) ->
  wp (mfor l body) Q s.
Proof.
  revert s. induction l as [|x l IH]; intros s Hs Hbody HQ; simpl; [by apply HQ|].
  apply wp_bind. eapply wp_mono; [apply Hbody; [constructor | exact Hs]|].
  intros [[]|e] s' Hs'; [|done]. apply IH; [done | | done].
  intros y s1 Hy. apply Hbody. by constructor.
Qed.
End wp.

(** A run is its outcome and the state it leaves. *)
Lemma run_outcome {A B} (p : A * B) a : fst p = a -> p = (a, snd p).
Proof. by destruct p; intros <-. Qed.

(** One statement of a computation. *)
Ltac wp_step :=
  cbv beta iota;
  lazymatch goal with
  | |- wp (mbnd _ _) _ _ => apply wp_bind
  | |- wp (mret _) _ _ => apply wp_ret
  | |- wp (mthrow _) _ _ => apply wp_throw
  | |- wp (mtry _) _ _ => apply wp_try
  | |- wp mget _ _ => apply wp_get
  | |- wp (mmod _) _ _ => apply wp_mod
  | |- wp (mlift _ _ _) _ _ => apply wp_lift
  | |- wp (if _ then _ else _) _ _ => apply wp_if; intro
  | |- wp (match ?x with _ => _ end) _ _ => destruct x eqn:?
  end.
