(* ===== verification/GoTime.v ===== *)
(** Instants, durations and RFC 3339 text, as the code uses package [time].

    A [time.Time] is its instant: nanoseconds since the Unix epoch, in [Z].
    The location of a [time.Time] changes how it prints, not the instant, and
    every time the code turns into text is converted with [UTC()] first.  The
    theorems show that the text of an instant with a four-digit year parses
    back to the same second. *)

From stdpp Require Import pretty.
From S2P Require Import Prelude.

(** ** Instants and durations *)

Definition second : Z := 1000000000.
Definition millisecond : Z := 1000000.

(** [time.Time{}], midnight of 1 January of year 1, and [t.IsZero()]. *)
Definition zero_time : Z := -62135596800 * second.
Definition is_zero (t : Z) : bool := t =? zero_time.

(** [t.Unix()]: whole seconds, rounded towards minus infinity. *)
Definition unix (t : Z) : Z := t / second.

(** [time.Duration(n) * time.Second]: an [int64] product, which wraps. *)
Definition seconds (n : Z) : Z := wrap64 (n * second).

(** The seconds that fit a [time.Duration] without wrapping. *)
Definition max_duration_seconds : Z := 9223372036.

Lemma seconds_exact n :
  - max_duration_seconds <= n <= max_duration_seconds -> seconds n = n * second.
Proof.
  unfold max_duration_seconds, seconds, second. intros H.
  apply wrap64_id. unfold MinInt64, MaxInt64. lia.
Qed.

Lemma unix_add_seconds t n :
  - max_duration_seconds <= n <= max_duration_seconds -> unix (t + seconds n) = unix t + n.
Proof.
  intros H. rewrite seconds_exact by done. unfold unix. rewrite Z.div_add by done. done.
Qed.

(** ** The proleptic Gregorian calendar *)

Definition is_leap (y : Z) : bool :=
  (y mod 4 =? 0) && (negb (y mod 100 =? 0) || (y mod 400 =? 0)).

Definition days_in (m y : Z) : Z :=
  if m =? 2 then if is_leap y then 29 else 28
  else if (m =? 4) || (m =? 6) || (m =? 9) || (m =? 11) then 30 else 31.

(** Position of a day inside its 400-year era (eras start on 1 March):
    year of the era, month, day of the month. *)
Definition civil_of_doe (doe : Z) : Z * Z * Z :=
  let yoe := (doe - doe / 1460 + doe / 36524 - doe / 146096) / 365 in
  let doy := doe - (365 * yoe + yoe / 4 - yoe / 100) in
  let mp := (5 * doy + 2) / 153 in
  let d := doy - (153 * mp + 2) / 5 + 1 in
  let m := if mp <? 10 then mp + 3 else mp - 9 in
  (yoe, m, d).

Definition doe_of_civil (yoe m d : Z) : Z :=
  let mp := (m + 9) mod 12 in
  yoe * 365 + yoe / 4 - yoe / 100 + ((153 * mp + 2) / 5 + d - 1).

(** The civil date of the day [z] days after 1 January 1970, and back. *)
Definition civil_of_days (z : Z) : Z * Z * Z :=
  let '(yoe, m, d) := civil_of_doe ((z + 719468) mod 146097) in
  (yoe + 400 * ((z + 719468) / 146097) + (if m <=? 2 then 1 else 0), m, d).

Definition days_of_civil (y m d : Z) : Z :=
  let y' := y - (if m <=? 2 then 1 else 0) in
  146097 * (y' / 400) + doe_of_civil (y' mod 400) m d - 719468.

(** First day of a year of the era, and the year formula of [civil_of_doe]. *)
Definition year_start (yoe : Z) : Z := 365 * yoe + yoe / 4 - yoe / 100 + yoe / 400.
Definition year_of_doe (doe : Z) : Z := (doe - doe / 1460 + doe / 36524 - doe / 146096) / 365.

Lemma year_of_doe_mono a b : 0 <= a <= b -> year_of_doe a <= year_of_doe b.
Proof.
  intros H. apply Z.div_le_mono; [lia|].
  replace 146096 with (36524 * 4) by lia. rewrite <- !Z.div_div by lia.
  assert (b / 1460 - a / 1460 <= b - a) by (Z.to_euclidean_division_equations; lia).
  assert (a / 36524 <= b / 36524) by (apply Z.div_le_mono; lia).
  assert (a / 36524 - a / 36524 / 4 <= b / 36524 - b / 36524 / 4)
    by (set (x := a / 36524) in *; set (y := b / 36524) in *; Z.to_euclidean_division_equations; lia).
  lia.
Qed.

Fixpoint forall_below (n : nat) (P : Z -> bool) : bool :=
  match n with O => true | S n' => P (Z.of_nat n') && forall_below n' P end.

Lemma forall_below_spec n P z :
  forall_below n P = true -> 0 <= z < Z.of_nat n -> P z = true.
Proof.
  induction n as [|n IH]; intros H Hz; [lia|]. cbn [forall_below] in H.
  apply andb_true_iff in H as [H1 H2].
  destruct (decide (z = Z.of_nat n)) as [->|]; [done|]. apply IH; [done | lia].
Qed.

(** The year formula is right on the first and last day of each of the 400
    years, and a year has 366 days exactly when its February has 29. *)
Definition year_ok (y : Z) : bool :=
  (year_of_doe (year_start y) =? y) && (year_of_doe (year_start (y + 1) - 1) =? y)
  && ((year_start (y + 1) - year_start y =? 365) && negb (is_leap (y + 1))
      || (year_start (y + 1) - year_start y =? 366) && is_leap (y + 1)).

Lemma all_years_ok y : 0 <= y < 400 -> year_ok y = true.
Proof. apply (forall_below_spec 400). vm_compute. reflexivity. Qed.

Definition month_of_doy (doy : Z) : Z :=
  let mp := (5 * doy + 2) / 153 in if mp <? 10 then mp + 3 else mp - 9.
Definition day_of_doy (doy : Z) : Z := doy - (153 * ((5 * doy + 2) / 153) + 2) / 5 + 1.

(** Month and day of each of the 366 days of a year counted from 1 March. *)
Definition day_ok (doy : Z) : bool :=
  let m := month_of_doy doy in let d := day_of_doy doy in
  ((153 * ((m + 9) mod 12) + 2) / 5 + d - 1 =? doy) && (1 <=? m) && (m <=? 12) && (1 <=? d)
  && (if m =? 2 then (d <=? 28) || ((doy =? 365) && (d =? 29)) else d <=? days_in m 1).

Lemma all_days_ok doy : 0 <= doy < 366 -> day_ok doy = true.
Proof. apply (forall_below_spec 366). vm_compute. reflexivity. Qed.

Lemma year_exists n doe :
  0 <= doe < year_start (Z.of_nat n) ->
  exists y, 0 <= y < Z.of_nat n /\ year_start y <= doe < year_start (y + 1).
Proof.
  induction n as [|n IH]; intros H; [change (year_start (Z.of_nat 0)) with 0 in H; lia|].
  destruct (Z.lt_ge_cases doe (year_start (Z.of_nat n))) as [Hlt|Hge].
  - destruct IH as (y & ? & ?); [lia|]. exists y. lia.
  - exists (Z.of_nat n). replace (Z.of_nat n + 1) with (Z.of_nat (S n)) by lia. lia.
Qed.

Lemma days_in_not_feb m y1 y2 : m <> 2 -> days_in m y1 = days_in m y2.
Proof. intros H. unfold days_in. by rewrite (proj2 (Z.eqb_neq m 2)). Qed.

(** Every day of an era has a date, and the date gives the day back. *)
Lemma era_ok doe yoe m d :
  0 <= doe < 146097 -> civil_of_doe doe = (yoe, m, d) ->
  doe_of_civil yoe m d = doe /\ 0 <= yoe < 400 /\ 1 <= m <= 12 /\
  1 <= d <= days_in m (yoe + (if m <=? 2 then 1 else 0)).
Proof.
  intros Hdoe Hc. destruct (year_exists 400 doe) as (y & Hy & Hs); [done|].
  pose proof (all_years_ok y Hy) as Hok. unfold year_ok in Hok.
  rewrite !andb_true_iff, orb_true_iff, !andb_true_iff, negb_true_iff, !Z.eqb_eq in Hok.
  destruct Hok as [[H1 H2] H3].
  assert (year_of_doe doe = y) as Hyear.
  { assert (0 <= year_start y) by (unfold year_start; Z.to_euclidean_division_equations; lia).
    pose proof (year_of_doe_mono (year_start y) doe ltac:(lia)).
    pose proof (year_of_doe_mono doe (year_start (y + 1) - 1) ltac:(lia)). lia. }
  unfold civil_of_doe in Hc. fold (year_of_doe doe) in Hc. rewrite Hyear in Hc.
  assert (365 * y + y / 4 - y / 100 = year_start y) as Hst
    by (unfold year_start; rewrite (Z.div_small y 400) by lia; lia).
  cbv zeta in Hc. rewrite Hst in Hc.
  set (doy := doe - year_start y) in *.
  fold (day_of_doy doy) in Hc. fold (month_of_doy doy) in Hc. injection Hc as <- <- <-.
  pose proof (all_days_ok doy ltac:(subst doy; lia)) as Hd. unfold day_ok in Hd.
  rewrite !andb_true_iff, !Z.leb_le, Z.eqb_eq in Hd. destruct Hd as [[[[D1 D2] D3] D4] D5].
  unfold doe_of_civil. rewrite <- Z.add_sub_assoc in D1.
  split; [subst doy; lia|]. split; [done|]. split; [done|]. split; [done|].
  destruct (Z.eqb_spec (month_of_doy doy) 2) as [->|Hne].
  - simpl. unfold days_in. simpl.
    rewrite orb_true_iff, andb_true_iff, Z.leb_le, !Z.eqb_eq in D5.
    destruct D5 as [?|[? ?]], H3 as [[? Hl]|[? Hl]]; rewrite Hl; lia.
  - rewrite Z.leb_le in D5. by rewrite (days_in_not_feb _ _ 1).
Qed.

Lemma days_in_era m y e : days_in m (y + 400 * e) = days_in m y.
Proof.
  unfold days_in, is_leap.
  replace ((y + 400 * e) mod 4) with (y mod 4)
    by (replace (y + 400 * e) with (y + (100 * e) * 4) by lia; by rewrite Z.mod_add).
  replace ((y + 400 * e) mod 100) with (y mod 100)
    by (replace (y + 400 * e) with (y + (4 * e) * 100) by lia; by rewrite Z.mod_add).
  replace ((y + 400 * e) mod 400) with (y mod 400)
    by (replace (y + 400 * e) with (y + e * 400) by lia; by rewrite Z.mod_add).
  done.
Qed.

Lemma civil_roundtrip z y m d :
  civil_of_days z = (y, m, d) ->
  days_of_civil y m d = z /\ 1 <= m <= 12 /\ 1 <= d <= days_in m y.
Proof.
  unfold civil_of_days, days_of_civil.
  pose proof (Z.mod_pos_bound (z + 719468) 146097 ltac:(lia)) as Hr.
  pose proof (Z.div_mod (z + 719468) 146097 ltac:(lia)) as Hd.
  set (e := (z + 719468) / 146097) in *. set (doe := (z + 719468) mod 146097) in *.
  destruct (civil_of_doe doe) as [[yoe m'] d'] eqn:E.
  destruct (era_ok doe yoe m' d' Hr E) as (Hok & ? & ? & ?).
  intros Heq. injection Heq as <- <- <-.
  set (c := if m' <=? 2 then 1 else 0) in *.
  replace (yoe + 400 * e + c - c) with (yoe + e * 400) by lia.
  rewrite Z.div_add, Z.div_small, Z.mod_add, Z.mod_small by lia.
  replace (yoe + 400 * e + c) with (yoe + c + 400 * e) by lia. rewrite days_in_era.
  lia.
Qed.

(** ** RFC 3339 text *)

Definition digit (n : Z) : ascii := byte (48 + n mod 10).
Definition pad2 (n : Z) : string := String (digit (n / 10)) (String (digit n) "").
Definition pad4 (n : Z) : string :=
  String (digit (n / 1000)) (String (digit (n / 100)) (String (digit (n / 10)) (String (digit n) ""))).

(** The year is padded to four digits and never truncated. *)
Definition year_text (y : Z) : string :=
  let pos n := if n <=? 9999 then pad4 n else pretty n in
  if y <? 0 then "-" +:+ pos (- y) else pos y.

(** [t.UTC().Format(time.RFC3339)]. *)
Definition FormatRFC3339 (t : Z) : string :=
  let s := unix t in
  let '(y, m, d) := civil_of_days (s / 86400) in
  let sod := s mod 86400 in
  year_text y +:+ "-" +:+ pad2 m +:+ "-" +:+ pad2 d +:+ "T" +:+
  pad2 (sod / 3600) +:+ ":" +:+ pad2 (sod / 60 mod 60) +:+ ":" +:+ pad2 (sod mod 60) +:+ "Z".

Definition digit_val (a : ascii) : option Z :=
  if (48 <=? ch a) && (ch a <=? 57) then Some (ch a - 48) else None.

(** [parseUint(s, min, max)] of the RFC 3339 parser. *)
Fixpoint digits_val (s : string) (acc : Z) : option Z :=
  match s with
  | EmptyString => Some acc
  | String a s' => match digit_val a with Some v => digits_val s' (acc * 10 + v) | None => None end
  end.
Definition parse_uint (s : string) (lo hi : Z) : option Z :=
  match digits_val s 0 with
  | Some x => if (lo <=? x) && (x <=? hi) then Some x else None
  | None => None
  end.

Fixpoint skip_digits (s : string) : string :=
  match s with
  | EmptyString => EmptyString
  | String a s' => match digit_val a with Some _ => skip_digits s' | None => s end
  end.

(** The zone suffix: [Z], or a signed [hh:mm] offset, in seconds. *)
Definition parse_zone (s : string) : option Z :=
  if bool_decide (s = "Z") then Some 0
  else match s with
  | String sg (String h1 (String h2 (String c (String m1 (String m2 EmptyString))))) =>
      match parse_uint (String h1 (String h2 "")) 0 23, parse_uint (String m1 (String m2 "")) 0 59 with
      | Some hr, Some mm =>
          if Ascii.eqb c ":" then
            if Ascii.eqb sg "-" then Some (- (hr * 60 + mm) * 60)
            else if Ascii.eqb sg "+" then Some ((hr * 60 + mm) * 60) else None
          else None
      | _, _ => None
      end
  | _ => None
  end.

(** [time.Parse(time.RFC3339, s)] followed by [Unix()]: the second the text
    denotes, [None] for a parse error. *)
Definition ParseRFC3339 (s : string) : option Z :=
  match s with
  | String y1 (String y2 (String y3 (String y4 (String h1 (String mo1 (String mo2 (String h2
    (String d1 (String d2 (String tsep (String hh1 (String hh2 (String c1 (String mi1 (String mi2
    (String c2 (String s1 (String s2 rest)))))))))))))))))) =>
      match parse_uint (String y1 (String y2 (String y3 (String y4 "")))) 0 9999,
            parse_uint (String mo1 (String mo2 "")) 1 12 with
      | Some y, Some mo =>
          match parse_uint (String d1 (String d2 "")) 1 (days_in mo y),
                parse_uint (String hh1 (String hh2 "")) 0 23,
                parse_uint (String mi1 (String mi2 "")) 0 59,
                parse_uint (String s1 (String s2 "")) 0 59 with
          | Some d, Some hh, Some mi, Some sc =>
              if Ascii.eqb h1 "-" && Ascii.eqb h2 "-" && Ascii.eqb tsep "T"
                 && Ascii.eqb c1 ":" && Ascii.eqb c2 ":" then
                let rest' := match rest with
                             | String "."%char (String f r) =>
                                 match digit_val f with Some _ => skip_digits r | None => rest end
                             | _ => rest
                             end in
                match parse_zone rest' with
                | Some off =>
                    Some (days_of_civil y mo d * 86400 + hh * 3600 + mi * 60 + sc - off)
                | None => None
                end
              else None
          | _, _, _, _ => None
          end
      | _, _ => None
      end
  | _ => None
  end.

Lemma digit_val_digit n : digit_val (digit n) = Some (n mod 10).
Proof.
  unfold digit_val, digit. rewrite ch_byte.
  pose proof (Z.mod_pos_bound n 10 ltac:(lia)).
  rewrite Z.mod_small by lia.
  rewrite (proj2 (Z.leb_le _ _)), (proj2 (Z.leb_le _ _)) by lia. simpl. f_equal. lia.
Qed.

Lemma parse_pad2 n lo hi : 0 <= n < 100 -> lo <= n <= hi -> parse_uint (pad2 n) lo hi = Some n.
Proof.
  intros H Hb. unfold parse_uint, pad2. cbn [digits_val]. rewrite !digit_val_digit.
  assert ((0 * 10 + n / 10 mod 10) * 10 + n mod 10 = n) as ->
    by (Z.to_euclidean_division_equations; lia).
  rewrite (proj2 (Z.leb_le _ _)), (proj2 (Z.leb_le _ _)) by lia. done.
Qed.

Lemma parse_pad4 n : 0 <= n <= 9999 -> parse_uint (pad4 n) 0 9999 = Some n.
Proof.
  intros H. unfold parse_uint, pad4. cbn [digits_val]. rewrite !digit_val_digit.
  assert ((((0 * 10 + n / 1000 mod 10) * 10 + n / 100 mod 10) * 10 + n / 10 mod 10) * 10 + n mod 10 = n)
    as -> by (Z.to_euclidean_division_equations; lia).
  rewrite (proj2 (Z.leb_le _ _)), (proj2 (Z.leb_le _ _)) by lia. done.
Qed.

Lemma days_in_31 m y : days_in m y <= 31.
Proof. unfold days_in. repeat case_match; lia. Qed.

(** Text of a four-digit year parses back to the second it was made from. *)
Lemma parse_format t y m d :
  civil_of_days (unix t / 86400) = (y, m, d) -> 0 <= y <= 9999 ->
  ParseRFC3339 (FormatRFC3339 t) = Some (unix t).
Proof.
  intros Hc Hy. destruct (civil_roundtrip _ _ _ _ Hc) as (Hd & Hm & Hdm).
  unfold FormatRFC3339. rewrite Hc. unfold year_text.
  rewrite (proj2 (Z.ltb_ge _ _)), (proj2 (Z.leb_le _ _)) by lia.
  set (sod := unix t mod 86400).
  assert (0 <= sod < 86400) as Hs by (apply Z.mod_pos_bound; lia).
  pose proof (days_in_31 m y).
  pose proof (parse_pad4 y Hy) as P1.
  pose proof (parse_pad2 m 1 12 ltac:(lia) Hm) as P2.
  pose proof (parse_pad2 d 1 (days_in m y) ltac:(lia) Hdm) as P3.
  pose proof (parse_pad2 (sod / 3600) 0 23 ltac:(Z.to_euclidean_division_equations; lia)
                ltac:(Z.to_euclidean_division_equations; lia)) as P4.
  pose proof (parse_pad2 (sod / 60 mod 60) 0 59 ltac:(Z.to_euclidean_division_equations; lia)
                ltac:(Z.to_euclidean_division_equations; lia)) as P5.
  pose proof (parse_pad2 (sod mod 60) 0 59 ltac:(Z.to_euclidean_division_equations; lia)
                ltac:(Z.to_euclidean_division_equations; lia)) as P6.
  unfold pad2, pad4 in *. rewrite !app_cons_s, !app_empty_s.
  unfold ParseRFC3339. rewrite P1, P2, P3, P4, P5, P6. cbn. f_equal.
  rewrite Hd. pose proof (Z.div_mod (unix t) 86400 ltac:(lia)) as E. fold sod in E.
  assert (sod = sod / 3600 * 3600 + (sod / 60 mod 60) * 60 + sod mod 60)
    by (clearbody sod; clear - Hs; Z.to_euclidean_division_equations; lia).
  lia.
Qed.

(** The instants RFC 3339 can write. *)
Definition four_digit_year (t : Z) : bool :=
  let '(y, _, _) := civil_of_days (unix t / 86400) in (0 <=? y) && (y <=? 9999).

Lemma four_digit_parse t : four_digit_year t = true -> ParseRFC3339 (FormatRFC3339 t) = Some (unix t).
Proof.
  unfold four_digit_year. destruct (civil_of_days (unix t / 86400)) as [[y m] d] eqn:E.
  rewrite andb_true_iff, !Z.leb_le. intros Hy. by eapply parse_format.
Qed.

(** Lease times survive their text: formatting an instant as RFC 3339 in
    UTC and parsing it back gives its Unix second, for every instant from year
    0 to 9999; the Gregorian calendar is computed exactly on the way. *)
Theorem rfc3339_roundtrip t :
  four_digit_year t = true -> ParseRFC3339 (FormatRFC3339 t) = Some (unix t).
Proof. apply four_digit_parse. Qed.

Lemma rfc3339_roundtrip_witness :
  ParseRFC3339 (FormatRFC3339 (1709164800 * second)) = Some 1709164800 /\
  FormatRFC3339 (1709164800 * second) = "2024-02-29T00:00:00Z".
Proof.
  split; [apply (rfc3339_roundtrip (1709164800 * second)); vm_compute; reflexivity | vm_compute; reflexivity].
Defined.
