(* ===== verification/Domain.v ===== *)
(** The data model of package [domain] ([src/pkg/domain]): tasks, results,
    batch records and queue statistics, and the JSON codec the repositories
    store them with.

    [Command], [TaskStatus] and [TaskLocation] are string types in Go with
    named constants, and stay strings here.  [Task.Error] is named
    [TaskError].  The JSON codec (package [sonic]) is outside the repository;
    it is the class [JSON], whose law is that decoding inverts encoding. *)

From S2P Require Import Prelude GoTime.

(** ** Constants *)

Definition CmdGenerateMaster : string := "GENERATE_MASTER".
Definition CmdGenerateCreative : string := "GENERATE_CREATIVE".

Definition StatusPending : string := "PENDING".
Definition StatusInProgress : string := "IN_PROGRESS".
Definition StatusCompleted : string := "COMPLETED".
Definition StatusFailed : string := "FAILED".

Definition LocationPending : string := "PENDING_LIST".
Definition LocationDelayed : string := "DELAYED_ZSET".
Definition LocationInProgress : string := "INPROG_SET".
Definition LocationDLQ : string := "DLQ_SET".
Definition LocationNone : string := "NONE".

(** Two different statuses for one task. *)
Ltac status_contra :=
  exfalso; unfold StatusPending, StatusInProgress, StatusCompleted, StatusFailed in *; congruence.

(** ** Tasks *)

Record Task := mkTask {
  ID : string;
  Command : string;
  Payload : string;
  Priority : Z;
  Webhook : string;
  TraceParent : string;
  TraceState : string;
  Status : string;
  LastKnownLocation : string;
  WorkerID : string;
  LeaseUntil : string;
  Attempts : Z;
  MaxAttempts : Z;
  TaskError : string;
  ResultKey : string;
  TenantID : string;
  CreatedAt : Z;
  UpdatedAt : Z
}.

#[export] Instance Task_eq_dec : EqDecision Task.
Proof. solve_decision. Defined.

(** Assignments to one field. *)
Definition set_Status (v : string) (t : Task) : Task :=
  mkTask t.(ID) t.(Command) t.(Payload) t.(Priority) t.(Webhook) t.(TraceParent) t.(TraceState) v t.(LastKnownLocation) t.(WorkerID) t.(LeaseUntil) t.(Attempts) t.(MaxAttempts) t.(TaskError) t.(ResultKey) t.(TenantID) t.(CreatedAt) t.(UpdatedAt).
Definition set_LastKnownLocation (v : string) (t : Task) : Task :=
  mkTask t.(ID) t.(Command) t.(Payload) t.(Priority) t.(Webhook) t.(TraceParent) t.(TraceState) t.(Status) v t.(WorkerID) t.(LeaseUntil) t.(Attempts) t.(MaxAttempts) t.(TaskError) t.(ResultKey) t.(TenantID) t.(CreatedAt) t.(UpdatedAt).
Definition set_WorkerID (v : string) (t : Task) : Task :=
  mkTask t.(ID) t.(Command) t.(Payload) t.(Priority) t.(Webhook) t.(TraceParent) t.(TraceState) t.(Status) t.(LastKnownLocation) v t.(LeaseUntil) t.(Attempts) t.(MaxAttempts) t.(TaskError) t.(ResultKey) t.(TenantID) t.(CreatedAt) t.(UpdatedAt).
Definition set_LeaseUntil (v : string) (t : Task) : Task :=
  mkTask t.(ID) t.(Command) t.(Payload) t.(Priority) t.(Webhook) t.(TraceParent) t.(TraceState) t.(Status) t.(LastKnownLocation) t.(WorkerID) v t.(Attempts) t.(MaxAttempts) t.(TaskError) t.(ResultKey) t.(TenantID) t.(CreatedAt) t.(UpdatedAt).
Definition set_Attempts (v : Z) (t : Task) : Task :=
  mkTask t.(ID) t.(Command) t.(Payload) t.(Priority) t.(Webhook) t.(TraceParent) t.(TraceState) t.(Status) t.(LastKnownLocation) t.(WorkerID) t.(LeaseUntil) v t.(MaxAttempts) t.(TaskError) t.(ResultKey) t.(TenantID) t.(CreatedAt) t.(UpdatedAt).
Definition set_MaxAttempts (v : Z) (t : Task) : Task :=
  mkTask t.(ID) t.(Command) t.(Payload) t.(Priority) t.(Webhook) t.(TraceParent) t.(TraceState) t.(Status) t.(LastKnownLocation) t.(WorkerID) t.(LeaseUntil) t.(Attempts) v t.(TaskError) t.(ResultKey) t.(TenantID) t.(CreatedAt) t.(UpdatedAt).
Definition set_TaskError (v : string) (t : Task) : Task :=
  mkTask t.(ID) t.(Command) t.(Payload) t.(Priority) t.(Webhook) t.(TraceParent) t.(TraceState) t.(Status) t.(LastKnownLocation) t.(WorkerID) t.(LeaseUntil) t.(Attempts) t.(MaxAttempts) v t.(ResultKey) t.(TenantID) t.(CreatedAt) t.(UpdatedAt).
Definition set_ResultKey (v : string) (t : Task) : Task :=
  mkTask t.(ID) t.(Command) t.(Payload) t.(Priority) t.(Webhook) t.(TraceParent) t.(TraceState) t.(Status) t.(LastKnownLocation) t.(WorkerID) t.(LeaseUntil) t.(Attempts) t.(MaxAttempts) t.(TaskError) v t.(TenantID) t.(CreatedAt) t.(UpdatedAt).
Definition set_UpdatedAt (v : Z) (t : Task) : Task :=
  mkTask t.(ID) t.(Command) t.(Payload) t.(Priority) t.(Webhook) t.(TraceParent) t.(TraceState) t.(Status) t.(LastKnownLocation) t.(WorkerID) t.(LeaseUntil) t.(Attempts) t.(MaxAttempts) t.(TaskError) t.(ResultKey) t.(TenantID) t.(CreatedAt) v.

(** ** Results and batch records *)

Record ArtifactIn := mkArtifactIn {
  ain_Name : string; ain_URL : string; ain_ContentBase64 : string; ain_ContentType : string
}.

Record ArtifactOut := mkArtifactOut { aout_Name : string; aout_URL : string }.

(** [Result] is a decoded JSON object the code only stores; it is kept as its
    text, [None] being the nil map. *)
Record ResultRecord := mkResultRecord {
  rr_TaskID : string;
  rr_Status : string;
  rr_Result : option string;
  rr_Error : string;
  rr_Artifacts : list ArtifactOut;
  rr_CompletedAt : Z
}.

Record SubmitResultRequest := mkSubmit {
  sr_WorkerID : string;
  sr_Status : string;
  sr_Result : option string;
  sr_Error : string;
  sr_Artifacts : list ArtifactIn
}.

Record TaskCompleteUpdate := mkUpdate { up_ID : string; up_Status : string; up_ErrorMsg : string }.
Record TaskDeleteInfo := mkDelete { del_ID : string; del_Command : string; del_TenantID : string }.

Record QueueStats := mkStats {
  qs_Command : string; qs_Ready : Z; qs_Delayed : Z; qs_InProgress : Z; qs_DLQ : Z
}.

(** ** The JSON codec *)

(** [sonic.Marshal] and [sonic.Unmarshal] on tasks and result records.  The
    law is the documented round trip of JSON encoding for values whose
    strings are valid UTF-8 and whose times have four-digit years, which is
    what the handlers build. *)
Class JSON := {
  marshal_task : Task -> string;
  unmarshal_task : string -> option Task;
  marshal_result : ResultRecord -> string;
  unmarshal_result : string -> option ResultRecord
}.

Class JSONLaws `{JSON} : Prop := {
  task_roundtrip t : unmarshal_task (marshal_task t) = Some t;
  result_roundtrip r : unmarshal_result (marshal_result r) = Some r
}.

(** ** A concrete codec *)

(** A framed text encoding: an instance of [JSON] on which the laws are
    theorems and that evaluates, for the concrete runs.  It is not the format
    of the store. *)
Module framed.

Fixpoint pos_text (p : positive) : string :=
  match p with
  | xH => ""
  | xO p => String "0" (pos_text p)
  | xI p => String "1" (pos_text p)
  end.
Fixpoint text_pos (s : string) : positive :=
  match s with
  | EmptyString => xH
  | String a s => if Ascii.eqb a "1" then xI (text_pos s) else xO (text_pos s)
  end.

Definition z_text (z : Z) : string :=
  match z with Z0 => "" | Zpos p => String "+" (pos_text p) | Zneg p => String "-" (pos_text p) end.
Definition text_z (s : string) : Z :=
  match s with
  | EmptyString => 0
  | String a s => if Ascii.eqb a "+" then Zpos (text_pos s) else Zneg (text_pos s)
  end.

(** One field: every byte after a ['.'], closed by ['!']. *)
Fixpoint frame1 (s rest : string) : string :=
  match s with
  | EmptyString => String "!" rest
  | String a s => String "." (String a (frame1 s rest))
  end.
Fixpoint frame (l : list string) : string :=
  match l with [] => "" | s :: l => frame1 s (frame l) end.

Fixpoint unframe (s : string) : option (list string) :=
  match s with
  | EmptyString => Some []
  | String a s' =>
      if Ascii.eqb a "!" then match unframe s' with Some l => Some ("" :: l) | None => None end
      else match s' with
           | String c s'' =>
               match unframe s'' with
               | Some (f :: l) => Some (String c f :: l)
               | _ => None
               end
           | EmptyString => None
           end
  end.

Definition task_text (t : Task) : string :=
  frame [t.(ID); t.(Command); t.(Payload); z_text t.(Priority); t.(Webhook); t.(TraceParent);
         t.(TraceState); t.(Status); t.(LastKnownLocation); t.(WorkerID); t.(LeaseUntil);
         z_text t.(Attempts); z_text t.(MaxAttempts); t.(TaskError); t.(ResultKey); t.(TenantID);
         z_text t.(CreatedAt); z_text t.(UpdatedAt)].
Definition text_task (s : string) : option Task :=
  match unframe s with
  | Some [a; b; c; d; e; f; g; h; i; j; k; l; m; n; o; p; q; r] =>
      Some (mkTask a b c (text_z d) e f g h i j k (text_z l) (text_z m) n o p (text_z q) (text_z r))
  | _ => None
  end.

Definition artifact_text (a : ArtifactOut) : string := frame [aout_Name a; aout_URL a].
Definition text_artifact (s : string) : option ArtifactOut :=
  match unframe s with Some [n; u] => Some (mkArtifactOut n u) | _ => None end.

Definition result_text (r : ResultRecord) : string :=
  frame [rr_TaskID r; rr_Status r; match rr_Result r with Some v => String "=" v | None => "" end;
         rr_Error r; frame (map artifact_text (rr_Artifacts r)); z_text (rr_CompletedAt r)].
Definition text_result (s : string) : option ResultRecord :=
  match unframe s with
  | Some [i; st; v; e; arts; c] =>
      match unframe arts with
      | Some l => Some (mkResultRecord i st (match v with String _ v => Some v | EmptyString => None end)
                          e (omap text_artifact l) (text_z c))
      | None => None
      end
  | _ => None
  end.

Lemma text_pos_text p : text_pos (pos_text p) = p.
Proof. by induction p as [p IH|p IH|]; simpl; rewrite ?IH. Qed.

Lemma text_z_text z : text_z (z_text z) = z.
Proof. by destruct z; simpl; rewrite ?text_pos_text. Qed.

Lemma unframe_frame l : unframe (frame l) = Some l.
Proof.
  induction l as [|s l IH]; [done|]. simpl.
  induction s as [|a s IHs]; simpl; [by rewrite IH | by rewrite IHs].
Qed.

Lemma text_artifact_text a : text_artifact (artifact_text a) = Some a.
Proof. destruct a. unfold text_artifact, artifact_text. by rewrite unframe_frame. Qed.

Lemma artifacts_text arts : omap text_artifact (map artifact_text arts) = arts.
Proof.
  induction arts as [|a arts IH]; [done|]. cbn [map].
  change (omap text_artifact (artifact_text a :: map artifact_text arts))
    with (match text_artifact (artifact_text a) with
          | Some y => y :: omap text_artifact (map artifact_text arts)
          | None => omap text_artifact (map artifact_text arts)
          end).
  by rewrite text_artifact_text, IH.
Qed.

#[export] Instance codec : JSON := {
  marshal_task := task_text;
  unmarshal_task := text_task;
  marshal_result := result_text;
  unmarshal_result := text_result
}.

#[export] Instance codec_laws : JSONLaws.
Proof.
  split.
  - intros []. simpl. unfold text_task, task_text. rewrite unframe_frame. simpl.
    by rewrite !text_z_text.
  - intros [i st v e arts c]. unfold unmarshal_result, marshal_result, codec, text_result, result_text.
    rewrite unframe_frame. cbn [rr_TaskID rr_Status rr_Result rr_Error rr_Artifacts rr_CompletedAt].
    rewrite unframe_frame, text_z_text, artifacts_text.
    by destruct v.
Qed.

End framed.
