(* ===== verification/Keys.v ===== *)
(** The key layout of the Pebble store ([src/internal/repository/pebble/keys.go],
    [time_score.go], and the key parsers of [task_repository.go] and [db.go]).

    The operations are translated byte for byte.  [qkey] is the typed view of
    the keyspace: one constructor per family of keys, with [enc] its encoding.
    The theorems show that [enc] is injective on well-formed keys, that the
    ordered families sort by their numeric components, that the scan bounds
    cover exactly the keys they are meant to cover, and that the parsers
    return what the encoders put in. *)

From S2P Require Import Prelude GoTime Domain.

(** ** Prefixes and segments *)

Definition namespace : string := "codeq/".
Definition pTasks : string := namespace +:+ "tasks/".
Definition pResults : string := namespace +:+ "results/".
Definition pIdempo : string := namespace +:+ "idempo/".
Definition pLease : string := namespace +:+ "lease/".
Definition pTTL : string := namespace +:+ "ttl/".
Definition pQueue : string := namespace +:+ "q/".

Definition segPending : string := "/pending/".
Definition segInprog : string := "/inprog/".
Definition segDelayed : string := "/delayed/".
Definition segDLQ : string := "/dlq/".
Definition emptyTenant : string := "_".

(** [strings.ToLower] on ASCII text. *)
Definition lower_byte (a : ascii) : ascii :=
  if (65 <=? ch a) && (ch a <=? 90) then byte (ch a + 32) else a.
Fixpoint ToLower (s : string) : string :=
  match s with
  | EmptyString => EmptyString
  | String a s' => String (lower_byte a) (ToLower s')
  end.

Definition tenantSeg (tenantID : string) : string :=
  if bool_decide (tenantID = "") then emptyTenant else tenantID.

Definition cmdSeg (cmd : string) : string := ToLower cmd.

Definition be8 (n : Z) : string := be_bytes 8 n.
Global Arguments be8 : simpl never.

(** ** Single keys *)

Definition KeyTask (id : string) : string := pTasks +:+ id.
Definition KeyResult (id : string) : string := pResults +:+ id.
Definition KeyIdempo (key : string) : string := pIdempo +:+ key.
Definition KeyLease (id : string) : string := pLease +:+ id.

Definition KeyTTLIndex (expireUnix : Z) (id : string) : string :=
  pTTL +:+ be8 expireUnix +:+ "/" +:+ id.

(** ** Queue keys *)

Definition queueBase (cmd tenantID : string) : string :=
  pQueue +:+ cmdSeg cmd +:+ "/" +:+ tenantSeg tenantID.

Definition KeyPending (cmd tenantID : string) (prio seq : Z) (id : string) : string :=
  (queueBase cmd tenantID +:+ segPending) +:+ String (byte prio) "" +:+ "/" +:+ be8 seq +:+ "/" +:+ id.

(** [prefixUpper p]: increment the last byte that is not 0xff and drop what
    follows it; [None] is the nil bound of an all-0xff prefix. *)
Fixpoint prefixUpper (p : string) : option string :=
  match p with
  | EmptyString => None
  | String a p' =>
      match prefixUpper p' with
      | Some u => Some (String a u)
      | None => if ch a <? 255 then Some (String (byte (ch a + 1)) "") else None
      end
  end.

Definition PrefixPendingPrio (cmd tenantID : string) (prio : Z) : string * option string :=
  let p := (queueBase cmd tenantID +:+ segPending) +:+ String (byte prio) "/" in
  (p, prefixUpper p).

Definition PrefixPendingAllPrios (cmd tenantID : string) : string * option string :=
  let base := queueBase cmd tenantID +:+ segPending in (base, prefixUpper base).

Definition KeyInprog (cmd tenantID id : string) : string :=
  queueBase cmd tenantID +:+ segInprog +:+ id.

Definition PrefixInprog (cmd tenantID : string) : string * option string :=
  let p := queueBase cmd tenantID +:+ segInprog in (p, prefixUpper p).

Definition KeyDelayed (cmd tenantID : string) (scoreUnix : Z) (id : string) : string :=
  (queueBase cmd tenantID +:+ segDelayed) +:+ be8 scoreUnix +:+ "/" +:+ id.

(** The bound is exclusive at score [maxScoreUnix + 1], a [uint64] addition. *)
Definition PrefixDelayedUpTo (cmd tenantID : string) (maxScoreUnix : Z) : string * option string :=
  let base := queueBase cmd tenantID +:+ segDelayed in
  (base, Some (base +:+ be8 (wrapu64 (maxScoreUnix + 1)))).

Definition PrefixDelayed (cmd tenantID : string) : string * option string :=
  let p := queueBase cmd tenantID +:+ segDelayed in (p, prefixUpper p).

Definition KeyDLQ (cmd tenantID id : string) : string :=
  queueBase cmd tenantID +:+ segDLQ +:+ id.

Definition PrefixDLQ (cmd tenantID : string) : string * option string :=
  let p := queueBase cmd tenantID +:+ segDLQ in (p, prefixUpper p).

Definition PrefixTTL : string * option string := (pTTL, prefixUpper pTTL).

Definition PrefixLease : string * option string := (pLease, prefixUpper pLease).

(** ** Parsers *)

(** What follows the last ['/'] ([strings.LastIndexByte] and the tail). *)
Fixpoint after_last_slash (s : string) : option string :=
  match s with
  | EmptyString => None
  | String a s' =>
      match after_last_slash s' with
      | Some r => Some r
      | None => if Ascii.eqb a "/" then Some s' else None
      end
  end.

Definition ParsePendingKey (key : string) : option string := after_last_slash key.

(** A key ending in ['/'] has no id. *)
Definition ParseDelayedKey (key : string) : option string :=
  match after_last_slash key with
  | Some "" => None
  | r => r
  end.

(** [indexOf s sub]: first index of [sub] in [s], -1 when it does not occur. *)
Fixpoint index_from (s sub : string) (i : Z) : Z :=
  if has_prefix sub s then i
  else match s with
       | EmptyString => -1
       | String _ s' => index_from s' sub (i + 1)
       end.
Definition indexOf (s sub : string) : Z := index_from s sub 0.

(** [strings.Contains]. *)
Definition contains_s (s sub : string) : bool := 0 <=? indexOf s sub.

(** [s[n:]] for an index in range. *)
Fixpoint drop_s (n : nat) (s : string) : string :=
  match n, s with
  | S n', String _ s' => drop_s n' s'
  | _, _ => s
  end.
Fixpoint take_s (n : nat) (s : string) : string :=
  match n, s with
  | S n', String a s' => String a (take_s n' s')
  | _, _ => EmptyString
  end.

(** [splitN s sep n]: at most [n] parts, the last one the unsplit rest. *)
Fixpoint split_go (s : string) (sep : ascii) (k : nat) (cur : string) : list string :=
  match s with
  | EmptyString => [cur]
  | String a s' =>
      match k with
      | O => [cur +:+ s]
      | S k' => if Ascii.eqb a sep then cur :: split_go s' sep k' ""
                else split_go s' sep k (cur +:+ String a "")
      end
  end.
Definition splitN (s : string) (sep : ascii) (n : nat) : list string := split_go s sep (n - 1) "".

Definition bytesHasSuffix (s suffix : string) : bool :=
  (String.length suffix <=? String.length s)%nat &&
  bool_decide (drop_s (String.length s - String.length suffix) s = suffix).

(** [beUint64 b]: zero on short input. *)
Definition beUint64 (b : string) : Z :=
  match b with
  | String b0 (String b1 (String b2 (String b3 (String b4 (String b5 (String b6 (String b7 _))))))) =>
      Z.lor (Z.lor (Z.lor (Z.lor (Z.lor (Z.lor (Z.lor
        (Z.shiftl (ch b0) 56) (Z.shiftl (ch b1) 48)) (Z.shiftl (ch b2) 40)) (Z.shiftl (ch b3) 32))
        (Z.shiftl (ch b4) 24)) (Z.shiftl (ch b5) 16)) (Z.shiftl (ch b6) 8)) (ch b7)
  | _ => 0
  end.

(** ** Time scores *)

Definition nonNegativeInt64 (value : Z) : Z := if value <? 0 then 0 else value.
Definition unixSeconds (value : Z) : Z := nonNegativeInt64 (unix value).
Definition storedInt64 (value : Z) : option Z := if MaxInt64 <? value then None else Some value.

(** ** The typed keyspace *)

(** [c] and [t] are the command and tenant segments as they stand in keys. *)
Inductive qkey :=
  | KTask (id : string)
  | KResult (id : string)
  | KIdempo (key : string)
  | KTTL (expire : Z) (id : string)
  | KPending (c t : string) (prio seq : Z) (id : string)
  | KInprog (c t id : string)
  | KDelayed (c t : string) (score : Z) (id : string)
  | KDLQ (c t id : string).

#[export] Instance qkey_eq_dec : EqDecision qkey.
Proof. solve_decision. Defined.

Definition qbase (c t : string) : string := pQueue +:+ c +:+ String "/" (t +:+ "/").

Definition enc (q : qkey) : string :=
  match q with
  | KTask id => pTasks +:+ id
  | KResult id => pResults +:+ id
  | KIdempo k => pIdempo +:+ k
  | KTTL e id => pTTL +:+ be8 e +:+ String "/" id
  | KPending c t p s id =>
      qbase c t +:+ "pending/" +:+ String (byte p) (String "/" (be8 s +:+ String "/" id))
  | KInprog c t id => qbase c t +:+ "inprog/" +:+ id
  | KDelayed c t s id => qbase c t +:+ "delayed/" +:+ be8 s +:+ String "/" id
  | KDLQ c t id => qbase c t +:+ "dlq/" +:+ id
  end.

(** A path segment holds no ['/'] and no NUL (the separators of keys and of
    the in-memory queue names).  Commands and tenants are segments in every
    deployment that names them with identifiers; the layout is unambiguous for
    those. *)
Definition seg_ok (s : string) : bool := negb (elem "/" s) && negb (elem Ascii.zero s).

Definition uint64 (z : Z) : Prop := 0 <= z < two64.

Definition wf_qkey (q : qkey) : Prop :=
  match q with
  | KTTL e _ => uint64 e
  | KPending c t p s _ => seg_ok c = true /\ seg_ok t = true /\ 0 <= p < 256 /\ uint64 s
  | KDelayed c t s _ => seg_ok c = true /\ seg_ok t = true /\ uint64 s
  | KInprog c t _ | KDLQ c t _ => seg_ok c = true /\ seg_ok t = true
  | _ => True
  end.

(** ** Parts of a byte string *)

Lemma drop_app_s x y : drop_s (String.length x) (x +:+ y) = y.
Proof. induction x as [|a x IH]; rewrite ?app_cons_s, ?app_empty_s; [by destruct y | exact IH]. Qed.

Lemma take_app_s x y : take_s (String.length x) (x +:+ y) = x.
Proof.
  induction x as [|a x IH]; rewrite ?app_cons_s, ?app_empty_s; [by destruct y|].
  cbn [String.length take_s]. by rewrite IH.
Qed.

(** ** The code's keys are the typed keys *)

Ltac key_eq :=
  unfold KeyPending, KeyInprog, KeyDelayed, KeyDLQ, KeyTTLIndex, queueBase, enc, qbase,
    segPending, segInprog, segDelayed, segDLQ;
  repeat (rewrite app_assoc_s || rewrite app_cons_s || rewrite app_empty_s); reflexivity.

Lemma KeyPending_enc c t p s id : KeyPending c t p s id = enc (KPending (cmdSeg c) (tenantSeg t) p s id).
Proof. key_eq. Qed.
Lemma KeyInprog_enc c t id : KeyInprog c t id = enc (KInprog (cmdSeg c) (tenantSeg t) id).
Proof. key_eq. Qed.
Lemma KeyDelayed_enc c t s id : KeyDelayed c t s id = enc (KDelayed (cmdSeg c) (tenantSeg t) s id).
Proof. key_eq. Qed.
Lemma KeyDLQ_enc c t id : KeyDLQ c t id = enc (KDLQ (cmdSeg c) (tenantSeg t) id).
Proof. key_eq. Qed.
Lemma KeyTTL_enc e id : KeyTTLIndex e id = enc (KTTL e id).
Proof. key_eq. Qed.
Lemma KeyTask_enc id : KeyTask id = enc (KTask id).
Proof. done. Qed.
Lemma KeyResult_enc id : KeyResult id = enc (KResult id).
Proof. done. Qed.
Lemma KeyIdempo_enc id : KeyIdempo id = enc (KIdempo id).
Proof. done. Qed.

Create Rewrite HintDb keys.
#[export] Hint Rewrite KeyPending_enc KeyInprog_enc KeyDelayed_enc KeyDLQ_enc KeyTTL_enc
  KeyTask_enc KeyResult_enc KeyIdempo_enc : keys.

Lemma lower_low a x : ch x < 65 -> Ascii.eqb (lower_byte a) x = Ascii.eqb a x.
Proof.
  intros Hx. unfold lower_byte.
  destruct ((65 <=? ch a) && (ch a <=? 90)) eqn:E; [|done].
  apply andb_true_iff in E as [E1 E2]. rewrite Z.leb_le in *.
  transitivity false; [|symmetry]; apply Ascii.eqb_neq; intros H.
  - apply (f_equal ch) in H. rewrite ch_byte, Z.mod_small in H by lia. lia.
  - subst a. lia.
Qed.

Lemma elem_lower c x : ch x < 65 -> elem x (ToLower c) = elem x c.
Proof.
  intros Hx. induction c as [|a c IH]; simpl; [done|]. by rewrite lower_low, IH.
Qed.

Lemma seg_ok_cmd c : seg_ok (cmdSeg c) = seg_ok c.
Proof. unfold seg_ok, cmdSeg. by rewrite !elem_lower by (vm_compute; done). Qed.

Lemma seg_ok_tenant t : seg_ok t = true -> seg_ok (tenantSeg t) = true.
Proof. unfold tenantSeg. case_bool_decide; [done | auto]. Qed.

Lemma seg_ok_elem s : seg_ok s = true -> elem "/" s = false.
Proof. unfold seg_ok. rewrite andb_true_iff, !negb_true_iff. tauto. Qed.

Lemma seg_ok_nul s : seg_ok s = true -> elem Ascii.zero s = false.
Proof. unfold seg_ok. rewrite andb_true_iff, !negb_true_iff. tauto. Qed.

#[export] Hint Resolve seg_ok_tenant seg_ok_elem seg_ok_nul : codeq.

(** ** Injectivity *)

Lemma qbase_inj c t x c' t' x' :
  seg_ok c = true -> seg_ok t = true -> seg_ok c' = true -> seg_ok t' = true ->
  qbase c t +:+ x = qbase c' t' +:+ x' -> c = c' /\ t = t' /\ x = x'.
Proof.
  intros Hc Ht Hc' Ht'. unfold qbase. rewrite !app_assoc_s. intros H.
  apply app_inj_l in H. rewrite !app_cons_s, !app_assoc_s in H.
  apply split_unique in H as [-> H]; auto with codeq.
  rewrite !app_cons_s, !app_empty_s in H.
  apply split_unique in H as [-> H]; auto with codeq.
Qed.

Lemma be8_inj a b x y : uint64 a -> uint64 b -> be8 a +:+ x = be8 b +:+ y -> a = b /\ x = y.
Proof.
  intros Ha Hb H. unfold be8 in H. apply app_inj_len in H as [H ->].
  - split; [|done]. by apply (be_bytes_inj 8).
  - by rewrite !be_bytes_length.
Qed.

Lemma byte_inj a b : 0 <= a < 256 -> 0 <= b < 256 -> byte a = byte b -> a = b.
Proof.
  intros Ha Hb H. apply (f_equal ch) in H. by rewrite !ch_byte, !Z.mod_small in H.
Qed.

(** The family of a key is decided by its first bytes. *)
Inductive family := FTask | FResult | FIdempo | FTTL | FQueue.
Definition family_of (q : qkey) : family :=
  match q with
  | KTask _ => FTask | KResult _ => FResult | KIdempo _ => FIdempo | KTTL _ _ => FTTL
  | _ => FQueue
  end.
Definition family_prefix (f : family) : string :=
  match f with
  | FTask => pTasks | FResult => pResults | FIdempo => pIdempo | FTTL => pTTL | FQueue => pQueue
  end.

Lemma enc_family q : has_prefix (family_prefix (family_of q)) (enc q) = true.
Proof.
  apply has_prefix_spec.
  destruct q; unfold enc, qbase, family_of, family_prefix; rewrite ?app_assoc_s; eexists; reflexivity.
Qed.

Lemma family_prefix_inj f g s :
  has_prefix (family_prefix f) s = true -> has_prefix (family_prefix g) s = true -> f = g.
Proof.
  rewrite !has_prefix_spec. intros [r ->] [r' H].
  destruct f, g; try reflexivity; exfalso;
    unfold family_prefix, pTasks, pResults, pIdempo, pTTL, pQueue, namespace in H;
    rewrite ?app_assoc_s in H; sapp_in H; discriminate H.
Qed.

(** Distinct well-formed typed keys have distinct encodings. *)
Lemma enc_inj q1 q2 : wf_qkey q1 -> wf_qkey q2 -> enc q1 = enc q2 -> q1 = q2.
Proof.
  intros W1 W2 H.
  assert (family_of q1 = family_of q2) as Hf.
  { apply (family_prefix_inj _ _ (enc q1)); [apply enc_family|]. rewrite H. apply enc_family. }
  destruct q1, q2; try discriminate Hf; simpl in W1, W2, H; destruct_and?;
    try (apply app_inj_l in H; subst; reflexivity);
    try (apply app_inj_l, be8_inj in H as [-> H]; [congruence | done | done]);
    apply qbase_inj in H as (-> & -> & H); try done;
    try (sapp_in H; discriminate H); apply app_inj_l in H;
    try (apply be8_inj in H as [-> H]; [congruence | done | done]); try congruence.
  apply cons_inj_s in H as [Hp H]. apply cons_inj_s in H as [_ H].
  apply byte_inj in Hp as ->; try done. apply be8_inj in H as [-> H]; congruence.
Qed.

(** ** The order of the ordered families *)

Lemma be8_cmp a b : uint64 a -> uint64 b -> scmp (be8 a) (be8 b) = (a ?= b).
Proof. apply (be_bytes_cmp 8). Qed.

(** Two pending keys of one queue compare by priority byte, then by sequence
    number, then by id. *)
Lemma pending_cmp c t p1 s1 i1 p2 s2 i2 :
  0 <= p1 < 256 -> 0 <= p2 < 256 -> uint64 s1 -> uint64 s2 ->
  scmp (enc (KPending c t p1 s1 i1)) (enc (KPending c t p2 s2 i2)) =
    match p1 ?= p2 with
    | Eq => match s1 ?= s2 with Eq => scmp i1 i2 | o => o end
    | o => o
    end.
Proof.
  intros Hp1 Hp2 Hs1 Hs2. cbn [enc]. rewrite !scmp_app, !scmp_cons, Z.compare_refl.
  rewrite !ch_byte, !Z.mod_small by done. destruct (p1 ?= p2); try done.
  unfold be8. rewrite scmp_app_len by (by rewrite !be_bytes_length).
  fold (be8 s1) (be8 s2). rewrite be8_cmp by done.
  destruct (s1 ?= s2); [|done|done]. by rewrite scmp_cons, Z.compare_refl.
Qed.

Lemma delayed_cmp c t s1 i1 s2 i2 :
  uint64 s1 -> uint64 s2 ->
  scmp (enc (KDelayed c t s1 i1)) (enc (KDelayed c t s2 i2)) =
    match s1 ?= s2 with Eq => scmp i1 i2 | o => o end.
Proof.
  intros Hs1 Hs2. cbn [enc]. rewrite !scmp_app.
  unfold be8. rewrite scmp_app_len by (by rewrite !be_bytes_length).
  fold (be8 s1) (be8 s2). rewrite be8_cmp by done.
  destruct (s1 ?= s2); [|done|done]. by rewrite scmp_cons, Z.compare_refl.
Qed.

Lemma ttl_cmp s1 i1 s2 i2 :
  uint64 s1 -> uint64 s2 ->
  scmp (enc (KTTL s1 i1)) (enc (KTTL s2 i2)) =
    match s1 ?= s2 with Eq => scmp i1 i2 | o => o end.
Proof.
  intros Hs1 Hs2. cbn [enc]. rewrite !scmp_app.
  unfold be8. rewrite scmp_app_len by (by rewrite !be_bytes_length).
  fold (be8 s1) (be8 s2). rewrite be8_cmp by done.
  destruct (s1 ?= s2); [|done|done]. by rewrite scmp_cons, Z.compare_refl.
Qed.

(** ** Scan bounds *)

Lemma prefixUpper_None p k : prefixUpper p = None -> sle p k -> has_prefix p k = true.
Proof.
  revert k. induction p as [|a p IH]; intros k H Hk; simpl in *; [done|].
  destruct (prefixUpper p); [done|]. destruct (Z.ltb_spec (ch a) 255); [done|].
  destruct k as [|b k]; [done|]. unfold sle, sleb in *. simpl in *.
  pose proof (ch_range a). pose proof (ch_range b).
  destruct (Z.compare_spec (ch a) (ch b)) as [E|E|E]; [|lia|done].
  apply ch_inj in E as ->. rewrite Ascii.eqb_refl. simpl. by apply IH.
Qed.

(** The half-open range from a prefix to its [prefixUpper] holds exactly the
    keys that start with the prefix. *)
Lemma prefixUpper_spec p u k :
  prefixUpper p = Some u -> (sle p k /\ slt k u <-> has_prefix p k = true).
Proof.
  revert u k. induction p as [|a p IH]; intros u k H; simpl in H; [done|].
  destruct k as [|b k].
  { split; [by intros [? _] | done]. }
  unfold sle, sleb, slt in *. simpl.
  destruct (prefixUpper p) as [u'|] eqn:E.
  - injection H as <-. simpl. rewrite (Z.compare_antisym (ch a) (ch b)).
    destruct (Z.compare_spec (ch a) (ch b)) as [Ha|Ha|Ha]; simpl.
    + apply ch_inj in Ha as ->. rewrite Ascii.eqb_refl. by apply IH.
    + rewrite (proj2 (Ascii.eqb_neq a b)) by (intros ->; lia). by split; [intros [? ?]|].
    + rewrite (proj2 (Ascii.eqb_neq a b)) by (intros ->; lia). by split; [intros [? ?]|].
  - destruct (Z.ltb_spec (ch a) 255); [|done]. injection H as <-. simpl.
    pose proof (ch_range a). rewrite ?scmp_cons, ch_byte, Z.mod_small by lia.
    destruct (Z.compare_spec (ch a) (ch b)) as [Ha|Ha|Ha]; simpl.
    + apply ch_inj in Ha as ->. rewrite Ascii.eqb_refl.
      rewrite (proj2 (Z.compare_lt_iff (ch b) (ch b + 1))) by lia. simpl.
      split; [intros [Hs _]; by apply prefixUpper_None|].
      intros [r ->]%has_prefix_spec. split; [apply sle_prefix | done].
    + rewrite (proj2 (Ascii.eqb_neq a b)) by (intros ->; lia). split; [|done].
      intros [_ Hs]. destruct (Z.compare_spec (ch b) (ch a + 1)); [by destruct k | lia | done].
    + rewrite (proj2 (Ascii.eqb_neq a b)) by (intros ->; lia). by split; [intros [? ?]|].
Qed.

Lemma prefixUpper_slash p : prefixUpper (p +:+ "/") = Some (p +:+ "0").
Proof. induction p as [|a p IH]; [done|]. rewrite !app_cons_s. simpl. by rewrite IH. Qed.

(** Every prefix the code scans ends in ['/'], so its range is the prefix. *)
Lemma scan_prefix p k :
  sle (p +:+ "/") k /\ below k (prefixUpper (p +:+ "/")) <-> has_prefix (p +:+ "/") k = true.
Proof. rewrite prefixUpper_slash. apply prefixUpper_spec, prefixUpper_slash. Qed.

Lemma has_prefix_trans p q s : has_prefix (p +:+ q) s = true -> has_prefix p s = true.
Proof. rewrite !has_prefix_spec. intros [r ->]. rewrite app_assoc_s. eauto. Qed.

(** A well-formed key under the base of a queue is a key of that queue. *)
Lemma enc_under_queue q c t x :
  wf_qkey q -> seg_ok c = true -> seg_ok t = true ->
  has_prefix (qbase c t +:+ x) (enc q) = true ->
  exists r, has_prefix x r = true /\
    match q with
    | KPending c' t' p s id =>
        c' = c /\ t' = t /\ r = "pending/" +:+ String (byte p) (String "/" (be8 s +:+ String "/" id))
    | KInprog c' t' id => c' = c /\ t' = t /\ r = "inprog/" +:+ id
    | KDelayed c' t' s id => c' = c /\ t' = t /\ r = "delayed/" +:+ be8 s +:+ String "/" id
    | KDLQ c' t' id => c' = c /\ t' = t /\ r = "dlq/" +:+ id
    | _ => False
    end.
Proof.
  intros W Hc Ht H.
  assert (family_of q = FQueue) as Hf.
  { apply (family_prefix_inj _ _ (enc q)); [apply enc_family|].
    eapply has_prefix_trans. unfold qbase in H. rewrite app_assoc_s in H. exact H. }
  apply has_prefix_spec in H as [r Hr]. rewrite app_assoc_s in Hr.
  exists (x +:+ r). split; [apply has_prefix_app|].
  destruct q; try discriminate Hf; simpl in W, Hr; destruct_and?;
    apply qbase_inj in Hr as (-> & -> & <-); auto.
Qed.

Ltac scan_lemma q :=
  intros W Hc Ht; split;
  [ intros H; apply enc_under_queue in H as (r & Hr & H); auto;
    destruct q; try done; destruct H as (-> & -> & ->);
    sapp_in Hr; try discriminate Hr; eauto
  | ].

Lemma scan_pending q c t :
  wf_qkey q -> seg_ok c = true -> seg_ok t = true ->
  has_prefix (qbase c t +:+ "pending/") (enc q) = true <-> exists p s id, q = KPending c t p s id.
Proof.
  scan_lemma q. intros (p & s & id & ->). cbn [enc]. rewrite <- app_assoc_s. apply has_prefix_app.
Qed.

Lemma scan_inprog q c t :
  wf_qkey q -> seg_ok c = true -> seg_ok t = true ->
  has_prefix (qbase c t +:+ "inprog/") (enc q) = true <-> exists id, q = KInprog c t id.
Proof.
  scan_lemma q. intros (id & ->). cbn [enc]. rewrite <- app_assoc_s. apply has_prefix_app.
Qed.

Lemma scan_delayed q c t :
  wf_qkey q -> seg_ok c = true -> seg_ok t = true ->
  has_prefix (qbase c t +:+ "delayed/") (enc q) = true <-> exists s id, q = KDelayed c t s id.
Proof.
  scan_lemma q. intros (s & id & ->). cbn [enc]. rewrite <- app_assoc_s. apply has_prefix_app.
Qed.

Lemma scan_dlq q c t :
  wf_qkey q -> seg_ok c = true -> seg_ok t = true ->
  has_prefix (qbase c t +:+ "dlq/") (enc q) = true <-> exists id, q = KDLQ c t id.
Proof.
  scan_lemma q. intros (id & ->). cbn [enc]. rewrite <- app_assoc_s. apply has_prefix_app.
Qed.

(** ** The bounds the code scans with *)

Definition in_range (r : string * option string) (k : string) : Prop :=
  sle (fst r) k /\ below k (snd r).

Lemma queueBase_seg cmd ten x :
  queueBase cmd ten +:+ String "/" x = qbase (cmdSeg cmd) (tenantSeg ten) +:+ x.
Proof.
  unfold queueBase, qbase.
  repeat (rewrite app_assoc_s || rewrite app_cons_s || rewrite app_empty_s). reflexivity.
Qed.

Ltac range_lemma full stem :=
  intros W Hc Ht; unfold in_range, PrefixPendingAllPrios, PrefixInprog, PrefixDelayed, PrefixDLQ;
  cbn [fst snd]; unfold segPending, segInprog, segDelayed, segDLQ; rewrite !queueBase_seg;
  change full with (stem +:+ "/");
  rewrite <- !app_assoc_s; rewrite scan_prefix; rewrite !app_assoc_s;
  change (stem +:+ "/") with full.

Section ranges.
Variables (cmd ten : string) (q : qkey).
Abbreviation c := (cmdSeg cmd).
Abbreviation t := (tenantSeg ten).

Lemma PrefixPendingAllPrios_spec :
  wf_qkey q -> seg_ok cmd = true -> seg_ok ten = true ->
  in_range (PrefixPendingAllPrios cmd ten) (enc q) <-> exists p s id, q = KPending c t p s id.
Proof.
  range_lemma "pending/" "pending". apply scan_pending; [done | by rewrite seg_ok_cmd | by apply seg_ok_tenant].
Qed.

Lemma PrefixInprog_spec :
  wf_qkey q -> seg_ok cmd = true -> seg_ok ten = true ->
  in_range (PrefixInprog cmd ten) (enc q) <-> exists id, q = KInprog c t id.
Proof.
  range_lemma "inprog/" "inprog". apply scan_inprog; [done | by rewrite seg_ok_cmd | by apply seg_ok_tenant].
Qed.

Lemma PrefixDelayed_spec :
  wf_qkey q -> seg_ok cmd = true -> seg_ok ten = true ->
  in_range (PrefixDelayed cmd ten) (enc q) <-> exists s id, q = KDelayed c t s id.
Proof.
  range_lemma "delayed/" "delayed". apply scan_delayed; [done | by rewrite seg_ok_cmd | by apply seg_ok_tenant].
Qed.

Lemma PrefixDLQ_spec :
  wf_qkey q -> seg_ok cmd = true -> seg_ok ten = true ->
  in_range (PrefixDLQ cmd ten) (enc q) <-> exists id, q = KDLQ c t id.
Proof.
  range_lemma "dlq/" "dlq". apply scan_dlq; [done | by rewrite seg_ok_cmd | by apply seg_ok_tenant].
Qed.
End ranges.

(** A key between a prefix and an extension of it has the prefix. *)
Lemma prefix_between p x k : sle p k -> slt k (p +:+ x) -> has_prefix p k = true.
Proof.
  revert k. induction p as [|a p IH]; intros k; [done|]. rewrite app_cons_s.
  destruct k as [|b k]; [done|]. unfold sle, sleb, slt in *. simpl.
  rewrite (Z.compare_antisym (ch a) (ch b)).
  destruct (Z.compare_spec (ch a) (ch b)) as [E|E|E]; simpl; try done.
  apply ch_inj in E as ->. rewrite Ascii.eqb_refl. simpl. apply IH.
Qed.

(** [base ++ be8 (n+1)] bounds the scores up to and including [n]. *)
Lemma score_bound base n s id :
  uint64 s -> 0 <= n < two64 - 1 ->
  slt (base +:+ be8 s +:+ String "/" id) (base +:+ be8 (wrapu64 (n + 1))) <-> s <= n.
Proof.
  intros Hs Hn. rewrite wrapu64_id by lia. rewrite slt_app. unfold slt.
  rewrite <- (app_nil_s (be8 (n + 1))). unfold be8.
  rewrite scmp_app_len by (by rewrite !be_bytes_length).
  fold (be8 s) (be8 (n + 1)). rewrite be8_cmp by (unfold uint64 in *; lia).
  destruct (Z.compare_spec s (n + 1)); simpl; split; try done; lia.
Qed.

Lemma PrefixDelayedUpTo_spec cmd ten n q :
  wf_qkey q -> seg_ok cmd = true -> seg_ok ten = true -> 0 <= n < two64 - 1 ->
  in_range (PrefixDelayedUpTo cmd ten n) (enc q) <->
  exists s id, q = KDelayed (cmdSeg cmd) (tenantSeg ten) s id /\ s <= n.
Proof.
  intros W Hc Ht Hn. unfold in_range, PrefixDelayedUpTo, segDelayed. simpl.
  rewrite !queueBase_seg. split.
  - intros [Hlo Hhi]. pose proof (prefix_between _ _ _ Hlo Hhi) as Hp.
    apply scan_delayed in Hp as (s & id & ->);
      [|done|by rewrite seg_ok_cmd|by apply seg_ok_tenant].
    exists s, id. split; [done|]. simpl in Hhi, W. rewrite <- app_assoc_s in Hhi.
    apply score_bound in Hhi; tauto.
  - intros (s & id & -> & Hs). simpl in *.
    rewrite <- (app_assoc_s (qbase (cmdSeg cmd) (tenantSeg ten)) "delayed/").
    split; [apply sle_prefix|]. apply score_bound; tauto.
Qed.

(** The bound [CleanupExpired] and [sweepTTL] scan the TTL index with. *)
Definition ttl_range (n : Z) : string * option string := (pTTL, Some (pTTL +:+ be8 (wrapu64 (n + 1)))).

Lemma ttl_range_spec n q :
  wf_qkey q -> 0 <= n < two64 - 1 ->
  in_range (ttl_range n) (enc q) <-> exists e id, q = KTTL e id /\ e <= n.
Proof.
  intros W Hn. unfold in_range, ttl_range. simpl. split.
  - intros [Hlo Hhi]. pose proof (prefix_between _ _ _ Hlo Hhi) as Hp.
    assert (family_of q = FTTL) as Hf.
    { apply (family_prefix_inj _ _ (enc q)); [apply enc_family | done]. }
    destruct q; try discriminate Hf. exists expire, id. split; [done|].
    simpl in Hhi, W. by apply score_bound in Hhi.
  - intros (e & id & -> & He). simpl in *. split; [apply sle_prefix|].
    by apply score_bound.
Qed.

(** ** Parsers *)

Lemma after_last_slash_app x id :
  elem "/" id = false -> after_last_slash (x +:+ String "/" id) = Some id.
Proof.
  intros H. induction x as [|a x IH]; rewrite ?app_cons_s, ?app_empty_s; simpl.
  - assert (after_last_slash id = None) as ->; [|done].
    induction id as [|b id IH]; simpl in *; [done|].
    apply orb_false_iff in H as [-> H]. by rewrite IH.
  - by rewrite IH.
Qed.

Lemma after_last_slash_len s r : after_last_slash s = Some r -> elem "/" r = false.
Proof.
  revert r. induction s as [|a s IH]; intros r; simpl; [done|].
  destruct (after_last_slash s) as [r'|] eqn:E; [intros [= <-]; auto|].
  destruct (Ascii.eqb a "/"); [|done]. intros [= <-]. clear IH.
  induction s as [|b s IH]; simpl in *; [done|].
  destruct (after_last_slash s); [done|]. destruct (Ascii.eqb b "/"); [done|]. auto.
Qed.

(** The id of a pending or delayed key survives encoding and parsing. *)
Lemma ParsePendingKey_enc c t p s id :
  elem "/" id = false -> ParsePendingKey (enc (KPending c t p s id)) = Some id.
Proof.
  intros H. unfold ParsePendingKey. cbn [enc].
  replace (qbase c t +:+ "pending/" +:+ String (byte p) (String "/" (be8 s +:+ String "/" id)))
    with ((qbase c t +:+ "pending/" +:+ String (byte p) (String "/" (be8 s))) +:+ String "/" id)
    by (repeat (rewrite app_assoc_s || rewrite app_cons_s); reflexivity).
  by apply after_last_slash_app.
Qed.

Lemma ParseDelayedKey_enc c t s id :
  elem "/" id = false -> id <> "" -> ParseDelayedKey (enc (KDelayed c t s id)) = Some id.
Proof.
  intros H Hne. unfold ParseDelayedKey. cbn [enc].
  replace (qbase c t +:+ "delayed/" +:+ be8 s +:+ String "/" id)
    with ((qbase c t +:+ "delayed/" +:+ be8 s) +:+ String "/" id)
    by (by rewrite !app_assoc_s).
  rewrite after_last_slash_app by done. by destruct id.
Qed.

Lemma after_last_slash_inprog c t id :
  elem "/" id = false -> after_last_slash (enc (KInprog c t id)) = Some id.
Proof.
  intros H. cbn [enc].
  replace (qbase c t +:+ "inprog/" +:+ id) with ((qbase c t +:+ "inprog") +:+ String "/" id)
    by (repeat (rewrite app_assoc_s || rewrite app_cons_s); reflexivity).
  by apply after_last_slash_app.
Qed.

Lemma after_last_slash_ttl e id :
  elem "/" id = false -> after_last_slash (enc (KTTL e id)) = Some id.
Proof. intros H. cbn [enc]. rewrite <- app_assoc_s. by apply after_last_slash_app. Qed.

Lemma lor_byte k k8 acc v :
  0 <= k -> k8 = k + 8 -> 0 <= v < 256 ->
  Z.lor (acc * 2 ^ k8) (v * 2 ^ k) = (acc * 256 + v) * 2 ^ k.
Proof.
  intros Hk -> Hv. rewrite Z.pow_add_r by lia. change (2 ^ 8) with 256.
  pose proof (Z.pow_pos_nonneg 2 k ltac:(lia) Hk).
  rewrite (lor_low (k + 8)); rewrite ?Z.pow_add_r by lia; [nia | lia | | nia].
  change (2 ^ 8) with 256. by rewrite Z.mod_mul by lia.
Qed.

Lemma mod256_range x : 0 <= x mod 256 < 256.
Proof. apply Z.mod_pos_bound. lia. Qed.

(** [binary.BigEndian] bytes read back by [beUint64]. *)
Lemma beUint64_be8 n x : uint64 n -> beUint64 (be8 n +:+ x) = n.
Proof.
  unfold uint64, two64. intros Hn. unfold be8. cbn [be_bytes].
  rewrite !app_cons_s, app_empty_s. cbn [beUint64].
  rewrite !be_bytes_top, !Z.shiftl_mul_pow2 by lia.
  rewrite (lor_byte 48 56), (lor_byte 40 48), (lor_byte 32 40), (lor_byte 24 32),
    (lor_byte 16 24), (lor_byte 8 16) by (lia || apply mod256_range).
  replace (n / 256 ^ Z.of_nat 0 mod 256) with (n / 256 ^ Z.of_nat 0 mod 256 * 2 ^ 0)
    by (rewrite Z.pow_0_r; lia).
  rewrite (lor_byte 0 8) by (lia || apply mod256_range).
  pose proof (be_value_be_bytes 8 n Hn) as E. unfold be_value in E.
  cbn [be_bytes be_value_acc] in E. rewrite !be_bytes_top in E. lia.
Qed.

(** ** Properties of the layout *)



(** Byte order is queue order: among the pending keys of one queue the
    engine iterates by priority byte, then sequence number, then id; delayed
    and retention keys iterate by time, then id. *)
Theorem key_order_is_queue_order cmd ten p1 s1 i1 p2 s2 i2 :
  0 <= p1 < 256 -> 0 <= p2 < 256 -> uint64 s1 -> uint64 s2 ->
  (slt (KeyPending cmd ten p1 s1 i1) (KeyPending cmd ten p2 s2 i2) <->
     p1 < p2 \/ p1 = p2 /\ (s1 < s2 \/ s1 = s2 /\ slt i1 i2)) /\
  (slt (KeyDelayed cmd ten s1 i1) (KeyDelayed cmd ten s2 i2) <-> s1 < s2 \/ s1 = s2 /\ slt i1 i2) /\
  (slt (KeyTTLIndex s1 i1) (KeyTTLIndex s2 i2) <-> s1 < s2 \/ s1 = s2 /\ slt i1 i2).
Proof.
  intros Hp1 Hp2 Hs1 Hs2. rewrite !KeyPending_enc, !KeyDelayed_enc, !KeyTTL_enc. unfold slt.
  rewrite pending_cmp, delayed_cmp, ttl_cmp by done.
  assert (forall o, (match s1 ?= s2 with Eq => o | c => c end = Lt) <-> s1 < s2 \/ s1 = s2 /\ o = Lt) as Hs.
  { intros o. destruct (Z.compare_spec s1 s2); intuition (lia || done). }
  rewrite !Hs. split_and!; [|done..].
  destruct (Z.compare_spec p1 p2); [rewrite Hs| |]; intuition (lia || done).
Qed.

Lemma key_order_is_queue_order_witness :
  slt (KeyPending "send" "acme" 5 255 "z") (KeyPending "send" "acme" 5 256 "a").
Proof.
  apply (key_order_is_queue_order "send" "acme" 5 255 "z" 5 256 "a"); unfold uint64, two64; try lia.
Defined.

(** The scan bounds are exact: of the keys the code builds, the range of
    each prefix function holds those of its queue and no other; the delayed
    range up to a score and the retention range hold those not later than it. *)
Theorem scan_bounds_exact cmd ten n q :
  wf_qkey q -> seg_ok cmd = true -> seg_ok ten = true -> 0 <= n < two64 - 1 ->
  let c := cmdSeg cmd in let t := tenantSeg ten in
  (in_range (PrefixPendingAllPrios cmd ten) (enc q) <-> exists p s id, q = KPending c t p s id) /\
  (in_range (PrefixInprog cmd ten) (enc q) <-> exists id, q = KInprog c t id) /\
  (in_range (PrefixDelayed cmd ten) (enc q) <-> exists s id, q = KDelayed c t s id) /\
  (in_range (PrefixDLQ cmd ten) (enc q) <-> exists id, q = KDLQ c t id) /\
  (in_range (PrefixDelayedUpTo cmd ten n) (enc q) <-> exists s id, q = KDelayed c t s id /\ s <= n) /\
  (in_range (ttl_range n) (enc q) <-> exists e id, q = KTTL e id /\ e <= n).
Proof.
  intros Hq Hc Ht Hn c t. split_and!;
    [by apply PrefixPendingAllPrios_spec | by apply PrefixInprog_spec | by apply PrefixDelayed_spec
    | by apply PrefixDLQ_spec | by apply PrefixDelayedUpTo_spec | by apply ttl_range_spec].
Qed.

Lemma scan_bounds_exact_witness :
  in_range (PrefixDelayedUpTo "send" "acme" 100) (KeyDelayed "send" "acme" 100 "t1") /\
  ~ in_range (PrefixDelayedUpTo "send" "acme" 100) (KeyDelayed "send" "acme" 101 "t1").
Proof.
  assert (forall s, 0 <= s <= 101 -> wf_qkey (KDelayed "send" "acme" s "t1")) as Hwf
    by (intros s Hs; simpl; unfold uint64, two64; split_and!; try done; lia).
  destruct (scan_bounds_exact "send" "acme" 100 (KDelayed "send" "acme" 100 "t1")) as (_ & _ & _ & _ & H1 & _);
    [apply Hwf; lia | done | done | unfold two64; lia|].
  destruct (scan_bounds_exact "send" "acme" 100 (KDelayed "send" "acme" 101 "t1")) as (_ & _ & _ & _ & H2 & _);
    [apply Hwf; lia | done | done | unfold two64; lia|].
  rewrite !KeyDelayed_enc. split.
  - apply H1. exists 100, "t1". split; [reflexivity | lia].
  - intros H. apply H2 in H as (s & id & E & Hle). injection E as <- <-. lia.
Defined.

(** Parsing inverts building: the id parsers return the id a pending or
    delayed key was built from, and the big-endian decoder returns the number
    encoded, whatever follows it. *)
Theorem key_parse_roundtrip cmd ten p s id rest :
  elem "/" id = false -> id <> "" -> uint64 s ->
  ParsePendingKey (KeyPending cmd ten p s id) = Some id /\
  ParseDelayedKey (KeyDelayed cmd ten s id) = Some id /\
  beUint64 (be8 s +:+ rest) = s.
Proof.
  intros Hid Hne Hs. rewrite KeyPending_enc, KeyDelayed_enc.
  split_and!; [by apply ParsePendingKey_enc | by apply ParseDelayedKey_enc | by apply beUint64_be8].
Qed.

Lemma key_parse_roundtrip_witness :
  ParsePendingKey (KeyPending "send" "acme" 5 12345678901 "t1") = Some "t1".
Proof.
  apply (key_parse_roundtrip "send" "acme" 5 12345678901 "t1" ""); [reflexivity | discriminate | unfold uint64, two64; lia].
Defined.
