(* ===== verification/GoText.v ===== *)
(** Text functions of the Go standard library the sources use: white space
    ([strings.TrimSpace]), and regular expressions ([regexp], anchored patterns)
    with the two name patterns of the sources.

    A pattern is a value of [re] and [MatchString] decides it by derivatives;
    [in_re] is the language of a pattern, and the matcher decides it. *)

From S2P Require Import Prelude GoTime Domain Keys.

(** ** White space *)

(** Length in bytes of the white-space rune at the head of [s], 0 if the
    first rune is not white space. *)
Definition space_rune (s : string) : nat :=
  match s with
  | EmptyString => 0
  | String a s1 =>
      let c := ch a in
      if ((9 <=? c) && (c <=? 13)) || (c =? 32) then 1
      else
        match s1 with
        | EmptyString => 0
        | String b s2 =>
            let d := ch b in
            if (c =? 194) && ((d =? 133) || (d =? 160)) then 2
            else
              match s2 with
              | EmptyString => 0
              | String e _ =>
                  let x := ch e in
                  if (c =? 225) && (d =? 154) && (x =? 128) then 3
                  else if (c =? 226) && (d =? 128) &&
                          (((128 <=? x) && (x <=? 138)) || (x =? 168) || (x =? 169) || (x =? 175)) then 3
                  else if (c =? 226) && (d =? 129) && (x =? 159) then 3
                  else if (c =? 227) && (d =? 128) && (x =? 128) then 3
                  else 0
              end
        end
  end.

Fixpoint blank_fuel (fuel : nat) (s : string) : bool :=
  match fuel, s with
  | _, EmptyString => true
  | O, _ => false
  | S f, _ => match space_rune s with O => false | n => blank_fuel f (drop_s n s) end
  end.
(** A rune has at least one byte, so the length is enough fuel. *)
Definition blank (s : string) : bool := blank_fuel (String.length s) s.

(** The same at the end of the text: [r] is the text backwards.  The encodings
    of the white-space runes are recognised whatever stands before them. *)
Definition last_space_rune (r : string) : nat :=
  match r with
  | EmptyString => 0
  | String a r1 =>
      let c := ch a in
      if ((9 <=? c) && (c <=? 13)) || (c =? 32) then 1
      else
        match r1 with
        | EmptyString => 0
        | String b r2 =>
            let d := ch b in
            if (d =? 194) && ((c =? 133) || (c =? 160)) then 2
            else
              match r2 with
              | EmptyString => 0
              | String e _ => match space_rune (String e (String b (String a ""))) with 3%nat => 3 | _ => 0 end
              end
        end
  end.

Fixpoint rev_s (s acc : string) : string :=
  match s with EmptyString => acc | String a s' => rev_s s' (String a acc) end.

(** The text before and after the first and the last occurrence of a byte. *)
Fixpoint cut (c : ascii) (s : string) : option (string * string) :=
  match s with
  | EmptyString => None
  | String a s' => if Ascii.eqb a c then Some ("", s') else match cut c s' with Some (x, y) => Some (String a x, y) | None => None end
  end.
Fixpoint cutLast (c : ascii) (s : string) : option (string * string) :=
  match s with
  | EmptyString => None
  | String a s' =>
      match cutLast c s' with
      | Some (x, y) => Some (String a x, y)
      | None => if Ascii.eqb a c then Some ("", s') else None
      end
  end.

Fixpoint trim_fuel (rune : string -> nat) (fuel : nat) (s : string) : string :=
  match fuel with
  | O => s
  | S f => match rune s with O => s | n => trim_fuel rune f (drop_s n s) end
  end.

Definition TrimSpace (s : string) : string :=
  let l := trim_fuel space_rune (String.length s) s in
  rev_s (trim_fuel last_space_rune (String.length l) (rev_s l "")) "".

(** ** Regular expressions *)

Inductive re :=
  | Void
  | Eps
  | Class (f : ascii -> bool)
  | Seq (r1 r2 : re)
  | Alt (r1 r2 : re)
  | Star (r : re).

Fixpoint nullable (r : re) : bool :=
  match r with
  | Void | Class _ => false
  | Eps | Star _ => true
  | Seq r1 r2 => nullable r1 && nullable r2
  | Alt r1 r2 => nullable r1 || nullable r2
  end.

Definition seq_re (r1 r2 : re) : re :=
  match r1 with Void => Void | Eps => r2 | _ => Seq r1 r2 end.
Definition alt_re (r1 r2 : re) : re :=
  match r1, r2 with Void, r | r, Void => r | _, _ => Alt r1 r2 end.

(** What must follow the byte [a]. *)
Fixpoint der (a : ascii) (r : re) : re :=
  match r with
  | Void | Eps => Void
  | Class f => if f a then Eps else Void
  | Seq r1 r2 =>
      if nullable r1 then alt_re (seq_re (der a r1) r2) (der a r2) else seq_re (der a r1) r2
  | Alt r1 r2 => alt_re (der a r1) (der a r2)
  | Star r1 => seq_re (der a r1) r
  end.

(** [Regexp.MatchString] of a pattern anchored at both ends. *)
Fixpoint MatchString (r : re) (s : string) : bool :=
  match s with
  | EmptyString => nullable r
  | String a s' => MatchString (der a r) s'
  end.

(** [r?] and [r{1,n+1}], the repetition as package regexp simplifies it:
    [r(r(r)?)?] and so on. *)
Definition Opt (r : re) : re := Alt r Eps.
Fixpoint upto (r : re) (n : nat) : re :=
  match n with O => Eps | S n' => Opt (Seq r (upto r n')) end.
Definition Rep1 (r : re) (n : nat) : re := Seq r (upto r n).

Definition in_range (lo hi : Z) (a : ascii) : bool := (lo <=? ch a) && (ch a <=? hi).
(** [a-z], [0-9], ['-']. *)
Definition is_lower : ascii -> bool := in_range 97 122.
Definition is_digit : ascii -> bool := in_range 48 57.
Definition is_label (a : ascii) : bool := is_lower a || is_digit a || (ch a =? 45).
Definition is_alnum (a : ascii) : bool := is_lower a || is_digit a.

(** [^[a-z][a-z0-9-]{1,62}$]. *)
Definition tenantPattern : re := Seq (Class is_lower) (Rep1 (Class is_label) 61).

(** [^[a-z0-9]([-a-z0-9]*[a-z0-9])?$]. *)
Definition namePattern : re :=
  Seq (Class is_alnum) (Opt (Seq (Star (Class is_label)) (Class is_alnum))).

(** *** The language of a pattern *)

Inductive in_re : re -> string -> Prop :=
  | in_eps : in_re Eps ""
  | in_class f a : f a = true -> in_re (Class f) (String a "")
  | in_seq r1 r2 s t : in_re r1 s -> in_re r2 t -> in_re (Seq r1 r2) (s +:+ t)
  | in_alt_l r1 r2 s : in_re r1 s -> in_re (Alt r1 r2) s
  | in_alt_r r1 r2 s : in_re r2 s -> in_re (Alt r1 r2) s
  | in_star_nil r : in_re (Star r) ""
  | in_star_app r s t : in_re r s -> in_re (Star r) t -> in_re (Star r) (s +:+ t).

Fixpoint all_s (f : ascii -> bool) (s : string) : bool :=
  match s with EmptyString => true | String a s' => f a && all_s f s' end.

#[export] Hint Constructors in_re : codeq.

Lemma app_is_nil_s (s t : string) : s +:+ t = "" -> s = "" /\ t = "".
Proof. destruct s as [|a s]; sapp; [done | discriminate]. Qed.

Lemma nullable_spec r : nullable r = true <-> in_re r "".
Proof.
  induction r as [| |f|r1 IH1 r2 IH2|r1 IH1 r2 IH2|r IH]; simpl.
  - split; [done | inversion 1].
  - split; auto with codeq.
  - split; [done | inversion 1].
  - rewrite andb_true_iff, IH1, IH2. split.
    + intros [H1 H2]. change "" with ("" +:+ ""). auto with codeq.
    + inversion 1 as [| |? ? s t Hs Ht E| | | |]; subst.
      match goal with E : _ +:+ _ = "" |- _ => apply app_is_nil_s in E as [-> ->] end. done.
  - rewrite orb_true_iff, IH1, IH2. split; [intros []; auto with codeq | inversion 1; auto].
  - split; auto with codeq.
Qed.

Lemma seq_re_spec r1 r2 s : in_re (seq_re r1 r2) s <-> in_re (Seq r1 r2) s.
Proof.
  destruct r1; try done; simpl; (split; [|inversion 1; subst]).
  - inversion 1.
  - match goal with H : in_re Void _ |- _ => inversion H end.
  - intros H. change s with ("" +:+ s). auto with codeq.
  - match goal with H : in_re Eps _ |- _ => inversion H; subst end. by rewrite app_empty_s.
Qed.

Lemma alt_re_spec r1 r2 s : in_re (alt_re r1 r2) s <-> in_re r1 s \/ in_re r2 s.
Proof.
  assert (in_re Void s <-> False) as HV by (split; [inversion 1 | done]).
  assert (in_re (Alt r1 r2) s <-> in_re r1 s \/ in_re r2 s) as HA
    by (split; [inversion 1; auto | intros []; auto with codeq]).
  destruct r1, r2; simpl; rewrite ?HV; try tauto; exact HA.
Qed.

Lemma in_seq_inv r1 r2 s : in_re (Seq r1 r2) s <-> exists x y, s = x +:+ y /\ in_re r1 x /\ in_re r2 y.
Proof. split; [inversion 1; eauto | intros (x & y & -> & ? & ?); auto with codeq]. Qed.

Lemma in_class_inv f s : in_re (Class f) s <-> exists a, s = String a "" /\ f a = true.
Proof. split; [inversion 1; eauto | intros (a & -> & ?); auto with codeq]. Qed.

Lemma in_star_cons r a s :
  in_re (Star r) (String a s) -> exists x y, s = x +:+ y /\ in_re r (String a x) /\ in_re (Star r) y.
Proof.
  remember (Star r) as q. remember (String a s) as w. intros H. revert Heqq Heqw.
  induction H as [| | | | | |r' x t Hx _ Ht IH]; try discriminate.
  intros [= ->]. destruct x as [|b x]; intros Ew.
  - by apply IH.
  - rewrite app_cons_s in Ew. injection Ew as -> <-. eauto.
Qed.

Lemma der_spec a r s : in_re (der a r) s <-> in_re r (String a s).
Proof.
  revert s. induction r as [| |f|r1 IH1 r2 IH2|r1 IH1 r2 IH2|r IH]; intros s; simpl.
  - split; inversion 1.
  - split; inversion 1.
  - rewrite in_class_inv. destruct (f a) eqn:E; split.
    + inversion 1. eauto.
    + intros (b & [= -> ->] & _). constructor.
    + inversion 1.
    + intros (b & [= -> ->] & ?). congruence.
  - assert (in_re (seq_re (der a r1) r2) s <-> exists x y, s = x +:+ y /\ in_re r1 (String a x) /\ in_re r2 y) as Hs.
    { rewrite seq_re_spec, in_seq_inv. setoid_rewrite IH1. done. }
    rewrite in_seq_inv. destruct (nullable r1) eqn:E; [rewrite alt_re_spec, IH2|]; rewrite Hs; split.
    + intros [(x & y & -> & ? & ?)|?]; [by exists (String a x), y|].
      exists "", (String a s). rewrite app_empty_s. apply nullable_spec in E. done.
    + intros ([|b x] & y & Ew & Hx & Hy); [right; by rewrite app_empty_s in Ew; subst|].
      rewrite app_cons_s in Ew. injection Ew as <- ->. left. eauto.
    + intros (x & y & -> & ? & ?). by exists (String a x), y.
    + intros ([|b x] & y & Ew & Hx & Hy); [apply nullable_spec in Hx; congruence|].
      rewrite app_cons_s in Ew. injection Ew as <- ->. eauto.
  - rewrite alt_re_spec, IH1, IH2. split; [intros []; auto with codeq | inversion 1; auto].
  - rewrite seq_re_spec, in_seq_inv. split.
    + intros (x & y & -> & Hx & Hy). apply IH in Hx. rewrite <- app_cons_s. by constructor.
    + intros (x & y & -> & Hx & Hy)%in_star_cons. exists x, y. by rewrite IH.
Qed.

Lemma MatchString_spec r s : MatchString r s = true <-> in_re r s.
Proof.
  revert r. induction s as [|a s IH]; intros r; simpl; [apply nullable_spec|].
  by rewrite IH, der_spec.
Qed.

Lemma upto_spec f n s :
  in_re (upto (Class f) n) s <-> all_s f s = true /\ (String.length s <= n)%nat.
Proof.
  revert s. induction n as [|n IH]; intros s; simpl.
  - split; [inversion 1; simpl; auto | intros [_ H]; destruct s; [constructor | simpl in H; lia]].
  - unfold Opt. split.
    + inversion 1 as [| | |? ? ? H1|? ? ? H1| |]; subst; [|inversion H1; simpl; split; [done | lia]].
      apply in_seq_inv in H1 as (x & y & -> & (a & -> & Ha)%in_class_inv & [Hy Hl]%IH).
      sapp. rewrite Ha, Hy. split; [done | lia].
    + intros [Ha Hl]. destruct s as [|a s]; [apply in_alt_r; constructor|].
      simpl in Ha, Hl. apply andb_true_iff in Ha as [Ha Hs]. apply in_alt_l.
      change (String a s) with (String a "" +:+ s). constructor; [by constructor|]. apply IH. split; [done | lia].
Qed.

Lemma star_class_spec f s : in_re (Star (Class f)) s <-> all_s f s = true.
Proof.
  induction s as [|a s IH]; simpl.
  - split; auto with codeq.
  - rewrite andb_true_iff. split.
    + intros (x & y & -> & (b & [= -> ->] & Hb)%in_class_inv & Hy)%in_star_cons.
      rewrite app_empty_s in *. split; [done | by apply IH].
    + intros [Ha Hs]. change (String a s) with (String a "" +:+ s). constructor; [by constructor | by apply IH].
Qed.

Lemma all_s_app f (s t : string) : all_s f (s +:+ t) = all_s f s && all_s f t.
Proof. induction s as [|a s IH]; sapp; [done | by rewrite IH, andb_assoc]. Qed.

Lemma all_s_weaken (f g : ascii -> bool) s :
  (forall a, f a = true -> g a = true) -> all_s f s = true -> all_s g s = true.
Proof.
  intros Hfg. induction s as [|a s IH]; simpl; [done|]. rewrite !andb_true_iff. intros []. auto.
Qed.

Lemma all_s_elem f c s : all_s f s = true -> f c = false -> elem c s = false.
Proof.
  intros Hs Hc. induction s as [|a s IH]; simpl in *; [done|].
  apply andb_true_iff in Hs as [Ha Hs]. rewrite IH by done. rewrite orb_false_r.
  apply not_true_iff_false. rewrite Ascii.eqb_eq. intros ->. congruence.
Qed.

(** The names [tenantPattern] accepts. *)
Lemma tenantPattern_spec s :
  MatchString tenantPattern s = true <->
  exists a t, s = String a t /\ is_lower a = true /\ all_s is_label t = true /\ (1 <= String.length t <= 62)%nat.
Proof.
  rewrite MatchString_spec. unfold tenantPattern, Rep1. rewrite in_seq_inv. split.
  - intros (x & y & -> & (a & -> & Ha)%in_class_inv & (u & v & -> & (b & -> & Hb)%in_class_inv & [Hv Hl]%upto_spec)%in_seq_inv).
    exists a, (String b v). sapp. rewrite Hb, Hv. repeat split; try done; lia.
  - intros (a & t & -> & Ha & Ht & Hl). destruct t as [|b v]; [simpl in Hl; lia|].
    simpl in Ht, Hl. apply andb_true_iff in Ht as [Hb Hv].
    exists (String a ""), (String b v). split; [done|]. split; [by constructor|].
    change (String b v) with (String b "" +:+ v). constructor; [by constructor|]. apply upto_spec. split; [done | lia].
Qed.

Lemma tenant_label s : MatchString tenantPattern s = true -> s <> "" /\ all_s is_label s = true.
Proof.
  intros (a & t & -> & Ha & Ht & _)%tenantPattern_spec. split; [done|]. simpl. unfold is_label at 1. by rewrite Ha, Ht.
Qed.

Lemma alnum_label a : is_alnum a = true -> is_label a = true.
Proof. unfold is_alnum, is_label. intros ->. done. Qed.

Lemma name_label s : MatchString namePattern s = true -> s <> "" /\ all_s is_label s = true.
Proof.
  rewrite MatchString_spec. unfold namePattern, Opt.
  intros (x & y & -> & (a & -> & Ha%alnum_label)%in_class_inv & Hy)%in_seq_inv. rewrite app_cons_s, app_empty_s.
  split; [done|]. simpl. rewrite Ha. simpl.
  inversion Hy as [| | |? ? ? H1|? ? ? H1| |]; subst; [|by inversion H1].
  apply in_seq_inv in H1 as (u & v & -> & Hu%star_class_spec & (b & -> & Hb%alnum_label)%in_class_inv).
  rewrite all_s_app, Hu. simpl. by rewrite Hb.
Qed.
