(* ===== verification/GoParse.v ===== *)
(** Parsers of the Go standard library the request handlers and the
    configuration use: [strconv.Atoi], and [time.Parse] with the RFC 3339 layout
    on any text, which is more lenient than the standard (an hour of one digit, a
    comma before the fraction, offsets up to 24:60). *)

From stdpp Require Import pretty.
From S2P Require Import Prelude GoTime Domain Keys GoText.

(** ** strconv.Atoi *)

Definition int64_ok (n : Z) : bool := (MinInt64 <=? n) && (n <=? MaxInt64).

(** The value of a non-empty text of digits. *)
Definition decimal (s : string) : option Z := match s with EmptyString => None | _ => digits_val s 0 end.

Definition Atoi (s : string) : option Z :=
  let v := match s with
           | String a s' => if Ascii.eqb a "-" then Z.opp <$> decimal s' else if Ascii.eqb a "+" then decimal s' else decimal s
           | EmptyString => None
           end in
  match v with Some n => if int64_ok n then Some n else None | None => None end.

(** ** time.Parse *)

Module goParse.

(** [getnum(s, fixed)]: two digits, or one where that is allowed. *)
Definition getnum (fixed : bool) (s : string) : option (Z * string) :=
  match s with
  | String a s1 =>
      match digit_val a with
      | None => None
      | Some x =>
          match s1 with
          | String b s2 =>
              match digit_val b with
              | Some y => Some (x * 10 + y, s2)
              | None => if fixed then None else Some (x, s1)
              end
          | EmptyString => if fixed then None else Some (x, s1)
          end
      end
  | EmptyString => None
  end.

Definition inRange (lo hi : Z) (p : option (Z * string)) : option (Z * string) :=
  match p with Some (x, s) => if (lo <=? x) && (x <=? hi) then p else None | None => None end.

Definition skip (a : ascii) (s : string) : option string :=
  match s with String b s' => if Ascii.eqb a b then Some s' else None | EmptyString => None end.

Definition year (s : string) : option (Z * string) :=
  match s with
  | String a (String b (String c (String d s'))) =>
      match digits_val (String a (String b (String c (String d "")))) 0 with Some y => Some (y, s') | None => None end
  | _ => None
  end.

(** [parseNanoseconds] of the digits after the point: at most nine count. *)
Fixpoint nanos (n : nat) (acc : Z) (s : string) : Z :=
  match n with
  | O => acc
  | S n' =>
      match s with
      | String a s' => match digit_val a with Some v => nanos n' (acc * 10 + v) s' | None => nanos n' (acc * 10) s end
      | EmptyString => nanos n' (acc * 10) s
      end
  end.

(** The fraction, if there is one. *)
Definition fraction (s : string) : Z * string :=
  match s with
  | String a s' =>
      if Ascii.eqb a "." || Ascii.eqb a "," then
        match s' with
        | String f _ => match digit_val f with Some _ => (nanos 9 0 s', skip_digits s') | None => (0, s) end
        | EmptyString => (0, s)
        end
      else (0, s)
  | EmptyString => (0, s)
  end.

(** The zone up to the end of the text, in seconds. *)
Definition zone (s : string) : option Z :=
  match s with
  | String z s' =>
      if Ascii.eqb z "Z" then (if bool_decide (s' = "") then Some 0 else None)
      else
        match s with
        | String sg (String h1 (String h2 (String c (String m1 (String m2 EmptyString))))) =>
            match getnum true (String h1 (String h2 "")), getnum true (String m1 (String m2 "")) with
            | Some (hr, _), Some (mm, _) =>
                if Ascii.eqb c ":" && (hr <=? 24) && (mm <=? 60) then
                  if Ascii.eqb sg "-" then Some (- ((hr * 60 + mm) * 60))
                  else if Ascii.eqb sg "+" then Some ((hr * 60 + mm) * 60) else None
                else None
            | _, _ => None
            end
        | _ => None
        end
  | EmptyString => None
  end.

(** [time.Parse(time.RFC3339, s)], the instant in nanoseconds. *)
Definition Parse (s : string) : option Z :=
  '(y, s) ← year s; s ← skip "-" s;
  '(mo, s) ← inRange 1 12 (getnum true s); s ← skip "-" s;
  '(d, s) ← getnum true s; s ← skip "T" s;
  '(hh, s) ← inRange 0 23 (getnum false s); s ← skip ":" s;
  '(mi, s) ← inRange 0 59 (getnum true s); s ← skip ":" s;
  '(sc, s) ← inRange 0 59 (getnum true s);
  let '(ns, s) := fraction s in
  off ← zone s;
  if (1 <=? d) && (d <=? days_in mo y) then
    Some ((days_of_civil y mo d * 86400 + hh * 3600 + mi * 60 + sc - off) * second + ns)
  else None.
End goParse.

Lemma getnum_pad2 fixed n s : 0 <= n < 100 -> goParse.getnum fixed (pad2 n +:+ s) = Some (n, s).
Proof.
  intros Hn. unfold pad2, goParse.getnum. rewrite !app_cons_s, app_empty_s, !digit_val_digit.
  do 2 f_equal. Z.to_euclidean_division_equations; lia.
Qed.

Lemma inRange_ok lo hi n s : lo <= n <= hi -> goParse.inRange lo hi (Some (n, s)) = Some (n, s).
Proof. intros. unfold goParse.inRange. by rewrite !(proj2 (Z.leb_le _ _)) by lia. Qed.

Lemma skip_head a s : goParse.skip a (String a s) = Some s.
Proof. unfold goParse.skip. by rewrite Ascii.eqb_refl. Qed.

Lemma year_pad4 y s : 0 <= y <= 9999 -> goParse.year (pad4 y +:+ s) = Some (y, s).
Proof.
  intros Hy. pose proof (parse_pad4 y Hy) as Hp. unfold pad4 in *. rewrite !app_cons_s, app_empty_s. unfold goParse.year.
  unfold parse_uint in Hp. destruct (digits_val _ 0); [|done]. destruct (_ && _); [by injection Hp as -> | done].
Qed.

(** The text of an instant parses back to its second. *)
Lemma Parse_format t : four_digit_year t = true -> goParse.Parse (FormatRFC3339 t) = Some (unix t * second).
Proof.
  unfold four_digit_year, FormatRFC3339. destruct (civil_of_days (unix t / 86400)) as [[y m] d] eqn:Hc.
  rewrite andb_true_iff, !Z.leb_le. intros Hy. destruct (civil_roundtrip _ _ _ _ Hc) as (Hd & Hm & Hdm).
  unfold year_text. rewrite (proj2 (Z.ltb_ge _ _)), (proj2 (Z.leb_le y 9999)) by lia.
  set (sod := unix t mod 86400). assert (0 <= sod < 86400) as Hs by (apply Z.mod_pos_bound; lia). pose proof (days_in_31 m y).
  assert (0 <= sod / 3600 < 24 /\ 0 <= sod / 60 mod 60 < 60 /\ 0 <= sod mod 60 < 60) as (Hh & Hi & Hsc)
    by (clearbody sod; Z.to_euclidean_division_equations; lia).
  unfold goParse.Parse. rewrite year_pad4 by lia. cbn [mbind option_bind]. rewrite app_cons_s, app_empty_s, skip_head. cbn [mbind option_bind].
  do 5 (rewrite getnum_pad2 by lia; rewrite ?inRange_ok by lia; cbn [mbind option_bind];
    rewrite ?app_cons_s, ?app_empty_s, ?skip_head; cbn [mbind option_bind]).
  change (goParse.fraction "Z") with (0, "Z"). cbv beta iota. change (goParse.zone "Z") with (Some 0). cbn [mbind option_bind].
  rewrite !(proj2 (Z.leb_le _ _)) by lia. cbn [andb]. f_equal. rewrite Hd.
  assert (sod = sod / 3600 * 3600 + (sod / 60 mod 60) * 60 + sod mod 60)
    by (clearbody sod; clear - Hs; Z.to_euclidean_division_equations; lia).
  pose proof (Z.div_mod (unix t) 86400 ltac:(lia)) as E. fold sod in E. unfold second.  lia.
Qed.
