(* ===== verification/Hash.v ===== *)
(** The hashes the routing layers use: 64-bit FNV-1a ([hash/fnv]) and SHA-256
    ([crypto/sha256]), both of the Go standard library. *)

From S2P Require Import Prelude Keys.

(** ** FNV-1a *)

Definition fnv_offset : Z := 14695981039346656037.
Definition fnv_prime : Z := 1099511628211.

Fixpoint fnv_write (h : Z) (s : string) : Z :=
  match s with
  | EmptyString => h
  | String a s' => fnv_write (wrapu64 (Z.lxor h (ch a) * fnv_prime)) s'
  end.

(** [h := fnv.New64a(); h.Write(s); h.Sum64()]. *)
Definition fnv64a (s : string) : Z := fnv_write fnv_offset s.

Lemma wrapu64_uint64 z : uint64 (wrapu64 z).
Proof. unfold uint64. apply wrapu64_range. Qed.

Lemma fnv_write_range h s : uint64 h -> uint64 (fnv_write h s).
Proof. revert h. induction s as [|a s IH]; intros h Hh; simpl; [done|]. apply IH, wrapu64_uint64. Qed.

Lemma fnv64a_range s : uint64 (fnv64a s).
Proof. apply fnv_write_range. unfold uint64, fnv_offset, two64. lia. Qed.

(** The published test vectors. *)
Example fnv64a_empty : fnv64a "" = 14695981039346656037.
Proof. reflexivity. Qed.
Example fnv64a_foobar : fnv64a "foobar" = 9625390261332436968.
Proof. reflexivity. Qed.

(** ** SHA-256 *)

Definition wrap32 (z : Z) : Z := z mod 4294967296.
Definition rotr (n x : Z) : Z := Z.lor (Z.shiftr x n) (wrap32 (Z.shiftl x (32 - n))).

Definition sha_k : list Z :=
  [1116352408; 1899447441; 3049323471; 3921009573; 961987163; 1508970993; 2453635748; 2870763221;
   3624381080; 310598401; 607225278; 1426881987; 1925078388; 2162078206; 2614888103; 3248222580;
   3835390401; 4022224774; 264347078; 604807628; 770255983; 1249150122; 1555081692; 1996064986;
   2554220882; 2821834349; 2952996808; 3210313671; 3336571891; 3584528711; 113926993; 338241895;
   666307205; 773529912; 1294757372; 1396182291; 1695183700; 1986661051; 2177026350; 2456956037;
   2730485921; 2820302411; 3259730800; 3345764771; 3516065817; 3600352804; 4094571909; 275423344;
   430227734; 506948616; 659060556; 883997877; 958139571; 1322822218; 1537002063; 1747873779;
   1955562222; 2024104815; 2227730452; 2361852424; 2428436474; 2756734187; 3204031479; 3329325298].

Definition sha_init : list Z :=
  [1779033703; 3144134277; 1013904242; 2773480762; 1359893119; 2600822924; 528734635; 1541459225].

(** The message, a one bit, zeros to 56 modulo 64 bytes, and the bit length. *)
Fixpoint zeros (n : nat) : string := match n with O => "" | S n' => String (byte 0) (zeros n') end.
Definition sha_pad (s : string) : string :=
  let l := slen s in
  s +:+ String (byte 128) (zeros (Z.to_nat ((55 - l) mod 64)) +:+ be_bytes 8 (8 * l)).

(** The sixteen words of each block. *)
Fixpoint words (fuel : nat) (s : string) : list Z :=
  match fuel, s with
  | S f, String a (String b (String c (String d s'))) =>
      (ch a * 16777216 + ch b * 65536 + ch c * 256 + ch d) :: words f s'
  | _, _ => []
  end.

(** The schedule, latest word first. *)
Fixpoint schedule (n : nat) (w : list Z) : list Z :=
  match n with
  | O => w
  | S n' =>
      let at_ i := nth i w 0 in
      let s0 := Z.lxor (rotr 7 (at_ 14%nat)) (Z.lxor (rotr 18 (at_ 14%nat)) (Z.shiftr (at_ 14%nat) 3)) in
      let s1 := Z.lxor (rotr 17 (at_ 1%nat)) (Z.lxor (rotr 19 (at_ 1%nat)) (Z.shiftr (at_ 1%nat) 10)) in
      schedule n' (wrap32 (at_ 15%nat + s0 + at_ 6%nat + s1) :: w)
  end.

Definition sha_round (st : list Z) (kw : Z * Z) : list Z :=
  match st with
  | [a; b; c; d; e; f; g; h] =>
      let s1 := Z.lxor (rotr 6 e) (Z.lxor (rotr 11 e) (rotr 25 e)) in
      let cho := Z.lxor (Z.land e f) (Z.land (Z.lxor e 4294967295) g) in
      let t1 := wrap32 (h + s1 + cho + fst kw + snd kw) in
      let s0 := Z.lxor (rotr 2 a) (Z.lxor (rotr 13 a) (rotr 22 a)) in
      let maj := Z.lxor (Z.land a b) (Z.lxor (Z.land a c) (Z.land b c)) in
      [wrap32 (t1 + wrap32 (s0 + maj)); a; b; c; wrap32 (d + t1); e; f; g]
  | _ => st
  end.

Definition sha_block (st block : list Z) : list Z :=
  let w := rev (schedule 48 (rev block)) in
  map (fun '(x, y) => wrap32 (x + y)) (zip st (fold_left sha_round (zip sha_k w) st)).

Fixpoint sha_blocks (fuel : nat) (st : list Z) (w : list Z) : list Z :=
  match fuel, w with
  | S f, _ :: _ => sha_blocks f (sha_block st (take 16 w)) (drop 16 w)
  | _, _ => st
  end.

Fixpoint concat_s (l : list string) : string := match l with [] => "" | x :: l' => x +:+ concat_s l' end.

Definition sha256 (s : string) : string :=
  let p := sha_pad s in
  let w := words (String.length p) p in
  concat_s (map (be_bytes 4) (sha_blocks (length w) sha_init w)).

(** [binary.BigEndian.Uint64(sum[:8])] of the sum. *)
Definition sha256_u64 (s : string) : Z := beUint64 (take_s 8 (sha256 s)).

(** ** Hexadecimal text and HMAC *)

Definition hex_digit (z : Z) : ascii := byte (if z <? 10 then 48 + z else 87 + z).

(** [hex.EncodeToString]. *)
Fixpoint hexEncode (s : string) : string :=
  match s with
  | EmptyString => ""
  | String a s' => String (hex_digit (ch a / 16)) (String (hex_digit (ch a mod 16)) (hexEncode s'))
  end.

Fixpoint xor_bytes (k : Z) (s : string) : string :=
  match s with EmptyString => "" | String a s' => String (byte (Z.lxor (ch a) k)) (xor_bytes k s') end.

(** [hmac.New(sha256.New, key)] after [msg] has been written: blocks of 64 bytes. *)
Definition hmac_sha256 (key msg : string) : string :=
  let key := if (64 <? String.length key)%nat then sha256 key else key in
  let key := key +:+ zeros (64 - String.length key) in
  sha256 (xor_bytes 92 key +:+ sha256 (xor_bytes 54 key +:+ msg)).

(** The first eight bytes of the published vectors for the empty message and
    for ["abc"], and of a message of two blocks. *)
Example sha256_empty : sha256_u64 "" = 16406829232824261652.
Proof. vm_compute. reflexivity. Qed.
Example sha256_abc : sha256_u64 "abc" = 13436514500253700074.
Proof. vm_compute. reflexivity. Qed.
Example sha256_two_blocks :
  sha256_u64 "abcdbcdecdefdefgefghfghighijhijkijkljklmklmnlmnomnopnopq" = 2633878325449603256.
Proof. vm_compute. reflexivity. Qed.
(** The published HMAC vector for the key ["Jefe"] (RFC 4231, test case 2). *)
Example hmac_vector :
  hexEncode (hmac_sha256 "Jefe" "what do ya want for nothing?") =
  "5bdcc146bf60754e6a042426089575c75a003f089d2739839dec58b964ec3843".
Proof. vm_compute. reflexivity. Qed.
