(* ===== verification/Float64.v ===== *)
(** Go's [float64]: the IEEE double operations of package SpecFloat (53 bits of
    precision, exponents below 1024, each operation rounded to nearest even, as
    on amd64), the functions of package math the sources call, and conversions.

    The lemmas show that the operations are exact on the integers below 2^53:
    there they compute what the operations on [Z] compute. *)

From Stdlib Require Import SpecFloat.
From S2P Require Import Prelude.

Definition float64 (n : Z) : spec_float := binary_normalize 53 1024 n 0 false.
Definition fadd : spec_float -> spec_float -> spec_float := SFadd 53 1024.
Definition fsub : spec_float -> spec_float -> spec_float := SFsub 53 1024.
Definition fmul : spec_float -> spec_float -> spec_float := SFmul 53 1024.
Definition fdiv : spec_float -> spec_float -> spec_float := SFdiv 53 1024.
(** The comparisons [<], [<=] and [==], false when an operand is not a number. *)
Definition flt : spec_float -> spec_float -> bool := SFltb.
Definition fle : spec_float -> spec_float -> bool := SFleb.
Definition feq : spec_float -> spec_float -> bool := SFeqb.

(** [math.Min]. *)
Definition fmin (x y : spec_float) : spec_float :=
  match x, y with
  | S754_infinity true, _ | _, S754_infinity true => S754_infinity true
  | S754_nan, _ | _, S754_nan => S754_nan
  | S754_zero sx, S754_zero _ => if sx then x else y
  | _, _ => if flt x y then x else y
  end.

(** [math.Ceil]. *)
Definition fceil (x : spec_float) : spec_float :=
  match x with
  | S754_finite s m e =>
      if 0 <=? e then x
      else if s then SFopp (binary_normalize 53 1024 (Z.pos m / 2 ^ (- e)) 0 false)
      else binary_normalize 53 1024 (- (- Z.pos m / 2 ^ (- e))) 0 false
  | _ => x
  end.

(** The integer part, towards zero; [None] for what is not a finite number. *)
Definition ftrunc (f : spec_float) : option Z :=
  match f with
  | S754_zero _ => Some 0
  | S754_finite s m e =>
      let a := if 0 <=? e then Z.pos m * 2 ^ e else Z.pos m / 2 ^ (- e) in
      Some (if s then - a else a)
  | _ => None
  end.

(** [int64(f)]; out of range it is what the machine makes of it. *)
Definition to_int64 (cvt_overflow : Z) (f : spec_float) : Z :=
  match ftrunc f with
  | Some v => if (MinInt64 <=? v) && (v <=? MaxInt64) then v else cvt_overflow
  | None => cvt_overflow
  end.

(** ** Exactness on integers *)

(** The double [n * 2 ^ e] for an [n] whose bits below the first 53 are zero. *)
Definition canon (n e : Z) : spec_float :=
  S754_finite false (Z.to_pos (Z.shiftr n (Z.log2 n - 52))) (e + (Z.log2 n - 52)).

(** The bits of [n] below the first 53. *)
Definition fits53 (n : Z) : Prop := Z.shiftl (Z.shiftr n (Z.log2 n - 52)) (Z.log2 n - 52) = n.

Lemma digits_log2 p : Z.pos (digits2_pos p) = Z.log2 (Z.pos p) + 1.
Proof.
  induction p as [p IH|p IH|]; [| |done]; simpl digits2_pos; rewrite Pos2Z.inj_succ, IH.
  - change (Z.pos p~1) with (2 * Z.pos p + 1). rewrite Z.log2_succ_double by lia. lia.
  - change (Z.pos p~0) with (2 * Z.pos p). rewrite Z.log2_double by lia. lia.
Qed.

Lemma iter_pos_nat {A} (f : A -> A) p x : SpecFloat.iter_pos f p x = Nat.iter (Pos.to_nat p) f x.
Proof.
  revert x. induction p as [p IH|p IH|]; intros x; [| |done]; cbn [SpecFloat.iter_pos]; rewrite !IH, <- Nat.iter_add.
  - rewrite Pos2Nat.inj_xI. replace (S (2 * Pos.to_nat p)) with (S (Pos.to_nat p + Pos.to_nat p)) by lia.
    by rewrite Nat.iter_succ_r.
  - rewrite Pos2Nat.inj_xO. f_equal. lia.
Qed.

Lemma iter_shr q k : 0 < q ->
  Nat.iter k shr_1 (Build_shr_record (q * 2 ^ Z.of_nat k) false false) = Build_shr_record q false false.
Proof.
  intros Hq. induction k as [|k IH]; [by rewrite Z.mul_1_r|].
  rewrite Nat.iter_succ_r. replace (q * 2 ^ Z.of_nat (S k)) with (2 * (q * 2 ^ Z.of_nat k))
    by (rewrite Nat2Z.inj_succ, Z.pow_succ_r by lia; lia).
  pose proof (Z.pow_pos_nonneg 2 (Z.of_nat k)). destruct (q * 2 ^ Z.of_nat k) eqn:E; [nia | exact IH | nia].
Qed.

Lemma log2_shiftr n s : 0 < n -> 0 <= s <= Z.log2 n -> Z.log2 (Z.shiftr n s) = Z.log2 n - s.
Proof. intros Hn Hs. rewrite Z.log2_shiftr by done. lia. Qed.

Lemma shiftr_pos n s : 0 < n -> s <= Z.log2 n -> 0 < Z.shiftr n s.
Proof.
  intros Hn Hs. destruct (Z.le_gt_cases 0 s) as [H|H].
  - rewrite Z.shiftr_div_pow2 by done. apply Z.div_str_pos. split; [by apply Z.pow_pos_nonneg|].
    etransitivity; [apply Z.pow_le_mono_r, Hs; lia|]. apply Z.log2_spec. done.
  - rewrite <- Z.shiftl_opp_r, Z.shiftl_mul_pow2 by lia. pose proof (Z.pow_pos_nonneg 2 (- s)). nia.
Qed.

Section exact.
Variables (n e : Z).
Hypothesis n_pos : 0 < n.
Hypothesis n_fits : fits53 n.
Hypothesis e_small : -900 <= e <= 500.
Hypothesis n_small : Z.log2 n <= 300.

(** Rounding what needs no rounding. *)
Lemma round_aux_exact : 52 <= Z.log2 n -> binary_round_aux 53 1024 false n e loc_Exact = canon n e.
Proof.
  intros Hl. set (s := Z.log2 n - 52) in *. unfold binary_round_aux, shr_fexp.
  assert (forall m, 0 < m -> Zdigits2 m = Z.log2 m + 1) as Hd
    by (intros [|p|p]; try lia; intros _; apply digits_log2).
  rewrite Hd by done.
  replace (fexp 53 1024 (Z.log2 n + 1 + e) - e) with s by (unfold fexp, emin; lia).
  set (q := Z.shiftr n s). assert (0 < q) as Hq by (apply shiftr_pos; lia).
  assert (shr (shr_record_of_loc n loc_Exact) e s = (Build_shr_record q false false, e + s)) as ->.
  { unfold shr. destruct s as [|p|p] eqn:Es; [|f_equal|lia].
    - unfold q. rewrite Z.shiftr_0_r. f_equal. lia.
    - rewrite iter_pos_nat. rewrite <- (iter_shr q (Pos.to_nat p)) by done. simpl. f_equal. f_equal.
      rewrite positive_nat_Z, <- Z.shiftl_mul_pow2 by lia. symmetry. rewrite <- Es. unfold q. rewrite <- Es. exact n_fits. }
  cbn [shr_m loc_of_shr_record round_nearest_even].
  assert (Z.log2 q = 52) as Hlq by (unfold q; rewrite log2_shiftr by lia; lia).
  rewrite Hd, Hlq by done.
  replace (fexp 53 1024 (52 + 1 + (e + s)) - (e + s)) with 0 by (unfold fexp, emin; lia).
  cbn [shr shr_record_of_loc shr_m]. unfold canon. fold s. fold q.
  destruct q as [|p|p]; try lia. rewrite (proj2 (Z.leb_le _ _)) by lia. done.
Qed.
End exact.

Lemma iter_xO p d : Z.pos (Pos.iter xO p d) = Z.pos p * 2 ^ Z.pos d.
Proof.
  induction d as [|d IH] using Pos.peano_ind; [simpl; lia|].
  rewrite Pos.iter_succ, Pos2Z.inj_xO, IH, Pos2Z.inj_succ, Z.pow_succ_r by lia. lia.
Qed.

Lemma shl_align_value p ex ez : ez <= ex -> Z.pos (fst (shl_align p ex ez)) = Z.pos p * 2 ^ (ex - ez).
Proof.
  intros H. unfold shl_align. destruct (ez - ex) as [|d|d] eqn:E; simpl; [|lia|].
  - replace (ex - ez) with 0 by lia. lia.
  - rewrite iter_xO. by replace (ex - ez) with (Z.pos d) by lia.
Qed.

Lemma log2_mul_pow2 n j : 0 < n -> 0 <= j -> Z.log2 (n * 2 ^ j) = Z.log2 n + j.
Proof. intros. rewrite Z.log2_mul_pow2 by lia. lia. Qed.

Lemma shiftr_mul n j s : 0 <= j -> Z.shiftr (n * 2 ^ j) (s + j) = Z.shiftr n s.
Proof.
  intros Hj. rewrite <- Z.shiftl_mul_pow2 by done. apply Z.bits_inj'. intros i Hi.
  rewrite !Z.shiftr_spec by done. destruct (Z.le_gt_cases 0 (i + (s + j))).
  - rewrite Z.shiftl_spec by done. f_equal. lia.
  - rewrite !Z.testbit_neg_r by lia. done.
Qed.

Lemma canon_shift n e j : 0 < n -> 0 <= j -> canon (n * 2 ^ j) (e - j) = canon n e.
Proof.
  intros Hn Hj. unfold canon. rewrite log2_mul_pow2 by done.
  replace (Z.log2 n + j - 52) with (Z.log2 n - 52 + j) by lia. rewrite shiftr_mul by done. f_equal. lia.
Qed.

Lemma fits53_shift n j : 0 < n -> 0 <= j -> fits53 n -> fits53 (n * 2 ^ j).
Proof.
  unfold fits53. intros Hn Hj Hf. rewrite log2_mul_pow2 by done. set (s := Z.log2 n - 52) in *.
  replace (Z.log2 n + j - 52) with (s + j) by lia. rewrite shiftr_mul by done.
  rewrite <- Hf at 2. rewrite <- Z.shiftl_mul_pow2 by done. apply Z.bits_inj'. intros i Hi.
  rewrite !(Z.shiftl_spec _ _ i) by done. destruct (Z.le_gt_cases 0 (i - j)).
  - rewrite Z.shiftl_spec by done. f_equal. lia.
  - rewrite (Z.testbit_neg_r _ (i - j)) by lia. destruct (Z.le_gt_cases 0 (i - (s + j))) as [Hk|].
    + rewrite Z.shiftr_spec by done. by rewrite Z.testbit_neg_r by lia.
    + by rewrite Z.testbit_neg_r by lia.
Qed.

Lemma fits53_small n : 0 < n < 2 ^ 53 -> fits53 n.
Proof.
  intros Hn. unfold fits53. assert (Z.log2 n < 53) by (apply Z.log2_lt_pow2; lia).
  rewrite <- (Z.shiftl_opp_r n), <- Z.shiftr_opp_r, Z.shiftr_shiftl_r by lia.
  replace (- (Z.log2 n - 52) - - (Z.log2 n - 52)) with 0 by lia. apply Z.shiftr_0_r.
Qed.

Lemma normalize_exact n e : 0 < n -> fits53 n -> -800 <= e <= 400 -> Z.log2 n <= 300 ->
  binary_normalize 53 1024 n e false = canon n e.
Proof.
  intros Hn Hf He Hl. destruct n as [|p|p]; try lia. unfold binary_normalize, binary_round.
  rewrite digits_log2. set (n := Z.pos p) in *.
  replace (fexp 53 1024 (Z.log2 n + 1 + e)) with (e + (Z.log2 n - 52))
    by (unfold fexp, emin; pose proof (Z.log2_nonneg n); lia).
  destruct (Z.le_gt_cases 52 (Z.log2 n)) as [H52|H52].
  - assert (shl_align p e (e + (Z.log2 n - 52)) = (p, e)) as ->
      by (unfold shl_align; destruct (e + (Z.log2 n - 52) - e) eqn:E; (done || lia)).
    apply round_aux_exact; done || lia.
  - set (j := 52 - Z.log2 n).
    replace (e + (Z.log2 n - 52)) with (e - j) by lia.
    assert (snd (shl_align p e (e - j)) = e - j) as Hs
      by (unfold shl_align; destruct (e - j - e) eqn:E; (done || lia)).
    pose proof (shl_align_value p e (e - j) ltac:(lia)) as Hv. replace (e - (e - j)) with j in Hv by lia.
    destruct (shl_align p e (e - j)) as [m t]. simpl in Hs, Hv. subst t. rewrite Hv. fold n.
    pose proof (Z.pow_pos_nonneg 2 j). pose proof (Z.log2_nonneg n).
    assert (Z.log2 (n * 2 ^ j) = 52) as Hlog by (rewrite log2_mul_pow2; lia).
    rewrite <- (canon_shift n e j) by lia.
    apply round_aux_exact; [nia | by apply fits53_shift; try lia | lia | lia | lia].
Qed.

Definition safe_int (n : Z) : Prop := 0 <= n < 2 ^ 53.

Lemma safe_log2 n : 0 < n -> safe_int n -> 0 <= Z.log2 n <= 52.
Proof.
  intros Hp [_ Hn]. split; [apply Z.log2_nonneg|]. assert (Z.log2 n < 53); [|lia]. by apply Z.log2_lt_pow2.
Qed.

Lemma float64_canon n : 0 < n -> safe_int n -> float64 n = canon n 0.
Proof.
  intros Hp Hs. pose proof (safe_log2 n Hp Hs).
  apply normalize_exact; [done | by apply fits53_small; destruct Hs | lia | lia].
Qed.

(** The mantissa and the exponent of an integer. *)
Lemma canon_int n : 0 < n -> safe_int n -> exists m, canon n 0 = S754_finite false m (Z.log2 n - 52) /\
  Z.pos m = n * 2 ^ (52 - Z.log2 n).
Proof.
  intros Hp Hs. pose proof (safe_log2 n Hp Hs). eexists. split; [reflexivity|].
  rewrite <- Z.shiftl_opp_r, Z.shiftl_mul_pow2 by lia.
  replace (- (Z.log2 n - 52)) with (52 - Z.log2 n) by lia.
  pose proof (Z.pow_pos_nonneg 2 (52 - Z.log2 n)). rewrite Z2Pos.id by nia. done.
Qed.

Lemma float64_0 : float64 0 = S754_zero false.
Proof. reflexivity. Qed.

(** An integer's mantissa, aligned to a smaller exponent. *)
Lemma aligned_int n m ez : 0 < n -> safe_int n -> Z.pos m = n * 2 ^ (52 - Z.log2 n) -> ez <= Z.log2 n - 52 ->
  Z.pos (fst (shl_align m (Z.log2 n - 52) ez)) = n * 2 ^ (- ez).
Proof.
  intros Hp Hs Hm He. pose proof (safe_log2 n Hp Hs). rewrite shl_align_value, Hm, <- Z.mul_assoc, <- Z.pow_add_r by lia.
  do 2 f_equal. lia.
Qed.

(** Normalizing an integer written with a negative exponent. *)
Lemma normalize_int n ez : 0 < n -> safe_int n -> -60 <= ez <= 0 ->
  binary_normalize 53 1024 (n * 2 ^ (- ez)) ez false = float64 n.
Proof.
  intros Hp Hs He. pose proof (safe_log2 n Hp Hs). pose proof (Z.pow_pos_nonneg 2 (- ez)).
  rewrite float64_canon by done. rewrite normalize_exact.
  - replace ez with (0 - - ez) at 2 by lia. apply canon_shift; lia.
  - nia.
  - apply fits53_shift; [done | lia | by apply fits53_small; destruct Hs].
  - lia.
  - rewrite log2_mul_pow2; lia.
Qed.

Lemma fadd_int a b : safe_int a -> safe_int b -> safe_int (a + b) -> fadd (float64 a) (float64 b) = float64 (a + b).
Proof.
  intros Ha Hb Hab. destruct (decide (a = 0)) as [->|Ha0], (decide (b = 0)) as [->|Hb0]; [done| | |].
  - rewrite Z.add_0_l, (float64_canon b) by (done || unfold safe_int in *; lia). done.
  - rewrite Z.add_0_r, (float64_canon a) by (done || unfold safe_int in *; lia). done.
  - assert (0 < a /\ 0 < b) as [Hpa Hpb] by (unfold safe_int in *; lia).
    destruct (canon_int a Hpa Ha) as (ma & Ea & Hma), (canon_int b Hpb Hb) as (mb & Eb & Hmb).
    pose proof (safe_log2 a Hpa Ha). pose proof (safe_log2 b Hpb Hb).
    rewrite (float64_canon a), (float64_canon b), Ea, Eb by done. unfold fadd, SFadd, cond_Zopp.
    rewrite !aligned_int, <- Z.mul_add_distr_r by (done || lia). apply normalize_int; [lia | done | lia].
Qed.

Lemma fsub_int a b : safe_int a -> safe_int b -> b <= a -> fsub (float64 a) (float64 b) = float64 (a - b).
Proof.
  intros Ha Hb Hab. destruct (decide (b = 0)) as [->|Hb0].
  { rewrite Z.sub_0_r. destruct (decide (a = 0)) as [->|Ha0]; [done|].
    rewrite (float64_canon a) by (done || unfold safe_int in *; lia). done. }
  assert (0 < a /\ 0 < b) as [Hpa Hpb] by (unfold safe_int in *; lia).
  destruct (canon_int a Hpa Ha) as (ma & Ea & Hma), (canon_int b Hpb Hb) as (mb & Eb & Hmb).
  pose proof (safe_log2 a Hpa Ha). pose proof (safe_log2 b Hpb Hb).
  rewrite (float64_canon a), (float64_canon b), Ea, Eb by done. unfold fsub, SFsub, cond_Zopp.
  rewrite !aligned_int, <- Z.mul_sub_distr_r by (done || lia).
  destruct (decide (a = b)) as [->|Hne]; [by rewrite Z.sub_diag|].
  apply normalize_int; [lia | unfold safe_int in *; lia | lia].
Qed.

(** Rounding an exact value of at least 53 bits. *)
Lemma round_aux_int n j : 0 < n -> safe_int n -> 52 <= Z.log2 n + j -> 0 <= j <= 200 ->
  binary_round_aux 53 1024 false (n * 2 ^ j) (- j) loc_Exact = float64 n.
Proof.
  intros Hp Hs Hl Hj. pose proof (safe_log2 n Hp Hs). pose proof (Z.pow_pos_nonneg 2 j).
  assert (Z.log2 (n * 2 ^ j) = Z.log2 n + j) as Hlog by (apply log2_mul_pow2; lia).
  rewrite float64_canon, round_aux_exact by (done || lia || nia || (apply fits53_shift; [done | lia | by apply fits53_small; destruct Hs])).
  replace (- j) with (0 - j) by lia. apply canon_shift; lia.
Qed.

Lemma fmul_int a b : safe_int a -> safe_int b -> safe_int (a * b) -> fmul (float64 a) (float64 b) = float64 (a * b).
Proof.
  intros Ha Hb Hab. destruct (decide (a = 0)) as [->|Ha0], (decide (b = 0)) as [->|Hb0]; [done| | |].
  - rewrite (float64_canon b) by (done || unfold safe_int in *; lia). done.
  - rewrite Z.mul_0_r, (float64_canon a) by (done || unfold safe_int in *; lia). done.
  - assert (0 < a /\ 0 < b) as [Hpa Hpb] by (unfold safe_int in *; lia).
    destruct (canon_int a Hpa Ha) as (ma & Ea & Hma), (canon_int b Hpb Hb) as (mb & Eb & Hmb).
    pose proof (safe_log2 a Hpa Ha). pose proof (safe_log2 b Hpb Hb).
    rewrite (float64_canon a), (float64_canon b), Ea, Eb by done. unfold fmul, SFmul, xorb.
    set (j := 104 - Z.log2 a - Z.log2 b).
    replace (Z.log2 a - 52 + (Z.log2 b - 52)) with (- j) by lia.
    replace (Z.pos (ma * mb)) with (a * b * 2 ^ j).
    2:{ rewrite Pos2Z.inj_mul, Hma, Hmb. replace j with ((52 - Z.log2 a) + (52 - Z.log2 b)) by lia.
        rewrite Z.pow_add_r by lia. lia. }
    assert (Z.log2 a + Z.log2 b <= Z.log2 (a * b)) by (apply Z.log2_mul_below; lia).
    apply round_aux_int; [nia | done | lia | lia].
Qed.

Lemma mantissa_bounds n : 0 < n -> safe_int n -> 2 ^ 52 <= n * 2 ^ (52 - Z.log2 n) < 2 ^ 53.
Proof.
  intros Hp Hs. pose proof (safe_log2 n Hp Hs). pose proof (Z.log2_spec n Hp) as [Hlo Hhi].
  replace (2 ^ 52) with (2 ^ Z.log2 n * 2 ^ (52 - Z.log2 n)) by (rewrite <- Z.pow_add_r by lia; f_equal; lia).
  replace (2 ^ 53) with (2 ^ Z.succ (Z.log2 n) * 2 ^ (52 - Z.log2 n)) by (rewrite <- Z.pow_add_r by lia; f_equal; lia).
  pose proof (Z.pow_pos_nonneg 2 (52 - Z.log2 n)). nia.
Qed.

Lemma mantissa_digits m : 2 ^ 52 <= Z.pos m < 2 ^ 53 -> Zdigits2 (Z.pos m) = 53.
Proof.
  intros H. simpl. rewrite digits_log2. assert (Z.log2 (Z.pos m) = 52); [|lia]. apply Z.log2_unique; [lia|]. exact H.
Qed.

(** The quotient of two 53-bit mantissas, with its remainder. *)
Lemma div_core m1 e1 m2 e2 : 2 ^ 52 <= Z.pos m1 < 2 ^ 53 -> 2 ^ 52 <= Z.pos m2 < 2 ^ 53 -> -900 <= e1 - e2 ->
  SFdiv_core_binary 53 1024 (Z.pos m1) e1 (Z.pos m2) e2 =
  (Z.pos m1 * 2 ^ 53 / Z.pos m2, e1 - e2 - 53, new_location (Z.pos m2) (Z.pos m1 * 2 ^ 53 mod Z.pos m2)).
Proof.
  intros H1 H2 He. unfold SFdiv_core_binary. rewrite !mantissa_digits by done.
  replace (Z.min (fexp 53 1024 (53 + e1 - (53 + e2))) (e1 - e2)) with (e1 - e2 - 53) by (unfold fexp, emin; lia).
  replace (e1 - e2 - (e1 - e2 - 53)) with 53 by lia. rewrite Z.shiftl_mul_pow2 by lia.
  unfold Z.div, Z.modulo. by destruct (Z.div_eucl (Z.pos m1 * 2 ^ 53) (Z.pos m2)).
Qed.

Lemma new_location_exact n : new_location n 0 = loc_Exact.
Proof. unfold new_location, new_location_even, new_location_odd. by destruct (Z.even n). Qed.

(** A quotient that is an integer is exact. *)
Lemma fdiv_int b c : 0 < b -> 0 < c -> safe_int (b * c) -> fdiv (float64 (b * c)) (float64 b) = float64 c.
Proof.
  intros Hb Hc Hbc. assert (safe_int b) as Hsb by (unfold safe_int in *; nia).
  assert (safe_int c) as Hsc by (unfold safe_int in *; nia). assert (0 < b * c) as Hp by nia.
  destruct (canon_int (b * c) Hp Hbc) as (m1 & E1 & Hm1), (canon_int b Hb Hsb) as (m2 & E2 & Hm2).
  pose proof (safe_log2 _ Hp Hbc). pose proof (safe_log2 b Hb Hsb). pose proof (safe_log2 c Hc Hsc).
  assert (Z.log2 b + Z.log2 c <= Z.log2 (b * c) <= Z.log2 b + Z.log2 c + 1) as Hl
    by (split; [apply Z.log2_mul_below | apply Z.log2_mul_above]; lia).
  rewrite (float64_canon (b * c)), (float64_canon b), E1, E2 by done. unfold fdiv, SFdiv.
  rewrite div_core; [| rewrite Hm1; by apply mantissa_bounds | rewrite Hm2; by apply mantissa_bounds | lia].
  set (j := 53 + Z.log2 b - Z.log2 (b * c)). assert (0 <= j <= 53) as Hj by lia.
  assert (Z.pos m1 * 2 ^ 53 = c * 2 ^ j * Z.pos m2) as ->.
  { rewrite Hm1, Hm2. replace (b * c * 2 ^ (52 - Z.log2 (b * c)) * 2 ^ 53)
      with (b * c * (2 ^ (52 - Z.log2 (b * c)) * 2 ^ 53)) by lia.
    replace (c * 2 ^ j * (b * 2 ^ (52 - Z.log2 b))) with (b * c * (2 ^ j * 2 ^ (52 - Z.log2 b))) by lia.
    rewrite <- !Z.pow_add_r by lia. do 2 f_equal. lia. }
  rewrite Z.div_mul, Z.mod_mul, new_location_exact by lia. cbn [xorb].
  replace (Z.log2 (b * c) - 52 - (Z.log2 b - 52) - 53) with (- j) by lia. apply round_aux_int; [done | done | lia | lia].
Qed.

(** ** Comparisons *)

Lemma fcmp_int a b : safe_int a -> safe_int b -> SFcompare (float64 a) (float64 b) = Some (a ?= b).
Proof.
  intros Ha Hb. destruct (decide (a = 0)) as [->|Ha0], (decide (b = 0)) as [->|Hb0]; [done| | |].
  1,2: match goal with H : ?x ≠ 0 |- _ =>
         rewrite (float64_canon x) by (done || unfold safe_int in *; lia); simpl; destruct x; unfold safe_int in *; (done || lia) end.
  assert (0 < a /\ 0 < b) as [Hpa Hpb] by (unfold safe_int in *; lia).
  destruct (canon_int a Hpa Ha) as (ma & Ea & Hma), (canon_int b Hpb Hb) as (mb & Eb & Hmb).
  pose proof (safe_log2 a Hpa Ha). pose proof (safe_log2 b Hpb Hb).
  rewrite (float64_canon a), (float64_canon b), Ea, Eb by done. simpl. f_equal.
  destruct (Z.compare_spec (Z.log2 a - 52) (Z.log2 b - 52)) as [E|E|E].
  - change (Pos.compare_cont Eq ma mb) with (Z.pos ma ?= Z.pos mb). rewrite Hma, Hmb.
    replace (Z.log2 b) with (Z.log2 a) by lia. pose proof (Z.pow_pos_nonneg 2 (52 - Z.log2 a)).
    destruct (Z.compare_spec a b), (Z.compare_spec (a * 2 ^ (52 - Z.log2 a)) (b * 2 ^ (52 - Z.log2 a))); (done || nia).
  - symmetry. apply Z.compare_lt_iff. apply Z.log2_lt_cancel. lia.
  - symmetry. apply Z.compare_gt_iff. apply Z.log2_lt_cancel. lia.
Qed.

Lemma flt_int a b : safe_int a -> safe_int b -> flt (float64 a) (float64 b) = (a <? b).
Proof. intros Ha Hb. unfold flt, SFltb. rewrite fcmp_int by done. by unfold Z.ltb; destruct (a ?= b). Qed.

Lemma fle_int a b : safe_int a -> safe_int b -> fle (float64 a) (float64 b) = (a <=? b).
Proof. intros Ha Hb. unfold fle, SFleb. rewrite fcmp_int by done. by unfold Z.leb; destruct (a ?= b). Qed.

Lemma feq_int a b : safe_int a -> safe_int b -> feq (float64 a) (float64 b) = (a =? b).
Proof.
  intros Ha Hb. unfold feq, SFeqb. rewrite fcmp_int by done.
  destruct (Z.compare_spec a b); symmetry; [by apply Z.eqb_eq | apply Z.eqb_neq; lia | apply Z.eqb_neq; lia].
Qed.

Lemma fmin_int a b : safe_int a -> safe_int b -> fmin (float64 a) (float64 b) = float64 (Z.min a b).
Proof.
  intros Ha Hb.
  assert (fmin (float64 a) (float64 b) = if flt (float64 a) (float64 b) then float64 a else float64 b) as ->.
  { destruct (decide (a = 0)) as [->|Ha0], (decide (b = 0)) as [->|Hb0]; [done|..];
      repeat match goal with H : ?x ≠ 0 |- _ => rewrite (float64_canon x) by (done || unfold safe_int in *; lia); clear H end;
      done. }
  rewrite flt_int by done. destruct (Z.ltb_spec a b); f_equal; lia.
Qed.

(** Rounding a 53-bit mantissa to nearest gives it or its successor. *)
Lemma round_aux_53 q e l : 2 ^ 52 <= q < 2 ^ 53 -> -900 <= e <= 900 ->
  exists m e', binary_round_aux 53 1024 false q e l = S754_finite false m e' /\ e <= e' <= e + 1 /\
    Z.pos m * 2 ^ (e' - e) <= q + 1.
Proof.
  intros Hq He. unfold binary_round_aux.
  assert (Zdigits2 q = 53) as Hd by (destruct q; [lia | by apply mantissa_digits | lia]).
  assert (shr_fexp 53 1024 q e l = (shr_record_of_loc q l, e)) as ->.
  { unfold shr_fexp. rewrite Hd. replace (fexp 53 1024 (53 + e) - e) with 0 by (unfold fexp, emin; lia). done. }
  assert (loc_of_shr_record (shr_record_of_loc q l) = l /\ shr_m (shr_record_of_loc q l) = q) as [-> ->]
    by (destruct l as [|[]]; done).
  set (q' := round_nearest_even q l).
  assert (q <= q' <= q + 1) as Hq' by (unfold q', round_nearest_even; destruct l as [|[]]; try destruct (Z.even q); lia).
  destruct (decide (q' = 2 ^ 53)) as [->|Hne].
  - replace (shr_fexp 53 1024 (2 ^ 53) e loc_Exact) with (Build_shr_record (2 ^ 52) false false, e + 1).
    2:{ unfold shr_fexp. replace (Zdigits2 (2 ^ 53)) with 54 by done.
        replace (fexp 53 1024 (54 + e) - e) with 1 by (unfold fexp, emin; lia). done. }
    cbn [shr_m]. change (2 ^ 52) with (Z.pos 4503599627370496). rewrite (proj2 (Z.leb_le _ _)) by lia.
    eexists _, _. split; [reflexivity|]. split; [lia|]. replace (e + 1 - e) with 1 by lia. lia.
  - assert (2 ^ 52 <= q' < 2 ^ 53) as Hb by lia.
    assert (shr_fexp 53 1024 q' e loc_Exact = (Build_shr_record q' false false, e)) as ->.
    { unfold shr_fexp. assert (Zdigits2 q' = 53) as -> by (destruct q'; [lia | by apply mantissa_digits | lia]).
      replace (fexp 53 1024 (53 + e) - e) with 0 by (unfold fexp, emin; lia). done. }
    cbn [shr_m]. destruct q' as [|m|m]; [lia| |lia]. rewrite (proj2 (Z.leb_le _ _)) by lia.
    eexists _, _. split; [reflexivity|]. split; [lia|]. rewrite Z.sub_diag. lia.
Qed.

(** One over a positive integer is a positive double of at most one, so its
    ceiling is one. *)
Lemma fceil_fdiv_one r : 0 < r -> safe_int r -> fceil (fdiv (float64 1) (float64 r)) = float64 1.
Proof.
  intros Hr Hs. pose proof (safe_log2 r Hr Hs).
  assert (exists m e, fdiv (float64 1) (float64 r) = S754_finite false m e /\ -200 <= e < 0 /\ Z.pos m <= 2 ^ (- e))
    as (m & e & -> & He & Hm).
  { destruct (canon_int r Hr Hs) as (m2 & E2 & Hm2). rewrite (float64_canon r), E2 by done.
    change (float64 1) with (S754_finite false 4503599627370496 (-52)). unfold fdiv, SFdiv.
    pose proof (mantissa_bounds r Hr Hs) as Hb. rewrite <- Hm2 in Hb.
    rewrite div_core by (done || lia). cbn [xorb]. set (L := Z.log2 r) in *.
    replace (-52 - (L - 52) - 53) with (- L - 53) by lia.
    change (4503599627370496 * 2 ^ 53) with (2 ^ 105).
    destruct (decide (Z.pos m2 = 2 ^ 52)) as [E52|Hne].
    - rewrite E52. change (2 ^ 105 / 2 ^ 52) with (1 * 2 ^ 53). change (2 ^ 105 mod 2 ^ 52) with 0.
      rewrite new_location_exact, round_aux_exact by (done || lia).
      exists 4503599627370496%positive, (- L - 52). split; [unfold canon; simpl; f_equal; lia|]. split; [lia|].
      change 4503599627370496 with (2 ^ 52). apply Z.pow_le_mono_r; lia.
    - assert (2 ^ 52 <= 2 ^ 105 / Z.pos m2 < 2 ^ 53) as Hq
        by (split; [apply Z.div_le_lower_bound | apply Z.div_lt_upper_bound]; lia).
      destruct (round_aux_53 _ (- L - 53) (new_location (Z.pos m2) (2 ^ 105 mod Z.pos m2)) Hq ltac:(lia))
        as (m & e & -> & He & Hm).
      exists m, e. split; [done|]. split; [lia|].
      assert (Z.pos m * 2 ^ (e - (- L - 53)) <= 2 ^ 53) as Hm' by lia.
      assert (2 ^ 53 <= 2 ^ (53 + L)) by (apply Z.pow_le_mono_r; lia).
      replace (53 + L) with (- e + (e - (- L - 53))) in * by lia.
      rewrite Z.pow_add_r in * by lia. pose proof (Z.pow_pos_nonneg 2 (e - (- L - 53))). nia. }
  unfold fceil. rewrite (proj2 (Z.leb_gt _ _)) by lia.
  replace (- (- Z.pos m / 2 ^ (- e))) with 1; [done|].
  pose proof (Z.pow_pos_nonneg 2 (- e)).
  assert (- Z.pos m / 2 ^ (- e) = -1) as ->; [|done].
  symmetry. apply (Z.div_unique_pos _ _ _ (2 ^ (- e) - Z.pos m)); lia.
Qed.

Lemma to_int64_int c n : safe_int n -> to_int64 c (float64 n) = n.
Proof.
  intros Hn. destruct (decide (n = 0)) as [->|Hn0]; [done|].
  assert (0 < n) as Hp by (unfold safe_int in *; lia). pose proof (safe_log2 n Hp Hn).
  destruct (canon_int n Hp Hn) as (m & E & Hm). rewrite float64_canon, E by done. unfold to_int64, ftrunc.
  assert ((if 0 <=? Z.log2 n - 52 then Z.pos m * 2 ^ (Z.log2 n - 52) else Z.pos m / 2 ^ (- (Z.log2 n - 52))) = n) as ->.
  { rewrite Hm. destruct (Z.leb_spec 0 (Z.log2 n - 52)).
    - replace (Z.log2 n) with 52 by lia. simpl. lia.
    - replace (- (Z.log2 n - 52)) with (52 - Z.log2 n) by lia. apply Z.div_mul. apply Z.pow_nonzero; lia. }
  unfold safe_int in Hn. rewrite !(proj2 (Z.leb_le _ _)) by (unfold MinInt64, MaxInt64; lia). done.
Qed.
