(* ===== verification/RateLimit.v ===== *)
(** Rate limiting ([src/internal/ratelimit]): the process-local token buckets
    of [inmemory.go] and the bucket settings of [token_bucket.go].

    The tokens of a bucket are a [float64].  For a rate of whole tokens per
    second and clock readings a whole number of seconds apart the float
    arithmetic is exact, and the limiter is the integer token bucket
    [ibucket_allow]; the bound on the requests of a window follows. *)

From Stdlib Require Import SpecFloat.
From S2P Require Import Prelude GoTime Domain Keys GoText Hash Float64.

Record Bucket := mkBucket { RequestsPerMinute : Z; BurstSize : Z }.
Definition Enabled (b : Bucket) : bool := (0 <? RequestsPerMinute b) && (0 <? BurstSize b).

(** [RetryAfter] is a [time.Duration]. *)
Record Decision := mkDecision { Allowed : bool; RetryAfter : Z }.

(** What a caller sees of a limiter with state [L]. *)
Abbreviation Limiter L := (string -> string -> Bucket -> M L Decision).

Record memBucketState := mkBucketState { bs_tokens : spec_float; bs_capacity : spec_float; bs_lastTS : Z }.

(** [now.Sub(t)], which saturates, and [Duration.Seconds]. *)
Definition time_Sub (t u : Z) : Z := Z.max MinInt64 (Z.min MaxInt64 (t - u)).
Definition durationSeconds (d : Z) : spec_float :=
  fadd (float64 (Z.quot d second)) (fdiv (float64 (Z.rem d second)) (float64 second)).

Definition sha256Hex (s : string) : string := hexEncode (sha256 s).

(** The name of a bucket. *)
Definition bucketKey (scope subject : string) : string :=
  let scope := TrimSpace scope in
  let scope := if bool_decide (scope = "") then "default" else scope in
  let subject := TrimSpace subject in
  let subject := if bool_decide (subject = "") then "unknown" else subject in
  scope +:+ ":" +:+ sha256Hex subject.

Module InMemoryLimiter.

Abbreviation t := (gmap string memBucketState).

Definition bucketFor (now : Z) (key : string) (capacity : spec_float) : M t memBucketState := fun l =>
  match l !! key with
  | Some st => (Ok st, l)
  | None => let st := mkBucketState capacity capacity now in (Ok st, <[key := st]> l)
  end.

(** The critical section on one bucket. *)
Definition take_token (cvt_overflow : Z) (now : Z) (bucket : Bucket) (st : memBucketState)
  : Decision * memBucketState :=
  let ratePerSec := fdiv (float64 (RequestsPerMinute bucket)) (float64 60) in
  let capacity := float64 (BurstSize bucket) in
  let st :=
    if feq (bs_capacity st) capacity then st
    else mkBucketState (if flt capacity (bs_tokens st) then capacity else bs_tokens st) capacity (bs_lastTS st) in
  let elapsed := durationSeconds (time_Sub now (bs_lastTS st)) in
  let tokens :=
    if flt (float64 0) elapsed then fmin capacity (fadd (bs_tokens st) (fmul elapsed ratePerSec))
    else bs_tokens st in
  if fle (float64 1) tokens then
    (mkDecision true 0, mkBucketState (fsub tokens (float64 1)) (bs_capacity st) now)
  else
    let retryAfter :=
      if flt (float64 0) ratePerSec then
        let secs := fceil (fdiv (fsub (float64 1) tokens) ratePerSec) in
        let secs := if flt secs (float64 1) then float64 1 else secs in
        wrap64 (to_int64 cvt_overflow secs * second)
      else 60 * second in
    (mkDecision false retryAfter, mkBucketState tokens (bs_capacity st) now).

(** [created] is the clock when a missing bucket is made, [now] the reading of
    the refill. *)
Definition Allow (cvt_overflow : Z) (created now : Z) (scope subject : string) (bucket : Bucket) : M t Decision :=
  if negb (Enabled bucket) then mret (mkDecision true 0)
  else
    let key := bucketKey scope subject in
    let! st := bucketFor created key (float64 (BurstSize bucket)) in
    let '(dec, st') := take_token cvt_overflow now bucket st in
    mmod (insert key st') ;;! mret dec.

Definition idleThreshold : Z := 600 * second.

(** One sweep of the janitor. *)
Definition gcOnce (now : Z) (idle : Z) (l : t) : t :=
  filter (fun kv => ~ bs_lastTS (snd kv) < now - idle) l.
End InMemoryLimiter.

(** The life time of a bucket kept in Redis, in milliseconds. *)
Definition computeTTLMS (cvt_overflow : Z) (ratePerSec capacity : spec_float) : Z :=
  let minTTL := 30 * second in
  let maxTTL := 3600 * second in
  if fle ratePerSec (float64 0) || fle capacity (float64 0) then 120 * second / millisecond
  else
    let fillSeconds := fdiv capacity ratePerSec in
    let ttl := wrap64 (wrap64 (to_int64 cvt_overflow (fceil (fmul fillSeconds (float64 2))) * second) + 5 * second) in
    let ttl := if ttl <? minTTL then minTTL else ttl in
    let ttl := if maxTTL <? ttl then maxTTL else ttl in
    Z.quot ttl millisecond.

(** Whatever the rate and the capacity are, infinities and overflow included,
    the life time lies between half a minute and an hour. *)
Lemma computeTTLMS_range cvt_overflow ratePerSec capacity :
  30000 <= computeTTLMS cvt_overflow ratePerSec capacity <= 3600000.
Proof.
  unfold computeTTLMS. destruct (_ || _); [by vm_compute|].
  set (ttl := wrap64 (_ + _)). clearbody ttl. unfold second, millisecond.
  destruct (Z.ltb_spec ttl (30 * 1000000000)); [by vm_compute|].
  destruct (Z.ltb_spec (3600 * 1000000000) ttl); [by vm_compute|].
  rewrite Z.quot_div_nonneg by lia. split; [apply Z.div_le_lower_bound | apply Z.div_le_upper_bound]; lia.
Qed.

(** ** The integer token bucket *)

(** A bucket of [B] tokens refilled with [r] tokens a second, the clock in
    seconds: its level and the time of its last use. *)
Definition ibucket_refill (r B now : Z) (st : Z * Z) : Z :=
  if snd st <? now then Z.min B (fst st + (now - snd st) * r) else fst st.

Definition ibucket_allow (r B now : Z) (st : Z * Z) : bool * (Z * Z) :=
  let n := ibucket_refill r B now st in
  if 1 <=? n then (true, (n - 1, now)) else (false, (n, now)).

(** The clock reading [s] whole seconds after [epoch]. *)
Definition tick_at (epoch s : Z) : Z := epoch + s * second.

(** The float state that stands for an integer state. *)
Definition bucket_repr (epoch B : Z) (st : Z * Z) : memBucketState :=
  mkBucketState (float64 (fst st)) (float64 B) (tick_at epoch (snd st)).

(** The settings the exactness needs: [r] tokens a second, bursts of [B], and
    [horizon] seconds, over which the refill stays below 2^53. *)
Definition settings_ok (r B horizon : Z) : Prop :=
  1 <= r /\ 1 <= B /\ 0 <= horizon <= max_duration_seconds /\ B + (horizon + 60) * r < 2 ^ 53.

Section exact.
Variables (cvt_overflow epoch r B horizon : Z).
Hypothesis ok : settings_ok r B horizon.

Lemma durationSeconds_int d : - max_duration_seconds <= d <= max_duration_seconds ->
  flt (float64 0) (durationSeconds (d * second)) = (0 <? d) /\
  (0 <= d -> durationSeconds (d * second) = float64 d).
Proof.
  intros Hd. unfold durationSeconds. rewrite Z.quot_mul, Z.rem_mul by done.
  change (fdiv (float64 0) (float64 second)) with (float64 0).
  assert (0 <= d -> fadd (float64 d) (float64 0) = float64 d) as He.
  { intros H0. rewrite fadd_int; [f_equal; lia| | |]; unfold safe_int, max_duration_seconds in *; lia. }
  split; [|exact He]. destruct (Z.ltb_spec 0 d).
  - rewrite He, flt_int by (unfold safe_int, max_duration_seconds in *; lia). by apply Z.ltb_lt.
  - destruct (decide (d = 0)) as [->|Hne]; [done|].
    (* a negative number of seconds *)
    destruct d as [|p|p]; [lia | lia|]. unfold float64 at 2, binary_normalize, binary_round.
    destruct (shl_align p 0 _) as [m e]. unfold binary_round_aux.
    destruct (shr_fexp 53 1024 (Z.pos m) e loc_Exact) as [mrs e1].
    destruct (shr_fexp 53 1024 _ e1 loc_Exact) as [mrs2 e2].
    destruct (shr_m mrs2); [done | | done]. by destruct (_ <=? _).
Qed.

Definition perSecond : Bucket := mkBucket (60 * r) B.

Lemma refill_range now st : 0 <= fst st <= B -> 0 <= ibucket_refill r B now st <= B.
Proof. intros Hst. destruct ok as (? & ? & _). unfold ibucket_refill. destruct (Z.ltb_spec (snd st) now); nia. Qed.

(** The critical section is a step of the integer bucket; a refusal asks for
    one second. *)
Lemma take_token_exact now st : 0 <= fst st <= B -> 0 <= now - snd st <= horizon ->
  InMemoryLimiter.take_token cvt_overflow (tick_at epoch now) perSecond (bucket_repr epoch B st) =
  (if fst (ibucket_allow r B now st) then mkDecision true 0 else mkDecision false second,
   bucket_repr epoch B (snd (ibucket_allow r B now st))).
Proof.
  destruct ok as (Hr & HB & Hh & Hbound). intros Hn Hd. pose proof (refill_range now st Hn) as Hf.
  destruct st as [n last]. cbn [fst snd] in *.
  assert (safe_int n /\ safe_int B /\ safe_int r /\ safe_int (now - last) /\ safe_int ((now - last) * r)
    /\ safe_int (n + (now - last) * r) /\ safe_int (60 * r)) as (Sn & SB & Sr & Sd & Sm & Sa & S60)
    by (unfold safe_int; nia).
  unfold InMemoryLimiter.take_token, perSecond, bucket_repr. cbn [RequestsPerMinute BurstSize bs_tokens bs_capacity bs_lastTS fst snd].
  rewrite fdiv_int, feq_int, Z.eqb_refl by (done || lia). cbn [bs_tokens bs_capacity bs_lastTS].
  replace (time_Sub (tick_at epoch now) (tick_at epoch last)) with ((now - last) * second)
    by (unfold time_Sub, tick_at, MinInt64, MaxInt64, second, max_duration_seconds in *; lia).
  destruct (durationSeconds_int (now - last)) as [-> Hsec]; [unfold max_duration_seconds in *; lia|].
  rewrite Hsec by lia.
  assert ((if 0 <? now - last then fmin (float64 B) (fadd (float64 n) (fmul (float64 (now - last)) (float64 r)))
           else float64 n) = float64 (ibucket_refill r B now (n, last))) as ->.
  { unfold ibucket_refill. cbn [fst snd]. rewrite fmul_int, fadd_int, fmin_int by done.
    destruct (Z.ltb_spec 0 (now - last)), (Z.ltb_spec last now); (done || lia). }
  unfold ibucket_allow. set (n' := ibucket_refill r B now (n, last)) in *.
  assert (safe_int n') as Sn' by (unfold safe_int in *; lia).
  rewrite fle_int by done. destruct (Z.leb_spec 1 n'); cbn [fst snd].
  - by rewrite fsub_int by (done || lia).
  - rewrite flt_int by done. rewrite (proj2 (Z.ltb_lt 0 r)) by lia. replace n' with 0 by lia.
    change (fsub (float64 1) (float64 0)) with (float64 1). rewrite fceil_fdiv_one by (done || lia).
    change (flt (float64 1) (float64 1)) with false. cbv iota. by rewrite to_int64_int by done.
Qed.

(** A bucket that is absent counts as full, used at [now]. *)
Definition level (st : option (Z * Z)) (now : Z) : Z * Z := default (B, now) st.

(** The map of a limiter holds an integer bucket, or none, for the key. *)
Definition holds (key : string) (st : option (Z * Z)) (l : InMemoryLimiter.t) : Prop :=
  l !! key = (bucket_repr epoch B <$> st).

(** A request against a bucket of whole tokens. *)
Lemma Allow_bucket scope subject now st l :
  let key := bucketKey scope subject in
  holds key st l -> (forall n last, st = Some (n, last) -> 0 <= n <= B /\ 0 <= now - last <= horizon) ->
  exists l', InMemoryLimiter.Allow cvt_overflow (tick_at epoch now) (tick_at epoch now) scope subject perSecond l =
    (Ok (if fst (ibucket_allow r B now (level st now)) then mkDecision true 0 else mkDecision false second), l') /\
    holds key (Some (snd (ibucket_allow r B now (level st now)))) l' /\
    (forall k, k <> key -> l' !! k = l !! k).
Proof.
  intros key Hh Hst. destruct ok as (Hr & HB & Hhz & _).
  assert (0 <= fst (level st now) <= B /\ 0 <= now - snd (level st now) <= horizon) as [Hn Hd].
  { destruct st as [[n last]|]; simpl; [by apply Hst | lia]. }
  unfold InMemoryLimiter.Allow, Enabled, mbnd at 1. fold key.
  unfold perSecond at 1 2. cbn [RequestsPerMinute BurstSize]. rewrite !(proj2 (Z.ltb_lt _ _)) by lia. cbn [andb negb].
  assert (InMemoryLimiter.bucketFor (tick_at epoch now) key (float64 B) l =
    (Ok (bucket_repr epoch B (level st now)),
     match st with Some _ => l | None => <[key := bucket_repr epoch B (level st now)]> l end)) as HbF.
  { unfold InMemoryLimiter.bucketFor. unfold holds in Hh. rewrite Hh. by destruct st. }
  unfold perSecond at 1. cbn [BurstSize]. rewrite HbF. rewrite take_token_exact by done.
  cbv beta iota. unfold mbnd, mmod, mret. eexists. split; [reflexivity|]. split.
  - apply (lookup_insert_eq (M := gmap string)).
  - intros k Hk. etransitivity; [by apply (lookup_insert_ne (M := gmap string))|].
    destruct st; [done | by apply (lookup_insert_ne (M := gmap string))].
Qed.

(** The process-local limiter is an integer token bucket.  For a rate of
    [r] whole tokens a second and clock readings whole seconds apart, a request
    is allowed exactly when the integer bucket allows it; the state afterwards
    is the integer state; other buckets are untouched; a refusal asks the client
    to wait one second.  The bound on the horizon keeps the refill below 2^53. *)
Theorem limiter_refines_bucket scope subject now st l :
  let key := bucketKey scope subject in
  holds key st l -> (forall n last, st = Some (n, last) -> 0 <= n <= B /\ 0 <= now - last <= horizon) ->
  exists l', InMemoryLimiter.Allow cvt_overflow (tick_at epoch now) (tick_at epoch now) scope subject perSecond l =
    (Ok (if fst (ibucket_allow r B now (level st now)) then mkDecision true 0 else mkDecision false second), l') /\
    holds key (Some (snd (ibucket_allow r B now (level st now)))) l' /\
    (forall k, k <> key -> l' !! k = l !! k).
Proof. apply Allow_bucket. Qed.

(** ** Windows *)

(** What happens to a limiter: requests, and sweeps of the janitor, with their
    clock readings in seconds. *)
Inductive limiter_event :=
  | Request (s : Z) (scope subject : string) (bucket : Bucket)
  | Sweep (s : Z).

Definition event_time (e : limiter_event) : Z := match e with Request s _ _ _ | Sweep s => s end.
Definition event_key (e : limiter_event) : option string :=
  match e with Request _ scope subject _ => Some (bucketKey scope subject) | Sweep _ => None end.

(** Whether an event is an allowed request on the bucket [key], and the state after it. *)
Definition event_step (key : string) (e : limiter_event) (l : InMemoryLimiter.t) : Z * InMemoryLimiter.t :=
  match e with
  | Request s scope subject bucket =>
      match InMemoryLimiter.Allow cvt_overflow (tick_at epoch s) (tick_at epoch s) scope subject bucket l with
      | (Ok dec, l') => (if bool_decide (bucketKey scope subject = key) && Allowed dec then 1 else 0, l')
      | (Err _, l') => (0, l')
      end
  | Sweep s => (0, InMemoryLimiter.gcOnce (tick_at epoch s) InMemoryLimiter.idleThreshold l)
  end.

Fixpoint run_events (key : string) (evs : list limiter_event) (l : InMemoryLimiter.t) : Z * InMemoryLimiter.t :=
  match evs with
  | [] => (0, l)
  | e :: evs' =>
      let '(c, l1) := event_step key e l in
      let '(c', l2) := run_events key evs' l1 in (c + c', l2)
  end.

(** The events are in order, from [cur] to [last]. *)
Fixpoint in_window (cur last : Z) (evs : list limiter_event) : Prop :=
  match evs with
  | [] => True
  | e :: evs' => cur <= event_time e <= last /\ in_window (event_time e) last evs'
  end.

Definition uses_settings (key : string) (e : limiter_event) : Prop :=
  match e with Request _ scope subject bucket => bucketKey scope subject = key -> bucket = perSecond | Sweep _ => True end.

Lemma Allow_other created now scope subject bucket key l :
  bucketKey scope subject <> key ->
  snd (InMemoryLimiter.Allow cvt_overflow created now scope subject bucket l) !! key = l !! key.
Proof.
  intros Hk. unfold InMemoryLimiter.Allow. destruct (negb (Enabled bucket)); [done|].
  unfold mbnd, InMemoryLimiter.bucketFor, mmod, mret. set (k := bucketKey scope subject) in *.
  destruct (l !! k) as [b|]; destruct (InMemoryLimiter.take_token _ _ _ _) as [d st']; cbn [fst snd].
  - by apply (lookup_insert_ne (M := gmap string)).
  - etransitivity; [by apply (lookup_insert_ne (M := gmap string))|]. by apply (lookup_insert_ne (M := gmap string)).
Qed.

Lemma gcOnce_lookup now idle (l : InMemoryLimiter.t) k :
  InMemoryLimiter.gcOnce now idle l !! k =
  match l !! k with Some b => if bs_lastTS b <? now - idle then None else Some b | None => None end.
Proof.
  unfold InMemoryLimiter.gcOnce. destruct (l !! k) as [b|] eqn:E.
  - destruct (Z.ltb_spec (bs_lastTS b) (now - idle)).
    + apply map_lookup_filter_None. right. intros b' Hb'. rewrite E in Hb'. injection Hb' as <-. simpl. lia.
    + apply map_lookup_filter_Some. split; [done|]. simpl. lia.
  - apply map_lookup_filter_None. by left.
Qed.

Section window.
Variables (key : string) (from to_ : Z).
Hypothesis window : from <= to_ <= from + 600 /\ 600 <= horizon.

(** After [c] allowed requests, at the time [cur]. *)
Definition budget (c cur : Z) (l : InMemoryLimiter.t) : Prop :=
  exists st, holds key st l /\ from <= cur <= to_ /\ 0 <= c /\
    match st with
    | None => c = 0
    | Some (n, last) => 0 <= n <= B /\ last <= cur /\ to_ - last <= horizon /\
        (c = 0 \/ (from <= last /\ c + n <= B + (last - from) * r))
    end.

Lemma budget_step c cur e l : budget c cur l -> uses_settings key e -> cur <= event_time e <= to_ ->
  budget (c + fst (event_step key e l)) (event_time e) (snd (event_step key e l)).
Proof.
  intros (st & Hh & Hcur & Hc & Hst) Hu Ht. destruct ok as (Hr & HB & Hhz & _).
  destruct e as [s scope subject bucket|s]; cbn [event_step event_time] in *.
  - destruct (decide (bucketKey scope subject = key)) as [Ek|Hne].
    + rewrite Hu by done. rewrite <- Ek in Hh.
      destruct (Allow_bucket scope subject s st l Hh) as (l' & -> & Hh' & _).
      { intros n last ->. split; lia. }
      rewrite bool_decide_true by done. set (lv := level st s) in *. rewrite Ek in Hh'. cbn [fst snd andb].
      exists (Some (snd (ibucket_allow r B s lv))). split; [exact Hh'|].
      assert (0 <= fst lv <= B) as Hlv by (unfold lv; destruct st as [[n last]|]; simpl; lia).
      pose proof (refill_range s lv Hlv) as Hrf. unfold ibucket_allow in *.
      set (n' := ibucket_refill r B s lv) in *.
      assert (c = 0 \/ c + n' <= B + (s - from) * r) as Hn'.
      { destruct st as [[n last]|]; [|left; lia]. destruct Hst as (_ & Hlc & _ & [->|[Hl Hb]]); [by left|right].
        unfold n', ibucket_refill, lv. simpl. replace ((s - from) * r) with ((s - last) * r + (last - from) * r) by lia.
        destruct (Z.ltb_spec last s); [lia|]. assert (0 <= (s - last) * r) by nia. lia. }
      destruct (Z.leb_spec 1 n'); cbn [fst snd Allowed]; (split; [lia|]); (split; [lia|]); (split; [lia|]);
        (split; [lia|]); (split; [lia|]).
      * right. destruct Hn' as [->|Hn']; nia.
      * destruct Hn' as [->|Hn']; [left; lia | right; nia].
    + pose proof (Allow_other (tick_at epoch s) (tick_at epoch s) scope subject bucket key l Hne) as Ho.
      destruct (InMemoryLimiter.Allow cvt_overflow _ _ scope subject bucket l) as [[d|e] l']; cbn [fst snd] in *.
      1: rewrite bool_decide_false by done; cbn [andb fst snd].
      1,2: rewrite Z.add_0_r; exists st; (split; [unfold holds in *; by rewrite Ho|]); (split; [lia|]); (split; [done|]);
        destruct st as [[n last]|]; [split_and!; try lia; apply Hst | done].
  - cbn [fst snd]. rewrite Z.add_0_r. pose proof (gcOnce_lookup (tick_at epoch s) InMemoryLimiter.idleThreshold l key) as Hg.
    unfold holds in Hh. rewrite Hh in Hg.
    destruct st as [[n last]|]; cbn [fmap option_fmap option_map] in Hg.
    + unfold bucket_repr in Hg. cbn [bs_lastTS fst snd] in Hg.
      destruct (Z.ltb_spec (tick_at epoch last) (tick_at epoch s - InMemoryLimiter.idleThreshold)) as [Hlt|Hge].
      * exists None. split; [exact Hg|]. split_and!; try lia.
        destruct Hst as (_ & _ & _ & [->|[Hl _]]); [done|].
        exfalso. unfold tick_at, InMemoryLimiter.idleThreshold, second in Hlt. lia.
      * exists (Some (n, last)). split; [exact Hg|]. split_and!; try lia; apply Hst.
    + exists None. split; [exact Hg|]. by split_and!; try lia.
Qed.

Lemma budget_run evs c cur l : budget c cur l -> Forall (uses_settings key) evs -> in_window cur to_ evs ->
  c + fst (run_events key evs l) <= B + (to_ - from) * r.
Proof.
  revert c cur l. induction evs as [|e evs IH]; intros c cur l Hb Hu Hw; cbn [run_events fst].
  - destruct ok as (Hr & HB & _). destruct Hb as (st & _ & Hcur & Hc & Hst).
    destruct st as [[n last]|]; [destruct Hst as (? & ? & ? & [->|[? ?]])|]; nia.
  - apply Forall_cons in Hu as [He Hu]. destruct Hw as [Ht Hw].
    pose proof (budget_step c cur e l Hb He Ht) as Hb'.
    destruct (event_step key e l) as [c1 l1]. cbn [fst snd] in Hb'.
    specialize (IH _ _ _ Hb' Hu Hw). destruct (run_events key evs l1) as [c2 l2]. cbn [fst] in *. lia.
Qed.
End window.

Lemma run_events_app key evs1 evs2 l :
  run_events key (evs1 ++ evs2) l =
  let '(c1, l1) := run_events key evs1 l in let '(c2, l2) := run_events key evs2 l1 in (c1 + c2, l2).
Proof.
  revert l. induction evs1 as [|e evs1 IH]; intros l; cbn [run_events app].
  - by destruct (run_events key evs2 l).
  - destruct (event_step key e l) as [c l1]. rewrite IH.
    destruct (run_events key evs1 l1) as [c1 l2], (run_events key evs2 l2) as [c2 l3]. f_equal. lia.
Qed.

(** A bucket with [n] tokens lets [n] requests through at once. *)
Lemma burst k s scope subject st l n :
  let key := bucketKey scope subject in
  holds key st l -> level st s = (n, s) -> Z.of_nat k <= n <= B ->
  exists l', run_events key (replicate k (Request s scope subject perSecond)) l = (Z.of_nat k, l') /\
    holds key (match k with O => st | S _ => Some (n - Z.of_nat k, s) end) l'.
Proof.
  cbv zeta. destruct ok as (_ & _ & Hhz & _). revert st l n. induction k as [|k IH]; intros st l n Hh Hlv Hk.
  { exists l. done. }
  cbn [replicate run_events event_step].
  destruct (Allow_bucket scope subject s st l Hh) as (l1 & -> & Hh1 & _).
  { intros m last ->. injection Hlv as -> ->. lia. }
  assert (ibucket_allow r B s (level st s) = (true, (n - 1, s))) as E.
  { rewrite Hlv. unfold ibucket_allow, ibucket_refill. cbn [fst snd]. rewrite Z.ltb_irrefl.
    by rewrite (proj2 (Z.leb_le 1 n)) by lia. }
  rewrite E in *. cbn [fst snd Allowed] in *. rewrite bool_decide_true by done. cbn [andb].
  destruct (IH (Some (n - 1, s)) l1 (n - 1)) as (l2 & -> & Hh2); [done | done | lia|].
  exists l2. split; [f_equal; lia|]. destruct k; [exact Hh2|].
  by replace (n - Z.of_nat (S (S k))) with (n - 1 - Z.of_nat (S k)) by lia.
Qed.
End exact.



Lemma limiter_refines_bucket_witness :
  exists l', InMemoryLimiter.Allow 0 (tick_at 0 7) (tick_at 0 7) "worker" "tok" (mkBucket 120 5) ∅ = (Ok (mkDecision true 0), l') /\
    holds 0 5 (bucketKey "worker" "tok") (Some (4, 7)) l'.
Proof.
  destruct (limiter_refines_bucket 0 0 2 5 3600 ltac:(unfold settings_ok, max_duration_seconds; lia) "worker" "tok" 7 None ∅)
    as (l' & H1 & H2 & _); [done | done |]. exists l'. split; [exact H1 | exact H2].
Defined.

(** The janitor refills buckets early.  It drops a bucket ten minutes after
    its last use, and a dropped bucket starts full: a subject that spends its
    whole burst, waits for the sweep and spends it again has [2 B] requests
    allowed in 601 seconds, although its bucket would hold only what 601 seconds
    refill. *)
Theorem limiter_gc_refills cvt_overflow epoch r B horizon s scope subject :
  settings_ok r B horizon ->
  let burst_at t := replicate (Z.to_nat B) (Request t scope subject (mkBucket (60 * r) B)) in
  fst (run_events cvt_overflow epoch (bucketKey scope subject)
         (burst_at s ++ [Sweep (s + 601)] ++ burst_at (s + 601)) ∅) = 2 * B /\
  ibucket_refill r B (s + 601) (0, s) = Z.min B (601 * r).
Proof.
  intros Hok. cbv zeta. pose proof Hok as (Hr & HB & Hhz & _). set (key := bucketKey scope subject). split.
  - destruct (burst cvt_overflow epoch r B horizon Hok (Z.to_nat B) s scope subject None ∅ B) as (l1 & E1 & H1);
      [done | done | lia|]. unfold perSecond in E1. fold key in E1, H1.
    rewrite run_events_app, E1. cbn [run_events event_step app].
    assert (holds epoch B key None (InMemoryLimiter.gcOnce (tick_at epoch (s + 601)) InMemoryLimiter.idleThreshold l1)) as H2.
    { unfold holds. rewrite gcOnce_lookup. unfold holds in H1. rewrite H1.
      destruct (Z.to_nat B) eqn:EB; [lia|]. cbn [fmap option_fmap option_map]. unfold bucket_repr. cbn [bs_lastTS snd].
      rewrite (proj2 (Z.ltb_lt _ _)); [done|]. unfold tick_at, InMemoryLimiter.idleThreshold, second. lia. }
    destruct (burst cvt_overflow epoch r B horizon Hok (Z.to_nat B) (s + 601) scope subject None _ B H2) as (l3 & E3 & _);
      [done | lia|]. unfold perSecond in E3. fold key in E3. rewrite E3. cbn [fst]. lia.
  - unfold ibucket_refill. cbn [fst snd]. rewrite (proj2 (Z.ltb_lt _ _)) by lia. f_equal. lia.
Qed.

Lemma limiter_gc_refills_witness :
  fst (run_events 0 0 (bucketKey "worker" "tok")
    (replicate 1000 (Request 0 "worker" "tok" (mkBucket 60 1000)) ++ [Sweep 601] ++
     replicate 1000 (Request 601 "worker" "tok" (mkBucket 60 1000))) ∅) = 2000 /\
  ibucket_refill 1 1000 601 (0, 0) = 601.
Proof.
  apply (limiter_gc_refills 0 0 1 1000 3600 0 "worker" "tok"). unfold settings_ok, max_duration_seconds. lia.
Defined.
