(* ===== verification/Ring.v ===== *)
(** The consistent-hash ring of the cluster layer
    ([src/internal/cluster/ring.go]). *)

From S2P Require Import Prelude Keys Hash.

Record Node := mkClusterNode { n_ID : string; n_GRPCAddr : string }.

#[export] Instance Node_eq_dec : EqDecision Node.
Proof. solve_decision. Defined.

(** The digits of a positive number, appended to what follows them. *)
Fixpoint digits (fuel : nat) (n : Z) (tail : string) : string :=
  match fuel with
  | O => tail
  | S f => if n <=? 0 then tail else digits f (Z.quot n 10) (String (byte (48 + Z.rem n 10)) tail)
  end.

Definition strconvAppendInt (prefix : string) (n : Z) : string :=
  if n =? 0 then prefix +:+ "0"
  else if n <? 0 then prefix +:+ String "-" (digits 20 (- n) "")
  else prefix +:+ digits 20 n "".

(** The id is copied into an array of 64 bytes and ['#'] stored after it, which
    panics when the id fills the array. *)
Definition vhash (nodeID : string) (v : Z) : res Z :=
  if (64 <=? String.length nodeID)%nat then Err (Panic "index out of range [64] with length 64")
  else Ok (sha256_u64 (strconvAppendInt (nodeID +:+ "#") v)).

Definition keyHash (key : string) : Z := sha256_u64 key.

Definition vnodes : nat := 256.

Record Ring := mkRing {
  rg_nodes : list Node;
  rg_byID : gmap string Node;
  rg_vhashes : list Z;
  rg_vowner : gmap Z string
}.

Definition node_le (a b : Node) : Prop := sle (n_ID a) (n_ID b).

#[export] Instance node_le_dec a b : Decision (node_le a b).
Proof. unfold node_le. apply _. Defined.

(** The positions of one node. *)
Fixpoint vhashes_from (id : string) (v : Z) (count : nat) : res (list (Z * string)) :=
  match count with
  | O => Ok []
  | S c => match vhash id v with
           | Err e => Err e
           | Ok h => match vhashes_from id (v + 1) c with
                     | Ok l => Ok ((h, id) :: l)
                     | Err e => Err e
                     end
           end
  end.

Fixpoint positions (nodes : list Node) : res (list (Z * string)) :=
  match nodes with
  | [] => Ok []
  | n :: nodes' => match vhashes_from (n_ID n) 0 vnodes with
                   | Err e => Err e
                   | Ok l => match positions nodes' with Ok l' => Ok (l ++ l') | Err e => Err e end
                   end
  end.

(** A later write of a map key replaces an earlier one. *)
Definition write_all {K V} `{Countable K} (l : list (K * V)) : gmap K V :=
  fold_left (fun m kv => <[kv.1 := kv.2]> m) l ∅.

Definition NewRing (nodes : list Node) : res Ring :=
  match nodes with
  | [] => Err (Panic "cluster.NewRing: nodes must not be empty")
  | _ =>
      let sorted := merge_sort node_le nodes in
      match positions sorted with
      | Err e => Err e
      | Ok ps => Ok (mkRing sorted (write_all (map (fun n => (n_ID n, n)) sorted))
                       (merge_sort Z.le (map fst ps)) (write_all ps))
      end
  end.

(** [sort.Search]: bisection for the first index at which [f] holds. *)
Fixpoint search (fuel : nat) (f : nat -> bool) (i j : nat) : nat :=
  match fuel with
  | O => i
  | S fu => if (j <=? i)%nat then i
            else let h := ((i + j) / 2)%nat in
                 if f h then search fu f i h else search fu f (S h) j
  end.

Definition zero_node : Node := mkClusterNode "" "".

Section ring.
Variable r : Ring.

Definition Owner (key : string) : Node :=
  let h := keyHash key in
  let n := length (rg_vhashes r) in
  let idx := search n (fun i => h <=? nth i (rg_vhashes r) 0) 0 n in
  let idx := if (idx =? n)%nat then 0%nat else idx in
  default zero_node (rg_byID r !! default "" (rg_vowner r !! nth idx (rg_vhashes r) 0)).

Definition All : list Node := rg_nodes r.
Definition Node_ (id : string) : option Node := rg_byID r !! id.
Definition Size : nat := length (rg_nodes r).
End ring.

(** ** The local node's view *)

Record LocalRing := mkLocalRing { lr_Ring : Ring; lr_selfID : string }.

Definition NewLocalRing (ring : Ring) (selfID : string) : res LocalRing :=
  match Node_ ring selfID with
  | None => Err (Panic ("cluster.NewLocalRing: selfID " +:+ selfID +:+ " not present in ring"))
  | Some _ => Ok (mkLocalRing ring selfID)
  end.

Definition IsLocal (l : LocalRing) (key : string) : bool :=
  bool_decide (n_ID (Owner (lr_Ring l) key) = lr_selfID l).

Definition Peers (l : LocalRing) : list Node :=
  List.filter (fun n => negb (bool_decide (n_ID n = lr_selfID l))) (All (lr_Ring l)).

Definition maxTries : nat := 64.

(** [genID k] is what the [k]-th call of the generator returns. *)
Fixpoint localID (tries : nat) (l : LocalRing) (genID : nat -> string) (k : nat) : string :=
  match tries with
  | O => genID k
  | S t => if IsLocal l (genID k) then genID k else localID t l genID (S k)
  end.

Definition GenerateLocalID (l : LocalRing) (genID : nat -> string) : string := localID maxTries l genID 0.

(** ** The bisection finds the first position *)

Lemma search_spec f n fuel : forall i j,
  (i <= j <= n)%nat -> (j - i <= fuel)%nat ->
  (forall a b, (a <= b < n)%nat -> f a = true -> f b = true) ->
  (forall a, (a < i)%nat -> f a = false) -> (forall a, (j <= a < n)%nat -> f a = true) ->
  let k := search fuel f i j in
  (k <= n)%nat /\ (forall a, (a < k)%nat -> f a = false) /\ (forall a, (k <= a < n)%nat -> f a = true).
Proof.
  induction fuel as [|fu IH]; intros i j Hij Hf Hm Hlo Hhi; cbn [search].
  - assert (i = j) as -> by lia. split_and!; [lia | done | done].
  - destruct (Nat.leb_spec j i); [assert (i = j) as -> by lia; split_and!; [lia | done | done]|].
    assert (i <= (i + j) / 2 < j)%nat as Hh.
    { split; [apply Nat.div_le_lower_bound; lia | apply Nat.Div0.div_lt_upper_bound; lia]. }
    destruct (f ((i + j) / 2)%nat) eqn:E; apply IH; try done; try lia.
    + intros a Ha. eapply Hm; [|exact E]. lia.
    + intros a Ha. destruct (f a) eqn:Ea; [|done]. assert (f ((i + j) / 2)%nat = true) as Et; [|congruence].
      eapply Hm; [|exact Ea]. lia.
Qed.

(** [p] is the position on the ring that a hash [h] goes to: the first from [h]
    on, or the first of all when there is none. *)
Definition successor (V : list Z) (h p : Z) : Prop :=
  p ∈ V /\ ((h <= p /\ forall q, q ∈ V -> h <= q -> p <= q) \/
            ((forall q, q ∈ V -> q < h) /\ forall q, q ∈ V -> p <= q)).

Lemma successor_unique V h p p' : successor V h p -> successor V h p' -> p = p'.
Proof.
  intros (Hp & Hc) (Hp' & Hc'). destruct Hc as [[H1 H2]|[H1 H2]], Hc' as [[H1' H2']|[H1' H2']].
  - pose proof (H2 p' Hp' H1'). pose proof (H2' p Hp H1). lia.
  - pose proof (H1' p Hp). lia.
  - pose proof (H1 p' Hp'). lia.
  - pose proof (H2 p' Hp'). pose proof (H2' p Hp). lia.
Qed.

Lemma sorted_nth (V : list Z) a b : StronglySorted Z.le V -> (a <= b < length V)%nat -> nth a V 0 <= nth b V 0.
Proof.
  intros Hs. revert a b. induction Hs as [|x V Hs IH Hx]; intros a b Hab; [cbn in Hab; lia|].
  destruct a as [|a], b as [|b]; cbn in *; try lia; [|apply IH; lia].
  rewrite Forall_forall in Hx. apply Hx. apply list_elem_of_In, nth_In. lia.
Qed.

Lemma search_successor V h : StronglySorted Z.le V -> V <> [] ->
  let n := length V in
  let idx := search n (fun i => h <=? nth i V 0) 0 n in
  successor V h (nth (if (idx =? n)%nat then 0%nat else idx) V 0).
Proof.
  intros Hs Hne. cbv zeta. set (n := length V). set (f := fun i => h <=? nth i V 0).
  destruct (search_spec f n n 0 n) as (Hk & Hlo & Hhi); try lia.
  { intros a b Hab Ha. apply Z.leb_le. apply Z.leb_le in Ha. pose proof (sorted_nth V a b Hs Hab). lia. }
  set (k := search n f 0 n) in *. assert (n <> 0)%nat as Hn by (destruct V; [done | cbn; lia]).
  assert (forall q, q ∈ V -> exists a, (a < n)%nat /\ nth a V 0 = q) as Hin.
  { intros q Hq. apply list_elem_of_In in Hq. by apply In_nth. }
  destruct (Nat.eqb_spec k n) as [Ek|Ek].
  - split; [apply list_elem_of_In, nth_In; unfold n in *; lia|]. right. split.
    + intros q (a & Ha & <-)%Hin. specialize (Hlo a ltac:(lia)). by apply Z.leb_gt in Hlo.
    + intros q (a & Ha & <-)%Hin. apply sorted_nth; [done | unfold n in *; lia].
  - split; [apply list_elem_of_In, nth_In; unfold n in *; lia|]. left. split.
    + apply Z.leb_le. apply (Hhi k). lia.
    + intros q (a & Ha & <-)%Hin Hq. destruct (Nat.lt_ge_cases a k) as [Hlt|Hge].
      * apply Hlo in Hlt. apply Z.leb_gt in Hlt. lia.
      * apply sorted_nth; [done | unfold n in *; lia].
Qed.

(** ** Positions and their owners *)

Fixpoint lastval {K V} `{EqDecision K} (k : K) (l : list (K * V)) : option V :=
  match l with
  | [] => None
  | (k', v) :: l' => match lastval k l' with Some w => Some w | None => if decide (k' = k) then Some v else None end
  end.

Lemma lastval_app {K V} `{EqDecision K} (k : K) (l1 l2 : list (K * V)) :
  lastval k (l1 ++ l2) = match lastval k l2 with Some w => Some w | None => lastval k l1 end.
Proof.
  induction l1 as [|[k' v] l1 IH]; cbn; [by destruct (lastval k l2)|]. rewrite IH. by destruct (lastval k l2).
Qed.

Lemma lastval_in {K V} `{EqDecision K} (k : K) (l : list (K * V)) v : lastval k l = Some v -> (k, v) ∈ l.
Proof.
  induction l as [|[k' w] l IH]; cbn; [done|]. destruct (lastval k l) as [x|]; [intros [= ->]; right; auto|].
  destruct (decide (k' = k)) as [->|]; [|done]. intros [= ->]. constructor.
Qed.

Lemma lastval_some {K V} `{EqDecision K} (k : K) (l : list (K * V)) : k ∈ map fst l -> is_Some (lastval k l).
Proof.
  intros Hk. induction l as [|[k' w] l IH]; [by apply elem_of_nil in Hk|]. cbn in *.
  destruct (lastval k l) as [x|]; [by eexists|]. apply elem_of_cons in Hk as [->|Hk]; [by rewrite decide_True by done|].
  by destruct (IH Hk).
Qed.

Lemma write_all_lookup {K V} `{Countable K} (l : list (K * V)) k : write_all l !! k = lastval k l.
Proof.
  unfold write_all. assert (forall m : gmap K V, fold_left (fun m kv => <[kv.1 := kv.2]> m) l m !! k =
    match lastval k l with Some v => Some v | None => m !! k end) as Hg.
  { induction l as [|[k' v] l IH]; intros m; [done|]. cbn [fold_left fst snd lastval]. rewrite IH.
    destruct (lastval k l); [done|]. destruct (decide (k' = k)) as [->|]; [by rewrite lookup_insert_eq | by rewrite lookup_insert_ne]. }
  rewrite Hg, lookup_empty. by destruct (lastval k l).
Qed.

(** ** Sorting by id *)

Definition ids (nodes : list Node) : list string := map n_ID nodes.

#[local] Instance node_le_total : Total node_le.
Proof. intros a b. unfold node_le. apply (total sle). Qed.
#[local] Instance node_le_trans : Transitive node_le.
Proof. intros a b c. unfold node_le. apply sle_trans. Qed.

Lemma ids_inj nodes a b : NoDup (ids nodes) -> a ∈ nodes -> b ∈ nodes -> n_ID a = n_ID b -> a = b.
Proof.
  intros Hn Ha Hb E. induction nodes as [|c nodes IH]; [by apply elem_of_nil in Ha|].
  apply NoDup_cons in Hn as [Hc Hn].
  assert (forall x, x ∈ nodes -> n_ID x <> n_ID c) as Hx.
  { intros x Hx Heq. apply Hc. rewrite <- Heq. by apply list_elem_of_fmap_2. }
  apply elem_of_cons in Ha as [->|Ha], Hb as [->|Hb]; auto; [by apply Hx in Hb | by apply Hx in Ha].
Qed.

(** With distinct ids there is one sorted order. *)
Lemma sorted_unique l l' : NoDup (ids l) -> l ≡ₚ l' -> StronglySorted node_le l -> StronglySorted node_le l' -> l = l'.
Proof.
  revert l'. induction l as [|a l IH]; intros l' Hn Hp Hs Hs'.
  { by apply Permutation_nil_l in Hp. }
  destruct l' as [|b l']; [by apply Permutation_nil_r in Hp|].
  assert (a = b) as <-.
  { apply StronglySorted_inv in Hs as [_ Ha], Hs' as [_ Hb]. rewrite Forall_forall in Ha, Hb.
    assert (b ∈ a :: l) as Hba by (rewrite Hp; constructor). assert (a ∈ b :: l') as Hab by (rewrite <- Hp; constructor).
    apply elem_of_cons in Hba as [->|Hba]; [done|]. apply elem_of_cons in Hab as [->|Hab]; [done|].
    eapply (ids_inj (a :: l)); [done | constructor | by right|].
    apply (anti_symm sle); [apply (Ha b Hba) | apply (Hb a Hab)]. }
  f_equal. apply NoDup_cons in Hn as [_ Hn]. apply Permutation_cons_inv in Hp.
  apply StronglySorted_inv in Hs as [Hs _], Hs' as [Hs' _]. by apply IH.
Qed.

Lemma merge_sorted l : StronglySorted node_le (merge_sort node_le l).
Proof. apply StronglySorted_merge_sort; apply _. Qed.

Lemma ids_perm l l' : l ≡ₚ l' -> ids l ≡ₚ ids l'.
Proof. apply Permutation_map. Qed.

Lemma NewRing_sorted l l' : NoDup (ids l) -> l ≡ₚ l' -> merge_sort node_le l = merge_sort node_le l'.
Proof.
  intros Hn Hp. apply sorted_unique; [|by rewrite !merge_sort_Permutation | apply merge_sorted | apply merge_sorted].
  by rewrite (ids_perm _ l (merge_sort_Permutation node_le l)).
Qed.

(** A new node takes its place among the others. *)
Lemma sorted_insert n l : NoDup (ids (n :: l)) ->
  exists A B, merge_sort node_le (n :: l) = A ++ n :: B /\ merge_sort node_le l = A ++ B.
Proof.
  intros Hn. assert (n ∈ merge_sort node_le (n :: l)) as Hi by (rewrite merge_sort_Permutation; constructor).
  apply list_elem_of_split in Hi as (A & B & E). exists A, B. split; [done|].
  pose proof (merge_sort_Permutation node_le (n :: l)) as Hp. rewrite E in Hp.
  rewrite <- Permutation_middle in Hp. apply Permutation_cons_inv in Hp.
  pose proof (merge_sorted (n :: l)) as Hs. rewrite E in Hs.
  apply sorted_unique.
  - rewrite (ids_perm _ l (merge_sort_Permutation node_le l)). by apply NoDup_cons in Hn as [_ Hn].
  - by rewrite merge_sort_Permutation, Hp.
  - apply merge_sorted.
  - clear -Hs. induction A as [|a A IH]; cbn in *; [by apply StronglySorted_inv in Hs as [Hs _]|].
    apply StronglySorted_inv in Hs as [Hs Ha]. constructor; [by apply IH|].
    rewrite Forall_forall in *. intros x Hx. apply Ha. apply elem_of_app in Hx as [?|?]; apply elem_of_app; [by left | right; by right].
Qed.

(** ** The positions of a list of nodes *)

Lemma positions_app A B : positions (A ++ B) =
  match positions A with Ok a => match positions B with Ok b => Ok (a ++ b) | Err e => Err e end | Err e => Err e end.
Proof.
  induction A as [|n A IH]; cbn [positions app]; [by destruct (positions B)|]. destruct (vhashes_from _ _ _) as [l|]; [|done].
  rewrite IH. destruct (positions A) as [a|]; [|done]. destruct (positions B) as [b|]; [|done]. by rewrite app_assoc.
Qed.

Lemma vhashes_ids id v c l : vhashes_from id v c = Ok l -> Forall (fun hp => hp.2 = id) l /\ length l = c.
Proof.
  revert v l. induction c as [|c IH]; intros v l; cbn; [by intros [= <-]|].
  destruct (vhash id v) as [h|]; [|done]. destruct (vhashes_from id (v + 1) c) as [l'|] eqn:E; [|done]. intros [= <-].
  destruct (IH _ _ E). split; [by constructor | cbn; lia].
Qed.

Lemma positions_ids nodes ps hp : positions nodes = Ok ps -> hp ∈ ps -> hp.2 ∈ ids nodes.
Proof.
  revert ps. induction nodes as [|n nodes IH]; intros ps; cbn [positions]; [intros [= <-] Hh; by apply elem_of_nil in Hh|].
  destruct (vhashes_from _ _ _) as [l|] eqn:El; [|done]. destruct (positions nodes) as [l'|]; [|done]. intros [= <-].
  intros [Hh|Hh]%elem_of_app; [|right; by eapply IH]. destruct (vhashes_ids _ _ _ _ El) as [Hl _].
  rewrite Forall_forall in Hl. rewrite (Hl _ Hh). constructor.
Qed.

Lemma positions_nonempty nodes ps : positions nodes = Ok ps -> nodes <> [] -> ps <> [].
Proof.
  destruct nodes as [|n nodes]; [done|]. cbn [positions]. destruct (vhashes_from _ _ _) as [l|] eqn:El; [|done].
  destruct (positions nodes) as [l'|]; [|done]. intros [= <-] _. apply vhashes_ids in El as [_ El].
  destruct l; [done|]. done.
Qed.

(** ** Owners *)

(** The owner of a hash: the node of the successor position, of the last
    node, in the order of the ids, that has this position. *)
Definition owns (nodes : list Node) (ps : list (Z * string)) (h : Z) (n : Node) : Prop :=
  exists p id, successor (map fst ps) h p /\ lastval p ps = Some id /\ n_ID n = id /\ n ∈ nodes.

Lemma byID_lookup nodes n : NoDup (ids nodes) -> n ∈ nodes ->
  write_all (map (fun n => (n_ID n, n)) nodes) !! n_ID n = Some n.
Proof.
  intros Hn Hi. rewrite write_all_lookup.
  destruct (lastval_some (n_ID n) (map (fun n => (n_ID n, n)) nodes)) as [x Hx].
  { rewrite map_map. cbn. by apply list_elem_of_fmap_2. }
  rewrite Hx. f_equal. apply lastval_in in Hx. apply list_elem_of_fmap in Hx as (y & E & Hy). injection E as E ->.
  symmetry. by eapply ids_inj.
Qed.

Lemma successor_perm V V' h p : (forall q, q ∈ V <-> q ∈ V') -> successor V h p -> successor V' h p.
Proof.
  intros Hq (Hp & Hc). split; [by apply Hq|]. destruct Hc as [[H1 H2]|[H1 H2]]; [left | right]; (split; [|by intros q Hi%Hq; apply H2]).
  - done.
  - intros q Hi%Hq. by apply H1.
Qed.

(** The successor among more positions, when it is one of the fewer. *)
Lemma successor_sub V V' h p : (forall q, q ∈ V -> q ∈ V') -> p ∈ V -> successor V' h p -> successor V h p.
Proof.
  intros Hq Hp (_ & Hc). split; [done|]. destruct Hc as [[H1 H2]|[H1 H2]]; [left | right]; split; auto.
Qed.

Lemma Owner_owns nodes r key :
  NoDup (ids nodes) -> NewRing nodes = Ok r ->
  exists ps, positions (merge_sort node_le nodes) = Ok ps /\ owns (merge_sort node_le nodes) ps (keyHash key) (Owner r key).
Proof.
  intros Hn Hr. destruct nodes as [|n0 nodes']; [done|]. set (nodes := n0 :: nodes') in *. unfold NewRing in Hr. cbv iota in Hr.
  set (sorted := merge_sort node_le nodes) in *. change (merge_sort node_le (n0 :: nodes')) with sorted in Hr.
  destruct (positions sorted) as [ps|] eqn:Ep; [|done].
  injection Hr as <-. exists ps. split; [done|].
  assert (sorted <> []) as Hne.
  { intros E. pose proof (merge_sort_Permutation node_le nodes) as Hp. fold sorted in Hp. rewrite E in Hp. by apply Permutation_nil_l in Hp. }
  pose proof (positions_nonempty _ _ Ep Hne) as Hps.
  assert (NoDup (ids sorted)) as Hns by (unfold sorted; by rewrite (ids_perm _ nodes (merge_sort_Permutation node_le nodes))).
  set (V := merge_sort Z.le (map fst ps)). assert (forall q, q ∈ V <-> q ∈ map fst ps) as HV.
  { intros q. unfold V. by rewrite merge_sort_Permutation. }
  assert (V <> []) as HVne.
  { intros E. destruct ps as [|hp ps]; [done|]. assert (fst hp ∈ V) as Hin by (apply HV; constructor). rewrite E in Hin. by apply elem_of_nil in Hin. }
  pose proof (search_successor V (keyHash key) ltac:(apply StronglySorted_merge_sort; apply _) HVne) as Hsucc. cbv zeta in Hsucc.
  unfold Owner. cbn [rg_vhashes rg_byID rg_vowner]. fold V. cbv zeta. set (p := nth _ V 0) in *.
  assert (successor (map fst ps) (keyHash key) p) as Hs by (by eapply successor_perm).
  rewrite (write_all_lookup ps). destruct (lastval_some p ps (proj1 Hs)) as [id Hid]. rewrite Hid.
  pose proof (positions_ids _ _ _ Ep (lastval_in _ _ _ Hid)) as Hi. cbn in Hi.
  apply list_elem_of_fmap in Hi as (n & -> & Hin). change (default "" (Some (n_ID n))) with (n_ID n). rewrite byID_lookup by done.
  change (default zero_node (Some n)) with n.
  exists p, (n_ID n). split_and!; [done | done | done | done].
Qed.

Lemma owns_fun nodes ps h n n' : NoDup (ids nodes) -> owns nodes ps h n -> owns nodes ps h n' -> n = n'.
Proof.
  intros Hn (p & id & Hs & Hl & Hi & Hin) (p' & id' & Hs' & Hl' & Hi' & Hin').
  pose proof (successor_unique _ _ _ _ Hs Hs') as <-. rewrite Hl in Hl'. injection Hl' as <-.
  eapply ids_inj; [done..|]. congruence.
Qed.

(** One owner, whoever computes it.  For any key the ring returns a
    configured node, found by bisection at the first position at or after the
    key's hash (around the ring), and two nodes that list the same members in
    different orders build the same ring and so agree on every owner. *)
Theorem ring_owner_agreed nodes nodes' r key :
  NoDup (ids nodes) -> nodes ≡ₚ nodes' -> NewRing nodes = Ok r ->
  NewRing nodes' = Ok r /\ Owner r key ∈ nodes /\
  exists ps, positions (merge_sort node_le nodes) = Ok ps /\ owns (merge_sort node_le nodes) ps (keyHash key) (Owner r key).
Proof.
  intros Hn Hp Hr. destruct (Owner_owns nodes r key Hn Hr) as (ps & Eps & Ho). split_and!; [| |by exists ps].
  - destruct nodes as [|a nodes]; [done|]. destruct nodes' as [|b nodes']; [by apply Permutation_nil_r in Hp|].
    unfold NewRing in *. cbv iota in *. by rewrite <- (NewRing_sorted _ _ Hn Hp).
  - destruct Ho as (p & id & _ & _ & _ & Hin). by rewrite merge_sort_Permutation in Hin.
Qed.

(** Adding a node moves keys to it only.  When a node joins, every key
    keeps its owner or goes to the new node: no key moves between the old
    ones, even where positions collide. *)
Theorem ring_join_moves_only_to_new n nodes r r' key :
  NoDup (ids (n :: nodes)) -> NewRing nodes = Ok r -> NewRing (n :: nodes) = Ok r' ->
  Owner r' key = Owner r key \/ Owner r' key = n.
Proof.
  intros Hn Hr Hr'. pose proof Hn as Hn0. apply NoDup_cons in Hn0 as [_ Hn0].
  destruct (Owner_owns nodes r key Hn0 Hr) as (ps & Eps & Ho).
  destruct (Owner_owns (n :: nodes) r' key Hn Hr') as (ps' & Eps' & Ho').
  destruct (sorted_insert n nodes Hn) as (A & B & EA & EB). rewrite EA in *. rewrite EB in *.
  rewrite positions_app in Eps, Eps'. destruct (positions A) as [pa|]; [|done]. cbn [positions] in Eps'.
  destruct (vhashes_from (n_ID n) 0 vnodes) as [pn|] eqn:En; [|done]. destruct (positions B) as [pb|]; [|done].
  injection Eps as <-. injection Eps' as <-.
  assert (NoDup (ids (A ++ n :: B))) as HnAB.
  { rewrite <- EA. by rewrite (ids_perm _ (n :: nodes) (merge_sort_Permutation node_le (n :: nodes))). }
  destruct (vhashes_ids _ _ _ _ En) as [Hids _]. rewrite Forall_forall in Hids.
  destruct Ho' as (p & id & Hs & Hl & Hi & Hin). destruct (decide (p ∈ map fst (pa ++ pb))) as [Hold|Hnew].
  - destruct (decide (Owner r' key = n)) as [|Hne]; [by right|]. left. symmetry.
    eapply (owns_fun (A ++ n :: B) (pa ++ pb) (keyHash key)); [done| |].
    + destruct Ho as (p0 & id0 & Hs0 & Hl0 & Hi0 & Hin0). exists p0, id0. split_and!; try done.
      apply elem_of_app in Hin0 as [?|?]; apply elem_of_app; [by left | right; by right].
    + exists p, id. split_and!; try done.
      * eapply successor_sub; [|exact Hold | exact Hs]. intros q Hq. rewrite !map_app, !elem_of_app in *. tauto.
      * rewrite !lastval_app in *. destruct (lastval p pb); [done|].
        destruct (lastval p pn) as [w|] eqn:Ew; [|done]. exfalso. injection Hl as ->.
        apply lastval_in in Ew. specialize (Hids _ Ew). cbn in Hids. apply Hne.
        eapply ids_inj; [exact HnAB | exact Hin | apply elem_of_app; right; by left | congruence].
  - right. rewrite !lastval_app in Hl.
    assert (forall l : list (Z * string), p ∉ map fst l -> lastval p l = None) as Hno.
    { intros l Hp. destruct (lastval p l) as [w|] eqn:Ew; [|done]. exfalso. apply Hp.
      apply lastval_in in Ew. by apply (list_elem_of_fmap_2 fst) in Ew. }
    rewrite map_app, elem_of_app in Hnew. rewrite (Hno pb), (Hno pa) in Hl by tauto.
    destruct (lastval p pn) as [w|] eqn:Ew; [|done]. injection Hl as ->.
    apply lastval_in in Ew. specialize (Hids _ Ew). cbn in Hids.
    eapply ids_inj; [exact HnAB | exact Hin | apply elem_of_app; right; by left | congruence].
Qed.

(** ** Building a ring *)

Definition short (n : Node) : Prop := (String.length (n_ID n) < 64)%nat.

Lemma vhashes_total id v c : (String.length id < 64)%nat -> exists l, vhashes_from id v c = Ok l.
Proof.
  intros Hs. revert v. induction c as [|c IH]; intros v; cbn [vhashes_from]; [by eexists|].
  unfold vhash. rewrite (proj2 (Nat.leb_gt _ _)) by lia. destruct (IH (v + 1)) as [l ->]. by eexists.
Qed.

Lemma positions_total nodes : Forall short nodes -> exists ps, positions nodes = Ok ps.
Proof.
  induction 1 as [|n nodes Hn _ [ps Hps]]; cbn [positions]; [by eexists|].
  destruct (vhashes_total (n_ID n) 0 vnodes Hn) as [l ->]. rewrite Hps. by eexists.
Qed.

Lemma NewRing_total nodes : nodes <> [] -> Forall short nodes -> exists r, NewRing nodes = Ok r.
Proof.
  intros Hne Hs. destruct (positions_total (merge_sort node_le nodes)) as [ps Hps].
  { by rewrite merge_sort_Permutation. }
  destruct nodes; [done|]. unfold NewRing. cbv iota. rewrite Hps. by eexists.
Qed.

Lemma vhashes_long id v c : (64 <= String.length id)%nat -> c <> O -> exists e, vhashes_from id v c = Err e.
Proof.
  intros Hs Hc. destruct c as [|c]; [done|]. cbn [vhashes_from]. unfold vhash. rewrite (proj2 (Nat.leb_le _ _)) by done. by eexists.
Qed.

(** A node id of 64 bytes or more stops the process at start-up. *)
Lemma NewRing_long_id_panics n nodes : n ∈ nodes -> ~ short n -> exists msg, NewRing nodes = Err (Panic msg).
Proof.
  intros Hi Hs. assert (forall l, n ∈ l -> exists msg, positions l = Err (Panic msg)) as Hp.
  { assert (forall id v c e, vhashes_from id v c = Err e -> exists msg, e = Panic msg) as Hv.
    { intros id v c e. revert v. induction c as [|c IH]; intros v; cbn [vhashes_from]; [done|].
      unfold vhash at 1. destruct (64 <=? _)%nat; [intros [= <-]; by eexists|].
      destruct (vhashes_from id (v + 1) c) eqn:E; [done|]. intros [= <-]. by eapply IH. }
    induction l as [|a l IH]; [by intros ?%elem_of_nil|]. intros Ha. cbn [positions].
    destruct (vhashes_from (n_ID a) 0 vnodes) as [x|e] eqn:Ex; [|by destruct (Hv _ _ _ _ Ex) as [msg ->]; exists msg].
    apply elem_of_cons in Ha as [<-|Ha]; [|by destruct (IH Ha) as [msg ->]; exists msg].
    exfalso. destruct (vhashes_long (n_ID n) 0 vnodes) as [e E]; [unfold short in Hs; lia | done | congruence]. }
  destruct (Hp (merge_sort node_le nodes)) as [msg E]; [by rewrite merge_sort_Permutation|].
  destruct nodes as [|a nodes]; [by apply elem_of_nil in Hi|]. exists msg. unfold NewRing. cbv iota. by rewrite E.
Qed.

(** A generator that yields a local id within the tries gives a local id. *)
Lemma GenerateLocalID_local l genID k :
  (k < maxTries)%nat -> IsLocal l (genID k) = true -> IsLocal l (GenerateLocalID l genID) = true.
Proof.
  intros Hk Hl. unfold GenerateLocalID.
  assert (forall t j, (j <= k < j + t)%nat -> IsLocal l (localID t l genID j) = true) as Hg; [|apply Hg; lia].
  induction t as [|t IH]; intros j Hj; [lia|]. cbn [localID]. destruct (IsLocal l (genID j)) eqn:E; [done|].
  apply IH. destruct (decide (j = k)) as [->|]; [congruence | lia].
Qed.

Definition members : list Node := [mkClusterNode "b" "10.0.0.2:9000"; mkClusterNode "a" "10.0.0.1:9000"].

Lemma ring_owner_agreed_witness : exists r, NewRing members = Ok r /\ NewRing (rev members) = Ok r /\ Owner r "task-1" ∈ members.
Proof.
  destruct (NewRing_total members) as [r Hr]; [done | by repeat constructor|].
  destruct (ring_owner_agreed members (rev members) r "task-1") as (Hr' & Ho & _); [| |exact Hr | by exists r].
  - refine (bool_decide_unpack _ _). vm_compute. exact I.
  - apply Permutation_rev.
Defined.

Lemma ring_join_moves_only_to_new_witness :
  exists r r', NewRing members = Ok r /\ NewRing (mkClusterNode "c" "10.0.0.3:9000" :: members) = Ok r' /\
    (Owner r' "task-1" = Owner r "task-1" \/ n_ID (Owner r' "task-1") = "c").
Proof.
  destruct (NewRing_total members) as [r Hr]; [done | by repeat constructor|].
  destruct (NewRing_total (mkClusterNode "c" "10.0.0.3:9000" :: members)) as [r' Hr']; [done | by repeat constructor|].
  exists r, r'. split; [exact Hr|]. split; [exact Hr'|].
  destruct (ring_join_moves_only_to_new (mkClusterNode "c" "10.0.0.3:9000") members r r' "task-1") as [E|E]; [|done | done | by left | right; by rewrite E].
  refine (bool_decide_unpack _ _). vm_compute. exact I.
Defined.
