(* ===== verification/Bloom.v ===== *)
(** The Bloom filters the nodes of a cluster exchange, and the cache of the
    peers' filters ([src/internal/cluster/bloom.go], [bloom_cache.go]).

    A filter is used by many goroutines at once, through atomic word
    operations: [Add] is a sequence of atomic ORs, and the theorems speak of
    the ORs of concurrent calls in any order ([orAll]). *)

From Stdlib Require Import SpecFloat.
From S2P Require Import Prelude Keys Hash Float64.

(** ** Little-endian words *)

Fixpoint le_bytes (w : nat) (n : Z) : string :=
  match w with
  | O => ""
  | S w' => String (byte n) (le_bytes w' (Z.shiftr n 8))
  end.

Fixpoint le_value (s : string) : Z :=
  match s with
  | "" => 0
  | String a s' => ch a + 256 * le_value s'
  end.

(** ** The filter *)

Record Bloom := mkBloom {
  bl_m : Z; bl_words : Z; bl_k : Z; bl_bits : list Z; bl_count : Z; bl_seq : Z
}.

Definition set_bits (bits : list Z) (b : Bloom) : Bloom :=
  mkBloom (bl_m b) (bl_words b) (bl_k b) bits (bl_count b) (bl_seq b).

(** The literals [14.378] and [0.7]. *)
Definition c14_378 : spec_float := S754_finite false 8094094430291624 (-49).
Definition c0_7 : spec_float := S754_finite false 6305039478318694 (-53).

Section sizing.
(** What the machine makes of an out-of-range conversion to an integer. *)
Variable cvt_overflow : Z.

(** [uintN(f)]: towards zero. *)
Definition to_uint (bits : Z) (f : spec_float) : Z :=
  let v := match f with
           | S754_zero _ => 0
           | S754_finite s m e =>
               let a := if 0 <=? e then Z.pos m * 2 ^ e else Z.pos m / 2 ^ (- e) in
               if s then - a else a
           | _ => -1
           end in
  if (0 <=? v) && (v <? 2 ^ bits) then v else cvt_overflow.

(** The rate [p] is an argument that nothing but its own range check reads. *)
Definition NewBloom (n : Z) (p : spec_float) : Bloom :=
  let n := if n =? 0 then 1000000 else n in
  let mBits := to_uint 64 (fmul (float64 n) c14_378) in
  let mBits := if mBits <? 64 then 64 else mBits in
  let mBits := wrapu64 (wrapu64 (mBits + 63) / 64 * 64) in
  let k := to_uint 32 (fdiv (fmul c0_7 (float64 mBits)) (float64 n)) in
  let k := if k <? 1 then 1 else k in
  let k := if 16 <? k then 16 else k in
  mkBloom mBits (mBits / 64) k (replicate (Z.to_nat (mBits / 64)) 0) 0 0.
End sizing.

Definition doubleHash (key : string) : Z * Z :=
  let h1 := fnv64a key in
  let h2 := fnv64a (String (byte 165) key) in
  (h1, if h2 =? 0 then 1 else h2).

(** The bits of a key: one index per hash, in the order of the loop. *)
Definition index (m h1 h2 i : Z) : Z := wrapu64 (h1 + wrapu64 (i * h2)) mod m.
Definition hashes (k : Z) : list Z := map Z.of_nat (seq 0 (Z.to_nat k)).
Definition indices (b : Bloom) (key : string) : list Z :=
  let (h1, h2) := doubleHash key in map (index (bl_m b) h1 h2) (hashes (bl_k b)).

(** [atomic.OrUint64(&b.bits[idx/64], 1<<(idx%64))]. *)
Definition orBit (idx : Z) : M (list Z) unit := fun bits =>
  match bits !! Z.to_nat (idx / 64) with
  | Some w => (Ok tt, <[Z.to_nat (idx / 64) := Z.lor w (Z.shiftl 1 (idx mod 64))]> bits)
  | None => (Err (Panic "index out of range"), bits)
  end.

Definition orAll (l : list Z) : M (list Z) unit := mfor l orBit.

Definition Add (key : string) : M Bloom unit := fun b =>
  (if (bl_m b =? 0) && (0 <? bl_k b) then mthrow (Panic "integer divide by zero")
   else
     mlift bl_bits set_bits (orAll (indices b key)) ;;!
     mmod (fun b => mkBloom (bl_m b) (bl_words b) (bl_k b) (bl_bits b)
                      (wrapu64 (bl_count b + 1)) (wrapu64 (bl_seq b + 1)))) b.

Fixpoint testAll (bits : list Z) (l : list Z) : res bool :=
  match l with
  | [] => Ok true
  | idx :: l' =>
      match bits !! Z.to_nat (idx / 64) with
      | None => Err (Panic "index out of range")
      | Some w => if Z.land w (Z.shiftl 1 (idx mod 64)) =? 0 then Ok false else testAll bits l'
      end
  end.

Definition MaybeHas (b : Bloom) (key : string) : res bool :=
  if (bl_m b =? 0) && (0 <? bl_k b) then Err (Panic "integer divide by zero")
  else testAll (bl_bits b) (indices b key).

Definition Reset_ (b : Bloom) : Bloom :=
  mkBloom (bl_m b) (bl_words b) (bl_k b) (map (fun _ => 0) (bl_bits b)) 0 (wrapu64 (bl_seq b + 1)).

Fixpoint le_concat (l : list Z) : string :=
  match l with [] => "" | w :: l' => le_bytes 8 w +:+ le_concat l' end.

(** The bytes, [k], the count and the sequence number. *)
Definition Snapshot_ (b : Bloom) : string * Z * Z * Z :=
  (le_concat (bl_bits b), bl_k b, bl_count b, bl_seq b).

(** [binary.LittleEndian.Uint64(bits[i*8:(i+1)*8])] for the first [n] words. *)
Fixpoint le_words (n : nat) (s : string) : list Z :=
  match n with
  | O => []
  | S n' => le_value (take_s 8 s) :: le_words n' (drop_s 8 s)
  end.

Definition Restore (bits : string) (k count seq : Z) (b : Bloom) : Bloom :=
  if negb (wrapu64 (slen bits * 8) =? bl_m b) || negb (k =? bl_k b) then b
  else mkBloom (bl_m b) (bl_words b) (bl_k b) (le_words (length (bl_bits b)) bits) count seq.

Definition Sequence (b : Bloom) : Z := bl_seq b.

(** ** The cache of the peers' filters *)

Record peerEntry := mkPeer { pe_bloom : Bloom; pe_seq : Z }.

Record BloomCache := mkCache {
  bc_expectedItems : Z; bc_fpRate : spec_float; bc_peers : gmap string peerEntry
}.

Definition NewBloomCache (expectedItems : Z) (fpRate : spec_float) : BloomCache :=
  mkCache expectedItems fpRate ∅.

Definition peerMaybeHas (c : BloomCache) (peerID key : string) : res bool :=
  match bc_peers c !! peerID with
  | None => Ok true
  | Some pe => MaybeHas (pe_bloom pe) key
  end.

Section replace.
Variable cvt_overflow : Z.

Definition Replace (peerID bits : string) (k count seq : Z) (c : BloomCache) : BloomCache :=
  let pe := default (mkPeer (NewBloom cvt_overflow (bc_expectedItems c) (bc_fpRate c)) 0) (bc_peers c !! peerID) in
  let pe' := if negb (seq =? 0) && (seq <=? pe_seq pe) then pe
             else mkPeer (Restore bits k count seq (pe_bloom pe)) seq in
  mkCache (bc_expectedItems c) (bc_fpRate c) (<[peerID := pe']> (bc_peers c)).

(** One answer of a poll; an empty snapshot is skipped. *)
Record snapshotResponse := mkSnapshotResponse {
  ss_MBits : string; ss_NumHashes : Z; ss_NumItems : Z; ss_Sequence : Z; ss_NodeId : string
}.

Definition pollOne (r : option snapshotResponse) (c : BloomCache) : BloomCache :=
  match r with
  | Some s => if bool_decide (ss_MBits s = "") then c
              else Replace (ss_NodeId s) (ss_MBits s) (ss_NumHashes s) (ss_NumItems s) (ss_Sequence s) c
  | None => c
  end.
End replace.

(** ** Bits *)

(** Bit [idx] of the array is set. *)
Definition bit_set (bits : list Z) (idx : Z) : Prop :=
  exists w, bits !! Z.to_nat (idx / 64) = Some w /\ Z.testbit w (idx mod 64) = true.

Definition in_bits (bits : list Z) (idx : Z) : Prop := 0 <= idx < 64 * Z.of_nat (length bits).

Lemma land_bit w j : 0 <= j -> (Z.land w (Z.shiftl 1 j) =? 0) = negb (Z.testbit w j).
Proof.
  intros Hj. rewrite Z.shiftl_1_l. destruct (Z.testbit w j) eqn:E; cbn [negb].
  - apply Z.eqb_neq. intros H0. apply (f_equal (fun z => Z.testbit z j)) in H0.
    rewrite Z.land_spec, Z.pow2_bits_true, E, Z.bits_0 in H0 by lia. done.
  - apply Z.eqb_eq, Z.bits_inj'. intros i Hi. rewrite Z.land_spec, Z.bits_0.
    destruct (decide (i = j)) as [->|Hn]; [by rewrite E|]. rewrite Z.pow2_bits_false by lia. apply andb_false_r.
Qed.

Lemma uint64_bits w : 0 <= w -> (forall j, 64 <= j -> Z.testbit w j = false) -> uint64 w.
Proof.
  intros Hw Hb. split; [done|]. destruct (decide (w = 0)) as [->|]; [done|]. change two64 with (2 ^ 64). apply Z.log2_lt_pow2; [lia|].
  destruct (Z.lt_ge_cases (Z.log2 w) 64) as [|Hl]; [done|]. apply Hb in Hl.
  rewrite Z.bit_log2 in Hl by lia. done.
Qed.

Lemma uint64_high w j : uint64 w -> 64 <= j -> Z.testbit w j = false.
Proof.
  intros [Hw Hl] Hj. destruct (decide (w = 0)) as [->|]; [apply Z.bits_0|].
  apply Z.bits_above_log2; [done|]. change two64 with (2 ^ 64) in Hl. apply Z.log2_lt_pow2 in Hl; lia.
Qed.

Lemma uint64_or w j : uint64 w -> 0 <= j < 64 -> uint64 (Z.lor w (Z.shiftl 1 j)).
Proof.
  intros Hw Hj. rewrite Z.shiftl_1_l. apply uint64_bits.
  - apply Z.lor_nonneg. split; [apply Hw | apply Z.pow_nonneg; lia].
  - intros i Hi. rewrite Z.lor_spec, Z.pow2_bits_false, (uint64_high w i) by (done || lia). done.
Qed.

Lemma word_valid bits idx : in_bits bits idx -> exists w, bits !! Z.to_nat (idx / 64) = Some w.
Proof.
  intros [H0 H1]. apply lookup_lt_is_Some. pose proof (Z.div_pos idx 64 H0 eq_refl).
  apply (Z.div_lt_upper_bound idx 64) in H1; lia.
Qed.

(** One OR sets its bit and keeps the others. *)
Lemma orBit_spec idx bits :
  in_bits bits idx -> Forall uint64 bits ->
  exists bits', orBit idx bits = (Ok tt, bits') /\ length bits' = length bits /\ Forall uint64 bits' /\
    bit_set bits' idx /\ (forall j, bit_set bits j -> bit_set bits' j).
Proof.
  intros Hi Hw. destruct (word_valid _ _ Hi) as [w Ew]. unfold orBit. rewrite Ew. eexists. split; [done|].
  pose proof (Z.mod_pos_bound idx 64 eq_refl) as Hm. assert (uint64 w) as Hu by (by eapply Forall_lookup_1).
  split_and!; [apply length_insert | apply Forall_insert; [done | by apply uint64_or]| |].
  - exists (Z.lor w (Z.shiftl 1 (idx mod 64))). split; [by eapply list_lookup_insert_eq, lookup_lt_Some|].
    rewrite Z.lor_spec, Z.shiftl_1_l, Z.pow2_bits_true by lia. apply orb_true_r.
  - intros j (v & Ev & Hv). destruct (decide (Z.to_nat (j / 64) = Z.to_nat (idx / 64))) as [E|E].
    + rewrite E in Ev. rewrite Ew in Ev. injection Ev as ->. exists (Z.lor v (Z.shiftl 1 (idx mod 64))).
      rewrite E. split; [by eapply list_lookup_insert_eq, lookup_lt_Some|]. by rewrite Z.lor_spec, Hv.
    + exists v. by rewrite list_lookup_insert_ne.
Qed.

(** Any number of ORs, in any order: every one of their bits is set. *)
Lemma orAll_spec l bits :
  Forall (in_bits bits) l -> Forall uint64 bits ->
  exists bits', orAll l bits = (Ok tt, bits') /\ length bits' = length bits /\ Forall uint64 bits' /\
    Forall (bit_set bits') l /\ (forall j, bit_set bits j -> bit_set bits' j).
Proof.
  intros Hl. revert bits Hl. induction l as [|i l IH]; intros bits Hl Hw; [by exists bits|].
  apply Forall_cons in Hl as [Hi Hl]. destruct (orBit_spec i bits Hi Hw) as (b1 & E1 & L1 & W1 & S1 & K1).
  destruct (IH b1) as (b2 & E2 & L2 & W2 & S2 & K2); [|done|].
  { eapply Forall_impl; [exact Hl|]. unfold in_bits. by rewrite L1. }
  exists b2. unfold orAll in *. cbn [mfor]. unfold mbnd. rewrite E1, E2. split_and!; [done | congruence | done | | auto].
  apply Forall_cons. auto.
Qed.

Lemma testAll_true bits l : Forall (fun i => 0 <= i) l -> Forall (bit_set bits) l -> testAll bits l = Ok true.
Proof.
  intros Hn. induction 1 as [|i l (w & Ew & Hb) _ IH]; [done|]. apply Forall_cons in Hn as [Hi Hn]. cbn [testAll].
  rewrite Ew, land_bit, Hb by (pose proof (Z.mod_pos_bound i 64 eq_refl); lia). auto.
Qed.

Lemma testAll_total bits l : Forall (in_bits bits) l -> exists v, testAll bits l = Ok v.
Proof.
  induction 1 as [|i l Hi _ [v IH]]; [by eexists|]. cbn [testAll]. destruct (word_valid _ _ Hi) as [w ->].
  destruct (_ =? 0); eauto.
Qed.

(** ** Well-formed filters *)

Record bloom_wf (b : Bloom) : Prop := {
  wf_m : bl_m b = 64 * Z.of_nat (length (bl_bits b));
  wf_pos : 0 < bl_m b < two64;
  wf_k : 1 <= bl_k b;
  wf_bits : Forall uint64 (bl_bits b)
}.

Lemma NewBloom_wf cvt n p : 0 < bl_m (NewBloom cvt n p) -> bloom_wf (NewBloom cvt n p).
Proof.
  unfold NewBloom. cbv zeta. set (n' := if n =? 0 then _ else _). set (v := to_uint cvt 64 _).
  set (x := wrapu64 ((if v <? 64 then 64 else v) + 63)). set (k := to_uint cvt 32 _).
  assert (0 <= x < two64) as Hx by (apply Z.mod_pos_bound; done).
  assert (wrapu64 (x / 64 * 64) = x / 64 * 64) as ->.
  { apply Z.mod_small. pose proof (Z.mul_div_le x 64 eq_refl). pose proof (Z.div_pos x 64). lia. }
  cbn [bl_m bl_bits bl_k]. rewrite Z.div_mul by done. intros Hm. split; cbn [bl_m bl_bits bl_k].
  - rewrite length_replicate, Z2Nat.id; lia.
  - pose proof (Z.mul_div_le x 64 eq_refl). lia.
  - destruct (Z.ltb_spec k 1); [done|]. destruct (Z.ltb_spec 16 k); lia.
  - by apply Forall_replicate.
Qed.

Lemma indices_in b key : bloom_wf b -> Forall (in_bits (bl_bits b)) (indices b key).
Proof.
  intros W. unfold indices. destruct (doubleHash key) as [h1 h2]. apply Forall_map, Forall_true. intros i.
  unfold index, in_bits. rewrite <- (wf_m b W). apply Z.mod_pos_bound, W.
Qed.

Lemma MaybeHas_wf b key : bloom_wf b -> MaybeHas b key = testAll (bl_bits b) (indices b key).
Proof. intros W. unfold MaybeHas. destruct (Z.eqb_spec (bl_m b) 0); [pose proof (wf_pos b W); lia | done]. Qed.

Lemma MaybeHas_set b key : bloom_wf b -> Forall (bit_set (bl_bits b)) (indices b key) -> MaybeHas b key = Ok true.
Proof.
  intros W Hs. rewrite MaybeHas_wf by done. apply testAll_true; [|done].
  eapply Forall_impl; [by apply indices_in | by intros i []].
Qed.

(** A key whose bits are set stays reported while bits are only added. *)
Definition reported (b : Bloom) (key : string) : Prop := Forall (bit_set (bl_bits b)) (indices b key).

Lemma Add_spec b key :
  bloom_wf b ->
  exists b', Add key b = (Ok tt, b') /\ bloom_wf b' /\ bl_m b' = bl_m b /\ bl_k b' = bl_k b /\
    bl_seq b' = wrapu64 (bl_seq b + 1) /\ reported b' key /\ (forall k, reported b k -> reported b' k).
Proof.
  intros W. destruct (orAll_spec (indices b key) (bl_bits b)) as (bits & E & L & U & S & K); [by apply indices_in | apply W|].
  unfold Add. destruct (Z.eqb_spec (bl_m b) 0); [pose proof (wf_pos b W); lia|]. cbn [andb]. unfold mlift, mbnd, mmod. rewrite E.
  eexists. split; [reflexivity|]. cbn [set_bits bl_m bl_words bl_k bl_bits bl_count bl_seq].
  split_and!; try done.
  - split; cbn [bl_m bl_bits bl_k]; [rewrite L|..]; apply W || done.
  - intros k Hk. unfold reported in *. cbn [bl_bits]. eapply Forall_impl; [exact Hk | auto].
Qed.

(** ** Snapshots *)

Lemma le_bytes_length w n : String.length (le_bytes w n) = w.
Proof. revert n. induction w as [|w IH]; intros n; cbn [le_bytes String.length]; [done | by rewrite IH]. Qed.

Lemma le_value_bytes w n : 0 <= n < 256 ^ Z.of_nat w -> le_value (le_bytes w n) = n.
Proof.
  revert n. induction w as [|w IH]; intros n Hn; cbn [le_bytes le_value]; [cbn in Hn; lia|].
  rewrite ch_byte, Z.shiftr_div_pow2 by lia. change (2 ^ 8) with 256. rewrite Nat2Z.inj_succ, Z.pow_succ_r in Hn by lia.
  rewrite IH; [pose proof (Z.div_mod n 256); lia|]. split; [apply Z.div_pos; lia | apply Z.div_lt_upper_bound; lia].
Qed.

Lemma le_value_range s : 0 <= le_value s < 256 ^ slen s.
Proof.
  induction s as [|a s IH]; [done|]. unfold slen in *. cbn [le_value String.length].
  rewrite Nat2Z.inj_succ, Z.pow_succ_r by lia. pose proof (ch_range a). lia.
Qed.

Lemma take_s_length n s : (String.length (take_s n s) <= n)%nat.
Proof. revert s. induction n as [|n IH]; intros [|a s]; cbn [take_s String.length]; try lia. specialize (IH s). lia. Qed.

Lemma le_words_spec n s : length (le_words n s) = n /\ Forall uint64 (le_words n s).
Proof.
  revert s. induction n as [|n IH]; intros s; [split; constructor|]. cbn [le_words length]. destruct (IH (drop_s 8 s)) as [-> Hf].
  split; [done|]. apply Forall_cons. split; [|done]. pose proof (le_value_range (take_s 8 s)) as [H0 H1]. split; [done|].
  eapply Z.lt_le_trans; [exact H1|]. change two64 with (256 ^ 8). apply Z.pow_le_mono_r; [done|].
  pose proof (take_s_length 8 s). unfold slen. lia.
Qed.

Lemma le_words_concat l : Forall uint64 l -> le_words (length l) (le_concat l) = l.
Proof.
  induction 1 as [|w l Hw _ IH]; [done|]. cbn [length le_words le_concat].
  rewrite <- (le_bytes_length 8 w) at 1 3. rewrite take_app_s, drop_app_s, IH, le_value_bytes; [done | exact Hw].
Qed.

Lemma le_concat_length l : slen (le_concat l) = 8 * Z.of_nat (length l).
Proof.
  induction l as [|w l IH]; [done|]. cbn [le_concat length]. unfold slen in *. rewrite length_app_s, le_bytes_length. lia.
Qed.

(** A filter restored from a snapshot of one of its shape is that filter. *)
Lemma Restore_Snapshot b b' :
  bloom_wf b -> bl_m b' = bl_m b -> bl_k b' = bl_k b -> length (bl_bits b') = length (bl_bits b) ->
  Restore (le_concat (bl_bits b)) (bl_k b) (bl_count b) (bl_seq b) b' =
    mkBloom (bl_m b) (bl_words b') (bl_k b) (bl_bits b) (bl_count b) (bl_seq b).
Proof.
  intros W Em Ek El. unfold Restore. rewrite le_concat_length, Em, Ek, El.
  replace (8 * Z.of_nat (length (bl_bits b)) * 8) with (bl_m b) by (rewrite (wf_m b W); lia).
  unfold wrapu64. rewrite Z.mod_small by (pose proof (wf_pos b W); lia). rewrite !Z.eqb_refl. cbn [negb orb].
  by rewrite le_words_concat by apply W.
Qed.

Lemma Restore_wf bits k count seq b : bloom_wf b -> bloom_wf (Restore bits k count seq b).
Proof.
  intros W. unfold Restore. destruct (_ || _); [done|]. destruct (le_words_spec (length (bl_bits b)) bits) as [L U].
  split; cbn [bl_m bl_bits bl_k]; rewrite ?L; apply W || done.
Qed.

Lemma Reset_wf b : bloom_wf b -> bloom_wf (Reset_ b).
Proof.
  intros W. split; cbn [Reset_ bl_m bl_bits bl_k]; rewrite ?length_map; try apply W. apply Forall_map, Forall_true. done.
Qed.

(** ** Histories *)

Inductive bop := BAdd (key : string) | BReset | BRestore (bits : string) (k count seq : Z).

Definition brun (o : bop) : M Bloom unit :=
  match o with
  | BAdd key => Add key
  | BReset => mmod Reset_
  | BRestore bits k count seq => mmod (Restore bits k count seq)
  end.

Definition runOps (h : list bop) : M Bloom unit := mfor h brun.

Definition is_add (o : bop) : Prop := match o with BAdd _ => True | _ => False end.

Lemma mfor_app_ok {S A} (l1 l2 : list A) (body : A -> M S unit) s s1 :
  mfor l1 body s = (Ok tt, s1) -> mfor (l1 ++ l2) body s = mfor l2 body s1.
Proof.
  revert s. induction l1 as [|x l1 IH]; intros s; cbn [mfor app]; [by intros [= ->]|].
  unfold mbnd. destruct (body x s) as [[[]|e] s2]; [apply IH | done].
Qed.

Lemma runOps_wf h b : bloom_wf b -> exists b', runOps h b = (Ok tt, b') /\ bloom_wf b'.
Proof.
  revert b. induction h as [|o h IH]; intros b W; [by exists b|]. unfold runOps in *. cbn [mfor]. unfold mbnd at 1.
  destruct o as [key| |bits k count seq]; cbn [brun].
  - destruct (Add_spec b key W) as (b1 & -> & W1 & _). by apply IH.
  - apply IH. by apply Reset_wf.
  - apply IH. by apply Restore_wf.
Qed.

Lemma runOps_adds h b : Forall is_add h -> bloom_wf b ->
  exists b', runOps h b = (Ok tt, b') /\ bloom_wf b' /\ (forall k, reported b k -> reported b' k).
Proof.
  intros Ha. revert b. induction Ha as [|o h Ho _ IH]; intros b W; [by exists b|]. unfold runOps in *. cbn [mfor]. unfold mbnd at 1.
  destruct o as [key| |]; [|done..]. cbn [brun]. destruct (Add_spec b key W) as (b1 & -> & W1 & _ & _ & _ & _ & K1).
  destruct (IH b1 W1) as (b2 & -> & W2 & K2). exists b2. auto.
Qed.

(** C33. The filter has no false negatives.  After any history of additions,
    resets and restores, none of which panics, a key added since the last
    reset or restore is reported; and while further additions run
    concurrently, their ORs interleaved in any order, the key stays reported
    and so is every key whose addition has finished. *)
Theorem bloom_no_false_negatives b h1 key h2 :
  bloom_wf b -> Forall is_add h2 ->
  exists b', runOps (h1 ++ BAdd key :: h2) b = (Ok tt, b') /\ MaybeHas b' key = Ok true /\
    forall keys l, l ≡ₚ concat (map (indices b') keys) ->
      exists bits, orAll l (bl_bits b') = (Ok tt, bits) /\
        forall k, k ∈ key :: keys -> MaybeHas (set_bits bits b') k = Ok true.
Proof.
  intros W Ha. destruct (runOps_wf h1 b W) as (b1 & E1 & W1). destruct (Add_spec b1 key W1) as (b2 & E2 & W2 & _ & _ & _ & R2 & _).
  destruct (runOps_adds h2 b2 Ha W2) as (b3 & E3 & W3 & K3). exists b3. unfold runOps in *.
  rewrite (mfor_app_ok _ _ _ _ _ E1). cbn [mfor brun]. unfold mbnd at 1. rewrite E2. split; [exact E3|].
  split; [apply MaybeHas_set; [done | exact (K3 _ R2)]|]. intros keys l Hl.
  assert (Forall (in_bits (bl_bits b3)) l) as Hin.
  { rewrite Hl. apply Forall_concat, Forall_map, Forall_true. intros k. by apply indices_in. }
  destruct (orAll_spec l (bl_bits b3) Hin) as (bits & E & L & U & S & K); [apply W3|]. exists bits. split; [done|].
  intros k Hk. apply MaybeHas_set.
  { split; cbn [set_bits bl_m bl_bits bl_k]; rewrite ?L; apply W3 || done. }
  cbn [set_bits bl_bits]. change (Forall (bit_set bits) (indices b3 k)). apply elem_of_cons in Hk as [->|Hk].
  - eapply Forall_impl; [exact (K3 _ R2) | auto].
  - rewrite Forall_forall in *. intros i Hi. apply S. rewrite Hl. apply list_elem_of_In, in_concat. exists (indices b3 k).
    split; [apply in_map|]; by apply list_elem_of_In.
Qed.

Definition shape10 : Bloom := NewBloom 0 10 S754_nan.

Lemma bloom_no_false_negatives_witness :
  exists b', runOps [BAdd "a"; BReset; BAdd "b"; BAdd "c"] shape10 = (Ok tt, b') /\ MaybeHas b' "b" = Ok true /\
    MaybeHas b' "a" = Ok false.
Proof.
  destruct (bloom_no_false_negatives shape10 [BAdd "a"; BReset] "b" [BAdd "c"]) as (b' & E & Hb & _).
  - apply NewBloom_wf. vm_compute. done.
  - repeat constructor.
  - exists b'. split; [exact E|]. split; [exact Hb|].
    assert (b' = snd (runOps [BAdd "a"; BReset; BAdd "b"; BAdd "c"] shape10)) as -> by (cbn [app] in E; by rewrite E).
    vm_compute. reflexivity.
Defined.

(** ** The cache *)

Section cache.
Variable cvt_overflow : Z.
Implicit Types (c : BloomCache).

Definition cacheShape c : Bloom := NewBloom cvt_overflow (bc_expectedItems c) (bc_fpRate c).

(** A filter of the configured shape. *)
Definition shaped c (b : Bloom) : Prop := bloom_wf b /\ bl_m b = bl_m (cacheShape c) /\ bl_k b = bl_k (cacheShape c).

Definition cache_ok c : Prop := forall peer pe, bc_peers c !! peer = Some pe -> shaped c (pe_bloom pe).

Lemma shaped_length c b b' : shaped c b -> shaped c b' -> length (bl_bits b) = length (bl_bits b').
Proof. intros (W & E & _) (W' & E' & _). pose proof (wf_m b W). pose proof (wf_m b' W'). lia. Qed.

Lemma Restore_shaped c bits k count seq b : shaped c b -> shaped c (Restore bits k count seq b).
Proof.
  intros (W & Em & Ek). split; [by apply Restore_wf|]. unfold Restore. by destruct (_ || _).
Qed.

Lemma Replace_ok c peer bits k count seq :
  0 < bl_m (cacheShape c) -> cache_ok c -> cache_ok (Replace cvt_overflow peer bits k count seq c).
Proof.
  intros Hm Hc p pe. unfold Replace. cbn [bc_peers].
  assert (shaped c (pe_bloom (default (mkPeer (cacheShape c) 0) (bc_peers c !! peer)))) as Hd.
  { destruct (bc_peers c !! peer) as [pe0|] eqn:E; [by eapply Hc|]. split; [by apply NewBloom_wf | done]. }
  destruct (decide (p = peer)) as [->|Hn]; [rewrite lookup_insert_eq | rewrite lookup_insert_ne by done; apply Hc].
  intros [= <-]. fold (cacheShape c). destruct (_ && _); [exact Hd|]. by apply Restore_shaped.
Qed.

(** After a newer snapshot of a peer's filter the cache answers for the peer
    as the filter did, and for the other peers as before. *)
Lemma Replace_answers c peer b key :
  0 < bl_m (cacheShape c) -> cache_ok c -> shaped c b ->
  (forall pe, bc_peers c !! peer = Some pe -> bl_seq b = 0 \/ pe_seq pe < bl_seq b) -> 0 <= bl_seq b ->
  let c' := Replace cvt_overflow peer (le_concat (bl_bits b)) (bl_k b) (bl_count b) (bl_seq b) c in
  peerMaybeHas c' peer key = MaybeHas b key /\
  forall p, p <> peer -> peerMaybeHas c' p key = peerMaybeHas c p key.
Proof.
  intros Hm Hc Hs Hnew Hseq c'. subst c'. unfold Replace, peerMaybeHas. cbn [bc_peers]. fold (cacheShape c).
  split; [|intros p Hp; by rewrite lookup_insert_ne]. rewrite lookup_insert_eq.
  set (pe := default _ _).
  assert (shaped c (pe_bloom pe)) as Hp.
  { subst pe. destruct (bc_peers c !! peer) as [pe0|] eqn:E; [by eapply Hc|]. split; [by apply NewBloom_wf | done]. }
  replace (negb (bl_seq b =? 0) && (bl_seq b <=? pe_seq pe)) with false.
  - destruct Hs as (W & Em & Ek). destruct Hp as (W' & Em' & Ek'). cbn [pe_bloom].
    rewrite Restore_Snapshot; [|done | congruence | congruence | by apply (shaped_length c)].
    rewrite (MaybeHas_wf b) by done. unfold MaybeHas. cbn [bl_m bl_k bl_bits].
    destruct (Z.eqb_spec (bl_m b) 0); [pose proof (wf_pos b W); lia | done].
  - symmetry. apply andb_false_iff. rewrite negb_false_iff, Z.eqb_eq, Z.leb_gt. subst pe.
    destruct (bc_peers c !! peer) as [pe0|]; [by apply Hnew|]. cbn [default pe_seq]. unfold id. lia.
Qed.
End cache.
