(* ===== verification/IdemBloom.v ===== *)
(** The rotating filter in front of the idempotency keys of a Redis repository
    ([src/internal/repository/idempotency_bloom.go]).

    The clock and the random seeds of new filters are arguments of the calls;
    [math.Log] and [hash/maphash] are arguments of the definitions.  The bits
    are those of [Bloom]: the compare-and-swap loop of [Add] is an atomic OR. *)

From Stdlib Require Import SpecFloat.
From S2P Require Import Prelude GoTime Keys Hash Float64 Bloom.

Record bloomFilter := mkFilter { bf_mBits : Z; bf_k : Z; bf_seed1 : Z; bf_seed2 : Z; bf_words : list Z }.

Record idempotencyBloomState := mkIdemState { is_curr : bloomFilter; is_prev : bloomFilter; is_nextRotate : Z }.

Record idempotencyBloom := mkIdem { ib_n : Z; ib_fpRate : spec_float; ib_rotateEvery : Z; ib_state : idempotencyBloomState }.

Module idem.
Section filter.
(** [math.Log], an out-of-range conversion, and [maphash] with a seed. *)
Variable flog : spec_float -> spec_float.
Variable cvt_overflow : Z.
Variable maphash : Z -> string -> Z.

(** [math.Ln2] and [0.01]. *)
Definition ln2 : spec_float := S754_finite false 6243314768165359 (-53).
Definition c0_01 : spec_float := S754_finite false 5764607523034235 (-59).

Definition newBloomFilter (n : Z) (fpRate : spec_float) (seed1 seed2 : Z) : bloomFilter :=
  let m := to_uint cvt_overflow 64 (fceil (fdiv (SFopp (fmul (float64 n) (flog fpRate))) (fmul ln2 ln2))) in
  let m := if m <? 64 then 64 else m in
  let k := to_uint cvt_overflow 64 (fceil (fmul (fdiv (float64 m) (float64 n)) ln2)) in
  let k := if k <? 1 then 1 else k in
  mkFilter m k seed1 seed2 (replicate (Z.to_nat (wrapu64 (m + 63) / 64)) 0).

Definition hashPair (f : bloomFilter) (key : string) : Z * Z :=
  let a := maphash (bf_seed1 f) key in
  let b := maphash (bf_seed2 f) key in
  (a, if b =? 0 then 11400714819323198485 else b).

Definition positions (f : bloomFilter) (key : string) : list Z :=
  let (a, b) := hashPair f key in map (index (bf_mBits f) a b) (hashes (bf_k f)).

Definition filterMaybeHas (f : bloomFilter) (key : string) : res bool :=
  if bool_decide (key = "") then Ok true else testAll (bf_words f) (positions f key).

Definition set_words (ws : list Z) (f : bloomFilter) : bloomFilter := mkFilter (bf_mBits f) (bf_k f) (bf_seed1 f) (bf_seed2 f) ws.

Definition filterAdd (key : string) : M bloomFilter unit := fun f =>
  (if bool_decide (key = "") then mret tt else mlift bf_words set_words (orAll (positions f key))) f.

(** The seeds of the filters a call creates are arguments. *)
Definition newIdempotencyBloom (n : Z) (fpRate : spec_float) (rotateEvery now : Z) (s1 s2 s3 s4 : Z) : idempotencyBloom :=
  let n := if n =? 0 then 1000000 else n in
  let fpRate := if fle fpRate (float64 0) || fle (float64 1) fpRate then c0_01 else fpRate in
  let rotateEvery := if rotateEvery <=? 0 then 1800 * second else rotateEvery in
  mkIdem n fpRate rotateEvery (mkIdemState (newBloomFilter n fpRate s1 s2) (newBloomFilter n fpRate s3 s4) (now + rotateEvery)).

Definition rotateIfNeeded (now : Z) (seeds : Z * Z) (b : idempotencyBloom) : idempotencyBloom :=
  let st := ib_state b in
  if now <? is_nextRotate st then b
  else mkIdem (ib_n b) (ib_fpRate b) (ib_rotateEvery b)
         (mkIdemState (newBloomFilter (ib_n b) (ib_fpRate b) (fst seeds) (snd seeds)) (is_curr st) (now + ib_rotateEvery b)).

Definition MaybeHas (now : Z) (seeds : Z * Z) (key : string) : M idempotencyBloom bool := fun b =>
  if bool_decide (key = "") then (Ok true, b)
  else
    let b := rotateIfNeeded now seeds b in
    let st := ib_state b in
    (match filterMaybeHas (is_curr st) key with
     | Ok false => filterMaybeHas (is_prev st) key
     | r => r
     end, b).

Definition set_curr (f : bloomFilter) (b : idempotencyBloom) : idempotencyBloom :=
  mkIdem (ib_n b) (ib_fpRate b) (ib_rotateEvery b) (mkIdemState f (is_prev (ib_state b)) (is_nextRotate (ib_state b))).

Definition Add (now : Z) (seeds : Z * Z) (key : string) : M idempotencyBloom unit := fun b =>
  if bool_decide (key = "") then (Ok tt, b)
  else mlift (fun b => is_curr (ib_state b)) set_curr (filterAdd key) (rotateIfNeeded now seeds b).

(** Calls at their times. *)
Inductive call := CHas (now : Z) (seeds : Z * Z) (key : string) | CAdd (now : Z) (seeds : Z * Z) (key : string).
Definition call_time (c : call) : Z := match c with CHas now _ _ | CAdd now _ _ => now end.
Definition run_call (c : call) (b : idempotencyBloom) : idempotencyBloom :=
  match c with CHas now seeds key => snd (MaybeHas now seeds key b) | CAdd now seeds key => snd (Add now seeds key b) end.
Definition run_calls (cs : list call) (b : idempotencyBloom) : idempotencyBloom := fold_left (fun b c => run_call c b) cs b.
End filter.
End idem.
Import idem.

(** ** What the filters report *)

Section facts.
Variable flog : spec_float -> spec_float.
Variable cvt_overflow : Z.
Variable maphash : Z -> string -> Z.

Record filter_wf (f : bloomFilter) : Prop := {
  fw_m : 0 < bf_mBits f <= 64 * Z.of_nat (length (bf_words f));
  fw_words : Forall uint64 (bf_words f)
}.

(** The number of bits a filter for [n] keys at [fpRate] gets leaves room for
    rounding it up to words. *)
Definition roomy (n : Z) (fpRate : spec_float) : Prop := bf_mBits (newBloomFilter flog cvt_overflow n fpRate 0 0) + 63 < two64.

Lemma newBloomFilter_wf n p s1 s2 : roomy n p -> filter_wf (newBloomFilter flog cvt_overflow n p s1 s2).
Proof.
  unfold roomy, newBloomFilter. cbv zeta. cbn [bf_mBits]. set (m := to_uint cvt_overflow 64 _). intros Hr.
  assert (0 < (if m <? 64 then 64 else m)) as Hp by (destruct (Z.ltb_spec m 64); lia). split; cbn [bf_mBits bf_words]; [|by apply Forall_replicate].
  rewrite length_replicate. unfold wrapu64. rewrite Z.mod_small by lia. set (x := if m <? 64 then 64 else m) in *.
  pose proof (Z.div_pos (x + 63) 64). rewrite Z2Nat.id by lia. pose proof (Z.div_mod (x + 63) 64). pose proof (Z.mod_pos_bound (x + 63) 64). lia.
Qed.

Definition marks (f : bloomFilter) (key : string) : Prop := Forall (bit_set (bf_words f)) (positions maphash f key).

Lemma positions_in f key : filter_wf f -> Forall (in_bits (bf_words f)) (positions maphash f key).
Proof.
  intros W. unfold positions. destruct (hashPair maphash f key) as [a b]. apply Forall_map, Forall_true. intros i. unfold index, in_bits.
  destruct W as [Hm _]. pose proof (Z.mod_pos_bound (wrapu64 (a + wrapu64 (i * b))) (bf_mBits f)). lia.
Qed.

Lemma filterMaybeHas_marked f key : filter_wf f -> marks f key -> filterMaybeHas maphash f key = Ok true.
Proof.
  intros W Hm. unfold filterMaybeHas. case_bool_decide; [done|]. apply testAll_true; [|done].
  eapply Forall_impl; [by apply positions_in | by intros i []].
Qed.

Lemma filterMaybeHas_total f key : filter_wf f -> exists v, filterMaybeHas maphash f key = Ok v.
Proof. intros W. unfold filterMaybeHas. case_bool_decide; [eauto|]. by apply testAll_total, positions_in. Qed.

(** [filterAdd] marks its key, keeps the marks and never fails. *)
Lemma filterAdd_spec f key : filter_wf f ->
  exists f', filterAdd maphash key f = (Ok tt, f') /\ filter_wf f' /\ (key <> "" -> marks f' key) /\ forall k, marks f k -> marks f' k.
Proof.
  intros W. unfold filterAdd. case_bool_decide as Hk; [by exists f|].
  destruct (orAll_spec (positions maphash f key) (bf_words f)) as (ws & E & L & U & S & K); [by apply positions_in | apply W|].
  unfold mlift. rewrite E. eexists. split; [reflexivity|]. split; [|split].
  - destruct W as [Hm _]. split; cbn; [by rewrite L | done].
  - done.
  - intros k Hm. unfold marks in *. cbn [set_words bf_words]. eapply Forall_impl; [exact Hm | auto].
Qed.

(** A well-formed pair of filters. *)
Record idem_wf (b : idempotencyBloom) : Prop := {
  iw_room : roomy (ib_n b) (ib_fpRate b);
  iw_curr : filter_wf (is_curr (ib_state b));
  iw_prev : filter_wf (is_prev (ib_state b))
}.

Lemma newIdempotencyBloom_wf n p every now s1 s2 s3 s4 : let b := newIdempotencyBloom flog cvt_overflow n p every now s1 s2 s3 s4 in
  roomy (ib_n b) (ib_fpRate b) -> idem_wf b /\ 0 < ib_rotateEvery b.
Proof.
  intros b Hr. split; [split; [done|by apply newBloomFilter_wf..]|]. unfold b, newIdempotencyBloom. cbn. destruct (Z.leb_spec every 0); unfold second; lia.
Qed.

Abbreviation rotate := (rotateIfNeeded flog cvt_overflow).
Abbreviation run := (run_calls flog cvt_overflow maphash).

Lemma rotate_wf now seeds b : idem_wf b -> idem_wf (rotate now seeds b).
Proof. intros [Hr Hc Hp]. unfold rotateIfNeeded. destruct (_ <? _); [done|]. split; cbn; [done | by apply newBloomFilter_wf | done]. Qed.

(** The key is in the current filter, or in the previous one until [limit]. *)
Definition held (limit : Z) (key : string) (b : idempotencyBloom) : Prop :=
  idem_wf b /\ (marks (is_curr (ib_state b)) key \/ marks (is_prev (ib_state b)) key /\ limit <= is_nextRotate (ib_state b)).

Lemma rotate_held limit key now seeds b : held limit key b -> limit <= now + ib_rotateEvery b -> now < limit -> held limit key (rotate now seeds b).
Proof.
  intros [W Hk] Hl Hn. split; [by apply rotate_wf|]. unfold rotateIfNeeded. destruct (Z.ltb_spec now (is_nextRotate (ib_state b))); [done|]. cbn.
  right. destruct Hk as [Hk|[_ Hk]]; [done | lia].
Qed.

Lemma Add_rotated now seeds key b : Add flog cvt_overflow maphash now seeds key b =
  if bool_decide (key = "") then (Ok tt, b)
  else let b' := rotate now seeds b in let '(r, f) := filterAdd maphash key (is_curr (ib_state b')) in (r, set_curr f b').
Proof. unfold Add, mlift. by case_bool_decide. Qed.

Lemma call_held limit key c b : held limit key b -> limit <= call_time c + ib_rotateEvery b -> call_time c < limit ->
  held limit key (run_call flog cvt_overflow maphash c b) /\ ib_rotateEvery (run_call flog cvt_overflow maphash c b) = ib_rotateEvery b.
Proof.
  intros Hh Hl Hn. assert (forall now seeds, ib_rotateEvery (rotate now seeds b) = ib_rotateEvery b) as Hev by (intros; unfold rotateIfNeeded; by destruct (_ <? _)).
  destruct c as [now seeds k|now seeds k]; cbn [run_call call_time] in *.
  - unfold MaybeHas. case_bool_decide; [done|]. cbn [snd]. split; [by apply rotate_held | apply Hev].
  - rewrite Add_rotated. case_bool_decide; [done|]. cbv zeta. pose proof (rotate_held limit key now seeds b Hh Hl Hn) as [[Wr Wc Wp] Hk].
    destruct (filterAdd_spec (is_curr (ib_state (rotate now seeds b))) k Wc) as (f & -> & Wf & _ & Hkeep). cbn [snd]. split; [|apply Hev].
    split; [done|]. cbn. destruct Hk as [Hk|Hk]; [left; by apply Hkeep | by right].
Qed.

Lemma calls_held limit key cs b : held limit key b -> (forall c, c ∈ cs -> limit <= call_time c + ib_rotateEvery b /\ call_time c < limit) ->
  held limit key (run cs b).
Proof.
  revert b. induction cs as [|c cs IH]; intros b Hh Hcs; [done|]. destruct (Hcs c ltac:(by constructor)) as [Hl Hn].
  destruct (call_held limit key c b Hh Hl Hn) as [Hh' Hev]. apply IH; [done|]. intros c' Hc'. rewrite Hev. apply Hcs. by constructor.
Qed.

(** Calls on well-formed filters return and leave them well-formed. *)
Lemma MaybeHas_total now seeds key b : idem_wf b -> exists v b', MaybeHas flog cvt_overflow maphash now seeds key b = (Ok v, b') /\ idem_wf b'.
Proof.
  intros W. unfold MaybeHas. case_bool_decide; [by exists true, b|]. pose proof (rotate_wf now seeds b W) as W'. cbv zeta.
  destruct (filterMaybeHas_total (is_curr (ib_state (rotate now seeds b))) key (iw_curr _ W')) as [[] ->]; [by eexists _, _|].
  destruct (filterMaybeHas_total (is_prev (ib_state (rotate now seeds b))) key (iw_prev _ W')) as [v ->]. by eexists _, _.
Qed.

Lemma Add_total now seeds key b : idem_wf b -> exists b', Add flog cvt_overflow maphash now seeds key b = (Ok tt, b') /\ idem_wf b'.
Proof.
  intros W. rewrite Add_rotated. case_bool_decide; [by exists b|]. pose proof (rotate_wf now seeds b W) as [Wr Wc Wp]. cbv zeta.
  destruct (filterAdd_spec (is_curr (ib_state (rotate now seeds b))) key Wc) as (f & -> & Wf & _). eexists. split; [done|]. by split.
Qed.

(** A key that was added is reported by every call within the rotation
    interval, whatever other calls ran in between. *)
Theorem added_key_reported b now seeds key cs now' seeds' :
  idem_wf b -> 0 < ib_rotateEvery b ->
  (forall c, c ∈ cs -> now <= call_time c < now + ib_rotateEvery b) -> now <= now' < now + ib_rotateEvery b ->
  fst (MaybeHas flog cvt_overflow maphash now' seeds' key (run cs (snd (Add flog cvt_overflow maphash now seeds key b)))) = Ok true.
Proof.
  intros W Hev Hcs Hn. unfold MaybeHas. case_bool_decide as Hk; [done|]. rewrite Add_rotated, bool_decide_eq_false_2 by done. cbv zeta.
  destruct (rotate_wf now seeds b W) as [Wr Wc Wp]. destruct (filterAdd_spec (is_curr (ib_state (rotate now seeds b))) key Wc) as (f & -> & Wf & Hm & _).
  cbn [snd fst]. set (b1 := set_curr f _). assert (ib_rotateEvery b1 = ib_rotateEvery b) as E1 by (cbn; unfold rotateIfNeeded; by destruct (_ <? _)).
  assert (held (now + ib_rotateEvery b) key b1) as H1 by (split; [done | left; by apply Hm]).
  assert (held (now + ib_rotateEvery b) key (run cs b1) /\ ib_rotateEvery (run cs b1) = ib_rotateEvery b) as [H2 E2].
  { split; [apply calls_held; [done|]; intros c Hc; rewrite E1; specialize (Hcs c Hc); lia|]. rewrite <- E1. clear -H1 Hcs E1. revert H1 E1. generalize b1.
    induction cs as [|c cs IH]; intros b2 Hh E2; [done|]. pose proof (Hcs c ltac:(by constructor)).
    destruct (call_held (now + ib_rotateEvery b) key c b2 Hh) as [Hh' E']; [lia|lia|]. cbn [run_calls fold_left]. rewrite <- E'. apply IH; [|done|congruence].
    intros c' Hc'. apply Hcs. by constructor. }
  destruct (rotate_held (now + ib_rotateEvery b) key now' seeds' (run cs b1) H2) as [[Wr3 Wc3 Wp3] Hk3]; [lia|lia|].
  destruct Hk3 as [Hk3|[Hk3 _]]; [by rewrite filterMaybeHas_marked|].
  destruct (filterMaybeHas_total (is_curr (ib_state (rotate now' seeds' (run cs b1)))) key Wc3) as [[] ->]; [done|]. by rewrite filterMaybeHas_marked.
Qed.
End facts.

(** A filter for a thousand keys with the default rate, [-4.605170185988091]
    being the logarithm of [0.01]: it is reported up to the second rotation and
    forgotten after it. *)
Lemma idem_run :
  let flog _ := S754_finite true 5184960683398421 (-50) in
  let hash seed key := seed * 31 + Z.of_nat (String.length key) in
  let b := newIdempotencyBloom flog 0 1000 (float64 0) 0 0 1 2 3 4 in
  let b' := snd (Add flog 0 hash (10 * second) (5, 6) "key" b) in
  roomy flog 0 (ib_n b) (ib_fpRate b) /\ bf_mBits (is_curr (ib_state b)) = 9586 /\ bf_k (is_curr (ib_state b)) = 7 /\
  fst (MaybeHas flog 0 hash (1809 * second) (7, 8) "key" b') = Ok true /\
  fst (MaybeHas flog 0 hash (3601 * second) (9, 10) "key" (snd (MaybeHas flog 0 hash (1801 * second) (7, 8) "key" b'))) = Ok false.
Proof. vm_compute. split_and!; reflexivity. Qed.
