(* ===== verification/LeaseTable.v ===== *)
(** The in-memory lease table ([src/internal/repository/pebble/lease_table.go]).

    The Go map is a [gmap] from task id to lease.  The read-write mutex makes
    every method atomic, so each is one function.  Go iterates a map in an
    unspecified order: [SnapshotExpired] takes the order as an argument, and
    its theorems hold for every order. *)

From S2P Require Import Prelude.

Record leaseEntry := mkLease {
  le_workerID : string;
  le_cmd : string;
  le_tenantID : string;
  le_untilU : Z
}.

#[export] Instance leaseEntry_eq_dec : EqDecision leaseEntry.
Proof. solve_decision. Defined.

Module leaseTable.

Definition t := gmap string leaseEntry.

Definition newLeaseTable : gmap string leaseEntry := ∅.

Definition Set_ (taskID workerID cmd tenantID : string) (untilU : Z)
  (m : gmap string leaseEntry) : gmap string leaseEntry :=
  <[taskID := mkLease workerID cmd tenantID untilU]> m.

Definition Delete (taskID : string) (m : gmap string leaseEntry) : gmap string leaseEntry :=
  delete taskID m.

Definition Get (taskID : string) (m : gmap string leaseEntry) : option leaseEntry := m !! taskID.

(** [Extend] reports whether [workerID] still owned the entry. *)
Definition Extend (taskID workerID : string) (untilU : Z) (m : gmap string leaseEntry)
  : bool * gmap string leaseEntry :=
  match m !! taskID with
  | Some e =>
      if bool_decide (le_workerID e = workerID) then
        (true, <[taskID := mkLease (le_workerID e) (le_cmd e) (le_tenantID e) untilU]> m)
      else (false, m)
  | None => (false, m)
  end.

(** The scan loop: append expired ids and stop as soon as [limit] are held. *)
Fixpoint snapshot_loop (l : list (string * leaseEntry)) (now : Z) (room : nat) : list string :=
  match l, room with
  | [], _ | _, O => []
  | (id, e) :: l', S room' =>
      if le_untilU e <=? now then id :: snapshot_loop l' now room'
      else snapshot_loop l' now room
  end.

Definition SnapshotExpired (order : list (string * leaseEntry) -> list (string * leaseEntry))
  (now limit : Z) (m : gmap string leaseEntry) : list string :=
  let limit := if limit <=? 0 then 256 else limit in
  snapshot_loop (order (map_to_list m)) now (Z.to_nat limit).

Definition Len (m : gmap string leaseEntry) : nat := size m.

(** ** Properties *)

Lemma Extend_dom id w u m i : is_Some (m !! i) -> is_Some (snd (Extend id w u m) !! i).
Proof.
  intros Hi. unfold Extend. destruct (m !! id) eqn:E; [|done]. case_bool_decide; [|done]. simpl.
  destruct (decide (id = i)) as [<-|]; [rewrite lookup_insert_eq; by eexists | by rewrite lookup_insert_ne].
Qed.

Lemma Extend_true id w u m m' :
  Extend id w u m = (true, m') ->
  exists e, m !! id = Some e /\ le_workerID e = w /\
    m' = <[id := mkLease w (le_cmd e) (le_tenantID e) u]> m.
Proof.
  unfold Extend. destruct (m !! id) as [e|]; [|done]. case_bool_decide as Hw; [|done].
  intros H. injection H as <-. subst w. eauto.
Qed.

Lemma Extend_false id w u m m' :
  Extend id w u m = (false, m') ->
  m' = m /\ forall e, m !! id = Some e -> le_workerID e <> w.
Proof.
  unfold Extend. destruct (m !! id) as [e|] eqn:E.
  - case_bool_decide as Hw; [done|]. intros H. injection H as <-. split; [done|]. congruence.
  - intros H. injection H as <-. split; [done|]. congruence.
Qed.

(** [Extend] never creates or removes an entry, nor changes its owner. *)
Lemma Extend_owner id w u m k :
  le_workerID <$> snd (Extend id w u m) !! k = le_workerID <$> m !! k.
Proof.
  unfold Extend. destruct (m !! id) as [e|] eqn:E; [|done].
  case_bool_decide; [|done]. simpl. destruct (decide (k = id)) as [->|].
  - by rewrite lookup_insert_eq, E.
  - by rewrite lookup_insert_ne.
Qed.

Lemma snapshot_loop_sound l now room id :
  id ∈ snapshot_loop l now room -> exists e, (id, e) ∈ l /\ le_untilU e <= now.
Proof.
  revert room. induction l as [|[k e] l IH]; intros room H; simpl in H; [by apply elem_of_nil in H|].
  destruct room as [|room]; [by apply elem_of_nil in H|].
  destruct (Z.leb_spec (le_untilU e) now).
  - apply elem_of_cons in H as [->|H]; [exists e; split; [constructor | done]|].
    destruct (IH _ H) as (e' & ? & ?). exists e'. split; [by constructor | done].
  - destruct (IH _ H) as (e' & ? & ?). exists e'. split; [by constructor | done].
Qed.

Lemma snapshot_loop_length l now room : (length (snapshot_loop l now room) <= room)%nat.
Proof.
  revert room. induction l as [|[k e] l IH]; intros [|room]; simpl; try lia.
  destruct (le_untilU e <=? now); simpl; [specialize (IH room) | specialize (IH (S room))]; lia.
Qed.

Lemma snapshot_loop_NoDup l now room : NoDup l.*1 -> NoDup (snapshot_loop l now room).
Proof.
  revert room. induction l as [|[k e] l IH]; intros [|room] Hn; simpl; try constructor.
  simpl in Hn. apply NoDup_cons in Hn as [Hk Hn]. destruct (le_untilU e <=? now); [|by apply IH].
  constructor; [|by apply IH]. intros Hin. destruct (snapshot_loop_sound _ _ _ _ Hin) as (e' & He' & _).
  apply Hk. apply list_elem_of_fmap. by exists (k, e').
Qed.

(** A snapshot that did not fill up saw every expired lease. *)
Lemma snapshot_loop_complete l now room id e :
  (length (snapshot_loop l now room) < room)%nat ->
  (id, e) ∈ l -> le_untilU e <= now -> id ∈ snapshot_loop l now room.
Proof.
  revert room. induction l as [|[k e'] l IH]; intros room Hl Hin He; simpl in *.
  { by apply elem_of_nil in Hin. }
  destruct room as [|room]; [lia|]. apply elem_of_cons in Hin as [Heq|Hin].
  - injection Heq as -> ->. rewrite (proj2 (Z.leb_le _ _)) by done. constructor.
  - destruct (le_untilU e' <=? now); simpl in *.
    + constructor. apply IH; [lia | done | done].
    + by apply IH.
Qed.

(** A snapshot of the expired leases, taken in any iteration order of the
    map, holds only ids whose lease has run out, no id twice, at most the
    limit (256 when none is given); and when it is not full it holds every
    expired id. *)
Theorem SnapshotExpired_spec order now limit m :
  (forall l, order l ≡ₚ l) ->
  let ids := SnapshotExpired order now limit m in
  let bound := if limit <=? 0 then 256 else limit in
  (forall id, id ∈ ids -> exists e, m !! id = Some e /\ le_untilU e <= now) /\ NoDup ids /\
  Z.of_nat (length ids) <= bound /\
  (Z.of_nat (length ids) < bound -> forall id e, m !! id = Some e -> le_untilU e <= now -> id ∈ ids).
Proof.
  intros Ho ids bound. unfold ids, SnapshotExpired. fold bound.
  assert (0 < bound) as Hb by (unfold bound; destruct (Z.leb_spec limit 0); lia).
  split_and!.
  - intros id Hid. destruct (snapshot_loop_sound _ _ _ _ Hid) as (e & He & Hle). exists e. split; [|done].
    apply elem_of_map_to_list. by rewrite <- (Ho (map_to_list m)).
  - apply snapshot_loop_NoDup. rewrite (Ho (map_to_list m)). apply NoDup_fst_map_to_list.
  - pose proof (snapshot_loop_length (order (map_to_list m)) now (Z.to_nat bound)). lia.
  - intros Hl id e He Hle. apply (snapshot_loop_complete _ _ _ _ e); [lia | | done].
    rewrite (Ho (map_to_list m)). by apply elem_of_map_to_list.
Qed.

Lemma SnapshotExpired_spec_witness :
  "a" ∈ SnapshotExpired (fun l => rev l) 100 0
          (<["a" := mkLease "w" "c" "t" 100]> (<["b" := mkLease "w" "c" "t" 101]> ∅)).
Proof.
  destruct (SnapshotExpired_spec (fun l => rev l) 100 0
    (<["a" := mkLease "w" "c" "t" 100]> (<["b" := mkLease "w" "c" "t" 101]> ∅))
    (fun l => symmetry (Permutation_rev l))) as (_ & _ & _ & Hc).
  apply (Hc ltac:(vm_compute; reflexivity) "a" (mkLease "w" "c" "t" 100)); [reflexivity | simpl; lia].
Defined.

End leaseTable.
