(* ===== verification/PebbleDB.v ===== *)
(** The store wrapper ([src/internal/repository/pebble/db.go]): batches, the
    replication switch, the sequence counter and the group-commit loop.

    The Pebble engine is outside the repository.  It is the class [Pebble]:
    point reads, atomic commits of a batch and ordered scans, each of which
    can fail.  [PebbleLaws] states what a successful operation means in terms
    of the map of live keys ([contents]); [PebbleReliable] adds that no
    operation fails, for the theorems that say an operation succeeds.  A
    [Replicator] (the Raft layer) is an optional delegate for writes. *)

From S2P Require Import Prelude GoTime Domain Keys LeaseTable.

(** ** Batches *)

Inductive kvop :=
  | OpSet (k v : string)
  | OpDelete (k : string).

(** The operations of a [pebble.Batch] in the order of the calls. *)
Abbreviation batch := (list kvop).

Definition apply_op (m : gmap string string) (o : kvop) : gmap string string :=
  match o with
  | OpSet k v => <[k := v]> m
  | OpDelete k => delete k m
  end.

Definition apply_batch (b : batch) (m : gmap string string) : gmap string string :=
  fold_left apply_op b m.

Lemma apply_batch_nil m : apply_batch [] m = m.
Proof. done. Qed.
Lemma apply_batch_cons o b m : apply_batch (o :: b) m = apply_batch b (apply_op m o).
Proof. done. Qed.
Lemma apply_batch_app b1 b2 m : apply_batch (b1 ++ b2) m = apply_batch b2 (apply_batch b1 m).
Proof. apply fold_left_app. Qed.

(** One batch after the other is their concatenation. *)
Lemma apply_batch_concat l m : apply_batch (concat l) m = fold_left (fun m b => apply_batch b m) l m.
Proof. revert m. induction l as [|b l IH]; intros m; [done|]. cbn [concat fold_left]. by rewrite apply_batch_app. Qed.

(** What a batch leaves at a key: [Some] of what it wrote last. *)
Fixpoint touched (b : batch) (k : string) : option (option string) :=
  match b with
  | [] => None
  | o :: b' =>
      match touched b' k with
      | Some r => Some r
      | None => match o with
                | OpSet k' v => if decide (k' = k) then Some (Some v) else None
                | OpDelete k' => if decide (k' = k) then Some None else None
                end
      end
  end.

Lemma batch_lookup b m k : apply_batch b m !! k = match touched b k with Some r => r | None => m !! k end.
Proof.
  revert m. induction b as [|o b IH]; intros m; [done|]. rewrite apply_batch_cons, IH. cbn [touched].
  destruct (touched b k); [done|]. destruct o as [k' v|k']; cbn [apply_op]; destruct (decide (k' = k)) as [<-|Hne];
    [by rewrite lookup_insert_eq | by rewrite lookup_insert_ne | by rewrite lookup_delete_eq | by rewrite lookup_delete_ne].
Qed.

Lemma touched_app b1 b2 k : touched (b1 ++ b2) k = match touched b2 k with Some r => Some r | None => touched b1 k end.
Proof.
  induction b1 as [|o b1 IH]; cbn; [by destruct (touched b2 k)|]. rewrite IH. by destruct (touched b2 k).
Qed.

(** ** The storage engine *)

Class Pebble (P : Type) := {
  p_get : P -> string -> res string;
  p_commit : P -> batch -> res P;
  p_iter : P -> string -> option string -> res (list string)
}.

Class PebbleLaws (P : Type) `{Pebble P} := {
  contents : P -> gmap string string;
  p_get_ok p k v : p_get p k = Ok v -> contents p !! k = Some v;
  p_get_miss p k e : p_get p k = Err e -> is_not_found e = true -> contents p !! k = None;
  p_commit_ok p b p' : p_commit p b = Ok p' -> contents p' = apply_batch b (contents p);
  p_iter_ok p lo hi ks : p_iter p lo hi = Ok ks -> ks = range_keys (contents p) lo hi
}.

(** Point reads do not fail. *)
Class PebbleReads (P : Type) `{PebbleLaws P} : Prop := {
  p_get_total p k :
    p_get p k = match contents p !! k with Some v => Ok v | None => Err ErrNotFound end
}.

Class PebbleReliable (P : Type) `{PebbleLaws P} : Prop := {
  reliable_reads :: PebbleReads P;
  p_commit_total p b : exists p', p_commit p b = Ok p';
  p_iter_total p lo hi : p_iter p lo hi = Ok (range_keys (contents p) lo hi)
}.

(** An in-memory engine that never fails: the laws hold of it, and it
    evaluates. *)
Module memstore.

Definition store : Type := gmap string string.

#[global] Instance engine : Pebble store := {
  p_get m k := match m !! k with Some v => Ok v | None => Err ErrNotFound end;
  p_commit m b := Ok (apply_batch b m);
  p_iter m lo hi := Ok (range_keys m lo hi)
}.

Lemma engine_get_ok (m : store) k v : p_get m k = Ok v -> m !! k = Some v.
Proof. unfold p_get, engine. destruct (m !! k); congruence. Qed.

Lemma engine_get_miss (m : store) k e : p_get m k = Err e -> is_not_found e = true -> m !! k = None.
Proof. unfold p_get, engine. destruct (m !! k); congruence. Qed.

#[global] Instance engine_laws : PebbleLaws store := {
  contents m := m;
  p_get_ok := engine_get_ok;
  p_get_miss := engine_get_miss;
  p_commit_ok p b p' H := f_equal (from_option id ∅) (f_equal (fun r => match r with Ok x => Some x | Err _ => None end) (eq_sym H));
  p_iter_ok p lo hi ks H := f_equal (from_option id []) (f_equal (fun r => match r with Ok x => Some x | Err _ => None end) (eq_sym H))
}.

#[global] Instance engine_reliable : PebbleReliable store.
Proof. split; intros; [done | by eexists | done]. Qed.

End memstore.

(** The replication delegate: whether this node leads, the leader's HTTP
    address, and the shipping of a batch, which on success has been applied to
    the local engine. *)
Record Replicator (P : Type) := mkReplicator {
  IsLeader : bool;
  LeaderHTTPAddr : string;
  Replicate : P -> batch -> res P
}.
Arguments mkReplicator {P}.
Arguments IsLeader {P}.
Arguments LeaderHTTPAddr {P}.
Arguments Replicate {P}.

(** ** The [DB] handle *)

Record DB (P : Type) := mkDB {
  db_pebble : P;
  db_seq : Z;
  db_repl : option (Replicator P);
  db_stopped : bool;
  db_leases : gmap string leaseEntry
}.
Arguments mkDB {P}.
Arguments db_pebble {P}.
Arguments db_seq {P}.
Arguments db_repl {P}.
Arguments db_stopped {P}.
Arguments db_leases {P}.

Section db.
Context {P : Type} `{Pebble P}.

Definition set_pebble (p : P) (d : DB P) : DB P :=
  mkDB p (db_seq d) (db_repl d) (db_stopped d) (db_leases d).
Definition set_seq (n : Z) (d : DB P) : DB P :=
  mkDB (db_pebble d) n (db_repl d) (db_stopped d) (db_leases d).
Definition set_leases (l : gmap string leaseEntry) (d : DB P) : DB P :=
  mkDB (db_pebble d) (db_seq d) (db_repl d) (db_stopped d) l.

Definition AttachReplicator (r : Replicator P) (d : DB P) : DB P :=
  mkDB (db_pebble d) (db_seq d) (Some r) (db_stopped d) (db_leases d).

Definition RequireWriteLeader : M (DB P) unit := fun d =>
  match db_repl d with
  | Some r => if IsLeader r then (Ok tt, d) else (Err (NotLeaderError (LeaderHTTPAddr r)), d)
  | None => (Ok tt, d)
  end.

Definition NextSeq : M (DB P) Z := fun d =>
  let n := wrapu64 (db_seq d + 1) in (Ok n, set_seq n d).

Definition Get (key : string) : M (DB P) string := fun d => (p_get (db_pebble d) key, d).

Definition Has (key : string) : M (DB P) bool := fun d =>
  match p_get (db_pebble d) key with
  | Ok _ => (Ok true, d)
  | Err e => if bool_decide (e = ErrNotFound) then (Ok false, d) else (Err e, d)
  end.

(** Hand a batch to the engine or to the replicator. *)
Definition ship (w : P -> batch -> res P) (b : batch) : M (DB P) unit := fun d =>
  match w (db_pebble d) b with
  | Ok p' => (Ok tt, set_pebble p' d)
  | Err e => (Err e, d)
  end.

Definition write_through (b : batch) : M (DB P) unit := fun d =>
  match db_repl d with
  | Some r => (RequireWriteLeader ;;! ship (Replicate r) b) d
  | None => ship p_commit b d
  end.

Definition Set_ (key value : string) : M (DB P) unit := write_through [OpSet key value].

Definition Delete (key : string) : M (DB P) unit := write_through [OpDelete key].

(** A submitter sees one synchronous atomic commit; a closed handle refuses
    it.  The loop that merges concurrent submitters is below. *)
Definition CommitBatch (b : batch) : M (DB P) unit := fun d =>
  match db_repl d with
  | Some r => (RequireWriteLeader ;;! ship (Replicate r) b) d
  | None => if db_stopped d then (Err (ErrText "db closed"), d) else ship p_commit b d
  end.

(** An iterator's keys, [First] to the end of the range. *)
Definition Iter (r : string * option string) : M (DB P) (list string) := fun d =>
  (p_iter (db_pebble d) (fst r) (snd r), d).

Definition Health : M (DB P) unit := fun d =>
  match p_get (db_pebble d) "codeq/__health__" with
  | Ok _ => (Ok tt, d)
  | Err e => if bool_decide (e = ErrNotFound) then (Ok tt, d) else (Err e, d)
  end.

(** The sequence number in a key of the queue range, if it has the marker
    and is long enough. *)
Definition pending_seq (k : string) : option Z :=
  let idx := indexOf k segPending in
  if idx <? 0 then None
  else
    let seqStart := idx + slen segPending + 1 + 1 in
    if slen k <? seqStart + 8 then None
    else Some (beUint64 (take_s 8 (drop_s (Z.to_nat seqStart) k))).

Definition recoverSeq : M (DB P) unit :=
  let! ks := Iter (pQueue, prefixUpper pQueue) in
  mmod (set_seq (fold_left (fun m k => match pending_seq k with
                                       | Some s => if m <? s then s else m
                                       | None => m
                                       end) ks 0)).

(** [Open] on an engine that opened: fresh volatile state, then [recoverSeq]. *)
Definition Open (p : P) : res (DB P) :=
  match recoverSeq (mkDB p 0 None false leaseTable.newLeaseTable) with
  | (Ok _, d) => Ok d
  | (Err e, _) => Err (ErrWrap "recover seq" e)
  end.
End db.

(** ** What the operations do to the stored map *)

Section specs.
Context {P : Type} `{PebbleLaws P}.
Implicit Types (d : DB P).

(** An error whose text is not one of the repository's own refusals: the
    claim path tells them apart by their text. *)
Definition plain (e : error) : Prop :=
  contains_s (error_text e) "not-in-progress" = false /\ contains_s (error_text e) "not-found" = false.

(** The write side behind a handle: a replicated batch, once accepted, has
    been applied, and its errors are plain. *)
Definition handle_ok (d : DB P) : Prop :=
  (forall (p : P) b e, p_commit p b = Err e -> plain e) /\
  match db_repl d with
  | Some r =>
      (forall p b p', Replicate r p b = Ok p' -> contents p' = apply_batch b (contents p)) /\
      (forall p b e, Replicate r p b = Err e -> plain e) /\ plain (NotLeaderError (LeaderHTTPAddr r))
  | None => True
  end.

Definition stored (d : DB P) : gmap string string := contents (db_pebble d).

Lemma stored_leases l d : stored (set_leases l d) = stored d.
Proof. done. Qed.
Lemma stored_seq n d : stored (set_seq n d) = stored d.
Proof. done. Qed.

(** [d'] is [d] after the batch [b]. *)
Record committed (b : batch) (d d' : DB P) : Prop := {
  co_stored : stored d' = apply_batch b (stored d);
  co_seq : db_seq d' = db_seq d;
  co_repl : db_repl d' = db_repl d;
  co_leases : db_leases d' = db_leases d
}.

Lemma committed_handle b d d' : committed b d d' -> handle_ok d -> handle_ok d'.
Proof. intros [_ _ Hr _]. unfold handle_ok. by rewrite Hr. Qed.

Lemma wp_ship w b Q d :
  (forall p', w (db_pebble d) b = Ok p' -> contents p' = apply_batch b (stored d)) ->
  (forall e, w (db_pebble d) b = Err e -> plain e) ->
  (forall d', committed b d d' -> Q (Ok tt) d') -> (forall e, plain e -> Q (Err e) d) ->
  wp (ship w b) Q d.
Proof.
  intros Hw He HOk HErr. unfold wp, ship. destruct (w (db_pebble d) b) as [p'|e] eqn:E; simpl; [|auto].
  apply HOk. split; try done. by apply Hw.
Qed.

Lemma wp_replicated r b Q d :
  db_repl d = Some r -> handle_ok d ->
  (forall d', committed b d d' -> Q (Ok tt) d') -> (forall e, plain e -> Q (Err e) d) ->
  wp (RequireWriteLeader ;;! ship (Replicate r) b) Q d.
Proof.
  intros Hr Hok HOk HErr. apply wp_bind. unfold wp at 1, RequireWriteLeader. rewrite Hr.
  unfold handle_ok in Hok. rewrite Hr in Hok. destruct Hok as (_ & Happ & Hpl & Hnl).
  destruct (IsLeader r); simpl; [|auto]. apply wp_ship; [intros p'; apply Happ | intros e; apply Hpl | done | done].
Qed.

Lemma wp_write_through b Q d :
  handle_ok d ->
  (forall d', committed b d d' -> Q (Ok tt) d') -> (forall e, plain e -> Q (Err e) d) ->
  wp (write_through b) Q d.
Proof.
  intros Hok HOk HErr. unfold write_through, wp. destruct (db_repl d) as [r|] eqn:Hr.
  - by apply wp_replicated.
  - apply wp_ship; [intros p'; apply p_commit_ok | intros e; apply Hok | done | done].
Qed.

Lemma wp_CommitBatch b Q d :
  handle_ok d ->
  (forall d', committed b d d' -> Q (Ok tt) d') -> (forall e, plain e -> Q (Err e) d) ->
  wp (CommitBatch b) Q d.
Proof.
  intros Hok HOk HErr. unfold CommitBatch, wp. destruct (db_repl d) as [r|] eqn:Hr.
  - by apply wp_replicated.
  - destruct (db_stopped d); [by apply HErr|].
    apply wp_ship; [intros p'; apply p_commit_ok | intros e; apply Hok | done | done].
Qed.

Lemma wp_Get k Q d :
  (forall v, stored d !! k = Some v -> Q (Ok v) d) ->
  (forall e, (is_not_found e = true -> stored d !! k = None) -> Q (Err e) d) ->
  wp (Get k) Q d.
Proof.
  intros HOk HErr. unfold wp, Get. simpl. destruct (p_get (db_pebble d) k) as [v|e] eqn:E.
  - apply HOk. by apply p_get_ok.
  - apply HErr. intros. by eapply p_get_miss.
Qed.

Lemma wp_Get_reads `{!PebbleReads P} k Q d :
  (forall v, stored d !! k = Some v -> Q (Ok v) d) ->
  (stored d !! k = None -> Q (Err ErrNotFound) d) ->
  wp (Get k) Q d.
Proof.
  intros HOk HErr. unfold wp, Get. simpl. rewrite p_get_total. unfold stored in *.
  destruct (contents (db_pebble d) !! k) as [v|] eqn:E; auto.
Qed.

Lemma wp_Iter r Q d :
  (forall ks, ks = range_keys (stored d) (fst r) (snd r) -> Q (Ok ks) d) ->
  (forall e, Q (Err e) d) ->
  wp (Iter r) Q d.
Proof.
  intros HOk HErr. unfold wp, Iter. simpl. destruct (p_iter _ _ _) as [ks|e] eqn:E; [|auto].
  apply HOk. by apply p_iter_ok.
Qed.

Lemma wp_NextSeq (Q : res Z -> DB P -> Prop) d :
  (forall n, uint64 n -> Q (Ok n) (set_seq n d)) -> wp NextSeq Q d.
Proof.
  intros HQ. unfold wp, NextSeq. simpl. apply HQ. unfold uint64. apply wrapu64_range.
Qed.
End specs.

(** ** Group commit *)

(** [commitLoop] merges up to [maxMergeBatch] queued batches into one and
    commits it once.  [apply_err b] is the failure, if any, of merging [b]
    ([Batch.Apply]); a batch that cannot be merged is answered at once and
    ends the merge. *)
Definition maxMergeBatch : nat := 64.

Section commit_loop.
Context {P : Type} `{Pebble P}.
Variable apply_err : batch -> option error.

(** The drain loop: the merged batch, how many more submitters joined, the
    error that stopped the merge, and what is left in the channel. *)
Fixpoint drain (room : nat) (merged : batch) (q : list batch)
  : batch * nat * option error * list batch :=
  match room, q with
  | S room', more :: q' =>
      match apply_err more with
      | Some e => (merged, O, Some e, q')
      | None => let '(m, n, oe, r) := drain room' (merged ++ more) q' in (m, S n, oe, r)
      end
  | _, _ => (merged, O, None, q)
  end.

(** One turn of the loop on a non-empty channel: the answers are in channel
    order, one per request taken. *)
Definition commit_round (p : P) (q : list batch) : P * list (res unit) * list batch :=
  match q with
  | [] => (p, [], [])
  | first :: q' =>
      match apply_err first with
      | Some e => (p, [Err e], q')
      | None =>
          let '(merged, n, oe, rest) := drain (maxMergeBatch - 1) first q' in
          let tail := match oe with Some e => [Err e] | None => [] end in
          match p_commit p merged with
          | Ok p' => (p', replicate (S n) (Ok tt) ++ tail, rest)
          | Err e => (p, replicate (S n) (Err e) ++ tail, rest)
          end
      end
  end.

Fixpoint commitLoop (fuel : nat) (p : P) (q : list batch) : P * list (res unit) * list batch :=
  match fuel, q with
  | S f, _ :: _ =>
      let '(p1, rs1, q1) := commit_round p q in
      let '(p2, rs2, q2) := commitLoop f p1 q1 in
      (p2, rs1 ++ rs2, q2)
  | _, _ => (p, [], q)
  end.

Lemma drain_spec room merged q :
  (forall b, b ∈ q -> apply_err b = None) ->
  exists n rest, drain room merged q = (merged ++ concat (take n q), n, None, rest)
    /\ rest = drop n q /\ (n <= length q)%nat /\ (n <= room)%nat.
Proof.
  revert merged q. induction room as [|room IH]; intros merged q Hq.
  { exists O, q. simpl. rewrite app_nil_r. repeat split; lia. }
  destruct q as [|more q]; simpl.
  { exists O, []. simpl. rewrite app_nil_r. repeat split; lia. }
  rewrite Hq by constructor.
  destruct (IH (merged ++ more) q) as (n & rest & -> & -> & ? & ?).
  { intros b Hb. apply Hq. by constructor. }
  exists (S n), (drop n q). simpl. rewrite app_assoc. repeat split; lia.
Qed.
End commit_loop.

Section group_commit.
Context {P : Type} `{PebbleReliable P}.

(** C24. Any number of queued batches, merged in groups, leaves the store as if
    each had been committed on its own in channel order, and every submitter
    is told it succeeded. *)
Lemma commitLoop_sequential fuel (p : P) q :
  (length q <= fuel)%nat ->
  exists p', commitLoop (fun _ => None) fuel p q = (p', replicate (length q) (Ok tt), [])
    /\ contents p' = fold_left (fun m b => apply_batch b m) q (contents p).
Proof.
  revert p q. induction fuel as [|fuel IH]; intros p [|b q] Hl; simpl in Hl; try lia;
    try (exists p; done).
  cbn [commitLoop]. unfold commit_round.
  destruct (drain_spec (fun _ => None) (maxMergeBatch - 1) b q) as (n & rest & -> & -> & Hn & _);
    [done|].
  destruct (p_commit_total p (b ++ concat (take n q))) as [p1 Hp1]. rewrite Hp1.
  destruct (IH p1 (drop n q)) as (p2 & -> & Hc); [rewrite length_drop; lia|].
  exists p2. split.
  - rewrite app_nil_r, <- replicate_add, length_drop.
    by replace (S n + (length q - n))%nat with (length (b :: q)) by (simpl; lia).
  - rewrite Hc, (p_commit_ok _ _ _ Hp1), apply_batch_app, apply_batch_concat, <- fold_left_app, take_drop. done.
Qed.
End group_commit.

Lemma commitLoop_sequential_witness :
  exists p', commitLoop (P := memstore.store) (fun _ => None) 2 ∅ [[OpSet "a" "1"]; [OpDelete "a"; OpSet "b" "2"]]
    = (p', [Ok tt; Ok tt], []) /\ contents p' = {["b" := "2"]}.
Proof.
  destruct (commitLoop_sequential (P := memstore.store) 2 ∅ [[OpSet "a" "1"]; [OpDelete "a"; OpSet "b" "2"]])
    as (p' & Hl & Hc); [simpl; lia|].
  exists p'. split; [exact Hl | rewrite Hc; vm_compute; reflexivity].
Defined.

(** A failed merged commit changes nothing, and every submitter of the group
    gets its error. *)
Lemma commit_round_failure {P} `{Pebble P} (p : P) b q e :
  (forall m, p_commit p m = Err e) ->
  let '(p', rs, rest) := commit_round (fun _ => None) p (b :: q) in
  p' = p /\ rest = drop (length rs - 1) q /\ rs = replicate (length rs) (Err e) /\ (0 < length rs)%nat.
Proof.
  intros He. unfold commit_round.
  destruct (drain_spec (fun _ => None) (maxMergeBatch - 1) b q) as (n & rest & -> & -> & ? & ?);
    [done|].
  rewrite He. rewrite app_nil_r, length_replicate. simpl. rewrite Nat.sub_0_r.
  repeat split; try done; lia.
Qed.
