(* ===== verification/RaftStore.v ===== *)
(** The durable side of the Raft layer: the log store
    ([src/internal/raft/log_store.go]) and the stable store
    ([src/internal/raft/stable_store.go]), both kept in the engine the state
    machine uses, under prefixes of their own.

    [PebbleRange] adds to the engine what only this layer uses, range deletes
    and scans with values.  [LogCodec] is the msgpack encoding of log entries,
    which is outside the repository. *)

From S2P Require Import Prelude GoTime Domain Keys PebbleDB.

(** ** The engine's range operations *)

Class PebbleRange (P : Type) := {
  p_delete_range : P -> string -> string -> res P;
  p_scan : P -> string -> option string -> res (list (string * string))
}.

(** The keys of [m] outside [[lo, hi)]. *)
Definition outside (lo hi : string) (m : gmap string string) : gmap string string :=
  filter (fun kv => ~ (sle lo kv.1 /\ slt kv.1 hi)) m.

(** The pairs of [m] in [[lo, hi)] in key order. *)
Definition range_pairs (m : gmap string string) (lo : string) (hi : option string) : list (string * string) :=
  map (fun k => (k, default "" (m !! k))) (range_keys m lo hi).

Class PebbleRangeLaws (P : Type) `{PebbleLaws P} `{!PebbleRange P} : Prop := {
  p_delete_range_ok p lo hi p' : p_delete_range p lo hi = Ok p' -> contents p' = outside lo hi (contents p);
  p_scan_ok p lo hi l : p_scan p lo hi = Ok l -> l = range_pairs (contents p) lo hi
}.

Class PebbleRangeReliable (P : Type) `{PebbleRangeLaws P} : Prop := {
  p_delete_range_total p lo hi : exists p', p_delete_range p lo hi = Ok p';
  p_scan_total p lo hi : p_scan p lo hi = Ok (range_pairs (contents p) lo hi)
}.

#[global] Instance memstore_range : PebbleRange memstore.store := {
  p_delete_range m lo hi := Ok (outside lo hi m);
  p_scan m lo hi := Ok (range_pairs m lo hi)
}.

#[global] Instance memstore_range_laws : PebbleRangeLaws memstore.store.
Proof. split; intros * E; cbn in E; by injection E as <-. Qed.

#[global] Instance memstore_range_reliable : PebbleRangeReliable memstore.store.
Proof. split; intros; [by eexists | done]. Qed.

(** ** Log entries *)

(** The fields of [hraft.Log] that are stored and read here; the type is a
    byte, of which only [LogCommand] is told apart. *)
Definition LogCommand : Z := 0.
Record Log := mkLog { lg_Index : Z; lg_Term : Z; lg_Type : Z; lg_Data : string }.

Class LogCodec := {
  msgpack_encode : Log -> res string;
  msgpack_decode : string -> res Log
}.

Class LogCodecLaws `{LogCodec} : Prop := {
  msgpack_roundtrip l v : msgpack_encode l = Ok v -> msgpack_decode v = Ok l
}.

Definition wrap_err {A} (msg : string) (r : res A) : res A :=
  match r with Ok a => Ok a | Err e => Err (ErrWrap msg e) end.

Definition lift_res {S A} (r : res A) : M S A := fun s => (r, s).

Module logStore.

Definition logKeyPrefix : string := "raft/log/".
Definition logKeyPrefixEnd : string := "raft/log0".

(** [hraft.ErrLogNotFound]. *)
Definition errLogNotFound : error := ErrExternal "log not found".

Definition logKey (index : Z) : string := logKeyPrefix +:+ be8 index.

Definition indexFromKey (key : string) : option Z :=
  if negb (has_prefix logKeyPrefix key) then None
  else
    let suffix := drop_s (String.length logKeyPrefix) key in
    if negb (String.length suffix =? 8)%nat then None else Some (beUint64 suffix).

(** The carry loop over the suffix, from its last byte; a suffix of [0xff]
    bytes wraps to zeros. *)
Fixpoint incr (s : string) : string * bool :=
  match s with
  | EmptyString => ("", true)
  | String a s' =>
      let '(s'', carry) := incr s' in
      if carry then
        let b := byte (ch a + 1) in (String b s'', ch b =? 0)
      else (String a s'', false)
  end.

Section ops.
Context {P : Type} `{Pebble P} `{!PebbleRange P} `{LogCodec}.

Definition encodeLog (log : Log) : res string := wrap_err "encode log" (msgpack_encode log).
Definition decodeLog (value : string) : res Log := wrap_err "decode log" (msgpack_decode value).

Definition boundIndex (pick : list string -> option string) : M P Z := fun p =>
  match p_iter p logKeyPrefix (Some logKeyPrefixEnd) with
  | Err e => (Err e, p)
  | Ok ks =>
      match pick ks with
      | None => (Ok 0, p)
      | Some k => match indexFromKey k with
                  | Some idx => (Ok idx, p)
                  | None => (Err (ErrText ("logStore: malformed key " +:+ k)), p)
                  end
      end
  end.

Definition FirstIndex : M P Z := boundIndex head.
Definition LastIndex : M P Z := boundIndex last.

Definition GetLog (index : Z) : M P Log := fun p =>
  match p_get p (logKey index) with
  | Err e => (Err (if is_not_found e then errLogNotFound else e), p)
  | Ok val => (decodeLog val, p)
  end.

Definition write (b : batch) : M P unit := fun p =>
  match p_commit p b with Ok p' => (Ok tt, p') | Err e => (Err e, p) end.

Definition StoreLog (log : Log) : M P unit :=
  let! enc := lift_res (encodeLog log) in
  write [OpSet (logKey (lg_Index log)) enc].

(** The batch; the first entry that does not encode ends the call. *)
Fixpoint encodeLogs (logs : list Log) : res batch :=
  match logs with
  | [] => Ok []
  | log :: logs' =>
      match encodeLog log with
      | Err e => Err e
      | Ok enc => match encodeLogs logs' with
                  | Ok b => Ok (OpSet (logKey (lg_Index log)) enc :: b)
                  | Err e => Err e
                  end
      end
  end.

Definition StoreLogs (logs : list Log) : M P unit :=
  match logs with
  | [] => mret tt
  | _ => let! b := lift_res (encodeLogs logs) in write b
  end.

Definition DeleteRange (min max : Z) : M P unit :=
  if max <? min then mthrow (ErrText "logStore.DeleteRange: min > max")
  else fun p =>
    let endNext := logKeyPrefix +:+ fst (incr (be8 max)) in
    match p_delete_range p (logKey min) endNext with
    | Ok p' => (Ok tt, p')
    | Err e => (Err e, p)
    end.
End ops.
End logStore.

Module stableStore.

Definition stableKeyPrefix : string := "raft/stable/".
Definition stableKey (key : string) : string := stableKeyPrefix +:+ key.

Section ops.
Context {P : Type} `{Pebble P}.

Definition Set_ (key val : string) : M P unit := logStore.write [OpSet (stableKey key) val].

(** A missing key is a nil value. *)
Definition Get (key : string) : M P (option string) := fun p =>
  match p_get p (stableKey key) with
  | Ok v => (Ok (Some v), p)
  | Err e => if is_not_found e then (Ok None, p) else (Err e, p)
  end.

Definition SetUint64 (key : string) (val : Z) : M P unit := Set_ key (be8 val).

(** A nil value is zero; a value of another length is refused. *)
Definition GetUint64 (key : string) : M P Z :=
  let! v := Get key in
  match v with
  | None => mret 0
  | Some v => if negb (String.length v =? 8)%nat
              then mthrow (ErrText ("stableStore.GetUint64: key " +:+ key))
              else mret (beUint64 v)
  end.
End ops.
End stableStore.

(** ** The log store is a finite map from indices to entries *)

Lemma succ_div_mod n A : 0 < A ->
  ((n + 1) mod A = 0 -> (n + 1) / A = n / A + 1) /\ ((n + 1) mod A <> 0 -> (n + 1) / A = n / A).
Proof.
  intros HA. pose proof (Z.div_mod n A ltac:(lia)). pose proof (Z.mod_pos_bound n A HA).
  pose proof (Z.div_mod (n + 1) A ltac:(lia)). pose proof (Z.mod_pos_bound (n + 1) A HA). split; intros; nia.
Qed.

(** The carry loop adds one to the number the suffix encodes. *)
Lemma incr_be w n :
  logStore.incr (be_bytes w n) = (be_bytes w (n + 1), (n + 1) mod 256 ^ Z.of_nat w =? 0).
Proof.
  induction w as [|w IH]; [cbn; by rewrite Z.mod_1_r|]. cbn [be_bytes logStore.incr]. rewrite IH.
  pose proof (pow256_pos w) as Hw. destruct (succ_div_mod n (256 ^ Z.of_nat w) Hw) as [Hc Hn].
  rewrite be_bytes_top, pow256_S, (Z.mul_comm 256). rewrite Z.rem_mul_r by lia.
  pose proof (Z.mod_pos_bound ((n + 1) / 256 ^ Z.of_nat w) 256 ltac:(lia)).
  pose proof (Z.mod_pos_bound (n + 1) (256 ^ Z.of_nat w) Hw).
  destruct (Z.eqb_spec ((n + 1) mod 256 ^ Z.of_nat w) 0) as [E|E].
  - assert (byte (n / 256 ^ Z.of_nat w mod 256 + 1) = byte (Z.shiftr (n + 1) (8 * Z.of_nat w))) as Eb.
    { apply ch_inj. rewrite be_bytes_top, ch_byte, Z.add_mod_idemp_l, Hc by lia. done. }
    rewrite Eb, be_bytes_top, E, Z.add_0_l. f_equal.
    destruct (Z.eqb_spec ((n + 1) / 256 ^ Z.of_nat w mod 256) 0), (Z.eqb_spec (256 ^ Z.of_nat w * ((n + 1) / 256 ^ Z.of_nat w mod 256)) 0); nia.
  - assert (byte (Z.shiftr n (8 * Z.of_nat w)) = byte (Z.shiftr (n + 1) (8 * Z.of_nat w))) as ->.
    { apply ch_inj. by rewrite !be_bytes_top, Hn. }
    f_equal. symmetry. apply Z.eqb_neq. nia.
Qed.

Lemma incr_be8 n : fst (logStore.incr (be8 n)) = be8 (n + 1).
Proof. unfold be8. by rewrite incr_be. Qed.

Section log_spec.
Import logStore.
Context {P : Type} `{PebbleReliable P} `{!PebbleRange P} `{!PebbleRangeLaws P} `{!PebbleRangeReliable P} `{LogCodecLaws}.
Implicit Types (m : gmap string string) (p : P).

(** The entry stored under an index. *)
Definition logAt m (i : Z) : option Log :=
  m !! logKey i ≫= fun v => match decodeLog v with Ok l => Some l | Err _ => None end.

(** Every key of the log's range is the key of an index and holds the entry of
    that index. *)
Definition LogInv m : Prop :=
  forall k v, m !! k = Some v -> has_prefix logKeyPrefix k = true ->
    exists i l, uint64 i /\ k = logKey i /\ msgpack_decode v = Ok l /\ lg_Index l = i.

(** [m'] differs from [m] in the log's range only. *)
Definition log_frame m m' : Prop := forall k, has_prefix logKeyPrefix k = false -> m' !! k = m !! k.

Lemma logKey_inj i j : uint64 i -> uint64 j -> logKey i = logKey j -> i = j.
Proof.
  intros Hi Hj E%app_inj_l. rewrite <- (app_nil_s (be8 i)), <- (app_nil_s (be8 j)) in E. by apply be8_inj in E as [-> _].
Qed.

Lemma logKey_prefix i : has_prefix logKeyPrefix (logKey i) = true.
Proof. apply has_prefix_app. Qed.

Lemma logKey_cmp i j : uint64 i -> uint64 j -> scmp (logKey i) (logKey j) = (i ?= j).
Proof. intros Hi Hj. unfold logKey. rewrite scmp_app. by apply be8_cmp. Qed.

Lemma logKey_sle i j : uint64 i -> uint64 j -> sle (logKey i) (logKey j) <-> i <= j.
Proof. intros Hi Hj. unfold sle, sleb. rewrite logKey_cmp by done. destruct (Z.compare_spec i j); naive_solver lia. Qed.

Lemma logKey_slt i j : uint64 i -> uint64 j -> slt (logKey i) (logKey j) <-> i < j.
Proof. intros Hi Hj. unfold slt. rewrite logKey_cmp by done. destruct (Z.compare_spec i j); naive_solver lia. Qed.

Lemma log_range k : sle logKeyPrefix k /\ below k (Some logKeyPrefixEnd) <-> has_prefix logKeyPrefix k = true.
Proof. exact (scan_prefix "raft/log" k). Qed.

Lemma indexFromKey_logKey i : uint64 i -> indexFromKey (logKey i) = Some i.
Proof.
  intros Hi. unfold indexFromKey. rewrite logKey_prefix. cbn [negb].
  change (drop_s (String.length logKeyPrefix) (logKey i)) with (be8 i). unfold be8 at 1. rewrite be_bytes_length. cbn [Nat.eqb negb].
  by rewrite <- (app_nil_s (be8 i)), beUint64_be8.
Qed.

Lemma logAt_Some m i : LogInv m -> uint64 i -> is_Some (m !! logKey i) -> exists l, logAt m i = Some l /\ lg_Index l = i.
Proof.
  intros I Hi [v Hv]. destruct (I _ _ Hv (logKey_prefix i)) as (j & l & Hj & E & Hd & Hl).
  apply logKey_inj in E as <-; [|done..]. exists l. split; [|done]. unfold logAt, decodeLog. rewrite Hv. cbn. by rewrite Hd.
Qed.

Lemma GetLog_spec p i : LogInv (contents p) -> uint64 i ->
  GetLog i p = (match logAt (contents p) i with Some l => Ok l | None => Err errLogNotFound end, p).
Proof.
  intros I Hi. unfold GetLog, logAt. rewrite p_get_total. destruct (contents p !! logKey i) as [v|] eqn:E; [|done]. cbn.
  destruct (I _ _ E (logKey_prefix i)) as (j & l & _ & _ & Hd & _). unfold decodeLog. by rewrite Hd.
Qed.

(** *** Storing *)

(** The last entry of the list with that index. *)
Fixpoint latest (i : Z) (logs : list Log) : option Log :=
  match logs with
  | [] => None
  | l :: logs' => match latest i logs' with
                  | Some l' => Some l'
                  | None => if decide (lg_Index l = i) then Some l else None
                  end
  end.

(** Entries that can be stored. *)
Definition storable (l : Log) : Prop := uint64 (lg_Index l) /\ exists v, msgpack_encode l = Ok v.

Lemma encodeLogs_total logs : Forall storable logs -> exists b, encodeLogs logs = Ok b.
Proof.
  induction 1 as [|l logs [_ [v Hv]] _ [b Hb]]; [by eexists|]. cbn. unfold encodeLog. rewrite Hv. cbn. rewrite Hb. by eexists.
Qed.

Lemma encodeLogs_spec logs b m :
  Forall storable logs -> encodeLogs logs = Ok b -> LogInv m ->
  LogInv (apply_batch b m) /\ log_frame m (apply_batch b m) /\
  forall i, uint64 i -> logAt (apply_batch b m) i = match latest i logs with Some l => Some l | None => logAt m i end.
Proof.
  intros Hs. revert b m. induction Hs as [|l logs [Hi [v Hv]] Hs IH]; intros b m Hb I.
  { injection Hb as <-. done. }
  cbn in Hb. unfold encodeLog in Hb. rewrite Hv in Hb. cbn in Hb.
  destruct (encodeLogs logs) as [b'|e] eqn:Eb; [|done]. injection Hb as <-. rewrite apply_batch_cons. cbn [apply_op].
  assert (LogInv (<[logKey (lg_Index l) := v]> m)) as I'.
  { intros k w [[<- <-]|[Hne Hk]]%lookup_insert_Some Hp; [|by eapply I].
    exists (lg_Index l), l. split_and!; try done. by apply msgpack_roundtrip. }
  destruct (IH b' _ eq_refl I') as (I2 & Hf & Hl). split_and!; [done| |].
  - intros k Hk. rewrite Hf, lookup_insert_ne; [done| |done]. intros <-. by rewrite logKey_prefix in Hk.
  - intros i Hii. rewrite Hl by done. cbn [latest]. destruct (latest i logs); [done|]. unfold logAt.
    destruct (decide (lg_Index l = i)) as [<-|Hne].
    + rewrite lookup_insert_eq. cbn. unfold decodeLog. by rewrite (msgpack_roundtrip _ _ Hv).
    + rewrite lookup_insert_ne; [done|]. intros E%logKey_inj; done.
Qed.

Lemma StoreLogs_spec p logs : LogInv (contents p) -> Forall storable logs ->
  exists p', StoreLogs logs p = (Ok tt, p') /\ LogInv (contents p') /\ log_frame (contents p) (contents p') /\
    forall i, uint64 i -> logAt (contents p') i = match latest i logs with Some l => Some l | None => logAt (contents p) i end.
Proof.
  intros I Hs. destruct (encodeLogs_total _ Hs) as [b Hb].
  destruct (encodeLogs_spec _ _ _ Hs Hb I) as (I' & Hf & Hl). destruct logs as [|l logs]; [by exists p|].
  destruct (p_commit_total p b) as [p' Hp]. exists p'. rewrite (p_commit_ok _ _ _ Hp). split_and!; [|done..].
  unfold StoreLogs, lift_res, mbnd, write. rewrite Hb. by rewrite Hp.
Qed.

(** *** Deleting *)

Lemma outside_lookup lo hi m k :
  outside lo hi m !! k = if decide (sle lo k /\ slt k hi) then None else m !! k.
Proof.
  unfold outside. destruct (decide _) as [Hd|Hd].
  - apply map_lookup_filter_None. right. intros v Hv. cbn. tauto.
  - rewrite map_lookup_filter. destruct (m !! k) as [v|]; [|done]. cbn. case_guard; [done | tauto].
Qed.

Lemma DeleteRange_spec p lo hi : LogInv (contents p) -> uint64 lo -> lo <= hi < two64 - 1 ->
  exists p', DeleteRange lo hi p = (Ok tt, p') /\ LogInv (contents p') /\ log_frame (contents p) (contents p') /\
    forall i, uint64 i -> logAt (contents p') i = if decide (lo <= i <= hi) then None else logAt (contents p) i.
Proof.
  intros I Hlo Hhi. unfold DeleteRange. rewrite (proj2 (Z.ltb_ge _ _)) by lia. rewrite incr_be8.
  change (logKeyPrefix +:+ be8 (hi + 1)) with (logKey (hi + 1)).
  destruct (p_delete_range_total p (logKey lo) (logKey (hi + 1))) as [p' Hp]. rewrite Hp. exists p'.
  rewrite (p_delete_range_ok _ _ _ _ Hp). assert (uint64 (hi + 1)) as Hh by (unfold uint64 in *; lia).
  split_and!; [done| | |].
  - intros k v Hk. rewrite outside_lookup in Hk. destruct (decide _); [done|]. by apply I.
  - intros k Hk. rewrite outside_lookup. destruct (decide _) as [[Hl Hu]|]; [|done]. exfalso.
    assert (has_prefix logKeyPrefix k = true); [|congruence]. apply log_range. split.
    + eapply sle_trans; [apply sle_prefix | exact Hl].
    + cbn. eapply slt_trans; [exact Hu|]. reflexivity.
  - intros i Hi. unfold logAt. rewrite outside_lookup.
    destruct (decide (sle _ _ /\ _)) as [Hd|Hd]; rewrite logKey_sle, logKey_slt in Hd by done;
      destruct (decide (lo <= i <= hi)); try done; lia.
Qed.

(** *** The first and the last index *)

Lemma sorted_head {A} (R : relation A) l x y : Reflexive R -> StronglySorted R l -> head l = Some x -> y ∈ l -> R x y.
Proof.
  intros HR Hs Hx Hy. destruct Hs as [|z l _ Hz]; [done|]. injection Hx as ->.
  apply elem_of_cons in Hy as [->|Hy]; [done|]. rewrite Forall_forall in Hz. by apply Hz.
Qed.

Lemma sorted_last {A} (R : relation A) l x y : Reflexive R -> StronglySorted R l -> last l = Some x -> y ∈ l -> R y x.
Proof.
  intros HR Hs. induction Hs as [|z l Hs IH Hz]; [done|]. intros Hx Hy. destruct l as [|w l].
  - injection Hx as ->. by apply list_elem_of_singleton in Hy as ->.
  - apply elem_of_cons in Hy as [->|Hy]; [|by apply IH].
    rewrite Forall_forall in Hz. apply Hz. change (last (w :: l) = Some x) in Hx. apply last_Some in Hx as [l' E]. rewrite E.
    apply elem_of_app. right. by apply list_elem_of_singleton.
Qed.

Definition logKeys m : list string := range_keys m logKeyPrefix (Some logKeyPrefixEnd).

Lemma elem_of_logKeys m k : LogInv m -> k ∈ logKeys m <-> exists i, uint64 i /\ k = logKey i /\ is_Some (logAt m i).
Proof.
  intros I. unfold logKeys. rewrite elem_of_range_keys, log_range. split.
  - intros [[v Hv] Hp]. destruct (I _ _ Hv Hp) as (i & l & Hi & -> & _). exists i. split_and!; [done..|].
    destruct (logAt_Some m i I Hi) as (l' & -> & _); by eexists.
  - intros (i & Hi & -> & Hl). split; [|apply logKey_prefix]. unfold logAt in Hl.
    destruct (m !! logKey i); [by eexists | by destruct Hl].
Qed.

(** What either end of the key list stands for. *)
Lemma boundIndex_spec pick p :
  LogInv (contents p) -> (forall l k, pick l = Some k -> k ∈ l) -> (forall l, pick l = None -> l = []) ->
  exists n, boundIndex pick p = (Ok n, p) /\
    ((n = 0 /\ forall i, uint64 i -> logAt (contents p) i = None) \/
     (uint64 n /\ is_Some (logAt (contents p) n) /\ pick (logKeys (contents p)) = Some (logKey n))).
Proof.
  intros I Hin Hnone. unfold boundIndex. rewrite p_iter_total. fold (logKeys (contents p)).
  destruct (pick (logKeys (contents p))) as [k|] eqn:E.
  - pose proof (Hin _ _ E) as Hk. apply elem_of_logKeys in Hk as (i & Hi & -> & Hl); [|done].
    rewrite indexFromKey_logKey by done. exists i. split; [done|]. by right.
  - exists 0. split; [done|]. left. split; [done|]. intros i Hi. apply eq_None_not_Some. intros Hl.
    assert (logKey i ∈ logKeys (contents p)) as Hk by (apply elem_of_logKeys; eauto).
    rewrite (Hnone _ E) in Hk. by apply elem_of_nil in Hk.
Qed.

Lemma FirstIndex_spec p : LogInv (contents p) ->
  exists n, FirstIndex p = (Ok n, p) /\
    ((n = 0 /\ forall i, uint64 i -> logAt (contents p) i = None) \/
     (uint64 n /\ is_Some (logAt (contents p) n) /\
      forall i, uint64 i -> is_Some (logAt (contents p) i) -> n <= i)).
Proof.
  intros I. destruct (boundIndex_spec head p I) as (n & E & Hn).
  { intros [|x l] k; [done|]. intros [= ->]. constructor. }
  { by intros []. }
  exists n. split; [done|]. destruct Hn as [?|(Hn & Hs & Hh)]; [by left|]. right. split_and!; [done..|].
  intros i Hi Hl. apply logKey_sle; [done..|].
  eapply (sorted_head sle (logKeys (contents p))); [apply _ | apply StronglySorted_range_keys | exact Hh|]. apply elem_of_logKeys; eauto.
Qed.

Lemma LastIndex_spec p : LogInv (contents p) ->
  exists n, LastIndex p = (Ok n, p) /\
    ((n = 0 /\ forall i, uint64 i -> logAt (contents p) i = None) \/
     (uint64 n /\ is_Some (logAt (contents p) n) /\
      forall i, uint64 i -> is_Some (logAt (contents p) i) -> i <= n)).
Proof.
  intros I. destruct (boundIndex_spec last p I) as (n & E & Hn).
  { intros l k [l' ->]%last_Some. apply elem_of_app. right. by apply list_elem_of_singleton. }
  { intros l Hl. by apply last_None. }
  exists n. split; [done|]. destruct Hn as [?|(Hn & Hs & Hh)]; [by left|]. right. split_and!; [done..|].
  intros i Hi Hl. apply logKey_sle; [done..|].
  eapply (sorted_last sle (logKeys (contents p))); [apply _ | apply StronglySorted_range_keys | exact Hh|]. apply elem_of_logKeys; eauto.
Qed.

(** C25. The log store implements a finite map from indices to entries, which
    is what Raft asks of it: storing overwrites exactly the given indices with
    the last entry given for each, deleting [[lo, hi]] removes exactly these
    (both ends included, up to the largest index but one), reading returns the
    entry or the not-found sentinel, the first and last index are the least
    and greatest stored, zero when none is; nothing outside the log's key range
    is touched. *)
Theorem logStore_refines_map p :
  LogInv (contents p) ->
  (forall i, uint64 i ->
     GetLog i p = (match logAt (contents p) i with Some l => Ok l | None => Err errLogNotFound end, p)) /\
  (forall logs, Forall storable logs -> exists p', StoreLogs logs p = (Ok tt, p') /\
     LogInv (contents p') /\ log_frame (contents p) (contents p') /\ forall i, uint64 i ->
       logAt (contents p') i = match latest i logs with Some l => Some l | None => logAt (contents p) i end) /\
  (forall lo hi, uint64 lo -> lo <= hi < two64 - 1 -> exists p', DeleteRange lo hi p = (Ok tt, p') /\
     LogInv (contents p') /\ log_frame (contents p) (contents p') /\ forall i, uint64 i ->
       logAt (contents p') i = if decide (lo <= i <= hi) then None else logAt (contents p) i) /\
  (exists first last, FirstIndex p = (Ok first, p) /\ LastIndex p = (Ok last, p) /\
     ((first = 0 /\ last = 0 /\ forall i, uint64 i -> logAt (contents p) i = None) \/
      (is_Some (logAt (contents p) first) /\ is_Some (logAt (contents p) last) /\
       forall i, uint64 i -> is_Some (logAt (contents p) i) -> first <= i <= last))).
Proof.
  intros I. split_and!.
  - intros. by apply GetLog_spec.
  - intros. by apply StoreLogs_spec.
  - intros. by apply DeleteRange_spec.
  - destruct (FirstIndex_spec p I) as (a & Ea & Ha), (LastIndex_spec p I) as (b & Eb & Hb).
    exists a, b. split_and!; [done..|].
    destruct Ha as [[-> Ha]|(Ua & Sa & Ha)], Hb as [[-> Hb]|(Ub & Sb & Hb)]; [by left | | |].
    + rewrite Ha in Sb by done. by destruct Sb.
    + rewrite Hb in Sa by done. by destruct Sa.
    + right. split_and!; [done..|]. intros i Hi Hl. split; [by apply Ha | by apply Hb].
Qed.

(** The stable store: a stored number or text is read back, a missing key
    reads as nothing and as zero, and the log is not touched. *)
Lemma stable_roundtrip p k v : exists p', stableStore.Set_ k v p = (Ok tt, p') /\
  stableStore.Get k p' = (Ok (Some v), p') /\
  (forall k', k' <> k -> fst (stableStore.Get k' p') = fst (stableStore.Get k' p)) /\
  forall k', has_prefix logKeyPrefix k' = true -> contents p' !! k' = contents p !! k'.
Proof.
  destruct (p_commit_total p [OpSet (stableStore.stableKey k) v]) as [p' Hp]. exists p'.
  pose proof (p_commit_ok _ _ _ Hp) as Hc. cbn in Hc. unfold stableStore.Set_, write, stableStore.Get.
  rewrite Hp, !p_get_total, Hc, lookup_insert_eq. split_and!; [done..| |].
  - intros k' Hne. rewrite !p_get_total, Hc, lookup_insert_ne; [|by intros ->%app_inj_l].
    by destruct (contents p !! _).
  - intros k' Hk. rewrite lookup_insert_ne; [done|]. intros <-. by vm_compute in Hk.
Qed.

Lemma stable_uint64_roundtrip p k n : uint64 n -> exists p', stableStore.SetUint64 k n p = (Ok tt, p') /\
  stableStore.GetUint64 k p' = (Ok n, p').
Proof.
  intros Hn. destruct (stable_roundtrip p k (be8 n)) as (p' & Hs & Hg & _). exists p'. split; [done|].
  unfold stableStore.GetUint64, mbnd. rewrite Hg. unfold be8 at 1. rewrite be_bytes_length. cbn [Nat.eqb negb].
  by rewrite <- (app_nil_s (be8 n)), beUint64_be8.
Qed.
End log_spec.

(** ** A concrete codec *)

Module msgpack.
Import framed.

Definition log_text (l : Log) : string := frame [z_text (lg_Index l); z_text (lg_Term l); z_text (lg_Type l); lg_Data l].
Definition text_log (s : string) : res Log :=
  match unframe s with
  | Some [i; t; ty; d] => Ok (mkLog (text_z i) (text_z t) (text_z ty) d)
  | _ => Err (ErrExternal "msgpack")
  end.

Lemma text_log_text l : text_log (log_text l) = Ok l.
Proof. destruct l. unfold text_log, log_text. rewrite unframe_frame. cbn. by rewrite !text_z_text. Qed.

#[export] Instance codec : LogCodec := { msgpack_encode l := Ok (log_text l); msgpack_decode := text_log }.

#[export] Instance codec_laws : LogCodecLaws.
Proof. split. intros l v E. injection E as <-. apply text_log_text. Qed.
End msgpack.

Import msgpack.

Lemma logStore_refines_map_witness :
  exists p' : memstore.store,
    logStore.StoreLogs [mkLog 7 1 0 "a"; mkLog 8 1 0 "b"; mkLog 7 2 0 "c"] (∅ : memstore.store) = (Ok tt, p') /\
    logAt p' 7 = Some (mkLog 7 2 0 "c").
Proof.
  assert (LogInv (contents (∅ : memstore.store))) as I by (intros k v Hk; done).
  destruct (logStore_refines_map (∅ : memstore.store) I) as (_ & Hst & _).
  destruct (Hst [mkLog 7 1 0 "a"; mkLog 8 1 0 "b"; mkLog 7 2 0 "c"]) as (p' & E & _ & _ & Hl).
  - repeat constructor; cbn; unfold uint64, two64; try lia; by eexists.
  - exists p'. split; [exact E|]. apply Hl. unfold uint64, two64. lia.
Defined.
