(* ===== verification/Snapshot.v ===== *)
(** State snapshots of the Raft layer ([src/internal/raft/snapshot.go]): the
    stream format, writing it from an engine and restoring an engine from it.
    A read stream is the string of the bytes that are left. *)

From S2P Require Import Prelude GoTime Domain Keys PebbleDB RaftStore.

Definition snapshotMagic : string := "CDQS".
Definition snapshotVersionV1 : Z := 1.
Definition snapshotTagEntry : ascii := byte 1.
Definition snapshotTagEOF : ascii := byte 0.
Definition snapshotStatePrefix : string := "codeq/".
Definition snapshotStateEnd : string := "codeq0".

Definition be4 (n : Z) : string := be_bytes 4 n.
Definition maxUint32 : Z := 4294967295.

(** [io.ReadFull] of [n] bytes: the bytes and the rest of the stream. *)
Definition readFull (n : nat) (s : string) : res (string * string) :=
  if (n <=? String.length s)%nat then Ok (take_s n s, drop_s n s)
  else Err (ErrExternal (if bool_decide (s = "") then "EOF" else "unexpected EOF")).

(** The bytes of the entries, in scan order. *)
Fixpoint writeEntries (l : list (string * string)) : res string :=
  match l with
  | [] => Ok ""
  | (key, val) :: l' =>
      if maxUint32 <? slen key then Err (ErrText "snapshot key exceeds uint32 length")
      else if maxUint32 <? slen val then Err (ErrText "snapshot value exceeds uint32 length")
      else match writeEntries l' with
           | Err e => Err e
           | Ok rest => Ok (String snapshotTagEntry (be4 (slen key) +:+ key +:+ be4 (slen val) +:+ val +:+ rest))
           end
  end.

Section snapshot.
Context {P : Type} `{Pebble P} `{!PebbleRange P}.

Definition writeSnapshot (snap : P) : res string :=
  match p_scan snap snapshotStatePrefix (Some snapshotStateEnd) with
  | Err e => Err (ErrWrap "snapshot iter" e)
  | Ok l =>
      match writeEntries l with
      | Err e => Err e
      | Ok body => Ok (snapshotMagic +:+ be4 snapshotVersionV1 +:+ body +:+ String snapshotTagEOF "")
      end
  end.

Definition flushEvery : nat := 1024.

Definition flush (msg : string) (b : batch) : M P unit := fun p =>
  match p_commit p b with Ok p' => (Ok tt, p') | Err e => (Err (ErrWrap msg e), p) end.

Definition read {A} (msg : string) (n : nat) (s : string) (k : string -> string -> M P A) : M P A :=
  match readFull n s with
  | Ok (x, rest) => k x rest
  | Err e => mthrow (ErrWrap msg e)
  end.

(** The loop over the entries, with the batch that is being filled.  Every
    turn but the last consumes a tag, so the length of the stream is fuel
    enough. *)
Fixpoint restoreLoop (fuel : nat) (s : string) (b : batch) : M P unit :=
  match fuel with
  | O => mthrow (ErrText "out of fuel")
  | S f =>
      read "snapshot tag" 1 s (fun tag s =>
        if bool_decide (tag = String snapshotTagEOF "") then
          if (0 <? length b)%nat then flush "snapshot final commit" b else mret tt
        else if negb (bool_decide (tag = String snapshotTagEntry "")) then mthrow (ErrText "snapshot: unknown tag")
        else
          read "snapshot klen" 4 s (fun klen s =>
          read "snapshot key" (Z.to_nat (be_value klen)) s (fun key s =>
          read "snapshot vlen" 4 s (fun vlen s =>
          read "snapshot val" (Z.to_nat (be_value vlen)) s (fun val s =>
            let b := b ++ [OpSet key val] in
            if (flushEvery <=? length b)%nat then
              flush "snapshot batch commit" b ;;! restoreLoop f s []
            else restoreLoop f s b)))))
  end.

Definition readSnapshot (r : string) : M P unit :=
  read "snapshot header" (String.length snapshotMagic) r (fun header s =>
    if negb (bool_decide (header = snapshotMagic)) then mthrow (ErrText "snapshot magic mismatch")
    else read "snapshot version" 4 s (fun version s =>
      if negb (be_value version =? snapshotVersionV1) then mthrow (ErrText "snapshot version not supported")
      else
        (fun p => match p_delete_range p snapshotStatePrefix snapshotStateEnd with
                  | Ok p' => (Ok tt, p')
                  | Err e => (Err (ErrWrap "snapshot wipe" e), p)
                  end) ;;!
        restoreLoop (S (String.length s)) s [])).
End snapshot.

(** ** Writing, then restoring *)

Lemma readFull_app n s t : String.length s = n -> readFull n (s +:+ t) = Ok (s, t).
Proof.
  intros <-. unfold readFull. rewrite take_app_s, drop_app_s, length_app_s.
  by rewrite (proj2 (Nat.leb_le _ _)) by lia.
Qed.

Lemma readFull_short n s : (String.length s < n)%nat -> exists e, readFull n s = Err e.
Proof. intros Hs. unfold readFull. rewrite (proj2 (Nat.leb_gt _ _)) by lia. eauto. Qed.

Lemma be4_length n : String.length (be4 n) = 4%nat.
Proof. apply be_bytes_length. Qed.

Lemma be4_value n : 0 <= n <= maxUint32 -> be_value (be4 n) = n.
Proof. intros. apply be_value_be_bytes. unfold maxUint32 in *. lia. Qed.

Definition fits (kv : string * string) : Prop := slen kv.1 <= maxUint32 /\ slen kv.2 <= maxUint32.

Lemma writeEntries_total l : Forall fits l -> exists body, writeEntries l = Ok body.
Proof.
  induction 1 as [|[k v] l [Hk Hv] _ [body Hb]]; [by eexists|]. cbn in *.
  rewrite !(proj2 (Z.ltb_ge _ _)), Hb by done. by eexists.
Qed.

Definition sets (l : list (string * string)) : batch := map (fun kv => OpSet kv.1 kv.2) l.

Section roundtrip.
Context {P : Type} `{PebbleReliable P} `{!PebbleRange P} `{!PebbleRangeLaws P} `{!PebbleRangeReliable P}.
Implicit Types (p q : P).

Lemma read_app {A} msg n x rest (k : string -> string -> M P A) :
  String.length x = n -> read msg n (x +:+ rest) k = k x rest.
Proof. intros Hx. unfold read. by rewrite readFull_app. Qed.

Lemma restore_entry f k v rest b :
  fits (k, v) ->
  restoreLoop (P := P) (S f) (String snapshotTagEntry (be4 (slen k) +:+ k +:+ be4 (slen v) +:+ v +:+ rest)) b =
  let b := b ++ [OpSet k v] in
  if (flushEvery <=? length b)%nat then flush "snapshot batch commit" b ;;! restoreLoop f rest [] else restoreLoop f rest b.
Proof.
  intros [Hk Hv]. cbn [fst snd] in *. cbn [restoreLoop]. change (read "snapshot tag" 1 (String snapshotTagEntry ?s) ?K)
    with (K (String snapshotTagEntry "") s). cbv beta.
  rewrite bool_decide_false by done. rewrite bool_decide_true by done. cbn [negb].
  rewrite read_app by apply be4_length. rewrite be4_value by (unfold slen in *; lia).
  rewrite read_app by (unfold slen; lia). rewrite read_app by apply be4_length.
  rewrite be4_value by (unfold slen in *; lia). rewrite read_app by (unfold slen; lia). done.
Qed.

Lemma restore_eof f b q : exists q', restoreLoop (S f) (String snapshotTagEOF "") b q = (Ok tt, q') /\
  contents q' = apply_batch b (contents q).
Proof.
  cbn [restoreLoop]. change (read "snapshot tag" 1 (String snapshotTagEOF "") ?K) with (K (String snapshotTagEOF "") "").
  cbv beta. rewrite bool_decide_true by done. destruct b as [|o b]; [by exists q|].
  change (0 <? length (o :: b))%nat with true. cbv iota. unfold flush.
  destruct (p_commit_total q (o :: b)) as [q' Hq]. rewrite Hq. exists q'. split; [done | by apply p_commit_ok].
Qed.

Lemma restoreLoop_spec l body : Forall fits l -> writeEntries l = Ok body ->
  forall f b q, (length l < f)%nat ->
  exists q', restoreLoop f (body +:+ String snapshotTagEOF "") b q = (Ok tt, q') /\
    contents q' = apply_batch (b ++ sets l) (contents q).
Proof.
  intros Hl. revert body. induction Hl as [|[k v] l Hkv Hl IH]; intros body Hb f b q Hf; (destruct f as [|f]; [cbn in Hf; lia|]).
  { injection Hb as <-. rewrite app_empty_s, app_nil_r. apply restore_eof. }
  cbn [writeEntries] in Hb. destruct (_ <? _); [done|]. destruct (_ <? _); [done|].
  destruct (writeEntries l) as [rest|] eqn:El; [|done]. injection Hb as <-.
  rewrite app_cons_s, !app_assoc_s, restore_entry by done. cbv zeta. cbn [sets map fst snd length] in *.
  destruct (flushEvery <=? _)%nat.
  - unfold mbnd, flush. destruct (p_commit_total q (b ++ [OpSet k v])) as [q1 Hq]. rewrite Hq.
    destruct (IH rest eq_refl f [] q1) as (q' & E & Hc); [lia|]. exists q'. split; [done|].
    rewrite Hc, (p_commit_ok _ _ _ Hq), <- apply_batch_app, <- app_assoc. done.
  - destruct (IH rest eq_refl f (b ++ [OpSet k v]) q) as (q' & E & Hc); [lia|]. exists q'. split; [done|].
    by rewrite Hc, <- app_assoc.
Qed.

Lemma writeEntries_length l body : writeEntries l = Ok body -> (length l <= String.length body)%nat.
Proof.
  revert body. induction l as [|[k v] l IH]; intros body Hb; [cbn; lia|]. cbn [writeEntries] in Hb.
  destruct (_ <? _); [done|]. destruct (_ <? _); [done|]. destruct (writeEntries l) as [rest|]; [|done].
  injection Hb as <-. specialize (IH rest eq_refl). cbn [length String.length]. rewrite !length_app_s. lia.
Qed.

Lemma state_range k : sle snapshotStatePrefix k /\ slt k snapshotStateEnd <-> has_prefix snapshotStatePrefix k = true.
Proof. exact (scan_prefix "codeq" k). Qed.

Lemma sets_lookup (m m0 : gmap string string) ks k :
  apply_batch (sets (map (fun k => (k, default "" (m !! k))) ks)) m0 !! k =
  if decide (k ∈ ks) then Some (default "" (m !! k)) else m0 !! k.
Proof.
  revert m0. induction ks as [|x ks IH]; intros m0; [done|]. cbn [map sets fst snd].
  rewrite apply_batch_cons. etransitivity; [apply IH|]. cbn [apply_op].
  destruct (decide (k ∈ ks)) as [Hk|Hk], (decide (k ∈ x :: ks)) as [Hk'|Hk']; try done; [set_solver| |].
  - assert (k = x) as -> by set_solver. by rewrite lookup_insert_eq.
  - rewrite lookup_insert_ne; [done | set_solver].
Qed.

(** What is in the state range of [m], as a list of pairs. *)
Abbreviation state_pairs m := (range_pairs m snapshotStatePrefix (Some snapshotStateEnd)).

Lemma state_restored m m0 k :
  apply_batch (sets (state_pairs m)) (outside snapshotStatePrefix snapshotStateEnd m0) !! k =
  if has_prefix snapshotStatePrefix k then m !! k else m0 !! k.
Proof.
  unfold range_pairs. rewrite sets_lookup, outside_lookup.
  destruct (has_prefix snapshotStatePrefix k) eqn:Hp.
  - destruct (decide (k ∈ _)) as [[[v Hv] _]%elem_of_range_keys|Hk]; [by rewrite Hv|].
    apply state_range in Hp as Hr. rewrite decide_True by done. symmetry. apply eq_None_not_Some. intros Hs.
    apply Hk, elem_of_range_keys. by split.
  - destruct (decide (k ∈ _)) as [[_ Hr]%elem_of_range_keys|Hk].
    + by rewrite (proj1 (state_range k) Hr) in Hp.
    + destruct (decide (sle _ _ /\ _)) as [Hr|]; [|done]. by rewrite (proj1 (state_range k) Hr) in Hp.
Qed.

Lemma snapshot_roundtrip_lemma p q :
  Forall fits (state_pairs (contents p)) ->
  exists bytes q', writeSnapshot p = Ok bytes /\ readSnapshot bytes q = (Ok tt, q') /\
    forall k, contents q' !! k = if has_prefix snapshotStatePrefix k then contents p !! k else contents q !! k.
Proof.
  intros Hf. destruct (writeEntries_total _ Hf) as [body Hb].
  destruct (p_delete_range_total q snapshotStatePrefix snapshotStateEnd) as [q1 Hq1].
  destruct (restoreLoop_spec _ _ Hf Hb (S (String.length (body +:+ String snapshotTagEOF ""))) [] q1) as (q' & Hr & Hc).
  { pose proof (writeEntries_length _ _ Hb). rewrite length_app_s. cbn. lia. }
  eexists _, q'. split; [|split].
  - unfold writeSnapshot. by rewrite p_scan_total, Hb.
  - unfold readSnapshot. rewrite read_app by done. rewrite bool_decide_true by done. cbn [negb].
    rewrite read_app by apply be4_length. rewrite be4_value by done. cbn [Z.eqb snapshotVersionV1 Pos.eqb negb].
    unfold mbnd. by rewrite Hq1, Hr.
  - intros k. rewrite Hc, (p_delete_range_ok _ _ _ _ Hq1). apply state_restored.
Qed.

(** C27. Snapshots round-trip.  A snapshot of one engine, restored into any
    other, makes the state range of that engine equal to the first one's, and
    leaves its Raft log and votes, and all else outside the range, as they
    were.  The only entries a snapshot cannot hold are those longer than 2^32 - 1
    bytes. *)
Theorem snapshot_roundtrip p q :
  Forall fits (state_pairs (contents p)) ->
  exists bytes q', writeSnapshot p = Ok bytes /\ readSnapshot bytes q = (Ok tt, q') /\
    forall k, contents q' !! k = if has_prefix snapshotStatePrefix k then contents p !! k else contents q !! k.
Proof. apply snapshot_roundtrip_lemma. Qed.
End roundtrip.

(** ** Truncated streams *)

Section truncated.
Context {P : Type} `{Pebble P} `{!PebbleRange P}.
Implicit Types (p q : P).

(** Reading from a prefix [s] of a stream fails or goes as on the stream. *)
Lemma readFull_prefix x rest s t : s +:+ t = x +:+ rest ->
  (exists e, readFull (String.length x) s = Err e) \/
  (exists s', readFull (String.length x) s = Ok (x, s') /\ s' +:+ t = rest).
Proof.
  intros E. destruct (Nat.lt_ge_cases (String.length s) (String.length x)) as [Hl|Hl]; [left; by apply readFull_short|].
  right. assert (exists s', s = x +:+ s') as [s' ->].
  { clear -E Hl. revert s E Hl. induction x as [|a x IH]; intros s E Hl; [by exists s; rewrite app_empty_s|].
    destruct s as [|b s]; cbn in Hl; [lia|]. rewrite !app_cons_s in E. injection E as -> E.
    destruct (IH s E ltac:(lia)) as [s' ->]. exists s'. by rewrite app_cons_s. }
  exists s'. split; [by apply readFull_app|]. rewrite app_assoc_s in E. by apply app_inj_l in E.
Qed.

Abbreviation fails m q := (is_ok (fst (m q)) = false).

Lemma read_prefix msg x rest s t (k : string -> string -> M P unit) q n :
  n = String.length x -> s +:+ t = x +:+ rest ->
  (forall s', s' +:+ t = rest -> fails (k x s') q) -> fails (read msg n s k) q.
Proof.
  intros -> E Hk. unfold read. destruct (readFull_prefix x rest s t E) as [[e ->]|(s' & -> & Es)]; [done | by apply Hk].
Qed.

Lemma restore_truncated l body : Forall fits l -> writeEntries l = Ok body ->
  forall f b q s t, t <> "" -> s +:+ t = body +:+ String snapshotTagEOF "" -> fails (restoreLoop f s b) q.
Proof.
  intros Hl. revert body. induction Hl as [|[k v] l [Hk Hv] Hl IH]; intros body Hb f b q s t Ht E; (destruct f as [|f]; [done|]);
    cbn [writeEntries fst snd] in *.
  { injection Hb as <-. rewrite app_empty_s in E. assert (s = "") as ->; [|done].
    destruct s as [|a s]; [done|]. rewrite app_cons_s in E. injection E as _ E. destruct s; [by rewrite app_empty_s in E | done]. }
  destruct (_ <? _); [done|]. destruct (_ <? _); [done|]. destruct (writeEntries l) as [rest|] eqn:El; [|done].
  injection Hb as <-. rewrite app_cons_s, !app_assoc_s in E. cbn [restoreLoop].
  apply (read_prefix _ (String snapshotTagEntry "") (be4 (slen k) +:+ k +:+ be4 (slen v) +:+ v +:+ rest +:+ String snapshotTagEOF "") s t);
    [done | by rewrite app_cons_s, app_empty_s|].
  intros s1 E1. rewrite bool_decide_false by done. rewrite bool_decide_true by done. cbn [negb].
  eapply read_prefix; [by rewrite be4_length | exact E1|]. intros s2 E2. rewrite be4_value by (unfold slen in *; lia).
  eapply read_prefix; [unfold slen; by rewrite Nat2Z.id | exact E2|]. intros s3 E3.
  eapply read_prefix; [by rewrite be4_length | exact E3|]. intros s4 E4. rewrite be4_value by (unfold slen in *; lia).
  eapply read_prefix; [unfold slen; by rewrite Nat2Z.id | exact E4|]. intros s5 E5. cbv zeta.
  destruct (flushEvery <=? _)%nat; [|by eapply IH].
  unfold mbnd, flush. destruct (p_commit q _) as [q'|e]; [|done]. by eapply IH.
Qed.

Lemma writeEntries_fits l body : writeEntries l = Ok body -> Forall fits l.
Proof.
  revert body. induction l as [|[k v] l IH]; intros body Hb; [done|]. cbn [writeEntries] in Hb.
  destruct (Z.ltb_spec maxUint32 (slen k)); [done|]. destruct (Z.ltb_spec maxUint32 (slen v)); [done|].
  destruct (writeEntries l) as [rest|]; [|done]. constructor; [done | by eapply IH].
Qed.

(** A cut-off snapshot is refused.  Restoring from any proper prefix of a
    written snapshot ends in an error, whatever the engine does: the end tag
    is the only accepted end of the stream. *)
Theorem snapshot_truncation_refused p bytes s t q :
  writeSnapshot p = Ok bytes -> s +:+ t = bytes -> t <> "" -> fails (readSnapshot s) q.
Proof.
  unfold writeSnapshot. destruct (p_scan p _ _) as [l|e]; [|done].
  destruct (writeEntries l) as [body|e] eqn:Eb; [|done]. intros [= <-] E Ht. unfold readSnapshot.
  eapply read_prefix; [done | exact E|]. intros s1 E1. rewrite bool_decide_true by done. cbn [negb].
  eapply read_prefix; [by rewrite be4_length | exact E1|]. intros s2 E2. rewrite be4_value by done.
  cbn [Z.eqb snapshotVersionV1 Pos.eqb negb]. unfold mbnd. destruct (p_delete_range q _ _) as [q'|e]; [|done].
  eapply restore_truncated; [by eapply writeEntries_fits | exact Eb | exact Ht | exact E2].
Qed.
End truncated.

Definition sample : memstore.store := {["codeq/tasks/t1" := "body"; "raft/stable/CurrentTerm" := "3"]}.

Lemma snapshot_roundtrip_witness :
  exists bytes (q' : memstore.store), writeSnapshot sample = Ok bytes /\
    readSnapshot bytes ({["codeq/tasks/t9" := "old"; "raft/stable/CurrentTerm" := "7"]} : memstore.store) = (Ok tt, q') /\
    q' !! "codeq/tasks/t1" = Some "body" /\ q' !! "codeq/tasks/t9" = None /\ q' !! "raft/stable/CurrentTerm" = Some "7".
Proof.
  destruct (snapshot_roundtrip sample ({["codeq/tasks/t9" := "old"; "raft/stable/CurrentTerm" := "7"]} : memstore.store))
    as (bytes & q' & Hw & Hr & Hq).
  - replace (range_pairs (contents sample) snapshotStatePrefix (Some snapshotStateEnd)) with [("codeq/tasks/t1", "body")] by (vm_compute; reflexivity).
    constructor; [|constructor]. split; unfold slen, maxUint32; cbn; lia.
  - exists bytes, q'. split; [exact Hw|]. split; [exact Hr|].
    split; [|split]; (refine (eq_trans (Hq _) _); vm_compute; reflexivity).
Defined.

Lemma snapshot_truncation_refused_witness :
  is_ok (fst (readSnapshot ("CDQS" +:+ be4 1) (∅ : memstore.store))) = false.
Proof.
  refine (snapshot_truncation_refused (∅ : memstore.store) ("CDQS" +:+ be4 1 +:+ String snapshotTagEOF "") _
    (String snapshotTagEOF "") ∅ _ _ _); [vm_compute; reflexivity | vm_compute; reflexivity | done].
Defined.
