(* ===== verification/Raft.v ===== *)
(** Replication ([src/internal/raft/fsm.go], [src/internal/raft/db.go]): the
    state machine that applies committed log entries to the engine, the
    replicated handle with its apply loop, and the group of nodes.

    [BatchRepr] is Pebble's serialised batch.  [hraft] is the consensus engine
    of one node as the code uses it: whether the node leads, and [Apply], which
    on success has run the state machine on the entry and returns its
    response. *)

From S2P Require Import Prelude GoTime Domain Keys PebbleDB RaftStore Snapshot.

Class BatchRepr := {
  Repr : batch -> string;
  SetRepr : string -> res batch
}.

(** A batch is read back from its serialisation, which has a header and so is
    never empty. *)
Class BatchReprLaws `{BatchRepr} : Prop := {
  SetRepr_Repr b : SetRepr (Repr b) = Ok b;
  Repr_nonempty b : Repr b <> ""
}.

(** ** The state machine *)

Module fsm.
Section ops.
Context {P : Type} `{Pebble P} `{!PebbleRange P} `{BatchRepr}.

Definition Apply (log : option Log) : M P unit :=
  match log with
  | None => mret tt
  | Some log =>
      if negb (lg_Type log =? LogCommand) || bool_decide (lg_Data log = "") then mret tt
      else match SetRepr (lg_Data log) with
           | Err e => mthrow (ErrWrap "fsm apply: SetRepr" e)
           | Ok b => flush "fsm apply: commit" b
           end
  end.

Definition Restore (rc : string) : M P unit := fun p =>
  match readSnapshot rc p with
  | (Ok _, p') => (Ok tt, p')
  | (Err e, p') => (Err (ErrWrap "fsm restore" e), p')
  end.

(** [Snapshot] and [Persist]: the view is taken at the call; [sink] is what
    the snapshot sink answers to the bytes, [close] what it answers at the
    end. *)
Definition Persist (snap : P) (sink : string -> res unit) (close : res unit) : res unit :=
  match writeSnapshot snap with
  | Err e => Err (ErrWrap "fsm snapshot persist" e)
  | Ok bytes => match sink bytes with
                | Err e => Err (ErrWrap "fsm snapshot persist" e)
                | Ok _ => close
                end
  end.
End ops.
End fsm.

(** ** Configuration *)

(** [StreamLayer], the connection the transport runs on, is left out. *)
Record Config := mkConfig {
  cf_Path : string; cf_FsyncOnCommit : bool; cf_SelfID : string; cf_BindAddr : string; cf_Bootstrap : bool;
  cf_PeerAddrs : list (string * string); cf_PeerHTTPAddrs : gmap string string;
  cf_HeartbeatMS : Z; cf_ElectionMS : Z; cf_LeaderLeaseMS : Z; cf_CommitMS : Z;
  cf_SnapshotEntries : Z; cf_ApplyTimeout : Z
}.

Definition millis (ms default : Z) : Z := wrap64 ((if 0 <? ms then ms else default) * millisecond).

Definition heartbeat (c : Config) : Z := millis (cf_HeartbeatMS c) 1000.
Definition election (c : Config) : Z := millis (cf_ElectionMS c) 1000.
Definition leaderLease (c : Config) : Z := millis (cf_LeaderLeaseMS c) 500.
Definition commitTimeout (c : Config) : Z := millis (cf_CommitMS c) 50.
Definition snapshotInterval (c : Config) : Z := 120 * second.
Definition snapshotThreshold (c : Config) : Z := if 0 <? cf_SnapshotEntries c then cf_SnapshotEntries c else 8192.
Definition applyTimeout (c : Config) : Z := if 0 <? cf_ApplyTimeout c then cf_ApplyTimeout c else 10 * second.

(** The refusals of [openInternal], and the voters a fresh cluster is
    bootstrapped with. *)
Definition checkConfig (c : Config) : res unit :=
  if bool_decide (cf_SelfID c = "") then Err (ErrText "raft: SelfID is required")
  else if bool_decide (cf_BindAddr c = "") then Err (ErrText "raft: BindAddr is required")
  else if bool_decide (cf_Path c = "") then Err (ErrText "raft: Path is required (for snapshot dir)")
  else Ok tt.

Definition bootstrapVoters (c : Config) (hasState : bool) : option (list (string * string)) :=
  if cf_Bootstrap c && negb hasState
  then Some (match cf_PeerAddrs c with [] => [(cf_SelfID c, cf_BindAddr c)] | peers => peers end)
  else None.

(** ** The replicated handle *)

(** [h_Apply p cmd]: the error of the future, or the response of the state
    machine, and the engine afterwards. *)
Record hraft (P : Type) := mkHraft {
  h_leader : bool;
  h_leaderID : string;
  h_Apply : P -> string -> res (res unit) * P
}.
Arguments mkHraft {P}.
Arguments h_leader {P}.
Arguments h_leaderID {P}.
Arguments h_Apply {P}.

Module RaftDB.

Definition ErrNotLeader : error := ErrText "raft: not leader".
Definition raftMergeBatch : nat := 128.

Record DB (P : Type) := mkDB {
  d_raft : hraft P; d_cfg : Config; d_stopped : bool
}.
Arguments mkDB {P}.
Arguments d_raft {P}.
Arguments d_cfg {P}.
Arguments d_stopped {P}.

Section ops.
Context {P : Type} `{Pebble P} `{BatchRepr}.
Variable d : DB P.
(** The failure, if any, of merging a batch ([Batch.Apply]). *)
Variable apply_err : batch -> option error.

Definition IsLeader : bool := h_leader (d_raft d).

Definition LeaderHTTPAddr : string :=
  if bool_decide (h_leaderID (d_raft d) = "") || bool_decide (cf_PeerHTTPAddrs (d_cfg d) = ∅) then ""
  else default "" (cf_PeerHTTPAddrs (d_cfg d) !! h_leaderID (d_raft d)).

(** One [raft.Apply] and the reading of its future. *)
Definition applyEntry (cmd : string) : M P unit := fun p =>
  match h_Apply (d_raft d) p cmd with
  | (Err e, p') => (Err (ErrWrap "raft apply" e), p')
  | (Ok resp, p') => (resp, p')
  end.

Definition CommitBatch (b : batch) : M P unit :=
  if negb IsLeader then mthrow ErrNotLeader
  else if bool_decide (Repr b = "") then mret tt
  else applyEntry (Repr b).

Definition Set_ (key value : string) : M P unit :=
  if negb IsLeader then mthrow ErrNotLeader else CommitBatch [OpSet key value].

Definition Delete (key : string) : M P unit :=
  if negb IsLeader then mthrow ErrNotLeader else CommitBatch [OpDelete key].

Definition Get (key : string) : M P string := fun p =>
  match p_get p key with
  | Ok v => (Ok v, p)
  | Err e => (Err (if is_not_found e then ErrNotFound else e), p)
  end.

Definition Has (key : string) : M P bool := fun p =>
  match p_get p key with
  | Ok _ => (Ok true, p)
  | Err e => if is_not_found e then (Ok false, p) else (Err e, p)
  end.

(** The merging of queued requests: the merged batch, how many joined, the
    answer of the request that ended the merge, and the requests left. *)
Fixpoint drain (room : nat) (merged : batch) (q : list string) : batch * nat * option error * list string :=
  match room, q with
  | S room', more :: q' =>
      match SetRepr more with
      | Err e => (merged, O, Some (ErrWrap "raft apply: setrepr merge" e), q')
      | Ok tmp =>
          match apply_err tmp with
          | Some e => (merged, O, Some (ErrWrap "raft apply: merge" e), q')
          | None => let '(m, n, oe, r) := drain room' (merged ++ tmp) q' in (m, S n, oe, r)
          end
      end
  | _, _ => (merged, O, None, q)
  end.

(** One turn of [applyLoop] on a non-empty channel; [leads] is the leadership
    after the merge.  The answers are in channel order. *)
Definition apply_round (leads : bool) (p : P) (q : list string) : P * list (res unit) * list string :=
  match q with
  | [] => (p, [], [])
  | first :: q' =>
      match SetRepr first with
      | Err e => (p, [Err (ErrWrap "raft apply: setrepr first" e)], q')
      | Ok b =>
          let '(merged, n, oe, rest) := drain (raftMergeBatch - 1) b q' in
          let tail := match oe with Some e => [Err e] | None => [] end in
          if negb leads then (p, replicate (S n) (Err ErrNotLeader) ++ tail, rest)
          else let (r, p') := applyEntry (Repr merged) p in (p', replicate (S n) r ++ tail, rest)
      end
  end.

(** Turns until the channel is empty; [leads k] is the leadership in turn [k]. *)
Fixpoint applyLoop (fuel : nat) (leads : nat -> bool) (p : P) (q : list string) : P * list (res unit) * list string :=
  match fuel, q with
  | S f, _ :: _ =>
      let '(p1, rs1, q1) := apply_round (leads O) p q in
      let '(p2, rs2, q2) := applyLoop f (fun k => leads (S k)) p1 q1 in
      (p2, rs1 ++ rs2, q2)
  | _, _ => (p, [], q)
  end.

(** A submitter on its own: the refusals, then its turn of the loop. *)
Definition Replicate (repr : string) : M P unit := fun p =>
  if negb IsLeader then (Err ErrNotLeader, p)
  else if bool_decide (repr = "") then (Ok tt, p)
  else if d_stopped d then (Err (ErrText "raft: db closing"), p)
  else match apply_round IsLeader p [repr] with
       | (p', r :: _, _) => (r, p')
       | (p', [], _) => (Err (ErrText "raft: db closing"), p')
       end.

(** The delegate the store wrapper is given. *)
Definition replicator : Replicator P :=
  mkReplicator IsLeader LeaderHTTPAddr (fun p b => match Replicate (Repr b) p with (Ok _, p') => Ok p' | (Err e, _) => Err e end).
End ops.
End RaftDB.

(** ** The handle is the delegate the store expects *)

(** A successful [Apply] has run the state machine on the entry. *)
Definition hraft_ok {P} `{Pebble P} `{!PebbleRange P} `{BatchRepr} (h : hraft P) : Prop :=
  forall p cmd r p', h_Apply h p cmd = (Ok r, p') ->
    exists i t, fsm.Apply (Some (mkLog i t LogCommand cmd)) p = (r, p').

(** A text without the first byte of [sub] in front does not change whether
    [sub] occurs. *)
Lemma index_from_shift s sub i j : 0 <= i -> 0 <= j ->
  (0 <=? index_from s sub i) = (0 <=? index_from s sub j).
Proof.
  revert i j. induction s as [|a s IH]; intros i j Hi Hj; cbn [index_from]; destruct (has_prefix _ _);
    rewrite ?(proj2 (Z.leb_le 0 i)), ?(proj2 (Z.leb_le 0 j)) by lia; [done..|]. apply IH; lia.
Qed.

Lemma contains_app_free c sub x s : elem c x = false -> contains_s (x +:+ s) (String c sub) = contains_s s (String c sub).
Proof.
  unfold contains_s, indexOf. induction x as [|a x IH]; intros Hx; [by rewrite app_empty_s|].
  cbn [elem] in Hx. apply orb_false_iff in Hx as [Ha Hx]. rewrite app_cons_s. cbn [index_from has_prefix].
  rewrite Ascii.eqb_sym, Ha. cbn [andb]. rewrite <- (IH Hx). apply index_from_shift; lia.
Qed.

Lemma plain_wrap msg e : elem "n" msg = false -> plain e -> plain (ErrWrap msg e).
Proof.
  intros Hm [H1 H2]. unfold plain. cbn [error_text]. rewrite <- app_assoc_s.
  rewrite !contains_app_free by (rewrite elem_app, Hm; done). done.
Qed.

Section handle.
Context {P : Type} `{PebbleLaws P} `{!PebbleRange P} `{BatchReprLaws}.
Variables (d : RaftDB.DB P) (apply_err : batch -> option error).
Hypothesis Hraft : hraft_ok (RaftDB.d_raft d).

Lemma applyEntry_ok b p p' :
  RaftDB.applyEntry d (Repr b) p = (Ok tt, p') -> p_commit p b = Ok p'.
Proof.
  unfold RaftDB.applyEntry. destruct (h_Apply _ p (Repr b)) as [[r|e] p1] eqn:E; [|done]. intros [= -> ->].
  destruct (Hraft _ _ _ _ E) as (i & t & Ha). unfold fsm.Apply in Ha. cbn [lg_Type lg_Data] in Ha.
  rewrite bool_decide_false in Ha by apply Repr_nonempty. cbn in Ha. rewrite SetRepr_Repr in Ha. unfold flush in Ha.
  destruct (p_commit p b); congruence.
Qed.

Lemma Replicate_ok b p p' : RaftDB.Replicate d apply_err (Repr b) p = (Ok tt, p') -> p_commit p b = Ok p'.
Proof.
  unfold RaftDB.Replicate. destruct (negb _); [done|]. rewrite bool_decide_false by apply Repr_nonempty.
  destruct (RaftDB.d_stopped d); [done|]. unfold RaftDB.apply_round. rewrite SetRepr_Repr. cbn [RaftDB.drain RaftDB.raftMergeBatch].
  destruct (RaftDB.drain _ _ _ _) as [[[m n] oe] rest] eqn:Ed. cbn in Ed. injection Ed as <- <- <- <-.
  destruct (negb _); [done|]. destruct (RaftDB.applyEntry d (Repr b) p) as [r p1] eqn:E. cbn.
  intros [= -> ->]. by apply applyEntry_ok.
Qed.

(** What the consensus engine and the store answer is not one of the
    repository's own refusals. *)
Hypothesis Hplain : forall p cmd e p', h_Apply (RaftDB.d_raft d) p cmd = (Err e, p') -> plain e.
Hypothesis Hcommit : forall (p : P) b e, p_commit p b = Err e -> plain e.
Hypothesis Hurl : plain (NotLeaderError (RaftDB.LeaderHTTPAddr d)).

Lemma applyEntry_plain b p e p' : RaftDB.applyEntry d (Repr b) p = (Err e, p') -> plain e.
Proof.
  unfold RaftDB.applyEntry. destruct (h_Apply _ p (Repr b)) as [[r|e'] p1] eqn:E.
  - intros [= -> ->]. destruct (Hraft _ _ _ _ E) as (i & t & Ha). unfold fsm.Apply in Ha. cbn [lg_Type lg_Data] in Ha.
    rewrite bool_decide_false in Ha by apply Repr_nonempty. cbn in Ha. rewrite SetRepr_Repr in Ha. unfold flush in Ha.
    destruct (p_commit p b) as [p2|e2] eqn:Ec; [done|]. injection Ha as <- <-. apply plain_wrap; [done | by eapply Hcommit].
  - intros [= <- <-]. apply plain_wrap; [done | by eapply Hplain].
Qed.

End handle.

(** ** The apply loop *)

Section apply_loop.
Context {P : Type} `{PebbleReliable P} `{!PebbleRange P} `{BatchReprLaws}.
Variable d : RaftDB.DB P.
Hypothesis Hraft : hraft_ok (RaftDB.d_raft d).
(** The node leads and its entries are committed. *)
Hypothesis Hquorum : forall p cmd, exists r p', h_Apply (RaftDB.d_raft d) p cmd = (Ok r, p').

Lemma applyEntry_total b (p : P) : exists p', RaftDB.applyEntry d (Repr b) p = (Ok tt, p') /\ p_commit p b = Ok p'.
Proof.
  destruct (Hquorum p (Repr b)) as (r & p' & E). destruct (Hraft _ _ _ _ E) as (i & t & Ha).
  unfold fsm.Apply in Ha. cbn [lg_Type lg_Data] in Ha. rewrite bool_decide_false in Ha by apply Repr_nonempty.
  cbn in Ha. rewrite SetRepr_Repr in Ha. unfold flush in Ha. destruct (p_commit_total p b) as [p2 Hp]. rewrite Hp in Ha.
  injection Ha as <- <-. exists p2. split; [|done]. unfold RaftDB.applyEntry. by rewrite E.
Qed.

Lemma raft_drain room merged bs :
  exists n, RaftDB.drain (fun _ => None) room merged (map Repr bs) =
    (merged ++ concat (take n bs), n, None, map Repr (drop n bs)) /\ (n <= length bs)%nat.
Proof.
  revert merged bs. induction room as [|room IH]; intros merged [|b bs]; cbn;
    try (exists O; cbn; rewrite app_nil_r; split; [done | lia]).
  rewrite SetRepr_Repr. destruct (IH (merged ++ b) bs) as (n & -> & Hn). exists (S n). cbn. rewrite app_assoc. split; [done | lia].
Qed.

(** Merging is invisible: the batches queued at a leader are applied in channel
    order, as if each had been an entry of its own, and every submitter is told
    so. *)
Lemma applyLoop_sequential fuel (p : P) bs :
  (length bs <= fuel)%nat ->
  exists p', RaftDB.applyLoop d (fun _ => None) fuel (fun _ => true) p (map Repr bs) = (p', replicate (length bs) (Ok tt), [])
    /\ contents p' = fold_left (fun m b => apply_batch b m) bs (contents p).
Proof.
  revert p bs. induction fuel as [|fuel IH]; intros p [|b bs] Hl; cbn in Hl; try lia; try (by exists p).
  cbn [map RaftDB.applyLoop]. unfold RaftDB.apply_round. rewrite SetRepr_Repr.
  destruct (raft_drain (RaftDB.raftMergeBatch - 1) b bs) as (n & -> & Hn). cbn [negb].
  destruct (applyEntry_total (b ++ concat (take n bs)) p) as (p1 & -> & Hp1).
  destruct (IH p1 (drop n bs)) as (p2 & E & Hc); [rewrite length_drop; lia|]. rewrite E. exists p2. split.
  - rewrite app_nil_r, <- replicate_add, length_drop.
    by replace (S n + (length bs - n))%nat with (length (b :: bs)) by (cbn; lia).
  - rewrite Hc, (p_commit_ok _ _ _ Hp1), apply_batch_app, apply_batch_concat, <- fold_left_app, take_drop. done.
Qed.
End apply_loop.

(** ** A concrete serialisation and a group of one *)

Module repr.
Import framed.

Definition op_text (o : kvop) : string :=
  match o with OpSet k v => frame ["s"; k; v] | OpDelete k => frame ["d"; k] end.
Definition text_op (s : string) : option kvop :=
  match unframe s with Some [_; k; v] => Some (OpSet k v) | Some [_; k] => Some (OpDelete k) | _ => None end.

Fixpoint text_ops (l : list string) : option batch :=
  match l with
  | [] => Some []
  | s :: l' => match text_op s, text_ops l' with Some o, Some b => Some (o :: b) | _, _ => None end
  end.

Definition batch_text (b : batch) : string := String "#" (frame (map op_text b)).
Definition text_batch (s : string) : res batch :=
  match s with
  | String _ s' => match unframe s' with
                   | Some l => match text_ops l with Some b => Ok b | None => Err (ErrExternal "batch") end
                   | None => Err (ErrExternal "batch")
                   end
  | EmptyString => Err (ErrExternal "batch")
  end.

Lemma text_op_text o : text_op (op_text o) = Some o.
Proof. destruct o; unfold text_op, op_text; by rewrite unframe_frame. Qed.

Lemma text_batch_text b : text_batch (batch_text b) = Ok b.
Proof.
  unfold text_batch, batch_text. rewrite unframe_frame.
  assert (text_ops (map op_text b) = Some b) as ->; [|done].
  induction b as [|o b IH]; [done|]. cbn [map text_ops]. by rewrite text_op_text, IH.
Qed.

#[export] Instance repr : BatchRepr := { Repr := batch_text; SetRepr := text_batch }.
#[export] Instance repr_laws : BatchReprLaws.
Proof. split; [apply text_batch_text | done]. Qed.
End repr.

(** A node that is its own quorum. *)
Definition single : hraft memstore.store :=
  mkHraft true "n1" (fun p cmd => let (r, p') := fsm.Apply (H0 := repr.repr) (Some (mkLog 1 1 LogCommand cmd)) p in (Ok r, p')).

Definition singleDB : RaftDB.DB memstore.store :=
  RaftDB.mkDB single (mkConfig "/data" false "n1" "127.0.0.1:7000" true [] ∅ 0 0 0 0 0 0) false.

Lemma single_ok : hraft_ok (H0 := repr.repr) single.
Proof.
  intros p cmd r p' E. exists 1, 1. unfold single in E. cbn [h_Apply] in E. destruct (fsm.Apply _ p). by injection E as -> ->.
Qed.

