(* ===== verification/RaftGroup.v ===== *)
(** The group of replicas: nodes that apply the committed log through the state
    machine ([src/internal/raft/fsm.go]), take and restore snapshots
    ([src/internal/raft/snapshot.go]), and stop and start.  Consensus itself
    (the order of the committed log) is the consensus engine's. *)

From S2P Require Import Prelude GoTime Domain Keys PebbleDB RaftStore Snapshot Raft.

(** ** Equality of the replicated state *)

(** Agreement on the keys of the state range; the Raft log and votes of a node
    are its own. *)
Definition same_state (m m' : gmap string string) : Prop :=
  forall k, has_prefix snapshotStatePrefix k = true -> m !! k = m' !! k.

#[export] Instance same_state_equiv : Equivalence same_state.
Proof.
  split.
  - by intros m k.
  - intros m m' H k Hk. by rewrite H.
  - intros m1 m2 m3 H1 H2 k Hk. by rewrite H1, H2.
Qed.

#[export] Instance apply_batch_proper b : Proper (same_state ==> same_state) (apply_batch b).
Proof. intros m m' H k Hk. rewrite !batch_lookup, H by done. done. Qed.

(** Running a prefix again before the whole changes nothing. *)
Lemma apply_again b1 b2 m : apply_batch (b1 ++ b2) (apply_batch b1 m) = apply_batch (b1 ++ b2) m.
Proof.
  apply map_eq. intros k. rewrite !batch_lookup, touched_app.
  by destruct (touched b2 k), (touched b1 k).
Qed.

(** ** Replaying the log *)

Section group.
Context {P : Type} `{PebbleReliable P} `{!PebbleRange P} `{!PebbleRangeLaws P} `{!PebbleRangeReliable P} `{BatchRepr}.

(** The batch of an entry; other entries, and those that do not decode, have
    no effect. *)
Definition entryBatch (l : Log) : batch :=
  if negb (lg_Type l =? LogCommand) || bool_decide (lg_Data l = "") then []
  else match SetRepr (lg_Data l) with Ok b => b | Err _ => [] end.

Definition replay (ls : list Log) (m : gmap string string) : gmap string string :=
  apply_batch (concat (map entryBatch ls)) m.

#[local] Instance replay_proper ls : Proper (same_state ==> same_state) (replay ls).
Proof. apply apply_batch_proper. Qed.

Lemma replay_snoc ls l m : replay (ls ++ [l]) m = apply_batch (entryBatch l) (replay ls m).
Proof. unfold replay. rewrite map_app, concat_app. cbn. by rewrite app_nil_r, apply_batch_app. Qed.

Lemma replay_again n h ls m : (n <= h)%nat -> replay (take h ls) (replay (take n ls) m) = replay (take h ls) m.
Proof.
  intros Hn. unfold replay. replace (take h ls) with (take n ls ++ take (h - n) (drop n ls)).
  - rewrite map_app, concat_app. apply apply_again.
  - rewrite take_take_drop. f_equal. lia.
Qed.

Lemma fsm_Apply_contents l (p p' : P) r :
  fsm.Apply (Some l) p = (r, p') -> contents p' = apply_batch (entryBatch l) (contents p).
Proof.
  unfold fsm.Apply, entryBatch. destruct (_ || _); [by intros [= <- <-]|].
  destruct (SetRepr (lg_Data l)) as [b|e]; [|by intros [= <- <-]]. unfold flush.
  destruct (p_commit_total p b) as [p2 Hp]. rewrite Hp. intros [= <- <-]. by apply p_commit_ok.
Qed.

(** ** Nodes, snapshots and their steps *)

(** [nd_applied] entries have been applied since the last start or restore;
    [nd_high] is the furthest the stored state has ever been. *)
Record node := mkNode { nd_engine : P; nd_applied : nat; nd_high : nat }.

Record group := mkGroup {
  g_log : list Log;
  g_nodes : list node;
  g_snaps : list (nat * nat * string)
}.

Inductive gstep : group -> group -> Prop :=
  | g_commit l ls ns ss : gstep (mkGroup ls ns ss) (mkGroup (ls ++ [l]) ns ss)
  | g_apply i nd l r p' ls ns ss :
      ns !! i = Some nd -> ls !! nd_applied nd = Some l -> fsm.Apply (Some l) (nd_engine nd) = (r, p') ->
      gstep (mkGroup ls ns ss)
        (mkGroup ls (<[i := mkNode p' (S (nd_applied nd)) (Nat.max (nd_high nd) (S (nd_applied nd)))]> ns) ss)
  | g_persist i nd bytes ls ns ss :
      ns !! i = Some nd -> writeSnapshot (nd_engine nd) = Ok bytes ->
      gstep (mkGroup ls ns ss) (mkGroup ls ns ((nd_applied nd, nd_high nd, bytes) :: ss))
  | g_restore i nd n h bytes p' ls ns ss :
      ns !! i = Some nd -> (n, h, bytes) ∈ ss -> fsm.Restore bytes (nd_engine nd) = (Ok tt, p') ->
      gstep (mkGroup ls ns ss) (mkGroup ls (<[i := mkNode p' n h]> ns) ss)
  | g_restart i nd ls ns ss :
      ns !! i = Some nd ->
      gstep (mkGroup ls ns ss) (mkGroup ls (<[i := mkNode (nd_engine nd) 0 (nd_high nd)]> ns) ss).

Definition g_init (g : group) : Prop :=
  g_log g = [] /\ g_snaps g = [] /\
  Forall (fun nd => same_state (contents (nd_engine nd)) ∅ /\ nd_applied nd = O /\ nd_high nd = O) (g_nodes g).

Definition greachable (g : group) : Prop := exists g0, g_init g0 /\ rtc gstep g0 g.

(** The state [m] stands at position [n] of the log over a base from which the
    replay up to [h] gives the state of [h]. *)
Definition at_position (ls : list Log) (n h : nat) (m : gmap string string) : Prop :=
  (n <= h <= length ls)%nat /\
  exists base, same_state m (replay (take n ls) base) /\
    same_state (replay (take h ls) base) (replay (take h ls) ∅).

Lemma at_position_grow ls l n h m : at_position ls n h m -> at_position (ls ++ [l]) n h m.
Proof.
  intros (Hn & B & H1' & H2'). split; [rewrite length_app; cbn; lia|]. exists B.
  rewrite !take_app_le by lia. done.
Qed.

Lemma at_position_apply ls n h m l : at_position ls n h m -> ls !! n = Some l ->
  at_position ls (S n) (Nat.max h (S n)) (apply_batch (entryBatch l) m).
Proof.
  intros (Hn & B & Hm & Hh) Hl. pose proof (lookup_lt_Some _ _ _ Hl) as Hlt. split; [lia|]. exists B.
  rewrite (take_S_r _ _ _ Hl), replay_snoc. split; [by rewrite Hm|].
  destruct (decide (S n <= h)%nat).
  - by rewrite Nat.max_l by lia.
  - assert (h = n) as -> by lia. rewrite Nat.max_r by lia. rewrite (take_S_r _ _ _ Hl), !replay_snoc. by rewrite Hh.
Qed.

Lemma at_position_restart ls n h m : at_position ls n h m -> at_position ls 0 h m.
Proof.
  intros (Hn & B & Hm & Hh). split; [lia|]. exists m. split; [done|]. rewrite Hm, replay_again by lia. done.
Qed.

Lemma at_position_same ls n h m m' : same_state m' m -> at_position ls n h m -> at_position ls n h m'.
Proof. intros Hs (Hn & B & Hm & Hh). split; [done|]. exists B. by rewrite Hs. Qed.

Lemma caught_up ls n m : at_position ls n n m -> same_state m (replay (take n ls) ∅).
Proof. intros (_ & B & Hm & Hh). by rewrite Hm. Qed.

Record GroupInv (g : group) : Prop := {
  gi_nodes : Forall (fun nd => at_position (g_log g) (nd_applied nd) (nd_high nd) (contents (nd_engine nd))) (g_nodes g);
  gi_snaps : Forall (fun '(n, h, bytes) =>
    exists p, writeSnapshot p = Ok bytes /\ at_position (g_log g) n h (contents (P := P) p)) (g_snaps g)
}.

(** A restored engine has the state the snapshot was taken of. *)
Lemma restored_state bytes (p q q' : P) :
  writeSnapshot p = Ok bytes -> fsm.Restore bytes q = (Ok tt, q') -> same_state (contents q') (contents p).
Proof.
  intros Hw Hr. assert (Forall fits (range_pairs (contents p) snapshotStatePrefix (Some snapshotStateEnd))) as Hf.
  { unfold writeSnapshot in Hw. rewrite p_scan_total in Hw. destruct (writeEntries _) as [b|] eqn:E; [|done].
    by eapply writeEntries_fits. }
  destruct (snapshot_roundtrip_lemma p q Hf) as (bytes' & q2 & Hw' & Hr' & Hq).
  rewrite Hw in Hw'. injection Hw' as <-. unfold fsm.Restore in Hr. rewrite Hr' in Hr. injection Hr as <-.
  intros k Hk. by rewrite Hq, Hk.
Qed.

Lemma gstep_inv g g' : gstep g g' -> GroupInv g -> GroupInv g'.
Proof.
  intros Hst [Hn Hs]. destruct Hst; cbn [g_log g_nodes g_snaps] in *; (split; cbn [g_log g_nodes g_snaps]); try done.
  - eapply Forall_impl; [exact Hn|]. intros nd. apply at_position_grow.
  - eapply Forall_impl; [exact Hs|]. intros [[n h] bytes] (p & ? & ?). exists p. split; [done|]. by apply at_position_grow.
  - apply Forall_insert; [done|]. cbn. erewrite fsm_Apply_contents by done.
    apply at_position_apply; [|done]. rewrite Forall_forall in Hn. apply Hn. by eapply list_elem_of_lookup_2.
  - constructor; [|done]. exists (nd_engine nd). split; [done|]. rewrite Forall_forall in Hn. apply Hn. by eapply list_elem_of_lookup_2.
  - apply Forall_insert; [done|]. cbn. rewrite Forall_forall in Hs. destruct (Hs _ H4) as (p & Hw & Hp).
    eapply at_position_same; [by eapply restored_state | exact Hp].
  - apply Forall_insert; [done|]. cbn. rewrite Forall_forall in Hn. eapply at_position_restart, Hn. by eapply list_elem_of_lookup_2.
Qed.

Lemma greachable_inv g : greachable g -> GroupInv g.
Proof.
  intros (g0 & (El & Es & Hn) & Hst). assert (GroupInv g0) as I0.
  { split; rewrite ?El, ?Es; [|constructor]. eapply Forall_impl; [exact Hn|]. intros nd (Hm & -> & ->).
    split; [cbn; lia|]. by exists ∅. }
  clear Hn El Es. induction Hst; [done|]. eauto using gstep_inv.
Qed.

(** C9. The replicas agree.  Whatever entries are committed, applied,
    snapshotted, restored and replayed after a restart, a node that has
    applied the log up to where its state has ever been holds exactly the
    state the committed log prescribes, so two such nodes at the same position
    hold the same queue state. *)
Theorem group_agreement g i j nd nd' :
  greachable g -> g_nodes g !! i = Some nd -> g_nodes g !! j = Some nd' ->
  nd_high nd = nd_applied nd -> nd_high nd' = nd_applied nd' -> nd_applied nd = nd_applied nd' ->
  same_state (contents (nd_engine nd)) (replay (take (nd_applied nd) (g_log g)) ∅) /\
  same_state (contents (nd_engine nd)) (contents (nd_engine nd')).
Proof.
  intros [Hn _]%greachable_inv Hi Hj Hh Hh' He. rewrite Forall_forall in Hn.
  pose proof (Hn _ (list_elem_of_lookup_2 _ _ _ Hi)) as H1'. pose proof (Hn _ (list_elem_of_lookup_2 _ _ _ Hj)) as H2'.
  cbn in H1', H2'. rewrite Hh in H1'. rewrite Hh', <- He in H2'. apply caught_up in H1', H2'.
  split; [done|]. by rewrite H1', H2'.
Qed.
End group.

(** ** A run of two nodes *)

Import repr.

Definition entry1 : Log := mkLog 1 1 LogCommand (Repr [OpSet "codeq/tasks/t1" "body"]).
Definition entry2 : Log := mkLog 2 1 LogCommand (Repr [OpDelete "codeq/tasks/t1"; OpSet "codeq/tasks/t2" "x"]).

(** The first node applies both entries; the second gets its snapshot. *)
Definition e1 : memstore.store := snd (fsm.Apply (Some entry1) ∅).
Definition e2 : memstore.store := snd (fsm.Apply (Some entry2) e1).
Definition bytes2 : string := match writeSnapshot e2 with Ok b => b | Err _ => "" end.
Definition e3 : memstore.store := snd (fsm.Restore bytes2 ∅).

Definition finalGroup : group (P := memstore.store) :=
  mkGroup [entry1; entry2] [mkNode e2 2 2; mkNode e3 2 2] [(2, 2, bytes2)]%nat.

Lemma group_run : greachable finalGroup.
Proof.
  set (n0 := mkNode (P := memstore.store) ∅ 0 0). exists (mkGroup [] [n0; n0] []). split; [by split_and!; repeat constructor|].
  eapply rtc_l; [exact (g_commit entry1 [] [n0; n0] [])|].
  eapply rtc_l; [exact (g_commit entry2 [entry1] [n0; n0] [])|].
  assert (fsm.Apply (Some entry1) (∅ : memstore.store) = (Ok tt, e1)) as E1 by (vm_compute; reflexivity).
  assert (fsm.Apply (Some entry2) e1 = (Ok tt, e2)) as E2 by (vm_compute; reflexivity).
  assert (writeSnapshot e2 = Ok bytes2) as E3 by (vm_compute; reflexivity).
  assert (fsm.Restore bytes2 (∅ : memstore.store) = (Ok tt, e3)) as E4 by (vm_compute; reflexivity).
  eapply rtc_l; [exact (g_apply 0 n0 entry1 _ e1 [entry1; entry2] [n0; n0] [] eq_refl eq_refl E1)|].
  eapply rtc_l; [exact (g_apply 0 (mkNode e1 1 1) entry2 _ e2 [entry1; entry2] [mkNode e1 1 1; n0] [] eq_refl eq_refl E2)|].
  eapply rtc_l; [exact (g_persist 0 (mkNode e2 2 2) bytes2 [entry1; entry2] [mkNode e2 2 2; n0] [] eq_refl E3)|].
  eapply rtc_l; [exact (g_restore 1 n0 2 2 bytes2 e3 [entry1; entry2] [mkNode e2 2 2; n0] [(2, 2, bytes2)]%nat eq_refl ltac:(by left) E4)|].
  apply rtc_refl.
Qed.

Lemma group_agreement_witness : same_state (contents e2) (contents e3).
Proof.
  exact (proj2 (group_agreement finalGroup 0 1 (mkNode e2 2 2) (mkNode e3 2 2) group_run eq_refl eq_refl eq_refl eq_refl eq_refl)).
Defined.
