(* ===== verification/RaftAddr.v ===== *)
(** The addresses of the raft groups ([src/pkg/app/raft_addr.go]): one group per
    shard, at the base port plus the shard's index, and the parts of package net
    that take an address apart and put it together. *)

From stdpp Require Import pretty.
From S2P Require Import Prelude GoTime Domain Keys GoText GoParse.

(** ** Package net *)

Module goNet.

(** [*net.AddrError]. *)
Definition addrError {A} (addr why : string) : res A :=
  Err (ErrText ((if bool_decide (addr = "") then "" else "address " +:+ addr +:+ ": ") +:+ why)).

Definition SplitHostPort (hostport : string) : res (string * string) :=
  match cutLast ":" hostport with
  | None => addrError hostport "missing port in address"
  | Some (before, port) =>
      match hostport with
      | String "[" inner =>
          match cut "]" inner with
          | None => addrError hostport "missing ']' in address"
          | Some (host, rest) =>
              if bool_decide (rest = "") then addrError hostport "missing port in address"
              else if bool_decide (rest = String ":" port) then
                if elem "[" inner then addrError hostport "unexpected '[' in address"
                else if elem "]" rest then addrError hostport "unexpected ']' in address"
                else Ok (host, port)
              else if has_prefix ":" rest then addrError hostport "too many colons in address"
              else addrError hostport "missing port in address"
          end
      | _ =>
          if elem ":" before then addrError hostport "too many colons in address"
          else if elem "[" hostport then addrError hostport "unexpected '[' in address"
          else if elem "]" hostport then addrError hostport "unexpected ']' in address"
          else Ok (before, port)
      end
  end.

Definition JoinHostPort (host port : string) : string :=
  if elem ":" host then "[" +:+ host +:+ "]:" +:+ port else host +:+ ":" +:+ port.

(** [*strconv.NumError] of a text [Atoi] refuses. *)
Definition atoiError (s : string) : error :=
  let digits := match s with String a s' => if Ascii.eqb a "-" || Ascii.eqb a "+" then s' else s | EmptyString => s end in
  ErrText ("strconv.Atoi: parsing " +:+ quoted s +:+ match decimal digits with Some _ => ": value out of range" | None => ": invalid syntax" end).
End goNet.
Import goNet.

(** ** The addresses of a shard *)

Definition bindAddrForShard (baseAddr : string) (shardIdx : Z) : res string :=
  if bool_decide (baseAddr = "") then Err (ErrText "bindAddrForShard: empty base address")
  else match SplitHostPort baseAddr with
       | Err e => Err (ErrWrap "bindAddrForShard" e)
       | Ok (host, portStr) =>
           match Atoi portStr with
           | None => Err (ErrWrap ("bindAddrForShard: invalid port " +:+ quoted portStr) (atoiError portStr))
           | Some port =>
               if port =? 0 then
                 if 0 <? shardIdx then Err (ErrText ("bindAddrForShard: port 0 only supported with shardIdx=0 (got " +:+ pretty shardIdx +:+ ")"))
                 else Ok baseAddr
               else Ok (JoinHostPort host (pretty (wrap64 (port + shardIdx))))
           end
       end.

Fixpoint peersLoop (l : list (string * string)) (shardIdx : Z) (out : gmap string string) : res (gmap string string) :=
  match l with
  | [] => Ok out
  | (id, addr) :: rest =>
      match bindAddrForShard addr shardIdx with
      | Err e => Err (ErrWrap ("peersForShard: peer " +:+ id) e)
      | Ok shardAddr => peersLoop rest shardIdx (<[id := shardAddr]> out)
      end
  end.

(** [order] is the order in which Go visits the map. *)
Definition peersForShard (order : list (string * string) -> list (string * string)) (basePeers : gmap string string) (shardIdx : Z)
  : res (gmap string string) :=
  if bool_decide (basePeers = ∅) then Ok ∅ else peersLoop (order (map_to_list basePeers)) shardIdx ∅.

(** ** Integers in text *)

Lemma digit_val_pretty (d : N) : (d < 10)%N -> digit_val (pretty_N_char d) = Some (Z.of_N d).
Proof.
  intros Hd. assert (d = 0 \/ d = 1 \/ d = 2 \/ d = 3 \/ d = 4 \/ d = 5 \/ d = 6 \/ d = 7 \/ d = 8 \/ d = 9)%N as E by lia.
  by repeat destruct E as [->|E]; [..|rewrite E].
Qed.

Lemma digits_val_pretty (n : N) : forall s, digits_val (pretty_N_go n s) 0 = digits_val s (Z.of_N n).
Proof.
  induction (N.lt_wf_0 n) as [n _ IH]. intros s. destruct (decide (0 < n)%N) as [Hn|Hn]; [|by replace n with 0%N by lia].
  rewrite pretty_N_go_step by done. rewrite IH by (apply N.div_lt; lia). cbn [digits_val].
  rewrite digit_val_pretty by (apply N.mod_lt; lia). f_equal. rewrite N2Z.inj_mod, N2Z.inj_div. pose proof (Z.div_mod (Z.of_N n) 10). lia.
Qed.

Lemma all_digits_pretty (n : N) : forall s, all_s is_digit s = true -> all_s is_digit (pretty_N_go n s) = true.
Proof.
  induction (N.lt_wf_0 n) as [n _ IH]. intros s Hs. destruct (decide (0 < n)%N) as [Hn|Hn]; [|by replace n with 0%N by lia].
  rewrite pretty_N_go_step by done. apply IH; [by apply N.div_lt|]. cbn [all_s]. rewrite Hs, andb_true_r.
  pose proof (digit_val_pretty (n mod 10) ltac:(apply N.mod_lt; lia)) as Hd. unfold digit_val in Hd. unfold is_digit, in_range.
  by destruct (_ && _).
Qed.

Lemma pretty_digits (n : Z) : 0 <= n -> all_s is_digit (pretty n) = true.
Proof. intros Hn. destruct n as [|p|p]; [done| |lia]. by apply (all_digits_pretty (Npos p) ""). Qed.

Lemma Atoi_pretty (n : Z) : 0 <= n <= MaxInt64 -> Atoi (pretty n) = Some n.
Proof.
  intros Hn. destruct n as [|p|p]; [done| |lia].
  pose proof (pretty_digits (Zpos p) ltac:(lia)) as Hd. pose proof (digits_val_pretty (Npos p) "") as Hv.
  change (pretty_N_go (Npos p) "") with (pretty (Zpos p)) in Hv. destruct (pretty (Zpos p)) as [|a s]; [done|].
  cbn [all_s] in Hd. apply andb_true_iff in Hd as [Ha _]. unfold Atoi.
  destruct (Ascii.eqb_spec a "-") as [->|_]; [done|]. destruct (Ascii.eqb_spec a "+") as [->|_]; [done|].
  unfold decimal. rewrite Hv. cbn [digits_val]. change (Z.of_N (Npos p)) with (Zpos p). unfold int64_ok.
  rewrite (proj2 (Z.leb_le _ _)) by (unfold MinInt64; lia). by rewrite (proj2 (Z.leb_le _ _)) by lia.
Qed.

(** ** Hosts and ports *)

Lemma cutLast_app c s t : elem c t = false -> cutLast c (s +:+ String c t) = Some (s, t).
Proof.
  intros Ht. assert (cutLast c t = None) as Hn.
  { revert Ht. induction t as [|a t IH]; [done|]. cbn [elem cutLast]. intros [Ha Ht]%orb_false_iff. by rewrite IH, Ha. }
  induction s as [|a s IH]; cbn [cutLast].
  - rewrite app_empty_s. cbn [cutLast]. by rewrite Hn, Ascii.eqb_refl.
  - rewrite app_cons_s. cbn [cutLast]. by rewrite IH.
Qed.

Lemma cut_app c s t : elem c s = false -> cut c (s +:+ String c t) = Some (s, t).
Proof.
  induction s as [|a s IH]; [rewrite app_empty_s; cbn [cut]; by rewrite Ascii.eqb_refl|].
  cbn [elem]. intros [Ha Hs]%orb_false_iff. rewrite app_cons_s. cbn [cut]. by rewrite Ha, IH.
Qed.

(** No colon and no bracket. *)
Definition plain (s : string) : Prop := elem ":" s = false /\ elem "[" s = false /\ elem "]" s = false.

Lemma split_unbracketed hostport : elem "[" hostport = false -> elem "]" hostport = false ->
  SplitHostPort hostport =
    match cutLast ":" hostport with
    | None => addrError hostport "missing port in address"
    | Some (before, port) => if elem ":" before then addrError hostport "too many colons in address" else Ok (before, port)
    end.
Proof.
  intros Ho Hc. unfold SplitHostPort. destruct (cutLast ":" hostport) as [[before port]|]; [|done].
  rewrite Ho, Hc. destruct hostport as [|[[] [] [] [] [] [] [] []] inner]; try reflexivity. discriminate Ho.
Qed.

Lemma SplitHostPort_Join host port : elem "[" host = false -> elem "]" host = false -> plain port ->
  SplitHostPort (JoinHostPort host port) = Ok (host, port).
Proof.
  intros Ho Hc (Hp & Hpo & Hpc). unfold JoinHostPort. destruct (elem ":" host) eqn:Eh.
  - unfold SplitHostPort.
    replace (cutLast ":" ("[" +:+ host +:+ "]:" +:+ port)) with (Some ("[" +:+ host +:+ "]", port))
      by (symmetry; rewrite <- (cutLast_app ":" ("[" +:+ host +:+ "]") port Hp); by rewrite !app_assoc_s).
    change ("[" +:+ host +:+ "]:" +:+ port) with (String "[" (host +:+ String "]" (String ":" port))).
    cbv iota beta. rewrite cut_app by done. rewrite bool_decide_eq_false_2, bool_decide_eq_true_2 by done.
    rewrite elem_app, Ho. cbn [orb elem]. by rewrite Hpo, Hpc.
  - assert (forall c, Ascii.eqb ":" c = false -> elem c host = false -> elem c port = false -> elem c (host +:+ ":" +:+ port) = false) as Hn.
    { intros c Hcc Hh Hpp. rewrite elem_app, Hh. change (elem c (String ":" port) = false). cbn [elem]. by rewrite Hcc, Hpp. }
    rewrite split_unbracketed by (by apply Hn). change (":" +:+ port) with (String ":" port). rewrite cutLast_app by done. by rewrite Eh.
Qed.

(** ** Addresses *)

Lemma pretty_plain n : 0 <= n -> plain (pretty n).
Proof. intros Hn. apply pretty_digits in Hn. split_and!; by eapply all_s_elem. Qed.

(** A group listens at the base port plus the index of its shard. *)
Lemma bindAddr_shift host port i : elem "[" host = false -> elem "]" host = false -> 0 < port -> 0 <= i -> port + i <= MaxInt64 ->
  bindAddrForShard (JoinHostPort host (pretty port)) i = Ok (JoinHostPort host (pretty (port + i))).
Proof.
  intros Ho Hc Hp Hi Hm. unfold bindAddrForShard.
  rewrite bool_decide_eq_false_2 by (unfold JoinHostPort; destruct (elem ":" host); [done|]; by intros [_ ?]%app_is_nil_s).
  rewrite SplitHostPort_Join by (try done; apply pretty_plain; lia). rewrite Atoi_pretty by lia.
  rewrite (proj2 (Z.eqb_neq port 0)) by lia. rewrite wrap64_id; [done|]. unfold MinInt64, MaxInt64 in *. lia.
Qed.

Lemma JoinHostPort_inj host p q : plain p -> plain q -> elem "[" host = false -> elem "]" host = false ->
  JoinHostPort host p = JoinHostPort host q -> p = q.
Proof. intros Hp Hq Ho Hc E. apply (f_equal SplitHostPort) in E. rewrite !SplitHostPort_Join in E by done. by injection E. Qed.

Lemma peersLoop_spec l i : NoDup (l.*1) -> forall out : gmap string string,
  match peersLoop l i out with
  | Ok out' => forall id, out' !! id = match (list_to_map l : gmap string string) !! id with
                                       | Some base => match bindAddrForShard base i with Ok a => Some a | Err _ => None end
                                       | None => out !! id
                                       end /\
                          forall base, (id, base) ∈ l -> exists a, bindAddrForShard base i = Ok a
  | Err e => exists id base e', (id, base) ∈ l /\ bindAddrForShard base i = Err e' /\ e = ErrWrap ("peersForShard: peer " +:+ id) e'
  end.
Proof.
  induction l as [|[id base] l IH]; intros Hn out; cbn [peersLoop].
  { intros id. split; [done|]. intros base Hb. by apply elem_of_nil in Hb. }
  apply NoDup_cons in Hn as [Hid Hn]. destruct (bindAddrForShard base i) as [a|e] eqn:Eb; [|exists id, base, e; split; [left | done]].
  specialize (IH Hn (<[id := a]> out)). destruct (peersLoop l i (<[id := a]> out)) as [out'|e].
  - intros id'. destruct (IH id') as [Hl Hall]. split.
    + rewrite Hl. change (list_to_map ((id, base) :: l) : gmap string string) with (<[id := base]> (list_to_map l : gmap string string)).
      destruct (decide (id = id')) as [<-|Hne]; [|by rewrite !lookup_insert_ne].
      rewrite (not_elem_of_list_to_map_1 (M := gmap string) l id Hid), !lookup_insert_eq. by rewrite Eb.
    + intros base' [[= -> ->]|Hb]%elem_of_cons; eauto.
  - destruct IH as (id' & base' & e' & Hin & ?). exists id', base', e'. split; [by right | done].
Qed.

(** The address a node has of a peer's shard is the one the peer derives from the
    same base address, and a base address that cannot be shifted is refused,
    whatever the order of the map. *)
Theorem shard_addresses order peers i : (forall l, order l ≡ₚ l) ->
  match peersForShard order peers i with
  | Ok out => forall id addr, out !! id = Some addr <-> exists base, peers !! id = Some base /\ bindAddrForShard base i = Ok addr
  | Err e => exists id base e', peers !! id = Some base /\ bindAddrForShard base i = Err e' /\ e = ErrWrap ("peersForShard: peer " +:+ id) e'
  end.
Proof.
  intros Horder. unfold peersForShard. case_bool_decide as He.
  { subst. intros id addr. split; [done|]. by intros (base & Hb & _). }
  assert (NoDup ((order (map_to_list peers)).*1)) as Hn by (rewrite Horder; apply NoDup_fst_map_to_list).
  assert ((list_to_map (order (map_to_list peers)) : gmap string string) = peers) as Hm
    by (rewrite <- (list_to_map_to_list peers) at 2; apply list_to_map_proper; [done | apply Horder]).
  pose proof (peersLoop_spec _ i Hn ∅) as Hs. destruct (peersLoop _ i ∅) as [out|e].
  - intros id addr. destruct (Hs id) as [Hl Hall]. rewrite Hm in Hl. rewrite Hl. split.
    + destruct (peers !! id) as [base|]; [|done]. destruct (bindAddrForShard base i) as [a|] eqn:Ea; [|done]. intros [= <-]. eauto.
    + intros (base & Hb & Ha). by rewrite Hb, Ha.
  - destruct Hs as (id & base & e' & Hin & Hb & ->). exists id, base, e'. split; [|done].
    apply elem_of_map_to_list. by rewrite <- (Horder (map_to_list peers)).
Qed.

(** The addresses of two shards of a node differ. *)
Lemma shards_apart host port i j a : elem "[" host = false -> elem "]" host = false -> 0 < port ->
  0 <= i -> port + i <= MaxInt64 -> 0 <= j -> port + j <= MaxInt64 ->
  bindAddrForShard (JoinHostPort host (pretty port)) i = Ok a -> bindAddrForShard (JoinHostPort host (pretty port)) j = Ok a -> i = j.
Proof.
  intros Ho Hc Hp Hi Hpi Hj Hpj. rewrite !bindAddr_shift by done. intros [= <-] [= E].
  apply JoinHostPort_inj in E; [|apply pretty_plain; lia|apply pretty_plain; lia|done|done]. apply (inj pretty) in E. lia.
Qed.

(** An ephemeral port serves one shard only, and a port past 65535 is not refused. *)
Lemma raft_addr_run :
  bindAddrForShard ":7000" 2 = Ok ":7002" /\ bindAddrForShard "[::1]:7000" 1 = Ok "[::1]:7001" /\
  bindAddrForShard "node1:0" 0 = Ok "node1:0" /\ is_ok (bindAddrForShard "node1:0" 1) = false /\
  bindAddrForShard "node1:65535" 1 = Ok "node1:65536" /\ is_ok (bindAddrForShard "::1:7000" 0) = false.
Proof. vm_compute. repeat split. Qed.
