(* ===== verification/MuxTransport.v ===== *)
(** One listener for all raft groups ([src/internal/raft/mux_transport.go]): the
    acceptor reads a group id from each connection and hands the connection to
    the layer of that group.

    [mstep] interleaves the accept loop, the goroutines that route connections,
    the layers' [Accept] and the closing of layers and acceptor.  A connection is
    a number with the bytes the peer sends on it. *)

From stdpp Require Import pretty relations.
From S2P Require Import Prelude GoTime Domain Keys PebbleDB Snapshot.

(** A stream layer; [ly_draining]: some [closeQueue] has not seen the queue empty
    yet. *)
Record layer := mkLayer { ly_queue : list nat; ly_closed : bool; ly_draining : bool }.

(** The acceptor: the map of groups, which [Close] empties, and the layers, which
    the transports keep. *)
Record mux := mkMux { mx_closed : bool; mx_groups : gset Z; mx_layers : gmap Z layer }.

Module muxAcceptor.

Definition queueSize : nat := 32.

Definition NewMuxAcceptor : mux := mkMux false ∅ ∅.

Definition newMuxStreamLayer : layer := mkLayer [] false false.

Definition RegisterGroup (groupID : Z) : M mux unit := fun a =>
  if mx_closed a then (Err (ErrText "mux: acceptor closed"), a)
  else if bool_decide (groupID ∈ mx_groups a) then (Err (ErrText ("mux: groupID " +:+ pretty groupID +:+ " already registered")), a)
  else (Ok tt, mkMux (mx_closed a) ({[ groupID ]} ∪ mx_groups a) (<[groupID := newMuxStreamLayer]> (mx_layers a))).

(** The group of a connection that sends [data], when it is registered. *)
Definition routeConn (a : mux) (data : string) : option Z :=
  if bool_decide (String.length data < 4)%nat then None
  else let groupID := be_value (take_s 4 data) in
       if bool_decide (groupID ∈ mx_groups a) then Some groupID else None.

(** What [Dial] writes before the transport's own bytes. *)
Definition Dial (groupID : Z) (rest : string) : string := be4 groupID +:+ rest.

(** Enqueue, dequeue and close a layer. *)
Definition pushed (c : nat) (l : layer) : layer := mkLayer (ly_queue l ++ [c]) (ly_closed l) (ly_draining l).
Definition popped (q : list nat) (l : layer) : layer := mkLayer q (ly_closed l) (ly_draining l).
Definition closing (l : layer) : layer := mkLayer (ly_queue l) true true.
Definition drained (l : layer) : layer := mkLayer (ly_queue l) (ly_closed l) false.

(** [Close] up to the unlock; it then closes the layers. *)
Definition Close (a : mux) : mux := mkMux true ∅ (mx_layers a).
Definition set_layer (g : Z) (l : layer) (a : mux) : mux := mkMux (mx_closed a) (mx_groups a) (<[g := l]> (mx_layers a)).
End muxAcceptor.

(** ** Connections in motion *)

Inductive place := Reading | Pushing (g : Z) | InQueue (g : Z) | Handed (g : Z) | Hung.

Record world := mkWorld { wd_mux : mux; wd_conns : gmap nat (string * place) }.

Definition at_place (c : nat) (data : string) (p : place) (m : mux) (w : world) : world := mkWorld m (<[c := (data, p)]> (wd_conns w)).

Section steps.
Import muxAcceptor.

(** The steps that need no call of [Accept]. *)
Inductive istep : world -> world -> Prop :=
  | m_register w g m : RegisterGroup g (wd_mux w) = (Ok tt, m) -> istep w (mkWorld m (wd_conns w))
  | m_accept w c data : mx_closed (wd_mux w) = false -> wd_conns w !! c = None -> istep w (at_place c data Reading (wd_mux w) w)
  | m_route w c data : wd_conns w !! c = Some (data, Reading) ->
      istep w (at_place c data (match routeConn (wd_mux w) data with Some g => Pushing g | None => Hung end) (wd_mux w) w)
  | m_push w c data g l : wd_conns w !! c = Some (data, Pushing g) -> mx_layers (wd_mux w) !! g = Some l -> (length (ly_queue l) < queueSize)%nat ->
      istep w (at_place c data (InQueue g) (set_layer g (pushed c l) (wd_mux w)) w)
  | m_refuse w c data g l : wd_conns w !! c = Some (data, Pushing g) -> mx_layers (wd_mux w) !! g = Some l -> ly_closed l = true ->
      istep w (at_place c data Hung (wd_mux w) w)
  | m_close w : istep w (mkWorld (Close (wd_mux w)) (wd_conns w))
  | m_close_layer w g l : mx_layers (wd_mux w) !! g = Some l -> istep w (mkWorld (set_layer g (closing l) (wd_mux w)) (wd_conns w))
  | m_drain w g l c q data p : mx_layers (wd_mux w) !! g = Some l -> ly_draining l = true -> ly_queue l = c :: q -> wd_conns w !! c = Some (data, p) ->
      istep w (at_place c data Hung (set_layer g (popped q l) (wd_mux w)) w)
  | m_drained w g l : mx_layers (wd_mux w) !! g = Some l -> ly_queue l = [] -> istep w (mkWorld (set_layer g (drained l) (wd_mux w)) (wd_conns w)).

Inductive mstep : world -> world -> Prop :=
  | m_inner w w' : istep w w' -> mstep w w'
  | m_take w g l c q data p : mx_layers (wd_mux w) !! g = Some l -> ly_queue l = c :: q -> wd_conns w !! c = Some (data, p) ->
      mstep w (at_place c data (Handed g) (set_layer g (popped q l) (wd_mux w)) w).
End steps.

Definition mux_reachable (w : world) : Prop := rtc mstep (mkWorld muxAcceptor.NewMuxAcceptor ∅) w.

(** ** Connections reach their group *)

Definition wants (data : string) (g : Z) : Prop := (4 <= String.length data)%nat /\ be_value (take_s 4 data) = g.

Record MuxInv (w : world) : Prop := {
  mi_layers g l : mx_closed (wd_mux w) = false -> mx_layers (wd_mux w) !! g = Some l -> g ∈ mx_groups (wd_mux w);
  mi_queue g l c : mx_layers (wd_mux w) !! g = Some l -> c ∈ ly_queue l -> exists data, wd_conns w !! c = Some (data, InQueue g);
  mi_nodup g l : mx_layers (wd_mux w) !! g = Some l -> NoDup (ly_queue l);
  mi_wants c data p : wd_conns w !! c = Some (data, p) -> match p with Pushing g | InQueue g | Handed g => wants data g | _ => True end
}.

Section routing.
Import muxAcceptor.

Lemma routeConn_wants a data g : routeConn a data = Some g -> wants data g /\ g ∈ mx_groups a.
Proof. unfold routeConn. case_bool_decide; [done|]. case_bool_decide; [|done]. intros [= <-]. split; [split; [lia | done] | done]. Qed.

Lemma wants_dial g g' rest : 0 <= g <= maxUint32 -> wants (Dial g rest) g' -> g' = g.
Proof.
  intros Hg [_ <-]. unfold Dial. pose proof (take_app_s (be4 g) rest) as Ht. rewrite be4_length in Ht. rewrite Ht. by apply be4_value.
Qed.

(** A step that changes one connection and takes it out of, or puts it into, the
    queue of one layer. *)
Lemma mux_move_inv w c data p p' g l l' : MuxInv w -> wd_conns w !! c = Some (data, p) ->
  match p' with Pushing g | InQueue g | Handed g => wants data g | _ => True end ->
  mx_layers (wd_mux w) !! g = Some l -> NoDup (ly_queue l') ->
  (forall x, x ∈ ly_queue l' -> (x <> c /\ x ∈ ly_queue l) \/ (x = c /\ p' = InQueue g)) ->
  (p <> InQueue g -> forall h, p <> InQueue h) ->
  MuxInv (at_place c data p' (set_layer g l' (wd_mux w)) w).
Proof.
  intros I Hc Hp' Hl Hn Hq Hnot. split; cbn.
  - intros g0 l0 Hcl [[<- _]|[_ Hl0]]%lookup_insert_Some; eapply mi_layers; eauto.
  - intros g0 l0 x [[<- <-]|[Hne Hl0]]%lookup_insert_Some Hx.
    + destruct (Hq x Hx) as [[Hxc Hx']|[-> ->]]; [|exists data; by rewrite lookup_insert_eq].
      rewrite lookup_insert_ne by done. by eapply mi_queue.
    + destruct (mi_queue _ I _ _ _ Hl0 Hx) as [d Hd]. destruct (decide (x = c)) as [->|Hxc]; [|exists d; by rewrite lookup_insert_ne].
      rewrite Hc in Hd. injection Hd as <- ->. exfalso. assert (InQueue g0 <> InQueue g) as Hg by congruence. by apply (Hnot Hg g0).
  - intros g0 l0 [[<- <-]|[_ Hl0]]%lookup_insert_Some; [done | by eapply mi_nodup].
  - intros x d q [[<- [= <- <-]]|[_ Hx]]%lookup_insert_Some; [done | by eapply mi_wants].
Qed.

(** A step that changes a layer but not its queue. *)
Lemma relayer_inv w g l l' : MuxInv w -> mx_layers (wd_mux w) !! g = Some l -> ly_queue l' = ly_queue l ->
  MuxInv (mkWorld (set_layer g l' (wd_mux w)) (wd_conns w)).
Proof.
  intros I Hl Hq. split; cbn.
  - intros g0 l0 Hcl [[<- _]|[_ Hl0]]%lookup_insert_Some; eapply mi_layers; eauto.
  - intros g0 l0 x [[<- <-]|[_ Hl0]]%lookup_insert_Some; [rewrite Hq|]; by eapply mi_queue.
  - intros g0 l0 [[<- <-]|[_ Hl0]]%lookup_insert_Some; [rewrite Hq|]; by eapply mi_nodup.
  - apply (mi_wants _ I).
Qed.

(** A step that changes a connection that is in no queue. *)
Lemma mux_aside_inv w c data p p' : MuxInv w -> wd_conns w !! c = Some (data, p) \/ wd_conns w !! c = None -> (forall g, p <> InQueue g) ->
  match p' with Pushing g | InQueue g | Handed g => wants data g | _ => True end -> MuxInv (at_place c data p' (wd_mux w) w).
Proof.
  intros I Hc Hp Hp'. split; cbn.
  - apply (mi_layers _ I).
  - intros g l x Hl Hx. destruct (mi_queue _ I _ _ _ Hl Hx) as [d Hd]. exists d. rewrite lookup_insert_ne; [done|].
    intros <-. destruct Hc as [Hc|Hc]; rewrite Hc in Hd; [|done]. injection Hd as _ ->. by eapply Hp.
  - apply (mi_nodup _ I).
  - intros x d q [[<- [= <- <-]]|[_ Hx]]%lookup_insert_Some; [done | by eapply mi_wants].
Qed.

Lemma pop_inv w g l c q data p p' : MuxInv w -> mx_layers (wd_mux w) !! g = Some l -> ly_queue l = c :: q ->
  wd_conns w !! c = Some (data, p) -> p' = Hung \/ p' = Handed g -> MuxInv (at_place c data p' (set_layer g (popped q l) (wd_mux w)) w).
Proof.
  intros I Hl Hq Hc Hp'. pose proof (mi_nodup _ I _ _ Hl) as Hn. rewrite Hq in Hn. apply NoDup_cons in Hn as [Hcq Hn].
  destruct (mi_queue _ I _ _ c Hl) as [d Hd]; [rewrite Hq; left|]. rewrite Hc in Hd. injection Hd as <- ->.
  eapply mux_move_inv; [done | exact Hc | | exact Hl | done | | by intros []].
  - destruct Hp' as [->| ->]; [done|]. apply (mi_wants _ I _ _ _ Hc).
  - cbn. intros x Hx. left. split; [by intros -> | rewrite Hq; by right].
Qed.

Lemma mstep_inv w w' : MuxInv w -> mstep w w' -> MuxInv w'.
Proof.
  intros I Hm. destruct Hm as [w w' Hs|w g l c q data p Hl Hq Hc]; [|eapply pop_inv; eauto].
  destruct Hs as [w g m Hm|w c data Hcl Hc|w c data Hc|w c data g l Hc Hl Hlen|w c data g l Hc Hl Hcl|w|w g l Hl|w g l c q data p Hl Hd Hq Hc|w g l Hl Hq].
  - unfold RegisterGroup in Hm. destruct (mx_closed (wd_mux w)) eqn:Ecl; [done|]. case_bool_decide as Hg; [done|]. injection Hm as <-.
    split; cbn; [| | |apply (mi_wants _ I)].
    + intros g0 l0 _ [[<- _]|[_ Hl0]]%lookup_insert_Some; [set_solver|]. apply elem_of_union. right. by eapply mi_layers.
    + intros g0 l0 x [[<- <-]|[_ Hl0]]%lookup_insert_Some Hx; [by apply elem_of_nil in Hx | by eapply mi_queue].
    + intros g0 l0 [[<- <-]|[_ Hl0]]%lookup_insert_Some; [apply NoDup_nil_2 | by eapply mi_nodup].
  - apply (mux_aside_inv w c data Reading Reading); auto.
  - apply (mux_aside_inv w c data Reading); auto. destruct (routeConn (wd_mux w) data) as [g|] eqn:Er; [|done]. by apply routeConn_wants in Er as [? _].
  - pose proof (mi_wants _ I _ _ _ Hc) as Hw. eapply mux_move_inv; [done | exact Hc | done | exact Hl | | |done].
    + cbn. apply NoDup_app. split; [by eapply mi_nodup|]. split; [|apply NoDup_singleton]. intros x Hx Hxc%list_elem_of_singleton. subst x.
      destruct (mi_queue _ I _ _ _ Hl Hx) as [d Hd]. congruence.
    + cbn. intros x [Hx|Hx%list_elem_of_singleton]%elem_of_app; [left; split; [|done] | by right].
      intros ->. destruct (mi_queue _ I _ _ _ Hl Hx) as [d Hd]. congruence.
  - apply (mux_aside_inv w c data (Pushing g)); auto.
  - split; [done | apply (mi_queue _ I) | apply (mi_nodup _ I) | apply (mi_wants _ I)].
  - by apply relayer_inv with l.
  - eapply pop_inv; eauto.
  - by apply relayer_inv with l.
Qed.

Lemma mux_inv w : mux_reachable w -> MuxInv w.
Proof.
  unfold mux_reachable. intros Hr. assert (MuxInv (mkWorld NewMuxAcceptor ∅)) as H0 by (split; cbn; [intros ? ? _|intros ? ? ?|intros ? ?|intros ? ? ?]; by rewrite lookup_empty).
  revert H0. induction Hr as [|w1 w2 w3 Hs _ IH]; [done|]. intros H1. apply IH. by eapply mstep_inv.
Qed.

(** C19. A connection reaches the group it was dialed for, and only once.  However
    the goroutines interleave and whenever layers and acceptor are closed: a
    connection handed to a group, waiting in its queue or about to wait there
    starts with the id of that group, so one that the layer of group [g'] dialed
    belongs to [g']; and a queue holds a connection at most once and none that is
    elsewhere, in another queue, handed out or hung up. *)
Theorem mux_routes w : mux_reachable w ->
  (forall c data g g' rest, wd_conns w !! c = Some (data, Handed g) \/ wd_conns w !! c = Some (data, InQueue g) ->
     data = Dial g' rest -> 0 <= g' <= maxUint32 -> g' = g) /\
  (forall g l c, mx_layers (wd_mux w) !! g = Some l -> NoDup (ly_queue l) /\
     (c ∈ ly_queue l -> exists data, wd_conns w !! c = Some (data, InQueue g))).
Proof.
  intros I%mux_inv. split.
  - intros c data g g' rest Hc -> Hg. symmetry. apply (wants_dial g' g rest Hg). destruct Hc as [Hc|Hc]; apply (mi_wants _ I _ _ _ Hc).
  - intros g l c Hl. split; [by eapply mi_nodup | by eapply mi_queue].
Qed.
End routing.

(** ** Runs *)

Module mux_run.
Import muxAcceptor.

Definition grouped : mux := mkMux false {[ 7 ]} {[ 7 := newMuxStreamLayer ]}.
Definition dialed : string := Dial 7 "hello".
Definition conn (p : place) : gmap nat (string * place) := {[ 0%nat := (dialed, p) ]}.

Lemma routed : mux_reachable (mkWorld grouped (conn (Pushing 7))).
Proof.
  apply (rtc_l _ _ (mkWorld grouped ∅)); [constructor; apply (m_register (mkWorld NewMuxAcceptor ∅) 7); vm_compute; reflexivity|].
  apply (rtc_l _ _ (mkWorld grouped (conn Reading))); [constructor; apply (m_accept (mkWorld grouped ∅) 0 dialed); vm_compute; reflexivity|].
  apply (rtc_l _ _ (mkWorld grouped (conn (Pushing 7)))); [|apply rtc_refl].
  constructor. apply (m_route (mkWorld grouped (conn Reading)) 0 dialed). vm_compute. reflexivity.
Qed.

Lemma mux_routes_witness : exists w, mux_reachable w /\ wd_conns w !! 0%nat = Some (dialed, Handed 7) /\ forall g' rest,
  dialed = Dial g' rest -> 0 <= g' <= maxUint32 -> g' = 7.
Proof.
  exists (mkWorld grouped (conn (Handed 7))).
  assert (mux_reachable (mkWorld grouped (conn (Handed 7)))) as Hr.
  { unfold mux_reachable. etrans; [exact routed|].
    apply (rtc_l _ _ (mkWorld (set_layer 7 (pushed 0 newMuxStreamLayer) grouped) (conn (InQueue 7)))).
    - constructor. apply (m_push (mkWorld grouped (conn (Pushing 7))) 0 dialed 7 newMuxStreamLayer); vm_compute; [reflexivity | reflexivity | lia].
    - apply (rtc_l _ _ (mkWorld grouped (conn (Handed 7)))); [|apply rtc_refl].
      apply (m_take (mkWorld (set_layer 7 (pushed 0 newMuxStreamLayer) grouped) (conn (InQueue 7))) 7 (pushed 0 newMuxStreamLayer) 0 [] dialed (InQueue 7));
        vm_compute; reflexivity. }
  split; [exact Hr|]. split; [vm_compute; reflexivity|]. intros g' rest Hd Hg.
  apply (proj1 (mux_routes _ Hr) 0%nat dialed 7 g' rest); [left; vm_compute; reflexivity | exact Hd | exact Hg].
Defined.

(** A connection routed before [Close] can still enter the queue after it was
    drained: a send and a receive that are both ready are chosen at random.  Then
    it waits in the queue of a closed layer that nobody drains any more. *)
Lemma push_after_close_leaks : exists w l, mux_reachable w /\ mx_closed (wd_mux w) = true /\ mx_layers (wd_mux w) !! 7 = Some l /\
  ly_closed l = true /\ ly_draining l = false /\ ly_queue l = [0%nat] /\ wd_conns w !! 0%nat = Some (dialed, InQueue 7).
Proof.
  pose (l1 := mkLayer [] true true). pose (l2 := mkLayer [] true false). pose (l3 := mkLayer [0%nat] true false).
  pose (m l := mkMux true ∅ {[ 7 := l ]}).
  exists (mkWorld (m l3) (conn (InQueue 7))), l3. split; [|vm_compute; repeat split].
  unfold mux_reachable. etrans; [exact routed|].
  apply (rtc_l _ _ (mkWorld (m newMuxStreamLayer) (conn (Pushing 7)))); [constructor; apply (m_close (mkWorld grouped (conn (Pushing 7))))|].
  apply (rtc_l _ _ (mkWorld (m l1) (conn (Pushing 7)))).
  { constructor. apply (m_close_layer (mkWorld (m newMuxStreamLayer) (conn (Pushing 7))) 7 newMuxStreamLayer). vm_compute. reflexivity. }
  apply (rtc_l _ _ (mkWorld (m l2) (conn (Pushing 7)))).
  { constructor. apply (m_drained (mkWorld (m l1) (conn (Pushing 7))) 7 l1); vm_compute; reflexivity. }
  apply (rtc_l _ _ (mkWorld (m l3) (conn (InQueue 7)))); [|apply rtc_refl].
  constructor. apply (m_push (mkWorld (m l2) (conn (Pushing 7))) 0 dialed 7 l2); vm_compute; [reflexivity | reflexivity | lia].
Qed.
End mux_run.
