(* ===== verification/SubRepo.v ===== *)
(** Worker subscriptions: the Pebble repository
    ([src/internal/repository/pebble/subscription_repository.go]) and the
    service over it ([src/internal/services/subscription_service.go],
    [subscription_cleanup_service.go]): definitions.

    A subscription is stored under its id; an index entry per event type
    carries its expiry and its id, so that a scan of one event type finds the
    subscriptions still alive.  [SubRepo] is the store handle and the in-memory
    counters behind [HasActive]. *)

From S2P Require Import Prelude GoTime Domain Keys GoText LeaseTable PebbleDB.

(** [src/pkg/domain/subscription.go]. *)
Record Subscription := mkSub {
  sub_ID : string;
  sub_CallbackURL : string;
  sub_EventTypes : list string;
  sub_DeliveryMode : string;
  sub_GroupID : string;
  sub_MinIntervalSeconds : Z;
  sub_ExpiresAt : Z;
  sub_CreatedAt : Z
}.

#[export] Instance Subscription_eq_dec : EqDecision Subscription.
Proof. solve_decision. Defined.

Definition set_ExpiresAt (v : Z) (s : Subscription) : Subscription :=
  mkSub (sub_ID s) (sub_CallbackURL s) (sub_EventTypes s) (sub_DeliveryMode s) (sub_GroupID s)
    (sub_MinIntervalSeconds s) v (sub_CreatedAt s).

(** [sonic.Marshal] and [sonic.Unmarshal] on subscriptions. *)
Class SubJSON := {
  marshal_sub : Subscription -> string;
  unmarshal_sub : string -> option Subscription
}.

Class SubJSONLaws `{SubJSON} : Prop := {
  sub_roundtrip s : unmarshal_sub (marshal_sub s) = Some s
}.

(** A codec for the concrete runs; not the format of the store. *)
Module framed_sub.
Import framed.

Definition sub_text (s : Subscription) : string :=
  frame [sub_ID s; sub_CallbackURL s; frame (sub_EventTypes s); sub_DeliveryMode s; sub_GroupID s;
         z_text (sub_MinIntervalSeconds s); z_text (sub_ExpiresAt s); z_text (sub_CreatedAt s)].
Definition text_sub (s : string) : option Subscription :=
  match unframe s with
  | Some [i; u; e; d; g; m; x; c] =>
      match unframe e with
      | Some evts => Some (mkSub i u evts d g (text_z m) (text_z x) (text_z c))
      | None => None
      end
  | _ => None
  end.

#[export] Instance codec : SubJSON := { marshal_sub := sub_text; unmarshal_sub := text_sub }.
#[export] Instance codec_laws : SubJSONLaws.
Proof.
  split. intros []. cbn [unmarshal_sub marshal_sub codec]. unfold text_sub, sub_text.
  rewrite unframe_frame. cbn [sub_EventTypes]. rewrite unframe_frame. cbn. by rewrite !text_z_text.
Qed.
End framed_sub.

(** ** Keys *)

Definition pSub : string := "codeq/sub/".
Definition pSubEvent : string := "codeq/sub_event/".
Definition pSubThrottle : string := "codeq/sub_throttle/".
Definition pSubRR : string := "codeq/sub_rr/".

Definition keySub (id : string) : string := pSub +:+ id.
Definition keySubEvent (cmd : string) (expiresAtUnix : Z) (id : string) : string :=
  (pSubEvent +:+ ToLower cmd +:+ "/") +:+ be8 expiresAtUnix +:+ String "/" id.
Definition prefixSubEvent (cmd : string) : string * option string :=
  let p := pSubEvent +:+ ToLower cmd +:+ "/" in (p, prefixUpper p).
Definition keySubThrottle (id : string) : string := pSubThrottle +:+ id.
Definition keySubRR (cmd groupID : string) : string := pSubRR +:+ ToLower cmd +:+ "/" +:+ groupID.

(** The expiry and the id behind eight bytes and a ['/']. *)
Definition parseTail (rest : string) : option (Z * string) :=
  if (String.length rest <? 9)%nat then None
  else match drop_s 8 rest with
       | String c id => if Ascii.eqb c "/" then Some (beUint64 (take_s 8 rest), id) else None
       | EmptyString => None
       end.

Definition parseSubEventKey (cmd k : string) : option (Z * string) :=
  let base := pSubEvent +:+ ToLower cmd +:+ "/" in
  if negb (has_prefix base k) then None else parseTail (drop_s (String.length base) k).

(** The event type and the expiry, whatever the event type. *)
Definition parseSubEventKeyAny (k : string) : option (string * Z) :=
  if negb (has_prefix pSubEvent k) then None
  else
    let rest := drop_s (String.length pSubEvent) k in
    let sep := indexOf rest "/" in
    if sep <=? 0 then None
    else
      match parseTail (drop_s (Z.to_nat sep + 1) rest) with
      | Some (expires, _) => Some (take_s (Z.to_nat sep) rest, expires)
      | None => None
      end.

(** ** The repository *)

Record SubRepo (P : Type) := mkSubRepo { s_db : DB P; s_active : gmap string Z }.
Arguments mkSubRepo {P}.
Arguments s_db {P}.
Arguments s_active {P}.


Module SubscriptionRepository.
Section ops.
Context {P : Type} `{Pebble P} `{SubJSON}.

Definition set_sdb (d : DB P) (r : SubRepo P) : SubRepo P := mkSubRepo d (s_active r).
Definition sdb {A} (m : M (DB P) A) : M (SubRepo P) A := mlift s_db set_sdb m.

(** [activeCounter(cmd).Add(n)]. *)
Definition activeAdd (cmd : string) (n : Z) : M (SubRepo P) unit :=
  mmod (fun r => mkSubRepo (s_db r) (<[cmd := default 0 (s_active r !! cmd) + n]> (s_active r))).

Definition recoverActiveCounts (now : Z) : M (SubRepo P) unit :=
  let! ks := sdb (Iter (pSubEvent, prefixUpper pSubEvent)) in
  let now := unixSeconds now in
  mfor ks (fun k =>
    match parseSubEventKeyAny k with
    | None => mret tt
    | Some (cmd, expires) => if expires <? now then mret tt else activeAdd cmd 1
    end).

(** Failures of the recovery are ignored. *)
Definition NewSubscriptionRepository (now : Z) (d : DB P) : SubRepo P :=
  snd (recoverActiveCounts now (mkSubRepo d ∅)).

(** [newID] is what [uuid.NewString] returns. *)
Definition Create (newID : string) (now : Z) (sub : Subscription) (ttlSeconds : Z) : M (SubRepo P) Subscription :=
  let id := if bool_decide (sub_ID sub = "") then newID else sub_ID sub in
  let ttlSeconds := if ttlSeconds <=? 0 then 60 else ttlSeconds in
  let sub := mkSub id (sub_CallbackURL sub) (sub_EventTypes sub) (sub_DeliveryMode sub) (sub_GroupID sub)
               (sub_MinIntervalSeconds sub) (now + seconds ttlSeconds) now in
  sdb (CommitBatch (OpSet (keySub id) (marshal_sub sub) ::
         map (fun evt => OpSet (keySubEvent evt (unixSeconds (sub_ExpiresAt sub)) id) "") (sub_EventTypes sub))) ;;!
  mfor (sub_EventTypes sub) (fun evt => activeAdd evt 1) ;;!
  mret sub.

Definition Get (id : string) : M (SubRepo P) Subscription :=
  let! g := mtry (sdb (PebbleDB.Get (keySub id))) in
  match g with
  | Err e => if is_not_found e then mthrow (ErrText "not-found") else mthrow e
  | Ok v =>
      match unmarshal_sub v with
      | None => mthrow (ErrWrap "unmarshal subscription" (ErrExternal "invalid json"))
      | Some s => mret s
      end
  end.

Definition Heartbeat (now : Z) (id : string) (ttlSeconds : Z) : M (SubRepo P) Subscription :=
  let ttlSeconds := if ttlSeconds <=? 0 then 60 else ttlSeconds in
  let! sub := Get id in
  let oldExpires := unixSeconds (sub_ExpiresAt sub) in
  let sub := set_ExpiresAt (now + seconds ttlSeconds) sub in
  let newExpires := unixSeconds (sub_ExpiresAt sub) in
  sdb (CommitBatch (OpSet (keySub id) (marshal_sub sub) ::
         concat (map (fun evt => [OpDelete (keySubEvent evt oldExpires id); OpSet (keySubEvent evt newExpires id) ""])
                   (sub_EventTypes sub)))) ;;!
  mret sub.

Definition HasActive (cmd : string) (r : SubRepo P) : bool :=
  match s_active r !! cmd with Some n => 0 <? n | None => false end.

Definition ListActive (cmd : string) (now : Z) : M (SubRepo P) (list Subscription) :=
  let! ks := sdb (Iter (prefixSubEvent cmd)) in
  let nowUnix := unixSeconds now in
  mfold ks [] (fun out k =>
    match parseSubEventKey cmd k with
    | None => mret out
    | Some (expires, id) =>
        if expires <? nowUnix then mret out
        else
          let! g := mtry (Get id) in
          match g with Err _ => mret out | Ok sub => mret (out ++ [sub]) end
    end).

Definition AllowNotify (now : Z) (id : string) (minIntervalSeconds : Z) : M (SubRepo P) bool :=
  if minIntervalSeconds <=? 0 then mret true
  else
    let key := keySubThrottle id in
    let minIntervalNanos := wrap64 (minIntervalSeconds * second) in
    let! g := mtry (sdb (PebbleDB.Get key)) in
    let stamp := sdb (Set_ key (be8 (nonNegativeInt64 now))) ;;! mret true in
    match g with
    | Err e => if is_not_found e then stamp else mthrow e
    | Ok v =>
        if (8 <=? String.length v)%nat then
          match storedInt64 (beUint64 v) with
          | None => mthrow (ErrText ("invalid throttle timestamp for subscription " +:+ quoted id))
          | Some last => if wrap64 (now - last) <? minIntervalNanos then mret false else stamp
          end
        else stamp
    end.

(** The decisions by id; a later entry of the same id replaces an earlier one. *)
Definition AllowNotifyBatch (now : Z) (subs : list Subscription) : M (SubRepo P) (gmap string bool) :=
  mfold subs ∅ (fun out s =>
    let! ok := AllowNotify now (sub_ID s) (sub_MinIntervalSeconds s) in
    mret (<[sub_ID s := ok]> out)).

Definition NextGroupIndex (cmd groupID : string) (mod_ : Z) : M (SubRepo P) Z :=
  if mod_ <=? 0 then mret 0
  else
    let key := keySubRR cmd groupID in
    let! g := mtry (sdb (PebbleDB.Get key)) in
    let bump current := sdb (Set_ key (be8 (wrapu64 (current + 1)))) ;;! mret (current mod mod_) in
    match g with
    | Ok v => bump (if (8 <=? String.length v)%nat then beUint64 v else 0)
    | Err e => if is_not_found e then bump 0 else mthrow e
    end.

(** Expired index entries in key order: the key, the id and the event type. *)
Fixpoint collectExpired (room : nat) (beforeUnix : Z) (ks : list string) : list (string * string * string) :=
  match room, ks with
  | O, _ | _, [] => []
  | S room', k :: ks' =>
      match parseSubEventKeyAny k with
      | None => collectExpired room beforeUnix ks'
      | Some (cmd, score) =>
          if beforeUnix <=? score then collectExpired room beforeUnix ks'
          else match after_last_slash k with
               | None => collectExpired room beforeUnix ks'
               | Some id => (k, id, cmd) :: collectExpired room' beforeUnix ks'
               end
      end
  end.

Definition CleanupExpired (limit before : Z) : M (SubRepo P) Z :=
  let limit := if limit <=? 0 then 100 else limit in
  let! ks := sdb (Iter (pSubEvent, prefixUpper pSubEvent)) in
  let bucket := collectExpired (Z.to_nat limit) (unixSeconds before) ks in
  match bucket with
  | [] => mret 0
  | _ =>
      sdb (CommitBatch (concat (map (fun '(k, id, _) =>
             [OpDelete k; OpDelete (keySub id); OpDelete (keySubThrottle id)]) bucket))) ;;!
      mfor bucket (fun '(_, _, cmd) => activeAdd cmd (-1)) ;;!
      mret (Z.of_nat (length bucket))
  end.
End ops.
End SubscriptionRepository.

(** ** The service *)

Module subscriptionService.
Section ops.
Context {P : Type} `{Pebble P} `{SubJSON}.
(** The scheme and the host [url.Parse] finds. *)
Variable url_Parse : string -> option (string * string).

Definition Create (newID : string) (now : Z) (callbackURL : string) (eventTypes : list string)
  (deliveryMode groupID : string) (ttlSeconds minIntervalSeconds : Z) : M (SubRepo P) Subscription :=
  if bool_decide (callbackURL = "") then mthrow (ErrText "callbackUrl is required")
  else
    match url_Parse callbackURL with
    | None => mthrow (ErrText "invalid callback url")
    | Some (scheme, host) =>
        if (bool_decide (scheme <> "http") && bool_decide (scheme <> "https")) || bool_decide (host = "")
        then mthrow (ErrText "invalid callback url")
        else
          let eventTypes := match eventTypes with [] => [CmdGenerateMaster; CmdGenerateCreative] | _ => eventTypes end in
          let deliveryMode := if bool_decide (deliveryMode = "") then "fanout" else deliveryMode in
          if negb (bool_decide (deliveryMode = "fanout") || bool_decide (deliveryMode = "group") ||
                   bool_decide (deliveryMode = "hash"))
          then mthrow (ErrText "invalid deliveryMode")
          else if bool_decide (deliveryMode = "group") && bool_decide (groupID = "")
          then mthrow (ErrText "groupId is required")
          else SubscriptionRepository.Create newID now
                 (mkSub "" callbackURL eventTypes deliveryMode groupID minIntervalSeconds zero_time zero_time) ttlSeconds
    end.

Definition Heartbeat (now : Z) (id : string) (ttlSeconds : Z) : M (SubRepo P) Subscription :=
  SubscriptionRepository.Heartbeat now id ttlSeconds.

(** One tick of the cleanup service; a failure is logged. *)
Definition cleanupTick (now : Z) : M (SubRepo P) (res Z) :=
  mtry (SubscriptionRepository.CleanupExpired 1000 now).
End ops.
End subscriptionService.
