(* ===== verification/SubInv.v ===== *)
(** Properties of the subscription repository: the invariant between the
    stored subscriptions and their index, what [ListActive] returns in every
    reachable state, expiry, throttling, round robin, and the counters that a
    restart loses. *)

From S2P Require Import Prelude GoTime Domain Keys GoText LeaseTable PebbleDB SubRepo.

(** ** Keys *)

Definition slash_free (s : string) : Prop := elem "/" s = false.

Lemma slash_lower s : slash_free s -> slash_free (ToLower s).
Proof. unfold slash_free. by rewrite elem_lower by (vm_compute; done). Qed.

(** The four families of keys do not meet. *)
Ltac sub_key_neq :=
  unfold keySub, keySubEvent, keySubThrottle, keySubRR, pSub, pSubEvent, pSubThrottle, pSubRR;
  rewrite ?app_assoc_s, ?app_cons_s; discriminate.

Lemma keySub_event id c e i : keySub id <> keySubEvent c e i.
Proof. sub_key_neq. Qed.
Lemma keySub_throttle id i : keySub id <> keySubThrottle i.
Proof. sub_key_neq. Qed.
Lemma keySub_rr id c g : keySub id <> keySubRR c g.
Proof. sub_key_neq. Qed.
Lemma keyThrottle_event id c e i : keySubThrottle id <> keySubEvent c e i.
Proof. sub_key_neq. Qed.
Lemma keyRR_event c g c' e i : keySubRR c g <> keySubEvent c' e i.
Proof. sub_key_neq. Qed.

#[export] Hint Resolve keySub_event keySub_throttle keySub_rr keyThrottle_event keyRR_event : codeq.

Lemma keySub_inj i j : keySub i = keySub j -> i = j.
Proof. apply app_inj_l. Qed.

Lemma keySubEvent_eq cmd e id : keySubEvent cmd e id = pSubEvent +:+ (ToLower cmd +:+ String "/" (be8 e +:+ String "/" id)).
Proof. unfold keySubEvent. by rewrite !app_assoc_s, app_cons_s, app_empty_s. Qed.

Lemma event_base cmd : pSubEvent +:+ ToLower cmd +:+ "/" = (pSubEvent +:+ ToLower cmd) +:+ "/".
Proof. by rewrite app_assoc_s. Qed.

Lemma keySubEvent_inj c e i c' e' i' : slash_free c -> slash_free c' -> uint64 e -> uint64 e' ->
  keySubEvent c e i = keySubEvent c' e' i' -> ToLower c = ToLower c' /\ e = e' /\ i = i'.
Proof.
  intros Hc Hc' He He'. rewrite !keySubEvent_eq. intros E%app_inj_l.
  apply split_unique in E as [-> E]; [| by apply slash_lower..].
  apply be8_inj in E as [-> E]; [|done..]. by injection E as ->.
Qed.

(** The keys a scan of [cmd] covers are those of [cmd]'s entries. *)
Lemma event_prefix cmd c e i : slash_free cmd -> slash_free c ->
  has_prefix (pSubEvent +:+ ToLower cmd +:+ "/") (keySubEvent c e i) = true <-> ToLower c = ToLower cmd.
Proof.
  intros Hc Hc'. rewrite has_prefix_spec, keySubEvent_eq. split.
  - intros [r E]. rewrite app_assoc_s, app_assoc_s, app_cons_s, app_empty_s in E. apply app_inj_l in E.
    apply split_unique in E as [-> _]; [done | by apply slash_lower..].
  - intros ->. exists (be8 e +:+ String "/" i). by rewrite !app_assoc_s, app_cons_s, app_empty_s.
Qed.

Lemma parseTail_ok e id : uint64 e -> parseTail (be8 e +:+ String "/" id) = Some (e, id).
Proof.
  intros He. unfold parseTail. assert (String.length (be8 e) = 8%nat) as Hl by apply be_bytes_length.
  rewrite length_app_s, Hl. cbn [String.length Nat.add Nat.ltb Nat.leb].
  rewrite <- Hl, drop_app_s, take_app_s. by rewrite <- (app_nil_s (be8 e)), beUint64_be8.
Qed.

Lemma parseSubEventKey_ok cmd c e id : ToLower c = ToLower cmd -> uint64 e ->
  parseSubEventKey cmd (keySubEvent c e id) = Some (e, id).
Proof.
  intros Hc He. unfold parseSubEventKey, keySubEvent. rewrite Hc, has_prefix_app. cbn [negb].
  by rewrite drop_app_s, parseTail_ok.
Qed.

Lemma indexOf_slash s r : slash_free s -> indexOf (s +:+ String "/" r) "/" = slen s.
Proof.
  unfold indexOf, slen, slash_free. intros Hs. enough (forall i, index_from (s +:+ String "/" r) "/" i = i + Z.of_nat (String.length s))
    as -> by lia.
  induction s as [|a s IH]; intros i.
  - rewrite app_empty_s. simpl. lia.
  - rewrite app_cons_s. simpl in Hs. apply orb_false_iff in Hs as [Ha Hs]. cbn [index_from has_prefix].
    rewrite Ascii.eqb_sym, Ha. cbn [andb]. rewrite IH by done. cbn [String.length]. lia.
Qed.

Lemma parseAny_ok cmd e id : slash_free cmd -> uint64 e ->
  parseSubEventKeyAny (keySubEvent cmd e id) = if bool_decide (cmd = "") then None else Some (ToLower cmd, e).
Proof.
  intros Hc He. unfold parseSubEventKeyAny. rewrite keySubEvent_eq, has_prefix_app, drop_app_s. cbn [negb].
  rewrite indexOf_slash by (by apply slash_lower). unfold slen.
  destruct cmd as [|a cmd]; [done|]. rewrite bool_decide_false by done.
  set (c := ToLower (String a cmd)). rewrite Nat2Z.id.
  assert (0 < Z.of_nat (String.length c)) as Hpos by (cbn; lia). rewrite (proj2 (Z.leb_gt _ _)) by done.
  replace (drop_s (String.length c + 1) (c +:+ String "/" (be8 e +:+ String "/" id))) with (be8 e +:+ String "/" id).
  2:{ change (String "/" (be8 e +:+ String "/" id)) with ("/" +:+ (be8 e +:+ String "/" id)).
      rewrite <- app_assoc_s. replace (String.length c + 1)%nat with (String.length (c +:+ "/")) by (by rewrite length_app_s).
      by rewrite drop_app_s. }
  by rewrite parseTail_ok, take_app_s.
Qed.

Lemma event_last_slash cmd e id : slash_free id -> after_last_slash (keySubEvent cmd e id) = Some id.
Proof.
  intros Hid. unfold keySubEvent. rewrite <- app_assoc_s. by apply after_last_slash_app.
Qed.

(** ** What the batches leave *)

Lemma touched_sets {A} (f : A -> string) l k :
  touched (map (fun x => OpSet (f x) "") l) k = if decide (k ∈ map f l) then Some (Some "") else None.
Proof.
  induction l as [|x l IH]; cbn [map touched].
  { by rewrite decide_False by apply not_elem_of_nil. }
  rewrite IH. destruct (decide (k ∈ map f l)); [rewrite decide_True by (by right); done|].
  destruct (decide (f x = k)) as [<-|Hne]; [by rewrite decide_True by left|].
  rewrite decide_False; [done|]. rewrite elem_of_cons. naive_solver.
Qed.

(** Renewed entries: the old ones go, the new ones stay. *)
Lemma touched_renew {A} (old new : A -> string) l k :
  (forall x y, new x = old y -> new y = old y) ->
  touched (concat (map (fun x => [OpDelete (old x); OpSet (new x) ""]) l)) k =
  if decide (k ∈ map new l) then Some (Some "") else if decide (k ∈ map old l) then Some None else None.
Proof.
  intros Hon. induction l as [|x l IH]; cbn [map concat app touched].
  { by rewrite !decide_False by apply not_elem_of_nil. }
  rewrite IH. destruct (decide (k ∈ map new l)); [rewrite decide_True by (by right); done|].
  destruct (decide (new x = k)) as [<-|Hn].
  - rewrite (decide_True (P := new x ∈ new x :: _)) by left. destruct (decide (new x ∈ map old l)) as [Ho|]; [|done].
    exfalso. apply list_elem_of_fmap in Ho as (y & E & Hy). apply n, list_elem_of_fmap. exists y. split; [|done].
    rewrite (Hon x y E). done.
  - rewrite (decide_False (P := k ∈ new x :: _)) by (rewrite elem_of_cons; naive_solver).
    destruct (decide (k ∈ map old l)); [by rewrite decide_True by (by right)|].
    destruct (decide (old x = k)) as [<-|Ho]; [by rewrite decide_True by left|].
    rewrite decide_False; [done|]. rewrite elem_of_cons. naive_solver.
Qed.

(** The keys a cleanup deletes. *)
Definition swept (bucket : list (string * string * string)) : list string :=
  concat (map (fun '(k, id, _) => [k; keySub id; keySubThrottle id]) bucket).

Lemma touched_swept bucket k :
  touched (concat (map (fun '(k, id, _) => [OpDelete k; OpDelete (keySub id); OpDelete (keySubThrottle id)]) bucket)) k =
  if decide (k ∈ swept bucket) then Some None else None.
Proof.
  unfold swept. induction bucket as [|[[k' id] c] l IH]; cbn [map concat app touched].
  { by rewrite decide_False by apply not_elem_of_nil. }
  rewrite IH. destruct (decide (k ∈ concat _)); [rewrite decide_True by (by do 3 right); done|].
  destruct (decide (keySubThrottle id = k)) as [<-|]; [rewrite decide_True; [done|]; do 2 right; left|].
  destruct (decide (keySub id = k)) as [<-|]; [rewrite decide_True; [done|]; right; left|].
  destruct (decide (k' = k)) as [<-|]; [by rewrite decide_True by left|].
  rewrite decide_False; [done|]. rewrite !elem_of_cons. naive_solver.
Qed.

Lemma elem_of_swept bucket k :
  k ∈ swept bucket <-> exists e id c, (e, id, c) ∈ bucket /\ (k = e \/ k = keySub id \/ k = keySubThrottle id).
Proof.
  unfold swept. induction bucket as [|[[e id] c] l IH]; cbn [map concat app].
  - split; [by intros ?%not_elem_of_nil | intros (? & ? & ? & ?%not_elem_of_nil & _); done].
  - rewrite !elem_of_cons, IH. split.
    + intros [->|[->|[->|(e' & i' & c' & Hin & Hk)]]]; [exists e, id, c; split; [by left | tauto]..|].
      exists e', i', c'. split; [by right | done].
    + intros (e' & i' & c' & [[= -> -> ->]|Hin]%elem_of_cons & Hk); [tauto|]. do 3 right. eauto.
Qed.

(** ** The invariant *)

Definition expiry (s : Subscription) : Z := unixSeconds (sub_ExpiresAt s).

Section inv.
Context `{SubJSONLaws}.
Implicit Types (m : gmap string string).

(** [s] is stored under [id]. *)
Definition live_sub m (id : string) (s : Subscription) : Prop :=
  exists v, m !! keySub id = Some v /\ unmarshal_sub v = Some s.

Definition sub_ok (id : string) (s : Subscription) : Prop :=
  sub_ID s = id /\ slash_free id /\ Forall slash_free (sub_EventTypes s) /\ uint64 (expiry s).

(** [cmd] is one of the event types of [s], up to case. *)
Definition subscribed (cmd : string) (s : Subscription) : Prop := ToLower cmd ∈ map ToLower (sub_EventTypes s).

Record SubInv m : Prop := {
  si_body : forall id v, m !! keySub id = Some v -> exists s, unmarshal_sub v = Some s /\ sub_ok id s;
  si_entry : forall id s evt, live_sub m id s -> evt ∈ sub_EventTypes s -> is_Some (m !! keySubEvent evt (expiry s) id);
  si_index : forall k, has_prefix pSubEvent k = true -> is_Some (m !! k) ->
    exists cmd e id, k = keySubEvent cmd e id /\ slash_free cmd /\ uint64 e /\ slash_free id /\
      forall s, live_sub m id s -> e = expiry s /\ subscribed cmd s
}.

Lemma live_sub_fun m id s s' : live_sub m id s -> live_sub m id s' -> s = s'.
Proof. intros (v & Hv & Hu) (v' & Hv' & Hu'). congruence. Qed.

Lemma live_sub_ok m id s : SubInv m -> live_sub m id s -> sub_ok id s.
Proof. intros I (v & Hv & Hu). destruct (si_body _ I id v Hv) as (s' & Hu' & Hs). congruence. Qed.

(** The invariant reads the subscriptions and the index only. *)
Lemma SubInv_frame m m' :
  (forall id, m' !! keySub id = m !! keySub id) ->
  (forall k, has_prefix pSubEvent k = true -> m' !! k = m !! k) ->
  SubInv m -> SubInv m'.
Proof.
  intros Hb Hi [I1 I2 I3].
  assert (forall id s, live_sub m' id s <-> live_sub m id s) as Hl by (intros; unfold live_sub; by rewrite Hb).
  split.
  - intros id v. rewrite Hb. apply I1.
  - intros id s evt Hs Hevt. rewrite Hi by (rewrite keySubEvent_eq; apply has_prefix_app). apply I2; [by apply Hl | done].
  - intros k Hk. rewrite Hi by done. intros Hs. destruct (I3 k Hk Hs) as (cmd & e & id & ? & ? & ? & ? & Hlive).
    exists cmd, e, id. split_and!; try done; intros s Hs'%Hl; by apply Hlive.
Qed.

(** A fresh id: nothing is stored or indexed under it. *)
Definition fresh_sub m (id : string) : Prop :=
  m !! keySub id = None /\ forall cmd e, m !! keySubEvent cmd e id = None.

Definition create_batch (id : string) (s : Subscription) : batch :=
  OpSet (keySub id) (marshal_sub s) :: map (fun evt => OpSet (keySubEvent evt (expiry s) id) "") (sub_EventTypes s).

Lemma elem_event_key s id k :
  k ∈ map (fun evt => keySubEvent evt (expiry s) id) (sub_EventTypes s) <->
  exists evt, k = keySubEvent evt (expiry s) id /\ evt ∈ sub_EventTypes s.
Proof. apply list_elem_of_fmap. Qed.

Lemma create_lookup id s m k :
  apply_batch (create_batch id s) m !! k =
  if decide (k ∈ map (fun evt => keySubEvent evt (expiry s) id) (sub_EventTypes s)) then Some ""
  else if decide (keySub id = k) then Some (marshal_sub s) else m !! k.
Proof.
  rewrite batch_lookup. unfold create_batch. cbn [touched]. rewrite touched_sets.
  destruct (decide (k ∈ _)); [done|]. by destruct (decide (keySub id = k)).
Qed.

Lemma create_body id s m i :
  apply_batch (create_batch id s) m !! keySub i = if decide (id = i) then Some (marshal_sub s) else m !! keySub i.
Proof.
  rewrite create_lookup, decide_False.
  2:{ intros (evt & E & _)%elem_event_key. by apply keySub_event in E. }
  destruct (decide (id = i)) as [->|Hne]; [by rewrite decide_True|].
  rewrite decide_False; [done|]. by intros ?%keySub_inj.
Qed.

Lemma create_live id s m i s' : live_sub (apply_batch (create_batch id s) m) i s' <->
  (i = id /\ s' = s) \/ (i <> id /\ live_sub m i s').
Proof.
  unfold live_sub. setoid_rewrite create_body. destruct (decide (id = i)) as [->|Hne].
  - split.
    + intros (v & [= <-] & Hu). rewrite sub_roundtrip in Hu. injection Hu as <-. auto.
    + intros [[_ ->]|[? _]]; [|done]. eexists. split; [done|]. apply sub_roundtrip.
  - split; [by right | intros [[? _]|[_ ?]]; [by subst | done]].
Qed.

Lemma sub_create_inv id s m : SubInv m -> fresh_sub m id -> sub_ok id s -> SubInv (apply_batch (create_batch id s) m).
Proof.
  intros I [Hf1 Hf2] Hs. split.
  - intros i v. rewrite create_body. destruct (decide (id = i)) as [<-|Hne]; [|apply (si_body _ I)].
    intros [= <-]. exists s. by rewrite sub_roundtrip.
  - intros i s' evt Hl Hevt. rewrite create_lookup. destruct (decide (_ ∈ _)); [by eexists|].
    rewrite decide_False by apply keySub_event. apply create_live in Hl as [[-> ->]|[Hne Hl]]; [|by apply (si_entry _ I)].
    exfalso. apply n, elem_event_key. eauto.
  - intros k Hk. rewrite create_lookup. destruct (decide (_ ∈ _)) as [Hin|Hnin].
    + intros _. apply elem_event_key in Hin as (evt & -> & Hevt). destruct Hs as (Hid & Hsl & Hev & Hexp).
      exists evt, (expiry s), id. split; [done|]. split; [by eapply Forall_forall in Hev|]. split; [done|]. split; [done|].
      intros s' [[_ ->]|[? _]]%create_live; [|done]. split; [done|]. apply list_elem_of_fmap. eauto.
    + destruct (decide (keySub id = k)) as [<-|Hne]; [unfold keySub, pSub, pSubEvent in Hk; rewrite app_cons_s in Hk; simpl in Hk; discriminate|].
      intros Hi. destruct (si_index _ I k Hk Hi) as (cmd & e & i & -> & ? & ? & ? & Hlive).
      exists cmd, e, i. split_and!; try done; intros s' [[-> ->]|[_ Hl]]%create_live; try by apply Hlive.
      all: rewrite Hf2 in Hi; by destruct Hi.
Qed.

(** The batch of a heartbeat that moves the expiry from that of [s] to [t]. *)
Definition renew_batch (id : string) (s : Subscription) (t : Z) : batch :=
  OpSet (keySub id) (marshal_sub (set_ExpiresAt t s)) ::
  concat (map (fun evt => [OpDelete (keySubEvent evt (expiry s) id); OpSet (keySubEvent evt (unixSeconds t) id) ""])
            (sub_EventTypes s)).

Lemma renew_lookup id s t m k : sub_ok id s -> uint64 (unixSeconds t) ->
  apply_batch (renew_batch id s t) m !! k =
  if decide (k ∈ map (fun evt => keySubEvent evt (unixSeconds t) id) (sub_EventTypes s)) then Some ""
  else if decide (k ∈ map (fun evt => keySubEvent evt (expiry s) id) (sub_EventTypes s)) then None
  else if decide (keySub id = k) then Some (marshal_sub (set_ExpiresAt t s)) else m !! k.
Proof.
  intros Hs Ht. rewrite batch_lookup. unfold renew_batch. cbn [touched].
  assert (touched (concat (map (fun evt => [OpDelete (keySubEvent evt (expiry s) id);
            OpSet (keySubEvent evt (unixSeconds t) id) ""]) (sub_EventTypes s))) k =
    if decide (k ∈ map (fun evt => keySubEvent evt (unixSeconds t) id) (sub_EventTypes s)) then Some (Some "")
    else if decide (k ∈ map (fun evt => keySubEvent evt (expiry s) id) (sub_EventTypes s)) then Some None else None) as ->.
  { destruct (decide (unixSeconds t = expiry s)) as [E|Hne].
    - rewrite E. apply touched_renew. done.
    - apply touched_renew. intros x y E. exfalso. apply Hne. destruct Hs as (_ & _ & _ & Hexp).
      unfold keySubEvent in E. rewrite !app_assoc_s in E. apply app_inj_l in E.
      revert E. generalize (ToLower x) (ToLower y). intros a b E.
      (* equal lengths of the tails force equal heads *)
      assert (String.length a = String.length b) as Hl.
      { apply (f_equal String.length) in E. rewrite !length_app_s in E.
        unfold be8 in E. rewrite !be_bytes_length in E. simpl in E. lia. }
      apply app_inj_len in E as [-> E]; [|done]. rewrite !app_cons_s, !app_empty_s in E. apply cons_inj_s in E as [_ E].
      by apply be8_inj in E as [-> _]. }
  destruct (decide (k ∈ _)); [done|]. destruct (decide (k ∈ _)); [done|]. by destruct (decide (keySub id = k)).
Qed.

Lemma renew_body id s t m i : sub_ok id s -> uint64 (unixSeconds t) ->
  apply_batch (renew_batch id s t) m !! keySub i =
  if decide (id = i) then Some (marshal_sub (set_ExpiresAt t s)) else m !! keySub i.
Proof.
  intros Hs Ht. rewrite renew_lookup by done.
  rewrite !(decide_False (P := keySub i ∈ _)) by (intros (evt & E & _)%list_elem_of_fmap; by apply keySub_event in E).
  destruct (decide (id = i)) as [->|Hne]; [by rewrite decide_True|].
  rewrite decide_False; [done|]. by intros ?%keySub_inj.
Qed.

Lemma renew_live id s t m i s' : sub_ok id s -> uint64 (unixSeconds t) ->
  live_sub (apply_batch (renew_batch id s t) m) i s' <->
  (i = id /\ s' = set_ExpiresAt t s) \/ (i <> id /\ live_sub m i s').
Proof.
  intros Hs Ht. unfold live_sub. setoid_rewrite (renew_body id s t m i Hs Ht). destruct (decide (id = i)) as [->|Hne].
  - split.
    + intros (v & [= <-] & Hu). rewrite sub_roundtrip in Hu. injection Hu as <-. auto.
    + intros [[_ ->]|[? _]]; [|done]. eexists. split; [done|]. apply sub_roundtrip.
  - split; [by right | intros [[? _]|[_ ?]]; [by subst | done]].
Qed.

Lemma renew_inv id s t m : SubInv m -> live_sub m id s -> uint64 (unixSeconds t) ->
  SubInv (apply_batch (renew_batch id s t) m).
Proof.
  intros I Hl Ht. pose proof (live_sub_ok m id s I Hl) as Hs. pose proof Hs as (Hid & Hsl & Hev & Hexp). split.
  - intros i v. rewrite renew_body by done. destruct (decide (id = i)) as [<-|Hne]; [|apply (si_body _ I)].
    intros [= <-]. exists (set_ExpiresAt t s). rewrite sub_roundtrip. split; [done|]. by split_and!.
  - intros i s' evt Hl' Hevt. rewrite renew_lookup by done. destruct (decide (_ ∈ _)) as [|Hn]; [by eexists|].
    apply renew_live in Hl' as [[-> ->]|[Hne Hl']]; [|  |done|done].
    { exfalso. apply Hn, list_elem_of_fmap. exists evt. done. }
    rewrite !decide_False; [by apply (si_entry _ I) | apply keySub_event|].
    intros (evt' & E & Hevt')%list_elem_of_fmap. pose proof (live_sub_ok m i s' I Hl') as (_ & _ & Hev2 & Hexp2).
    apply keySubEvent_inj in E as (_ & _ & E); [done | by eapply Forall_forall in Hev2 | by eapply Forall_forall in Hev | done | done].
  - intros k Hk. rewrite renew_lookup by done. destruct (decide (_ ∈ _)) as [Hin|Hnin].
    + intros _. apply list_elem_of_fmap in Hin as (evt & -> & Hevt).
      exists evt, (unixSeconds t), id. split; [done|]. split; [by eapply Forall_forall in Hev|]. split; [done|]. split; [done|].
      intros s' [[_ ->]|[? _]]%renew_live; [|done..]. split; [done|]. apply list_elem_of_fmap. eauto.
    + destruct (decide (k ∈ _)) as [|Hnold]; [by intros []|].
      destruct (decide (keySub id = k)) as [<-|Hne]; [unfold keySub, pSub, pSubEvent in Hk; rewrite app_cons_s in Hk; simpl in Hk; discriminate|].
      intros Hi. destruct (si_index _ I k Hk Hi) as (cmd & e & i & -> & Hc & He & Hi' & Hlive).
      exists cmd, e, i. split; [done|]. split; [done|]. split; [done|]. split; [done|].
      intros s' [[-> ->]|[_ Hl']]%renew_live; [|by apply Hlive|done..].
      exfalso. destruct (Hlive s Hl) as [-> Hsub]. apply list_elem_of_fmap in Hsub as (evt & Elow & Hevt).
      apply Hnold, list_elem_of_fmap. exists evt. split; [|done]. rewrite !keySubEvent_eq. by rewrite Elow.
Qed.

(** The entries a cleanup collects are index entries that have expired. *)
Lemma collect_in room before ks e id c :
  (e, id, c) ∈ SubscriptionRepository.collectExpired room before ks ->
  e ∈ ks /\ exists score, parseSubEventKeyAny e = Some (c, score) /\ score < before /\ after_last_slash e = Some id.
Proof.
  revert room. induction ks as [|k ks IH]; intros [|room]; cbn [SubscriptionRepository.collectExpired]; try by intros ?%not_elem_of_nil.
  destruct (parseSubEventKeyAny k) as [[cmd score]|] eqn:E; [|intros [? ?]%IH; split; [by right | done]].
  destruct (Z.leb_spec before score); [intros [? ?]%IH; split; [by right | done]|].
  destruct (after_last_slash k) as [i|] eqn:El; [|intros [? ?]%IH; split; [by right | done]].
  intros [[= -> -> ->]|Hin]%elem_of_cons; [split; [by left | eauto]|]. apply IH in Hin as [? ?]. split; [by right | done].
Qed.

Definition sweep_batch (bucket : list (string * string * string)) : batch :=
  concat (map (fun '(k, id, _) => [OpDelete k; OpDelete (keySub id); OpDelete (keySubThrottle id)]) bucket).

Lemma sweep_lookup bucket m k :
  apply_batch (sweep_batch bucket) m !! k = if decide (k ∈ swept bucket) then None else m !! k.
Proof. rewrite batch_lookup. unfold sweep_batch. rewrite touched_swept. by destruct (decide _). Qed.

Definition bucket_ok m (before : Z) (bucket : list (string * string * string)) : Prop :=
  forall e id c, (e, id, c) ∈ bucket -> is_Some (m !! e) /\ has_prefix pSubEvent e = true /\
    after_last_slash e = Some id /\ exists score, parseSubEventKeyAny e = Some (c, score) /\ score < before.

(** Only expired subscriptions are dropped. *)
Lemma sweep_body bucket m before id s : SubInv m -> bucket_ok m before bucket -> live_sub m id s ->
  keySub id ∈ swept bucket -> expiry s < before.
Proof.
  intros I Hb Hl (e & i & c & Hin & Hk)%elem_of_swept. destruct (Hb e i c Hin) as (Hs & Hp & Hls & score & Hparse & Hlt).
  destruct (si_index _ I e Hp Hs) as (cmd & e' & i' & -> & Hc & He & Hi & Hlive).
  rewrite event_last_slash in Hls by done. injection Hls as ->. rewrite parseAny_ok in Hparse by done.
  destruct Hk as [E|[E|E]]; [by apply keySub_event in E | | by apply keySub_throttle in E].
  apply keySub_inj in E as <-. destruct (Hlive s Hl) as [-> _].
  destruct (bool_decide (cmd = "")); [done|]. by injection Hparse as _ ->.
Qed.

Lemma sweep_live bucket m id s :
  live_sub (apply_batch (sweep_batch bucket) m) id s <-> live_sub m id s /\ keySub id ∉ swept bucket.
Proof.
  unfold live_sub. setoid_rewrite sweep_lookup. destruct (decide (keySub id ∈ swept bucket)).
  - split; [by intros (v & ? & _) | by intros [_ ?]].
  - split; [auto | by intros [? _]].
Qed.

Lemma sweep_inv bucket m before : SubInv m -> bucket_ok m before bucket -> SubInv (apply_batch (sweep_batch bucket) m).
Proof.
  intros I Hb. split.
  - intros id v. rewrite sweep_lookup. destruct (decide _); [done|]. apply (si_body _ I).
  - intros id s evt [Hl Hn]%sweep_live Hevt. rewrite sweep_lookup, decide_False; [by apply (si_entry _ I)|].
    intros (e & i & c & Hin & Hk)%elem_of_swept. destruct (Hb e i c Hin) as (_ & _ & Hls & _).
    destruct Hk as [<-|[E|E]]; [|symmetry in E; by apply keySub_event in E | symmetry in E; by apply keyThrottle_event in E].
    pose proof (live_sub_ok m id s I Hl) as (_ & Hsl & _). rewrite event_last_slash in Hls by done. injection Hls as <-.
    apply Hn, elem_of_swept. eauto 8.
  - intros k Hk. rewrite sweep_lookup. destruct (decide _); [by intros []|]. intros Hi.
    destruct (si_index _ I k Hk Hi) as (cmd & e & i & -> & ? & ? & ? & Hlive).
    exists cmd, e, i. split_and!; try done; intros s [Hl _]%sweep_live; by apply Hlive.
Qed.
End inv.

(** ** The operations *)

Section ops.
Context {P : Type} `{PebbleLaws P} `{SubJSONLaws}.
Implicit Types (r : SubRepo P).

Abbreviation kept r := (stored (s_db r)).

Definition SInv r : Prop := handle_ok (s_db r) /\ SubInv (kept r).

(** Clock readings an [int64] of nanoseconds holds. *)
Definition clock_ok (now : Z) : Prop := 0 <= now <= MaxInt64.

Lemma clock_expiry now ttl : clock_ok now -> uint64 (unixSeconds (now + seconds ttl)).
Proof.
  intros Hn. unfold unixSeconds, nonNegativeInt64, unix, uint64. pose proof (wrap64_range (ttl * second)) as Hw.
  unfold seconds, clock_ok, second, MinInt64, MaxInt64, two64 in *.
  destruct (Z.ltb_spec ((now + wrap64 (ttl * 1000000000)) / 1000000000) 0); [lia|].
  split; [lia|]. apply Z.div_lt_upper_bound; lia.
Qed.

Lemma set_sdb_id r : SubscriptionRepository.set_sdb (s_db r) r = r.
Proof. by destruct r. Qed.

Lemma wp_sdb_Get k (Q : res string -> SubRepo P -> Prop) r :
  (forall v, kept r !! k = Some v -> Q (Ok v) r) ->
  (forall e, (is_not_found e = true -> kept r !! k = None) -> Q (Err e) r) ->
  wp (SubscriptionRepository.sdb (PebbleDB.Get k)) Q r.
Proof.
  intros HOk HErr. unfold SubscriptionRepository.sdb. wp_step. apply wp_Get; intros; rewrite set_sdb_id; auto.
Qed.

Lemma wp_sdb_Iter x (Q : res (list string) -> SubRepo P -> Prop) r :
  (forall ks, ks = range_keys (kept r) (fst x) (snd x) -> Q (Ok ks) r) -> (forall e, Q (Err e) r) ->
  wp (SubscriptionRepository.sdb (Iter x)) Q r.
Proof.
  intros HOk HErr. unfold SubscriptionRepository.sdb. wp_step. apply wp_Iter; intros; rewrite set_sdb_id; auto.
Qed.

(** A write leaves the state as it was, or the batch applied. *)
Lemma wp_sdb_write b (w : M (DB P) unit) (Q : res unit -> SubRepo P -> Prop) r :
  (w = CommitBatch b \/ w = write_through b) -> handle_ok (s_db r) ->
  (forall d, handle_ok d -> stored d = apply_batch b (kept r) -> Q (Ok tt) (SubscriptionRepository.set_sdb d r)) ->
  (forall e, Q (Err e) r) ->
  wp (SubscriptionRepository.sdb w) Q r.
Proof.
  intros Hw Hh HOk HErr. unfold SubscriptionRepository.sdb. wp_step.
  assert (forall d, committed b (s_db r) d -> Q (Ok tt) (SubscriptionRepository.set_sdb d r)) as HOk'
    by (intros d Hd; apply HOk; [by eapply committed_handle | apply Hd]).
  destruct Hw as [-> | ->]; [apply wp_CommitBatch | apply wp_write_through]; try done;
    intros e _; rewrite set_sdb_id; auto.
Qed.

(** The counters do not matter to the invariant. *)
Lemma activeAdd_keeps cmd n : keeps SInv (SubscriptionRepository.activeAdd (P := P) cmd n).
Proof. apply keeps_mod. done. Qed.

Lemma Create_keeps newID now sub ttl r : SInv r -> clock_ok now -> slash_free newID -> sub_ID sub = "" ->
  fresh_sub (kept r) newID -> Forall slash_free (sub_EventTypes sub) ->
  wp (SubscriptionRepository.Create newID now sub ttl) (fun x r' => SInv r' /\
    match x with
    | Ok s => sub_ok newID s /\ sub_EventTypes s = sub_EventTypes sub /\
        sub_ExpiresAt s = now + seconds (if ttl <=? 0 then 60 else ttl) /\ kept r' = apply_batch (create_batch newID s) (kept r)
    | Err _ => r' = r
    end) r.
Proof.
  intros [Hh I] Hn Hid Hs Hf Hev. unfold SubscriptionRepository.Create. rewrite (bool_decide_true _ Hs).
  set (s := mkSub newID _ _ _ _ _ _ _). wp_step.
  assert (sub_ok newID s) as Hok by (split_and!; [done | done | done | by apply clock_expiry]).
  apply (wp_sdb_write (create_batch newID s)); [by left | done | |by intros; split].
  intros d Hd Hst. wp_step. set (m := apply_batch (create_batch newID s) (kept r)) in *.
  apply (wp_for (fun r' => handle_ok (s_db r') /\ kept r' = m)); [done | |].
  - intros evt r' _ [Hd' Hm]. unfold SubscriptionRepository.activeAdd. wp_step. done.
  - intros r' [Hd' Hm]. wp_step. split; [|by split_and!].
    split; [done|]. rewrite Hm. by apply sub_create_inv.
Qed.

Lemma wp_GetSub id (Q : res Subscription -> SubRepo P -> Prop) r :
  (forall s, live_sub (kept r) id s -> Q (Ok s) r) -> (forall e, Q (Err e) r) ->
  wp (SubscriptionRepository.Get id) Q r.
Proof.
  intros HOk HErr. unfold SubscriptionRepository.Get. wp_step. wp_step. apply wp_sdb_Get.
  - intros v Hv. destruct (unmarshal_sub v) eqn:E; wp_step; [|done]. apply HOk. by exists v.
  - intros e _. destruct (is_not_found e); wp_step; done.
Qed.

Lemma Heartbeat_keeps now id ttl r : SInv r -> clock_ok now ->
  wp (SubscriptionRepository.Heartbeat now id ttl) (fun x r' => SInv r' /\
    match x with
    | Ok s' => exists s, live_sub (kept r) id s /\ s' = set_ExpiresAt (now + seconds (if ttl <=? 0 then 60 else ttl)) s /\
        kept r' = apply_batch (renew_batch id s (sub_ExpiresAt s')) (kept r)
    | Err _ => r' = r
    end) r.
Proof.
  intros [Hh I] Hn. unfold SubscriptionRepository.Heartbeat. wp_step. apply wp_GetSub; [|by intros; split].
  intros s Hs. cbv zeta. set (t := now + seconds _). wp_step.
  apply (wp_sdb_write (renew_batch id s t)); [by left | done | |by intros; split].
  intros d Hd Hst. wp_step. split.
  - split; [done|]. cbn. rewrite Hst. apply renew_inv; [done | done | by apply clock_expiry].
  - by exists s.
Qed.

Lemma scan_events (m : gmap string string) k : k ∈ range_keys m pSubEvent (prefixUpper pSubEvent) <-> is_Some (m !! k) /\ has_prefix pSubEvent k = true.
Proof. rewrite elem_of_range_keys. change pSubEvent with ("codeq/sub_event" +:+ "/"). by rewrite scan_prefix. Qed.

Lemma Cleanup_keeps limit before r : SInv r ->
  wp (SubscriptionRepository.CleanupExpired limit before) (fun x r' => SInv r' /\
    (kept r' = kept r \/ exists bucket, bucket_ok (kept r) (unixSeconds before) bucket /\
       kept r' = apply_batch (sweep_batch bucket) (kept r))) r.
Proof.
  intros [Hh I]. unfold SubscriptionRepository.CleanupExpired. wp_step. apply wp_sdb_Iter; [|by intros; split; [split | left]].
  intros ks ->. cbv zeta. set (bucket := SubscriptionRepository.collectExpired _ _ _).
  assert (bucket_ok (kept r) (unixSeconds before) bucket) as Hb.
  { intros e id c (Hin & score & Hp & Hlt & Hls)%collect_in. apply scan_events in Hin as [Hs Hpre]. eauto 8. }
  clearbody bucket. destruct bucket as [|b bucket']; [wp_step; split; [by split | by left]|].
  set (bucket := b :: bucket') in *. wp_step.
  apply (wp_sdb_write (sweep_batch bucket)); [by left | done | |by intros; split; [split | left]].
  intros d Hd Hst. wp_step.
  apply (wp_for (fun r' => handle_ok (s_db r') /\ kept r' = apply_batch (sweep_batch bucket) (kept r))); [done | |].
  - intros [[e id] c] r' _ [Hd' Hm]. unfold SubscriptionRepository.activeAdd. wp_step. done.
  - intros r' [Hd' Hm]. wp_step. split; [|right; eauto]. split; [done|]. rewrite Hm. by eapply sweep_inv.
Qed.

Lemma write_other_keeps k v r d : SInv r -> (forall id, keySub id <> k) -> has_prefix pSubEvent k = false ->
  handle_ok d -> stored d = apply_batch [OpSet k v] (kept r) -> SInv (SubscriptionRepository.set_sdb d r).
Proof.
  intros [Hh I] Hk Hp Hd Hst. split; [done|]. cbn. rewrite Hst. cbn.
  eapply SubInv_frame, I.
  - intros id. rewrite lookup_insert_ne; [done | by intros E; apply (Hk id)].
  - intros k' Hk'. rewrite lookup_insert_ne; [done|]. intros ->. congruence.
Qed.

Lemma AllowNotify_keeps now id interval : keeps SInv (SubscriptionRepository.AllowNotify (P := P) now id interval).
Proof.
  apply keeps_wp. intros r I. unfold SubscriptionRepository.AllowNotify. wp_step; [by wp_step|].
  assert (forall r, SInv r -> wp (SubscriptionRepository.sdb (Set_ (keySubThrottle id) (be8 (nonNegativeInt64 now))) ;;! mret true)
            (fun _ r' => SInv r') r) as Hstamp.
  { clear r I. intros r I. wp_step. apply (wp_sdb_write [OpSet (keySubThrottle id) (be8 (nonNegativeInt64 now))]);
      [by right | apply I | | done].
    intros d Hd Hst. wp_step. eapply write_other_keeps; [done | intros; apply keySub_throttle | reflexivity | done | exact Hst]. }
  cbv zeta. wp_step. wp_step. apply wp_sdb_Get; [intros v _ | intros e _].
  - wp_step; [|by apply Hstamp]. destruct (storedInt64 _) as [last|]; [|by wp_step]. wp_step; [by wp_step | by apply Hstamp].
  - wp_step; [by apply Hstamp | by wp_step].
Qed.

Lemma NextGroupIndex_keeps cmd g n : keeps SInv (SubscriptionRepository.NextGroupIndex (P := P) cmd g n).
Proof.
  apply keeps_wp. intros r I. unfold SubscriptionRepository.NextGroupIndex. wp_step; [by wp_step|].
  assert (forall r cur, SInv r -> wp (SubscriptionRepository.sdb (Set_ (keySubRR cmd g) (be8 (wrapu64 (cur + 1)))) ;;! mret (cur mod n))
            (fun _ r' => SInv r') r) as Hbump.
  { clear r I. intros r cur I. wp_step. apply (wp_sdb_write [OpSet (keySubRR cmd g) (be8 (wrapu64 (cur + 1)))]);
      [by right | apply I | | done].
    intros d Hd Hst. wp_step. eapply write_other_keeps; [done | intros; apply keySub_rr | reflexivity | done | exact Hst]. }
  cbv zeta. wp_step. wp_step. apply wp_sdb_Get; [intros v _ | intros e _].
  - by apply Hbump.
  - wp_step; [by apply Hbump | by wp_step].
Qed.
End ops.

(** ** Reachable states *)

Section reach.
Context {P : Type} `{PebbleLaws P} `{SubJSONLaws}.
Implicit Types (r : SubRepo P).

(** One call on the repository, with whatever outcome; a restart on the same
    store; or a step of the rest of the program, which does not write keys of
    subscriptions.  Ids are fresh, and event types have no separator. *)
Inductive sub_step r : SubRepo P -> Prop :=
  | ss_create newID now sub ttl : clock_ok now -> slash_free newID -> fresh_sub (stored (s_db r)) newID ->
      sub_ID sub = "" -> Forall slash_free (sub_EventTypes sub) ->
      sub_step r (snd (SubscriptionRepository.Create newID now sub ttl r))
  | ss_heartbeat now id ttl : clock_ok now -> sub_step r (snd (SubscriptionRepository.Heartbeat now id ttl r))
  | ss_cleanup limit before : sub_step r (snd (SubscriptionRepository.CleanupExpired limit before r))
  | ss_notify now id interval : sub_step r (snd (SubscriptionRepository.AllowNotify now id interval r))
  | ss_next cmd g n : sub_step r (snd (SubscriptionRepository.NextGroupIndex cmd g n r))
  | ss_restart now d : handle_ok d -> stored d = stored (s_db r) ->
      sub_step r (SubscriptionRepository.NewSubscriptionRepository now d)
  | ss_other d : handle_ok d ->
      (forall k, has_prefix "codeq/sub" k = true -> stored d !! k = stored (s_db r) !! k) ->
      sub_step r (SubscriptionRepository.set_sdb d r).

Inductive sub_reachable : SubRepo P -> Prop :=
  | sr_init r : handle_ok (s_db r) -> (forall k, has_prefix "codeq/sub" k = true -> stored (s_db r) !! k = None) ->
      sub_reachable r
  | sr_step r r' : sub_reachable r -> sub_step r r' -> sub_reachable r'.

Lemma sub_prefixes k : (exists id, k = keySub id) \/ has_prefix pSubEvent k = true -> has_prefix "codeq/sub" k = true.
Proof.
  intros [[id ->]|H']; [reflexivity|].
  apply (has_prefix_trans "codeq/sub" "_event/"). exact H'.
Qed.

Lemma recover_keeps now d : handle_ok d -> SubInv (stored d) -> SInv (SubscriptionRepository.NewSubscriptionRepository (P := P) now d).
Proof.
  intros Hd I. unfold SubscriptionRepository.NewSubscriptionRepository.
  assert (wp (SubscriptionRepository.recoverActiveCounts now) (fun _ r => SInv r) (mkSubRepo d ∅)) as Hw; [|exact Hw].
  unfold SubscriptionRepository.recoverActiveCounts. wp_step. apply wp_sdb_Iter; [|done]. intros ks _.
  apply (wp_for SInv); [done | | done]. intros k r' _ I'.
  destruct (parseSubEventKeyAny k) as [[cmd e]|]; [|by wp_step]. wp_step; [by wp_step|].
  unfold SubscriptionRepository.activeAdd. by wp_step.
Qed.

Lemma step_keeps r r' : SInv r -> sub_step r r' -> SInv r'.
Proof.
  intros I [newID now sub ttl Hn Hid Hf Hs Hev|now id ttl Hn|limit before|now id interval|cmd g n|now d Hd Hst|d Hd Hst].
  - exact (proj1 (Create_keeps newID now sub ttl r I Hn Hid Hs Hf Hev)).
  - exact (proj1 (Heartbeat_keeps now id ttl r I Hn)).
  - exact (proj1 (Cleanup_keeps limit before r I)).
  - exact (AllowNotify_keeps now id interval r I).
  - exact (NextGroupIndex_keeps cmd g n r I).
  - apply recover_keeps; [done|]. rewrite Hst. apply I.
  - split; [done|]. eapply SubInv_frame, I; intros; apply Hst, sub_prefixes; eauto.
Qed.

Lemma reachable_SInv r : sub_reachable r -> SInv r.
Proof.
  induction 1 as [r Hd He|r r' _ IH Hs]; [|by eapply step_keeps].
  assert (forall k, (exists id, k = keySub id) \/ has_prefix pSubEvent k = true -> stored (s_db r) !! k = None) as He'
    by (intros k Hk; by apply He, sub_prefixes).
  split; [done|]. split.
  - intros id v. rewrite He' by eauto. done.
  - intros id s evt (v & Hv & _). rewrite He' in Hv by eauto. done.
  - intros k Hk. rewrite He' by eauto. by intros [].
Qed.

(** ** What a scan returns *)

Lemma NoDup_map_omap {A B} (f : A -> option B) (g : B -> string) (l : list A) :
  NoDup l -> (forall x y a b, x ∈ l -> y ∈ l -> f x = Some a -> f y = Some b -> g a = g b -> x = y) ->
  NoDup (map g (omap f l)).
Proof.
  intros Hl. induction Hl as [|x l Hx Hl IH]; intros Hinj; [apply NoDup_nil_2|].
  assert (NoDup (map g (omap f l))) as IH' by (apply IH; intros; eapply Hinj; eauto; by right).
  cbn [omap list_omap]. destruct (f x) as [a|] eqn:E; [|done]. cbn [map]. constructor; [|done].
  intros (b & Eb & (y & Hy & Ey)%list_elem_of_omap)%list_elem_of_fmap.
  apply Hx. rewrite (Hinj x y a b); try done; [by left | by right].
Qed.

Section reads.
Context `{!PebbleReliable P}.

Definition stored_sub (m : gmap string string) (id : string) : option Subscription :=
  match m !! keySub id with Some v => unmarshal_sub v | None => None end.

Lemma stored_sub_live m id s : stored_sub m id = Some s <-> live_sub m id s.
Proof.
  unfold stored_sub, live_sub. destruct (m !! keySub id) as [v|]; [|split; [done | by intros (? & ? & _)]].
  split; [eauto | intros (v' & [= <-] & ?); done].
Qed.

Lemma Get_eq id r : exists x, SubscriptionRepository.Get id r = (x, r) /\
  match stored_sub (stored (s_db r)) id with Some s => x = Ok s | None => exists e, x = Err e end.
Proof.
  unfold SubscriptionRepository.Get, SubscriptionRepository.sdb, mbnd, mtry, mlift, PebbleDB.Get, stored_sub.
  rewrite p_get_total. unfold stored. rewrite set_sdb_id. destruct (contents (db_pebble (s_db r)) !! keySub id) as [v|].
  - destruct (unmarshal_sub v); eexists; (split; [reflexivity|]); eauto.
  - eexists. split; [reflexivity|]. eauto.
Qed.

Definition active_entry (m : gmap string string) (cmd : string) (now : Z) (k : string) : option Subscription :=
  match parseSubEventKey cmd k with
  | Some (expires, id) => if expires <? unixSeconds now then None else stored_sub m id
  | None => None
  end.

Lemma ListActive_eq cmd now r :
  SubscriptionRepository.ListActive cmd now r =
  (Ok (omap (active_entry (stored (s_db r)) cmd now)
         (range_keys (stored (s_db r)) (fst (prefixSubEvent cmd)) (snd (prefixSubEvent cmd)))), r).
Proof.
  unfold SubscriptionRepository.ListActive, SubscriptionRepository.sdb, mbnd at 1, mlift, Iter.
  rewrite p_iter_total, set_sdb_id. fold (stored (s_db r)). generalize (range_keys (stored (s_db r)) (fst (prefixSubEvent cmd)) (snd (prefixSubEvent cmd))).
  intros ks. match goal with |- mfold _ _ ?body _ = _ =>
    enough (forall out, mfold ks out body r = (Ok (out ++ omap (active_entry (stored (s_db r)) cmd now) ks), r)) as Hout
      by (apply (Hout [])) end.
  induction ks as [|k ks IH]; intros out; cbn [mfold omap list_omap]; [by rewrite app_nil_r|].
  unfold active_entry at 1. unfold mbnd at 1. destruct (parseSubEventKey cmd k) as [[e id]|]; [|apply IH].
  destruct (e <? unixSeconds now); [apply IH|]. destruct (Get_eq id r) as (x & Hx & Hm).
  unfold mbnd, mtry. rewrite Hx. destruct (stored_sub (stored (s_db r)) id) as [s|].
  - subst x. cbn. rewrite IH, <- app_assoc. done.
  - destruct Hm as [e' ->]. apply IH.
Qed.

Lemma ListActive_live r cmd now : sub_reachable r -> slash_free cmd ->
  exists l, SubscriptionRepository.ListActive cmd now r = (Ok l, r) /\ NoDup (map sub_ID l) /\
    forall s, s ∈ l <-> live_sub (stored (s_db r)) (sub_ID s) s /\ subscribed cmd s /\ unixSeconds now <= expiry s.
Proof.
  intros [Hh I]%reachable_SInv Hc. rewrite ListActive_eq. eexists. split; [reflexivity|].
  set (m := stored (s_db r)) in *.
  set (ks := range_keys _ _ _).
  assert (forall k, k ∈ ks <-> is_Some (m !! k) /\ has_prefix (pSubEvent +:+ ToLower cmd +:+ "/") k = true) as Hks.
  { intros k. unfold ks. rewrite elem_of_range_keys. cbn. by rewrite event_base, scan_prefix. }
  assert (forall k s, k ∈ ks -> active_entry m cmd now k = Some s ->
    k = keySubEvent cmd (expiry s) (sub_ID s) /\ live_sub m (sub_ID s) s /\ subscribed cmd s /\ unixSeconds now <= expiry s) as Hentry.
  { intros k s [Hs Hp]%Hks He.
    destruct (si_index _ I k) as (c & e & id & -> & Hc' & He' & Hid & Hlive); [|done|].
    { by apply has_prefix_trans in Hp. }
    apply event_prefix in Hp; [|done..]. unfold active_entry in He. rewrite parseSubEventKey_ok in He by done.
    destruct (Z.ltb_spec e (unixSeconds now)); [done|]. apply stored_sub_live in He.
    destruct (Hlive s He) as [-> Hsub]. pose proof (live_sub_ok m id s I He) as (<- & _).
    split; [rewrite !keySubEvent_eq; by rewrite Hp|]. split; [done|]. split; [|lia]. unfold subscribed in *. by rewrite <- Hp. }
  split.
  - apply NoDup_map_omap; [apply NoDup_range_keys|]. intros x y a b Hx Hy Ha Hb Hid.
    apply Hentry in Ha as (-> & La & _); [|done]. apply Hentry in Hb as (-> & Lb & _); [|done].
    rewrite Hid in La. rewrite (live_sub_fun m _ _ _ La Lb). done.
  - intros s. rewrite list_elem_of_omap. split.
    + intros (k & Hk & He). by destruct (Hentry k s Hk He) as (_ & ?).
    + intros (Hl & Hsub & Hexp). exists (keySubEvent cmd (expiry s) (sub_ID s)).
      pose proof (live_sub_ok m _ s I Hl) as (_ & Hid & Hev & Hu). split.
      * apply Hks. apply list_elem_of_fmap in Hsub as (evt & Elow & Hevt). split.
        -- replace (keySubEvent cmd (expiry s) (sub_ID s)) with (keySubEvent evt (expiry s) (sub_ID s))
             by (rewrite !keySubEvent_eq; by rewrite Elow). by apply (si_entry _ I).
        -- by apply event_prefix.
      * unfold active_entry. rewrite parseSubEventKey_ok by done. rewrite (proj2 (Z.ltb_ge _ _)) by done.
        by apply stored_sub_live.
Qed.

(** A scan of an event type returns exactly the live subscriptions.  In
    every reachable state (subscriptions made, renewed and swept, restarts, and
    the task side writing its own keys), [ListActive] returns each stored
    subscription that has the event type and has not expired, once, and nothing
    else: the index entries and the stored bodies never disagree. *)
Theorem list_active_exact r cmd now : sub_reachable r -> slash_free cmd ->
  exists l, SubscriptionRepository.ListActive cmd now r = (Ok l, r) /\ NoDup (map sub_ID l) /\
    forall s, s ∈ l <-> live_sub (stored (s_db r)) (sub_ID s) s /\ subscribed cmd s /\ unixSeconds now <= expiry s.
Proof. apply ListActive_live. Qed.

(** ** Throttling *)

Lemma AllowNotify_eq now id n r : 0 < n ->
  exists x r', SubscriptionRepository.AllowNotify now id n r = (x, r') /\
  (x = Ok true -> match stored (s_db r) !! keySubThrottle id with
                  | Some v => if (8 <=? String.length v)%nat
                              then exists last, storedInt64 (beUint64 v) = Some last /\
                                     wrap64 (n * second) <= wrap64 (now - last)
                              else True
                  | None => True
                  end /\ SubscriptionRepository.sdb (Set_ (keySubThrottle id) (be8 (nonNegativeInt64 now))) r = (Ok tt, r')).
Proof.
  intros Hn. unfold SubscriptionRepository.AllowNotify. rewrite (proj2 (Z.leb_gt _ _)) by lia.
  set (stamp := SubscriptionRepository.sdb (Set_ (keySubThrottle id) (be8 (nonNegativeInt64 now)))).
  assert (forall Pre : Prop, Pre -> exists x r', (stamp ;;! mret true) r = (x, r') /\ (x = Ok true -> Pre /\ stamp r = (Ok tt, r'))) as Hst.
  { intros Pre HPre. unfold mbnd. destruct (stamp r) as [[[]|e] r'] eqn:E; eexists _, _; (split; [reflexivity|]); done. }
  unfold mbnd at 1, mtry, SubscriptionRepository.sdb at 1, mlift, PebbleDB.Get. rewrite p_get_total, set_sdb_id.
  fold (stored (s_db r)). destruct (stored (s_db r) !! keySubThrottle id) as [v|]; [|by apply Hst].
  destruct (8 <=? String.length v)%nat; [|by apply Hst].
  destruct (storedInt64 (beUint64 v)) as [last|]; [|eexists _, _; split; [reflexivity | done]].
  destruct (Z.ltb_spec (wrap64 (now - last)) (wrap64 (n * second))); [eexists _, _; split; [reflexivity | done]|].
  apply Hst. eauto.
Qed.

(** Notifications are throttled.  When a notification to a subscription has
    been allowed at [t1] and another is allowed at [t2], with the stored stamp
    untouched in between, they are at least the subscription's interval apart;
    restarts do not matter, since the stamp is stored. *)
Theorem throttle_spacing t1 t2 id n r r1 r2 r3 :
  0 < n <= max_duration_seconds -> clock_ok t1 -> clock_ok t2 -> handle_ok (s_db r) ->
  SubscriptionRepository.AllowNotify t1 id n r = (Ok true, r1) ->
  stored (s_db r2) !! keySubThrottle id = stored (s_db r1) !! keySubThrottle id ->
  SubscriptionRepository.AllowNotify t2 id n r2 = (Ok true, r3) ->
  t1 + n * second <= t2.
Proof.
  intros Hn Hc1 Hc2 Hh Hr1 Hsame Hr2.
  destruct (AllowNotify_eq t1 id n r) as (x1 & r1' & E1 & Hx1); [lia|]. rewrite Hr1 in E1. injection E1 as <- <-.
  destruct (Hx1 eq_refl) as [_ Hset].
  assert (stored (s_db r1) !! keySubThrottle id = Some (be8 t1)) as Hst.
  { pose proof (wp_sdb_write [OpSet (keySubThrottle id) (be8 (nonNegativeInt64 t1))] (Set_ (keySubThrottle id) (be8 (nonNegativeInt64 t1)))
      (fun x r' => x = Ok tt -> stored (s_db r') !! keySubThrottle id = Some (be8 t1)) r) as Hw.
    unfold wp in Hw. rewrite Hset in Hw. apply Hw; [by right | done | | done | done].
    intros d _ Hd _. cbn. rewrite Hd. cbn. rewrite lookup_insert_eq. unfold nonNegativeInt64, clock_ok in *.
    by rewrite (proj2 (Z.ltb_ge _ _)) by lia. }
  destruct (AllowNotify_eq t2 id n r2) as (x2 & r3' & E2 & Hx2); [lia|]. rewrite Hr2 in E2. injection E2 as <- <-.
  destruct (Hx2 eq_refl) as [Hlast _]. rewrite Hsame, Hst in Hlast.
  assert (String.length (be8 t1) = 8%nat) as Hl by apply be_bytes_length. rewrite Hl in Hlast. cbn [Nat.leb] in Hlast.
  destruct Hlast as (last & Hs & Hle). rewrite <- (app_nil_s (be8 t1)), beUint64_be8 in Hs
    by (unfold clock_ok, uint64, MaxInt64, two64 in *; lia).
  unfold storedInt64 in Hs. destruct (Z.ltb_spec MaxInt64 t1); [done|]. injection Hs as <-.
  unfold max_duration_seconds, second in *.
  rewrite !wrap64_id in Hle by (unfold clock_ok, MinInt64, MaxInt64 in *; lia). lia.
Qed.

(** ** Round robin *)

(** [n] calls of [NextGroupIndex] one after the other. *)
Fixpoint next_calls (k : nat) (cmd g : string) (n : Z) : M (SubRepo P) (list Z) :=
  match k with
  | O => mret []
  | S k' => let! i := SubscriptionRepository.NextGroupIndex cmd g n in
            let! l := next_calls k' cmd g n in mret (i :: l)
  end.

(** The stored counter of a group; absent or too short it is zero. *)
Definition rr_counter (m : gmap string string) (cmd g : string) : Z :=
  match m !! keySubRR cmd g with
  | Some v => if (8 <=? String.length v)%nat then beUint64 v else 0
  | None => 0
  end.

Lemma NextGroupIndex_eq cmd g n r : 0 < n -> db_repl (s_db r) = None ->
  0 <= rr_counter (stored (s_db r)) cmd g < two64 - 1 ->
  exists r', SubscriptionRepository.NextGroupIndex cmd g n r = (Ok (rr_counter (stored (s_db r)) cmd g mod n), r') /\
    db_repl (s_db r') = None /\ rr_counter (stored (s_db r')) cmd g = rr_counter (stored (s_db r)) cmd g + 1.
Proof.
  intros Hn Hr Hc. set (c := rr_counter (stored (s_db r)) cmd g) in *.
  unfold SubscriptionRepository.NextGroupIndex. rewrite (proj2 (Z.leb_gt _ _)) by lia.
  destruct (p_commit_total (db_pebble (s_db r)) [OpSet (keySubRR cmd g) (be8 (c + 1))]) as [p' Hp'].
  assert (forall cur, cur = c -> exists r', (SubscriptionRepository.sdb (Set_ (keySubRR cmd g) (be8 (wrapu64 (cur + 1)))) ;;! mret (cur mod n)) r
    = (Ok (c mod n), r') /\ db_repl (s_db r') = None /\ rr_counter (stored (s_db r')) cmd g = c + 1) as Hbump.
  { intros cur ->. unfold mbnd, SubscriptionRepository.sdb, mlift, Set_, write_through. rewrite Hr.
    rewrite wrapu64_id by lia. unfold ship. rewrite Hp'. cbn. eexists. split; [reflexivity|]. split; [done|].
    unfold rr_counter, stored. cbn. rewrite (p_commit_ok _ _ _ Hp'). cbn. rewrite lookup_insert_eq.
    assert (String.length (be8 (c + 1)) = 8%nat) as -> by apply be_bytes_length. cbn [Nat.leb].
    rewrite <- (app_nil_s (be8 (c + 1))). by apply beUint64_be8; unfold uint64; lia. }
  unfold mbnd at 1, mtry, SubscriptionRepository.sdb at 1, mlift, PebbleDB.Get. rewrite p_get_total, set_sdb_id.
  fold (stored (s_db r)). unfold c, rr_counter in *. destruct (stored (s_db r) !! keySubRR cmd g) as [v|]; by apply Hbump.
Qed.

Lemma next_calls_eq k cmd g n r : 0 < n -> db_repl (s_db r) = None ->
  0 <= rr_counter (stored (s_db r)) cmd g -> rr_counter (stored (s_db r)) cmd g + Z.of_nat k < two64 ->
  exists r', next_calls k cmd g n r =
    (Ok (map (fun i => (rr_counter (stored (s_db r)) cmd g + Z.of_nat i) mod n) (seq 0 k)), r').
Proof.
  intros Hn. revert r. induction k as [|k IH]; intros r Hr H0' Hk; [by eexists|].
  cbn [next_calls]. unfold mbnd at 1.
  destruct (NextGroupIndex_eq cmd g n r Hn Hr) as (r1 & -> & Hr1 & Hc1); [lia|].
  destruct (IH r1) as [r2 E2]; [done | lia | lia|]. unfold mbnd. rewrite E2. exists r2. unfold mret. do 2 f_equal.
  cbn [seq map]. rewrite Z.add_0_r. f_equal. rewrite <- seq_shift, map_map. apply map_ext. intros i. rewrite Hc1. f_equal. lia.
Qed.

(** Group members take turns: of [n] consecutive choices in a group of [n]
    members, each index is chosen exactly once, wherever the stored counter
    stands (short of wrapping around at 2^64). *)
Theorem round_robin_fair cmd g n r : 0 < n -> db_repl (s_db r) = None ->
  0 <= rr_counter (stored (s_db r)) cmd g -> rr_counter (stored (s_db r)) cmd g + n < two64 ->
  exists l r', next_calls (Z.to_nat n) cmd g n r = (Ok l, r') /\ NoDup l /\ forall i, i ∈ l <-> 0 <= i < n.
Proof.
  intros Hn Hr Hc Hb. destruct (next_calls_eq (Z.to_nat n) cmd g n r Hn Hr Hc) as [r' E]; [lia|].
  set (c := rr_counter (stored (s_db r)) cmd g) in *. eexists _, r'. split; [exact E|]. split.
  - apply NoDup_fmap_2_strong; [|apply NoDup_seq]. intros i j Hi%elem_of_seq Hj%elem_of_seq Hij.
    assert (Z.of_nat i = Z.of_nat j); [|lia].
    pose proof (Z.div_mod (c + Z.of_nat i) n ltac:(lia)). pose proof (Z.div_mod (c + Z.of_nat j) n ltac:(lia)).
    assert ((c + Z.of_nat i) / n = (c + Z.of_nat j) / n) by nia. nia.
  - intros i. rewrite list_elem_of_fmap. split.
    + intros (j & -> & _). apply Z.mod_pos_bound. lia.
    + intros Hi. exists (Z.to_nat ((i - c) mod n)). pose proof (Z.mod_pos_bound (i - c) n Hn). split.
      * rewrite Z2Nat.id by lia. rewrite Z.add_mod_idemp_r by lia. replace (c + (i - c)) with i by lia. by rewrite Z.mod_small.
      * apply elem_of_seq. lia.
Qed.

(** ** Counters after a restart *)

Lemma ToLower_idem c : ToLower (ToLower c) = ToLower c.
Proof.
  induction c as [|a c IH]; [done|]. cbn. rewrite IH. f_equal. unfold lower_byte.
  destruct ((65 <=? ch a) && (ch a <=? 90)) eqn:E; [|by rewrite E].
  apply andb_true_iff in E as [E1 E2]. rewrite Z.leb_le in *. rewrite ch_byte, Z.mod_small by lia.
  by rewrite (proj2 (Z.leb_gt (ch a + 32) 90)), andb_false_r by lia.
Qed.

Lemma recover_lower now d : SubInv (stored d) -> forall c,
  is_Some (s_active (SubscriptionRepository.NewSubscriptionRepository (P := P) now d) !! c) -> ToLower c = c.
Proof.
  intros I. unfold SubscriptionRepository.NewSubscriptionRepository.
  assert (wp (SubscriptionRepository.recoverActiveCounts now)
    (fun _ r => forall c, is_Some (s_active r !! c) -> ToLower c = c) (mkSubRepo d ∅)) as Hw; [|exact Hw].
  unfold SubscriptionRepository.recoverActiveCounts. wp_step. apply wp_sdb_Iter; [|intros _ c; cbn; by rewrite lookup_empty; intros []].
  intros ks ->. apply (wp_for (fun r => forall c, is_Some (s_active r !! c) -> ToLower c = c)); [| |done].
  { intros c. cbn. rewrite lookup_empty. by intros []. }
  intros k r' [Hs Hp]%scan_events I'. destruct (si_index _ I k Hp Hs) as (cmd & e & id & -> & Hc & He & _ & _).
  rewrite parseAny_ok by done. destruct (bool_decide (cmd = "")); [by wp_step|].
  wp_step; [by wp_step|]. unfold SubscriptionRepository.activeAdd. wp_step. cbn. intros c.
  destruct (decide (c = ToLower cmd)) as [->|Hne]; [by rewrite ToLower_idem|]. rewrite lookup_insert_ne by done. apply I'.
Qed.

(** A restart switches notifications off.  The counters behind [HasActive]
    are rebuilt from the index, whose keys hold the event types in lower case,
    but they are asked for the event type as the producers write it: after a
    restart [HasActive] is false for every event type with an upper-case letter,
    the built-in ones included, whatever subscriptions are stored and listed. *)
Theorem restart_hides_subscriptions r now cmd : sub_reachable r -> ToLower cmd <> cmd ->
  SubscriptionRepository.HasActive cmd (SubscriptionRepository.NewSubscriptionRepository (P := P) now (s_db r)) = false.
Proof.
  intros [_ I]%reachable_SInv Hc. unfold SubscriptionRepository.HasActive.
  pose proof (recover_lower now (s_db r) I cmd) as Hl.
  destruct (s_active _ !! cmd); [|done]. exfalso. apply Hc, Hl. by eexists.
Qed.

(** ** Effects *)

(** What the operations do to the stored subscriptions, in every reachable
    state.  A subscription that is made is stored with its event types and its
    expiry; a heartbeat moves the expiry of the one it names and keeps the rest
    of it; neither changes another subscription; a cleanup drops only
    subscriptions that have expired by its time; an error changes nothing. *)
Theorem subscription_effects r : sub_reachable r ->
  (forall newID now sub ttl, clock_ok now -> slash_free newID -> fresh_sub (stored (s_db r)) newID ->
     sub_ID sub = "" -> Forall slash_free (sub_EventTypes sub) ->
     match SubscriptionRepository.Create newID now sub ttl r with
     | (Ok s, r') => sub_ID s = newID /\ sub_EventTypes s = sub_EventTypes sub /\
         sub_ExpiresAt s = now + seconds (if ttl <=? 0 then 60 else ttl) /\
         forall i s', live_sub (stored (s_db r')) i s' <-> (i = newID /\ s' = s) \/ (i <> newID /\ live_sub (stored (s_db r)) i s')
     | (Err _, r') => r' = r
     end) /\
  (forall now id ttl, clock_ok now ->
     match SubscriptionRepository.Heartbeat now id ttl r with
     | (Ok s', r') => exists s, live_sub (stored (s_db r)) id s /\
         s' = set_ExpiresAt (now + seconds (if ttl <=? 0 then 60 else ttl)) s /\
         forall i t, live_sub (stored (s_db r')) i t <-> (i = id /\ t = s') \/ (i <> id /\ live_sub (stored (s_db r)) i t)
     | (Err _, r') => r' = r
     end) /\
  (forall limit before i s, let r' := snd (SubscriptionRepository.CleanupExpired limit before r) in
     (live_sub (stored (s_db r')) i s -> live_sub (stored (s_db r)) i s) /\
     (live_sub (stored (s_db r)) i s -> unixSeconds before <= expiry s -> live_sub (stored (s_db r')) i s)).
Proof.
  intros HI%reachable_SInv. pose proof HI as [Hh I]. split; [|split].
  - intros newID now sub ttl Hn Hid Hf Hs Hev.
    pose proof (Create_keeps newID now sub ttl r HI Hn Hid Hs Hf Hev) as [_ Hw].
    destruct (SubscriptionRepository.Create newID now sub ttl r) as [[s|e] r']; [|exact Hw].
    destruct Hw as ((? & _) & ? & ? & Hst). cbn [snd] in Hst. split_and!; try done; intros; rewrite Hst; apply create_live.
  - intros now id ttl Hn. pose proof (Heartbeat_keeps now id ttl r HI Hn) as [_ Hw].
    destruct (SubscriptionRepository.Heartbeat now id ttl r) as [[s'|e] r']; [|exact Hw].
    destruct Hw as (s & Hl & -> & Hst). cbn [snd] in Hst. exists s. split_and!; try done.
    intros i t. rewrite Hst. apply renew_live; [by eapply live_sub_ok | by apply clock_expiry].
  - intros limit before i s. cbv zeta. destruct (Cleanup_keeps limit before r HI) as [_ [Hst|(bucket & Hb & Hst)]].
    + rewrite Hst. done.
    + rewrite Hst. rewrite sweep_live. split; [by intros [? _]|]. intros Hl Hexp. split; [done|].
      intros Hin. pose proof (sweep_body _ _ _ _ _ I Hb Hl Hin). lia.
Qed.
End reads.
End reach.

(** ** A concrete repository *)

Import framed_sub.

Module sub_run.

Definition r0 : SubRepo memstore.store := mkSubRepo (mkDB ∅ 0 None false ∅) ∅.
Definition t0 : Z := 1700000000 * second.
Definition sub0 : Subscription :=
  mkSub "" "https://hooks.example/q" [CmdGenerateMaster] "group" "g1" 10 zero_time zero_time.
Definition r1 : SubRepo memstore.store := snd (SubscriptionRepository.Create (H0 := framed_sub.codec) "s1" t0 sub0 300 r0).
Definition s1 : Subscription :=
  mkSub "s1" "https://hooks.example/q" [CmdGenerateMaster] "group" "g1" 10 (t0 + 300 * second) t0.

Lemma r0_reachable : sub_reachable (H1 := framed_sub.codec) r0.
Proof. apply sr_init; [split; done | intros k _; reflexivity]. Qed.

Lemma r1_reachable : sub_reachable (H1 := framed_sub.codec) r1.
Proof.
  eapply sr_step; [apply r0_reachable|]. apply ss_create; [by vm_compute | done | | done | by repeat constructor].
  split; [done | intros; reflexivity].
Qed.
End sub_run.

Lemma list_active_exact_witness :
  exists l, SubscriptionRepository.ListActive (H0 := framed_sub.codec) "generate_master" sub_run.t0 sub_run.r1 = (Ok l, sub_run.r1) /\
    sub_run.s1 ∈ l.
Proof.
  destruct (list_active_exact (H1 := framed_sub.codec) sub_run.r1 "generate_master" sub_run.t0 sub_run.r1_reachable eq_refl)
    as (l & Hl & _ & Hs).
  exists l. split; [exact Hl|]. apply Hs. split; [|split].
  - eexists. split; [vm_compute; reflexivity | vm_compute; reflexivity].
  - by left.
  - by vm_compute.
Defined.

Lemma restart_hides_subscriptions_witness :
  let r := SubscriptionRepository.NewSubscriptionRepository sub_run.t0 (s_db sub_run.r1) in
  SubscriptionRepository.HasActive CmdGenerateMaster r = false /\
  fst (SubscriptionRepository.ListActive (H0 := framed_sub.codec) CmdGenerateMaster sub_run.t0 r) = Ok [sub_run.s1].
Proof.
  split.
  - apply (restart_hides_subscriptions (H1 := framed_sub.codec) sub_run.r1); [exact sub_run.r1_reachable | by vm_compute].
  - vm_compute. reflexivity.
Defined.

Lemma throttle_spacing_witness :
  let r2 := snd (SubscriptionRepository.AllowNotify sub_run.t0 "s1" 10 sub_run.r1) in
  sub_run.t0 + 10 * second <= sub_run.t0 + 12 * second.
Proof.
  intros r2. apply (throttle_spacing sub_run.t0 (sub_run.t0 + 12 * second) "s1" 10 sub_run.r1 r2 r2
    (snd (SubscriptionRepository.AllowNotify (sub_run.t0 + 12 * second) "s1" 10 r2)));
    [unfold max_duration_seconds; lia | by vm_compute | by vm_compute | by split | apply run_outcome; vm_compute; reflexivity | reflexivity
    | apply run_outcome; vm_compute; reflexivity].
Defined.

Lemma round_robin_fair_witness :
  exists l r', next_calls 3 CmdGenerateMaster "g1" 3 sub_run.r1 = (Ok l, r') /\ NoDup l /\ forall i, i ∈ l <-> 0 <= i < 3.
Proof. apply (round_robin_fair CmdGenerateMaster "g1" 3 sub_run.r1); [lia | done | by vm_compute | by vm_compute]. Defined.

Lemma subscription_effects_witness :
  let r2 := snd (SubscriptionRepository.CleanupExpired 100 sub_run.t0 sub_run.r1) in
  live_sub (H := framed_sub.codec) (stored (s_db r2)) "s1" sub_run.s1.
Proof.
  destruct (subscription_effects (H1 := framed_sub.codec) sub_run.r1 sub_run.r1_reachable) as (_ & _ & Hc).
  apply (Hc 100 sub_run.t0 "s1" sub_run.s1); [|by vm_compute].
  eexists. split; [vm_compute; reflexivity | vm_compute; reflexivity].
Defined.
