(* ===== verification/Notifier.v ===== *)
(** Outgoing notifications: the queue-ready notifier
    ([src/internal/services/notifier_service.go]) and the result callbacks
    ([src/internal/services/result_callback_service.go]).

    What is sent is returned as values: a request has its URL, its body and the
    signature headers.  The answers of the receivers only matter to the retries
    of the callbacks, where they are an argument.  [sonic.Marshal] of a payload
    map, [url.Parse] and the rate limiter are arguments; tracing and metrics are
    not modelled. *)

From stdpp Require Import pretty.
From S2P Require Import Prelude GoTime Domain Keys GoText Hash Float64 RateLimit LeaseTable PebbleDB SubRepo SubInv.

(** A value of a payload [map[string]any]. *)
Inductive jvalue :=
  | JString (s : string)
  | JBool (b : bool)
  | JInt (z : Z)
  | JTime (t : Z)
  | JObject (v : option string)
  | JArtifacts (l : list ArtifactOut).

Record HTTPRequest := mkRequest {
  rq_URL : string;
  rq_Body : string;
  rq_Timestamp : option string;
  rq_Signature : option string
}.

Section sign.
Variable secret : string.

(** [X-CodeQ-Timestamp] and [X-CodeQ-Signature]: absent without a secret. *)
Definition signed (now : Z) (url body : string) : HTTPRequest :=
  if bool_decide (TrimSpace secret = "") then mkRequest url body None None
  else
    let ts := pretty (unix now) in
    mkRequest url body (Some ts) (Some (hexEncode (hmac_sha256 secret (ts +:+ "." +:+ body)))).
End sign.

(** ** The notifier *)

Record notifierConfig (L : Type) := mkNotifier {
  nt_secret : string;
  nt_minNotify : Z;
  nt_limiter : option (Limiter L);
  nt_bucket : Bucket
}.
Arguments mkNotifier {L}.
Arguments nt_secret {L}.
Arguments nt_minNotify {L}.
Arguments nt_limiter {L}.
Arguments nt_bucket {L}.

Module notifierService.

Definition NewNotifierService {L} (secret : string) (minNotify : Z) (limiter : option (Limiter L)) (bucket : Bucket)
  : notifierConfig L :=
  mkNotifier secret (if minNotify <=? 0 then 5 else minNotify) limiter bucket.

Section ops.
Context {P L : Type} `{Pebble P} `{SubJSON}.
Variable url_Parse : string -> option (string * string).
Variable marshal_map : list (string * jvalue) -> string.
Variable n : notifierConfig L.

Abbreviation St := (SubRepo P * L)%type.
Definition onRepo {A} (m : M (SubRepo P) A) : M St A := mlift fst (fun r st => (r, snd st)) m.
Definition onLimiter {A} (m : M L A) : M St A := mlift snd (fun l st => (fst st, l)) m.

Definition payload (now : Z) (sub : Subscription) (cmd : string) : list (string * jvalue) :=
  [("eventType", JString cmd); ("available", JBool true); ("queueDepth", JInt 0);
   ("claimUrl", JString "/v1/codeq/tasks/claim"); ("sentAt", JString (FormatRFC3339 now));
   ("notificationId", JString ("ntf-" +:+ sub_ID sub))].

(** The request that is sent, if the limiter lets it through.  A URL that does
    not parse gives a nil request, whose headers panic. *)
Definition dispatch (now : Z) (sub : Subscription) (cmd : string) : M St (list (Subscription * HTTPRequest)) :=
  let send : M St (list (Subscription * HTTPRequest)) :=
    match url_Parse (sub_CallbackURL sub) with
    | None => mthrow (Panic "nil pointer dereference")
    | Some _ => mret [(sub, signed (nt_secret n) now (sub_CallbackURL sub) (marshal_map (payload now sub cmd)))]
    end in
  match nt_limiter n with
  | Some allow =>
      if Enabled (nt_bucket n) then
        let! dec := mtry (onLimiter (allow "webhook" (sub_CallbackURL sub) (nt_bucket n))) in
        match dec with
        | Ok d => if Allowed d then send else mret []
        | Err _ => send
        end
      else send
  | None => send
  end.

(** The subscriptions by delivery mode. *)
Record modes := mkModes { m_fanout : list Subscription; m_groups : gmap string (list Subscription); m_hash : list Subscription }.

Definition addMode (m : modes) (s : Subscription) : modes :=
  if bool_decide (sub_DeliveryMode s = "group") then
    mkModes (m_fanout m) (<[sub_GroupID s := default [] (m_groups m !! sub_GroupID s) ++ [s]]> (m_groups m)) (m_hash m)
  else if bool_decide (sub_DeliveryMode s = "hash") then mkModes (m_fanout m) (m_groups m) (m_hash m ++ [s])
  else mkModes (m_fanout m ++ [s]) (m_groups m) (m_hash m).

Definition splitModes (subs : list Subscription) : modes := fold_left addMode subs (mkModes [] ∅ []).

(** The three dispatch loops; [order] is the order in which the loop over the
    group map visits it. *)
Definition deliver (order : list (string * list Subscription) -> list (string * list Subscription))
  (now : Z) (cmd : string) (m : modes) (allowed : gmap string bool) : M St (list (Subscription * HTTPRequest)) :=
  let dispatchIf s : M St (list (Subscription * HTTPRequest)) :=
    if default false (allowed !! sub_ID s) then dispatch now s cmd else mret [] in
  let! out1 := mfold (m_fanout m) [] (fun out s => let! o := dispatchIf s in mret (out ++ o)) in
  let! out2 := mfold (order (map_to_list (m_groups m))) out1 (fun out '(groupID, l) =>
    match l with
    | [] => mret out
    | _ =>
        let! i := mtry (onRepo (SubscriptionRepository.NextGroupIndex cmd groupID (Z.of_nat (length l)))) in
        match i with
        | Err _ => mret out
        | Ok idx =>
            match l !! Z.to_nat idx with
            | None => mthrow (Panic "index out of range")
            | Some s => let! o := dispatchIf s in mret (out ++ o)
            end
        end
    end) in
  match m_hash m with
  | [] => mret out2
  | _ =>
      match m_hash m !! Z.to_nat (Z.rem (Z.quot (unix now) 60) (Z.of_nat (length (m_hash m)))) with
      | None => mthrow (Panic "index out of range")
      | Some s => let! o := dispatchIf s in mret (out2 ++ o)
      end
  end.

(** The subscriptions whose throttle is asked. *)
Definition firsts (order : list (string * list Subscription) -> list (string * list Subscription)) (m : modes)
  : list Subscription :=
  m_fanout m ++ omap (fun gl => head (snd gl)) (order (map_to_list (m_groups m))) ++ take 1 (m_hash m).

Definition NotifyQueueReady (order1 order2 : list (string * list Subscription) -> list (string * list Subscription))
  (now : Z) (cmd : string) : M St (list (Subscription * HTTPRequest)) :=
  let! st := mget in
  if negb (SubscriptionRepository.HasActive cmd (fst st)) then mret []
  else
    let! g := mtry (onRepo (SubscriptionRepository.ListActive cmd now)) in
    match g with
    | Err _ | Ok [] => mret []
    | Ok subs =>
        let m := splitModes subs in
        let! a := mtry (onRepo (SubscriptionRepository.AllowNotifyBatch now (firsts order1 m))) in
        deliver order2 now cmd m (match a with Ok allowed => allowed | Err _ => ∅ end)
    end.
End ops.
End notifierService.

(** ** Result callbacks *)

Record callbackConfig := mkCallback {
  cb_secret : string;
  cb_maxAttempts : Z;
  cb_baseDelay : Z;
  cb_maxDelay : Z
}.

Inductive cb_action :=
  | Sleep (d : Z)
  | Post (rq : HTTPRequest).

Module resultCallbackService.

Definition NewResultCallbackService (secret : string) (maxAttempts baseDelaySeconds maxDelaySeconds : Z) : callbackConfig :=
  mkCallback secret (if maxAttempts <=? 0 then 5 else maxAttempts)
    (seconds (if baseDelaySeconds <=? 0 then 2 else baseDelaySeconds))
    (seconds (if maxDelaySeconds <=? 0 then 60 else maxDelaySeconds)).

Section ops.
Variable marshal_map : list (string * jvalue) -> string.
Variable url_Parse : string -> option (string * string).
Variable s : callbackConfig.
(** The world: the clock at each attempt, the durations the limiter asks to
    wait before it allows the attempt, and the answer of the receiver. *)
Variables (clock : nat -> Z) (waits : nat -> list Z) (answer : nat -> res Z).

Definition payload (task : Task) (rec : ResultRecord) : list (string * jvalue) :=
  [("taskId", JString task.(ID)); ("eventType", JString task.(Command)); ("status", JString (rr_Status rec));
   ("result", JObject (rr_Result rec)); ("error", JString (rr_Error rec));
   ("artifacts", JArtifacts (rr_Artifacts rec)); ("completedAt", JTime (rr_CompletedAt rec))].

(** An [int64] shift and an [int64] product, which wrap. *)
Definition backoffDelay (attempt : Z) : Z :=
  let d := wrap64 (cb_baseDelay s * wrap64 (Z.shiftl 1 (attempt - 1))) in
  if cb_maxDelay s <? d then cb_maxDelay s else d.

(** The context the callbacks run in is never cancelled. *)
Definition sleepOrDone (d : Z) : list cb_action := if d <=? 0 then [] else [Sleep d].

Definition delivered (r : res Z) : bool :=
  match r with Ok code => (200 <=? code) && (code <? 300) | Err _ => false end.

(** The actions from attempt [k] on, [left] of them, and whether one succeeded.
    A URL that does not parse gives a nil request, whose headers panic. *)
Fixpoint attemptsFrom (left k : nat) (url body : string) : list cb_action * res bool :=
  match left with
  | O => ([], Ok false)
  | S left' =>
      let wait := concat (map sleepOrDone (waits k)) in
      match url_Parse url with
      | None => (wait, Err (Panic "nil pointer dereference"))
      | Some _ =>
          let post := Post (signed (cb_secret s) (clock k) url body) in
          if delivered (answer k) then (wait ++ [post], Ok true)
          else
            let '(rest, ok) := attemptsFrom left' (S k) url body in
            (wait ++ [post] ++ sleepOrDone (backoffDelay (Z.of_nat k)) ++ rest, ok)
      end
  end.

Definition sendWithRetry (url body : string) : list cb_action * res bool :=
  attemptsFrom (Z.to_nat (cb_maxAttempts s)) 1 url body.

(** [None] when nothing is sent. *)
Definition Send (task : Task) (rec : ResultRecord) : option (list cb_action * res bool) :=
  if bool_decide (TrimSpace task.(Webhook) = "") then None
  else Some (sendWithRetry task.(Webhook) (marshal_map (payload task rec))).
End ops.
End resultCallbackService.

(** ** Whom the notifier reaches *)

Module modes_facts.
Import notifierService.

Definition in_group (g : string) (s : Subscription) : Prop := sub_DeliveryMode s = "group" /\ sub_GroupID s = g.
Definition in_hash (s : Subscription) : Prop := sub_DeliveryMode s = "hash".
#[export] Instance in_group_dec g s : base.Decision (in_group g s) := _.
#[export] Instance in_hash_dec s : base.Decision (in_hash s) := _.

Definition grouped (m : gmap string (list Subscription)) : list Subscription := concat (map snd (map_to_list m)).

Lemma grouped_insert m g s :
  grouped (<[g := default [] (m !! g) ++ [s]]> m) ≡ₚ s :: grouped m.
Proof.
  unfold grouped. destruct (m !! g) as [l|] eqn:E; cbn.
  - rewrite <- (insert_delete_id m g l) at 2 by done. rewrite <- insert_delete_eq.
    rewrite !map_to_list_insert by apply lookup_delete_eq. cbn. solve_Permutation.
  - by rewrite map_to_list_insert.
Qed.

Lemma splitModes_snoc subs s : splitModes (subs ++ [s]) = addMode (splitModes subs) s.
Proof. unfold splitModes. by rewrite fold_left_app. Qed.

(** The three modes together are the subscriptions. *)
Lemma split_all subs : let m := splitModes subs in m_fanout m ++ grouped (m_groups m) ++ m_hash m ≡ₚ subs.
Proof.
  induction subs as [|s subs IH] using rev_ind; [done|]. rewrite splitModes_snoc. unfold addMode.
  revert IH. set (m := splitModes subs). intros IH. cbn zeta in IH |- *. rewrite <- IH.
  case_bool_decide; cbn; [rewrite grouped_insert; solve_Permutation|].
  case_bool_decide; cbn; solve_Permutation.
Qed.

Lemma split_hash subs : m_hash (splitModes subs) = filter in_hash subs.
Proof.
  induction subs as [|s subs IH] using rev_ind; [done|]. rewrite splitModes_snoc, filter_app. unfold addMode, in_hash.
  case_bool_decide as Hg; cbn [m_hash].
  - rewrite IH, filter_cons_False by (rewrite Hg; done). by rewrite app_nil_r.
  - case_bool_decide; cbn [m_hash]; rewrite IH.
    + by rewrite filter_cons_True.
    + by rewrite filter_cons_False, app_nil_r.
Qed.

Lemma split_group subs g : default [] (m_groups (splitModes subs) !! g) = filter (in_group g) subs.
Proof.
  induction subs as [|s subs IH] using rev_ind; [done|]. rewrite splitModes_snoc, filter_app. unfold addMode.
  case_bool_decide as Hg; cbn [m_groups].
  - destruct (decide (sub_GroupID s = g)) as [<-|Hn].
    + rewrite lookup_insert_eq. cbn [default]. by rewrite IH, filter_cons_True.
    + rewrite lookup_insert_ne by done. rewrite IH, filter_cons_False by (intros [_ ?]; done). by rewrite app_nil_r.
  - rewrite (filter_cons_False _ s) by (intros [? _]; done). rewrite filter_nil, app_nil_r. by case_bool_decide.
Qed.

Lemma split_fanout subs s : s ∈ m_fanout (splitModes subs) -> s ∈ subs /\ sub_DeliveryMode s <> "group" /\ ~ in_hash s.
Proof.
  induction subs as [|s' subs IH] using rev_ind; [by intros ?%not_elem_of_nil|]. rewrite splitModes_snoc. unfold addMode.
  case_bool_decide; [|case_bool_decide]; cbn; rewrite ?elem_of_app, ?list_elem_of_singleton; [tauto..|].
  intros [Hs%IH| ->]; [tauto|]. split; [by right|]. done.
Qed.

Lemma split_group_nonempty subs g l : m_groups (splitModes subs) !! g = Some l -> l = filter (in_group g) subs /\ l <> [].
Proof.
  intros Hl. split; [by rewrite <- split_group, Hl|]. revert l g Hl.
  induction subs as [|s subs IH] using rev_ind; [done|]. rewrite splitModes_snoc. unfold addMode.
  intros l g. case_bool_decide; [|case_bool_decide]; cbn; [|by apply IH..].
  destruct (decide (sub_GroupID s = g)) as [<-|Hn].
  - rewrite lookup_insert_eq. intros [= <-]. by destruct (default _ _).
  - rewrite lookup_insert_ne by done. apply IH.
Qed.

Lemma firsts_in order subs s : (forall l, order l ≡ₚ l) -> s ∈ firsts order (splitModes subs) -> s ∈ subs /\
  (sub_DeliveryMode s = "group" -> head (filter (in_group (sub_GroupID s)) subs) = Some s) /\
  (in_hash s -> head (filter in_hash subs) = Some s).
Proof.
  intros Ho. unfold firsts. cbn zeta. rewrite !elem_of_app. intros [Hf|[Hg|Hh]].
  - apply split_fanout in Hf. tauto.
  - apply list_elem_of_omap in Hg as ((g & l) & Hl & Hs). rewrite (Ho _) in Hl.
    apply elem_of_map_to_list, split_group_nonempty in Hl as [-> _]. cbn in Hs.
    assert (s ∈ filter (in_group g) subs) as [[Hm <-] Hin]%list_elem_of_filter
      by (destruct (filter (in_group g) subs); [done | injection Hs as ->; constructor]).
    split; [done|]. split; [done|]. unfold in_hash. by rewrite Hm.
  - rewrite split_hash in Hh. destruct (filter in_hash subs) as [|h l] eqn:E; [by apply not_elem_of_nil in Hh|].
    apply list_elem_of_singleton in Hh as ->.
    assert (h ∈ filter in_hash subs) as [Hm Hin]%list_elem_of_filter by (rewrite E; constructor).
    split; [done|]. split; [|done]. unfold in_hash in Hm. by rewrite Hm.
Qed.
End modes_facts.

Section notify.
Context {P L : Type} `{PebbleLaws P} `{SubJSONLaws} `{!PebbleReliable P}.
Variable url_Parse : string -> option (string * string).
Variable marshal_map : list (string * jvalue) -> string.
Variable n : notifierConfig L.
Variables (now : Z) (cmd : string).
Implicit Types (st : SubRepo P * L) (out : list (Subscription * HTTPRequest)).
Import notifierService modes_facts.

(** The request a subscription is sent. *)
Definition notice (s : Subscription) : HTTPRequest :=
  signed (nt_secret n) now (sub_CallbackURL s) (marshal_map (payload now s cmd)).

Lemma dispatch_sends s st : is_Some (url_Parse (sub_CallbackURL s)) ->
  exists o st', dispatch (P := P) url_Parse marshal_map n now s cmd st = (Ok o, st') /\
    (o = [(s, notice s)] \/ o = [] /\ nt_limiter n <> None).
Proof.
  intros [u Hu]. unfold dispatch. rewrite Hu. destruct (nt_limiter n) as [allow|]; [|eauto].
  destruct (Enabled (nt_bucket n)); [|eauto]. unfold mbnd, mtry.
  destruct (onLimiter (allow "webhook" (sub_CallbackURL s) (nt_bucket n)) st) as [[d|e] st']; cbn; [|eauto].
  destruct (Allowed d); [eauto|]. eexists _, _. split; [reflexivity|]. by right.
Qed.

Section sends.
Variable allowed : gmap string bool.

Abbreviation dispatchIf s :=
  (if default false (allowed !! sub_ID s) then dispatch (P := P) url_Parse marshal_map n now s cmd else mret []).

Lemma dispatchIf_sends s (Q : res (list (Subscription * HTTPRequest)) -> SubRepo P * L -> Prop) st :
  is_Some (url_Parse (sub_CallbackURL s)) ->
  (forall st', allowed !! sub_ID s = Some true -> Q (Ok [(s, notice s)]) st') ->
  (forall st', allowed !! sub_ID s <> Some true \/ nt_limiter n <> None -> Q (Ok []) st') ->
  wp (dispatchIf s) Q st.
Proof.
  intros Hu Hs Hn. destruct (allowed !! sub_ID s) as [[]|] eqn:E; cbn; [|apply Hn; by left..].
  destruct (dispatch_sends s st Hu) as (o & st' & Hd & Ho). unfold wp. rewrite Hd.
  destruct Ho as [->|[-> Hl]]; [by apply Hs | apply Hn; by right].
Qed.

Definition sent_ok (within : list Subscription) out : Prop :=
  map fst out ⊆+ within /\ forall s rq, (s, rq) ∈ out -> rq = notice s /\ allowed !! sub_ID s = Some true.

#[global] Instance sent_ok_proper : Proper (Permutation ==> eq ==> iff) sent_ok.
Proof. intros l l' Hl out ? <-. unfold sent_ok. by rewrite Hl. Qed.

Lemma sent_ok_more within out x : sent_ok within out -> sent_ok (within ++ x) out.
Proof. intros [Hs Hr]. split; [|done]. etrans; [exact Hs|]. apply submseteq_inserts_r. done. Qed.

Lemma sent_ok_one within out s x : sent_ok within out -> s ∈ x -> allowed !! sub_ID s = Some true ->
  sent_ok (within ++ x) (out ++ [(s, notice s)]).
Proof.
  intros [Hs Hr] Hx Ha. split.
  - rewrite map_app. apply submseteq_app; [done|]. by apply singleton_submseteq_l.
  - intros s' rq [Hi|[= -> ->]%list_elem_of_singleton]%elem_of_app; [by apply Hr | done].
Qed.

(** The loop over the fan-out subscriptions. *)
Lemma fanout_loop (fan : list Subscription) (Q : res (list (Subscription * HTTPRequest)) -> SubRepo P * L -> Prop) st :
  (forall s, s ∈ fan -> is_Some (url_Parse (sub_CallbackURL s))) ->
  (forall out st', sent_ok fan out ->
     (nt_limiter n = None -> forall s, s ∈ fan -> allowed !! sub_ID s = Some true -> s ∈ map fst out) -> Q (Ok out) st') ->
  wp (mfold fan [] (fun out s => let! o := dispatchIf s in mret (out ++ o))) Q st.
Proof.
  intros Hu HQ.
  apply (wp_fold_prefix (fun pre out _ => sent_ok pre out /\
    (nt_limiter n = None -> forall s, s ∈ pre -> allowed !! sub_ID s = Some true -> s ∈ map fst out))).
  - split; [split; [done|]; intros ? ? ?%not_elem_of_nil; done | intros _ s ?%not_elem_of_nil; done].
  - intros pre s post out st' -> [Hs Hc]. wp_step.
    apply dispatchIf_sends; [apply Hu; rewrite elem_of_app, elem_of_cons; tauto|..]; intros st1 Ha; wp_step.
    + split; [apply sent_ok_one; [done | constructor | done]|]. intros Hn s' [Hs'|Hs']%elem_of_app Hs1; rewrite map_app; set_solver.
    + rewrite app_nil_r. split; [by apply sent_ok_more|].
      intros Hn s' [Hs'|<-%list_elem_of_singleton]%elem_of_app Hs1; [by apply Hc | tauto].
  - intros out st' [Hs Hc]. by apply HQ.
Qed.

Lemma NextGroupIndex_range g k (Q : res Z -> SubRepo P -> Prop) r : 0 < k ->
  (forall i r', 0 <= i < k -> Q (Ok i) r') -> (forall e r', Q (Err e) r') ->
  wp (SubscriptionRepository.NextGroupIndex cmd g k) Q r.
Proof.
  intros Hk Hok Herr. unfold SubscriptionRepository.NextGroupIndex. rewrite (proj2 (Z.leb_gt _ _)) by lia. cbv zeta.
  assert (forall cur r', wp (SubscriptionRepository.sdb (Set_ (keySubRR cmd g) (be8 (wrapu64 (cur + 1)))) ;;! mret (cur mod k)) Q r') as Hb.
  { intros cur r'. apply wp_bind. unfold wp at 1.
    destruct (SubscriptionRepository.sdb _ r') as [[[]|e] r1]; [apply Hok, Z.mod_pos_bound; lia | apply Herr]. }
  wp_step. wp_step. unfold wp at 1. destruct (SubscriptionRepository.sdb _ r) as [[v|e] r1]; [apply Hb|].
  cbn [fst snd]. destruct (is_not_found e); [apply Hb | apply Herr].
Qed.

(** One member per group. *)
Lemma group_loop (gs : list (string * list Subscription)) within out0 (Q : res (list (Subscription * HTTPRequest)) -> SubRepo P * L -> Prop) st :
  sent_ok within out0 ->
  (forall g l s, (g, l) ∈ gs -> s ∈ l -> is_Some (url_Parse (sub_CallbackURL s))) ->
  (forall out st', sent_ok (within ++ concat (map snd gs)) out -> map fst out0 ⊆ map fst out -> Q (Ok out) st') ->
  wp (mfold gs out0 (fun out '(groupID, l) =>
    match l with
    | [] => mret out
    | _ =>
        let! i := mtry (onRepo (SubscriptionRepository.NextGroupIndex cmd groupID (Z.of_nat (length l)))) in
        match i with
        | Err _ => mret out
        | Ok idx =>
            match l !! Z.to_nat idx with
            | None => mthrow (Panic "index out of range")
            | Some s => let! o := dispatchIf s in mret (out ++ o)
            end
        end
    end)) Q st.
Proof.
  intros H0' Hu HQ.
  apply (wp_fold_prefix (fun pre out _ => sent_ok (within ++ concat (map snd pre)) out /\ map fst out0 ⊆ map fst out)).
  - cbn. by rewrite app_nil_r.
  - intros pre [g l] post out st' -> [Hs Hc]. rewrite map_app, concat_app, app_assoc. cbn [map snd concat]. rewrite app_nil_r.
    assert (sent_ok ((within ++ concat (map snd pre)) ++ l) out /\ map fst out0 ⊆ map fst out) as Hsame
      by (split; [by apply sent_ok_more | done]).
    destruct l as [|s0 l']; [wp_step; exact Hsame|]. set (l := s0 :: l') in *.
    wp_step. wp_step. unfold onRepo. wp_step. apply NextGroupIndex_range; [cbn; lia | | intros e r'; wp_step; exact Hsame].
    intros i r' Hi. destruct (lookup_lt_is_Some_2 l (Z.to_nat i)) as [s Es]; [lia|]. rewrite Es.
    assert (s ∈ l) as Hin by (by eapply list_elem_of_lookup_2). wp_step.
    apply dispatchIf_sends; [eapply Hu; [|exact Hin]; rewrite elem_of_app, elem_of_cons; tauto|..]; intros st1 Ha; wp_step.
    + split; [by apply sent_ok_one|]. rewrite map_app. set_solver.
    + rewrite app_nil_r. split; [by apply sent_ok_more | done].
  - intros out st' [Hs Hc]. by apply HQ.
Qed.
End sends.

Lemma AllowNotifyBatch_ids l (Q : res (gmap string bool) -> SubRepo P -> Prop) r :
  (forall m r', (forall i b, m !! i = Some b -> i ∈ map sub_ID l) ->
     (Forall (fun s => sub_MinIntervalSeconds s <= 0) l -> forall s, s ∈ l -> m !! sub_ID s = Some true) -> Q (Ok m) r') ->
  (forall e r', ~ Forall (fun s => sub_MinIntervalSeconds s <= 0) l -> Q (Err e) r') ->
  wp (SubscriptionRepository.AllowNotifyBatch (P := P) now l) Q r.
Proof.
  intros Hok Herr. unfold SubscriptionRepository.AllowNotifyBatch.
  apply (wp_fold_prefix (fun pre (m : gmap string bool) _ => (forall i b, m !! i = Some b -> i ∈ map sub_ID pre) /\
    (Forall (fun s => sub_MinIntervalSeconds s <= 0) pre -> forall s, s ∈ pre -> m !! sub_ID s = Some true))).
  - split; [done|]. intros _ s ?%not_elem_of_nil. done.
  - intros pre s post m r' -> [Hi Hf]. wp_step. unfold wp at 1.
    destruct (SubscriptionRepository.AllowNotify now (sub_ID s) (sub_MinIntervalSeconds s) r') as [[b|e] r1] eqn:Ea; cbn [fst snd].
    + wp_step. split.
      * intros i b'. rewrite map_app. destruct (decide (i = sub_ID s)) as [->|Hn]; [set_solver|].
        rewrite lookup_insert_ne by done. intros ?%Hi. set_solver.
      * intros [Hp [Hs _]%Forall_cons]%Forall_app s' Hs'. unfold SubscriptionRepository.AllowNotify in Ea.
        rewrite (proj2 (Z.leb_le (sub_MinIntervalSeconds s) 0) Hs) in Ea. injection Ea as <- _.
        destruct (decide (sub_ID s' = sub_ID s)) as [->|Hn]; [apply lookup_insert_eq|]. rewrite lookup_insert_ne by done.
        apply Hf; [done|]. apply elem_of_app in Hs' as [?| ->%list_elem_of_singleton]; done.
    + apply Herr. intros [_ [Hs _]%Forall_cons]%Forall_app. unfold SubscriptionRepository.AllowNotify in Ea.
      rewrite (proj2 (Z.leb_le (sub_MinIntervalSeconds s) 0) Hs) in Ea. discriminate.
  - intros m r' [Hi Hf]. by apply Hok.
Qed.

Lemma hash_index (l : list Subscription) : l <> [] -> clock_ok now ->
  exists s, l !! Z.to_nat (Z.rem (Z.quot (unix now) 60) (Z.of_nat (length l))) = Some s /\ s ∈ l.
Proof.
  intros Hl [Hn _]. assert (0 <= Z.quot (unix now) 60) by (apply Z.quot_pos; [apply Z.div_pos; unfold second; lia | lia]).
  destruct l as [|s0 l]; [done|].
  destruct (lookup_lt_is_Some_2 (s0 :: l) (Z.to_nat (Z.rem (Z.quot (unix now) 60) (Z.of_nat (length (s0 :: l)))))) as [s Es].
  { pose proof (Z.rem_bound_pos (Z.quot (unix now) 60) (Z.of_nat (length (s0 :: l)))) as Hb.
    revert Hb. cbn [length]. lia. }
  exists s. split; [done|]. by eapply list_elem_of_lookup_2.
Qed.

(** What one call sends, by the list of active subscriptions it works on. *)
Definition notified (order1 : list (string * list Subscription) -> list (string * list Subscription)) (active : bool)
  (subs : list Subscription) out : Prop :=
  map fst out ⊆+ subs /\
  (forall s rq, (s, rq) ∈ out -> rq = notice s /\ sub_ID s ∈ map sub_ID (firsts order1 (splitModes subs))) /\
  (active = true -> nt_limiter n = None -> Forall (fun s => sub_MinIntervalSeconds s <= 0) subs ->
   forall s, s ∈ subs -> sub_DeliveryMode s <> "group" -> ~ in_hash s -> s ∈ map fst out).

Lemma firsts_intervals order subs : (forall l, order l ≡ₚ l) ->
  Forall (fun s => sub_MinIntervalSeconds s <= 0) subs -> Forall (fun s => sub_MinIntervalSeconds s <= 0) (firsts order (splitModes subs)).
Proof. intros Ho Hf. apply Forall_forall. intros s [Hs _]%firsts_in; [|done]. by eapply Forall_forall in Hf. Qed.

Lemma fanout_in subs s : s ∈ subs -> sub_DeliveryMode s <> "group" -> ~ in_hash s -> s ∈ m_fanout (splitModes subs).
Proof.
  rewrite <- (split_all subs) at 1. cbn zeta. rewrite !elem_of_app. intros [?|[Hg|Hh]] Hng Hnh; [done|exfalso..].
  - unfold grouped in Hg. apply list_elem_of_In, in_concat in Hg as (l & Hl & Hs). apply list_elem_of_In in Hl, Hs.
    apply list_elem_of_fmap in Hl as ((g & l') & -> & Hm). apply elem_of_map_to_list, split_group_nonempty in Hm as [-> _].
    cbn in Hs. apply list_elem_of_filter in Hs as [[? _] _]. done.
  - rewrite split_hash in Hh. apply list_elem_of_filter in Hh as [? _]. done.
Qed.

Lemma deliver_spec order m allowed (Q : res (list (Subscription * HTTPRequest)) -> SubRepo P * L -> Prop) st :
  clock_ok now -> (forall gs, order gs ≡ₚ gs) ->
  (forall s, s ∈ m_fanout m ++ grouped (m_groups m) ++ m_hash m -> is_Some (url_Parse (sub_CallbackURL s))) ->
  (forall out st', sent_ok allowed (m_fanout m ++ grouped (m_groups m) ++ m_hash m) out ->
     (nt_limiter n = None -> forall s, s ∈ m_fanout m -> allowed !! sub_ID s = Some true -> s ∈ map fst out) -> Q (Ok out) st') ->
  wp (deliver url_Parse marshal_map n order now cmd m allowed) Q st.
Proof.
  intros Hclock Ho Hu HQ. unfold deliver. cbv zeta.
  assert (concat (map snd (order (map_to_list (m_groups m)))) ≡ₚ grouped (m_groups m)) as Hperm by (unfold grouped; by rewrite Ho).
  wp_step. apply fanout_loop; [intros; apply Hu; rewrite !elem_of_app; tauto|]. intros out1 st1 Hs1 Hc1.
  wp_step. apply (group_loop allowed _ (m_fanout m)); [done | |].
  { intros g l s Hg Hs. apply Hu. rewrite !elem_of_app. right. left. rewrite <- Hperm.
    apply list_elem_of_In, in_concat. exists l. split; apply list_elem_of_In; [|done].
    apply list_elem_of_fmap. by exists (g, l). }
  intros out2 st2 Hs2 Hc2. rewrite Hperm in Hs2.
  assert (forall s, s ∈ m_hash m -> is_Some (url_Parse (sub_CallbackURL s))) as Huh by (intros; apply Hu; rewrite !elem_of_app; tauto).
  assert (forall s out, s ∈ map fst out1 -> map fst out2 ⊆ map fst out -> s ∈ map fst out) as Hsub by set_solver.
  destruct (m_hash m) as [|h0 hs] eqn:Eh; [wp_step; apply HQ; [by rewrite app_nil_r | eauto]|].
  destruct (hash_index (h0 :: hs)) as (s & Es & Hin); [done..|]. rewrite Es. wp_step.
  apply dispatchIf_sends; [by apply Huh|..]; intros st3 Ha; wp_step; rewrite ?app_nil_r; apply HQ.
  - rewrite app_assoc. by apply sent_ok_one.
  - intros Hn s' Hs' Has. apply (Hsub s'); [by apply Hc1|]. rewrite map_app. set_solver.
  - rewrite app_assoc. by apply sent_ok_more.
  - eauto.
Qed.

Lemma NotifyQueueReady_spec order1 order2 r l subs :
  SubscriptionRepository.ListActive cmd now r = (Ok subs, r) -> clock_ok now ->
  (forall gs, order1 gs ≡ₚ gs) -> (forall gs, order2 gs ≡ₚ gs) ->
  (forall s, s ∈ subs -> is_Some (url_Parse (sub_CallbackURL s))) ->
  wp (NotifyQueueReady url_Parse marshal_map n order1 order2 now cmd)
     (fun x _ => exists out, x = Ok out /\ notified order1 (SubscriptionRepository.HasActive cmd r) subs out) (r, l).
Proof.
  intros Hl Hclock Ho1 Ho2 Hu. unfold NotifyQueueReady. do 2 wp_step.
  assert (forall b, b = false \/ subs = [] -> exists out, Ok [] = Ok out /\ notified order1 b subs out) as Hnone.
  { intros b Hb. exists []. split; [done|]. split; [apply submseteq_nil_l|]. split; [by intros ? ? ?%not_elem_of_nil|].
    intros -> _ _ s Hs. destruct Hb as [?| ->]; [done | by apply not_elem_of_nil in Hs]. }
  wp_step; [wp_step; apply Hnone; left; by apply negb_true_iff|].
  match goal with E : negb _ = false |- _ => apply negb_false_iff in E; cbn [fst] in E; rewrite E end.
  wp_step. wp_step. unfold onRepo. wp_step. cbn [fst]. unfold wp at 1. rewrite Hl. cbn [fst snd].
  destruct subs as [|s0 subs']; [wp_step; apply Hnone; by right|]. set (subs := s0 :: subs') in *. cbv zeta.
  do 2 wp_step. unfold onRepo. wp_step.
  pose proof (split_all subs) as Hall. cbn zeta in Hall.
  assert (forall allowed st,
    (forall i b, allowed !! i = Some b -> i ∈ map sub_ID (firsts order1 (splitModes subs))) ->
    (Forall (fun s => sub_MinIntervalSeconds s <= 0) (firsts order1 (splitModes subs)) ->
     forall s, s ∈ firsts order1 (splitModes subs) -> allowed !! sub_ID s = Some true) ->
    wp (deliver url_Parse marshal_map n order2 now cmd (splitModes subs) allowed)
      (fun x _ => exists out, x = Ok out /\ notified order1 true subs out) st) as Hdone.
  { intros allowed st Hids Hfree. apply deliver_spec; [done | done | intros s; rewrite Hall; apply Hu|].
    intros out st' [Hsub Hrq] Hc. exists out. split; [done|]. split; [by rewrite Hall in Hsub|]. split.
    - intros s rq [-> Ha]%Hrq. split; [done|]. by eapply Hids.
    - intros _ Hn Hf s Hs Hng Hnh. pose proof (fanout_in subs s Hs Hng Hnh) as Hfan.
      apply Hc; [done..|]. apply Hfree; [by apply firsts_intervals|]. unfold firsts. rewrite elem_of_app. by left. }
  apply AllowNotifyBatch_ids; [intros m r' Hids Hfree; by apply Hdone|].
  intros e r' Hn. apply Hdone; [done | by intros ?%Hn].
Qed.

(** Who is told that a queue has work.  In every reachable state, whatever
    the order of Go's map iterations, a call returns and sends requests only to
    stored subscriptions that have the event type and are not expired, at most
    one to each of them, at its callback URL and signed with the secret.  When
    the counter knows of active subscriptions, none has a minimum interval and
    no limiter is set, every fan-out subscription is told.  The callback URLs
    are those [url.Parse] accepts, which the service checks on creation. *)
Theorem notify_targets order1 order2 r l : sub_reachable r -> slash_free cmd -> clock_ok now ->
  (forall gs, order1 gs ≡ₚ gs) -> (forall gs, order2 gs ≡ₚ gs) ->
  (forall id s, live_sub (stored (s_db r)) id s -> is_Some (url_Parse (sub_CallbackURL s))) ->
  exists out, fst (NotifyQueueReady url_Parse marshal_map n order1 order2 now cmd (r, l)) = Ok out /\
    NoDup (map (fun p => sub_ID (fst p)) out) /\
    (forall s rq, (s, rq) ∈ out -> live_sub (stored (s_db r)) (sub_ID s) s /\ subscribed cmd s /\
       unixSeconds now <= expiry s /\ rq = notice s) /\
    (SubscriptionRepository.HasActive cmd r = true -> nt_limiter n = None ->
     (forall id s, live_sub (stored (s_db r)) id s -> sub_MinIntervalSeconds s <= 0) ->
     forall s, live_sub (stored (s_db r)) (sub_ID s) s -> subscribed cmd s -> unixSeconds now <= expiry s ->
       sub_DeliveryMode s <> "group" -> ~ in_hash s -> (s, notice s) ∈ out).
Proof.
  intros Hr Hc Hclock Ho1 Ho2 Hu. destruct (ListActive_live r cmd now Hr Hc) as (subs & Hl & Hnd & Hin).
  destruct (NotifyQueueReady_spec order1 order2 r l subs Hl Hclock Ho1 Ho2) as (out & Hout & Hsub & Hrq & Hall).
  { intros s (Hlive & _)%Hin. by eapply Hu. }
  exists out. split; [exact Hout|]. split; [|split].
  - rewrite <- (map_map fst sub_ID). eapply submseteq_NoDup; [by apply (fmap_submseteq sub_ID) in Hsub | done].
  - intros s rq Hs. pose proof (submseteq_fst _ _ _ _ Hsub Hs) as (?&?&?)%Hin. apply Hrq in Hs as [-> _]. done.
  - intros Ha Hn Hf s Hlive Hs He Hng Hnh. assert (s ∈ subs) as Hss by (by apply Hin).
    assert (s ∈ map fst out) as ((s' & rq) & -> & Hsr)%list_elem_of_fmap.
    { apply Hall; [done | done | | done..]. apply Forall_forall. intros s' (Hl' & _)%Hin. by eapply Hf. }
    destruct (Hrq _ _ Hsr) as [-> _]. done.
Qed.

(** Group and hash delivery only ever reach the first member.  The throttle
    is asked for the first subscription of each group and of the hash list,
    while the member picked is another one in turn, and a member that was not
    asked for counts as throttled: a request for a group or a hash subscription
    always goes to the first of its list, and the turns of all the others are
    lost. *)
Theorem group_turns_lost order1 order2 r l : sub_reachable r -> slash_free cmd -> clock_ok now ->
  (forall gs, order1 gs ≡ₚ gs) -> (forall gs, order2 gs ≡ₚ gs) ->
  (forall id s, live_sub (stored (s_db r)) id s -> is_Some (url_Parse (sub_CallbackURL s))) ->
  exists subs out, fst (SubscriptionRepository.ListActive cmd now r) = Ok subs /\
    fst (NotifyQueueReady url_Parse marshal_map n order1 order2 now cmd (r, l)) = Ok out /\
    forall s rq, (s, rq) ∈ out ->
      (sub_DeliveryMode s = "group" -> head (filter (in_group (sub_GroupID s)) subs) = Some s) /\
      (in_hash s -> head (filter in_hash subs) = Some s).
Proof.
  intros Hr Hc Hclock Ho1 Ho2 Hu. destruct (ListActive_live r cmd now Hr Hc) as (subs & Hl & Hnd & Hin).
  destruct (NotifyQueueReady_spec order1 order2 r l subs Hl Hclock Ho1 Ho2) as (out & Hout & Hsub & Hrq & _).
  { intros s (Hlive & _)%Hin. by eapply Hu. }
  exists subs, out. split; [by rewrite Hl|]. split; [exact Hout|]. intros s rq Hs.
  pose proof (submseteq_fst _ _ _ _ Hsub Hs) as Hss.
  apply Hrq in Hs as [_ (s' & Hid & Hf)%list_elem_of_fmap]. apply firsts_in in Hf as (Hs' & Hg & Hh); [|done].
  assert (s = s') as -> by (eapply (NoDup_map_inj sub_ID subs); done). done.
Qed.
End notify.

(** ** Result callbacks *)

Section callbacks.
Variable url_Parse : string -> option (string * string).
Variable s : callbackConfig.
Variables (clock : nat -> Z) (waits : nat -> list Z) (answer : nat -> res Z).
Import resultCallbackService.

Definition posts (acts : list cb_action) : list HTTPRequest :=
  omap (fun a => match a with Post rq => Some rq | Sleep _ => None end) acts.

Lemma posts_app a b : posts (a ++ b) = posts a ++ posts b.
Proof. apply omap_app. Qed.

Lemma posts_sleep d : posts (sleepOrDone d) = [].
Proof. unfold sleepOrDone. by destruct (d <=? 0). Qed.

Lemma posts_waits l : posts (concat (map sleepOrDone l)) = [].
Proof. induction l as [|d l IH]; [done|]. cbn [map concat]. by rewrite posts_app, posts_sleep, IH. Qed.

Lemma attempts_posts url body u left k : url_Parse url = Some u -> (0 < left)%nat ->
  exists m acts b, attemptsFrom url_Parse s clock waits answer left k url body = (acts, Ok b) /\ (1 <= m <= left)%nat /\
    posts acts = map (fun i => signed (cb_secret s) (clock i) url body) (seq k m) /\
    (forall i, (k <= i < k + m - 1)%nat -> delivered (answer i) = false) /\
    b = delivered (answer (k + m - 1)%nat) /\ (b = false -> m = left).
Proof.
  intros Hu. revert k. induction left as [|left IH]; intros k Hl; [lia|]. cbn [attemptsFrom]. rewrite Hu.
  destruct (delivered (answer k)) eqn:Ed.
  { exists 1%nat. eexists _, _. split; [reflexivity|]. split; [lia|]. split.
    - rewrite posts_app, posts_waits. done.
    - split; [lia|]. replace (k + 1 - 1)%nat with k by lia. by rewrite Ed. }
  destruct left as [|left].
  { exists 1%nat. eexists _, _. cbn [attemptsFrom]. split; [reflexivity|]. split; [lia|]. split.
    - rewrite !posts_app, posts_waits, posts_sleep. done.
    - split; [lia|]. replace (k + 1 - 1)%nat with k by lia. by rewrite Ed. }
  destruct (IH (S k)) as (m & acts & b & -> & Hm & Hp & Hn & Hb & Hf); [lia|].
  exists (S m). eexists _, _. split; [reflexivity|]. split; [lia|]. split; [|split; [|split]].
  - rewrite !posts_app, posts_waits, posts_sleep, Hp. done.
  - intros i Hi. destruct (decide (i = k)) as [->|]; [done|]. apply Hn. lia.
  - replace (k + S m - 1)%nat with (S k + m - 1)%nat by lia. done.
  - intros ->. rewrite Hf by done. done.
Qed.

(** Result callbacks are retried until one is accepted.  For a webhook that
    parses, the sender makes between one and [maxAttempts] requests, all with the
    same body and a fresh signature; every request before the last was refused,
    it stops at the first 2xx answer, and it reports failure only after
    [maxAttempts] refusals. *)
Theorem callback_retries url body : is_Some (url_Parse url) -> 0 < cb_maxAttempts s ->
  exists m acts b, sendWithRetry url_Parse s clock waits answer url body = (acts, Ok b) /\
    1 <= Z.of_nat m <= cb_maxAttempts s /\
    posts acts = map (fun i => signed (cb_secret s) (clock i) url body) (seq 1 m) /\
    (forall i, (1 <= i < m)%nat -> delivered (answer i) = false) /\
    b = delivered (answer m) /\ (b = false -> Z.of_nat m = cb_maxAttempts s).
Proof.
  intros [u Hu] Hm. destruct (attempts_posts url body u (Z.to_nat (cb_maxAttempts s)) 1 Hu) as (m & acts & b & Ha & Hr & Hp & Hn & Hb & Hf); [lia|].
  exists m, acts, b. split; [exact Ha|]. split; [lia|]. split; [done|]. split; [intros i Hi; apply Hn; lia|].
  split; [by replace m with (1 + m - 1)%nat by lia|]. intros ?%Hf. lia.
Qed.

(** The delay between callbacks doubles up to its maximum, and wraps.  As
    long as the product fits an [int64] the delay is the smaller of
    [baseDelay * 2^(attempt-1)] and [maxDelay]; from attempt 65 on the shift has
    lost every bit, so there is no delay at all. *)
Theorem callback_backoff attempt : 0 < cb_baseDelay s -> 0 < cb_maxDelay s -> 1 <= attempt ->
  (cb_baseDelay s * 2 ^ (attempt - 1) <= MaxInt64 ->
     backoffDelay s attempt = Z.min (cb_baseDelay s * 2 ^ (attempt - 1)) (cb_maxDelay s) /\
     sleepOrDone (backoffDelay s attempt) = [Sleep (backoffDelay s attempt)]) /\
  (65 <= attempt -> backoffDelay s attempt = 0 /\ sleepOrDone (backoffDelay s attempt) = []).
Proof.
  intros Hb Hm Ha. unfold backoffDelay. rewrite Z.shiftl_1_l. split; intros Hk.
  - assert (0 < 2 ^ (attempt - 1)) by (apply Z.pow_pos_nonneg; lia). unfold MaxInt64 in Hk.
    rewrite (wrap64_id (2 ^ (attempt - 1))), wrap64_id by (unfold MinInt64, MaxInt64; nia). cbv zeta.
    assert (forall d, 0 < d -> sleepOrDone d = [Sleep d]) as Hs
      by (intros d Hd; unfold sleepOrDone; by rewrite (proj2 (Z.leb_gt _ _)) by lia).
    destruct (Z.ltb_spec (cb_maxDelay s) (cb_baseDelay s * 2 ^ (attempt - 1))); (split; [lia|]); apply Hs; nia.
  - replace (2 ^ (attempt - 1)) with (2 ^ (attempt - 65) * two64)
      by (change two64 with (2 ^ 64); rewrite <- Z.pow_add_r by lia; f_equal; lia).
    rewrite wrap64_multiple, Z.mul_0_r. change (wrap64 0) with 0. cbv zeta. by rewrite (proj2 (Z.ltb_ge _ _)) by lia.
Qed.
End callbacks.

(** ** Concrete runs *)

Import framed_sub.

Module notify_run.
Import sub_run.

Definition parse (_ : string) : option (string * string) := Some ("https", "hooks.example").
Definition body (_ : list (string * jvalue)) : string := "{}".
Definition conf : notifierConfig unit := notifierService.NewNotifierService "" 0 None (mkBucket 0 0).

Definition fan : Subscription := mkSub "" "https://hooks.example/f" [CmdGenerateMaster] "fanout" "" 0 zero_time zero_time.
Definition rf : SubRepo memstore.store := snd (SubscriptionRepository.Create (H0 := framed_sub.codec) "f1" t0 fan 300 r1).

(** A second member of the group, and the turn of the second member. *)
Definition r2 : SubRepo memstore.store := snd (SubscriptionRepository.Create (H0 := framed_sub.codec) "s2" t0 sub0 300 r1).
Definition r3 : SubRepo memstore.store := snd (SubscriptionRepository.NextGroupIndex CmdGenerateMaster "g1" 2 r2).

Lemma scan_fresh (m : gmap string string) id : slash_free id -> m !! keySub id = None ->
  forallb (fun kv => bool_decide (after_last_slash (fst kv) <> Some id)) (map_to_list m) = true -> fresh_sub m id.
Proof.
  intros Hs Hk Hf. split; [done|]. intros cmd e. destruct (m !! keySubEvent cmd e id) as [v|] eqn:E; [exfalso|done].
  apply elem_of_map_to_list, list_elem_of_In in E. eapply forallb_forall in Hf; [|exact E].
  apply bool_decide_eq_true in Hf. by apply Hf, event_last_slash.
Qed.

Lemma more_reachable id sub : slash_free id -> fresh_sub (stored (s_db r1)) id -> sub_ID sub = "" ->
  sub_EventTypes sub = [CmdGenerateMaster] ->
  sub_reachable (H1 := framed_sub.codec) (snd (SubscriptionRepository.Create (H0 := framed_sub.codec) id t0 sub 300 r1)).
Proof.
  intros Hs Hf Hid He. eapply sr_step; [apply r1_reachable|]. apply ss_create; [by vm_compute | done | done | done|].
  rewrite He. by repeat constructor.
Qed.

Lemma rf_reachable : sub_reachable (H1 := framed_sub.codec) rf.
Proof. apply more_reachable; [done | apply scan_fresh; [done | reflexivity | vm_compute; reflexivity] | done..]. Qed.

Lemma r3_reachable : sub_reachable (H1 := framed_sub.codec) r3.
Proof.
  eapply sr_step; [|apply ss_next].
  apply more_reachable; [done | apply scan_fresh; [done | reflexivity | vm_compute; reflexivity] | done..].
Qed.

Definition notify (r : SubRepo memstore.store) : res (list (Subscription * HTTPRequest)) :=
  fst (notifierService.NotifyQueueReady (H0 := framed_sub.codec) parse body conf (fun gs => gs) (fun gs => gs) t0
    CmdGenerateMaster (r, tt)).
End notify_run.

(** A fan-out subscription and a group of one: both are told. *)
Lemma notify_targets_witness : exists out, notify_run.notify notify_run.rf = Ok out /\
  NoDup (map (fun p => sub_ID (fst p)) out) /\ map (fun p => sub_ID (fst p)) out = ["f1"; "s1"].
Proof.
  destruct (notify_targets (H1 := framed_sub.codec) notify_run.parse notify_run.body notify_run.conf sub_run.t0
    CmdGenerateMaster (fun gs => gs) (fun gs => gs) notify_run.rf tt notify_run.rf_reachable eq_refl) as (out & Ho & Hn & _);
    [by vm_compute | done | done | by eexists|].
  exists out. split; [exact Ho|]. split; [exact Hn|].
  assert (match notify_run.notify notify_run.rf with Ok o => map (fun p => sub_ID (fst p)) o = ["f1"; "s1"] | Err _ => False end) as Hc
    by (vm_compute; reflexivity).
  unfold notify_run.notify in Hc. by rewrite Ho in Hc.
Defined.

(** Two members in the group, and the turn of the second: nobody is told. *)
Lemma group_turns_lost_witness : notify_run.notify notify_run.r3 = Ok [] /\
  exists subs, fst (SubscriptionRepository.ListActive (H0 := framed_sub.codec) CmdGenerateMaster sub_run.t0 notify_run.r3) = Ok subs /\
    map sub_ID subs = ["s1"; "s2"].
Proof.
  destruct (group_turns_lost (H1 := framed_sub.codec) notify_run.parse notify_run.body notify_run.conf sub_run.t0
    CmdGenerateMaster (fun gs => gs) (fun gs => gs) notify_run.r3 tt notify_run.r3_reachable eq_refl) as (subs & out & Hs & _);
    [by vm_compute | done | done | by eexists|].
  split; [vm_compute; reflexivity|]. exists subs. split; [exact Hs|].
  assert (match fst (SubscriptionRepository.ListActive (H0 := framed_sub.codec) CmdGenerateMaster sub_run.t0 notify_run.r3) with
          | Ok o => map sub_ID o = ["s1"; "s2"] | Err _ => False end) as Hc by (vm_compute; reflexivity).
  by rewrite Hs in Hc.
Defined.

(** The third request is accepted. *)
Lemma callback_retries_witness :
  let answer k := if (k <? 3)%nat then Err (ErrText "connection refused") else Ok 204 in
  exists acts, resultCallbackService.sendWithRetry notify_run.parse (resultCallbackService.NewResultCallbackService "" 0 0 0)
    (fun _ => sub_run.t0) (fun _ => []) answer "https://hooks.example/r" "{}" = (acts, Ok true) /\ length (posts acts) = 3%nat.
Proof.
  intros answer. destruct (callback_retries notify_run.parse (resultCallbackService.NewResultCallbackService "" 0 0 0)
    (fun _ => sub_run.t0) (fun _ => []) answer "https://hooks.example/r" "{}") as (m & acts & b & Ha & Hm & Hp & Hn & Hb & Hf);
    [by eexists | done|].
  exists acts. assert (m = 3%nat) as ->.
  { destruct m as [|[|[|[|m]]]]; [lia | | | done | specialize (Hn 3%nat); discriminate Hn; lia];
      subst b; discriminate Hf; reflexivity. }
  subst b. split; [exact Ha | by rewrite Hp].
Defined.

(** With the default delays, attempt 5 waits 32 seconds and attempt 65 does not wait. *)
Lemma callback_backoff_witness :
  let s := resultCallbackService.NewResultCallbackService "" 100 0 0 in
  resultCallbackService.backoffDelay s 5 = 32 * second /\ resultCallbackService.backoffDelay s 65 = 0.
Proof.
  intros s. split.
  - destruct (callback_backoff s 5) as [H5 _]; [done..|]. destruct H5 as [-> _]; [by vm_compute | reflexivity].
  - destruct (callback_backoff s 65) as [_ H65]; [done..|]. apply H65. lia.
Defined.
