(* ===== verification/Topics.v ===== *)
(** Queue topics: the policy a tenant attaches to a queue
    ([src/internal/core/queuetopic]), the use cases
    ([src/internal/application/topics]), their Pebble store
    ([src/internal/storage/adapter/pebble/topic_store.go]) and their HTTP
    handlers ([src/internal/server/http/topics/handler.go]).

    [TopicStore] is the interface the service works against.  The Pebble store
    and the unavailable store are its instances; [TopicStoreLaws] is what the
    service relies on, and the Pebble store discharges it. *)

From stdpp Require Import sorting.
From S2P Require Import Prelude GoTime Domain Keys GoText LeaseTable PebbleDB.

(** ** The domain *)

Record Policy := mkPolicy {
  pl_PriorityTiers : list Z;
  pl_MaxAttempts : Z;
  pl_DeadLetterTopicRef : string;
  pl_RetentionSeconds : Z;
  pl_MaxConsumers : Z
}.

Record Topic := mkTopic {
  tp_TopicID : string;
  tp_TenantID : string;
  tp_TopicName : string;
  tp_Policy : Policy;
  tp_Version : Z;
  tp_CreatedAt : Z;
  tp_UpdatedAt : Z
}.

#[export] Instance Policy_eq_dec : EqDecision Policy.
Proof. solve_decision. Defined.
#[export] Instance Topic_eq_dec : EqDecision Topic.
Proof. solve_decision. Defined.

Module queuetopic.

Definition maxAttempts : Z := 100.
Definition maxConsumers : Z := 10000.
Definition maxPriority : Z := 10.
Definition maxPriorityTiers : nat := 10.
Definition maxRetentionSecond : Z := 2147483647.

Definition PhysicalID (tenantID topicName : string) : string := tenantID +:+ "." +:+ topicName.

Definition dnsLabel (name : string) : bool :=
  (String.length name <=? 63)%nat && MatchString namePattern name.

Definition ValidateIdentity (tenantID topicName : string) : res unit :=
  if negb (MatchString tenantPattern tenantID) then
    Err (ValidationError "tenantId" "must match ^[a-z][a-z0-9-]{1,62}$")
  else if negb (dnsLabel topicName) then
    Err (ValidationError "topicName" "must be a DNS label with at most 63 characters")
  else Ok tt.

Fixpoint checkPriorities (seen : list Z) (priorities : list Z) : res unit :=
  match priorities with
  | [] => Ok tt
  | priority :: rest =>
      if (priority <? 0) || (maxPriority <? priority) then
        Err (ValidationError "priorityTiers" "priorities must be integers from 0 through 10")
      else if bool_decide (priority ∈ seen) then
        Err (ValidationError "priorityTiers" "priorities must be unique")
      else checkPriorities (priority :: seen) rest
  end.

Definition validatePriorities (priorities : list Z) : res unit :=
  if (length priorities =? 0)%nat || (maxPriorityTiers <? length priorities)%nat then
    Err (ValidationError "priorityTiers" "must contain between 1 and 10 priorities")
  else checkPriorities [] priorities.

Definition validateRetryAndDLQ (topicName : string) (policy : Policy) : res unit :=
  if (pl_MaxAttempts policy <? 1) || (maxAttempts <? pl_MaxAttempts policy) then
    Err (ValidationError "maxAttempts" "must be between 1 and 100")
  else if negb (dnsLabel (pl_DeadLetterTopicRef policy)) then
    Err (ValidationError "deadLetterTopicRef" "must be a DNS label with at most 63 characters")
  else if bool_decide (pl_DeadLetterTopicRef policy = topicName) then
    Err (ValidationError "deadLetterTopicRef" "must differ from topicName")
  else Ok tt.

Definition validateLimits (policy : Policy) : res unit :=
  if (pl_RetentionSeconds policy <? 0) || (maxRetentionSecond <? pl_RetentionSeconds policy) then
    Err (ValidationError "retentionSeconds" "must be between 0 and 2147483647")
  else if (pl_MaxConsumers policy <? 0) || (maxConsumers <? pl_MaxConsumers policy) then
    Err (ValidationError "maxConsumers" "must be between 0 and 10000")
  else Ok tt.

Definition validatePolicy (topicName : string) (policy : Policy) : res unit :=
  match validatePriorities (pl_PriorityTiers policy) with
  | Err e => Err e
  | Ok _ =>
      match validateRetryAndDLQ topicName policy with
      | Err e => Err e
      | Ok _ => validateLimits policy
      end
  end.

(** [slices.Sort] on a clone of the tiers. *)
Definition normalized (policy : Policy) : Policy :=
  mkPolicy (merge_sort Z.le (pl_PriorityTiers policy)) (pl_MaxAttempts policy) (pl_DeadLetterTopicRef policy)
    (pl_RetentionSeconds policy) (pl_MaxConsumers policy).

Definition New (tenantID topicName : string) (policy : Policy) (now : Z) : res Topic :=
  match ValidateIdentity tenantID topicName with
  | Err e => Err e
  | Ok _ =>
      match validatePolicy topicName policy with
      | Err e => Err e
      | Ok _ => Ok (mkTopic (PhysicalID tenantID topicName) tenantID topicName (normalized policy) 0 now now)
      end
  end.

Definition SamePolicy (left right : Policy) : bool :=
  (pl_MaxAttempts left =? pl_MaxAttempts right) &&
  bool_decide (pl_DeadLetterTopicRef left = pl_DeadLetterTopicRef right) &&
  (pl_RetentionSeconds left =? pl_RetentionSeconds right) &&
  (pl_MaxConsumers left =? pl_MaxConsumers right) &&
  bool_decide (pl_PriorityTiers left = pl_PriorityTiers right).
End queuetopic.

(** ** The store interface and the service *)

(** The first argument is [ctx.Err()] as the call finds it. *)
Class TopicStore (S : Type) := {
  ts_Upsert : option error -> Topic -> M S (Topic * bool * bool);
  ts_Get : option error -> string -> string -> M S Topic;
  ts_Delete : option error -> string -> string -> M S unit
}.

Module TopicService.
Section ops.
Context {S : Type} `{TopicStore S}.
Variable ctx : option error.

Definition Upsert (now : Z) (tenantID topicName : string) (policy : Policy) : M S (Topic * bool * bool) :=
  match queuetopic.New tenantID topicName policy now with
  | Err e => mthrow e
  | Ok desired => ts_Upsert ctx desired
  end.

Definition Get (tenantID topicName : string) : M S Topic :=
  match queuetopic.ValidateIdentity tenantID topicName with
  | Err e => mthrow e
  | Ok _ => ts_Get ctx tenantID topicName
  end.

Definition Delete (tenantID topicName : string) : M S unit :=
  match queuetopic.ValidateIdentity tenantID topicName with
  | Err e => mthrow e
  | Ok _ => ts_Delete ctx tenantID topicName
  end.
End ops.
End TopicService.

(** The store of the modes that cannot persist topics: its state is the reason. *)
Definition unavailableStore : TopicStore string := {|
  ts_Upsert _ _ := fun reason => (Err (UnavailableError reason), reason);
  ts_Get _ _ _ := fun reason => (Err (UnavailableError reason), reason);
  ts_Delete _ _ _ := fun reason => (Err (UnavailableError reason), reason)
|}.

(** ** The Pebble store *)

(** [json.Marshal] and [json.Unmarshal] on topics.  Marshalling fails for times
    outside the years a JSON time can carry. *)
Class TopicJSON := {
  marshal_topic : Topic -> res string;
  unmarshal_topic : string -> option Topic
}.

Class TopicJSONLaws `{TopicJSON} : Prop := {
  topic_roundtrip t v : marshal_topic t = Ok v -> unmarshal_topic v = Some t
}.

Module topicStore.

Definition topicKeyPrefix : string := "codeq/admin/topics/".
Definition topicKey (topicID : string) : string := topicKeyPrefix +:+ topicID.

Definition validateDesired (topic : Topic) : res unit :=
  match queuetopic.ValidateIdentity (tp_TenantID topic) (tp_TopicName topic) with
  | Err e => Err e
  | Ok _ =>
      if bool_decide (tp_TopicID topic = queuetopic.PhysicalID (tp_TenantID topic) (tp_TopicName topic)) then Ok tt
      else Err (ErrText "queue topic identity does not match physical id")
  end.

Section ops.
Context {P : Type} `{Pebble P} `{TopicJSON}.

Definition checkWrite (ctx : option error) : M (DB P) unit :=
  match ctx with Some e => mthrow e | None => RequireWriteLeader end.

(** [None]: there is no such topic.  The text of a decoding error is that of
    package json. *)
Definition read (topicID : string) : M (DB P) (option Topic) :=
  let! g := mtry (PebbleDB.Get (topicKey topicID)) in
  match g with
  | Err e =>
      if is_not_found e then mret None
      else mthrow (ErrWrap ("read queue topic " +:+ quoted topicID) e)
  | Ok payload =>
      match unmarshal_topic payload with
      | None => mthrow (ErrWrap ("decode queue topic " +:+ quoted topicID) (ErrExternal "json"))
      | Some topic =>
          if bool_decide (tp_TopicID topic <> topicID) ||
             bool_decide (queuetopic.PhysicalID (tp_TenantID topic) (tp_TopicName topic) <> topicID)
          then mthrow (ErrText ("decode queue topic " +:+ quoted topicID +:+ ": stored identity does not match key"))
          else mret (Some topic)
      end
  end.

(** The topic that replaces [current]; versions start at 1. *)
Definition nextVersion (current : option Topic) (desired : Topic) : Topic :=
  match current with
  | Some c =>
      mkTopic (tp_TopicID desired) (tp_TenantID desired) (tp_TopicName desired) (tp_Policy desired)
        (wrap64 (tp_Version c + 1)) (tp_CreatedAt c) (tp_UpdatedAt desired)
  | None =>
      mkTopic (tp_TopicID desired) (tp_TenantID desired) (tp_TopicName desired) (tp_Policy desired)
        1 (tp_CreatedAt desired) (tp_UpdatedAt desired)
  end.

Definition wrapErr {A} (msg : string) (m : M (DB P) A) : M (DB P) A :=
  let! g := mtry m in
  match g with Ok a => mret a | Err e => mthrow (ErrWrap msg e) end.

Definition persist (current : option Topic) (desired : Topic) : M (DB P) (Topic * bool * bool) :=
  let next := nextVersion current desired in
  match marshal_topic next with
  | Err e => mthrow (ErrWrap ("marshal queue topic " +:+ quoted (tp_TopicID next)) e)
  | Ok payload =>
      wrapErr ("persist queue topic " +:+ quoted (tp_TopicID next)) (Set_ (topicKey (tp_TopicID next)) payload) ;;!
      mret (next, bool_decide (current = None), bool_decide (current <> None))
  end.

(** The topic, whether it was created and whether it was changed.  The mutex
    makes what follows the first check one step, which starts with the same
    check. *)
Definition Upsert (ctx : option error) (desired : Topic) : M (DB P) (Topic * bool * bool) :=
  match validateDesired desired with
  | Err e => mthrow e
  | Ok _ =>
      checkWrite ctx ;;!
      checkWrite ctx ;;!
      let! current := read (tp_TopicID desired) in
      match current with
      | Some c =>
          if queuetopic.SamePolicy (tp_Policy c) (tp_Policy desired) then mret (c, false, false)
          else persist current desired
      | None => persist current desired
      end
  end.

Definition Get (ctx : option error) (tenantID topicName : string) : M (DB P) Topic :=
  match ctx with
  | Some e => mthrow e
  | None =>
      let topicID := queuetopic.PhysicalID tenantID topicName in
      let! topic := read topicID in
      match topic with
      | None => mthrow (NotFoundError topicID)
      | Some topic => mret topic
      end
  end.

Definition Delete (ctx : option error) (tenantID topicName : string) : M (DB P) unit :=
  checkWrite ctx ;;!
  checkWrite ctx ;;!
  let topicID := queuetopic.PhysicalID tenantID topicName in
  wrapErr ("delete queue topic " +:+ quoted topicID) (PebbleDB.Delete (topicKey topicID)).

#[export] Instance pebbleStore : TopicStore (DB P) := {
  ts_Upsert := Upsert;
  ts_Get := Get;
  ts_Delete := Delete
}.
End ops.
End topicStore.

(** ** The HTTP handlers *)

(** A response: the status, the topic or the error text, the field of a
    validation error, and the [Location] and leader of a redirect. *)
Record topicResponse := mkTopicResponse {
  tr_status : Z;
  tr_topic : option Topic;
  tr_error : option string;
  tr_field : option string;
  tr_location : option string;
  tr_leader : option string
}.

Definition failed (status : Z) (msg : string) : topicResponse := mkTopicResponse status None (Some msg) None None None.

(** [errors.As] for each of the targets of [writeError]. *)
Fixpoint unwrapped {A} (f : error -> option A) (e : error) : option A :=
  match f e with
  | Some a => Some a
  | None => match e with ErrWrap _ e' => unwrapped f e' | _ => None end
  end.
Definition asLeaderHint : error -> option string :=
  unwrapped (fun e => match e with NotLeaderError u => Some u | _ => None end).
Definition asValidation : error -> option (string * string) :=
  unwrapped (fun e => match e with ValidationError f m => Some (f, m) | _ => None end).
Definition asNotFound : error -> option string :=
  unwrapped (fun e => match e with NotFoundError i => Some i | _ => None end).
Definition asConflict : error -> option string :=
  unwrapped (fun e => match e with ConflictError i => Some i | _ => None end).
Definition asUnavailable : error -> option string :=
  unwrapped (fun e => match e with UnavailableError r => Some r | _ => None end).

Module topicsHandler.

(** [strings.TrimSuffix(leader, "/")]. *)
Definition trimSlash (s : string) : string :=
  if bytesHasSuffix s "/" then take_s (String.length s - 1) s else s.

Definition writeError (requestURI : string) (err : error) : topicResponse :=
  match asLeaderHint err with
  | Some leader =>
      if bool_decide (leader = "") then failed 503 "queue topic leader unavailable"
      else mkTopicResponse 307 None (Some "not leader") None (Some (trimSlash leader +:+ requestURI)) (Some leader)
  | None =>
      match asValidation err, asNotFound err, asConflict err, asUnavailable err with
      | Some (f, m), _, _, _ => mkTopicResponse 422 None (Some (error_text (ValidationError f m))) (Some f) None None
      | _, Some i, _, _ => failed 404 (error_text (NotFoundError i))
      | _, _, Some i, _ => failed 409 (error_text (ConflictError i))
      | _, _, _, Some r => failed 503 (error_text (UnavailableError r))
      | _, _, _, _ => failed 500 "queue topic operation failed"
      end
  end.

Section handlers.
Context {S : Type} `{TopicStore S}.
Variable ctx : option error.
(** The strict JSON decoder on the request's body: the first value and the
    rest of the input, and the next value, [None] at the end of the input. *)
Variable decodeFirst : string -> res (Policy * string).
Variable decodeNext : string -> option (res unit).
Variables (tenantID requestURI : string).

Definition decodePolicy (body : string) : res Policy :=
  match decodeFirst body with
  | Err e => Err e
  | Ok (policy, rest) =>
      match decodeNext rest with
      | None => Ok policy
      | Some (Ok _) => Err (ErrText "only one JSON object is allowed")
      | Some (Err e) => Err e
      end
  end.

(** A handler answers whatever the service returns. *)
Definition answer {A} (m : M S A) (k : A -> topicResponse) : S -> topicResponse * S := fun s =>
  match m s with
  | (Ok a, s') => (k a, s')
  | (Err e, s') => (writeError requestURI e, s')
  end.

Definition Upsert (now : Z) (topicName body : string) : S -> topicResponse * S :=
  match decodePolicy body with
  | Err e => fun s => (failed 400 ("invalid request body: " +:+ error_text e), s)
  | Ok policy =>
      answer (TopicService.Upsert ctx now tenantID topicName policy)
        (fun '(topic, created, _) => mkTopicResponse (if created : bool then 201 else 200) (Some topic) None None None None)
  end.

Definition Get (topicName : string) : S -> topicResponse * S :=
  answer (TopicService.Get ctx tenantID topicName) (fun topic => mkTopicResponse 200 (Some topic) None None None None).

Definition Delete (deletionPolicy topicName : string) : S -> topicResponse * S :=
  if bool_decide (deletionPolicy <> "Delete") then fun s => (failed 400 "deletionPolicy=Delete is required", s)
  else answer (TopicService.Delete ctx tenantID topicName) (fun _ => mkTopicResponse 204 None None None None None).
End handlers.
End topicsHandler.

(** ** Well-formed topics *)

Definition identity_ok (tenantID topicName : string) : Prop :=
  MatchString tenantPattern tenantID = true /\ queuetopic.dnsLabel topicName = true.

(** The policies a topic may have, as the provider contract states them. *)
Record policy_ok (topicName : string) (p : Policy) : Prop := {
  po_count : (1 <= length (pl_PriorityTiers p) <= 10)%nat;
  po_range : Forall (fun x => 0 <= x <= 10) (pl_PriorityTiers p);
  po_unique : NoDup (pl_PriorityTiers p);
  po_attempts : 1 <= pl_MaxAttempts p <= 100;
  po_label : queuetopic.dnsLabel (pl_DeadLetterTopicRef p) = true;
  po_dead_letter : pl_DeadLetterTopicRef p <> topicName;
  po_retention : 0 <= pl_RetentionSeconds p <= 2147483647;
  po_consumers : 0 <= pl_MaxConsumers p <= 10000
}.

Record topic_ok (t : Topic) : Prop := {
  to_identity : identity_ok (tp_TenantID t) (tp_TopicName t);
  to_id : tp_TopicID t = queuetopic.PhysicalID (tp_TenantID t) (tp_TopicName t);
  to_policy : policy_ok (tp_TopicName t) (tp_Policy t);
  to_sorted : StronglySorted Z.lt (pl_PriorityTiers (tp_Policy t))
}.

Module topic_facts.
Import queuetopic.

Lemma ValidateIdentity_spec tenant name : ValidateIdentity tenant name = Ok tt <-> identity_ok tenant name.
Proof.
  unfold ValidateIdentity, identity_ok. destruct (MatchString tenantPattern tenant); cbn [negb]; [|by split; [|intros []]].
  destruct (dnsLabel name); cbn [negb]; [tauto | by split; [|intros []]].
Qed.

(** Labels have no dot, so the tenant and the name can be read off the id. *)
Lemma PhysicalID_inj t n t' n' : identity_ok t n -> identity_ok t' n' ->
  PhysicalID t n = PhysicalID t' n' -> t = t' /\ n = n'.
Proof.
  intros [Ht _] [Ht' _]. unfold PhysicalID. apply tenant_label in Ht as [_ Ht], Ht' as [_ Ht'].
  apply (all_s_elem _ "."%char) in Ht, Ht'; [|done..]. rewrite !(app_cons_s "."), !app_empty_s. intros E. by apply split_unique in E.
Qed.

Lemma checkPriorities_spec seen l : checkPriorities seen l = Ok tt <->
  Forall (fun x => 0 <= x <= 10) l /\ NoDup l /\ forall x, x ∈ l -> x ∉ seen.
Proof.
  revert seen. induction l as [|x l IH]; intros seen; cbn [checkPriorities].
  { split; [|done]. intros _. split; [constructor|]. split; [constructor|]. by intros ? ?%not_elem_of_nil. }
  rewrite Forall_cons, NoDup_cons. unfold maxPriority.
  destruct ((x <? 0) || (10 <? x)) eqn:Hx.
  - split; [done|]. intros [[] _]. lia.
  - case_bool_decide as Hs.
    + split; [done|]. intros (_ & _ & Hn). by destruct (Hn x); [left|].
    + rewrite IH. setoid_rewrite elem_of_cons. split.
      * intros (Hf & Hd & Hn). split; [split; [lia | done]|]. split; [split; [|done]|].
        -- intros Hin. apply (Hn x Hin). by left.
        -- intros y [->|Hy] Hsn; [done|]. apply (Hn y Hy). by right.
      * intros ([_ Hf] & [Hxl Hd] & Hn). split; [done|]. split; [done|]. intros y Hy [->|Hys]; [done|].
        by apply (Hn y); [right|].
Qed.

Lemma validatePolicy_spec name p : validatePolicy name p = Ok tt <-> policy_ok name p.
Proof.
  unfold validatePolicy, validatePriorities, validateRetryAndDLQ, validateLimits, maxPriorityTiers, maxAttempts,
    maxRetentionSecond, maxConsumers. split.
  - destruct (length (pl_PriorityTiers p) =? 0)%nat eqn:E0; [done|]. destruct (10 <? length (pl_PriorityTiers p))%nat eqn:E1; [done|].
    cbn [orb]. destruct (checkPriorities [] (pl_PriorityTiers p)) as [[]|] eqn:Ec; [|done]. apply checkPriorities_spec in Ec as (Hf & Hd & _).
    destruct (pl_MaxAttempts p <? 1) eqn:E2; [done|]. destruct (100 <? pl_MaxAttempts p) eqn:E3; [done|]. cbn [orb].
    destruct (dnsLabel (pl_DeadLetterTopicRef p)) eqn:E4; [|done]. cbn [negb]. case_bool_decide as E5; [done|].
    destruct (pl_RetentionSeconds p <? 0) eqn:E6; [done|]. destruct (2147483647 <? pl_RetentionSeconds p) eqn:E7; [done|]. cbn [orb].
    destruct (pl_MaxConsumers p <? 0) eqn:E8; [done|]. destruct (10000 <? pl_MaxConsumers p) eqn:E9; [done|]. intros _.
    apply Nat.eqb_neq in E0. apply Nat.ltb_ge in E1. rewrite ?Z.ltb_ge in *. split; (done || lia).
  - intros [Hc Hf Hd Ha Hl Hn Hr Hm]. rewrite (proj2 (Nat.eqb_neq _ _)), (proj2 (Nat.ltb_ge _ _)) by lia. cbn [orb].
    assert (checkPriorities [] (pl_PriorityTiers p) = Ok tt) as ->
      by (apply checkPriorities_spec; split; [done|]; split; [done|]; intros x _; apply not_elem_of_nil).
    rewrite Hl, bool_decide_eq_false_2 by done.
    repeat match goal with |- context [(?a <? ?b)] => rewrite (proj2 (Z.ltb_ge a b)) by lia end. done.
Qed.

#[local] Instance zle_total : Total Z.le.
Proof. intros x y. lia. Qed.

Lemma normalized_tiers p : pl_PriorityTiers (normalized p) ≡ₚ pl_PriorityTiers p.
Proof. apply merge_sort_Permutation. Qed.

Lemma sorted_strict (l : list Z) : StronglySorted Z.le l -> NoDup l -> StronglySorted Z.lt l.
Proof.
  induction 1 as [|x l Hs IH Hf]; [constructor|]. intros [Hx Hn]%NoDup_cons. constructor; [by apply IH|].
  apply Forall_forall. intros y Hy. rewrite Forall_forall in Hf. specialize (Hf y Hy).
  assert (x <> y) by (intros ->; done). lia.
Qed.

Lemma normalized_ok name p : policy_ok name p ->
  policy_ok name (normalized p) /\ StronglySorted Z.lt (pl_PriorityTiers (normalized p)).
Proof.
  intros [Hc Hf Hd Ha Hl Hn Hr Hm]. assert (NoDup (pl_PriorityTiers (normalized p))) as Hd' by (by rewrite normalized_tiers).
  split; [split; try done|].
  - by rewrite normalized_tiers.
  - by rewrite normalized_tiers.
  - apply sorted_strict; [|done]. apply (StronglySorted_merge_sort Z.le).
Qed.

(** Policies that differ in the order of their tiers. *)
Definition same_terms (p q : Policy) : Prop :=
  pl_PriorityTiers p ≡ₚ pl_PriorityTiers q /\ pl_MaxAttempts p = pl_MaxAttempts q /\
  pl_DeadLetterTopicRef p = pl_DeadLetterTopicRef q /\ pl_RetentionSeconds p = pl_RetentionSeconds q /\
  pl_MaxConsumers p = pl_MaxConsumers q.

Lemma normalized_same p q : same_terms p q <-> normalized p = normalized q.
Proof.
  split.
  - intros (Hp & Ha & Hd & Hr & Hm). unfold normalized. rewrite Ha, Hd, Hr, Hm. f_equal.
    apply (StronglySorted_unique Z.le); [apply (StronglySorted_merge_sort Z.le)..|]. by rewrite !merge_sort_Permutation.
  - intros E. split; [by rewrite <- (normalized_tiers p), <- (normalized_tiers q), E|]. by injection E.
Qed.

Lemma SamePolicy_spec p q : SamePolicy p q = true <-> p = q.
Proof.
  destruct p, q. unfold SamePolicy. cbn. rewrite !andb_true_iff, !bool_decide_eq_true, !Z.eqb_eq. naive_solver.
Qed.

(** [New] accepts exactly the well-formed requests. *)
Lemma New_spec tenant name p now : New tenant name p now =
  match ValidateIdentity tenant name, validatePolicy name p with
  | Err e, _ | Ok _, Err e => Err e
  | Ok _, Ok _ => Ok (mkTopic (PhysicalID tenant name) tenant name (normalized p) 0 now now)
  end.
Proof. unfold New. by destruct (ValidateIdentity tenant name), (validatePolicy name p). Qed.

Lemma New_ok tenant name p now t : New tenant name p now = Ok t <->
  identity_ok tenant name /\ policy_ok name p /\ t = mkTopic (PhysicalID tenant name) tenant name (normalized p) 0 now now.
Proof.
  rewrite New_spec, <- ValidateIdentity_spec, <- validatePolicy_spec.
  destruct (ValidateIdentity tenant name) as [[]|], (validatePolicy name p) as [[]|]; naive_solver.
Qed.

Lemma New_topic_ok tenant name p now t : New tenant name p now = Ok t -> topic_ok t.
Proof. intros (Hi & [Hp Hs]%normalized_ok & ->)%New_ok. by split. Qed.

Lemma New_err tenant name p now e : New tenant name p now = Err e -> exists f m, e = ValidationError f m.
Proof.
  unfold New, ValidateIdentity, validatePolicy, validatePriorities, validateRetryAndDLQ, validateLimits.
  assert (forall seen l e, checkPriorities seen l = Err e -> exists f m, e = ValidationError f m) as Hc.
  { intros seen l e'. revert seen. induction l as [|x l IH]; intros seen; cbn [checkPriorities]; [done|].
    destruct (_ || _); [naive_solver|]. case_bool_decide; [naive_solver | apply IH]. }
  intros HN. repeat (case_match; simplify_eq); eauto.
Qed.

Lemma nextVersion_ok c t : topic_ok t -> topic_ok (topicStore.nextVersion c t).
Proof. intros []. by destruct c. Qed.
End topic_facts.

(** ** What a store promises *)

(** The outcome of an upsert of [t] over the entry [c]. *)
Definition upserted (c : option Topic) (t : Topic) : Topic * bool * bool :=
  match c with
  | Some cur =>
      if queuetopic.SamePolicy (tp_Policy cur) (tp_Policy t) then (cur, false, false)
      else (topicStore.nextVersion c t, false, true)
  | None => (topicStore.nextVersion c t, true, false)
  end.

(** A store is a map from ids to well-formed topics.  A call that fails leaves
    the map as it was. *)
Class TopicStoreLaws (S : Type) `{TopicStore S} := {
  ts_inv : S -> Prop;
  ts_catalog : S -> string -> option Topic;
  ts_typed s id t : ts_inv s -> ts_catalog s id = Some t -> topic_ok t /\ tp_TopicID t = id;
  ts_upsert_spec ctx t s : ts_inv s -> topic_ok t ->
    wp (ts_Upsert ctx t) (fun x s' => ts_inv s' /\
      match x with
      | Ok out => out = upserted (ts_catalog s (tp_TopicID t)) t /\
                  forall id, ts_catalog s' id = if bool_decide (id = tp_TopicID t) then Some (fst (fst out)) else ts_catalog s id
      | Err _ => forall id, ts_catalog s' id = ts_catalog s id
      end) s;
  ts_get_spec ctx tenant name s : ts_inv s ->
    wp (ts_Get ctx tenant name) (fun x s' => s' = s /\
      match x with
      | Ok t => ts_catalog s (queuetopic.PhysicalID tenant name) = Some t
      | Err e => e = NotFoundError (queuetopic.PhysicalID tenant name) -> ctx = None -> ts_catalog s (queuetopic.PhysicalID tenant name) = None
      end) s;
  ts_delete_spec ctx tenant name s : ts_inv s ->
    wp (ts_Delete ctx tenant name) (fun x s' => ts_inv s' /\
      match x with
      | Ok _ => forall id, ts_catalog s' id = if bool_decide (id = queuetopic.PhysicalID tenant name) then None else ts_catalog s id
      | Err _ => forall id, ts_catalog s' id = ts_catalog s id
      end) s
}.

(** ** The Pebble store keeps the promise *)

Section pebble.
Context {P : Type} `{PebbleLaws P} `{TopicJSONLaws}.
Implicit Types (d : DB P).
Import topicStore topic_facts.

Definition catalog d (id : string) : option Topic :=
  match stored d !! topicKey id with Some v => unmarshal_topic v | None => None end.

Definition TopicInv d : Prop := handle_ok d /\
  forall id v, stored d !! topicKey id = Some v -> exists t, unmarshal_topic v = Some t /\ tp_TopicID t = id /\ topic_ok t.

Lemma topicKey_inj i j : topicKey i = topicKey j -> i = j.
Proof. apply app_inj_l. Qed.

Lemma catalog_typed d id t : TopicInv d -> catalog d id = Some t -> topic_ok t /\ tp_TopicID t = id.
Proof.
  intros [_ I]. unfold catalog. destruct (stored d !! topicKey id) as [v|] eqn:Ev; [|done].
  destruct (I id v Ev) as (t' & -> & Hid & Hok). intros [= <-]. done.
Qed.

(** A write of one topic key. *)
Lemma catalog_set d d' id v t : committed [OpSet (topicKey id) v] d d' -> unmarshal_topic v = Some t ->
  forall i, catalog d' i = if bool_decide (i = id) then Some t else catalog d i.
Proof.
  intros [Hs _ _ _] Hv i. unfold catalog. rewrite Hs. cbn. case_bool_decide as Hi.
  - subst i. by rewrite lookup_insert_eq.
  - by rewrite lookup_insert_ne by (intros ?%topicKey_inj; done).
Qed.

Lemma catalog_delete d d' id : committed [OpDelete (topicKey id)] d d' ->
  forall i, catalog d' i = if bool_decide (i = id) then None else catalog d i.
Proof.
  intros [Hs _ _ _] i. unfold catalog. rewrite Hs. cbn. case_bool_decide as Hi.
  - subst i. by rewrite lookup_delete_eq.
  - by rewrite lookup_delete_ne by (intros ?%topicKey_inj; done).
Qed.

Lemma TopicInv_set d d' t v : TopicInv d -> committed [OpSet (topicKey (tp_TopicID t)) v] d d' ->
  unmarshal_topic v = Some t -> topic_ok t -> TopicInv d'.
Proof.
  intros [Hh I] Hc Hv Ht. split; [by eapply committed_handle|]. intros id w. rewrite (co_stored _ _ _ Hc). cbn.
  destruct (decide (id = tp_TopicID t)) as [->|Hn].
  - rewrite lookup_insert_eq. intros [= <-]. eauto.
  - rewrite lookup_insert_ne by (intros ?%topicKey_inj; done). apply I.
Qed.

Lemma TopicInv_delete d d' id : TopicInv d -> committed [OpDelete (topicKey id)] d d' -> TopicInv d'.
Proof.
  intros [Hh I] Hc. split; [by eapply committed_handle|]. intros i w. rewrite (co_stored _ _ _ Hc). cbn.
  rewrite lookup_delete_Some. intros [_ Hw]. by apply I.
Qed.

Lemma wp_checkWrite ctx (Q : res unit -> DB P -> Prop) d :
  (forall e, Q (Err e) d) -> (ctx = None -> Q (Ok tt) d) -> wp (checkWrite ctx) Q d.
Proof.
  intros He Hok. unfold checkWrite. destruct ctx as [e|]; [wp_step; apply He|].
  unfold wp, RequireWriteLeader. destruct (db_repl d) as [r|]; [|by apply Hok]. destruct (IsLeader r); [by apply Hok | apply He].
Qed.

(** Reading an entry: what is stored decodes and belongs to its key. *)
Lemma wp_read id (Q : res (option Topic) -> DB P -> Prop) d : TopicInv d ->
  Q (Ok (catalog d id)) d -> (forall m e, Q (Err (ErrWrap m e)) d) -> wp (read id) Q d.
Proof.
  intros [Hh I] HOk HErr. unfold read. do 2 wp_step. unfold catalog in HOk. apply wp_Get.
  - intros v Hv. destruct (I id v Hv) as (t & Et & Hid & Hok). rewrite Hv, Et in HOk. rewrite Et.
    rewrite bool_decide_eq_false_2 by (intros Hn; done). rewrite bool_decide_eq_false_2 by (rewrite <- (to_id _ Hok); intros Hn; done).
    cbn [orb]. by wp_step.
  - intros e He. wp_step; [|wp_step; apply HErr]. rewrite He in HOk by done. by wp_step.
Qed.

Lemma wp_wrapErr {A} msg (m : M (DB P) A) (Q : res A -> DB P -> Prop) d :
  wp m (fun x d' => match x with Ok a => Q (Ok a) d' | Err e => Q (Err (ErrWrap msg e)) d' end) d -> wp (wrapErr msg m) Q d.
Proof. intros Hm. unfold wrapErr. do 2 wp_step. eapply wp_mono; [exact Hm|]. intros [a|e] d' HQ; by wp_step. Qed.

Lemma persist_spec c t d : TopicInv d -> topic_ok t ->
  wp (persist c t) (fun x d' => TopicInv d' /\
    match x with
    | Ok out => out = (nextVersion c t, bool_decide (c = None), bool_decide (c <> None)) /\
                forall id, catalog d' id = if bool_decide (id = tp_TopicID t) then Some (nextVersion c t) else catalog d id
    | Err _ => forall id, catalog d' id = catalog d id
    end) d.
Proof.
  intros I Ht. unfold persist. cbv zeta. assert (tp_TopicID (nextVersion c t) = tp_TopicID t) as Hid by (by destruct c).
  destruct (marshal_topic (nextVersion c t)) as [v|e] eqn:Ev; [|by wp_step]. apply topic_roundtrip in Ev.
  wp_step. apply wp_wrapErr. unfold Set_. apply wp_write_through; [apply I | | by intros].
  intros d' Hc. wp_step. split; [eapply TopicInv_set; eauto using nextVersion_ok|]. split; [done|].
  rewrite Hid in Hc. by apply (catalog_set d d' _ v).
Qed.

Lemma pebble_upsert ctx t d : TopicInv d -> topic_ok t ->
  wp (Upsert ctx t) (fun x d' => TopicInv d' /\
    match x with
    | Ok out => out = upserted (catalog d (tp_TopicID t)) t /\
                forall id, catalog d' id = if bool_decide (id = tp_TopicID t) then Some (fst (fst out)) else catalog d id
    | Err _ => forall id, catalog d' id = catalog d id
    end) d.
Proof.
  intros I Ht. unfold Upsert, validateDesired.
  rewrite (proj2 (ValidateIdentity_spec _ _)) by apply Ht. rewrite bool_decide_eq_true_2 by apply Ht.
  do 2 (wp_step; apply wp_checkWrite; [by intros|]; intros _).
  wp_step. apply wp_read; [done| | by intros]. destruct (catalog d (tp_TopicID t)) as [c|] eqn:Ec; cbn [upserted].
  - destruct (queuetopic.SamePolicy _ _).
    + wp_step. split; [done|]. split; [done|]. intros id. case_bool_decide as Hi; [by subst id|done].
    + eapply wp_mono; [by apply persist_spec|]. intros [out|e] d' [HI Hx]; [|done]. split; [done|]. destruct Hx as [-> Hx].
      by rewrite bool_decide_eq_false_2, bool_decide_eq_true_2 by done.
  - eapply wp_mono; [by apply persist_spec|]. intros [out|e] d' [HI Hx]; [|done]. split; [done|]. by destruct Hx as [-> Hx].
Qed.

Lemma pebble_get ctx tenant name d : TopicInv d ->
  wp (Get ctx tenant name) (fun x d' => d' = d /\
    match x with
    | Ok t => catalog d (queuetopic.PhysicalID tenant name) = Some t
    | Err e => e = NotFoundError (queuetopic.PhysicalID tenant name) -> ctx = None -> catalog d (queuetopic.PhysicalID tenant name) = None
    end) d.
Proof.
  intros I. unfold Get. destruct ctx as [e|]; [by wp_step|]. cbv zeta.
  wp_step. apply wp_read; [done | | intros m e; split; [done | discriminate]]. destruct (catalog d _) as [t|] eqn:Ec; by wp_step.
Qed.

Lemma pebble_delete ctx tenant name d : TopicInv d ->
  wp (Delete ctx tenant name) (fun x d' => TopicInv d' /\
    match x with
    | Ok _ => forall id, catalog d' id = if bool_decide (id = queuetopic.PhysicalID tenant name) then None else catalog d id
    | Err _ => forall id, catalog d' id = catalog d id
    end) d.
Proof.
  intros I. unfold Delete. do 2 (wp_step; apply wp_checkWrite; [by intros|]; intros _). cbv zeta. apply wp_wrapErr. unfold PebbleDB.Delete.
  apply wp_write_through; [apply I | | by intros]. intros d' Hc. split; [by eapply TopicInv_delete | by apply catalog_delete].
Qed.

#[export] Instance pebbleLaws : TopicStoreLaws (DB P) := {
  ts_inv := TopicInv;
  ts_catalog := catalog;
  ts_typed := catalog_typed;
  ts_upsert_spec := pebble_upsert;
  ts_get_spec := pebble_get;
  ts_delete_spec := pebble_delete
}.
End pebble.

(** ** The service over any store *)

Section service.
Context {S : Type} `{TopicStoreLaws S}.
Implicit Types (s : S).
Import queuetopic topic_facts.

(** One call of the service, with whatever outcome, or a step of the rest of
    the program (a restart included), which leaves the topics alone. *)
Inductive topic_step s : S -> Prop :=
  | st_upsert ctx now tenant name policy : topic_step s (snd (TopicService.Upsert ctx now tenant name policy s))
  | st_get ctx tenant name : topic_step s (snd (TopicService.Get ctx tenant name s))
  | st_delete ctx tenant name : topic_step s (snd (TopicService.Delete ctx tenant name s))
  | st_other s' : ts_inv s' -> (forall id, ts_catalog s' id = ts_catalog s id) -> topic_step s s'.

Inductive topic_reachable : S -> Prop :=
  | tr_init s : ts_inv s -> (forall id, ts_catalog s id = None) -> topic_reachable s
  | tr_step s s' : topic_reachable s -> topic_step s s' -> topic_reachable s'.

(** A service call in one equation: what it returns and what it leaves. *)
Lemma service_upsert ctx now tenant name p s : ts_inv s ->
  wp (TopicService.Upsert ctx now tenant name p) (fun x s' => ts_inv s' /\
    match x with
    | Ok out => exists t, New tenant name p now = Ok t /\ out = upserted (ts_catalog s (PhysicalID tenant name)) t /\
        forall id, ts_catalog s' id = if bool_decide (id = PhysicalID tenant name) then Some (fst (fst out)) else ts_catalog s id
    | Err _ => forall id, ts_catalog s' id = ts_catalog s id
    end) s.
Proof.
  intros I. unfold TopicService.Upsert. destruct (New tenant name p now) as [t|e] eqn:En; [|by wp_step].
  pose proof En as (_ & _ & Et)%New_ok. assert (tp_TopicID t = PhysicalID tenant name) as Hid by (by subst t).
  eapply wp_mono; [apply ts_upsert_spec; [done | by eapply New_topic_ok]|]. intros [out|e] s' [HI Hx]; [|done].
  split; [done|]. exists t. rewrite Hid in Hx. by split.
Qed.

Lemma service_delete ctx tenant name s : ts_inv s ->
  wp (TopicService.Delete ctx tenant name) (fun x s' => ts_inv s' /\
    match x with
    | Ok _ => identity_ok tenant name /\
        forall id, ts_catalog s' id = if bool_decide (id = PhysicalID tenant name) then None else ts_catalog s id
    | Err _ => forall id, ts_catalog s' id = ts_catalog s id
    end) s.
Proof.
  intros I. unfold TopicService.Delete. destruct (ValidateIdentity tenant name) as [[]|e] eqn:Ei; [|by wp_step].
  apply ValidateIdentity_spec in Ei. eapply wp_mono; [by apply ts_delete_spec|]. intros [[]|e] s' [HI Hx]; [|done]. by split.
Qed.

Lemma service_get ctx tenant name s : ts_inv s ->
  wp (TopicService.Get ctx tenant name) (fun x s' => s' = s /\
    match x with
    | Ok t => identity_ok tenant name /\ ts_catalog s (PhysicalID tenant name) = Some t
    | Err _ => True
    end) s.
Proof.
  intros I. unfold TopicService.Get. destruct (ValidateIdentity tenant name) as [[]|e] eqn:Ei; [|by wp_step].
  apply ValidateIdentity_spec in Ei. eapply wp_mono; [by apply ts_get_spec|]. intros [t|e] s' [HI Hx]; [|done]. by split.
Qed.

Lemma topic_reachable_inv s : topic_reachable s -> ts_inv s.
Proof.
  induction 1 as [s I _|s s' _ I Hs]; [done|]. destruct Hs as [ctx now tenant name p|ctx tenant name|ctx tenant name|s' I' _]; [..|done].
  - apply (service_upsert ctx now tenant name p s I).
  - destruct (service_get ctx tenant name s I) as [-> _]. done.
  - apply (service_delete ctx tenant name s I).
Qed.

(** C31. Only well-formed topics are stored and returned.  In every reachable
    state of a catalog, each entry has a valid tenant and name, stands under the
    id made of them, and has a policy within the provider contract: one to ten
    distinct priorities from 0 to 10 in increasing order, 1 to 100 attempts, a
    dead-letter topic that is a DNS label other than the topic itself, and
    retention and consumer limits in range.  A lookup by a tenant returns a topic
    of that tenant with the name asked for. *)
Theorem topics_well_typed s : topic_reachable s ->
  (forall id t, ts_catalog s id = Some t -> topic_ok t /\ id = PhysicalID (tp_TenantID t) (tp_TopicName t)) /\
  (forall ctx tenant name t, fst (TopicService.Get ctx tenant name s) = Ok t ->
     topic_ok t /\ tp_TenantID t = tenant /\ tp_TopicName t = name).
Proof.
  intros I%topic_reachable_inv. split.
  - intros id t Hc. destruct (ts_typed s id t I Hc) as [Ht <-]. split; [done | apply Ht].
  - intros ctx tenant name t Hg. destruct (service_get ctx tenant name s I) as [_ Hx]. rewrite Hg in Hx. destruct Hx as [Hi Hc].
    destruct (ts_typed s _ t I Hc) as [Ht Hid]. split; [done|]. rewrite (to_id _ Ht) in Hid.
    apply PhysicalID_inj in Hid; [done | apply Ht | done].
Qed.

(** C32. Tenants do not touch each other's topics.  Whatever a tenant upserts or
    deletes, successfully or not, every entry another tenant can name is what it
    was. *)
Theorem topic_tenant_isolation s tenant other name' : topic_reachable s -> tenant <> other -> identity_ok other name' ->
  let same s' := ts_catalog s' (PhysicalID other name') = ts_catalog s (PhysicalID other name') in
  (forall ctx now name p, same (snd (TopicService.Upsert ctx now tenant name p s))) /\
  (forall ctx name, same (snd (TopicService.Delete ctx tenant name s))).
Proof.
  intros I%topic_reachable_inv Hne Hi same. split.
  - intros ctx now name p. destruct (service_upsert ctx now tenant name p s I) as [_ Hx].
    destruct (fst (TopicService.Upsert ctx now tenant name p s)) as [out|e]; [|apply Hx].
    destruct Hx as (t & (Hn & _)%New_ok & _ & Hx). unfold same. rewrite Hx, bool_decide_eq_false_2; [done|].
    intros [? _]%PhysicalID_inj; [congruence | done | done].
  - intros ctx name. destruct (service_delete ctx tenant name s I) as [_ Hx].
    destruct (fst (TopicService.Delete ctx tenant name s)) as [out|e]; [|apply Hx].
    destruct Hx as [Hn Hx]. unfold same. rewrite Hx, bool_decide_eq_false_2; [done|].
    intros [? _]%PhysicalID_inj; [congruence | done | done].
Qed.

(** An upsert is a reconciliation.  The first one creates the topic at
    version 1; one with the same terms, the priorities in any order, returns the
    stored topic untouched and reports neither creation nor change; one with
    other terms keeps the creation time, takes the next version and reports a
    change.  After each the catalog holds the topic returned, and no other entry
    has moved. *)
Theorem topic_upsert_reconciles ctx now tenant name p s t created changed s' : topic_reachable s ->
  TopicService.Upsert ctx now tenant name p s = (Ok (t, created, changed), s') ->
  (forall id, ts_catalog s' id = if bool_decide (id = PhysicalID tenant name) then Some t else ts_catalog s id) /\
  match ts_catalog s (PhysicalID tenant name) with
  | None => tp_Policy t = normalized p /\ tp_Version t = 1 /\ tp_CreatedAt t = now /\ tp_UpdatedAt t = now /\
            created = true /\ changed = false
  | Some c =>
      if decide (tp_Policy c = normalized p) then t = c /\ created = false /\ changed = false
      else tp_Policy t = normalized p /\ tp_Version t = wrap64 (tp_Version c + 1) /\
           tp_CreatedAt t = tp_CreatedAt c /\ tp_UpdatedAt t = now /\ created = false /\ changed = true
  end /\
  (forall ctx2 now2 q t2 created2 changed2 s2, same_terms p q ->
     TopicService.Upsert ctx2 now2 tenant name q s' = (Ok (t2, created2, changed2), s2) ->
     t2 = t /\ created2 = false /\ changed2 = false).
Proof.
  intros I%topic_reachable_inv Hrun. pose proof (service_upsert ctx now tenant name p s I) as [I' Hx].
  rewrite Hrun in I', Hx. cbn [fst snd] in I', Hx. destruct Hx as (t0 & (_ & _ & ->)%New_ok & Hout & Hcat).
  assert (tp_Policy t = normalized p) as Hpol.
  { unfold upserted in Hout. destruct (ts_catalog s (PhysicalID tenant name)) as [c|]; [|by injection Hout as ->].
    destruct (SamePolicy _ _) eqn:Es; [|by injection Hout as ->]. injection Hout as -> _ _. by apply SamePolicy_spec in Es. }
  split; [exact Hcat|]. split.
  - unfold upserted in Hout. destruct (ts_catalog s (PhysicalID tenant name)) as [c|]; [|by injection Hout as -> -> ->].
    cbn [tp_Policy] in Hout. destruct (decide (tp_Policy c = normalized p)) as [E|E].
    + rewrite (proj2 (SamePolicy_spec _ _) E) in Hout. by injection Hout.
    + destruct (SamePolicy _ _) eqn:Es; [by apply SamePolicy_spec in Es|]. by injection Hout as -> -> ->.
  - intros ctx2 now2 q t2 c2 ch2 s2 Hpq%normalized_same Hrun2. pose proof (service_upsert ctx2 now2 tenant name q s' I') as [_ Hy].
    rewrite Hrun2 in Hy. cbn [fst snd] in Hy. destruct Hy as (t1 & (_ & _ & ->)%New_ok & Hout2 & _).
    rewrite Hcat, bool_decide_eq_true_2 in Hout2 by done. unfold upserted in Hout2. cbn [fst tp_Policy] in Hout2.
    rewrite (proj2 (SamePolicy_spec (tp_Policy t) (normalized q))) in Hout2 by (by rewrite Hpol). by injection Hout2.
Qed.
End service.

(** ** Over HTTP *)

Section http.
Context {P : Type} `{PebbleLaws P} `{TopicJSONLaws}.
Variable decodeFirst : string -> res (Policy * string).
Variable decodeNext : string -> option (res unit).
Variables (tenantID requestURI : string).
Implicit Types (d : DB P).
Import queuetopic topic_facts.
#[local] Existing Instance topicStore.pebbleStore.

Abbreviation PUT := (topicsHandler.Upsert (S := DB P) None decodeFirst decodeNext tenantID requestURI).
Abbreviation GET := (topicsHandler.Get (S := DB P) None tenantID requestURI).
Abbreviation DELETE := (topicsHandler.Delete (S := DB P) None tenantID requestURI "Delete").
Abbreviation topicAnswer code t := (mkTopicResponse code t None None None None).

Section reliable.
Context `{!PebbleReliable P}.

Lemma read_exact id d : TopicInv d -> topicStore.read id d = (Ok (catalog d id), d).
Proof.
  intros [_ I]. unfold topicStore.read, mbnd, mtry, PebbleDB.Get. rewrite p_get_total. fold (stored d). unfold catalog.
  destruct (stored d !! topicStore.topicKey id) as [v|] eqn:Ev; [|done].
  destruct (I _ v Ev) as (t & -> & Hid & Hok). rewrite bool_decide_eq_false_2 by (intros Hn; done).
  rewrite bool_decide_eq_false_2 by (rewrite <- (to_id _ Hok); intros Hn; done). done.
Qed.

Lemma check_exact d : db_repl d = None -> topicStore.checkWrite None d = (Ok tt, d).
Proof. intros Hr. unfold topicStore.checkWrite, RequireWriteLeader. by rewrite Hr. Qed.

Lemma write_exact b d : db_repl d = None -> exists p, write_through b d = (Ok tt, set_pebble p d).
Proof.
  intros Hr. unfold write_through, ship. rewrite Hr. destruct (p_commit_total (db_pebble d) b) as [p ->]. eauto.
Qed.

Lemma Upsert_succeeds t d : TopicInv d -> db_repl d = None -> topic_ok t -> (forall t, exists v, marshal_topic t = Ok v) ->
  exists d', topicStore.Upsert None t d = (Ok (upserted (catalog d (tp_TopicID t)) t), d') /\ db_repl d' = None.
Proof.
  intros I Hr Hok Hm. unfold topicStore.Upsert, topicStore.validateDesired.
  rewrite (proj2 (ValidateIdentity_spec _ _)) by apply Hok. rewrite bool_decide_eq_true_2 by apply Hok.
  unfold mbnd at 1. rewrite check_exact by done. unfold mbnd at 1. rewrite check_exact by done.
  unfold mbnd at 1. rewrite read_exact by done.
  assert (forall c, exists d', topicStore.persist c t d =
    (Ok (topicStore.nextVersion c t, bool_decide (c = None), bool_decide (c <> None)), d') /\ db_repl d' = None) as Hp.
  { intros c. unfold topicStore.persist, topicStore.wrapErr, Set_. cbv zeta. destruct (Hm (topicStore.nextVersion c t)) as [v ->].
    unfold mbnd, mtry. destruct (write_exact [OpSet (topicStore.topicKey (tp_TopicID (topicStore.nextVersion c t))) v] d Hr) as [p ->].
    eexists. split; [reflexivity | done]. }
  unfold upserted. destruct (catalog d (tp_TopicID t)) as [c|]; [|apply (Hp None)].
  destruct (SamePolicy _ _); [by exists d | apply (Hp (Some c))].
Qed.

Lemma GET_exact name d : TopicInv d -> identity_ok tenantID name ->
  GET name d = (match catalog d (PhysicalID tenantID name) with
                | Some t => topicAnswer 200 (Some t)
                | None => failed 404 (error_text (NotFoundError (PhysicalID tenantID name)))
                end, d).
Proof.
  intros I Hi. unfold topicsHandler.Get, topicsHandler.answer, TopicService.Get.
  rewrite (proj2 (ValidateIdentity_spec _ _)) by done. cbn [ts_Get topicStore.pebbleStore].
  unfold topicStore.Get, mbnd. cbv zeta. rewrite read_exact by done. by destruct (catalog d _).
Qed.

Lemma DELETE_exact name d : TopicInv d -> db_repl d = None -> identity_ok tenantID name ->
  exists d', DELETE name d = (topicAnswer 204 None, d') /\ TopicInv d' /\ catalog d' (PhysicalID tenantID name) = None.
Proof.
  intros I Hr Hi. pose proof (pebble_delete None tenantID name d I) as [I' Hx].
  assert (exists d', topicStore.Delete None tenantID name d = (Ok tt, d')) as [d' Hd].
  { unfold topicStore.Delete, topicStore.wrapErr, PebbleDB.Delete, mbnd, mtry. rewrite !check_exact by done. cbv zeta.
    destruct (write_exact [OpDelete (topicStore.topicKey (PhysicalID tenantID name))] d Hr) as [p ->]. eauto. }
  rewrite Hd in I', Hx. exists d'. split; [|split; [done|]].
  - unfold topicsHandler.Delete, topicsHandler.answer, TopicService.Delete. rewrite bool_decide_eq_false_2 by (intros Hn; by apply Hn).
    rewrite (proj2 (ValidateIdentity_spec _ _)) by done. cbn [ts_Delete topicStore.pebbleStore]. by rewrite Hd.
  - cbn in Hx. by rewrite Hx, bool_decide_eq_true_2.
Qed.

(** A topic that was put can be fetched, and one that was deleted is gone.
    On a node that may write, a PUT with a well-formed body answers 201 when the
    tenant had no such topic and 200 when it had, with the topic stored; a GET
    that follows answers 200 with that topic, and after a DELETE, which answers
    204, a GET answers 404. *)
Theorem topic_put_get now name body p t0 d : TopicInv d -> db_repl d = None ->
  topicsHandler.decodePolicy decodeFirst decodeNext body = Ok p -> New tenantID name p now = Ok t0 ->
  (forall t, exists v, marshal_topic t = Ok v) ->
  let c := catalog d (PhysicalID tenantID name) in
  let t := fst (fst (upserted c t0)) in
  exists d', PUT now name body d = (topicAnswer (match c with Some _ => 200 | None => 201 end) (Some t), d') /\
    GET name d' = (topicAnswer 200 (Some t), d') /\
    exists d'', DELETE name d' = (topicAnswer 204 None, d'') /\
      fst (GET name d'') = failed 404 (error_text (NotFoundError (PhysicalID tenantID name))).
Proof.
  intros I Hr Hb Hn Hm c t. pose proof (proj1 (New_ok _ _ _ _ _) Hn) as (Hi & _ & Et0).
  assert (tp_TopicID t0 = PhysicalID tenantID name) as Hid by (by subst t0). pose proof (New_topic_ok _ _ _ _ _ Hn) as Hok.
  destruct (Upsert_succeeds t0 d I Hr Hok Hm) as (d' & Hu & Hr'). rewrite Hid in Hu. fold c in Hu.
  destruct (pebble_upsert None t0 d I Hok) as [I' Hx]. rewrite Hu in I', Hx. cbn [fst snd] in I', Hx. destruct Hx as [_ Hcat].
  exists d'. split; [|split].
  - unfold topicsHandler.Upsert, topicsHandler.answer, TopicService.Upsert. rewrite Hb, Hn. cbn [ts_Upsert topicStore.pebbleStore].
    rewrite Hu. unfold t, upserted. destruct c as [cur|]; [|done]. by destruct (SamePolicy _ _).
  - rewrite GET_exact by done. by rewrite Hcat, Hid, bool_decide_eq_true_2.
  - destruct (DELETE_exact name d' I' Hr' Hi) as (d'' & Hd & I'' & Hc). exists d''. split; [done|].
    rewrite GET_exact by done. by rewrite Hc.
Qed.
End reliable.

(** How topic requests fail.  A body that does not decode answers 400, an
    identity or a policy outside the contract answers 422 with the field at
    fault; a follower of a replicated store answers 307 with the leader's URL and
    the path asked for, or 503 when it knows no leader, for well-formed writes;
    a mode without a store answers 503.  None of them writes. *)
Theorem topic_failures now name body d :
  (forall e, topicsHandler.decodePolicy decodeFirst decodeNext body = Err e ->
     PUT now name body d = (failed 400 ("invalid request body: " +:+ error_text e), d)) /\
  (forall p e, topicsHandler.decodePolicy decodeFirst decodeNext body = Ok p -> New tenantID name p now = Err e ->
     exists f, PUT now name body d = (mkTopicResponse 422 None (Some (error_text e)) (Some f) None None, d)) /\
  (forall p t r, topicsHandler.decodePolicy decodeFirst decodeNext body = Ok p -> New tenantID name p now = Ok t ->
     db_repl d = Some r -> IsLeader r = false ->
     let redirect := if bool_decide (LeaderHTTPAddr r = "") then failed 503 "queue topic leader unavailable"
                     else mkTopicResponse 307 None (Some "not leader") None
                            (Some (topicsHandler.trimSlash (LeaderHTTPAddr r) +:+ requestURI)) (Some (LeaderHTTPAddr r)) in
     PUT now name body d = (redirect, d) /\ DELETE name d = (redirect, d)) /\
  (forall p t reason, topicsHandler.decodePolicy decodeFirst decodeNext body = Ok p -> New tenantID name p now = Ok t ->
     topicsHandler.Upsert (H := unavailableStore) None decodeFirst decodeNext tenantID requestURI now name body reason =
       (failed 503 (error_text (UnavailableError reason)), reason)).
Proof.
  unfold topicsHandler.Upsert, topicsHandler.Delete, topicsHandler.answer, TopicService.Upsert, TopicService.Delete.
  split; [by intros e ->|]. split; [|split].
  - intros p e -> Hn. rewrite Hn. destruct (New_err _ _ _ _ _ Hn) as (f & m & ->). by exists f.
  - intros p t r -> Hn Hr Hl. rewrite Hn. pose proof (New_topic_ok _ _ _ _ _ Hn) as Ht. apply New_ok in Hn as (Hi & _ & _).
    assert (topicStore.checkWrite None d = (Err (NotLeaderError (LeaderHTTPAddr r)), d)) as Hc
      by (unfold topicStore.checkWrite, RequireWriteLeader; by rewrite Hr, Hl).
    rewrite (bool_decide_eq_false_2 ("Delete" <> "Delete")) by (intros Hx; by apply Hx).
    rewrite (proj2 (ValidateIdentity_spec _ _)) by done. cbn [ts_Upsert ts_Delete topicStore.pebbleStore].
    unfold topicStore.Upsert, topicStore.validateDesired, topicStore.Delete.
    rewrite (proj2 (ValidateIdentity_spec _ _)) by apply Ht. rewrite bool_decide_eq_true_2 by apply Ht.
    unfold mbnd at 1. rewrite Hc. unfold mbnd at 1. rewrite Hc. done.
  - intros p t reason -> Hn. by rewrite Hn.
Qed.
End http.

(** ** Concrete topics *)

(** A codec for the concrete runs; not the format of the store. *)
Module framed_topic.
Import framed.

Definition topic_text (t : Topic) : string :=
  let p := tp_Policy t in
  frame [tp_TopicID t; tp_TenantID t; tp_TopicName t; frame (map z_text (pl_PriorityTiers p)); z_text (pl_MaxAttempts p);
         pl_DeadLetterTopicRef p; z_text (pl_RetentionSeconds p); z_text (pl_MaxConsumers p);
         z_text (tp_Version t); z_text (tp_CreatedAt t); z_text (tp_UpdatedAt t)].
Definition text_topic (s : string) : option Topic :=
  match unframe s with
  | Some [i; te; n; pr; ma; dl; re; mc; v; c; u] =>
      match unframe pr with
      | Some tiers => Some (mkTopic i te n (mkPolicy (map text_z tiers) (text_z ma) dl (text_z re) (text_z mc)) (text_z v) (text_z c) (text_z u))
      | None => None
      end
  | _ => None
  end.

#[export] Instance topic_codec : TopicJSON := { marshal_topic t := Ok (topic_text t); unmarshal_topic := text_topic }.
#[export] Instance topic_codec_laws : TopicJSONLaws.
Proof.
  split. intros [i te n [pr ma dl re mc] v c u] s [= <-]. cbn [unmarshal_topic topic_codec]. unfold text_topic, topic_text.
  cbn [tp_Policy tp_TopicID tp_TenantID tp_TopicName tp_Version tp_CreatedAt tp_UpdatedAt pl_PriorityTiers pl_MaxAttempts
       pl_DeadLetterTopicRef pl_RetentionSeconds pl_MaxConsumers].
  rewrite !unframe_frame, !text_z_text. repeat f_equal. rewrite map_map. rewrite <- (map_id pr) at 2. apply map_ext, text_z_text.
Qed.
End framed_topic.

Module topic_run.
Import framed_topic.
#[local] Existing Instance topicStore.pebbleStore.

Definition d0 : DB memstore.store := mkDB ∅ 0 None false ∅.
Definition pol : Policy := mkPolicy [5; 0; 9] 3 "orders-dlq" 3600 8.
Definition pol' : Policy := mkPolicy [0; 9; 5] 3 "orders-dlq" 3600 8.
Definition run1 := TopicService.Upsert None 1000 "acme" "orders" pol d0.
Definition d1 : DB memstore.store := snd run1.

Lemma d0_inv : TopicInv d0.
Proof. split; [by split|]. intros id v. assert (stored d0 !! topicStore.topicKey id = None) as -> by reflexivity. done. Qed.

Lemma d0_reachable : topic_reachable d0.
Proof. apply tr_init; [exact d0_inv | intros id; reflexivity]. Qed.

Lemma d1_reachable : topic_reachable d1.
Proof. eapply tr_step; [exact d0_reachable | apply st_upsert]. Qed.

Definition stored_topic : Topic := mkTopic "acme.orders" "acme" "orders" (mkPolicy [0; 5; 9] 3 "orders-dlq" 3600 8) 1 1000 1000.
End topic_run.
Import framed_topic.
#[local] Existing Instance topicStore.pebbleStore.

Lemma topics_well_typed_witness :
  fst (TopicService.Get None "acme" "orders" topic_run.d1) = Ok topic_run.stored_topic /\ topic_ok topic_run.stored_topic.
Proof.
  destruct (topics_well_typed topic_run.d1 topic_run.d1_reachable) as [_ Hg].
  split; [vm_compute; reflexivity|]. apply (Hg None "acme" "orders"). vm_compute. reflexivity.
Defined.

Lemma topic_tenant_isolation_witness :
  ts_catalog (snd (TopicService.Delete None "rival" "orders" topic_run.d1)) "acme.orders" = Some topic_run.stored_topic.
Proof.
  destruct (topic_tenant_isolation topic_run.d1 "rival" "acme" "orders" topic_run.d1_reachable) as [_ Hd];
    [done | by split; vm_compute|].
  etrans; [apply (Hd None "orders") | vm_compute; reflexivity].
Defined.

(** The tiers in another order: nothing changes. *)
Lemma topic_upsert_reconciles_witness :
  fst (TopicService.Upsert None 2000 "acme" "orders" topic_run.pol' topic_run.d1) = Ok (topic_run.stored_topic, false, false).
Proof.
  assert (topic_run.run1 = (Ok (topic_run.stored_topic, true, false), topic_run.d1)) as Hrun
    by (apply run_outcome; vm_compute; reflexivity).
  destruct (topic_upsert_reconciles None 1000 "acme" "orders" topic_run.pol topic_run.d0 topic_run.stored_topic true false
    topic_run.d1 topic_run.d0_reachable Hrun) as (_ & _ & Hq).
  destruct (TopicService.Upsert None 2000 "acme" "orders" topic_run.pol' topic_run.d1) as [[[[t2 c2] ch2]|e] s2] eqn:E2.
  - assert (topic_facts.same_terms topic_run.pol topic_run.pol') as Hs by (split; [by solve_Permutation | done]).
    by destruct (Hq None 2000 topic_run.pol' t2 c2 ch2 s2 Hs E2) as (-> & -> & ->).
  - exfalso. apply (f_equal fst) in E2. revert E2. vm_compute. discriminate.
Defined.

Lemma topic_put_get_witness :
  let put := topicsHandler.Upsert None (fun _ => Ok (topic_run.pol, "")) (fun _ => None) "acme" "/v1/topics/orders" 1000 "orders" "{}" topic_run.d0 in
  tr_status (fst put) = 201 /\
  tr_topic (fst (topicsHandler.Get None "acme" "/v1/topics/orders" "orders" (snd put))) = Some topic_run.stored_topic.
Proof.
  intros put.
  destruct (topic_put_get (fun _ => Ok (topic_run.pol, "")) (fun _ => None) "acme" "/v1/topics/orders" 1000 "orders" "{}"
    topic_run.pol (mkTopic "acme.orders" "acme" "orders" (mkPolicy [0; 5; 9] 3 "orders-dlq" 3600 8) 0 1000 1000) topic_run.d0
    topic_run.d0_inv eq_refl eq_refl) as (d' & Hp & Hg & _); [vm_compute; reflexivity | by eexists|].
  unfold put. rewrite Hp. cbn [snd fst]. rewrite Hg. split; [reflexivity | vm_compute; reflexivity].
Defined.

(** A topic that is its own dead letter. *)
Lemma topic_failures_witness :
  exists f, topicsHandler.Upsert None (fun _ => Ok (mkPolicy [0] 3 "orders" 0 0, "")) (fun _ => None) "acme" "/v1/topics/orders" 1000
    "orders" "{}" topic_run.d0 =
    (mkTopicResponse 422 None (Some "invalid deadLetterTopicRef: must differ from topicName") (Some f) None None, topic_run.d0).
Proof.
  destruct (topic_failures (fun _ => Ok (mkPolicy [0] 3 "orders" 0 0, "")) (fun _ => None) "acme" "/v1/topics/orders" 1000 "orders" "{}"
    topic_run.d0) as (_ & Hv & _).
  apply (Hv (mkPolicy [0] 3 "orders" 0 0) (ValidationError "deadLetterTopicRef" "must differ from topicName"));
    [reflexivity | vm_compute; reflexivity].
Defined.
