(* ===== verification/MemoryPlugin.v ===== *)
(** The in-memory persistence plugin ([src/pkg/persistence/memory/plugin.go])
    and the registry of plugins ([src/pkg/persistence/registry.go]).

    The plugin keeps pointers to tasks: an entry of the task map and entries of
    the queues may be the same task, and assignments through one show through
    the other.  [mp_heap] is the shared store the pointers refer to.  Results,
    leases and subscriptions are never shared, so their maps hold values.  The
    plugin's lock makes every call one step.

    The plugin claims what is queued and does not put a task back when a lease
    runs out: the theorems say what it keeps (one live lease per task, tenants
    and commands apart) and what it does not. *)

From S2P Require Import Prelude GoTime Domain SubRepo.

Definition zeroTask : Task := mkTask "" "" "" 0 "" "" "" "" "" "" "" 0 0 "" "" "" zero_time zero_time.

(** A lease: the worker and the expiry. *)
Record Plugin := mkPlugin {
  mp_heap : gmap nat Task;
  mp_next : nat;
  mp_tasks : gmap string nat;
  mp_results : gmap string ResultRecord;
  mp_subscriptions : gmap string Subscription;
  mp_queues : gmap string (list nat);
  mp_leases : gmap string (string * Z)
}.

Module MemoryPlugin.

Definition NewPlugin : Plugin := mkPlugin ∅ 0 ∅ ∅ ∅ ∅ ∅.

(** What a pointer refers to, and an assignment through it. *)
Definition deref (s : Plugin) (r : nat) : Task := default zeroTask (mp_heap s !! r).
Definition assign (r : nat) (f : Task -> Task) (s : Plugin) : Plugin :=
  mkPlugin (<[r := f (deref s r)]> (mp_heap s)) (mp_next s) (mp_tasks s) (mp_results s) (mp_subscriptions s) (mp_queues s) (mp_leases s).

Definition with_tasks (m : gmap string nat) (s : Plugin) : Plugin :=
  mkPlugin (mp_heap s) (mp_next s) m (mp_results s) (mp_subscriptions s) (mp_queues s) (mp_leases s).
Definition with_results (m : gmap string ResultRecord) (s : Plugin) : Plugin :=
  mkPlugin (mp_heap s) (mp_next s) (mp_tasks s) m (mp_subscriptions s) (mp_queues s) (mp_leases s).
Definition with_subscriptions (m : gmap string Subscription) (s : Plugin) : Plugin :=
  mkPlugin (mp_heap s) (mp_next s) (mp_tasks s) (mp_results s) m (mp_queues s) (mp_leases s).
Definition with_leases (m : gmap string (string * Z)) (s : Plugin) : Plugin :=
  mkPlugin (mp_heap s) (mp_next s) (mp_tasks s) (mp_results s) (mp_subscriptions s) (mp_queues s) m.

Definition queue (s : Plugin) (cmd : string) : list nat := default [] (mp_queues s !! cmd).
Definition set_queue (cmd : string) (q : list nat) (s : Plugin) : Plugin :=
  mkPlugin (mp_heap s) (mp_next s) (mp_tasks s) (mp_results s) (mp_subscriptions s) (<[cmd := q]> (mp_queues s)) (mp_leases s).

(** [taskCopy := *task; &taskCopy], put under the task's id. *)
Definition store (t : Task) (s : Plugin) : Plugin :=
  mkPlugin (<[mp_next s := t]> (mp_heap s)) (S (mp_next s)) (<[t.(ID) := mp_next s]> (mp_tasks s))
    (mp_results s) (mp_subscriptions s) (mp_queues s) (mp_leases s).

Abbreviation PM := (M Plugin).
Definition NotFound : error := ErrText "not found".

Definition dropLease (id : string) (s : Plugin) : Plugin := with_leases (delete id (mp_leases s)) s.
Definition dropTask (id : string) (s : Plugin) : Plugin := with_tasks (delete id (mp_tasks s)) s.

(** *** Tasks *)

Definition Save (t : Task) : PM unit := mmod (store t).

Definition Get (id : string) : PM Task := fun s =>
  match mp_tasks s !! id with
  | None => (Err NotFound, s)
  | Some r => (Ok (deref s r), s)
  end.

Definition Delete (id : string) : PM unit := mmod (fun s => dropLease id (dropTask id s)).

Definition EnqueueTask (t : Task) : PM unit := mmod (fun s =>
  let s1 := store t s in
  set_queue t.(Command) (queue s1 t.(Command) ++ [mp_next s]) s1).

(** A task a claim may take: of the tenant asked for, and without a live lease. *)
Definition available (s : Plugin) (now : Z) (tenantID : string) (r : nat) : bool :=
  let t := deref s r in
  negb (bool_decide (tenantID <> "") && bool_decide (t.(TenantID) <> tenantID)) &&
  negb (match mp_leases s !! t.(ID) with Some (_, expiresAt) => now <? expiresAt | None => false end).

Fixpoint findAvailable (s : Plugin) (now : Z) (tenantID : string) (i : nat) (q : list nat) : option (nat * nat) :=
  match q with
  | [] => None
  | r :: q' => if available s now tenantID r then Some (i, r) else findAvailable s now tenantID (S i) q'
  end.

Definition take_claim (now : Z) (workerID cmd : string) (leaseSeconds : Z) (i r : nat) (s : Plugin) : Plugin :=
  let until := now + seconds leaseSeconds in
  let id := (deref s r).(ID) in
  let s1 := with_leases (<[id := (workerID, until)]> (mp_leases s)) s in
  let s2 := assign r (fun t => set_LeaseUntil (FormatRFC3339 until)
                               (set_Status StatusInProgress (set_Attempts (wrap64 (t.(Attempts) + 1)) (set_WorkerID workerID t)))) s1 in
  set_queue cmd (take i (queue s cmd) ++ drop (S i) (queue s cmd)) s2.

(** [None]: nothing to claim. *)
Fixpoint ClaimTask (now : Z) (workerID : string) (commands : list string) (leaseSeconds inspectLimit : Z) (tenantID : string)
  : PM (option Task) := fun s =>
  match commands with
  | [] => (Ok None, s)
  | cmd :: rest =>
      match findAvailable s now tenantID 0 (queue s cmd) with
      | None => ClaimTask now workerID rest leaseSeconds inspectLimit tenantID s
      | Some (i, r) =>
          let s' := take_claim now workerID cmd leaseSeconds i r s in
          (Ok (Some (deref s' r)), s')
      end
  end.

Definition UpdateLease (now : Z) (taskID workerID : string) (extendSeconds : Z) : PM unit := fun s =>
  match mp_leases s !! taskID with
  | None => (Err (ErrText "lease not found"), s)
  | Some (w, _) =>
      if bool_decide (w <> workerID) then (Err (ErrText "lease owned by different worker"), s)
      else (Ok tt, with_leases (<[taskID := (w, now + seconds extendSeconds)]> (mp_leases s)) s)
  end.

(** The task at [r] goes back to its queue, changed by [f]. *)
Definition requeue (r : nat) (f : Task -> Task) (s : Plugin) : Plugin :=
  let s1 := assign r f s in
  let cmd := (deref s1 r).(Command) in
  set_queue cmd (queue s1 cmd ++ [r]) s1.

Definition AbandonLease (taskID workerID : string) : PM unit := fun s =>
  match mp_leases s !! taskID with
  | None => (Ok tt, s)
  | Some (w, _) =>
      if bool_decide (w <> workerID) then (Err (ErrText "lease owned by different worker"), s)
      else
        let s1 := dropLease taskID s in
        match mp_tasks s1 !! taskID with
        | None => (Ok tt, s1)
        | Some r => (Ok tt, requeue r (fun t => set_WorkerID "" (set_Status StatusPending t)) s1)
        end
  end.

(** Neither the worker nor the delay is looked at. *)
Definition NackTask (taskID workerID : string) (delaySeconds : Z) (reason : string) : PM unit := fun s =>
  match mp_tasks s !! taskID with
  | None => (Err NotFound, s)
  | Some r =>
      (Ok tt, requeue r (fun t => set_TaskError reason (set_WorkerID "" (set_Status StatusPending t))) (dropLease taskID s))
  end.

Definition MoveDueDelayed (cmd : string) (limit : Z) : PM Z := mret 0.

Definition QueueLength (cmd : string) : PM Z := fun s => (Ok (Z.of_nat (length (queue s cmd))), s).

Definition QueueStats (cmd tenantID : string) : PM Domain.QueueStats := fun s =>
  (Ok (mkStats cmd (Z.of_nat (length (queue s cmd))) 0 0 0), s).

Definition AdminQueues : PM (gmap string Z) := fun s => (Ok (Z.of_nat ∘ length <$> mp_queues s), s).

(** The loop over the task map, in the order [ids] in which it visits it; it
    stops once [limit] tasks are gone. *)
Fixpoint cleanupLoop (limit : Z) (before : Z) (ids : list string) (removed : Z) : PM Z := fun s =>
  match ids with
  | [] => (Ok removed, s)
  | id :: rest =>
      match mp_tasks s !! id with
      | None => cleanupLoop limit before rest removed s
      | Some r =>
          if (deref s r).(CreatedAt) <? before then
            let s' := dropLease id (dropTask id s) in
            if limit <=? removed + 1 then (Ok (removed + 1), s') else cleanupLoop limit before rest (removed + 1) s'
          else cleanupLoop limit before rest removed s
      end
  end.

Definition CleanupExpired (order : list string -> list string) (limit before : Z) : PM Z := fun s =>
  cleanupLoop limit before (order (map fst (map_to_list (mp_tasks s)))) 0 s.

(** *** Results *)

Definition SaveResult (rec : ResultRecord) : PM unit := mmod (fun s => with_results (<[rr_TaskID rec := rec]> (mp_results s)) s).

Definition GetResult (taskID : string) : PM ResultRecord := fun s =>
  match mp_results s !! taskID with None => (Err NotFound, s) | Some rec => (Ok rec, s) end.

Definition UpdateTaskOnComplete (now : Z) (taskID cmd tenantID status errorMsg : string) : PM unit := fun s =>
  match mp_tasks s !! taskID with
  | None => (Err NotFound, s)
  | Some r =>
      (Ok tt, dropLease taskID (assign r (fun t =>
        set_UpdatedAt now (set_LeaseUntil "" (set_WorkerID "" (set_TaskError errorMsg (set_Status status t))))) s))
  end.

Definition RemoveFromInprogAndClearLease (taskID cmd tenantID : string) : PM unit := mmod (dropLease taskID).

(** *** Subscriptions *)

Definition Register (sub : Subscription) : PM unit :=
  mmod (fun s => with_subscriptions (<[sub_ID sub := sub]> (mp_subscriptions s)) s).

Definition Unregister (workerID : string) (commands : list string) : PM unit := mmod (with_subscriptions ∅).

Definition GetByCommand (order : list (string * Subscription) -> list (string * Subscription)) (commands : list string)
  : PM (list Subscription) := fun s =>
  (Ok (filter (fun sub => existsb (fun e => bool_decide (e ∈ commands)) (sub_EventTypes sub) = true)
         (map snd (order (map_to_list (mp_subscriptions s))))), s).

Definition GetByWorker (order : list (string * Subscription) -> list (string * Subscription)) (workerID : string)
  : PM (list Subscription) := fun s => (Ok (map snd (order (map_to_list (mp_subscriptions s)))), s).

Definition RemoveExpired (before : Z) : PM Z := fun s =>
  let gone := filter (fun kv => sub_ExpiresAt kv.2 < before) (mp_subscriptions s) in
  (Ok (Z.of_nat (size gone)),
   with_subscriptions (filter (fun kv => ~ sub_ExpiresAt kv.2 < before) (mp_subscriptions s)) s).
End MemoryPlugin.

(** ** The registry of plugins *)

Module persistence.
Section registry.
(** A factory takes the provider's configuration and the other settings. *)
Variables (Config Settings Plug : Type).
Abbreviation PluginFactory := (Config -> Settings -> res Plug).

Definition RegisterProvider (providerType : string) (factory : PluginFactory) (registry : gmap string PluginFactory)
  : gmap string PluginFactory := <[providerType := factory]> registry.

Definition NewPersistence (providerType : string) (config : Config) (settings : Settings) (registry : gmap string PluginFactory)
  : res Plug :=
  match registry !! providerType with
  | None => Err (ErrText ("unknown persistence provider type: " +:+ providerType))
  | Some factory => factory config settings
  end.
End registry.
End persistence.

(** ** What the plugin keeps *)

Module mem_facts.
Import MemoryPlugin.

(** The calls that change the plugin. *)
Inductive mem_op :=
  | OSave (t : Task)
  | ODelete (id : string)
  | OEnqueue (t : Task)
  | OClaim (now : Z) (w : string) (cmds : list string) (lease limit : Z) (tenant : string)
  | OUpdateLease (now : Z) (id w : string) (ext : Z)
  | OAbandon (id w : string)
  | ONack (id w : string) (delay : Z) (reason : string)
  | OCleanup (order : list string -> list string) (limit before : Z)
  | OComplete (now : Z) (id cmd tenant status err : string)
  | OClear (id cmd tenant : string)
  | OResult (rec : ResultRecord).

Definition exec (op : mem_op) (s : Plugin) : Plugin :=
  match op with
  | OSave t => snd (Save t s)
  | ODelete id => snd (Delete id s)
  | OEnqueue t => snd (EnqueueTask t s)
  | OClaim now w cmds lease limit tenant => snd (ClaimTask now w cmds lease limit tenant s)
  | OUpdateLease now id w ext => snd (UpdateLease now id w ext s)
  | OAbandon id w => snd (AbandonLease id w s)
  | ONack id w delay reason => snd (NackTask id w delay reason s)
  | OCleanup order limit before => snd (CleanupExpired order limit before s)
  | OComplete now id cmd tenant status err => snd (UpdateTaskOnComplete now id cmd tenant status err s)
  | OClear id cmd tenant => snd (RemoveFromInprogAndClearLease id cmd tenant s)
  | OResult rec => snd (SaveResult rec s)
  end.

(** Pointers lead to tasks: an entry of the task map to one with its id, an
    entry of a queue to one with its command. *)
Record MemInv (s : Plugin) : Prop := {
  mi_next : forall r, is_Some (mp_heap s !! r) -> (r < mp_next s)%nat;
  mi_tasks : forall id r, mp_tasks s !! id = Some r -> is_Some (mp_heap s !! r) /\ (deref s r).(ID) = id;
  mi_queues : forall cmd r, r ∈ queue s cmd -> is_Some (mp_heap s !! r) /\ (deref s r).(Command) = cmd
}.

(** An assignment that leaves the identity of the task alone. *)
Definition same_identity (f : Task -> Task) : Prop :=
  forall t, (f t).(ID) = t.(ID) /\ (f t).(Command) = t.(Command) /\ (f t).(TenantID) = t.(TenantID).

Lemma deref_assign s r f r' : deref (assign r f s) r' = if decide (r' = r) then f (deref s r) else deref s r'.
Proof.
  unfold deref, assign. cbn. destruct (decide (r' = r)) as [->|Hn].
  - by rewrite lookup_insert_eq.
  - by rewrite lookup_insert_ne.
Qed.

Lemma deref_identity s r f r' : same_identity f ->
  (deref (assign r f s) r').(ID) = (deref s r').(ID) /\ (deref (assign r f s) r').(Command) = (deref s r').(Command) /\
  (deref (assign r f s) r').(TenantID) = (deref s r').(TenantID).
Proof. intros Hf. rewrite deref_assign. destruct (decide (r' = r)) as [->|]; [apply Hf | done]. Qed.

Lemma queue_set cmd q s cmd' : queue (set_queue cmd q s) cmd' = if decide (cmd' = cmd) then q else queue s cmd'.
Proof.
  unfold queue, set_queue. cbn. destruct (decide (cmd' = cmd)) as [->|Hn]; [by rewrite lookup_insert_eq | by rewrite lookup_insert_ne].
Qed.

Lemma alloc_assign s r f r' : is_Some (mp_heap s !! r') -> is_Some (mp_heap (assign r f s) !! r').
Proof. unfold assign. cbn. intros Hr. destruct (decide (r = r')) as [->|]; [rewrite lookup_insert_eq | rewrite lookup_insert_ne by done]; eauto. Qed.

Lemma MemInv_assign s r f : MemInv s -> is_Some (mp_heap s !! r) -> same_identity f -> MemInv (assign r f s).
Proof.
  intros [In It Iq] Hr Hf. split.
  - intros r'. unfold assign. cbn. destruct (decide (r = r')) as [->|]; [by intros _; apply In | rewrite lookup_insert_ne by done; apply In].
  - intros id r' [Ha Hid]%It. split; [by apply alloc_assign|]. by rewrite (proj1 (deref_identity s r f r' Hf)).
  - intros cmd r' [Ha Hc]%Iq. split; [by apply alloc_assign|]. by rewrite (proj1 (proj2 (deref_identity s r f r' Hf))).
Qed.

Lemma MemInv_leases s m : MemInv s -> MemInv (with_leases m s).
Proof. by intros []; split. Qed.

Lemma MemInv_queue s cmd q : MemInv s -> (forall r, r ∈ q -> is_Some (mp_heap s !! r) /\ (deref s r).(Command) = cmd) ->
  MemInv (set_queue cmd q s).
Proof.
  intros [In It Iq] Hq. split; [done | done|]. intros cmd' r. rewrite queue_set.
  destruct (decide (cmd' = cmd)) as [->|]; [apply Hq | apply Iq].
Qed.

Lemma MemInv_dropTask s id : MemInv s -> MemInv (dropTask id s).
Proof. intros [In It Iq]. split; [done | | done]. intros i r. cbn. rewrite lookup_delete_Some. intros [_ Hi]. by apply It. Qed.

Lemma deref_store s t r : MemInv s -> is_Some (mp_heap s !! r) -> deref (store t s) r = deref s r.
Proof.
  intros I Hr. pose proof (mi_next _ I r Hr). unfold deref, store. cbn. by rewrite lookup_insert_ne by lia.
Qed.

Lemma deref_new s t : deref (store t s) (mp_next s) = t.
Proof. unfold deref, store. cbn. by rewrite lookup_insert_eq. Qed.

Lemma MemInv_store s t : MemInv s -> MemInv (store t s).
Proof.
  intros I. assert (forall r, is_Some (mp_heap s !! r) -> is_Some (mp_heap (store t s) !! r)) as Ha.
  { intros r Hr. unfold store. cbn. destruct (decide (mp_next s = r)) as [->|]; [rewrite lookup_insert_eq; eauto | by rewrite lookup_insert_ne]. }
  split.
  - intros r. unfold store. cbn. destruct (decide (mp_next s = r)) as [->|Hn]; [lia|]. rewrite lookup_insert_ne by done.
    intros Hr%(mi_next _ I). lia.
  - intros id r. unfold store at 1. cbn. destruct (decide (ID t = id)) as [<-|Hn].
    + rewrite lookup_insert_eq. intros [= <-]. rewrite deref_new. unfold store. cbn. rewrite lookup_insert_eq. eauto.
    + rewrite lookup_insert_ne by done. intros [Hr Hid]%(mi_tasks _ I). rewrite deref_store by done. auto.
  - intros cmd r. change (queue (store t s) cmd) with (queue s cmd). intros [Hr Hc]%(mi_queues _ I). rewrite deref_store by done. auto.
Qed.

Lemma MemInv_enqueue s t : MemInv s -> MemInv (snd (EnqueueTask t s)).
Proof.
  intros I. cbn. apply MemInv_queue; [by apply MemInv_store|]. intros r [Hr|Hr]%elem_of_app.
  - by apply (mi_queues _ (MemInv_store s t I)).
  - apply list_elem_of_singleton in Hr as ->. rewrite deref_new. split; [|done]. unfold store. cbn. rewrite lookup_insert_eq. eauto.
Qed.

Lemma MemInv_requeue s id r f : MemInv s -> mp_tasks s !! id = Some r -> same_identity f -> MemInv (requeue r f s).
Proof.
  intros I Hr Hf. destruct (mi_tasks _ I id r Hr) as [Ha _]. pose proof (MemInv_assign s r f I Ha Hf) as I'.
  unfold requeue. cbv zeta. apply MemInv_queue; [done|]. intros r' [Hr'|Hr']%elem_of_app.
  - by apply (mi_queues _ I').
  - apply list_elem_of_singleton in Hr' as ->. split; [by apply alloc_assign | done].
Qed.

Lemma findAvailable_spec s now tenant q i j r : findAvailable s now tenant i q = Some (j, r) ->
  exists k, j = (i + k)%nat /\ q !! k = Some r /\ available s now tenant r = true.
Proof.
  revert i. induction q as [|r0 q IH]; intros i; cbn [findAvailable]; [done|].
  destruct (available s now tenant r0) eqn:Ea.
  - intros [= <- <-]. exists 0%nat. split; [lia | done].
  - intros (k & -> & Hk & Ha)%IH. exists (S k). split; [lia | done].
Qed.

Lemma findAvailable_none s now tenant q i : findAvailable s now tenant i q = None <-> forall r, r ∈ q -> available s now tenant r = false.
Proof.
  revert i. induction q as [|r0 q IH]; intros i; cbn [findAvailable]; [split; [by intros _ r ?%not_elem_of_nil | done]|].
  destruct (available s now tenant r0) eqn:Ea.
  - split; [done|]. intros Hall. specialize (Hall r0 ltac:(constructor)). congruence.
  - rewrite IH. setoid_rewrite elem_of_cons. split; [intros Hall r [->|Hr]; auto | auto].
Qed.

(** A claim takes the first available entry of the first queue that has one. *)
Lemma ClaimTask_spec now w cmds lease limit tenant s :
  (exists cmd i r, cmd ∈ cmds /\ queue s cmd !! i = Some r /\ available s now tenant r = true /\
     ClaimTask now w cmds lease limit tenant s =
       (Ok (Some (deref (take_claim now w cmd lease i r s) r)), take_claim now w cmd lease i r s)) \/
  (ClaimTask now w cmds lease limit tenant s = (Ok None, s) /\
   forall cmd r, cmd ∈ cmds -> r ∈ queue s cmd -> available s now tenant r = false).
Proof.
  induction cmds as [|cmd cmds IH]; cbn [ClaimTask]; [right; split; [done | by intros ? ? ?%not_elem_of_nil]|].
  destruct (findAvailable s now tenant 0 (queue s cmd)) as [[i r]|] eqn:Ef.
  - left. apply findAvailable_spec in Ef as (k & -> & Hk & Ha). exists cmd, k, r. split; [constructor|]. done.
  - rewrite findAvailable_none in Ef. destruct IH as [(cmd' & i & r & Hin & H)|[-> Hn]].
    + left. exists cmd', i, r. split; [by right | done].
    + right. split; [done|]. intros cmd' r [->|Hc]%elem_of_cons Hr; [by apply Ef | by eapply Hn].
Qed.

Lemma elem_of_removed {A} (l : list A) i x : x ∈ take i l ++ drop (S i) l -> x ∈ l.
Proof.
  intros [Hx|Hx]%elem_of_app.
  - apply elem_of_take in Hx as (k & Hk & _). by eapply list_elem_of_lookup_2.
  - apply list_elem_of_lookup in Hx as [k Hk]. rewrite lookup_drop in Hk. by eapply list_elem_of_lookup_2.
Qed.

Definition claimed_as (now : Z) (w : string) (lease : Z) (t : Task) : Task :=
  set_LeaseUntil (FormatRFC3339 (now + seconds lease))
    (set_Status StatusInProgress (set_Attempts (wrap64 (t.(Attempts) + 1)) (set_WorkerID w t))).

Lemma take_claim_deref now w cmd lease i r s r' :
  deref (take_claim now w cmd lease i r s) r' = if decide (r' = r) then claimed_as now w lease (deref s r) else deref s r'.
Proof. apply (deref_assign (with_leases (<[(deref s r).(ID) := (w, now + seconds lease)]> (mp_leases s)) s) r (claimed_as now w lease) r'). Qed.

Lemma take_claim_queue now w cmd lease i r s cmd' :
  queue (take_claim now w cmd lease i r s) cmd' =
  if decide (cmd' = cmd) then take i (queue s cmd) ++ drop (S i) (queue s cmd) else queue s cmd'.
Proof. unfold take_claim. cbv zeta. by rewrite queue_set. Qed.

Lemma claimed_identity now w lease : same_identity (claimed_as now w lease).
Proof. done. Qed.

Lemma MemInv_claim now w cmds lease limit tenant s : MemInv s -> MemInv (snd (ClaimTask now w cmds lease limit tenant s)).
Proof.
  intros I. destruct (ClaimTask_spec now w cmds lease limit tenant s) as [(cmd & i & r & _ & Hr & _ & ->)|[-> _]]; [|done].
  cbn [snd]. destruct (mi_queues _ I cmd r (list_elem_of_lookup_2 _ _ _ Hr)) as [Ha _].
  unfold take_claim. cbv zeta. apply MemInv_queue.
  - apply (MemInv_assign _ r (claimed_as now w lease)); [by apply MemInv_leases | done | apply claimed_identity].
  - intros r' Hr'. assert (r' ∈ queue s cmd) as [Ha' Hc]%(mi_queues _ I).
    { by eapply elem_of_removed. }
    set (s1 := with_leases _ s). split; [by apply (alloc_assign s1 r (claimed_as now w lease))|].
    destruct (deref_identity s1 r (claimed_as now w lease) r' (claimed_identity _ _ _)) as (_ & Hcmd & _).
    etrans; [exact Hcmd | exact Hc].
Qed.

Lemma MemInv_cleanup limit before ids removed s : MemInv s -> MemInv (snd (cleanupLoop limit before ids removed s)).
Proof.
  revert removed s. induction ids as [|id ids IH]; intros removed s I; cbn [cleanupLoop]; [done|].
  destruct (mp_tasks s !! id) as [r|]; [|by apply IH]. destruct (_ <? before); [|by apply IH].
  assert (MemInv (dropLease id (dropTask id s))) by (by apply MemInv_leases, MemInv_dropTask).
  destruct (limit <=? removed + 1); [done | by apply IH].
Qed.

Lemma MemInv_exec op s : MemInv s -> MemInv (exec op s).
Proof.
  intros I. destruct op; cbn [exec].
  - by apply MemInv_store.
  - by apply MemInv_leases, MemInv_dropTask.
  - by apply MemInv_enqueue.
  - by apply MemInv_claim.
  - unfold UpdateLease. destruct (mp_leases s !! id) as [[w' e]|]; [|done]. case_bool_decide; [done | by apply MemInv_leases].
  - unfold AbandonLease. destruct (mp_leases s !! id) as [[w' e]|]; [|done]. case_bool_decide; [done|].
    destruct (mp_tasks (dropLease id s) !! id) as [r|] eqn:Er; [|by apply MemInv_leases].
    eapply MemInv_requeue; [by apply MemInv_leases | exact Er | done].
  - unfold NackTask. destruct (mp_tasks s !! id) as [r|] eqn:Er; [|done].
    eapply MemInv_requeue; [by apply MemInv_leases | exact Er | done].
  - by apply MemInv_cleanup.
  - unfold UpdateTaskOnComplete. destruct (mp_tasks s !! id) as [r|] eqn:Er; [|done].
    apply MemInv_leases, MemInv_assign; [done | by eapply mi_tasks | done].
  - by apply MemInv_leases.
  - destruct I. by split.
Qed.

Definition run (ops : list mem_op) (s : Plugin) : Plugin := fold_left (fun s op => exec op s) ops s.

Lemma MemInv_run ops s : MemInv s -> MemInv (run ops s).
Proof. revert s. induction ops as [|op ops IH]; intros s I; [done|]. by apply IH, MemInv_exec. Qed.

Lemma MemInv_new : MemInv NewPlugin.
Proof. split; [intros r [? H']; discriminate H' | intros ? ? H'; discriminate H' | intros cmd r H'; by apply not_elem_of_nil in H']. Qed.

(** *** Tasks out of the queues *)

Definition queued (s : Plugin) (id : string) : Prop := exists cmd r, r ∈ queue s cmd /\ (deref s r).(ID) = id.

(** The calls that put the task [id] into a queue. *)
Definition requeues (id : string) (op : mem_op) : Prop :=
  match op with
  | OEnqueue t => t.(ID) = id
  | OAbandon i _ | ONack i _ _ _ => i = id
  | _ => False
  end.

Lemma queued_same s s' id : (forall cmd, queue s' cmd = queue s cmd) -> (forall r, (deref s' r).(ID) = (deref s r).(ID)) ->
  queued s' id -> queued s id.
Proof. intros Hq Hd (cmd & r & Hr & Hid). exists cmd, r. by rewrite <- Hq, <- Hd. Qed.

Lemma queued_requeue s i r f id : MemInv s -> mp_tasks s !! i = Some r -> same_identity f -> i <> id ->
  queued (requeue r f s) id -> queued s id.
Proof.
  intros I Hr Hf Hne (cmd & r' & Hq & Hid). unfold requeue in Hq. cbv zeta in Hq. rewrite queue_set in Hq.
  assert (forall x, (deref (requeue r f s) x).(ID) = (deref s x).(ID)) as Hsame by (intros x; apply (deref_identity s r f x Hf)).
  rewrite Hsame in Hid. destruct (decide _) as [_|]; [|by exists cmd, r'].
  apply elem_of_app in Hq as [Hq| ->%list_elem_of_singleton]; [by eexists _, r'|].
  rewrite (proj2 (mi_tasks _ I i r Hr)) in Hid. done.
Qed.

Lemma queued_store s t id : MemInv s -> queued (store t s) id -> queued s id.
Proof.
  intros I (cmd & r & Hr & Hid). change (queue (store t s) cmd) with (queue s cmd) in Hr. exists cmd, r.
  rewrite deref_store in Hid; [done | done|]. by apply (mi_queues _ I cmd).
Qed.

Lemma queued_cleanup limit before ids removed s id : queued (snd (cleanupLoop limit before ids removed s)) id -> queued s id.
Proof.
  revert removed s. induction ids as [|i ids IH]; intros removed s; cbn [cleanupLoop]; [done|].
  destruct (mp_tasks s !! i) as [r|]; [|by apply IH]. destruct (_ <? before); [|by apply IH].
  destruct (limit <=? removed + 1); [by apply queued_same|]. intros Hq%IH. revert Hq. by apply queued_same.
Qed.

Lemma queued_claim now w cmds lease limit tenant s id :
  queued (snd (ClaimTask now w cmds lease limit tenant s)) id -> queued s id.
Proof.
  destruct (ClaimTask_spec now w cmds lease limit tenant s) as [(cmd & i & r & _ & Hr & _ & ->)|[-> _]]; [|done].
  cbn [snd]. intros (cmd' & r' & Hq & Hid). rewrite take_claim_queue in Hq. rewrite take_claim_deref in Hid.
  assert (r' ∈ queue s cmd') as Hq' by (destruct (decide (cmd' = cmd)) as [->|]; [by eapply elem_of_removed | done]).
  exists cmd', r'. split; [done|]. destruct (decide (r' = r)) as [->|]; done.
Qed.

Lemma queued_exec op s id : MemInv s -> ~ requeues id op -> queued (exec op s) id -> queued s id.
Proof.
  intros I Hn. destruct op; cbn [exec requeues] in *.
  - by apply queued_store.
  - by apply queued_same.
  - intros (cmd & r & Hr & Hid). cbn in Hr. rewrite queue_set in Hr. destruct (decide (cmd = Command t)) as [->|].
    + apply elem_of_app in Hr as [Hr| ->%list_elem_of_singleton]; [apply (queued_store s t id I); by exists (Command t), r|].
      destruct Hn. rewrite <- Hid. by rewrite <- (deref_new s t) at 1.
    + apply (queued_store s t id I). by exists cmd, r.
  - by apply queued_claim.
  - unfold UpdateLease. destruct (mp_leases s !! id0) as [[w' e]|]; [|done]. case_bool_decide; [done | by apply queued_same].
  - unfold AbandonLease. destruct (mp_leases s !! id0) as [[w' e]|]; [|done]. case_bool_decide; [done|].
    destruct (mp_tasks (dropLease id0 s) !! id0) as [r|] eqn:Er; [|by apply queued_same].
    intros Hq%(queued_requeue _ id0); [|by apply MemInv_leases | exact Er | done | done]. revert Hq. by apply queued_same.
  - unfold NackTask. destruct (mp_tasks s !! id0) as [r|] eqn:Er; [|done].
    intros Hq%(queued_requeue _ id0); [|by apply MemInv_leases | exact Er | done | done]. revert Hq. by apply queued_same.
  - apply queued_cleanup.
  - unfold UpdateTaskOnComplete. destruct (mp_tasks s !! id0) as [r|] eqn:Er; [|done].
    apply queued_same; [done|]. intros r'. set (f := fun t => _). apply (deref_identity s r f r'). done.
  - by apply queued_same.
  - by apply queued_same.
Qed.

Lemma queued_run ops s id : MemInv s -> (forall op, op ∈ ops -> ~ requeues id op) -> queued (run ops s) id -> queued s id.
Proof.
  revert s. induction ops as [|op ops IH]; intros s I Hn; [done|]. intros Hq%IH.
  - eapply queued_exec; [done | | exact Hq]. apply Hn. constructor.
  - by apply MemInv_exec.
  - intros op' Hop. apply Hn. by right.
Qed.
End mem_facts.

Section memory.
Import MemoryPlugin mem_facts.

(** A claim of the memory plugin is exclusive.  In every state the plugin can
    reach, a claim that returns a task returns one whose lease, if it has one,
    has run out, of a command asked for and of the tenant asked for; the claimer
    holds its lease from then on and every other lease is what it was.  The task
    was queued, and where the queue and the task map share it, a lookup shows it
    claimed. *)
Theorem memory_claim_exclusive ops now w cmds lease limit tenant t s' :
  let s := run ops NewPlugin in
  ClaimTask now w cmds lease limit tenant s = (Ok (Some t), s') ->
  (forall w' e, mp_leases s !! t.(ID) = Some (w', e) -> e <= now) /\
  t.(Command) ∈ cmds /\ (tenant <> "" -> t.(TenantID) = tenant) /\
  t.(Status) = StatusInProgress /\ t.(WorkerID) = w /\
  (forall id, mp_leases s' !! id = if decide (id = t.(ID)) then Some (w, now + seconds lease) else mp_leases s !! id) /\
  queued s t.(ID) /\ exists r, deref s' r = t /\ (mp_tasks s !! t.(ID) = Some r -> fst (Get t.(ID) s') = Ok t).
Proof.
  intros s Hc. assert (MemInv s) as I by apply MemInv_run, MemInv_new.
  destruct (ClaimTask_spec now w cmds lease limit tenant s) as [(cmd & i & r & Hcmd & Hr & Ha & E)|[E _]]; [|congruence].
  rewrite E in Hc. injection Hc as Ht <-. rewrite take_claim_deref, decide_True in Ht by done. subst t.
  pose proof (list_elem_of_lookup_2 _ _ _ Hr) as Hq. destruct (mi_queues _ I cmd r Hq) as [Hal Hcm].
  unfold available in Ha. apply andb_true_iff in Ha as [Hten Hlease]. cbn [claimed_as ID Command TenantID Status WorkerID set_LeaseUntil set_Status set_Attempts set_WorkerID].
  split; [|split; [|split; [|split; [|split; [|split; [|split]]]]]].
  - intros w' e He. rewrite He in Hlease. lia.
  - by rewrite Hcm.
  - intros Htn. rewrite bool_decide_eq_true_2 in Hten by done. case_bool_decide; naive_solver.
  - done.
  - done.
  - intros id. unfold take_claim. cbn. destruct (decide (id = _)) as [->|Hn]; [by rewrite lookup_insert_eq | by rewrite lookup_insert_ne].
  - by exists cmd, r.
  - exists r. split; [by rewrite take_claim_deref, decide_True|].
    intros Htask. unfold Get. change (mp_tasks (take_claim now w cmd lease i r s)) with (mp_tasks s). rewrite Htask. cbn [fst].
    by rewrite take_claim_deref, decide_True.
Qed.

(** The memory plugin loses a task when its lease runs out.  A claim takes
    the only queue entry of a task away.  From then on no claim returns the task,
    whatever else is called and however much time passes, until someone enqueues,
    abandons or nacks it by its id: the lease's expiry frees nothing. *)
Theorem memory_expired_lease_lost ops now w cmds lease limit tenant t s' :
  let s := run ops NewPlugin in
  ClaimTask now w cmds lease limit tenant s = (Ok (Some t), s') ->
  (forall c i r c' i' r', queue s c !! i = Some r -> queue s c' !! i' = Some r' ->
     (deref s r).(ID) = t.(ID) -> (deref s r').(ID) = t.(ID) -> c = c' /\ i = i') ->
  forall later now2 w2 cmds2 lease2 limit2 tenant2 t2, (forall op, op ∈ later -> ~ requeues t.(ID) op) ->
    fst (ClaimTask now2 w2 cmds2 lease2 limit2 tenant2 (run later s')) = Ok (Some t2) -> t2.(ID) <> t.(ID).
Proof.
  intros s Hc Honce later now2 w2 cmds2 lease2 limit2 tenant2 t2 Hlater Hc2 Hid.
  assert (MemInv s) as I by apply MemInv_run, MemInv_new.
  assert (MemInv s') as I' by (replace s' with (snd (ClaimTask now w cmds lease limit tenant s)) by (by rewrite Hc); by apply MemInv_claim).
  assert (~ queued s' t.(ID)) as Hnq.
  { destruct (ClaimTask_spec now w cmds lease limit tenant s) as [(cmd & i & r & _ & Hr & _ & E)|[E _]]; [|congruence].
    rewrite E in Hc. injection Hc as Ht <-. rewrite take_claim_deref, decide_True in Ht by done.
    assert (t.(ID) = (deref s r).(ID)) as HidT by (by subst t).
    intros (c' & r' & Hq & Hid'). rewrite take_claim_queue in Hq. rewrite take_claim_deref in Hid'.
    assert ((deref s r').(ID) = t.(ID)) as Hid2 by (destruct (decide (r' = r)) as [->|]; [by rewrite HidT | done]).
    apply list_elem_of_lookup in Hq as [k Hk]. destruct (decide (c' = cmd)) as [->|Hne].
    - rewrite <- delete_take_drop in Hk. destruct (decide (k < i)%nat) as [Hlt|Hge].
      + rewrite list_lookup_delete_lt in Hk by done. destruct (Honce _ _ _ _ _ _ Hk Hr Hid2) as [_ ->]; [done | lia].
      + rewrite list_lookup_delete_ge in Hk by lia. destruct (Honce _ _ _ _ _ _ Hk Hr Hid2) as [_ He]; [done | lia].
    - destruct (Honce _ _ _ _ _ _ Hk Hr Hid2) as [-> _]; done. }
  destruct (ClaimTask_spec now2 w2 cmds2 lease2 limit2 tenant2 (run later s')) as [(cmd & i & r & _ & Hr & _ & E)|[E _]];
    rewrite E in Hc2; [|done]. injection Hc2 as Ht2. rewrite take_claim_deref, decide_True in Ht2 by done.
  apply Hnq, (queued_run later); [done | done|]. exists cmd, r. split; [by eapply list_elem_of_lookup_2|]. rewrite <- Hid. by subst t2.
Qed.
End memory.

Module mem_run.
Import MemoryPlugin mem_facts.
Definition job : Task := set_Status StatusPending (mkTask "t1" "SEND" "{}" 5 "" "" "" "" "" "" "" 0 3 "" "" "acme" 0 0).
Definition ops : list mem_op := [OEnqueue job].
Definition claim := ClaimTask 1000 "w1" ["SEND"] 60 10 "acme" (run ops NewPlugin).
Definition held : Task := claimed_as 1000 "w1" 60 job.

Lemma claim_run : claim = (Ok (Some held), snd claim).
Proof. apply run_outcome. vm_compute. reflexivity. Qed.
End mem_run.

Lemma memory_claim_exclusive_witness :
  mp_leases (snd mem_run.claim) !! "t1" = Some ("w1", 1000 + seconds 60) /\ mem_run.held.(Status) = StatusInProgress.
Proof.
  destruct (memory_claim_exclusive mem_run.ops 1000 "w1" ["SEND"] 60 10 "acme" mem_run.held (snd mem_run.claim) mem_run.claim_run)
    as (_ & _ & _ & Hs & _ & Hl & _).
  split; [rewrite Hl; reflexivity | exact Hs].
Defined.

(** A year later another worker asks, and gets nothing of it. *)
Lemma memory_expired_lease_lost_witness : ~ exists t2,
  fst (MemoryPlugin.ClaimTask (1000 + 31536000 * second) "w2" ["SEND"] 60 10 "acme" (snd mem_run.claim)) = Ok (Some t2) /\
  t2.(ID) = "t1".
Proof.
  intros (t2 & Hc2 & Hid).
  assert (forall c i r, MemoryPlugin.queue (mem_facts.run mem_run.ops MemoryPlugin.NewPlugin) c !! i = Some r -> c = "SEND" /\ i = 0%nat) as Hone.
  { intros c i r. cbn [mem_facts.run mem_run.ops fold_left mem_facts.exec MemoryPlugin.EnqueueTask mmod snd]. rewrite mem_facts.queue_set.
    destruct (decide (c = mem_run.job.(Command))) as [->|]; [|done]. destruct i as [|[|i]]; done. }
  apply (memory_expired_lease_lost mem_run.ops 1000 "w1" ["SEND"] 60 10 "acme" mem_run.held (snd mem_run.claim) mem_run.claim_run)
    with (later := []) in Hc2; [by apply Hc2 | | by intros ? ?%not_elem_of_nil].
  intros c i r c' i' r' [-> ->]%Hone [-> ->]%Hone _ _. done.
Defined.
