(* ===== verification/Auth.v ===== *)
(** Authentication: the claims of a token ([src/pkg/auth/interface.go]), the
    registry of validators ([src/pkg/auth/registry.go]), the static, multi and
    JWKS validators ([src/pkg/auth/static], [multi], [jwks]) and the tenant a
    token asserts ([src/internal/authclaims/tenant.go]).

    A validator is a function from a token to the claims over a state, which is
    the key cache of a JWKS validator.  The JSON of the configurations and the
    JWT library are arguments: [jwt_decode] is the parsed header and claims,
    [jwt_verify] the library's own checks with the key the callback returns. *)

From stdpp Require Import pretty.
From S2P Require Import Prelude GoTime Domain Keys GoText Float64.

(** A decoded JSON value, the [interface{}] of a raw claim. *)
Inductive anyv :=
  | AString (s : string)
  | ANumber (f : SpecFloat.spec_float)
  | ABool (b : bool)
  | ANull
  | AArray (l : list anyv)
  | AObject (l : list (string * anyv)).

Definition as_string (v : anyv) : option string := match v with AString s => Some s | _ => None end.

Record Claims := mkClaims {
  c_Subject : string;
  c_Email : string;
  c_Issuer : string;
  c_Audience : list string;
  c_ExpiresAt : Z;
  c_IssuedAt : Z;
  c_Scopes : list string;
  c_EventTypes : list string;
  c_Raw : gmap string anyv
}.

Definition HasScope (c : option Claims) (scope : string) : bool :=
  match c with
  | None => false
  | Some c => existsb (fun s => bool_decide (s = scope)) (c_Scopes c)
  end.

(** A validator; [Validator S] works on a state [S]. *)
Abbreviation Validator S := (string -> M S Claims).

Module auth.
Section registry.
Variables (S Config : Type).
Abbreviation ValidatorFactory := (Config -> res (Validator S)).

Definition RegisterProvider (providerType : string) (factory : ValidatorFactory) (registry : gmap string ValidatorFactory)
  : gmap string ValidatorFactory := <[providerType := factory]> registry.

Definition NewValidator (registry : gmap string ValidatorFactory) (providerType : string) (config : Config) : res (Validator S) :=
  match registry !! providerType with
  | None => Err (ErrText ("unknown auth provider type: " +:+ providerType))
  | Some factory => factory config
  end.
End registry.
End auth.

(** ** A fixed token *)

Module static.

Record validatorConfig := mkStatic {
  sv_Token : string;
  sv_Subject : string;
  sv_Email : string;
  sv_Scopes : list string;
  sv_EventTypes : list string;
  sv_Raw : gmap string anyv
}.

(** The configuration is a JSON string, the token, or an object. *)
Definition newConfig (unmarshal_string : string -> res string) (unmarshal_config : string -> res validatorConfig)
  (raw : string) : res validatorConfig :=
  let raw := TrimSpace raw in
  match raw with
  | EmptyString => Err (ErrText "static auth: missing config")
  | String a _ =>
      let parsed :=
        if Ascii.eqb a (byte 34) then
          match unmarshal_string raw with Ok tok => Ok (mkStatic tok "" "" [] [] ∅) | Err e => Err e end
        else unmarshal_config raw in
      match parsed with
      | Err e => Err (ErrText ("static auth: invalid config: " +:+ error_text e))
      | Ok cfg =>
          let token := TrimSpace (sv_Token cfg) in
          if bool_decide (token = "") then Err (ErrText "static auth: token is required")
          else
            let subject := TrimSpace (sv_Subject cfg) in
            Ok (mkStatic token (if bool_decide (subject = "") then "static" else subject) (sv_Email cfg) (sv_Scopes cfg)
                  (sv_EventTypes cfg) (sv_Raw cfg))
      end
  end.

Definition Validate {S} (cfg : validatorConfig) : Validator S := fun token =>
  if bool_decide (TrimSpace token <> sv_Token cfg) then mthrow (ErrText "invalid token")
  else mret (mkClaims (sv_Subject cfg) (sv_Email cfg) "" [] zero_time zero_time (sv_Scopes cfg) (sv_EventTypes cfg) (sv_Raw cfg)).
End static.

(** ** Several validators *)

Module multi.

Definition maxProviders : Z := 4.

Section multi.
Context {S : Type}.

(** The providers in order, [newNested] being the registry's constructor; [index]
    is the position of the next one. *)
Fixpoint nestedValidators {Config} (newNested : string -> Config -> res (Validator S)) (index : Z) (providers : list (string * Config))
  : res (list (Validator S)) :=
  match providers with
  | [] => Ok []
  | (ty, config) :: rest =>
      let ty := TrimSpace ty in
      if bool_decide (ty = "") || bool_decide (ty = "multi") then
        Err (ErrText ("multi auth: provider " +:+ pretty index +:+ " has an invalid type"))
      else
        match newNested ty config with
        | Err e => Err (ErrWrap ("multi auth: configure provider " +:+ pretty index) e)
        | Ok v =>
            match nestedValidators newNested (index + 1) rest with
            | Err e => Err e
            | Ok vs => Ok (v :: vs)
            end
        end
  end.

Definition newValidators {Config} (newNested : string -> Config -> res (Validator S)) (cfg : res (list (string * Config)))
  : res (list (Validator S)) :=
  match cfg with
  | Err e => Err (ErrWrap "multi auth: invalid config" e)
  | Ok providers =>
      let n := Z.of_nat (length providers) in
      if (n <? 2) || (maxProviders <? n) then
        Err (ErrText ("multi auth: providers must contain between 2 and " +:+ pretty maxProviders +:+ " entries"))
      else nestedValidators newNested 0 providers
  end.

(** [errors.Join]: one message per line. *)
Fixpoint joinErrors (es : list error) : string :=
  match es with
  | [] => ""
  | [e] => error_text e
  | e :: es' => error_text e +:+ String (byte 10) (joinErrors es')
  end.

Fixpoint tryAll (token : string) (vs : list (Validator S)) (errs : list error) : M S Claims :=
  match vs with
  | [] => mthrow (ErrWrap "multi auth: token rejected by every provider" (ErrText (joinErrors errs)))
  | v :: vs' =>
      let! r := mtry (v token) in
      match r with
      | Ok claims => mret claims
      | Err e => tryAll token vs' (errs ++ [e])
      end
  end.

Definition Validate (vs : list (Validator S)) : Validator S := fun token => tryAll token vs [].
End multi.
End multi.

(** ** Keys published by an issuer *)

Module jwks.

(** [base64.RawURLEncoding.DecodeString]: line ends are skipped, and a last
    group has two or three characters. *)
Definition sextet (a : ascii) : option Z :=
  let c := ch a in
  if (65 <=? c) && (c <=? 90) then Some (c - 65)
  else if (97 <=? c) && (c <=? 122) then Some (c - 71)
  else if (48 <=? c) && (c <=? 57) then Some (c + 4)
  else if c =? 45 then Some 62
  else if c =? 95 then Some 63
  else None.

Fixpoint sextets (s : string) : option (list Z) :=
  match s with
  | EmptyString => Some []
  | String a s' =>
      if (ch a =? 10) || (ch a =? 13) then sextets s'
      else match sextet a, sextets s' with Some x, Some l => Some (x :: l) | _, _ => None end
  end.

Fixpoint groups (l : list Z) : option string :=
  match l with
  | [] => Some ""
  | [_] => None
  | [a; b] => Some (String (byte (a * 4 + b / 16)) "")
  | [a; b; c] => Some (String (byte (a * 4 + b / 16)) (String (byte (b mod 16 * 16 + c / 4)) ""))
  | a :: b :: c :: d :: rest =>
      match groups rest with
      | Some s => Some (String (byte (a * 4 + b / 16)) (String (byte (b mod 16 * 16 + c / 4)) (String (byte (c mod 4 * 64 + d)) s)))
      | None => None
      end
  end.

Definition decodeRawURL (s : string) : res string :=
  match sextets s with
  | Some l => match groups l with Some b => Ok b | None => Err (ErrExternal "illegal base64 data") end
  | None => Err (ErrExternal "illegal base64 data")
  end.

(** [big.Int.SetBytes]. *)
Fixpoint bigEndian (acc : Z) (s : string) : Z :=
  match s with EmptyString => acc | String a s' => bigEndian (acc * 256 + ch a) s' end.

Record PublicKey := mkKey { pk_N : Z; pk_E : Z }.

Definition parseRSAPublicKey (nStr eStr : string) : res PublicKey :=
  match decodeRawURL nStr with
  | Err e => Err (ErrWrap "failed to decode n" e)
  | Ok nBytes =>
      match decodeRawURL eStr with
      | Err e => Err (ErrWrap "failed to decode e" e)
      | Ok eBytes => Ok (mkKey (bigEndian 0 nBytes) (wrap64 (bigEndian 0 eBytes)))
      end
  end.

Record Config := mkConfig { jc_JwksURL : string; jc_Issuer : string; jc_Audience : string; jc_ClockSkew : Z }.

(** The state of a validator: the keys by id and the one time of the cache. *)
Record Cache := mkCache { keyCache : gmap string PublicKey; cacheTime : Z }.

Definition NewValidator (cfg : Config) : res (Config * Cache) :=
  if bool_decide (jc_JwksURL cfg = "") then Err (ErrText "jwksURL is required")
  else if bool_decide (jc_Issuer cfg = "") then Err (ErrText "issuer is required")
  else if bool_decide (jc_Audience cfg = "") then Err (ErrText "audience is required")
  else Ok (cfg, mkCache ∅ zero_time).

(** An entry of the published set. *)
Record jwk := mkJwk { jw_Kid : string; jw_Kty : string; jw_N : string; jw_E : string }.

Fixpoint findKey (kid : string) (keys : list jwk) : option jwk :=
  match keys with
  | [] => None
  | k :: rest => if bool_decide (jw_Kid k = kid) && bool_decide (jw_Kty k = "RSA") then Some k else findKey kid rest
  end.

Section validate.
Variable v : Config.
(** The key set the endpoint serves at [now], or the error of fetching, reading
    or decoding it. *)
Variable fetch : res (list jwk).
Variable now : Z.

Definition getPublicKey (kid : string) : M Cache PublicKey := fun c =>
  let fetched : res PublicKey * Cache :=
    match fetch with
    | Err e => (Err e, c)
    | Ok keys =>
        match findKey kid keys with
        | None => (Err (ErrText ("key " +:+ kid +:+ " not found in JWKS")), c)
        | Some k =>
            match parseRSAPublicKey (jw_N k) (jw_E k) with
            | Err e => (Err (ErrWrap "failed to parse RSA key" e), c)
            | Ok pubKey => (Ok pubKey, mkCache (<[kid := pubKey]> (keyCache c)) now)
            end
        end
    end in
  match keyCache c !! kid with
  | Some key => if now - cacheTime c <? 300 * second then (Ok key, c) else fetched
  | None => fetched
  end.

(** The JWT library. *)
Variable jwt_decode : string -> res (bool * option anyv * gmap string anyv).
Variable jwt_verify : PublicKey -> string -> Z -> res unit.
(** [int64(f)] out of range. *)
Variable cvt_overflow : Z.

Definition getStringClaim (claims : gmap string anyv) (key : string) : string :=
  match claims !! key with Some (AString s) => s | _ => "" end.

Definition audiences (claims : gmap string anyv) : list string :=
  match claims !! "aud" with
  | Some (AString s) => [s]
  | Some (AArray l) => omap as_string l
  | _ => []
  end.

(** [time.Unix(int64(f), 0)] of a numeric claim. *)
Definition timeClaim (claims : gmap string anyv) (key : string) : option Z :=
  match claims !! key with Some (ANumber f) => Some (to_int64 cvt_overflow f * second) | _ => None end.

(** [strings.Fields]. *)
Fixpoint fieldsFrom (fuel : nat) (s word : string) : list string :=
  let flush rest := match word with EmptyString => rest | _ => rev_s word "" :: rest end in
  match fuel, s with
  | S f, String a s' =>
      match space_rune s with
      | O => fieldsFrom f s' (String a word)
      | n => flush (fieldsFrom f (drop_s n s) "")
      end
  | _, _ => flush []
  end.
Definition Fields (s : string) : list string := fieldsFrom (String.length s) s "".

(** [jwt.Parse] with the key callback; the library words the errors. *)
Definition parse (tokenString : string) : M Cache (gmap string anyv) :=
  match jwt_decode tokenString with
  | Err e => mthrow e
  | Ok (isRSA, kid, claims) =>
      if negb isRSA then mthrow (ErrExternal "unexpected signing method")
      else
        match kid with
        | Some (AString kid) =>
            if bool_decide (kid = "") then mthrow (ErrExternal "missing kid in token header")
            else
              let! key := getPublicKey kid in
              match jwt_verify key tokenString now with
              | Err e => mthrow e
              | Ok _ => mret claims
              end
        | _ => mthrow (ErrExternal "missing kid in token header")
        end
  end.

Definition Validate (tokenString : string) : M Cache Claims :=
  let! claims := parse tokenString in
  let iss := getStringClaim claims "iss" in
  if bool_decide (iss <> jc_Issuer v) then mthrow (ErrText ("invalid issuer: " +:+ iss))
  else
    let auds := audiences claims in
    if negb (existsb (fun aud => bool_decide (aud = jc_Audience v)) auds) then mthrow (ErrText ("invalid audience: [" +:+ String.concat " " auds +:+ "]"))
    else
      let expired := match timeClaim claims "exp" with Some exp => exp + jc_ClockSkew v <? now | None => false end in
      if expired then mthrow (ErrText "token expired")
      else
        mret (mkClaims (getStringClaim claims "sub") (getStringClaim claims "email") iss auds
          (default zero_time (timeClaim claims "exp")) (default zero_time (timeClaim claims "iat"))
          (match claims !! "scope" with Some (AString s) => Fields s | _ => [] end)
          (match claims !! "eventTypes" with Some (AArray l) => omap as_string l | _ => [] end)
          claims).
End validate.
End jwks.

(** ** The tenant of a token *)

Module authclaims.

Definition ErrTenantMissing : error := ErrText "tenant claim is missing".
Definition ErrTenantMalformed : error := ErrText "tenant claim is malformed".
Definition ErrTenantConflict : error := ErrText "tenant claims conflict".

Definition tenantClaimNames : list string := ["tid"; "tenantId"; "tenant_id"; "organizationId"; "organization_id"].

(** [Ok None]: no alias is present. *)
Fixpoint aliasesFrom (raw : gmap string anyv) (names : list string) (selected : string) : res (option string) :=
  match names with
  | [] => Ok (if bool_decide (selected <> "") then Some selected else None)
  | name :: rest =>
      match raw !! name with
      | None => aliasesFrom raw rest selected
      | Some (AString value) =>
          let text := TrimSpace value in
          if negb (MatchString tenantPattern text) then Err ErrTenantMalformed
          else if bool_decide (selected = "") then aliasesFrom raw rest text
          else if bool_decide (selected <> text) then Err ErrTenantConflict
          else aliasesFrom raw rest selected
      | Some _ => Err ErrTenantMalformed
      end
  end.

Definition resolveAliases (raw : gmap string anyv) : res (option string) := aliasesFrom raw tenantClaimNames "".

Definition validateFallbackSubject (value : string) : res string :=
  let subject := TrimSpace value in
  if bool_decide (subject = "") then Err ErrTenantMissing
  else if negb (MatchString tenantPattern subject) then Err ErrTenantMalformed
  else Ok subject.

Definition ResolveTenantID (claims : option Claims) : res string :=
  match claims with
  | None => Err ErrTenantMissing
  | Some c =>
      match resolveAliases (c_Raw c) with
      | Err e => Err e
      | Ok (Some selected) => Ok selected
      | Ok None => validateFallbackSubject (c_Subject c)
      end
  end.
End authclaims.

(** ** The tenant of a token is the one it asserts *)

Module tenant_facts.
Import authclaims.

(** The values of the aliases that are present, in order. *)
Definition present (raw : gmap string anyv) : list anyv := omap (fun name => raw !! name) tenantClaimNames.

(** [v] asserts the tenant [t]. *)
Definition asserts (t : string) (v : anyv) : Prop := exists s, v = AString s /\ TrimSpace s = t.

Fixpoint select (vals : list anyv) (selected : string) : res (option string) :=
  match vals with
  | [] => Ok (if bool_decide (selected <> "") then Some selected else None)
  | AString value :: rest =>
      let text := TrimSpace value in
      if negb (MatchString tenantPattern text) then Err ErrTenantMalformed
      else if bool_decide (selected = "") then select rest text
      else if bool_decide (selected <> text) then Err ErrTenantConflict
      else select rest selected
  | _ :: _ => Err ErrTenantMalformed
  end.

Lemma aliases_select raw names sel : aliasesFrom raw names sel = select (omap (fun name => raw !! name) names) sel.
Proof.
  revert sel. induction names as [|name names IH]; intros sel; cbn [aliasesFrom omap list_omap select]; [done|].
  destruct (raw !! name) as [[s| | | | |]|]; cbn [select]; try done.
  by rewrite !IH.
Qed.

Lemma tenant_nonempty t : MatchString tenantPattern t = true -> t <> "".
Proof. by intros [? _]%tenant_label. Qed.

Lemma select_none vals sel : select vals sel = Ok None <-> vals = [] /\ sel = "".
Proof.
  revert sel. induction vals as [|v vals IH]; intros sel; cbn [select].
  - case_bool_decide; naive_solver.
  - destruct v; try naive_solver. destruct (MatchString tenantPattern (TrimSpace s)) eqn:Em; cbn [negb]; [|naive_solver].
    apply tenant_nonempty in Em. case_bool_decide; [rewrite IH; naive_solver|]. case_bool_decide; [naive_solver|]. rewrite IH. naive_solver.
Qed.

Lemma select_some vals sel t : (sel = "" \/ MatchString tenantPattern sel = true) ->
  select vals sel = Ok (Some t) <->
  MatchString tenantPattern t = true /\ Forall (asserts t) vals /\ (sel = "" /\ vals <> [] \/ sel = t).
Proof.
  revert sel. induction vals as [|v vals IH]; intros sel Hsel; cbn [select].
  - case_bool_decide as Hs; [destruct Hsel as [?|Hm]; [done|]|].
    + split; [intros [= ->]; auto | intros (_ & _ & [[? _]| ->]); done].
    + subst sel. split; [done|]. intros (Hm & _ & [[_ ?]|<-]); [done|]. by apply tenant_nonempty in Hm.
  - rewrite Forall_cons. unfold asserts at 1.
    destruct v as [s|f|b| |l|l]; try (split; [done|]; intros (_ & [(x & [=] & _) _] & _)).
    destruct (MatchString tenantPattern (TrimSpace s)) eqn:Em; cbn [negb].
    2: { split; [done|]. intros (Hm & [(x & [= <-] & <-) _] & _). congruence. }
    pose proof (tenant_nonempty _ Em) as Hne. case_bool_decide as Hs.
    + rewrite IH by auto. subst sel. split.
      * intros (Hm & Hf & [[? _]|<-]); [done|]. split; [done|]. split; [split; [by eexists | done]|]. by left.
      * intros (Hm & [(x & [= <-] & <-) Hf] & _). auto.
    + case_bool_decide as Hn.
      * split; [done|]. intros (_ & [(x & [= <-] & <-) _] & [[? _]|?]); done.
      * subst sel. rewrite IH by auto. split.
        -- intros (Hm & Hf & [[? _]|<-]); [done|]. split; [done|]. split; [split; [by eexists | done]|]. by right.
        -- intros (Hm & [(x & [= <-] & Ht) Hf] & _). auto.
Qed.
End tenant_facts.

(** The tenants a token resolves to. *)
Lemma resolve_spec c t :
  authclaims.ResolveTenantID (Some c) = Ok t <->
  MatchString tenantPattern t = true /\
  (tenant_facts.present (c_Raw c) <> [] /\ Forall (tenant_facts.asserts t) (tenant_facts.present (c_Raw c)) \/
   tenant_facts.present (c_Raw c) = [] /\ TrimSpace (c_Subject c) = t).
Proof.
  unfold authclaims.ResolveTenantID, authclaims.resolveAliases. rewrite tenant_facts.aliases_select.
  fold (tenant_facts.present (c_Raw c)). set (vals := tenant_facts.present (c_Raw c)).
  destruct (tenant_facts.select vals "") as [[sel|]|e] eqn:Es.
  - rewrite tenant_facts.select_some in Es by auto. destruct Es as (Hm & Hf & [[_ Hv]|<-]); [|by apply tenant_facts.tenant_nonempty in Hm].
    split; [intros [= <-]; auto|]. intros (_ & [[_ Hf']|[? _]]); [|done]. f_equal.
    destruct vals as [|v vals']; [done|]. apply Forall_cons in Hf as [(x & -> & <-) _], Hf' as [(y & [= <-] & <-) _]. done.
  - apply tenant_facts.select_none in Es as [-> _]. unfold authclaims.validateFallbackSubject. cbv zeta. case_bool_decide as Hs.
    + split; [done|]. intros (Hm & [[? _]|[_ <-]]); [done|]. by apply tenant_facts.tenant_nonempty in Hm.
    + destruct (MatchString tenantPattern (TrimSpace (c_Subject c))) eqn:Em; cbn [negb].
      * split; [intros [= <-]; auto | intros (_ & [[? _]|[_ <-]]); done].
      * split; [done|]. intros (Hm & [[? _]|[_ <-]]); [done | congruence].
  - split; [done|]. intros (Hm & [[Hv Hf]|[Hv _]]); exfalso.
    + assert (tenant_facts.select vals "" = Ok (Some t)) as Hx by (apply tenant_facts.select_some; auto). congruence.
    + rewrite Hv in Es. done.
Qed.

(** The tenant of a token is the one it asserts, and nothing else.  A token
    resolves to a tenant exactly when that tenant is a well-formed label and
    either the token carries a tenant claim under one of the five names and every
    one it carries says that tenant, or it carries none and its subject is the
    tenant.  So two claims that disagree, or one that is not a label, never
    resolve, and the subject never overrides a claim. *)
Theorem tenant_resolution c t :
  authclaims.ResolveTenantID (Some c) = Ok t <->
  MatchString tenantPattern t = true /\
  (tenant_facts.present (c_Raw c) <> [] /\ Forall (tenant_facts.asserts t) (tenant_facts.present (c_Raw c)) \/
   tenant_facts.present (c_Raw c) = [] /\ TrimSpace (c_Subject c) = t).
Proof. apply resolve_spec. Qed.

(** ** Validators *)

(** A composed validator accepts what one of its validators accepts. *)
Lemma multi_sound {S} (vs : list (Validator S)) token (s s' : S) c : multi.Validate vs token s = (Ok c, s') ->
  exists v s1 s2, v ∈ vs /\ v token s1 = (Ok c, s2).
Proof.
  unfold multi.Validate. generalize (@nil error). revert s. induction vs as [|v vs IH]; intros s errs; cbn [multi.tryAll]; [done|].
  unfold mbnd, mtry. destruct (v token s) as [[c'|e] s1] eqn:Ev.
  - intros [= -> ->]. exists v, s, s'. split; [constructor | done].
  - intros (v' & s2 & s3 & Hin & Hv)%IH. exists v', s2, s3. split; [by right | done].
Qed.

(** And when none accepts, so does it not. *)
Lemma multi_complete {S} (vs : list (Validator S)) token (s : S) : (forall v s1, v ∈ vs -> exists e, fst (v token s1) = Err e) ->
  exists e, fst (multi.Validate vs token s) = Err e.
Proof.
  unfold multi.Validate. generalize (@nil error). revert s. induction vs as [|v vs IH]; intros s errs Hall; cbn [multi.tryAll]; [by eexists|].
  unfold mbnd, mtry. destruct (Hall v s ltac:(constructor)) as [e He]. destruct (v token s) as [x s1]. cbn in He. subst x.
  apply IH. intros v' s2 Hv'. apply Hall. by right.
Qed.

Section jwks_facts.
Import jwks.
Variable jwt_decode : string -> res (bool * option anyv * gmap string anyv).
Variable jwt_verify : PublicKey -> string -> Z -> res unit.
Variable cvt_overflow : Z.

Abbreviation check v fetch now := (Validate v fetch now jwt_decode jwt_verify cvt_overflow).

(** A key comes from the cache or from the published set, under the id asked
    for. *)
Lemma getPublicKey_source fetch now kid c key c' : getPublicKey fetch now kid c = (Ok key, c') ->
  keyCache c !! kid = Some key \/
  exists keys k, fetch = Ok keys /\ k ∈ keys /\ jw_Kid k = kid /\ jw_Kty k = "RSA" /\ parseRSAPublicKey (jw_N k) (jw_E k) = Ok key.
Proof.
  unfold getPublicKey. cbv zeta. intros Hg.
  assert ((match fetch with
    | Err e => (Err e, c)
    | Ok keys =>
        match findKey kid keys with
        | None => (Err (ErrText ("key " +:+ kid +:+ " not found in JWKS")), c)
        | Some k =>
            match parseRSAPublicKey (jw_N k) (jw_E k) with
            | Err e => (Err (ErrWrap "failed to parse RSA key" e), c)
            | Ok pubKey => (Ok pubKey, mkCache (<[kid := pubKey]> (keyCache c)) now)
            end
        end
    end) = (Ok key, c') -> exists keys k, fetch = Ok keys /\ k ∈ keys /\ jw_Kid k = kid /\ jw_Kty k = "RSA" /\
      parseRSAPublicKey (jw_N k) (jw_E k) = Ok key) as Hf.
  { destruct fetch as [keys|]; [|done]. destruct (findKey kid keys) as [k|] eqn:Ek; [|done].
    destruct (parseRSAPublicKey (jw_N k) (jw_E k)) as [pub|] eqn:Ep; [|done]. intros [= -> _].
    exists keys, k. split; [done|]. revert Ek. clear -Ep. induction keys as [|k' keys IH]; cbn [findKey]; [done|].
    destruct (bool_decide (jw_Kid k' = kid) && bool_decide (jw_Kty k' = "RSA")) eqn:Em.
    - intros [= ->]. apply andb_true_iff in Em as [?%bool_decide_eq_true ?%bool_decide_eq_true]. split; [constructor | done].
    - intros (Hin & Hrest)%IH. split; [by right | done]. }
  destruct (keyCache c !! kid) as [k0|]; [|by right; apply Hf].
  destruct (now - cacheTime c <? 300 * second); [|by right; apply Hf]. injection Hg as -> _. by left.
Qed.

(** Which tokens a JWKS validator accepts.  A token is accepted only when the
    library has verified it with an RSA key that the issuer publishes, or did when
    it was cached, under the key id of the token's header; it names the configured
    issuer, the configured audience is among its audiences, and it has not expired
    by more than the skew.  The claims returned are the token's. *)
Theorem jwks_accepts_verified v fetch now token c cl c' : check v fetch now token c = (Ok cl, c') ->
  exists kid key, jwt_decode token = Ok (true, Some (AString kid), c_Raw cl) /\ jwt_verify key token now = Ok tt /\
    (keyCache c !! kid = Some key \/
     exists keys k, fetch = Ok keys /\ k ∈ keys /\ jw_Kid k = kid /\ jw_Kty k = "RSA" /\ parseRSAPublicKey (jw_N k) (jw_E k) = Ok key) /\
    c_Issuer cl = jc_Issuer v /\ jc_Audience v ∈ c_Audience cl /\
    (forall exp, timeClaim cvt_overflow (c_Raw cl) "exp" = Some exp -> now <= exp + jc_ClockSkew v).
Proof.
  unfold Validate, parse. destruct (jwt_decode token) as [[[isRSA kid] claims]|] eqn:Ed; [|done].
  destruct isRSA; [|done]. destruct kid as [[kid| | | | |]|]; try done. cbn [negb]. case_bool_decide as Hk; [done|].
  unfold mbnd at 1 2. destruct (getPublicKey fetch now kid c) as [[key|e] c1] eqn:Eg; [|done].
  destruct (jwt_verify key token now) as [[]|] eqn:Ev; [|done]. cbv beta iota zeta delta [mret].
  case_bool_decide as Hi; [done|]. destruct (existsb _ _) eqn:Ea; [|done]. cbn [negb].
  destruct (match timeClaim cvt_overflow claims "exp" with Some exp => exp + jc_ClockSkew v <? now | None => false end) eqn:Et; [done|].
  intros [= <- <-]. exists kid, key. cbn [c_Raw c_Issuer c_Audience]. split; [done|]. split; [done|].
  split; [by eapply getPublicKey_source|]. split; [done|]. split.
  - apply existsb_exists in Ea as (a & Ha%list_elem_of_In & ->%bool_decide_eq_true). done.
  - intros exp He. rewrite He in Et. lia.
Qed.

(** The clock skew has no effect.  The library refuses a token from the
    moment it expires, so the check that allows for the skew never decides
    anything: whatever two skews are configured, the same tokens are accepted
    with the same claims. *)
Theorem jwks_clock_skew_ignored v skew fetch now token c :
  (forall key t claims exp, jwt_verify key t now = Ok tt -> (exists r k, jwt_decode t = Ok (r, k, claims)) ->
     timeClaim cvt_overflow claims "exp" = Some exp -> now < exp) ->
  0 <= skew -> 0 <= jc_ClockSkew v ->
  check (mkConfig (jc_JwksURL v) (jc_Issuer v) (jc_Audience v) skew) fetch now token c = check v fetch now token c.
Proof.
  intros Hexp Hs Hs'. unfold Validate, parse. destruct (jwt_decode token) as [[[isRSA kid] claims]|] eqn:Ed; [|done].
  destruct isRSA; [|done]. destruct kid as [[kid| | | | |]|]; try done. cbn [negb]. case_bool_decide as Hk; [done|].
  unfold mbnd at 1 2 3 4. destruct (getPublicKey fetch now kid c) as [[key|e] c1] eqn:Eg; [|done].
  destruct (jwt_verify key token now) as [[]|] eqn:Ev; [|done]. cbv beta iota zeta delta [mret]. cbn [jc_Issuer jc_Audience jc_ClockSkew].
  assert (forall sk, 0 <= sk -> match timeClaim cvt_overflow claims "exp" with Some exp => exp + sk <? now | None => false end = false) as Hno.
  { intros sk Hsk. destruct (timeClaim cvt_overflow claims "exp") as [exp|] eqn:Et; [|done].
    pose proof (Hexp key token claims exp Ev ltac:(eauto) Et). lia. }
  by rewrite !Hno.
Qed.

(** A cached key outlives its five minutes.  The cache has one time for all
    its keys, and fetching one key resets it: a key that was cached any time
    before is then used for another five minutes without being looked up, also
    when the issuer has withdrawn it. *)
Theorem jwks_cache_revives fetch1 fetch2 now1 now2 a b key_a key_b c c' :
  a <> b -> keyCache c !! a = Some key_a ->
  keyCache c !! b = None -> getPublicKey fetch1 now1 b c = (Ok key_b, c') -> now2 - now1 < 300 * second ->
  getPublicKey fetch2 now2 a c' = (Ok key_a, c').
Proof.
  intros Hab Ha Hb Hg Hn. unfold getPublicKey in Hg. cbv zeta in Hg. rewrite Hb in Hg.
  destruct fetch1 as [keys|]; [|done]. destruct (findKey b keys) as [k|]; [|done].
  destruct (parseRSAPublicKey _ _) as [pub|]; [|done]. injection Hg as -> <-.
  unfold getPublicKey. cbv zeta. cbn [keyCache cacheTime]. rewrite lookup_insert_ne by done. rewrite Ha.
  by rewrite (proj2 (Z.ltb_lt _ _)) by lia.
Qed.
End jwks_facts.

Module jwks_run.
Import jwks.
Definition claims : gmap string anyv :=
  {[ "iss" := AString "https://id.example"; "aud" := AArray [AString "codeq"]; "exp" := ANumber (float64 2000); "tid" := AString "acme" ]}.
Definition decode (_ : string) : res (bool * option anyv * gmap string anyv) := Ok (true, Some (AString "k1"), claims).
Definition verify (_ : PublicKey) (_ : string) (now : Z) : res unit := if now <? 2000 * second then Ok tt else Err (ErrExternal "token is expired").
Definition conf : Config := mkConfig "https://id.example/jwks" "https://id.example" "codeq" (60 * second).
Definition published : res (list jwk) := Ok [mkJwk "k1" "RSA" "AQAB" "AQAB"; mkJwk "k2" "RSA" "Aw" "AQAB"].
Definition c0 : Cache := mkCache ∅ zero_time.
Definition accepted := Validate conf published (1000 * second) decode verify 0 "jwt" c0.
Definition cl : Claims := mkClaims "" "" "https://id.example" ["codeq"] (2000 * second) zero_time [] [] claims.

Lemma accepted_run : accepted = (Ok cl, snd accepted).
Proof. apply run_outcome. vm_compute. reflexivity. Qed.

(** The key of the standard exponent, cached a day ago. *)
Definition old : Cache := mkCache {[ "k1" := mkKey 65537 65537 ]} 0.
Definition day : Z := 86400 * second.
End jwks_run.

Lemma jwks_accepts_verified_witness : c_Issuer jwks_run.cl = "https://id.example" /\ "codeq" ∈ c_Audience jwks_run.cl.
Proof.
  destruct (jwks_accepts_verified jwks_run.decode jwks_run.verify 0 jwks_run.conf jwks_run.published (1000 * second) "jwt" jwks_run.c0
    jwks_run.cl (snd jwks_run.accepted) jwks_run.accepted_run) as (kid & key & _ & _ & _ & Hi & Ha & _).
  split; [exact Hi | exact Ha].
Defined.

(** One second after its expiry the token is refused, with a skew of a minute or of none. *)
Lemma jwks_clock_skew_ignored_witness :
  fst (jwks.Validate jwks_run.conf jwks_run.published (2001 * second) jwks_run.decode jwks_run.verify 0 "jwt" jwks_run.c0) =
  Err (ErrExternal "token is expired").
Proof.
  rewrite <- (jwks_clock_skew_ignored jwks_run.decode jwks_run.verify 0 jwks_run.conf 0 jwks_run.published (2001 * second) "jwt" jwks_run.c0);
    [vm_compute; reflexivity | | lia | by vm_compute].
  intros key t cls exp Hv. discriminate Hv.
Defined.

(** The endpoint no longer serves any key. *)
Lemma jwks_cache_revives_witness :
  let c := snd (jwks.getPublicKey jwks_run.published jwks_run.day "k2" jwks_run.old) in
  fst (jwks.getPublicKey (Ok []) (jwks_run.day + 299 * second) "k1" c) = Ok (jwks.mkKey 65537 65537).
Proof.
  intros c.
  assert (jwks.getPublicKey jwks_run.published jwks_run.day "k2" jwks_run.old = (Ok (jwks.mkKey 3 65537), c)) as Hg
    by (apply run_outcome; vm_compute; reflexivity).
  rewrite (jwks_cache_revives jwks_run.published (Ok []) jwks_run.day (jwks_run.day + 299 * second) "k1" "k2" (jwks.mkKey 65537 65537)
    (jwks.mkKey 3 65537) jwks_run.old c); [reflexivity | done | reflexivity | reflexivity | exact Hg | unfold second; lia].
Defined.
