(* ===== verification/Middleware.v ===== *)
(** The HTTP middleware ([src/internal/middleware]): bearer authentication of
    producers, workers and of either, the scope, role and tenant checks, and the
    rate limit by token.

    A request context holds the headers the middleware reads and what it sets.  A
    middleware passes the request on with its context, or aborts it with a status
    and a message; [chain] composes them as the router does.  [S] is the state of
    the validators, [L] that of the limiter. *)

From stdpp Require Import pretty.
From S2P Require Import Prelude GoTime Domain Keys GoText Float64 RateLimit Auth.

Record Ctx := mkCtx {
  cx_Authorization : string;
  cx_XRole : string;
  cx_workerClaims : option Claims;
  cx_userClaims : option Claims;
  cx_userEmail : string;
  cx_userRole : string;
  cx_tenantID : string;
  cx_authType : string
}.

Definition set_tenant (t : string) (c : Ctx) : Ctx :=
  mkCtx (cx_Authorization c) (cx_XRole c) (cx_workerClaims c) (cx_userClaims c) (cx_userEmail c) (cx_userRole c) t (cx_authType c).
Definition set_workerClaims (w : Claims) (c : Ctx) : Ctx :=
  mkCtx (cx_Authorization c) (cx_XRole c) (Some w) (cx_userClaims c) (cx_userEmail c) (cx_userRole c) (cx_tenantID c) (cx_authType c).
Definition set_authType (a : string) (c : Ctx) : Ctx :=
  mkCtx (cx_Authorization c) (cx_XRole c) (cx_workerClaims c) (cx_userClaims c) (cx_userEmail c) (cx_userRole c) (cx_tenantID c) a.

Inductive mw_result :=
  | Next (c : Ctx)
  | Abort (status : Z) (msg : string).

Abbreviation MW S := (Ctx -> S -> mw_result * S).

Fixpoint chain {S} (ms : list (MW S)) : MW S := fun c s =>
  match ms with
  | [] => (Next c, s)
  | m :: rest =>
      match m c s with
      | (Next c', s') => chain rest c' s'
      | (Abort status msg, s') => (Abort status msg, s')
      end
  end.

Record MwConfig := mkMwConfig { mc_Env : string; mc_AllowProducerAsWorker : bool; mc_WorkerAudience : string }.

Module middleware.

Definition adminScope : string := "codeq:admin".

(** [strings.EqualFold(s, t)] for an ASCII [t] without the letters k and s, whose
    case folding leaves ASCII. *)
Definition EqualFold (s t : string) : bool := bool_decide (ToLower s = ToLower t).

(** [strings.ToUpper]: ASCII letters; [upper] is the case mapping of texts with
    other characters. *)
Definition upByte (a : ascii) : ascii := if (97 <=? ch a) && (ch a <=? 122) then byte (ch a - 32) else a.
Fixpoint up_s (s : string) : string := match s with EmptyString => "" | String a s' => String (upByte a) (up_s s') end.
Fixpoint isASCII (s : string) : bool := match s with EmptyString => true | String a s' => (ch a <? 128) && isASCII s' end.
Definition ToUpper (upper : string -> string) (s : string) : string := if isASCII s then up_s s else upper s.

(** [strings.SplitN(s, " ", 2)] when it has two parts. *)
Fixpoint cutSpace (s : string) : option (string * string) :=
  match s with
  | EmptyString => None
  | String a s' =>
      if Ascii.eqb a " " then Some ("", s')
      else match cutSpace s' with Some (x, y) => Some (String a x, y) | None => None end
  end.

Definition GetTenantID (c : Ctx) : string := cx_tenantID c.
Definition extractTenantID (claims : Claims) : res string := authclaims.ResolveTenantID (Some claims).

Section auth.
Context {S : Type}.
Variable cfg : MwConfig.
Variable upper : string -> string.

Definition validateBearer (validator : Validator S) (authHeader : string) : M S Claims :=
  if bool_decide (TrimSpace authHeader = "") then mthrow (ErrText "missing Authorization header")
  else
    match cutSpace authHeader with
    | Some (scheme, token) =>
        if EqualFold scheme "Bearer" then validator token else mthrow (ErrText "invalid Authorization format")
    | None => mthrow (ErrText "invalid Authorization format")
    end.

Definition setProducerContext (c : Ctx) (claims : Claims) (tenantID : string) : Ctx :=
  let email := TrimSpace (c_Email claims) in
  let email := if bool_decide (email = "") then TrimSpace (c_Subject claims) else email in
  let role := match c_Raw claims !! "role" with Some (AString v) => ToUpper upper (TrimSpace v) | _ => "" end in
  let role := if bool_decide (role = "") && bool_decide (mc_Env cfg = "dev") then ToUpper upper (TrimSpace (cx_XRole c)) else role in
  let role := if bool_decide (role = "") then "USER" else role in
  mkCtx (cx_Authorization c) (cx_XRole c) (cx_workerClaims c) (Some claims) email role tenantID (cx_authType c).

Definition invalidTenant : mw_result := Abort 403 "invalid tenant claims".

Definition AuthMiddleware (validator : option (Validator S)) : MW S := fun c s =>
  match validator with
  | None => (Abort 500 "producer validator not configured", s)
  | Some validator =>
      match validateBearer validator (cx_Authorization c) s with
      | (Err e, s') => (Abort 401 (error_text e), s')
      | (Ok claims, s') =>
          match extractTenantID claims with
          | Err _ => (invalidTenant, s')
          | Ok tenantID => (Next (setProducerContext c claims tenantID), s')
          end
      end
  end.

Definition workerScopes : list string :=
  ["codeq:claim"; "codeq:heartbeat"; "codeq:abandon"; "codeq:nack"; "codeq:result"; "codeq:subscribe"].

(** The claims a producer has as a worker. *)
Definition producerAsWorker (p : Claims) : Claims :=
  mkClaims (c_Subject p) (c_Email p) "producer" [mc_WorkerAudience cfg] (c_ExpiresAt p) (c_IssuedAt p) workerScopes ["*"] (c_Raw p).

Definition withWorker (c : Ctx) (claims : Claims) : mw_result :=
  match extractTenantID claims with
  | Err _ => invalidTenant
  | Ok tenantID => Next (set_tenant tenantID (set_workerClaims claims c))
  end.

Definition WorkerAuthMiddleware (workerValidator producerValidator : option (Validator S)) : MW S := fun c s =>
  match workerValidator with
  | None => (Abort 500 "worker validator not configured", s)
  | Some worker =>
      let '(r, s1) := validateBearer worker (cx_Authorization c) s in
      let r := match r with
               | Ok claims =>
                   match c_EventTypes claims, c_Scopes claims with
                   | [], _ => Err (ErrText "missing eventTypes")
                   | _, [] => Err (ErrText "missing scope")
                   | _, _ => Ok claims
                   end
               | Err e => Err e
               end in
      match r with
      | Ok claims => (withWorker c claims, s1)
      | Err e =>
          match mc_AllowProducerAsWorker cfg, producerValidator with
          | true, Some producer =>
              match validateBearer producer (cx_Authorization c) s1 with
              | (Ok pclaims, s2) => (withWorker c (producerAsWorker pclaims), s2)
              | (Err _, s2) => (Abort 401 (error_text e), s2)
              end
          | _, _ => (Abort 401 (error_text e), s1)
          end
      end
  end.

(** The producer half of the next one. *)
Definition producerOrReject (producerValidator : option (Validator S)) : MW S := fun c s =>
  match producerValidator with
  | None => (Abort 401 "invalid token", s)
  | Some producer =>
      match validateBearer producer (cx_Authorization c) s with
      | (Err _, s') => (Abort 401 "invalid token", s')
      | (Ok claims, s') =>
          match extractTenantID claims with
          | Err _ => (invalidTenant, s')
          | Ok tenantID => (Next (set_authType "producer" (setProducerContext c claims tenantID)), s')
          end
      end
  end.

Definition AnyAuthMiddleware (workerValidator producerValidator : option (Validator S)) : MW S := fun c s =>
  match workerValidator with
  | None => producerOrReject producerValidator c s
  | Some worker =>
      match validateBearer worker (cx_Authorization c) s with
      | (Ok claims, s1) =>
          match c_EventTypes claims with
          | [] => producerOrReject producerValidator c s1
          | _ =>
              match extractTenantID claims with
              | Err _ => (invalidTenant, s1)
              | Ok tenantID => (Next (set_authType "worker" (set_tenant tenantID (set_workerClaims claims c))), s1)
              end
          end
      | (Err _, s1) => producerOrReject producerValidator c s1
      end
  end.

Definition RequireWorkerScope (scope : string) : MW S := fun c s =>
  match cx_workerClaims c with
  | None => (Abort 401 "missing worker claims", s)
  | Some claims => if HasScope (Some claims) scope then (Next c, s) else (Abort 403 "missing scope", s)
  end.

Definition isAdmin (c : Ctx) : bool :=
  match cx_userClaims c with
  | Some claims =>
      HasScope (Some claims) adminScope ||
      match c_Raw claims !! "role" with Some (AString role) => EqualFold role "ADMIN" | _ => false end
  | None => false
  end || EqualFold (cx_userRole c) "ADMIN".

Definition RequireAdmin : MW S := fun c s =>
  if isAdmin c then (Next c, s) else (Abort 401 "unauthorized. Admin only", s).
End auth.

(** ** Rate limits *)

Definition bearerToken (authHeader : string) : string :=
  match cutSpace (TrimSpace authHeader) with
  | Some (scheme, token) => if EqualFold scheme "Bearer" then TrimSpace token else ""
  | None => ""
  end.

(** The seconds of the [Retry-After] header; [cvt] is [int(f)] out of range. *)
Definition retryAfterSeconds (cvt : Z) (d : Z) : Z :=
  let n := to_int64 cvt (durationSeconds d) in if n <=? 0 then 1 else n.

(** A refusal carries the seconds to wait. *)
Inductive limit_result := Proceed | TooMany (retryAfter : Z).

Definition rateLimitBearer {L} (cvt : Z) (lim : option (Limiter L)) (scope : string) (bucket : Bucket) (authHeader : string)
  : L -> limit_result * L := fun l =>
  match lim with
  | None => (Proceed, l)
  | Some allow =>
      if negb (Enabled bucket) then (Proceed, l)
      else
        let token := bearerToken authHeader in
        if bool_decide (token = "") then (Proceed, l)
        else
          match allow scope token bucket l with
          | (Err _, l') => (Proceed, l')
          | (Ok dec, l') => (if Allowed dec then Proceed else TooMany (retryAfterSeconds cvt (RetryAfter dec)), l')
          end
  end.

Definition RateLimitProducer {L} cvt lim bucket := rateLimitBearer (L := L) cvt lim "producer" bucket.
Definition RateLimitWorkerClaim {L} cvt lim bucket := rateLimitBearer (L := L) cvt lim "worker" bucket.
Definition RateLimitAdminCleanup {L} cvt lim bucket := rateLimitBearer (L := L) cvt lim "admin" bucket.
End middleware.

(** ** What a request that passes has shown *)

Section facts.
Context {S : Type}.
Variable cfg : MwConfig.
Variable upper : string -> string.
Implicit Types (c : Ctx) (s : S) (v : Validator S).
Import middleware.

(** [v] accepts the bearer token of the header with these claims. *)
Definition accepted v (header : string) (claims : Claims) : Prop :=
  exists scheme token s1 s2, cutSpace header = Some (scheme, token) /\ EqualFold scheme "Bearer" = true /\ v token s1 = (Ok claims, s2).

Lemma validateBearer_accepted v header s claims s' : validateBearer v header s = (Ok claims, s') -> accepted v header claims.
Proof.
  unfold validateBearer. case_bool_decide; [done|]. destruct (cutSpace header) as [[scheme token]|] eqn:Ec; [|done].
  destruct (EqualFold scheme "Bearer") eqn:Ee; [|done]. intros Hv. by exists scheme, token, s, s'.
Qed.

Lemma tenant_label_ok claims t : extractTenantID claims = Ok t -> MatchString tenantPattern t = true.
Proof. by intros [Hm _]%resolve_spec. Qed.

(** A request the worker middleware passes: a worker's token with event types and
    scopes, or a producer's where that is allowed. *)
Lemma worker_passes worker producer c s c' s' :
  WorkerAuthMiddleware cfg worker producer c s = (Next c', s') ->
  exists claims, cx_workerClaims c' = Some claims /\ extractTenantID claims = Ok (GetTenantID c') /\
    ((exists v, worker = Some v /\ accepted v (cx_Authorization c) claims /\ c_EventTypes claims <> [] /\ c_Scopes claims <> []) \/
     (mc_AllowProducerAsWorker cfg = true /\ exists v pclaims, producer = Some v /\ accepted v (cx_Authorization c) pclaims /\
        claims = producerAsWorker cfg pclaims)).
Proof.
  assert (forall claims s0, (withWorker c claims, s0) = (Next c', s') ->
    cx_workerClaims c' = Some claims /\ extractTenantID claims = Ok (GetTenantID c')) as Hw.
  { intros claims s0. unfold withWorker. destruct (extractTenantID claims) as [t|]; [|done]. intros [= <- <-]. done. }
  unfold WorkerAuthMiddleware. destruct worker as [v|]; [|done].
  destruct (validateBearer v (cx_Authorization c) s) as [r s1] eqn:Ev.
  destruct (match r with Ok claims => _ | Err e => Err e end) as [claims|e] eqn:Er.
  - intros H. exists claims. destruct (Hw _ _ H) as [H1 H2]. split; [done|]. split; [done|]. left. exists v. split; [done|].
    destruct r as [cl|]; [|done]. destruct (c_EventTypes cl) eqn:Ee; [done|]. destruct (c_Scopes cl) eqn:Es; [done|].
    injection Er as ->. rewrite Ee, Es. split; [by eapply validateBearer_accepted | done].
  - destruct (mc_AllowProducerAsWorker cfg) eqn:Ea; [|done]. destruct producer as [p|]; [|done].
    destruct (validateBearer p (cx_Authorization c) s1) as [[pc|] s2] eqn:Ep; [|done]. intros H.
    exists (producerAsWorker cfg pc). destruct (Hw _ _ H) as [H1 H2]. split; [done|]. split; [done|]. right. split; [done|].
    exists p, pc. split; [done|]. split; [by eapply validateBearer_accepted | done].
Qed.

Lemma producer_passes producer c s c' s' : AuthMiddleware cfg upper producer c s = (Next c', s') ->
  exists v claims, producer = Some v /\ accepted v (cx_Authorization c) claims /\
    exists t, extractTenantID claims = Ok t /\ c' = setProducerContext cfg upper c claims t.
Proof.
  unfold AuthMiddleware. destruct producer as [v|]; [|done].
  destruct (validateBearer v (cx_Authorization c) s) as [[claims|] s1] eqn:Ev; [|done].
  destruct (extractTenantID claims) as [t|] eqn:Et; [|done]. intros [= <- <-]. exists v, claims. split; [done|].
  split; [by eapply validateBearer_accepted|]. by exists t.
Qed.

Lemma any_passes worker producer c s c' s' : AnyAuthMiddleware cfg upper worker producer c s = (Next c', s') ->
  exists v claims, (worker = Some v \/ producer = Some v) /\ accepted v (cx_Authorization c) claims /\ extractTenantID claims = Ok (GetTenantID c').
Proof.
  assert (forall s1, producerOrReject cfg upper producer c s1 = (Next c', s') ->
    exists v claims, (worker = Some v \/ producer = Some v) /\ accepted v (cx_Authorization c) claims /\
      extractTenantID claims = Ok (GetTenantID c')) as Hp.
  { intros s1. unfold producerOrReject. destruct producer as [p|]; [|done].
    destruct (validateBearer p (cx_Authorization c) s1) as [[claims|] s2] eqn:Ep; [|done].
    destruct (extractTenantID claims) as [t|] eqn:Et; [|done]. intros [= <- <-].
    exists p, claims. split; [by right|]. split; [by eapply validateBearer_accepted | done]. }
  unfold AnyAuthMiddleware. intros H. destruct worker as [w|]; [|by eapply Hp].
  destruct (validateBearer w (cx_Authorization c) s) as [[claims|] s1] eqn:Ew; [|by eapply Hp].
  destruct (c_EventTypes claims); [by eapply Hp|]. destruct (extractTenantID claims) as [t|] eqn:Et; [|done].
  injection H as <- <-. exists w, claims. split; [by left|]. split; [by eapply validateBearer_accepted | done].
Qed.

(** The tenant of a request comes from its token.  A request that passes the
    producer, the worker or the either-of-them authentication carried a bearer
    token that one of the configured validators accepts, and the tenant it runs
    under is the one those claims resolve to: a well-formed label, never a value
    of the request itself. *)
Theorem tenant_from_token worker producer c s c' s' :
  AuthMiddleware cfg upper producer c s = (Next c', s') \/
  WorkerAuthMiddleware cfg worker producer c s = (Next c', s') \/
  AnyAuthMiddleware cfg upper worker producer c s = (Next c', s') ->
  exists v claims, (worker = Some v \/ producer = Some v) /\ accepted v (cx_Authorization c) claims /\
    extractTenantID claims = Ok (GetTenantID c') /\ MatchString tenantPattern (GetTenantID c') = true.
Proof.
  intros Hpass.
  assert (exists v claims, (worker = Some v \/ producer = Some v) /\ accepted v (cx_Authorization c) claims /\
    extractTenantID claims = Ok (GetTenantID c')) as (v & claims & Hv & Ha & Ht).
  { destruct Hpass as [H|[H|H]].
    - apply producer_passes in H as (v & claims & Hv & Ha & t & Ht & ->). exists v, claims. auto.
    - apply worker_passes in H as (claims & _ & Ht & [(v & Hv & Ha & _)|(_ & v & pc & Hv & Ha & ->)]); eauto 8.
    - by eapply any_passes. }
  exists v, claims. eauto using tenant_label_ok.
Qed.

(** A worker route is only reached with its scope.  A request that passes the
    worker authentication and the scope check of a route carried a worker token
    that grants this scope and names event types; or producers may act as
    workers, the token is a producer's, and the scope is one of the six that
    stand for a worker. *)
Theorem worker_scope_guard worker producer scope c s c' s' :
  chain [WorkerAuthMiddleware cfg worker producer; RequireWorkerScope scope] c s = (Next c', s') ->
  (exists v claims, worker = Some v /\ accepted v (cx_Authorization c) claims /\ scope ∈ c_Scopes claims /\ c_EventTypes claims <> []) \/
  (mc_AllowProducerAsWorker cfg = true /\ scope ∈ workerScopes /\
   exists v claims, producer = Some v /\ accepted v (cx_Authorization c) claims).
Proof.
  cbn [chain]. destruct (WorkerAuthMiddleware cfg worker producer c s) as [[c1|] s1] eqn:Ew; [|done].
  apply worker_passes in Ew as (claims & Hc & _ & Hor). unfold RequireWorkerScope. rewrite Hc.
  destruct (HasScope (Some claims) scope) eqn:Hs; [|done]. intros _.
  cbn [HasScope] in Hs. apply existsb_exists in Hs as (x & Hx%list_elem_of_In & ->%bool_decide_eq_true).
  destruct Hor as [(v & Hv & Ha & He & _)|(Hallow & v & pc & Hv & Ha & ->)]; [left; by exists v, claims|].
  right. split; [done|]. split; [exact Hx | by exists v, pc].
Qed.

(** Outside the development environment an administrator is made by the
    token alone.  A request that passes the producer authentication and the
    administrator check carried an accepted token with the administrator scope or
    with a role that says so; the [X-Role] header decides nothing. *)
Theorem admin_from_token producer c s c' s' : mc_Env cfg <> "dev" ->
  chain [AuthMiddleware cfg upper producer; RequireAdmin] c s = (Next c', s') ->
  (exists v claims, producer = Some v /\ accepted v (cx_Authorization c) claims /\
     (adminScope ∈ c_Scopes claims \/
      exists role, c_Raw claims !! "role" = Some (AString role) /\
        (EqualFold role "ADMIN" = true \/ EqualFold (ToUpper upper (TrimSpace role)) "ADMIN" = true))) /\
  forall other, exists c'', chain [AuthMiddleware cfg upper producer; RequireAdmin]
    (mkCtx (cx_Authorization c) other (cx_workerClaims c) (cx_userClaims c) (cx_userEmail c) (cx_userRole c) (cx_tenantID c) (cx_authType c)) s = (Next c'', s').
Proof.
  intros Henv. cbn [chain]. destruct (AuthMiddleware cfg upper producer c s) as [[c1|] s1] eqn:Ea; [|done].
  pose proof Ea as (v & claims & Hv & Hacc & t & Ht & Hc1)%producer_passes.
  assert (forall x, setProducerContext cfg upper x claims t =
    mkCtx (cx_Authorization x) (cx_XRole x) (cx_workerClaims x) (Some claims) (cx_userEmail c1) (cx_userRole c1) t (cx_authType x)) as Hset.
  { intros x. subst c1. unfold setProducerContext. rewrite (bool_decide_eq_false_2 (mc_Env cfg = "dev")), !andb_false_r by done. done. }
  assert (isAdmin c1 = true -> adminScope ∈ c_Scopes claims \/ exists role, c_Raw claims !! "role" = Some (AString role) /\
    (EqualFold role "ADMIN" = true \/ EqualFold (ToUpper upper (TrimSpace role)) "ADMIN" = true)) as Hadmin.
  { subst c1. unfold isAdmin, setProducerContext. cbn [cx_userClaims cx_userRole].
    rewrite (bool_decide_eq_false_2 (mc_Env cfg = "dev")), andb_false_r by done. rewrite !orb_true_iff. intros [[Hs|Hr]|Hr].
    - left. cbn [HasScope] in Hs. apply existsb_exists in Hs as (x & Hx%list_elem_of_In & ->%bool_decide_eq_true). done.
    - right. destruct (c_Raw claims !! "role") as [[role| | | | |]|]; try done. exists role. auto.
    - right. destruct (c_Raw claims !! "role") as [[role| | | | |]|]; try done. exists role. split; [done|].
      case_bool_decide as Hu; [done | by right]. }
  destruct (RequireAdmin c1 s1) as [[c2|] s2] eqn:Er; [|done]. intros [= <- <-].
  unfold RequireAdmin in Er. destruct (isAdmin c1) eqn:Ei; [|done]. injection Er as <- <-. split; [exists v, claims; auto|].
  intros other. set (x := mkCtx _ other _ _ _ _ _ _).
  assert (AuthMiddleware cfg upper producer x s = (Next (setProducerContext cfg upper x claims t), s1)) as Hx.
  { revert Ea. unfold AuthMiddleware. subst producer. change (cx_Authorization x) with (cx_Authorization c).
    destruct (validateBearer v (cx_Authorization c) s) as [[cl|] s2] eqn:Ev; [|done]. destruct (extractTenantID cl) as [t'|] eqn:Et; [|done].
    intros [= E <-]. assert (cl = claims /\ t' = t) as [-> ->]; [|done].
    rewrite Hc1 in E. unfold setProducerContext in E. by injection E as -> _ _ ->. }
  rewrite Hx. unfold RequireAdmin. rewrite Hset. replace (isAdmin _) with (isAdmin c1); [rewrite Ei; by eexists|].
  rewrite Hc1, Hset. done.
Qed.
End facts.

Module mw_run.
Definition cfg : MwConfig := mkMwConfig "prod" false "codeq-worker".
Definition worker : Validator unit :=
  static.Validate (static.mkStatic "w-token" "w1" "" ["codeq:claim"] ["*"] {[ "tid" := AString "acme" ]}).
Definition producer : Validator unit :=
  static.Validate (static.mkStatic "p-token" "p1" "" ["codeq:admin"] [] {[ "tid" := AString "acme" ]}).
Definition req (authorization : string) : Ctx := mkCtx authorization "ADMIN" None None "" "" "" "".
End mw_run.

Lemma tenant_from_token_witness :
  exists c', middleware.AuthMiddleware mw_run.cfg (fun s => s) (Some mw_run.producer) (mw_run.req "bearer  p-token") tt = (Next c', tt) /\
    MatchString tenantPattern (middleware.GetTenantID c') = true.
Proof.
  destruct (middleware.AuthMiddleware mw_run.cfg (fun s => s) (Some mw_run.producer) (mw_run.req "bearer  p-token") tt) as [[c'|st msg] []] eqn:E;
    [|exfalso; apply (f_equal fst) in E; revert E; vm_compute; discriminate].
  exists c'. split; [reflexivity|].
  destruct (tenant_from_token mw_run.cfg (fun s => s) (Some mw_run.worker) (Some mw_run.producer) (mw_run.req "bearer  p-token") tt c' tt)
    as (_ & _ & _ & _ & _ & Hm); [by left | exact Hm].
Defined.

Lemma worker_scope_guard_witness :
  exists claims, accepted mw_run.worker "Bearer w-token" claims /\ "codeq:claim" ∈ c_Scopes claims.
Proof.
  set (c := mw_run.req "Bearer w-token").
  destruct (chain [middleware.WorkerAuthMiddleware mw_run.cfg (Some mw_run.worker) None; middleware.RequireWorkerScope "codeq:claim"] c tt)
    as [[c'|st msg] []] eqn:E; [|exfalso; apply (f_equal fst) in E; revert E; vm_compute; discriminate].
  destruct (worker_scope_guard mw_run.cfg (Some mw_run.worker) None "codeq:claim" c tt c' tt E)
    as [(v & claims & [= <-] & Ha & Hs & _)|(? & _)]; [by exists claims | done].
Defined.

(** An administrator's request passes whatever its [X-Role] header says. *)
Lemma admin_from_token_witness :
  exists c'', chain [middleware.AuthMiddleware mw_run.cfg (fun s => s) (Some mw_run.producer); middleware.RequireAdmin]
    (mkCtx "Bearer p-token" "USER" None None "" "" "" "") tt = (Next c'', tt).
Proof.
  set (c := mw_run.req "Bearer p-token").
  destruct (chain [middleware.AuthMiddleware mw_run.cfg (fun s => s) (Some mw_run.producer); middleware.RequireAdmin] c tt)
    as [[c'|st msg] []] eqn:E; [|exfalso; apply (f_equal fst) in E; revert E; vm_compute; discriminate].
  destruct (admin_from_token mw_run.cfg (fun s => s) (Some mw_run.producer) c tt c' tt) as [_ Hx]; [done | exact E|].
  exact (Hx "USER").
Defined.
