(* ===== verification/IdentityMW.v ===== *)
(** The bundled token validator ([src/internal/identitymw/validator.go]), which
    keeps the whole published key set and checks RS256 signatures itself.

    The JSON decoder, the transport and the signature check of the libraries are
    arguments; so are the three readings of the clock of one call. *)

From Stdlib Require Import SpecFloat.
From S2P Require Import Prelude GoTime Domain Keys GoText Float64 RateLimit Auth Middleware.
Import jwks.

Module identity.

Record Config := mkIdConfig { ic_JwksURL : string; ic_Issuer : string; ic_Audience : string; ic_ClockSkew : Z; ic_HTTPTimeout : Z }.
Record Validator := mkIdValidator { iv_cfg : Config; iv_keys : gmap string PublicKey; iv_fetch : Z }.

Definition jwksRefreshInterval : Z := 300 * second.

Definition NewValidator (cfg : Config) : res Validator :=
  if bool_decide (TrimSpace (ic_JwksURL cfg) = "") then Err (ErrText "jwks url is required")
  else Ok (mkIdValidator (mkIdConfig (ic_JwksURL cfg) (ic_Issuer cfg) (ic_Audience cfg) (ic_ClockSkew cfg)
             (if ic_HTTPTimeout cfg <=? 0 then 5 * second else ic_HTTPTimeout cfg)) ∅ zero_time).

(** ** Keys *)

Definition rsaPublicKeyFromJWKS (nB64 eB64 : string) : res PublicKey :=
  match decodeRawURL nB64 with
  | Err e => Err e
  | Ok nb =>
      match decodeRawURL eB64 with
      | Err e => Err e
      | Ok eb =>
          let n := bigEndian 0 nb in
          let e := wrap64 (bigEndian 0 eb) in
          if (n <=? 0) || (e <=? 0) then Err (ErrText "invalid jwk") else Ok (mkKey n e)
      end
  end.

Section validator.
(** The case mapping of other than ASCII text. *)
Variable upper : string -> string.
(** The key set the endpoint serves, or the error of the request, of its status
    or of decoding it. *)
Variable fetch : res (list jwk).
(** The time of the cache check, of the end of a fetch, and of the claims. *)
Variables now fetched_at checked_at : Z.
Variable unmarshal : string -> res (gmap string anyv).
(** [rsa.VerifyPKCS1v15] of the SHA-256 digest of a text. *)
Variable verifyRS256 : PublicKey -> string -> string -> bool.
Variable cvt_overflow : Z.

Fixpoint keysOf (l : list jwk) (keys : gmap string PublicKey) : gmap string PublicKey :=
  match l with
  | [] => keys
  | k :: rest =>
      keysOf rest
        (if bool_decide (middleware.ToUpper upper (jw_Kty k) <> "RSA") then keys
         else match rsaPublicKeyFromJWKS (jw_N k) (jw_E k) with
              | Err _ => keys
              | Ok pub => if bool_decide (TrimSpace (jw_Kid k) = "") then keys else <[jw_Kid k := pub]> keys
              end)
  end.

Definition refresh : M Validator unit := fun v =>
  match fetch with
  | Err e => (Err e, v)
  | Ok l => (Ok tt, mkIdValidator (iv_cfg v) (keysOf l ∅) fetched_at)
  end.

Definition publicKeyForKID (kid : string) : M Validator PublicKey := fun v =>
  if bool_decide (TrimSpace kid = "") then (Err (ErrText "missing kid"), v)
  else match iv_keys v !! kid with
       | Some k =>
           if negb (iv_fetch v =? zero_time) && (now - iv_fetch v <? jwksRefreshInterval) then (Ok k, v)
           else match refresh v with
                | (Err _, v') => (Ok k, v')
                | (Ok _, v') => (Ok (default k (iv_keys v' !! kid)), v')
                end
       | None =>
           match refresh v with
           | (Err e, v') => (Err e, v')
           | (Ok _, v') => (match iv_keys v' !! kid with Some k => Ok k | None => Err (ErrText "unknown kid") end, v')
           end
       end.

(** ** Tokens *)

(** [strings.Split(token, ".")]. *)
Definition split_dot (s : string) : list string := splitN s "." (S (String.length s)).

(** Header, payload, signature and the signed text. *)
Definition splitJWT (token : string) : res (string * string * string * string) :=
  match split_dot token with
  | [h; p; sg] =>
      match decodeRawURL h with
      | Err _ => Err (ErrText "invalid token header")
      | Ok header =>
          match decodeRawURL p with
          | Err _ => Err (ErrText "invalid token payload")
          | Ok payload =>
              match decodeRawURL sg with
              | Err _ => Err (ErrText "invalid token signature")
              | Ok sig => Ok (header, payload, sig, h +:+ "." +:+ p)
              end
          end
      end
  | _ => Err (ErrText "invalid token format")
  end.

Definition stringOf (m : gmap string anyv) (key : string) : string := match m !! key with Some (AString s) => s | _ => "" end.

Definition parseHeader (b : string) : res (string * string) :=
  match unmarshal b with Err _ => Err (ErrText "invalid header") | Ok h => Ok (stringOf h "kid", stringOf h "alg") end.

Definition parsePayload (b : string) : res (gmap string anyv) :=
  match unmarshal b with Err _ => Err (ErrText "invalid claims") | Ok p => Ok p end.

Definition nonBlank (l : list anyv) : list string :=
  omap (fun it => match it with AString s => if bool_decide (TrimSpace s = "") then None else Some s | _ => None end) l.

Definition extractAudience (v : option anyv) : list string :=
  match v with
  | Some (AString x) => if bool_decide (TrimSpace x = "") then [] else [x]
  | Some (AArray l) => nonBlank l
  | _ => []
  end.

(** A decoded number is a [float64]. *)
Definition extractInt64 (v : option anyv) : option Z := match v with Some (ANumber f) => Some (to_int64 cvt_overflow f) | _ => None end.

Definition extractStringSlice (v : option anyv) : list string := match v with Some (AArray l) => nonBlank l | _ => [] end.

(** [int64(d.Seconds())]: the seconds are a [float64]. *)
Definition skewSeconds (d : Z) : Z :=
  to_int64 cvt_overflow (fadd (float64 (Z.quot d second)) (fdiv (float64 (Z.rem d second)) (float64 second))).

Definition validateRegistered (cfg : Config) (raw : gmap string anyv) : option error :=
  let now := checked_at / second in
  let skew := skewSeconds (ic_ClockSkew cfg) in
  if bool_decide (ic_Issuer cfg <> "") && bool_decide (stringOf raw "iss" <> ic_Issuer cfg) then Some (ErrText "invalid issuer")
  else if bool_decide (ic_Audience cfg <> "") && negb (existsb (fun a => bool_decide (a = ic_Audience cfg)) (extractAudience (raw !! "aud"))) then
    Some (ErrText "invalid audience")
  else match extractInt64 (raw !! "exp") with
       | None => Some (ErrText "missing exp")
       | Some exp =>
           if wrap64 (exp + skew) <? now then Some (ErrText "token expired")
           else match extractInt64 (raw !! "iat") with
                | Some iat => if wrap64 (now + skew) <? iat then Some (ErrText "token used before issued") else None
                | None => None
                end
       end.

Definition materializeClaims (raw : gmap string anyv) : Claims :=
  mkClaims (stringOf raw "sub") (stringOf raw "email") (stringOf raw "iss") (extractAudience (raw !! "aud"))
    (default 0 (extractInt64 (raw !! "exp"))) (default 0 (extractInt64 (raw !! "iat")))
    (if bool_decide (TrimSpace (stringOf raw "scope") <> "") then Fields (stringOf raw "scope") else extractStringSlice (raw !! "scopes"))
    (extractStringSlice (raw !! "eventTypes")) raw.

Definition Validate (token : string) : M Validator Claims :=
  match splitJWT token with
  | Err e => mthrow e
  | Ok (h, p, sig, signingInput) =>
      match parseHeader h with
      | Err e => mthrow e
      | Ok (kid, alg) =>
          if bool_decide (alg <> "RS256") then mthrow (ErrText "unsupported alg")
          else
            let! pub := publicKeyForKID kid in
            if negb (verifyRS256 pub signingInput sig) then mthrow (ErrText "invalid signature")
            else match parsePayload p with
                 | Err e => mthrow e
                 | Ok raw =>
                     let! v := mget in
                     match validateRegistered (iv_cfg v) raw with
                     | Some e => mthrow e
                     | None => mret (materializeClaims raw)
                     end
                 end
      end
  end.
End validator.
End identity.
Import identity.

Section facts.
Variable upper : string -> string.
Variable unmarshal : string -> res (gmap string anyv).
Variable verifyRS256 : PublicKey -> string -> string -> bool.
Variable cvt_overflow : Z.

(** The key of [kid] the endpoint publishes. *)
Definition published (fetch : res (list jwk)) (kid : string) : option PublicKey :=
  match fetch with Ok l => keysOf upper l ∅ !! kid | Err _ => None end.

(** A key comes from the cache or from the endpoint, and from the endpoint when
    it publishes one and the cache is stale. *)
Lemma publicKeyForKID_source fetch now at_ kid v k v' : publicKeyForKID upper fetch now at_ kid v = (Ok k, v') ->
  TrimSpace kid <> "" /\ iv_cfg v' = iv_cfg v /\
  (iv_keys v !! kid = Some k /\ (iv_fetch v <> zero_time /\ now - iv_fetch v < jwksRefreshInterval \/ published fetch kid = None) \/ published fetch kid = Some k).
Proof.
  unfold publicKeyForKID, refresh, published. case_bool_decide as Hk; [done|]. destruct (iv_keys v !! kid) as [c|] eqn:Ec.
  - destruct (Z.eqb_spec (iv_fetch v) zero_time), (Z.ltb_spec (now - iv_fetch v) jwksRefreshInterval); cbn [negb andb]; destruct fetch as [l|err]; cbn;
      intros [= <- <-]; cbn; split_and!; auto; destruct (keysOf upper l ∅ !! kid); auto.
  - destruct fetch as [l|e]; [|done]. cbn. destruct (keysOf upper l ∅ !! kid); [|done]. intros [= <- <-]. auto.
Qed.

(** The skew is read in whole seconds. *)
Lemma skewSeconds_whole n : 0 <= n < 2 ^ 33 -> skewSeconds cvt_overflow (n * second) = n.
Proof.
  intros Hn. unfold skewSeconds. rewrite Z.quot_mul, Z.rem_mul by done. replace (fdiv (float64 0) (float64 second)) with (float64 0) by (vm_compute; reflexivity).
  rewrite fadd_int by (unfold safe_int; lia). rewrite Z.add_0_r. apply to_int64_int. unfold safe_int. lia.
Qed.

(** An accepted token was signed with RS256 by a cached or published key, is for
    the configured issuer and audience, carries an expiry that has not passed
    and was not issued in the future, up to the skew. *)
Theorem identity_accepts_verified fetch now at_ checked token v c v' :
  Validate upper fetch now at_ checked unmarshal verifyRS256 cvt_overflow token v = (Ok c, v') ->
  exists header payload sig input kid raw k exp,
    splitJWT token = Ok (header, payload, sig, input) /\ parseHeader unmarshal header = Ok (kid, "RS256") /\
    verifyRS256 k input sig = true /\ (iv_keys v !! kid = Some k \/ published fetch kid = Some k) /\
    unmarshal payload = Ok raw /\ c = materializeClaims cvt_overflow raw /\
    (ic_Issuer (iv_cfg v) = "" \/ c_Issuer c = ic_Issuer (iv_cfg v)) /\ (ic_Audience (iv_cfg v) = "" \/ ic_Audience (iv_cfg v) ∈ c_Audience c) /\
    extractInt64 cvt_overflow (raw !! "exp") = Some exp /\ checked / second <= wrap64 (exp + skewSeconds cvt_overflow (ic_ClockSkew (iv_cfg v))) /\
    (forall iat, extractInt64 cvt_overflow (raw !! "iat") = Some iat -> iat <= wrap64 (checked / second + skewSeconds cvt_overflow (ic_ClockSkew (iv_cfg v)))).
Proof.
  unfold Validate. destruct (splitJWT token) as [[[[h p] sig] input]|e]; [|done]. destruct (parseHeader unmarshal h) as [[kid alg]|e] eqn:Eh; [|done].
  case_bool_decide as Ha; [done|]. subst alg. unfold mbnd, mget.
  destruct (publicKeyForKID upper fetch now at_ kid v) as [[k|e] v1] eqn:Ek; [|done]. apply publicKeyForKID_source in Ek as (_ & Ecfg & Hk).
  destruct (verifyRS256 k input sig) eqn:Ev; [|done]. cbn [negb]. unfold parsePayload. destruct (unmarshal p) as [raw|e] eqn:Ep; [|done].
  destruct (validateRegistered checked cvt_overflow (iv_cfg v1) raw) eqn:Er; [done|]. intros [= <- <-]. unfold validateRegistered in Er. rewrite Ecfg in Er.
  destruct (bool_decide (ic_Issuer _ <> "") && _) eqn:Ei; [done|]. destruct (bool_decide (ic_Audience _ <> "") && _) eqn:Ead; [done|].
  destruct (extractInt64 cvt_overflow (raw !! "exp")) as [exp|] eqn:Ee; [|done]. destruct (Z.ltb_spec (wrap64 (exp + skewSeconds cvt_overflow (ic_ClockSkew (iv_cfg v)))) (checked / second)); [done|].
  exists h, p, sig, input, kid, raw, k, exp. split_and!; try done.
  - destruct Hk as [[Hk _]|Hk]; auto.
  - apply andb_false_iff in Ei as [Ei|Ei]; apply bool_decide_eq_false, dec_stable in Ei; auto.
  - apply andb_false_iff in Ead as [Ead|Ead]; [apply bool_decide_eq_false, dec_stable in Ead; auto|]. apply negb_false_iff, existsb_exists in Ead as (a & Hin & Ea%bool_decide_eq_true).
    subst a. right. by apply list_elem_of_In.
  - intros iat Eiat. rewrite Eiat in Er. destruct (Z.ltb_spec (wrap64 (checked / second + skewSeconds cvt_overflow (ic_ClockSkew (iv_cfg v)))) iat); [done | lia].
Qed.

(** A refresh forgets the keys that are no longer published: after it a
    withdrawn key is not cached, although this one call still returns it. *)
Lemma withdrawn_key fetch l now at_ kid v k : fetch = Ok l -> TrimSpace kid <> "" -> iv_keys v !! kid = Some k ->
  jwksRefreshInterval <= now - iv_fetch v -> published fetch kid = None ->
  exists v', publicKeyForKID upper fetch now at_ kid v = (Ok k, v') /\ iv_keys v' !! kid = None.
Proof.
  intros -> Hk Ek Hstale Hp. unfold publicKeyForKID. rewrite bool_decide_eq_false_2, Ek by done. cbn in Hp.
  destruct (Z.ltb_spec (now - iv_fetch v) jwksRefreshInterval); [lia|]. rewrite andb_false_r. cbn. rewrite Hp. by eexists.
Qed.
End facts.

(** A token of key [k1], accepted with the published key and refused later. *)
Module identity_run.
Definition claims : gmap string anyv := {[ "iss" := AString "idp"; "aud" := AArray [AString "codeq"]; "exp" := ANumber (float64 2000); "scope" := AString "a b" ]}.
Definition unmarshal (s : string) : res (gmap string anyv) :=
  if bool_decide (s = "h") then Ok {[ "kid" := AString "k1"; "alg" := AString "RS256" ]} else Ok claims.
Definition conf : Config := mkIdConfig "https://idp/jwks" "idp" "codeq" (30 * second) 0.
Definition run (now : Z) : res Claims :=
  match NewValidator conf with
  | Ok v => fst (Validate id (Ok [mkJwk "k1" "rsa" "AQAB" "AQAB"]) now now now unmarshal (fun k input _ => (pk_N k =? 65537) && bool_decide (input = "aA.cA")) 0 "aA.cA.cw" v)
  | Err e => Err e
  end.

Lemma identity_accepts_run :
  run (1000 * second) = Ok (mkClaims "" "" "idp" ["codeq"] 2000 0 ["a"; "b"] [] claims) /\ is_ok (run (2030 * second)) = true /\
  run (2031 * second) = Err (ErrText "token expired").
Proof. vm_compute. split_and!; reflexivity. Qed.
End identity_run.
