(* ===== verification/Backoff.v ===== *)
(** Retry delays ([src/internal/backoff/backoff.go]).

    [Compute] multiplies in [float64] and converts back to [int].  Multiplying
    by a power of two is exact, so the only rounding is that of
    [float64(baseSeconds)]; a product outside the [int64] range converts to a
    value the Go specification leaves to the implementation, the parameter
    [cvt_overflow].  [rng.Intn] is the argument [intn]; it panics on a
    non-positive bound.  [seed1] is the generator the code makes when it is
    given none. *)

From S2P Require Import Prelude.

(** [float64(n)] for a positive [int]: 53 significant bits, ties to even. *)
Definition float64_of_int (n : Z) : Z :=
  let e := Z.log2 n - 52 in
  if e <=? 0 then n
  else
    let q := n / 2 ^ e in
    let r := n mod 2 ^ e in
    let up := (2 ^ (e - 1) <? r) || ((r =? 2 ^ (e - 1)) && Z.odd q) in
    (if up then q + 1 else q) * 2 ^ e.

Section backoff.
Variable cvt_overflow : Z.

(** [int(float64(baseSeconds) * math.Pow(2, float64(attempts)))]: infinite,
    and so out of range, from [2^1024] on. *)
Definition exp_delay (baseSeconds attempts : Z) : Z :=
  if 1024 <=? attempts then cvt_overflow
  else
    let v := float64_of_int baseSeconds * 2 ^ attempts in
    if v <=? MaxInt64 then v else cvt_overflow.

Variable seed1 : Z -> Z.

Definition Intn (intn : Z -> Z) (n : Z) : res Z :=
  if n <=? 0 then Err (Panic "invalid argument to Intn") else Ok (intn n).

Definition Compute (policy : string) (baseSeconds maxSeconds attempts : Z)
  (rng : option (Z -> Z)) : res Z :=
  let attempts := if attempts <? 0 then 0 else attempts in
  let baseSeconds := if baseSeconds <=? 0 then 1 else baseSeconds in
  let maxSeconds := if maxSeconds <=? 0 then baseSeconds else maxSeconds in
  let intn := default seed1 rng in
  if bool_decide (policy = "fixed") then Ok (Z.min baseSeconds maxSeconds)
  else if bool_decide (policy = "linear") then
    Ok (Z.min (wrap64 (baseSeconds * Z.max 1 attempts)) maxSeconds)
  else if bool_decide (policy = "exponential") then
    Ok (Z.min (exp_delay baseSeconds attempts) maxSeconds)
  else if bool_decide (policy = "exp_equal_jitter") then
    let maxDelay := Z.min (exp_delay baseSeconds attempts) maxSeconds in
    let half := Z.quot maxDelay 2 in
    match Intn intn (wrap64 (half + 1)) with
    | Ok j => Ok (wrap64 (half + j))
    | Err e => Err e
    end
  else
    let maxDelay := Z.min (exp_delay baseSeconds attempts) maxSeconds in
    if maxDelay <=? 0 then Ok 0 else Intn intn (wrap64 (maxDelay + 1)).
End backoff.

(** ** Properties *)

Lemma float64_of_int_small n : 0 < n < 2 ^ 53 -> float64_of_int n = n.
Proof.
  intros H. unfold float64_of_int.
  assert (Z.log2 n < 53) by (apply Z.log2_lt_pow2; lia).
  by rewrite (proj2 (Z.leb_le _ 0)) by lia.
Qed.

Lemma exp_delay_exact cvt base a :
  0 < base < 2 ^ 53 -> 0 <= a -> base * 2 ^ a <= MaxInt64 -> exp_delay cvt base a = base * 2 ^ a.
Proof.
  intros Hb Ha Hm. unfold exp_delay. rewrite float64_of_int_small by done.
  assert (a < 1024).
  { destruct (Z.lt_ge_cases a 1024) as [|Hge]; [done|exfalso].
    pose proof (Z.pow_le_mono_r 2 1024 a ltac:(lia) Hge).
    assert (MaxInt64 < 2 ^ 1024) by (vm_compute; reflexivity). nia. }
  rewrite (proj2 (Z.leb_gt _ _)), (proj2 (Z.leb_le _ _)) by lia. done.
Qed.

(** A generator in the documented range: [0 <= Intn(n) < n]. *)
Definition intn_ok (f : Z -> Z) : Prop := forall n, 0 < n -> 0 <= f n < n.

(** The delay that the jitter is drawn from. *)
Definition policy_ceiling (policy : string) (base maxS a : Z) : Z :=
  if bool_decide (policy = "fixed") then Z.min base maxS
  else if bool_decide (policy = "linear") then Z.min (base * Z.max 1 a) maxS
  else Z.min (base * 2 ^ a) maxS.

Lemma quot2_bounds n : 0 <= n -> 0 <= Z.quot n 2 <= n /\ n - 1 <= 2 * Z.quot n 2 <= n.
Proof. intros H. rewrite Z.quot_div_nonneg by lia. Z.to_euclidean_division_equations. lia. Qed.

Lemma Intn_ok f n j : intn_ok f -> 0 < n -> Intn f n = Ok j -> 0 <= j < n.
Proof.
  intros Hf Hn. unfold Intn. rewrite (proj2 (Z.leb_gt _ _)) by lia.
  intros H. injection H as <-. by apply Hf.
Qed.

Lemma Intn_total f n : 0 < n -> Intn f n = Ok (f n).
Proof. intros Hn. unfold Intn. by rewrite (proj2 (Z.leb_gt _ _)) by lia. Qed.

(** While the product stays in range, [Compute] returns a delay between zero
    and the policy's ceiling; without jitter it is the ceiling, with equal
    jitter it is at least half of it. *)
Theorem Compute_in_range cvt seed1 policy base maxS a rng :
  intn_ok seed1 -> (forall f, rng = Some f -> intn_ok f) ->
  0 < base < 2 ^ 53 -> 0 < maxS < 2 ^ 62 -> 0 <= a ->
  base * 2 ^ a <= MaxInt64 -> base * Z.max 1 a <= MaxInt64 ->
  exists d, Compute cvt seed1 policy base maxS a rng = Ok d /\
    0 <= d <= policy_ceiling policy base maxS a /\
    (policy = "fixed" \/ policy = "linear" \/ policy = "exponential" ->
       d = policy_ceiling policy base maxS a) /\
    (policy = "exp_equal_jitter" -> policy_ceiling policy base maxS a <= 2 * d + 1).
Proof.
  intros Hseed Hrng Hb Hm Ha He Hl. unfold Compute, policy_ceiling.
  rewrite (proj2 (Z.ltb_ge a 0)), (proj2 (Z.leb_gt base 0)), (proj2 (Z.leb_gt maxS 0)) by lia.
  assert (intn_ok (default seed1 rng)) as Hok by (destruct rng; simpl; auto).
  assert (0 < base * 2 ^ a) by (apply Z.mul_pos_pos; [lia | apply Z.pow_pos_nonneg; lia]).
  assert (0 < base * Z.max 1 a) by nia.
  rewrite exp_delay_exact by done.
  rewrite wrap64_id by (unfold MinInt64, MaxInt64 in *; lia).
  set (D := Z.min (base * 2 ^ a) maxS). assert (0 < D < 2 ^ 62) as HD by lia.
  pose proof (quot2_bounds D ltac:(lia)) as [HQ HQ2].
  assert (wrap64 (Z.quot D 2 + 1) = Z.quot D 2 + 1) as Hw1
    by (apply wrap64_id; unfold MinInt64, MaxInt64 in *; lia).
  assert (wrap64 (D + 1) = D + 1) as Hw2 by (apply wrap64_id; unfold MinInt64, MaxInt64 in *; lia).
  repeat case_bool_decide; subst; try (eexists; split; [done|]; fin).
  - rewrite Hw1. rewrite Intn_total by lia.
    pose proof (Hok (Z.quot D 2 + 1) ltac:(lia)).
    eexists. split; [done|]. rewrite wrap64_id by (unfold MinInt64, MaxInt64 in *; lia).
    fin.
  - rewrite (proj2 (Z.leb_gt D 0)), Hw2, Intn_total by lia.
    pose proof (Hok (D + 1) ltac:(lia)). eexists. split; [done|]. fin.
Qed.

Lemma Compute_in_range_witness :
  exists d, Compute MinInt64 (fun _ => 0) "exp_full_jitter" 5 900 4 (Some (fun n => n - 1)) = Ok d /\ 0 <= d <= 80.
Proof.
  destruct (Compute_in_range MinInt64 (fun _ => 0) "exp_full_jitter" 5 900 4 (Some (fun n => n - 1)))
    as (d & Hd & Hr & _); try (unfold MaxInt64; lia).
  - intros n Hn. lia.
  - intros f [= <-] n Hn. lia.
  - exists d. split; [exact Hd | exact Hr].
Defined.

(** Where an out-of-range conversion yields the most negative integer (amd64),
    the equal-jitter policy panics once the product overflows. *)
Theorem Compute_equal_jitter_panics seed1 base maxS a rng :
  0 < base < 2 ^ 53 -> 0 < maxS -> 0 <= a -> MaxInt64 < base * 2 ^ a ->
  Compute MinInt64 seed1 "exp_equal_jitter" base maxS a rng =
    Err (Panic "invalid argument to Intn").
Proof.
  intros Hb Hm Ha Ho. unfold Compute.
  rewrite (proj2 (Z.ltb_ge a 0)), (proj2 (Z.leb_gt base 0)), (proj2 (Z.leb_gt maxS 0)) by lia.
  assert (exp_delay MinInt64 base a = MinInt64) as ->.
  { unfold exp_delay. rewrite float64_of_int_small by done.
    destruct (1024 <=? a); [done|]. by rewrite (proj2 (Z.leb_gt _ _)) by lia. }
  rewrite (Z.min_l MinInt64) by (unfold MinInt64; lia). reflexivity.
Qed.

Lemma Compute_equal_jitter_panics_witness :
  Compute MinInt64 (fun _ => 0) "exp_equal_jitter" 5 900 61 None = Err (Panic "invalid argument to Intn").
Proof. apply Compute_equal_jitter_panics; vm_compute; try done; by intuition discriminate. Defined.
