(* ===== verification/TaskRepo.v ===== *)
(** The Pebble task repository ([src/internal/repository/pebble/task_repository.go]
    and the recovery part of [lease_table.go]): definitions.

    [Repo] is the repository object: the [DB] handle and the volatile state
    beside it (claim channels, delayed counters, sweep flags, reconcile
    timestamps).  Every exported method is one computation over it, with the
    reads, guards, batch and in-memory updates in the order of the source.
    The instant [now] at which a call runs is an argument; a method that reads
    the clock more than once reads the same instant.  Metrics and tracing are
    not modelled. *)

From stdpp Require Import pretty.
From S2P Require Import Prelude GoTime Domain Keys LeaseTable PebbleDB Backoff.

(** ** Constants *)

Definition channelBufferSize : Z := 100000.
Definition minPriority : Z := 0.
Definition maxPriority : Z := 9.
Definition taskRetention : Z := 24 * 3600 * second.
Definition defaultInspectLimit : Z := 200.
Definition defaultReconcileInterval : Z := 500 * millisecond.

Definition normalizePriority (p : Z) : Z :=
  if p <? minPriority then minPriority else if maxPriority <? p then maxPriority else p.

(** The priorities a claim walks, highest first. *)
Definition priorities : list Z := [9; 8; 7; 6; 5; 4; 3; 2; 1; 0].

(** ** State *)

Record pendingHint := mkHint { h_seq : Z; h_id : string }.

#[export] Instance pendingHint_eq_dec : EqDecision pendingHint.
Proof. solve_decision. Defined.

Record Repo (P : Type) := mkRepo {
  r_db : DB P;
  r_policy : string;
  r_base : Z;
  r_max : Z;
  r_interval : Z;
  r_last : gmap string Z;
  r_queues : gmap string (list pendingHint);
  r_delayed : gmap string Z;
  r_flags : gset string
}.
Arguments mkRepo {P}.
Arguments r_db {P}.
Arguments r_policy {P}.
Arguments r_base {P}.
Arguments r_max {P}.
Arguments r_interval {P}.
Arguments r_last {P}.
Arguments r_queues {P}.
Arguments r_delayed {P}.
Arguments r_flags {P}.

Definition nul : string := String Ascii.zero "".

(** The names under which the volatile maps are indexed. *)
Definition queueKey (cmd tenantID : string) (prio : Z) : string :=
  cmdSeg cmd +:+ nul +:+ tenantSeg tenantID +:+ nul +:+ pretty prio.
Definition countKey (cmd tenantID : string) : string :=
  cmdSeg cmd +:+ nul +:+ tenantSeg tenantID.
Definition reconcileKey (cmd tenantID : string) : string := cmd +:+ nul +:+ tenantID.

Section state.
Context {P : Type}.

Definition set_db (d : DB P) (r : Repo P) : Repo P :=
  mkRepo d (r_policy r) (r_base r) (r_max r) (r_interval r) (r_last r) (r_queues r)
    (r_delayed r) (r_flags r).
Definition set_last (l : gmap string Z) (r : Repo P) : Repo P :=
  mkRepo (r_db r) (r_policy r) (r_base r) (r_max r) (r_interval r) l (r_queues r)
    (r_delayed r) (r_flags r).
Definition set_queues (q : gmap string (list pendingHint)) (r : Repo P) : Repo P :=
  mkRepo (r_db r) (r_policy r) (r_base r) (r_max r) (r_interval r) (r_last r) q
    (r_delayed r) (r_flags r).
Definition set_delayed (c : gmap string Z) (r : Repo P) : Repo P :=
  mkRepo (r_db r) (r_policy r) (r_base r) (r_max r) (r_interval r) (r_last r) (r_queues r)
    c (r_flags r).
Definition set_flags (f : gset string) (r : Repo P) : Repo P :=
  mkRepo (r_db r) (r_policy r) (r_base r) (r_max r) (r_interval r) (r_last r) (r_queues r)
    (r_delayed r) f.

(** Run a [DB] method; update the lease table. *)
Definition db {A} (m : M (DB P) A) : M (Repo P) A := mlift r_db set_db m.
Definition leases_mod (f : gmap string leaseEntry -> gmap string leaseEntry) : M (Repo P) unit :=
  mmod (fun r => set_db (set_leases (f (db_leases (r_db r))) (r_db r)) r).

(** ** Channels and counters *)

(** A buffered channel: its queued hints, oldest first. *)
Definition channel (r : Repo P) (k : string) : list pendingHint := default [] (r_queues r !! k).

(** Non-blocking send: [true] when the hint was queued, dropped when full. *)
Definition send (k : string) (h : pendingHint) : M (Repo P) bool := fun r =>
  let q := channel r k in
  if Z.of_nat (length q) <? channelBufferSize then
    (Ok true, set_queues (<[k := q ++ [h]]> (r_queues r)) r)
  else (Ok false, r).

(** Non-blocking receive. *)
Definition recv (k : string) : M (Repo P) (option pendingHint) := fun r =>
  match channel r k with
  | [] => (Ok None, r)
  | h :: q => (Ok (Some h), set_queues (<[k := q]> (r_queues r)) r)
  end.

Definition publishPending (cmd tenantID : string) (prio seq : Z) (id : string) : M (Repo P) unit :=
  let! _ := send (queueKey cmd tenantID prio) (mkHint seq id) in mret tt.

Definition delayedCounter (cmd tenantID : string) (r : Repo P) : Z :=
  default 0 (r_delayed r !! countKey cmd tenantID).

Definition delayedAdd (cmd tenantID : string) (n : Z) : M (Repo P) unit := fun r =>
  (Ok tt, set_delayed (<[countKey cmd tenantID := delayedCounter cmd tenantID r + n]> (r_delayed r)) r).

(** [reconcileTracker.shouldRun] at clock reading [now]. *)
Definition shouldRun (now : Z) (cmd tenantID : string) : M (Repo P) bool := fun r =>
  if r_interval r <=? 0 then (Ok true, r)
  else
    let key := reconcileKey cmd tenantID in
    let last := default 0 (r_last r !! key) in
    if now - r_interval r <? last then (Ok false, r)
    else (Ok true, set_last (<[key := now]> (r_last r)) r).
End state.

Definition wrap_err {S A} (msg : string) (m : M S A) : M S A := fun s =>
  match m s with
  | (Err e, s') => (Err (ErrWrap msg e), s')
  | x => x
  end.

(** [_ = m]: the error is dropped. *)
Definition ignore {S A} (m : M S A) : M S unit := let! _ := mtry m in mret tt.

Module TaskRepository.
Section ops.
Context {P : Type} `{Pebble P} `{JSON}.

(** Parameters of the retry delay: see [Backoff]. *)
Variables (cvt_overflow : Z) (seed1 : Z -> Z).

(** ** Get *)

Definition decode (v : string) : M (Repo P) Task :=
  match unmarshal_task v with
  | Some t => mret t
  | None => mthrow (ErrWrap "unmarshal task" (ErrExternal "sonic"))
  end.

Definition Get (taskID : string) : M (Repo P) Task :=
  let! r := mtry (db (PebbleDB.Get (KeyTask taskID))) in
  match r with
  | Ok v => decode v
  | Err e => if is_not_found e then mthrow (ErrText "not-found") else mthrow e
  end.

(** ** Enqueue *)

(** The idempotency lookup: the task the key already names, if any. *)
Definition idempoLookup (idempotencyKey : string) : M (Repo P) (option Task) :=
  if bool_decide (idempotencyKey = "") then mret None
  else
    let! r := mtry (db (PebbleDB.Get (KeyIdempo idempotencyKey))) in
    match r with
    | Ok existing =>
        let! t := mtry (Get existing) in
        match t with
        | Ok task => mret (Some task)
        | Err _ => mret None
        end
    | Err e => if is_not_found e then mret None else mthrow (ErrWrap "idempo lookup" e)
    end.

Definition newTask (now : Z) (id cmd payload : string) (priority : Z) (webhook : string)
  (maxAttempts : Z) (tenantID : string) (delayed : bool) : Task :=
  mkTask id cmd payload priority webhook "" "" StatusPending
    (if delayed then LocationDelayed else LocationPending) "" "" 0 maxAttempts "" ""
    tenantID now now.

Definition EnqueueWithID (now : Z) (id cmd payload : string) (priority : Z) (webhook : string)
  (maxAttempts : Z) (idempotencyKey : string) (visibleAt : Z) (tenantID : string)
  : M (Repo P) (Task * bool) :=
  let! hit := idempoLookup idempotencyKey in
  match hit with
  | Some task => mret (task, false)
  | None =>
      let priority := normalizePriority priority in
      let delayed := negb (is_zero visibleAt) && (now <? visibleAt) in
      let task := newTask now id cmd payload priority webhook maxAttempts tenantID delayed in
      let ttlScore := unixSeconds (now + taskRetention) in
      let! pendingSeq := (if delayed then mret 0 else db NextSeq) in
      let b :=
        [OpSet (KeyTask id) (marshal_task task); OpSet (KeyTTLIndex ttlScore id) ""] ++
        (if delayed then [OpSet (KeyDelayed cmd tenantID (unixSeconds visibleAt) id) ""]
         else [OpSet (KeyPending cmd tenantID priority pendingSeq id) ""]) ++
        (if bool_decide (idempotencyKey = "") then [] else [OpSet (KeyIdempo idempotencyKey) id]) in
      wrap_err "commit enqueue" (db (CommitBatch b)) ;;!
      (if delayed then delayedAdd cmd tenantID 1
       else publishPending cmd tenantID priority pendingSeq id) ;;!
      mret (task, negb delayed)
  end.

(** [newID] is the id [uuid.NewString] returned. *)
Definition EnqueueWithReady (newID : string) (now : Z) (cmd payload : string) (priority : Z)
  (webhook : string) (maxAttempts : Z) (idempotencyKey : string) (visibleAt : Z) (tenantID : string)
  : M (Repo P) (Task * bool) :=
  EnqueueWithID now newID cmd payload priority webhook maxAttempts idempotencyKey visibleAt tenantID.

Definition Enqueue (newID : string) (now : Z) (cmd payload : string) (priority : Z)
  (webhook : string) (maxAttempts : Z) (idempotencyKey : string) (visibleAt : Z) (tenantID : string)
  : M (Repo P) Task :=
  let! r := EnqueueWithReady newID now cmd payload priority webhook maxAttempts idempotencyKey
              visibleAt tenantID in
  mret (fst r).

(** ** Claim, the durable side *)

(** The transition of a claimed task. *)
Definition claimed (now : Z) (workerID leaseUntil : string) (t : Task) : Task :=
  set_UpdatedAt now (set_Attempts (t.(Attempts) + 1) (set_LeaseUntil leaseUntil
    (set_WorkerID workerID (set_LastKnownLocation LocationInProgress
      (set_Status StatusInProgress t))))).

Definition completeClaim (now : Z) (workerID cmd tenantID : string) (priority leaseSeconds seq : Z)
  (id : string) : M (Repo P) (option Task) :=
  let pendingKey := KeyPending cmd tenantID priority seq id in
  let drop := ignore (db (PebbleDB.Delete pendingKey)) ;;! mret None in
  let! r := mtry (db (PebbleDB.Get (KeyTask id))) in
  match r with
  | Err e => if is_not_found e then drop else mthrow e
  | Ok taskJSON =>
      match unmarshal_task taskJSON with
      | None => drop
      | Some t =>
          if bool_decide (t.(Status) <> StatusPending) then drop
          else
            let leaseUntil := now + seconds leaseSeconds in
            let t' := claimed now workerID (FormatRFC3339 leaseUntil) t in
            let ttlScore := unixSeconds (now + taskRetention) in
            let b := [OpDelete pendingKey; OpSet (KeyInprog cmd tenantID id) "";
                      OpSet (KeyTask id) (marshal_task t'); OpSet (KeyTTLIndex ttlScore id) ""] in
            wrap_err "commit claim" (db (CommitBatch b)) ;;!
            leases_mod (leaseTable.Set_ id workerID cmd tenantID (unix leaseUntil)) ;;!
            mret (Some t')
      end
  end.

Definition tryPopPriority (now : Z) (workerID cmd : string) (priority leaseSeconds : Z)
  (tenantID : string) : M (Repo P) (option Task) :=
  let! h := recv (queueKey cmd tenantID priority) in
  match h with
  | None => mret None
  | Some h => completeClaim now workerID cmd tenantID priority leaseSeconds (h_seq h) (h_id h)
  end.

Fixpoint popPriorities (ps : list Z) (now : Z) (workerID cmd : string) (leaseSeconds : Z)
  (tenantID : string) : M (Repo P) (option Task) :=
  match ps with
  | [] => mret None
  | p :: ps' =>
      let! t := tryPopPriority now workerID cmd p leaseSeconds tenantID in
      match t with
      | Some t => mret (Some t)
      | None => popPriorities ps' now workerID cmd leaseSeconds tenantID
      end
  end.

Definition popFromAnyPriority (now : Z) (workerID cmd : string) (leaseSeconds : Z) (tenantID : string)
  : M (Repo P) (option Task) :=
  popPriorities priorities now workerID cmd leaseSeconds tenantID.

(** ** Heartbeat, Abandon, Nack *)

Definition Heartbeat (now : Z) (taskID workerID : string) (extendSeconds : Z) : M (Repo P) unit :=
  let! t := Get taskID in
  if bool_decide (t.(WorkerID) <> workerID) then mthrow (ErrText "not-owner")
  else
    let until := now + seconds extendSeconds in
    let t' := set_LastKnownLocation LocationInProgress
                (set_UpdatedAt now (set_LeaseUntil (FormatRFC3339 until) t)) in
    let ttlScore := unixSeconds (now + taskRetention) in
    db (CommitBatch [OpSet (KeyTask taskID) (marshal_task t'); OpSet (KeyTTLIndex ttlScore taskID) ""]) ;;!
    leases_mod (fun l => snd (leaseTable.Extend taskID workerID (unix until) l)).

Definition abandoned (now : Z) (t : Task) : Task :=
  set_UpdatedAt now (set_LeaseUntil "" (set_WorkerID ""
    (set_LastKnownLocation LocationPending (set_Status StatusPending t)))).

Definition Abandon (now : Z) (taskID workerID : string) : M (Repo P) unit :=
  let! t := Get taskID in
  if bool_decide (workerID <> "") && bool_decide (t.(WorkerID) <> workerID)
  then mthrow (ErrText "not-owner")
  else if bool_decide (t.(Status) <> StatusInProgress) then mthrow (ErrText "not-in-progress")
  else
    let t' := abandoned now t in
    let prio := normalizePriority t'.(Priority) in
    let! seq := db NextSeq in
    db (CommitBatch [OpDelete (KeyInprog t'.(Command) t'.(TenantID) taskID);
                     OpSet (KeyPending t'.(Command) t'.(TenantID) prio seq taskID) "";
                     OpSet (KeyTask taskID) (marshal_task t')]) ;;!
    leases_mod (leaseTable.Delete taskID) ;;!
    publishPending t'.(Command) t'.(TenantID) prio seq taskID.

(** The attempt bound of a task and the attempt a nack charges. *)
Definition charge (maxAttemptsDefault : Z) (t : Task) : Task :=
  let t := if t.(MaxAttempts) <=? 0 then set_MaxAttempts maxAttemptsDefault t else t in
  let t := if t.(MaxAttempts) <=? 0 then set_MaxAttempts 1 t else t in
  set_Attempts (t.(Attempts) + 1) t.

Definition to_dlq (now : Z) (reason : string) (t : Task) : Task :=
  set_UpdatedAt now (set_TaskError reason (set_LeaseUntil "" (set_WorkerID ""
    (set_LastKnownLocation LocationDLQ (set_Status StatusFailed t))))).

Definition to_delayed (now : Z) (t : Task) : Task :=
  set_UpdatedAt now (set_TaskError "" (set_LeaseUntil "" (set_WorkerID ""
    (set_LastKnownLocation LocationDelayed (set_Status StatusPending t))))).

(** The result is the delay and whether the task went to the dead-letter queue. *)
Definition Nack (now : Z) (taskID workerID : string) (delaySeconds maxAttemptsDefault : Z)
  (reason : string) : M (Repo P) (Z * bool) :=
  let! t := Get taskID in
  if bool_decide (workerID <> "") && bool_decide (t.(WorkerID) <> workerID)
  then mthrow (ErrText "not-owner")
  else if bool_decide (t.(Status) <> StatusInProgress) then mthrow (ErrText "not-in-progress")
  else
    let t := charge maxAttemptsDefault t in
    if t.(MaxAttempts) <=? t.(Attempts) then
      let reason := if bool_decide (reason = "") then "MAX_ATTEMPTS" else reason in
      let t' := to_dlq now reason t in
      db (CommitBatch [OpDelete (KeyInprog t'.(Command) t'.(TenantID) taskID);
                       OpSet (KeyDLQ t'.(Command) t'.(TenantID) taskID) "";
                       OpSet (KeyTask taskID) (marshal_task t')]) ;;!
      leases_mod (leaseTable.Delete taskID) ;;!
      mret (0, true)
    else
      let delaySeconds := if delaySeconds <? 0 then 0 else delaySeconds in
      let visibleAt := now + seconds delaySeconds in
      let t' := to_delayed now t in
      db (CommitBatch [OpDelete (KeyInprog t'.(Command) t'.(TenantID) taskID);
                       OpSet (KeyDelayed t'.(Command) t'.(TenantID) (unixSeconds visibleAt) taskID) "";
                       OpSet (KeyTask taskID) (marshal_task t')]) ;;!
      leases_mod (leaseTable.Delete taskID) ;;!
      delayedAdd t'.(Command) t'.(TenantID) 1 ;;!
      mret (delaySeconds, false).

(** ** Moving due delayed tasks *)

(** [flag.CompareAndSwap(0, 1)], [defer flag.Store(0)]. *)
Definition casFlag (k : string) : M (Repo P) bool := fun r =>
  if bool_decide (k ∈ r_flags r) then (Ok false, r)
  else (Ok true, set_flags ({[k]} ∪ r_flags r) r).

Definition deferClear {A} (k : string) (m : M (Repo P) A) : M (Repo P) A := fun r =>
  let (x, r') := m r in (x, set_flags (r_flags r' ∖ {[k]}) r').

(** One entry of the sweep: what it adds to the batch and to the hints that
    are published after the commit. *)
Definition moveEntry (now : Z) (cmd : string)
  (acc : batch * list (string * Z * Z * string)) (e : string * string)
  : M (Repo P) (batch * list (string * Z * Z * string)) :=
  let '(b, published) := acc in
  let '(delayedKey, id) := e in
  let! r := mtry (db (PebbleDB.Get (KeyTask id))) in
  match r with
  | Err _ => mret (b ++ [OpDelete delayedKey], published)
  | Ok taskJSON =>
      match unmarshal_task taskJSON with
      | None => mret (b ++ [OpDelete delayedKey], published)
      | Some t =>
          let prio := normalizePriority t.(Priority) in
          let! seq := db NextSeq in
          let t' := abandoned now t in
          mret (b ++ [OpDelete delayedKey; OpSet (KeyPending cmd t'.(TenantID) prio seq id) "";
                      OpSet (KeyTask id) (marshal_task t')],
                published ++ [(t'.(TenantID), prio, seq, id)])
      end
  end.

Definition moveDueDelayedForTenant (now : Z) (cmd : string) (limit : Z) (tenantID : string)
  : M (Repo P) Z :=
  let limit := if limit <=? 0 then defaultInspectLimit else limit in
  let! r := mget in
  if delayedCounter cmd tenantID r =? 0 then mret 0
  else
    let! won := casFlag (countKey cmd tenantID) in
    if negb won then mret 0
    else deferClear (countKey cmd tenantID) (
      let! ks := db (Iter (PrefixDelayedUpTo cmd tenantID (unixSeconds now))) in
      let batchEntries :=
        take (Z.to_nat limit)
          (omap (fun k => match ParseDelayedKey k with Some id => Some (k, id) | None => None end) ks) in
      match batchEntries with
      | [] => mret 0
      | _ =>
          let! acc := mfold batchEntries ([], []) (moveEntry now cmd) in
          let '(b, published) := acc in
          db (CommitBatch b) ;;!
          delayedAdd cmd tenantID (- Z.of_nat (length batchEntries)) ;;!
          mfor published (fun '(ten, prio, seq, id) => publishPending cmd ten prio seq id) ;;!
          mret (Z.of_nat (length published))
      end).

Definition MoveDueDelayed (now : Z) (cmd : string) (limit : Z) : M (Repo P) Z :=
  moveDueDelayedForTenant now cmd limit "".

(** ** Rescuing expired leases on the claim path *)

Definition requeueOne (now : Z) (cmd : string) (maxAttemptsDefault : Z) (moved : Z)
  (c : string * string) : M (Repo P) Z :=
  let '(inprog, id) := c in
  let drop := ignore (db (PebbleDB.Delete inprog)) in
  let! r := mget in
  match leaseTable.Get id (db_leases (r_db r)) with
  | None => drop ;;! mret moved
  | Some e =>
      if unix now <? le_untilU e then mret moved
      else
        let! g := mtry (db (PebbleDB.Get (KeyTask id))) in
        match g with
        | Err _ => drop ;;! mret moved
        | Ok taskJSON =>
            match unmarshal_task taskJSON with
            | None => drop ;;! mret moved
            | Some t =>
                match Backoff.Compute cvt_overflow seed1 (r_policy r) (r_base r) (r_max r) t.(Attempts) None with
                | Err e => mthrow e
                | Ok delaySeconds =>
                    let! n := mtry (Nack now id "" delaySeconds maxAttemptsDefault "LEASE_EXPIRED") in
                    match n with
                    | Ok _ => mret (moved + 1)
                    | Err e =>
                        if contains_s (error_text e) "not-in-progress" || contains_s (error_text e) "not-found"
                        then drop ;;! mret (moved + 1)
                        else mthrow e
                    end
                end
            end
        end
  end.

Definition requeueExpired (now : Z) (cmd : string) (inspectLimit maxAttemptsDefault : Z)
  (tenantID : string) : M (Repo P) Z :=
  let inspectLimit := if inspectLimit <=? 0 then defaultInspectLimit else inspectLimit in
  let! ks := db (Iter (PrefixInprog cmd tenantID)) in
  let candidates :=
    take (Z.to_nat inspectLimit)
      (omap (fun k => match ParseDelayedKey k with Some id => Some (k, id) | None => None end) ks) in
  mfold candidates 0 (requeueOne now cmd maxAttemptsDefault).

(** ** Claim *)

(** The sweep both claim paths run first, one command after the other. *)
Definition reconcilePrelude (now : Z) (commands : list string) (inspectLimit maxAttemptsDefault : Z)
  (tenantID : string) : M (Repo P) unit :=
  mfor commands (fun cmd =>
    moveDueDelayedForTenant now cmd inspectLimit tenantID ;;!
    let! run := shouldRun now cmd tenantID in
    if run then requeueExpired now cmd inspectLimit maxAttemptsDefault tenantID ;;! mret tt
    else mret tt).

Fixpoint popCommands (commands : list string) (now : Z) (workerID : string) (leaseSeconds : Z)
  (tenantID : string) : M (Repo P) (option Task) :=
  match commands with
  | [] => mret None
  | cmd :: commands' =>
      let! t := popFromAnyPriority now workerID cmd leaseSeconds tenantID in
      match t with
      | Some t => mret (Some t)
      | None => popCommands commands' now workerID leaseSeconds tenantID
      end
  end.

Definition Claim (now : Z) (workerID : string) (commands : list string)
  (leaseSeconds inspectLimit maxAttemptsDefault : Z) (tenantID : string) : M (Repo P) (option Task) :=
  let inspectLimit := if inspectLimit <=? 0 then defaultInspectLimit else inspectLimit in
  reconcilePrelude now commands inspectLimit maxAttemptsDefault tenantID ;;!
  popCommands commands now workerID leaseSeconds tenantID.

(** ** ClaimMany *)

Record popped := mkPopped { po_cmd : string; po_priority : Z; po_seq : Z; po_id : string }.

(** Receive up to [room] hints of one channel. *)
Fixpoint drainChannel (room : nat) (cmd tenantID : string) (p : Z) : M (Repo P) (list popped) :=
  match room with
  | O => mret []
  | S room' =>
      let! h := recv (queueKey cmd tenantID p) in
      match h with
      | None => mret []
      | Some h =>
          let! rest := drainChannel room' cmd tenantID p in
          mret (mkPopped cmd p (h_seq h) (h_id h) :: rest)
      end
  end.

(** The collect loop over the queues in claim order. *)
Fixpoint collect (qs : list (string * Z)) (tenantID : string) (room : nat) : M (Repo P) (list popped) :=
  match qs with
  | [] => mret []
  | (cmd, p) :: qs' =>
      let! hs := drainChannel room cmd tenantID p in
      let! rest := collect qs' tenantID (room - length hs) in
      mret (hs ++ rest)
  end.

(** One popped hint: what it adds to the batch and to the claimed tasks. *)
Definition claimHint (now : Z) (workerID leaseUntilStr tenantID : string)
  (acc : batch * list Task) (h : popped) : M (Repo P) (batch * list Task) :=
  let '(b, out) := acc in
  let pendingKey := KeyPending (po_cmd h) tenantID (po_priority h) (po_seq h) (po_id h) in
  let! r := mtry (db (PebbleDB.Get (KeyTask (po_id h)))) in
  match r with
  | Err e => if is_not_found e then mret (b ++ [OpDelete pendingKey], out) else mthrow e
  | Ok taskJSON =>
      match unmarshal_task taskJSON with
      | None => mret (b ++ [OpDelete pendingKey], out)
      | Some t =>
          if bool_decide (t.(Status) <> StatusPending) then mret (b ++ [OpDelete pendingKey], out)
          else
            let t' := claimed now workerID leaseUntilStr t in
            let ttlScore := unixSeconds (now + taskRetention) in
            mret (b ++ [OpDelete pendingKey; OpSet (KeyInprog (po_cmd h) tenantID (po_id h)) "";
                        OpSet (KeyTask (po_id h)) (marshal_task t');
                        OpSet (KeyTTLIndex ttlScore (po_id h)) ""],
                  out ++ [t'])
      end
  end.

Definition ClaimMany (now : Z) (workerID : string) (commands : list string)
  (leaseSeconds max inspectLimit maxAttemptsDefault : Z) (tenantID : string) : M (Repo P) (list Task) :=
  if max <=? 0 then mret []
  else
    let inspectLimit := if inspectLimit <=? 0 then defaultInspectLimit else inspectLimit in
    reconcilePrelude now commands inspectLimit maxAttemptsDefault tenantID ;;!
    let! hints := collect (list_prod commands priorities) tenantID (Z.to_nat max) in
    match hints with
    | [] => mret []
    | _ =>
        let leaseUntil := now + seconds leaseSeconds in
        let! acc := mfold hints ([], []) (claimHint now workerID (FormatRFC3339 leaseUntil) tenantID) in
        let '(b, out) := acc in
        wrap_err "commit claim-many" (db (CommitBatch b)) ;;!
        mfor out (fun t => leases_mod
          (leaseTable.Set_ t.(ID) workerID t.(Command) tenantID (unix leaseUntil))) ;;!
        mret out
    end.

(** ** Looking a pending entry up by id *)

Definition findPendingKey (cmd tenantID : string) (priority : Z) (id : string)
  : M (Repo P) (option string) :=
  let! r := mtry (db (Iter (PrefixPendingPrio cmd tenantID priority))) in
  match r with
  | Err _ => mret None
  | Ok ks => mret (List.find (fun k => bytesHasSuffix k id) ks)
  end.

Definition dropPendingByID (cmd tenantID : string) (priority : Z) (id : string) : M (Repo P) unit :=
  let! k := findPendingKey cmd tenantID priority id in
  match k with
  | Some k => ignore (db (PebbleDB.Delete k))
  | None => mret tt
  end.

(** ** Introspection *)

Definition countPrefix (range : string * option string) : M (Repo P) Z :=
  let! ks := db (Iter range) in mret (Z.of_nat (length ks)).

Definition PendingLength (cmd : string) : M (Repo P) Z := countPrefix (PrefixPendingAllPrios cmd "").

Definition QueueStats (cmd tenantID : string) : M (Repo P) Domain.QueueStats :=
  let! pending := countPrefix (PrefixPendingAllPrios cmd tenantID) in
  let! inprog := countPrefix (PrefixInprog cmd tenantID) in
  let! delayed := countPrefix (PrefixDelayed cmd tenantID) in
  let! dlq := countPrefix (PrefixDLQ cmd tenantID) in
  mret (mkStats cmd pending delayed inprog dlq).

(** The text of one byte as a decimal number. *)
Definition first_byte (s : string) : option Z :=
  match s with EmptyString => None | String a _ => Some (ch a) end.

Definition bucketLabel (k : string) : string :=
  if negb (has_prefix pQueue k) then ""
  else
    let rest := drop_s (String.length pQueue) k in
    match splitN rest "/" 5 with
    | cmd :: tenant :: typ :: fourth :: _ =>
        let label := "codeq:q:" +:+ cmd in
        let label := if bool_decide (tenant = emptyTenant) then label else label +:+ ":" +:+ tenant in
        if bool_decide (typ = "pending") then
          match first_byte fourth with
          | Some p => label +:+ ":pending:" +:+ pretty p
          | None => label
          end
        else if bool_decide (typ ∈ ["inprog"; "delayed"; "dlq"]) then label +:+ ":" +:+ typ
        else ""
    | _ => ""
    end.

Definition AdminQueues : M (Repo P) (gmap string Z) :=
  let! ks := db (Iter (pQueue, prefixUpper pQueue)) in
  mret (fold_left (fun out k =>
          let bucket := bucketLabel k in
          if bool_decide (bucket = "") then out
          else <[bucket := default 0 (out !! bucket) + 1]> out) ks ∅).

(** ** CleanupExpired *)

(** The upper bound of the sweep; the comparison is the one of the source. *)
Definition ttlUpper (before : Z) : string * option string :=
  let upper := pTTL +:+ be8 (wrapu64 (unixSeconds before + 1)) in
  match snd PrefixTTL with
  | Some upperFull => (pTTL, Some (if sltb upperFull upper then upperFull else upper))
  | None => (pTTL, Some upper)
  end.

Definition CleanupExpired (limit before : Z) : M (Repo P) Z :=
  let limit := if limit <=? 0 then 100 else limit in
  let! ks := db (Iter (ttlUpper before)) in
  let cands :=
    take (Z.to_nat limit)
      (omap (fun k => match after_last_slash k with Some id => Some (k, id) | None => None end) ks) in
  match cands with
  | [] => mret 0
  | _ =>
      db (CommitBatch (concat (map (fun '(ttlKey, id) => [OpDelete (KeyTask id); OpDelete ttlKey]) cands))) ;;!
      mfor cands (fun c => leases_mod (leaseTable.Delete (snd c))) ;;!
      mret (Z.of_nat (length cands))
  end.

(** ** Recovery at start-up *)

(** [k[lo:hi]]; out of range is a run-time panic. *)
Definition slice (k : string) (lo hi : Z) : M (Repo P) string :=
  if (lo <=? hi) && (hi <=? slen k) then mret (take_s (Z.to_nat (hi - lo)) (drop_s (Z.to_nat lo) k))
  else mthrow (Panic "slice bounds out of range").

(** The [(cmd, tenant)] pair in a queue key whose type marker starts at [idx]. *)
Definition queueOf (k : string) (idx : Z) : M (Repo P) (option (string * string)) :=
  let! prefix := slice k (slen pQueue) idx in
  match splitN prefix "/" 2 with
  | [c; t] => mret (Some (c, if bool_decide (t = emptyTenant) then "" else t))
  | _ => mret None
  end.

Definition recoverQueueKey (k : string) : M (Repo P) unit :=
  let idx := indexOf k segPending in
  if idx <? 0 then mret tt
  else
    let! q := queueOf k idx in
    match q with
    | None => mret tt
    | Some (cmd, tenantID) =>
        let pStart := idx + slen segPending in
        if slen k <? pStart + 1 + 8 then mret tt
        else
          let! p := slice k pStart (pStart + 1) in
          let prio := default 0 (first_byte p) in
          let! sq := slice k (pStart + 1 + 1) (pStart + 1 + 1 + 8) in
          match ParsePendingKey k with
          | None => mret tt
          | Some id =>
              let! sent := send (queueKey cmd tenantID prio) (mkHint (beUint64 sq) id) in
              if sent then mret tt else mthrow (ErrText "channel full during recovery")
          end
    end.

Definition recoverQueues : M (Repo P) unit :=
  let! ks := db (Iter (pQueue, prefixUpper pQueue)) in mfor ks recoverQueueKey.

Definition recoverDelayedKey (k : string) : M (Repo P) unit :=
  let idx := indexOf k segDelayed in
  if idx <? 0 then mret tt
  else
    let! q := queueOf k idx in
    match q with
    | None => mret tt
    | Some (cmd, tenantID) => delayedAdd cmd tenantID 1
    end.

Definition recoverDelayedCounts : M (Repo P) unit :=
  let! ks := db (Iter (pQueue, prefixUpper pQueue)) in mfor ks recoverDelayedKey.

Definition recoverLeaseKey (k : string) : M (Repo P) unit :=
  let idx := indexOf k segInprog in
  if idx <? 0 then mret tt
  else
    let id := drop_s (Z.to_nat (idx + slen segInprog)) k in
    let! r := mtry (db (PebbleDB.Get (KeyTask id))) in
    match r with
    | Err _ => mret tt
    | Ok taskJSON =>
        match unmarshal_task taskJSON with
        | None => mret tt
        | Some t =>
            if bool_decide (t.(LeaseUntil) = "") || bool_decide (t.(WorkerID) = "") then mret tt
            else
              match ParseRFC3339 t.(LeaseUntil) with
              | None => mret tt
              | Some until =>
                  leases_mod (leaseTable.Set_ id t.(WorkerID) t.(Command) t.(TenantID) until)
              end
        end
    end.

Definition recoverLeases : M (Repo P) unit :=
  let! ks := db (Iter (pQueue, prefixUpper pQueue)) in mfor ks recoverLeaseKey.

Definition emptyRepo (d : DB P) (backoffPolicy : string) (backoffBaseSeconds backoffMaxSeconds : Z) : Repo P :=
  mkRepo d
    (if bool_decide (backoffPolicy = "") then "exp_full_jitter" else backoffPolicy)
    (if backoffBaseSeconds <=? 0 then 5 else backoffBaseSeconds)
    (if backoffMaxSeconds <=? 0 then 900 else backoffMaxSeconds)
    defaultReconcileInterval ∅ ∅ ∅ ∅.

(** A failed recovery panics. *)
Definition NewTaskRepository (d : DB P) (backoffPolicy : string)
  (backoffBaseSeconds backoffMaxSeconds : Z) : res (Repo P) :=
  let recover := recoverQueues ;;! recoverDelayedCounts ;;! recoverLeases in
  match recover (emptyRepo d backoffPolicy backoffBaseSeconds backoffMaxSeconds) with
  | (Ok _, r) => Ok r
  | (Err e, _) => Err (Panic (error_text e))
  end.
End ops.
End TaskRepository.
