(* ===== verification/ResultRepo.v ===== *)
(** The Pebble result repository ([src/internal/repository/pebble/result_repository.go]):
    definitions.  It works on the same [DB] handle as the task repository and
    has no state of its own.  [base64.StdEncoding] is modelled with it. *)

From S2P Require Import Prelude GoTime Domain Keys LeaseTable PebbleDB TaskRepo.

(** ** [base64.StdEncoding.DecodeString] *)

Module base64.

Definition alphabet : string := "ABCDEFGHIJKLMNOPQRSTUVWXYZabcdefghijklmnopqrstuvwxyz0123456789+/".

Fixpoint nth_byte (s : string) (n : nat) : ascii :=
  match s, n with
  | String a _, O => a
  | String _ s', S n' => nth_byte s' n'
  | EmptyString, _ => "="
  end.

(** The six bits of an alphabet byte. *)
Definition sextet (a : ascii) : option Z :=
  let c := ch a in
  if (65 <=? c) && (c <=? 90) then Some (c - 65)
  else if (97 <=? c) && (c <=? 122) then Some (c - 97 + 26)
  else if (48 <=? c) && (c <=? 57) then Some (c - 48 + 52)
  else if c =? 43 then Some 62
  else if c =? 47 then Some 63
  else None.

(** Line breaks are skipped wherever they stand. *)
Fixpoint skip_newlines (s : string) : string :=
  match s with
  | EmptyString => EmptyString
  | String a s' =>
      if (ch a =? 10) || (ch a =? 13) then skip_newlines s' else String a (skip_newlines s')
  end.

(** Quanta of four; padding only closes the input. *)
Fixpoint decode_quanta (s : string) : option string :=
  match s with
  | EmptyString => Some EmptyString
  | String a (String b (String c (String d s'))) =>
      match sextet a, sextet b with
      | Some x, Some y =>
          let b0 := byte (x * 4 + y / 16) in
          match sextet c, sextet d with
          | Some z, Some w =>
              match decode_quanta s' with
              | Some r => Some (String b0 (String (byte (y mod 16 * 16 + z / 4))
                                 (String (byte (z mod 4 * 64 + w)) r)))
              | None => None
              end
          | Some z, None =>
              if Ascii.eqb d "=" && bool_decide (s' = "")
              then Some (String b0 (String (byte (y mod 16 * 16 + z / 4)) "")) else None
          | None, _ =>
              if Ascii.eqb c "=" && Ascii.eqb d "=" && bool_decide (s' = "")
              then Some (String b0 "") else None
          end
      | _, _ => None
      end
  | _ => None
  end.

Definition DecodeString (s : string) : option string := decode_quanta (skip_newlines s).

(** [EncodeToString], for the round trip. *)
Definition letter (z : Z) : ascii := nth_byte alphabet (Z.to_nat z).

Fixpoint EncodeToString (s : string) : string :=
  match s with
  | EmptyString => EmptyString
  | String a EmptyString =>
      String (letter (ch a / 4)) (String (letter (ch a mod 4 * 16)) "==")
  | String a (String b EmptyString) =>
      String (letter (ch a / 4)) (String (letter (ch a mod 4 * 16 + ch b / 16))
        (String (letter (ch b mod 16 * 4)) "="))
  | String a (String b (String c s')) =>
      String (letter (ch a / 4)) (String (letter (ch a mod 4 * 16 + ch b / 16))
        (String (letter (ch b mod 16 * 4 + ch c / 64)) (String (letter (ch c mod 64)) (EncodeToString s'))))
  end.

End base64.

(** [strings.Repeat]. *)
Fixpoint repeat_s (s : string) (n : nat) : string :=
  match n with O => "" | S n' => s +:+ repeat_s s n' end.

(** ** The repository *)

Module ResultRepository.
Section ops.
Context {P : Type} `{Pebble P} `{JSON}.

Definition dbLeases (f : gmap string leaseEntry -> gmap string leaseEntry) : M (DB P) unit :=
  mmod (fun d => set_leases (f (db_leases d)) d).

Definition GetTask (id : string) : M (DB P) Task :=
  let! r := mtry (PebbleDB.Get (KeyTask id)) in
  match r with
  | Err e => if is_not_found e then mthrow (ErrText "not-found") else mthrow e
  | Ok v =>
      match unmarshal_task v with
      | Some t => mret t
      | None => mthrow (ErrWrap "unmarshal task" (ErrExternal "sonic"))
      end
  end.

(** The command and tenant arguments are not used by the code. *)
Definition SaveResult (now : Z) (rec : ResultRecord) : M (DB P) unit :=
  let! t := GetTask (rr_TaskID rec) in
  let t' := set_ResultKey "codeq:results" t in
  CommitBatch [OpSet (KeyResult (rr_TaskID rec)) (marshal_result rec);
               OpSet (KeyTask (rr_TaskID rec)) (marshal_task t');
               OpSet (KeyTTLIndex (unixSeconds (now + taskRetention)) (rr_TaskID rec)) ""].

Definition GetResult (id : string) : M (DB P) ResultRecord :=
  let! r := mtry (PebbleDB.Get (KeyResult id)) in
  match r with
  | Err e => if is_not_found e then mthrow (ErrText "not-found") else mthrow e
  | Ok v =>
      match unmarshal_result v with
      | Some rec => mret rec
      | None => mthrow (ErrWrap "unmarshal result" (ErrExternal "sonic"))
      end
  end.

(** The three return values of the code: on the second error the task is
    handed back with it. *)
Definition GetTaskAndResult (id : string)
  : M (DB P) (option Task * option ResultRecord * option error) :=
  let! t := mtry (GetTask id) in
  match t with
  | Err _ => mret (None, None, Some (ErrText "task not-found"))
  | Ok t =>
      let! rec := mtry (GetResult id) in
      match rec with
      | Err _ => mret (Some t, None, Some (ErrText "result not-found"))
      | Ok rec => mret (Some t, Some rec, None)
      end
  end.

(** The final state of a task. *)
Definition finalized (now : Z) (status errorMsg : string) (t : Task) : Task :=
  let t := set_UpdatedAt now (set_LeaseUntil "" (set_WorkerID ""
             (set_LastKnownLocation LocationNone (set_Status status t)))) in
  if bool_decide (errorMsg = "") then t else set_TaskError errorMsg t.

Definition UpdateTaskOnComplete (now : Z) (id cmd tenantID status errorMsg : string) : M (DB P) unit :=
  let! t := GetTask id in
  let t' := finalized now status errorMsg t in
  CommitBatch [OpSet (KeyTask id) (marshal_task t'); OpDelete (KeyInprog cmd tenantID id);
               OpSet (KeyTTLIndex (unixSeconds (now + taskRetention)) id) ""] ;;!
  dbLeases (leaseTable.Delete id).

Definition RemoveFromInprogAndClearLease (id cmd tenantID : string) : M (DB P) unit :=
  CommitBatch [OpDelete (KeyInprog cmd tenantID id)] ;;!
  dbLeases (leaseTable.Delete id).

Definition DecodeBase64 (str : string) : option string :=
  let m := Z.rem (slen str) 4 in
  base64.DecodeString (if m =? 0 then str else str +:+ repeat_s "=" (Z.to_nat (4 - m))).

Definition GetTasksBatch (ids : list string) : M (DB P) (gmap string Task) :=
  mfold ids ∅ (fun out id =>
    let! r := mtry (PebbleDB.Get (KeyTask id)) in
    match r with
    | Err e => if is_not_found e then mret out else mthrow (ErrWrap ("get " +:+ id) e)
    | Ok v =>
        match unmarshal_task v with
        | Some t => mret (<[id := t]> out)
        | None => mthrow (ErrWrap ("unmarshal " +:+ id) (ErrExternal "sonic"))
        end
    end).

(** [tasks] maps ids to pointers: an id that occurs twice is updated in place
    twice, so the map is threaded through the loop. *)
Definition updateOne (now : Z) (acc : batch * gmap string Task) (u : TaskCompleteUpdate)
  : M (DB P) (batch * gmap string Task) :=
  let '(b, tasks) := acc in
  match tasks !! up_ID u with
  | None => mthrow (ErrText ("task " +:+ up_ID u +:+ " not found"))
  | Some t =>
      let t' := finalized now (up_Status u) (up_ErrorMsg u) t in
      mret (b ++ [OpSet (KeyTask (up_ID u)) (marshal_task t');
                  OpDelete (KeyInprog t'.(Command) t'.(TenantID) (up_ID u));
                  OpSet (KeyTTLIndex (unixSeconds (now + taskRetention)) (up_ID u)) ""],
            <[up_ID u := t']> tasks)
  end.

Definition BatchUpdateTasksOnComplete (now : Z) (updates : list TaskCompleteUpdate) : M (DB P) unit :=
  match updates with
  | [] => mret tt
  | _ =>
      let! tasks := wrap_err "batch fetch tasks" (GetTasksBatch (map up_ID updates)) in
      let! acc := mfold updates ([], tasks) (updateOne now) in
      CommitBatch (fst acc) ;;!
      mfor updates (fun u => dbLeases (leaseTable.Delete (up_ID u)))
  end.

Definition BatchRemoveFromInprogAndClearLease (deletes : list TaskDeleteInfo) : M (DB P) unit :=
  match deletes with
  | [] => mret tt
  | _ =>
      CommitBatch (map (fun d => OpDelete (KeyInprog (del_Command d) (del_TenantID d) (del_ID d))) deletes) ;;!
      mfor deletes (fun d => dbLeases (leaseTable.Delete (del_ID d)))
  end.
End ops.
End ResultRepository.
