(* ===== verification/Sharded.v ===== *)
(** The sharded repositories of one node
    ([src/internal/repository/pebble/sharded_task_repository.go] and
    [sharded_result_repository.go]): one repository per Pebble store, a task's
    calls routed by the hash of its id, the others fanned out.  The two
    wrappers share the stores, so they share the state here. *)

From S2P Require Import Prelude GoTime Domain Keys LeaseTable PebbleDB Backoff TaskRepo ResultRepo Hash.

Record Sharded (P : Type) := mkSharded { sh_shards : list (Repo P); sh_rr : Z }.
Arguments mkSharded {P}.
Arguments sh_shards {P}.
Arguments sh_rr {P}.

Section sharded.
Context {P : Type}.
Implicit Types (s : Sharded P).

(** A call on one shard; [s.shards[i]] out of range panics. *)
Definition onShard {A} (i : nat) (m : M (Repo P) A) : M (Sharded P) A := fun s =>
  match sh_shards s !! i with
  | None => (Err (Panic "index out of range"), s)
  | Some r => let (x, r') := m r in (x, mkSharded (<[i := r']> (sh_shards s)) (sh_rr s))
  end.

Definition shardIndex (n : nat) (key : string) : nat := Z.to_nat (fnv64a key mod Z.of_nat n).

Definition shardOf (key : string) : M (Sharded P) nat := fun s =>
  (Ok (shardIndex (length (sh_shards s)) key), s).

(** The call on the shard of a key. *)
Definition routed {A} (key : string) (m : M (Repo P) A) : M (Sharded P) A :=
  let! i := shardOf key in onShard i m.

Definition nextStart : M (Sharded P) nat := fun s =>
  let c := wrapu64 (sh_rr s + 1) in
  (Ok (Z.to_nat (c mod Z.of_nat (length (sh_shards s)))), mkSharded (sh_shards s) c).

Definition shardCount : M (Sharded P) nat := fun s => (Ok (length (sh_shards s)), s).

(** The shards from [start] on, around. *)
Definition ringOrder (start n : nat) : list nat := map (fun i => (start + i) mod n)%nat (seq 0 n).

End sharded.

Module ShardedTaskRepository.
Section ops.
Context {P : Type} `{Pebble P} `{JSON}.
Variables (cvt_overflow : Z) (seed1 : Z -> Z).

(** [newID] is what [uuid.NewString] returns. *)
Definition EnqueueWithReady (newID : string) (now : Z) (cmd payload : string) (priority : Z) (webhook : string)
  (maxAttempts : Z) (idempotencyKey : string) (visibleAt : Z) (tenantID : string) : M (Sharded P) (Task * bool) :=
  let! hit :=
    (if bool_decide (idempotencyKey = "") then mret None
     else
       let! existing := mtry (routed idempotencyKey (db (PebbleDB.Get (KeyIdempo idempotencyKey)))) in
       match existing with
       | Err _ => mret None
       | Ok existingID =>
           let! task := mtry (routed existingID (TaskRepository.Get existingID)) in
           match task with Ok t => mret (Some t) | Err _ => mret None end
       end) in
  match hit with
  | Some task => mret (task, false)
  | None => routed newID (TaskRepository.EnqueueWithID now newID cmd payload priority webhook maxAttempts
                            idempotencyKey visibleAt tenantID)
  end.

Definition Enqueue (newID : string) (now : Z) (cmd payload : string) (priority : Z) (webhook : string)
  (maxAttempts : Z) (idempotencyKey : string) (visibleAt : Z) (tenantID : string) : M (Sharded P) Task :=
  let! r := EnqueueWithReady newID now cmd payload priority webhook maxAttempts idempotencyKey visibleAt tenantID in
  mret (fst r).

(** The first shard with work; a shard this node does not lead is passed
    over. *)
Fixpoint claimFrom (order : list nat) (now : Z) (workerID : string) (commands : list string)
  (leaseSeconds inspectLimit maxAttemptsDefault : Z) (tenantID : string) : M (Sharded P) (option Task) :=
  match order with
  | [] => mret None
  | idx :: order' =>
      let! r := mtry (onShard idx (TaskRepository.Claim cvt_overflow seed1 now workerID commands leaseSeconds
                        inspectLimit maxAttemptsDefault tenantID)) in
      let next := claimFrom order' now workerID commands leaseSeconds inspectLimit maxAttemptsDefault tenantID in
      match r with
      | Err e => if is_not_leader e then next else mthrow e
      | Ok (Some t) => mret (Some t)
      | Ok None => next
      end
  end.

Definition Claim (now : Z) (workerID : string) (commands : list string)
  (leaseSeconds inspectLimit maxAttemptsDefault : Z) (tenantID : string) : M (Sharded P) (option Task) :=
  let! start := nextStart in
  let! n := shardCount in
  claimFrom (ringOrder start n) now workerID commands leaseSeconds inspectLimit maxAttemptsDefault tenantID.

(** What has been claimed so far is returned with an error too. *)
Fixpoint claimManyFrom (order : list nat) (out : list Task) (now : Z) (workerID : string) (commands : list string)
  (leaseSeconds max inspectLimit maxAttemptsDefault : Z) (tenantID : string)
  : M (Sharded P) (list Task * option error) :=
  match order with
  | [] => mret (out, None)
  | idx :: order' =>
      if max <=? Z.of_nat (length out) then mret (out, None)
      else
        let! r := mtry (onShard idx (TaskRepository.ClaimMany cvt_overflow seed1 now workerID commands leaseSeconds
                          (max - Z.of_nat (length out)) inspectLimit maxAttemptsDefault tenantID)) in
        match r with
        | Err e => if is_not_leader e
                   then claimManyFrom order' out now workerID commands leaseSeconds max inspectLimit maxAttemptsDefault tenantID
                   else mret (out, Some e)
        | Ok got => claimManyFrom order' (out ++ got) now workerID commands leaseSeconds max inspectLimit
                      maxAttemptsDefault tenantID
        end
  end.

Definition ClaimMany (now : Z) (workerID : string) (commands : list string)
  (leaseSeconds max inspectLimit maxAttemptsDefault : Z) (tenantID : string) : M (Sharded P) (list Task * option error) :=
  if max <=? 0 then mret ([], None)
  else
    let! start := nextStart in
    let! n := shardCount in
    claimManyFrom (ringOrder start n) [] now workerID commands leaseSeconds max inspectLimit maxAttemptsDefault tenantID.

Definition Heartbeat (now : Z) (taskID workerID : string) (extendSeconds : Z) : M (Sharded P) unit :=
  routed taskID (TaskRepository.Heartbeat now taskID workerID extendSeconds).

Definition Abandon (now : Z) (taskID workerID : string) : M (Sharded P) unit :=
  routed taskID (TaskRepository.Abandon now taskID workerID).

Definition Nack (now : Z) (taskID workerID : string) (delaySeconds maxAttemptsDefault : Z) (reason : string)
  : M (Sharded P) (Z * bool) :=
  routed taskID (TaskRepository.Nack now taskID workerID delaySeconds maxAttemptsDefault reason).

Definition Get (taskID : string) : M (Sharded P) Task := routed taskID (TaskRepository.Get taskID).

(** A sum over the shards; [skip] says whether a shard this node does not lead
    is passed over.  The total so far comes with an error. *)
Fixpoint sumShards (skip : bool) (op : M (Repo P) Z) (order : list nat) (total : Z) : M (Sharded P) (Z * option error) :=
  match order with
  | [] => mret (total, None)
  | i :: order' =>
      let! r := mtry (onShard i op) in
      match r with
      | Ok n => sumShards skip op order' (total + n)
      | Err e => if skip && is_not_leader e then sumShards skip op order' total else mret (total, Some e)
      end
  end.

Definition overShards (skip : bool) (op : M (Repo P) Z) : M (Sharded P) (Z * option error) :=
  let! n := shardCount in sumShards skip op (seq 0 n) 0.

Definition MoveDueDelayed (now : Z) (cmd : string) (limit : Z) : M (Sharded P) (Z * option error) :=
  overShards true (TaskRepository.MoveDueDelayed now cmd limit).

Definition PendingLength (cmd : string) : M (Sharded P) (Z * option error) :=
  overShards false (TaskRepository.PendingLength cmd).

Definition CleanupExpired (limit before : Z) : M (Sharded P) (Z * option error) :=
  let per := if (limit <=? 0) || (100 <? limit) then 100 else limit in
  overShards true (TaskRepository.CleanupExpired per before).

Definition addCounts (out m : gmap string Z) : gmap string Z :=
  map_fold (fun k n out => <[k := default 0 (out !! k) + n]> out) out m.

Definition AdminQueues : M (Sharded P) (gmap string Z) :=
  let! n := shardCount in
  mfold (seq 0 n) ∅ (fun out i => let! m := onShard i TaskRepository.AdminQueues in mret (addCounts out m)).

Definition addStats (a b : QueueStats) : QueueStats :=
  mkStats (qs_Command a) (qs_Ready a + qs_Ready b) (qs_Delayed a + qs_Delayed b)
    (qs_InProgress a + qs_InProgress b) (qs_DLQ a + qs_DLQ b).

Definition QueueStats (cmd tenantID : string) : M (Sharded P) Domain.QueueStats :=
  let! n := shardCount in
  mfold (seq 0 n) (mkStats cmd 0 0 0 0)
    (fun out i => let! st := onShard i (TaskRepository.QueueStats cmd tenantID) in mret (addStats out st)).
End ops.
End ShardedTaskRepository.

Module ShardedResultRepository.
Section ops.
Context {P : Type} `{Pebble P} `{JSON}.

Definition GetTask (id : string) : M (Sharded P) Task := routed id (db (ResultRepository.GetTask id)).

Definition GetTaskAndResult (id : string) := routed id (db (ResultRepository.GetTaskAndResult id)).

Definition SaveResult (now : Z) (rec : ResultRecord) : M (Sharded P) unit :=
  routed (rr_TaskID rec) (db (ResultRepository.SaveResult now rec)).

Definition GetResult (id : string) : M (Sharded P) ResultRecord := routed id (db (ResultRepository.GetResult id)).

Definition UpdateTaskOnComplete (now : Z) (id cmd tenantID status errorMsg : string) : M (Sharded P) unit :=
  routed id (db (ResultRepository.UpdateTaskOnComplete now id cmd tenantID status errorMsg)).

Definition RemoveFromInprogAndClearLease (id cmd tenantID : string) : M (Sharded P) unit :=
  routed id (db (ResultRepository.RemoveFromInprogAndClearLease id cmd tenantID)).

Definition DecodeBase64 (str : string) : option string := ResultRepository.DecodeBase64 str.

(** The items of each shard, in their order. *)
Definition bucket {A} (key : A -> string) (n : nat) (items : list A) (i : nat) : list A :=
  List.filter (fun x => bool_decide (shardIndex n (key x) = i)) items.

(** The shards that have items, in the order [order] in which their goroutines
    run; the first error is kept, the others still run. *)
Definition fanOut {A B} (key : A -> string) (order : nat -> list nat) (op : list A -> M (Repo P) B)
  (join : B -> B -> B) (zero : B) (items : list A) : M (Sharded P) (B * option error) :=
  let! n := shardCount in
  mfold (List.filter (fun i => negb (bool_decide (bucket key n items i = []))) (order n)) (zero, None)
    (fun '(out, firstErr) i =>
       let! r := mtry (onShard i (op (bucket key n items i))) in
       match r with
       | Ok b => mret (join out b, firstErr)
       | Err e => mret (out, match firstErr with Some e0 => Some e0 | None => Some e end)
       end).

Definition GetTasksBatch (order : nat -> list nat) (ids : list string) : M (Sharded P) (gmap string Task) :=
  match ids with
  | [] => mret ∅
  | _ =>
      let! r := fanOut (fun id => id) order (fun b => db (ResultRepository.GetTasksBatch b)) (fun out m => m ∪ out) ∅ ids in
      match r with
      | (out, None) => mret out
      | (_, Some e) => mthrow e
      end
  end.

Definition joined (msg : string) (r : unit * option error) : M (Sharded P) unit :=
  match snd r with None => mret tt | Some e => mthrow (ErrWrap msg e) end.

Definition BatchUpdateTasksOnComplete (order : nat -> list nat) (now : Z) (updates : list TaskCompleteUpdate)
  : M (Sharded P) unit :=
  match updates with
  | [] => mret tt
  | _ =>
      let! r := fanOut up_ID order (fun b => db (ResultRepository.BatchUpdateTasksOnComplete now b)) (fun _ _ => tt) tt updates in
      joined "sharded batch update" r
  end.

Definition BatchRemoveFromInprogAndClearLease (order : nat -> list nat) (deletes : list TaskDeleteInfo)
  : M (Sharded P) unit :=
  match deletes with
  | [] => mret tt
  | _ =>
      let! r := fanOut del_ID order (fun b => db (ResultRepository.BatchRemoveFromInprogAndClearLease b)) (fun _ _ => tt) tt deletes in
      joined "sharded batch remove" r
  end.
End ops.
End ShardedResultRepository.
