(* ===== verification/Cluster.v ===== *)
(** A cluster of nodes ([src/internal/cluster]: [server.go], [router.go],
    [result_router.go], [client.go], the messages of [clusterpb]) and the
    saturating conversions of [src/internal/safeint].

    A member is one process: its repository (the result repository shares the
    store), the filter of its own ids, the cache of its peers' filters and the
    connections it has dialed.  A router method runs on a member [self]; a
    remote call runs a server handler on the owner's state.  What the network
    does with the [n]-th call is the argument [ce_net]: a request or a reply
    can be lost, with the error the caller sees. *)

From S2P Require Import Prelude GoTime Domain Keys LeaseTable PebbleDB Backoff TaskRepo ResultRepo Hash Ring Bloom.

(** ** Conversions *)

Definition Int32 (value : Z) : Z :=
  if 2147483647 <? value then 2147483647
  else if value <? -2147483648 then -2147483648
  else value.

(** Package [timestamppb]. *)
Class Timestamppb := { timestamp : Type; ts_New : Z -> timestamp; ts_AsTime : timestamp -> Z }.
Class TimestamppbLaws `{Timestamppb} : Prop := { ts_roundtrip t : ts_AsTime (ts_New t) = t }.

(** [sonic] on a [map[string]any]; [unmarshal_map] gives the map, which a
    JSON null leaves nil, or nothing for a malformed text. *)
Class MapJSON := { marshal_map : option string -> string; unmarshal_map : string -> option (option string) }.
Class MapJSONLaws `{MapJSON} : Prop := {
  map_roundtrip m : unmarshal_map (marshal_map m) = Some m;
  marshal_map_nonempty m : marshal_map m <> ""
}.

(** ** Messages *)

Module clusterpb.
Section messages.
Context `{Timestamppb}.

Record Task := mkTask {
  Id : string; Command : string; Payload : string; Priority : Z; Webhook : string; MaxAttempts : Z;
  Status : string; LastKnownLocation : string; WorkerId : string; LeaseUntil : string; Attempts : Z;
  TenantId : string; Error : string; ResultKey : string;
  CreatedAt : option timestamp; UpdatedAt : option timestamp; TraceParent : string; TraceState : string
}.

Record ResultRecord := mkResultRecord {
  r_TaskId : string; r_Status : string; r_ResultJson : string; r_Error : string;
  r_CompletedAt : option timestamp; r_Artifacts : list string
}.

Record EnqueueRequest := mkEnqueueRequest {
  eq_Id : string; eq_Command : string; eq_Payload : string; eq_Priority : Z; eq_Webhook : string;
  eq_MaxAttempts : Z; eq_IdempotencyKey : string; eq_VisibleAtUnix : Z; eq_TenantId : string
}.
Record EnqueueResponse := mkEnqueueResponse { ep_Task : option Task; ep_Ready : bool }.
Record GetTaskResponse := mkGetTaskResponse { gp_Task : option Task; gp_NotFound : bool }.
Record HeartbeatRequest := mkHeartbeatRequest { hq_TaskId : string; hq_WorkerId : string; hq_ExtendSeconds : Z }.
Record HeartbeatResponse := mkHeartbeatResponse { hp_NotFound : bool; hp_NotOwner : bool }.
Record AbandonResponse := mkAbandonResponse { ap_NotFound : bool; ap_NotOwner : bool; ap_NotInProgress : bool }.
Record NackRequest := mkNackRequest {
  nq_TaskId : string; nq_WorkerId : string; nq_DelaySeconds : Z; nq_MaxAttemptsDefault : Z; nq_Reason : string
}.
Record NackResponse := mkNackResponse {
  np_AppliedDelaySeconds : Z; np_Dlq : bool; np_NotFound : bool; np_NotOwner : bool; np_NotInProgress : bool
}.
Record GetResultResponse := mkGetResultResponse { rp_Record : option ResultRecord; rp_NotFound : bool }.
Record UpdateOnCompleteRequest := mkUpdateOnCompleteRequest {
  uq_TaskId : string; uq_Command : string; uq_TenantId : string; uq_Status : string; uq_ErrorMsg : string
}.
Record LocalClaimRequest := mkLocalClaimRequest {
  cq_WorkerId : string; cq_Commands : list string; cq_LeaseSeconds : Z; cq_InspectLimit : Z;
  cq_MaxAttemptsDefault : Z; cq_TenantId : string
}.
Record LocalClaimResponse := mkLocalClaimResponse { cp_Task : option Task; cp_Empty : bool }.
Record QueueStatsResponse := mkQueueStatsResponse { sp_Ready : Z; sp_Delayed : Z; sp_InProgress : Z; sp_Dlq : Z }.
End messages.
Arguments mkEnqueueResponse {_}.
Arguments mkGetTaskResponse {_}.
Arguments mkGetResultResponse {_}.
Arguments mkLocalClaimResponse {_}.
End clusterpb.

Section conversions.
Context `{Timestamppb} `{MapJSON}.

Definition domainTaskToProto (t : Task) : clusterpb.Task :=
  clusterpb.mkTask t.(ID) t.(Command) t.(Payload) (Int32 t.(Priority)) t.(Webhook) (Int32 t.(MaxAttempts))
    t.(Status) t.(LastKnownLocation) t.(WorkerID) t.(LeaseUntil) (Int32 t.(Attempts)) t.(TenantID) t.(TaskError)
    t.(ResultKey) (Some (ts_New t.(CreatedAt))) (Some (ts_New t.(UpdatedAt))) t.(TraceParent) t.(TraceState).

(** [int(p.Priority)] and the like widen. *)
Definition protoToDomainTask (p : clusterpb.Task) : Task :=
  let asTime (o : option timestamp) := match o with Some ts => ts_AsTime ts | None => zero_time end in
  mkTask (clusterpb.Id p) (clusterpb.Command p) (clusterpb.Payload p) (clusterpb.Priority p) (clusterpb.Webhook p)
    (clusterpb.TraceParent p) (clusterpb.TraceState p) (clusterpb.Status p) (clusterpb.LastKnownLocation p)
    (clusterpb.WorkerId p) (clusterpb.LeaseUntil p) (clusterpb.Attempts p) (clusterpb.MaxAttempts p)
    (clusterpb.Error p) (clusterpb.ResultKey p) (clusterpb.TenantId p)
    (asTime (clusterpb.CreatedAt p)) (asTime (clusterpb.UpdatedAt p)).

(** An empty text leaves the map nil, a malformed one too. *)
Definition decodeResultJSON (raw : string) : option string :=
  if bool_decide (raw = "") then None else default None (unmarshal_map raw).

Definition domainResultToProto (rec : ResultRecord) : clusterpb.ResultRecord :=
  clusterpb.mkResultRecord (rr_TaskID rec) (rr_Status rec)
    (match rr_Result rec with Some m => marshal_map (Some m) | None => "" end) (rr_Error rec)
    (if is_zero (rr_CompletedAt rec) then None else Some (ts_New (rr_CompletedAt rec)))
    (map aout_Name (rr_Artifacts rec)).

Definition protoToResultRecord (p : clusterpb.ResultRecord) : ResultRecord :=
  mkResultRecord (clusterpb.r_TaskId p) (clusterpb.r_Status p) (decodeResultJSON (clusterpb.r_ResultJson p))
    (clusterpb.r_Error p) (map (fun a => mkArtifactOut a "") (clusterpb.r_Artifacts p))
    (match clusterpb.r_CompletedAt p with Some ts => ts_AsTime ts | None => zero_time end).
End conversions.

(** [errMessageHas]; no error of the program is an [errSentinel], so the
    comparison of the text decides. *)
Definition errMessageHas (e : error) (substr : string) : bool := contains_s (error_text e) substr.
Definition isNotFound (e : error) : bool := errMessageHas e "not-found".
Definition isNotOwner (e : error) : bool := errMessageHas e "not-owner".
Definition isNotInProgress (e : error) : bool := errMessageHas e "not-in-progress".

(** ** Members *)

Record member (P : Type) := mkMember {
  mb_repo : Repo P; mb_bloom : option Bloom; mb_cache : option BloomCache; mb_dials : gset string
}.
Arguments mkMember {P}.
Arguments mb_repo {P}.
Arguments mb_bloom {P}.
Arguments mb_cache {P}.
Arguments mb_dials {P}.

Record Cluster (P : Type) := mkCluster { cl_members : gmap string (member P); cl_calls : nat }.
Arguments mkCluster {P}.
Arguments cl_members {P}.
Arguments cl_calls {P}.

Inductive delivery :=
  | Delivered
  | Lost (e : error)
  | NoReply (e : error).

(** The ring of the configuration, the network, the failures of a dial, the
    error a client sees for an error of a handler, the members' clocks, and
    the parameters of the retry delays. *)
Record cluster_env := mkClusterEnv {
  ce_ring : Ring; ce_net : nat -> delivery; ce_dial : Node -> option error; ce_status : error -> error;
  ce_clock : string -> Z; ce_cvt : Z; ce_seed : Z -> Z
}.

Section member.
Context {P : Type}.

Definition set_repo (r : Repo P) (mb : member P) : member P := mkMember r (mb_bloom mb) (mb_cache mb) (mb_dials mb).
Definition set_bloom (b : option Bloom) (mb : member P) : member P := mkMember (mb_repo mb) b (mb_cache mb) (mb_dials mb).
Definition set_cache (c : option BloomCache) (mb : member P) : member P := mkMember (mb_repo mb) (mb_bloom mb) c (mb_dials mb).
Definition set_dials (d : gset string) (mb : member P) : member P := mkMember (mb_repo mb) (mb_bloom mb) (mb_cache mb) d.

Definition repo {A} (m : M (Repo P) A) : M (member P) A := mlift mb_repo set_repo m.
Definition results {A} (m : M (DB P) A) : M (member P) A := repo (db m).

(** The id of a new task, put into the member's filter if it has one. *)
Definition publishID (id : string) : M (member P) unit := fun mb =>
  match mb_bloom mb with
  | None => (Ok tt, mb)
  | Some b => let (r, b') := Add id b in (r, set_bloom (Some b') mb)
  end.
End member.

(** ** The gRPC service of a member *)

Module Server.
Section handlers.
Context {P : Type} `{Pebble P} `{JSON} `{Timestamppb} `{MapJSON}.
Variables (cvt_overflow : Z) (seed1 : Z -> Z).
Implicit Types (now : Z).
Import clusterpb.

Definition Enqueue now (req : EnqueueRequest) : M (member P) EnqueueResponse :=
  let visibleAt := if 0 <? eq_VisibleAtUnix req then eq_VisibleAtUnix req * second else zero_time in
  let! r := repo (TaskRepository.EnqueueWithID now (eq_Id req) (eq_Command req) (eq_Payload req) (eq_Priority req)
                    (eq_Webhook req) (eq_MaxAttempts req) (eq_IdempotencyKey req) visibleAt (eq_TenantId req)) in
  publishID (fst r).(Domain.ID) ;;!
  mret (mkEnqueueResponse (Some (domainTaskToProto (fst r))) (snd r)).

Definition GetTask (id : string) : M (member P) GetTaskResponse :=
  let! r := mtry (repo (TaskRepository.Get id)) in
  match r with
  | Ok t => mret (mkGetTaskResponse (Some (domainTaskToProto t)) false)
  | Err e => if isNotFound e then mret (mkGetTaskResponse None true) else mthrow e
  end.

Definition Heartbeat now (req : HeartbeatRequest) : M (member P) HeartbeatResponse :=
  let! r := mtry (repo (TaskRepository.Heartbeat now (hq_TaskId req) (hq_WorkerId req) (hq_ExtendSeconds req))) in
  match r with
  | Ok _ => mret (mkHeartbeatResponse false false)
  | Err e => if isNotFound e then mret (mkHeartbeatResponse true false)
             else if isNotOwner e then mret (mkHeartbeatResponse false true)
             else mthrow e
  end.

Definition Abandon now (taskID workerID : string) : M (member P) AbandonResponse :=
  let! r := mtry (repo (TaskRepository.Abandon now taskID workerID)) in
  match r with
  | Ok _ => mret (mkAbandonResponse false false false)
  | Err e => if isNotFound e then mret (mkAbandonResponse true false false)
             else if isNotOwner e then mret (mkAbandonResponse false true false)
             else if isNotInProgress e then mret (mkAbandonResponse false false true)
             else mthrow e
  end.

Definition Nack now (req : NackRequest) : M (member P) NackResponse :=
  let! r := mtry (repo (TaskRepository.Nack now (nq_TaskId req) (nq_WorkerId req) (nq_DelaySeconds req)
                          (nq_MaxAttemptsDefault req) (nq_Reason req))) in
  match r with
  | Ok (delay, dlq) => mret (mkNackResponse (Int32 delay) dlq false false false)
  | Err e => if isNotFound e then mret (mkNackResponse 0 false true false false)
             else if isNotOwner e then mret (mkNackResponse 0 false false true false)
             else if isNotInProgress e then mret (mkNackResponse 0 false false false true)
             else mthrow e
  end.

(** The flag is [NotFound]; the command and tenant arguments of the request
    are not used by the repository. *)
Definition SaveResult now (rec : ResultRecord) : M (member P) bool :=
  let! r := mtry (results (ResultRepository.SaveResult now (protoToResultRecord rec))) in
  match r with
  | Ok _ => mret false
  | Err e => if isNotFound e then mret true else mthrow e
  end.

Definition GetResult (id : string) : M (member P) GetResultResponse :=
  let! r := mtry (results (ResultRepository.GetResult id)) in
  match r with
  | Ok rec => mret (mkGetResultResponse (Some (domainResultToProto rec)) false)
  | Err e => if isNotFound e then mret (mkGetResultResponse None true) else mthrow e
  end.

Definition UpdateOnComplete now (req : UpdateOnCompleteRequest) : M (member P) bool :=
  let! r := mtry (results (ResultRepository.UpdateTaskOnComplete now (uq_TaskId req) (uq_Command req) (uq_TenantId req)
                             (uq_Status req) (uq_ErrorMsg req))) in
  match r with
  | Ok _ => mret false
  | Err e => if isNotFound e then mret true else mthrow e
  end.

Definition LocalClaim now (req : LocalClaimRequest) : M (member P) LocalClaimResponse :=
  let inspect := if cq_InspectLimit req <=? 0 then 50 else cq_InspectLimit req in
  let! t := repo (TaskRepository.Claim cvt_overflow seed1 now (cq_WorkerId req) (cq_Commands req) (cq_LeaseSeconds req)
                    inspect (cq_MaxAttemptsDefault req) (cq_TenantId req)) in
  match t with
  | None => mret (mkLocalClaimResponse None true)
  | Some t => mret (mkLocalClaimResponse (Some (domainTaskToProto t)) false)
  end.

Definition PendingLength (cmd : string) : M (member P) Z := repo (TaskRepository.PendingLength cmd).

Definition QueueStats (cmd tenantID : string) : M (member P) QueueStatsResponse :=
  let! q := repo (TaskRepository.QueueStats cmd tenantID) in
  mret (mkQueueStatsResponse (qs_Ready q) (qs_Delayed q) (qs_InProgress q) (qs_DLQ q)).

(** All counts of the repository are [int64]. *)
Definition AdminQueues : M (member P) (gmap string Z) := repo TaskRepository.AdminQueues.

Definition BloomSnapshot (nodeID : string) : M (member P) snapshotResponse := fun mb =>
  (Ok (match mb_bloom mb with
       | None => mkSnapshotResponse "" 0 0 0 nodeID
       | Some b => let '(mBits, k, items, seq) := Snapshot_ b in mkSnapshotResponse mBits k items seq nodeID
       end), mb).
End handlers.
End Server.

(** ** Calls between members *)

Section calls.
Context {P : Type}.
Variable E : cluster_env.
Implicit Types (s : Cluster P) (self : string).

Definition onMember {A} (id : string) (m : M (member P) A) : M (Cluster P) A := fun s =>
  match cl_members s !! id with
  | None => (Err (ErrExternal "no such process"), s)
  | Some mb => let (r, mb') := m mb in (r, mkCluster (<[id := mb']> (cl_members s)) (cl_calls s))
  end.

(** [ClientPool.Client]: the first call dials. *)
Definition Client self (n : Node) : M (Cluster P) unit :=
  onMember self (fun mb =>
    if decide (n_ID n ∈ mb_dials mb) then (Ok tt, mb)
    else match ce_dial E n with
         | Some e => (Err (ErrWrap ("dial " +:+ n_ID n +:+ " (" +:+ n_GRPCAddr n +:+ ")") e), mb)
         | None => (Ok tt, set_dials ({[n_ID n]} ∪ mb_dials mb) mb)
         end).

(** One request to a node. *)
Definition call {A} (n : Node) (handler : M (member P) A) : M (Cluster P) A := fun s =>
  let s1 := mkCluster (cl_members s) (S (cl_calls s)) in
  match ce_net E (cl_calls s) with
  | Lost e => (Err e, s1)
  | Delivered =>
      let (r, s2) := onMember (n_ID n) handler s1 in
      (match r with Ok a => Ok a | Err e => Err (ce_status E e) end, s2)
  | NoReply e => let (r, s2) := onMember (n_ID n) handler s1 in (Err e, s2)
  end.

(** [ClientPool.CallEach]: the calls run in parallel, each on another member,
    and all are waited for. *)
Definition CallEach {A} self (nodes : list Node) (fn : Node -> M (member P) A) : M (Cluster P) (list (Node * res A)) :=
  mfold nodes [] (fun out n =>
    let! r := mtry (Client self n ;;! call n (fn n)) in
    mret (out ++ [(n, r)])).

Definition localRing self : LocalRing := mkLocalRing (ce_ring E) self.

Definition peerHasLikely self (ownerID key : string) : M (Cluster P) bool :=
  onMember self (fun mb =>
    match mb_cache mb with
    | None => (Ok true, mb)
    | Some c => (peerMaybeHas c ownerID key, mb)
    end).

(** The frame of the calls about one id: the local repository, or, unless the
    owner's filter excludes the id, a request to the owner. *)
Definition byID {A R} self (id : string) (local : M (Repo P) A) (remote : M (member P) R) (answer : R -> res A)
  : M (Cluster P) A :=
  if IsLocal (localRing self) id then onMember self (repo local)
  else
    let owner := Owner (ce_ring E) id in
    let! likely := peerHasLikely self (n_ID owner) id in
    if negb likely then mthrow (ErrText "not-found")
    else
      Client self owner ;;!
      let! resp := call owner remote in
      match answer resp with Ok a => mret a | Err e => mthrow e end.
End calls.

(** ** The task router *)

Module TaskRouter.
Section ops.
Context {P : Type} `{Pebble P} `{JSON} `{Timestamppb} `{MapJSON}.
Variable E : cluster_env.
Implicit Types (self : string).

Definition notFound : error := ErrText "not-found".
Definition notOwner : error := ErrText "not-owner".
Definition notInProgress : error := ErrText "not-in-progress".

(** [genID] gives the results of the successive calls of [uuid.NewString]. *)
Definition EnqueueWithReady self (genID : nat -> string) (cmd payload : string) (priority : Z) (webhook : string)
  (maxAttempts : Z) (idempotencyKey : string) (visibleAt : Z) (tenantID : string) : M (Cluster P) (option Task * bool) :=
  let id := GenerateLocalID (localRing E self) genID in
  if IsLocal (localRing E self) id then
    let! r := onMember self (repo (TaskRepository.EnqueueWithID (ce_clock E self) id cmd payload priority webhook
                                     maxAttempts idempotencyKey visibleAt tenantID)) in
    onMember self (publishID (fst r).(ID)) ;;!
    mret (Some (fst r), snd r)
  else
    let owner := Owner (ce_ring E) id in
    wrap_err ("dial owner " +:+ n_ID owner) (Client E self owner) ;;!
    let visible := if is_zero visibleAt then 0 else unix visibleAt in
    let! resp := call E owner (Server.Enqueue (ce_clock E (n_ID owner))
                   (clusterpb.mkEnqueueRequest id cmd payload (Int32 priority) webhook (Int32 maxAttempts)
                      idempotencyKey visible tenantID)) in
    mret (option_map protoToDomainTask (clusterpb.ep_Task resp), clusterpb.ep_Ready resp).

Definition Enqueue self (genID : nat -> string) (cmd payload : string) (priority : Z) (webhook : string)
  (maxAttempts : Z) (idempotencyKey : string) (visibleAt : Z) (tenantID : string) : M (Cluster P) (option Task) :=
  let! r := EnqueueWithReady self genID cmd payload priority webhook maxAttempts idempotencyKey visibleAt tenantID in
  mret (fst r).

Definition Get self (taskID : string) : M (Cluster P) (option Task) :=
  byID E self taskID (let! t := TaskRepository.Get taskID in mret (Some t)) (Server.GetTask taskID)
    (fun resp => if clusterpb.gp_NotFound resp then Err notFound
                 else Ok (option_map protoToDomainTask (clusterpb.gp_Task resp))).

Definition Heartbeat self (taskID workerID : string) (extendSeconds : Z) : M (Cluster P) unit :=
  byID E self taskID (TaskRepository.Heartbeat (ce_clock E self) taskID workerID extendSeconds)
    (Server.Heartbeat (ce_clock E (n_ID (Owner (ce_ring E) taskID)))
       (clusterpb.mkHeartbeatRequest taskID workerID (Int32 extendSeconds)))
    (fun resp => if clusterpb.hp_NotFound resp then Err notFound
                 else if clusterpb.hp_NotOwner resp then Err notOwner
                 else Ok tt).

Definition Abandon self (taskID workerID : string) : M (Cluster P) unit :=
  byID E self taskID (TaskRepository.Abandon (ce_clock E self) taskID workerID)
    (Server.Abandon (ce_clock E (n_ID (Owner (ce_ring E) taskID))) taskID workerID)
    (fun resp => if clusterpb.ap_NotFound resp then Err notFound
                 else if clusterpb.ap_NotOwner resp then Err notOwner
                 else if clusterpb.ap_NotInProgress resp then Err notInProgress
                 else Ok tt).

Definition Nack self (taskID workerID : string) (delaySeconds maxAttemptsDefault : Z) (reason : string)
  : M (Cluster P) (Z * bool) :=
  byID E self taskID (TaskRepository.Nack (ce_clock E self) taskID workerID delaySeconds maxAttemptsDefault reason)
    (Server.Nack (ce_clock E (n_ID (Owner (ce_ring E) taskID)))
       (clusterpb.mkNackRequest taskID workerID (Int32 delaySeconds) (Int32 maxAttemptsDefault) reason))
    (fun resp => if clusterpb.np_NotFound resp then Err notFound
                 else if clusterpb.np_NotOwner resp then Err notOwner
                 else if clusterpb.np_NotInProgress resp then Err notInProgress
                 else Ok (clusterpb.np_AppliedDelaySeconds resp, clusterpb.np_Dlq resp)).

(** The first answer with a task, in the order of the peers. *)
Fixpoint firstTask (rs : list (Node * res clusterpb.LocalClaimResponse)) : option (option Task) :=
  match rs with
  | [] => None
  | (_, Ok lc) :: rs' => if clusterpb.cp_Empty lc then firstTask rs'
                         else Some (option_map protoToDomainTask (clusterpb.cp_Task lc))
  | (_, Err _) :: rs' => firstTask rs'
  end.

Definition Claim self (workerID : string) (commands : list string)
  (leaseSeconds inspectLimit maxAttemptsDefault : Z) (tenantID : string) : M (Cluster P) (option (option Task)) :=
  let! t := onMember self (repo (TaskRepository.Claim (ce_cvt E) (ce_seed E) (ce_clock E self) workerID commands
              leaseSeconds inspectLimit maxAttemptsDefault tenantID)) in
  match t with
  | Some t => mret (Some (Some t))
  | None =>
      let req := clusterpb.mkLocalClaimRequest workerID commands (Int32 leaseSeconds) (Int32 inspectLimit)
                   (Int32 maxAttemptsDefault) tenantID in
      let! rs := CallEach E self (Peers (localRing E self))
                   (fun n => Server.LocalClaim (ce_cvt E) (ce_seed E) (ce_clock E (n_ID n)) req) in
      mret (firstTask rs)
  end.

Definition MoveDueDelayed self (cmd : string) (limit : Z) : M (Cluster P) Z :=
  onMember self (repo (TaskRepository.MoveDueDelayed (ce_clock E self) cmd limit)).

Definition CleanupExpired self (limit before : Z) : M (Cluster P) Z :=
  onMember self (repo (TaskRepository.CleanupExpired limit before)).

(** The answers of the peers, those that failed left out, added to the local
    value. *)
Definition gather {A B} self (local : B) (fn : M (member P) A) (add : B -> A -> B) : M (Cluster P) B :=
  let! rs := CallEach E self (Peers (localRing E self)) (fun _ => fn) in
  mret (fold_left (fun acc r => match snd r with Ok a => add acc a | Err _ => acc end) rs local).

Definition PendingLength self (cmd : string) : M (Cluster P) Z :=
  let! localN := onMember self (repo (TaskRepository.PendingLength cmd)) in
  gather self localN (Server.PendingLength cmd) (fun total n => wrap64 (total + n)).

Definition addStats (q : QueueStats) (r : clusterpb.QueueStatsResponse) : QueueStats :=
  mkStats (qs_Command q) (wrap64 (qs_Ready q + clusterpb.sp_Ready r)) (wrap64 (qs_Delayed q + clusterpb.sp_Delayed r))
    (wrap64 (qs_InProgress q + clusterpb.sp_InProgress r)) (wrap64 (qs_DLQ q + clusterpb.sp_Dlq r)).

Definition QueueStats self (cmd tenantID : string) : M (Cluster P) Domain.QueueStats :=
  let! local := onMember self (repo (TaskRepository.QueueStats cmd tenantID)) in
  gather self local (Server.QueueStats cmd tenantID) addStats.

Definition addCounts (out m : gmap string Z) : gmap string Z :=
  map_fold (fun k v out => <[k := match out !! k with Some cur => wrap64 (cur + v) | None => v end]> out) out m.

Definition AdminQueues self : M (Cluster P) (gmap string Z) :=
  let! local := onMember self (repo TaskRepository.AdminQueues) in
  gather self local Server.AdminQueues addCounts.
End ops.
End TaskRouter.

(** ** The result router *)

Module ResultRouter.
Section ops.
Context {P : Type} `{Pebble P} `{JSON} `{Timestamppb} `{MapJSON}.
Variable E : cluster_env.
(** The order in which a loop over a map of owners runs. *)
Variable order : list string -> list string.
Implicit Types (self : string).

Definition notFound : error := ErrText "not-found".

Definition GetTask self (id : string) : M (Cluster P) (option Task) :=
  byID E self id (let! t := db (ResultRepository.GetTask id) in mret (Some t)) (Server.GetTask id)
    (fun resp => if clusterpb.gp_NotFound resp then Err notFound
                 else Ok (option_map protoToDomainTask (clusterpb.gp_Task resp))).

Definition GetResult self (id : string) : M (Cluster P) (option ResultRecord) :=
  byID E self id (let! r := db (ResultRepository.GetResult id) in mret (Some r)) (Server.GetResult id)
    (fun resp => if clusterpb.rp_NotFound resp then Err notFound
                 else Ok (option_map protoToResultRecord (clusterpb.rp_Record resp))).

Definition GetTaskAndResult self (id : string)
  : M (Cluster P) (option Task * option ResultRecord * option error) :=
  let! t := mtry (GetTask self id) in
  match t with
  | Err e => mret (None, None, Some e)
  | Ok t =>
      let! rec := mtry (GetResult self id) in
      match rec with
      | Err e => mret (t, None, Some e)
      | Ok rec => mret (t, rec, None)
      end
  end.

Definition flagged (b : bool) : res unit := if b then Err notFound else Ok tt.

Definition SaveResult self (rec : ResultRecord) : M (Cluster P) unit :=
  byID E self (rr_TaskID rec) (db (ResultRepository.SaveResult (ce_clock E self) rec))
    (Server.SaveResult (ce_clock E (n_ID (Owner (ce_ring E) (rr_TaskID rec))))
       (clusterpb.mkResultRecord (rr_TaskID rec) (rr_Status rec) (marshal_map (rr_Result rec)) (rr_Error rec) None []))
    flagged.

Definition UpdateTaskOnComplete self (id cmd tenantID status errorMsg : string) : M (Cluster P) unit :=
  byID E self id (db (ResultRepository.UpdateTaskOnComplete (ce_clock E self) id cmd tenantID status errorMsg))
    (Server.UpdateOnComplete (ce_clock E (n_ID (Owner (ce_ring E) id)))
       (clusterpb.mkUpdateOnCompleteRequest id cmd tenantID status errorMsg))
    flagged.

Definition RemoveFromInprogAndClearLease self (id cmd tenantID : string) : M (Cluster P) unit :=
  if IsLocal (localRing E self) id
  then onMember self (results (ResultRepository.RemoveFromInprogAndClearLease id cmd tenantID))
  else UpdateTaskOnComplete self id cmd tenantID "" "".

Definition DecodeBase64 (str : string) : option string := ResultRepository.DecodeBase64 str.

(** The items of each owner, in their order. *)
Definition groupBy {A} (key : A -> string) (items : list A) : gmap string (list A) :=
  fold_left (fun out a =>
    let ownerID := n_ID (Owner (ce_ring E) (key a)) in
    <[ownerID := default [] (out !! ownerID) ++ [a]]> out) items ∅.

(** A loop over the owners: the local group through the repository, the others
    one request per item. *)
Definition eachOwner {A B} self (groups : gmap string (list A)) (b : B)
  (local : B -> list A -> M (Cluster P) B) (remote : Node -> B -> A -> M (Cluster P) B) : M (Cluster P) B :=
  mfold (order (elements (dom groups))) b (fun b ownerID =>
    let group := default [] (groups !! ownerID) in
    if bool_decide (ownerID = self) then local b group
    else
      let owner := default zero_node (Node_ (ce_ring E) ownerID) in
      Client E self owner ;;! mfold group b (remote owner)).

Definition GetTasksBatch self (ids : list string) : M (Cluster P) (gmap string (option Task)) :=
  eachOwner self (groupBy (fun id => id) ids) ∅
    (fun out owned =>
       let! m := onMember self (results (ResultRepository.GetTasksBatch owned)) in
       mret ((Some <$> m) ∪ out))
    (fun owner out id =>
       let! resp := call E owner (Server.GetTask id) in
       mret (if clusterpb.gp_NotFound resp then out
             else <[id := option_map protoToDomainTask (clusterpb.gp_Task resp)]> out)).

Definition BatchUpdateTasksOnComplete self (updates : list TaskCompleteUpdate) : M (Cluster P) unit :=
  let! tasks := GetTasksBatch self (map up_ID updates) in
  mfor updates (fun u => match tasks !! up_ID u with
                         | Some _ => mret tt
                         | None => mthrow (ErrText ("not-found: " +:+ up_ID u))
                         end) ;;!
  eachOwner self (groupBy up_ID updates) tt
    (fun _ group => onMember self (results (ResultRepository.BatchUpdateTasksOnComplete (ce_clock E self) group)))
    (fun owner _ u =>
       match tasks !! up_ID u with
       | Some (Some t) =>
           call E owner (Server.UpdateOnComplete (ce_clock E (n_ID owner))
             (clusterpb.mkUpdateOnCompleteRequest (up_ID u) t.(Command) t.(TenantID) (up_Status u) (up_ErrorMsg u))) ;;!
           mret tt
       | _ => mthrow (Panic "nil pointer dereference")
       end).

Definition BatchRemoveFromInprogAndClearLease self (deletes : list TaskDeleteInfo) : M (Cluster P) unit :=
  eachOwner self (groupBy del_ID deletes) tt
    (fun _ group => onMember self (results (ResultRepository.BatchRemoveFromInprogAndClearLease group)))
    (fun owner _ d =>
       call E owner (Server.UpdateOnComplete (ce_clock E (n_ID owner))
         (clusterpb.mkUpdateOnCompleteRequest (del_ID d) (del_Command d) (del_TenantID d) "" "")) ;;!
       mret tt).
End ops.
End ResultRouter.

(** ** Gossip *)

Section gossip.
Context {P : Type}.
Variable E : cluster_env.

(** [Gossiper.pollAll]. *)
Definition pollAll (self : string) : M (Cluster P) unit :=
  let! rs := CallEach E self (Peers (localRing E self)) (fun n => Server.BloomSnapshot (n_ID n)) in
  mfor rs (fun r => onMember self (mmod (fun mb =>
    set_cache (option_map (pollOne (ce_cvt E) (match snd r with Ok snap => Some snap | Err _ => None end)) (mb_cache mb)) mb))).
End gossip.
