(* ===== verification/ClusterRoute.v ===== *)
(** Routing is transparent: whichever member a call about a task is made on,
    it has the effect and the answer of the call on the owner's repository. *)

From S2P Require Import Prelude GoTime Domain Keys LeaseTable PebbleDB Backoff TaskRepo ResultRepo Hash Ring Bloom Cluster.

(** ** The wire *)

Definition int32 (z : Z) : Prop := -2147483648 <= z <= 2147483647.

Lemma Int32_id z : int32 z -> Int32 z = z.
Proof. intros [H1 H2]. unfold Int32. destruct (Z.ltb_spec 2147483647 z); [lia|]. destruct (Z.ltb_spec z (-2147483648)); lia. Qed.

Lemma Int32_range z : int32 (Int32 z).
Proof. unfold Int32, int32. destruct (Z.ltb_spec 2147483647 z); [lia|]. destruct (Z.ltb_spec z (-2147483648)); lia. Qed.

(** The integers of a task fit the wire. *)
Definition wire_ok (t : Task) : Prop := int32 t.(Priority) /\ int32 t.(MaxAttempts) /\ int32 t.(Attempts).

Section wire.
Context `{TimestamppbLaws} `{MapJSONLaws}.

Lemma task_wire t : wire_ok t -> protoToDomainTask (domainTaskToProto t) = t.
Proof.
  intros (Hp & Hm & Ha). unfold protoToDomainTask, domainTaskToProto. cbn.
  rewrite !ts_roundtrip, !Int32_id by done. by destruct t.
Qed.

(** Of a result the names of the artifacts survive, not their addresses. *)
Lemma result_wire r :
  protoToResultRecord (domainResultToProto r) =
    mkResultRecord (rr_TaskID r) (rr_Status r) (rr_Result r) (rr_Error r)
      (map (fun a => mkArtifactOut (aout_Name a) "") (rr_Artifacts r)) (rr_CompletedAt r).
Proof.
  unfold protoToResultRecord, domainResultToProto, decodeResultJSON. cbn.
  rewrite map_map. f_equal.
  - destruct (rr_Result r) as [m|]; [|done]. rewrite bool_decide_false by apply marshal_map_nonempty.
    by rewrite map_roundtrip.
  - unfold is_zero. destruct (_ =? _) eqn:Ez; [by apply Z.eqb_eq in Ez | apply ts_roundtrip].
Qed.
End wire.

(** ** One call about an id *)

Section route.
Context {P : Type}.
Variable E : cluster_env.
Implicit Types (s : Cluster P) (self : string).

Definition ownerID (id : string) : string := n_ID (Owner (ce_ring E) id).

(** The call gets through: the owner's process is there, and, when it is
    another one, its filter does not exclude the id, the dial succeeds and the
    next request and its reply are delivered. *)
Definition reaches s self (id : string) : Prop :=
  self = ownerID id \/
  ((exists mb, cl_members s !! self = Some mb /\
      match mb_cache mb with None => True | Some c => peerMaybeHas c (ownerID id) id = Ok true end) /\
   ce_dial E (Owner (ce_ring E) id) = None /\ ce_net E (cl_calls s) = Delivered).

(** Only the repository of [owner] changed, into [r']; connections and the
    number of calls aside. *)
Definition served (owner : string) (r' : Repo P) s s' : Prop :=
  forall n, match cl_members s !! n, cl_members s' !! n with
            | Some mb, Some mb' =>
                mb_repo mb' = (if decide (n = owner) then r' else mb_repo mb) /\
                mb_bloom mb' = mb_bloom mb /\ mb_cache mb' = mb_cache mb
            | None, None => True
            | _, _ => False
            end.

Lemma IsLocal_spec self id : IsLocal (localRing E self) id = bool_decide (self = ownerID id).
Proof.
  unfold IsLocal, localRing, ownerID. cbn. apply bool_decide_ext. split; congruence.
Qed.

Lemma onMember_at {A} s n mb (m : M (member P) A) :
  cl_members s !! n = Some mb ->
  onMember n m s = (fst (m mb), mkCluster (<[n := snd (m mb)]> (cl_members s)) (cl_calls s)).
Proof. intros Hm. unfold onMember. rewrite Hm. by destruct (m mb). Qed.

Lemma served_put s mem1 owner mb mb' r' calls :
  cl_members s !! owner = Some mb -> mb_repo mb' = r' -> mb_bloom mb' = mb_bloom mb -> mb_cache mb' = mb_cache mb ->
  (forall n, n <> owner -> mem1 !! n = cl_members s !! n \/
     exists m0 d, cl_members s !! n = Some m0 /\ mem1 !! n = Some (set_dials d m0)) ->
  served owner r' s (mkCluster (<[owner := mb']> mem1) calls).
Proof.
  intros Hm Hr Hb Hc Ho n. cbn [cl_members]. destruct (decide (n = owner)) as [->|Hn].
  - rewrite Hm, lookup_insert_eq. done.
  - rewrite lookup_insert_ne by done. destruct (Ho n Hn) as [->|(m0 & d & -> & ->)]; [|done].
    by destruct (cl_members s !! n).
Qed.

Lemma byID_local {A R} s id mb local (remote : M (member P) R) (answer : R -> res A) :
  cl_members s !! ownerID id = Some mb ->
  exists s', byID E (ownerID id) id local remote answer s = (fst (local (mb_repo mb)), s') /\
    served (ownerID id) (snd (local (mb_repo mb))) s s'.
Proof.
  intros Hm. unfold byID. rewrite IsLocal_spec, bool_decide_true by done. rewrite (onMember_at s _ mb) by done.
  unfold repo, mlift. destruct (local (mb_repo mb)) as [x r']. cbn [fst snd]. eexists. split; [done|].
  eapply served_put; [done | done | done | done|]. by left.
Qed.

Lemma byID_remote {A R} s self id mb local (remote : M (member P) R) (answer : R -> res A) y r' :
  cl_members s !! ownerID id = Some mb -> reaches s self id -> self <> ownerID id -> remote mb = (y, set_repo r' mb) ->
  exists s', byID E self id local remote answer s =
      (match y with Ok resp => answer resp | Err e => Err (ce_status E e) end, s') /\
    served (ownerID id) r' s s'.
Proof.
  intros Hm [Hl|((ms & Hself & Hc) & Hd & Hn)] Hne Hr; [done|]. unfold byID.
  rewrite IsLocal_spec, bool_decide_false by done. unfold peerHasLikely, mbnd. rewrite (onMember_at s self ms) by done.
  assert (exists m1, (match mb_cache ms with None => (Ok true, ms) | Some c => (peerMaybeHas c (n_ID (Owner (ce_ring E) id)) id, ms) end)
    = (Ok true, m1) /\ m1 = ms) as (m1 & -> & ->).
  { exists ms. destruct (mb_cache ms); [fold (ownerID id); by rewrite Hc | done]. }
  cbn [fst snd negb]. rewrite insert_id by done. destruct s as [mem calls]. cbn [cl_members cl_calls] in *.
  unfold Client. rewrite (onMember_at _ self ms) by done. cbn [cl_members cl_calls].
  set (d := if decide (n_ID (Owner (ce_ring E) id) ∈ mb_dials ms) then mb_dials ms else {[n_ID (Owner (ce_ring E) id)]} ∪ mb_dials ms).
  assert ((if decide (n_ID (Owner (ce_ring E) id) ∈ mb_dials ms) then (Ok tt, ms)
    else match ce_dial E (Owner (ce_ring E) id) with
         | Some e => (Err (ErrWrap ("dial " +:+ n_ID (Owner (ce_ring E) id) +:+ " (" +:+ n_GRPCAddr (Owner (ce_ring E) id) +:+ ")") e), ms)
         | None => (Ok tt, set_dials ({[n_ID (Owner (ce_ring E) id)]} ∪ mb_dials ms) ms) end) = (Ok tt, set_dials d ms)) as ->.
  { rewrite Hd. subst d. destruct (decide _); [by destruct ms | done]. }
  cbn [fst snd]. unfold call. cbn [cl_calls]. rewrite Hn. fold (ownerID id).
  rewrite (onMember_at _ _ mb) by (cbn [cl_members]; by rewrite lookup_insert_ne).
  rewrite Hr. cbn [fst snd cl_members cl_calls].
  exists (mkCluster (<[ownerID id := set_repo r' mb]> (<[self := set_dials d ms]> mem)) (S calls)).
  split; [by destruct y as [resp|e]; [destruct (answer resp)|]|].
  apply (served_put _ _ _ mb); [done | done | done | done|].
  intros n Hno. destruct (decide (n = self)) as [->|Hs]; [|left; by rewrite lookup_insert_ne].
  right. exists ms, d. by rewrite lookup_insert_eq.
Qed.

(** ** Errors over the wire *)

(** What the caller sees for an error of the owner's repository: the first of
    the flags its text contains, or what gRPC makes of it. *)
Fixpoint seen (flags : list string) (e : error) : error :=
  match flags with
  | [] => ce_status E e
  | f :: flags' => if errMessageHas e f then ErrText f else seen flags' e
  end.

Definition same_answer {A} (flags : list string) (x y : res A) : Prop :=
  match x, y with
  | Ok a, Ok b => b = a
  | Err e, Err e' => e' = e \/ e' = seen flags e
  | _, _ => False
  end.

Definition allFlags : list string := ["not-found"; "not-owner"; "not-in-progress"].

(** The refusals of the repository arrive as they are. *)
Lemma seen_refusal f : f ∈ allFlags -> seen allFlags (ErrText f) = ErrText f.
Proof. intros Hf. unfold allFlags in Hf. repeat (apply elem_of_cons in Hf as [->|Hf]; [reflexivity|]). by apply elem_of_nil in Hf. Qed.

Lemma same_answer_refl {A} flags (x : res A) : same_answer flags x x.
Proof. destruct x; cbn; auto. Qed.

(** A routed call against the same call on the owner's repository. *)
Definition as_owner {A} flags (mb : member P) (id : string) (op : M (Repo P) A) s (routed : res A * Cluster P) : Prop :=
  same_answer flags (fst (op (mb_repo mb))) (fst routed) /\
  served (ownerID id) (snd (op (mb_repo mb))) s (snd routed).

Lemma byID_as_owner {A R} flags s self id mb (local op : M (Repo P) A) (remote : M (member P) R) (answer : R -> res A) :
  cl_members s !! ownerID id = Some mb -> reaches s self id -> (self = ownerID id -> local = op) ->
  (forall x r', op (mb_repo mb) = (x, r') -> exists y, remote mb = (y, set_repo r' mb) /\
     same_answer flags x (match y with Ok resp => answer resp | Err e => Err (ce_status E e) end)) ->
  as_owner flags mb id op s (byID E self id local remote answer s).
Proof.
  intros Hm Hr Hl Hy. unfold as_owner. destruct (op (mb_repo mb)) as [x r'] eqn:Ex. destruct (decide (self = ownerID id)) as [Hs|Hs].
  - rewrite (Hl Hs), Hs. destruct (byID_local s id mb op remote answer Hm) as (s' & -> & Hd). rewrite Ex in *.
    split; [apply same_answer_refl | done].
  - destruct (Hy _ _ eq_refl) as (y & Ey & Ha).
    destruct (byID_remote s self id mb local remote answer _ _ Hm Hr Hs Ey) as (s' & -> & Hd). by split.
Qed.
End route.

(** ** The router's calls *)

Section transparent.
Context {P : Type} `{Pebble P} `{JSON} `{TimestamppbLaws} `{MapJSON}.
Variable E : cluster_env.
Implicit Types (s : Cluster P) (self : string).

(** A property of the results of a computation. *)
Definition yields {S A} (Q : A -> Prop) (m : M S A) : Prop := forall s : S, match fst (m s) with Ok a => Q a | Err _ => True end.

Lemma yields_bind {S A B} (Q : B -> Prop) (m : M S A) (f : A -> M S B) : (forall a, yields Q (f a)) -> yields Q (mbnd m f).
Proof. intros Hf s. unfold mbnd. destruct (m s) as [[a|e] s']; [apply Hf | done]. Qed.

Lemma Nack_yields now id w d maxA reason :
  int32 d -> yields (fun x => int32 (fst x)) (TaskRepository.Nack (P := P) now id w d maxA reason).
Proof.
  intros Hd. apply yields_bind. intros t. destruct (_ && _); [done|]. destruct (bool_decide _); [done|]. cbv zeta.
  destruct (MaxAttempts _ <=? Attempts _); repeat (apply yields_bind; intros ?); intros s; cbn; [done|].
  destruct (Z.ltb_spec d 0); [done | exact Hd].
Qed.

(** A server handler that runs one operation of the repository, whose result
    is [Ex]. *)
Ltac handler Ex :=
  unfold mbnd, mtry, repo, mlift; rewrite Ex; cbn [fst snd];
  repeat match goal with |- context [if ?b then _ else _] => destruct b eqn:? end;
  eexists; (split; [reflexivity|]); cbn;
  unfold isNotFound, isNotOwner, isNotInProgress in *;
  repeat match goal with Hb : errMessageHas _ _ = _ |- _ => rewrite Hb; clear Hb end; auto.

(** C13. Routing is transparent.  When the call gets through, a read, a
    heartbeat, an abandon, a nack or a completion made on any member has on
    the owner's repository exactly the effect of the same call made there,
    changes no other repository, and returns its answer; the refusals the
    callers look at arrive unchanged. *)
Theorem router_transparent s self id mb w ext delay maxA reason cmd ten st msg :
  cl_members s !! ownerID E id = Some mb -> reaches E s self id ->
  int32 ext -> int32 delay -> int32 maxA ->
  (forall t r, TaskRepository.Get id (mb_repo mb) = (Ok t, r) -> wire_ok t) ->
  let now := ce_clock E (ownerID E id) in
  as_owner E ["not-found"] mb id (let! t := TaskRepository.Get id in mret (Some t)) s (TaskRouter.Get E self id s) /\
  as_owner E ["not-found"; "not-owner"] mb id (TaskRepository.Heartbeat now id w ext) s (TaskRouter.Heartbeat E self id w ext s) /\
  as_owner E allFlags mb id (TaskRepository.Abandon now id w) s (TaskRouter.Abandon E self id w s) /\
  as_owner E allFlags mb id (TaskRepository.Nack now id w delay maxA reason) s (TaskRouter.Nack E self id w delay maxA reason s) /\
  as_owner E ["not-found"] mb id (db (ResultRepository.UpdateTaskOnComplete now id cmd ten st msg)) s
    (ResultRouter.UpdateTaskOnComplete E self id cmd ten st msg s) /\
  (forall f, f ∈ allFlags -> seen E allFlags (ErrText f) = ErrText f).
Proof.
  intros Hm Hr He Hd Ha Hw now.
  split_and!; [| | | | |apply seen_refusal]; (eapply byID_as_owner; [done | done | by intros -> |]); intros x r' Ex.
  - unfold mbnd in Ex. destruct (TaskRepository.Get id (mb_repo mb)) as [[t|e] r1] eqn:Eg; injection Ex as <- <-.
    + unfold Server.GetTask. handler Eg. by rewrite task_wire by by eapply Hw.
    + unfold Server.GetTask. handler Eg.
  - unfold Server.Heartbeat. cbn [clusterpb.hq_TaskId clusterpb.hq_WorkerId clusterpb.hq_ExtendSeconds].
    rewrite Int32_id by done. fold (ownerID E id) now. destruct x as [[]|e]; handler Ex.
  - unfold Server.Abandon. fold (ownerID E id) now. destruct x as [[]|e]; handler Ex.
  - unfold Server.Nack. cbn. rewrite !Int32_id by done. fold (ownerID E id) now. destruct x as [[d b]|e]; handler Ex.
    pose proof (Nack_yields now id w delay maxA reason Hd (mb_repo mb)) as Hy. rewrite Ex in Hy. by rewrite Int32_id.
  - unfold Server.UpdateOnComplete, results. cbn. fold (ownerID E id) now. destruct x as [[]|e]; handler Ex.
Qed.
End transparent.
