(* ===== verification/Reaper.v ===== *)
(** The background sweeper ([src/internal/repository/pebble/reaper.go]):
    definitions.  It holds the [DB] handle and its options, and no reference
    to the task repository: it cannot reach the claim channels or the delayed
    counters.  The ticker is the caller: one tick is one call. *)

From S2P Require Import Prelude GoTime Domain Keys LeaseTable PebbleDB Backoff TaskRepo ResultRepo.

Record ReaperOptions := mkReaperOptions {
  ro_LeaseInterval : Z;
  ro_TTLInterval : Z;
  ro_LeaseBatch : Z;
  ro_TTLBatch : Z;
  ro_BackoffPolicy : string;
  ro_BackoffBaseSeconds : Z;
  ro_BackoffMaxSeconds : Z;
  ro_MaxAttemptsDefault : Z;
  ro_DLQCallback : bool;
  ro_LeaderGate : option bool
}.

Module Reaper.

Definition orDefault (v d : Z) : Z := if v <=? 0 then d else v.

(** The options after the defaults of the constructor.  [ro_DLQCallback] says
    whether a callback is set; [ro_LeaderGate] is what the gate, if set,
    returns at the tick. *)
Definition NewReaper (opts : ReaperOptions) : ReaperOptions :=
  mkReaperOptions
    (orDefault (ro_LeaseInterval opts) (2 * second))
    (orDefault (ro_TTLInterval opts) (30 * second))
    (orDefault (ro_LeaseBatch opts) 256)
    (orDefault (ro_TTLBatch opts) 512)
    (if bool_decide (ro_BackoffPolicy opts = "") then "exp_full_jitter" else ro_BackoffPolicy opts)
    (orDefault (ro_BackoffBaseSeconds opts) 5)
    (orDefault (ro_BackoffMaxSeconds opts) 900)
    (orDefault (ro_MaxAttemptsDefault opts) 5)
    (ro_DLQCallback opts) (ro_LeaderGate opts).

Section ops.
Context {P : Type} `{Pebble P} `{JSON}.
Variables (cvt_overflow : Z) (seed1 : Z -> Z).
Variable r : ReaperOptions.

(** A call of the dead-letter callback. *)
Abbreviation callback := (Task * ResultRecord)%type.

Definition charged (t : Task) : Task :=
  let t := set_Attempts (t.(Attempts) + 1) t in
  let t := if t.(MaxAttempts) <=? 0 then set_MaxAttempts (ro_MaxAttemptsDefault r) t else t in
  if t.(MaxAttempts) <=? 0 then set_MaxAttempts 1 t else t.

Definition expired_dlq (now : Z) (t : Task) : Task :=
  set_UpdatedAt now (set_TaskError "LEASE_EXPIRED" (set_LeaseUntil "" (set_WorkerID ""
    (set_LastKnownLocation LocationDLQ (set_Status StatusFailed t))))).

Definition expired_delayed (now : Z) (t : Task) : Task :=
  set_UpdatedAt now (set_LeaseUntil "" (set_WorkerID ""
    (set_LastKnownLocation LocationDelayed (set_Status StatusPending t)))).

Definition requeueExpiredOne (now : Z) (t : Task) (delaySeconds : Z) : M (DB P) (option callback) :=
  let t := charged t in
  let del := OpDelete (KeyInprog t.(Command) t.(TenantID) t.(ID)) in
  if t.(MaxAttempts) <=? t.(Attempts) then
    let t' := expired_dlq now t in
    CommitBatch [del; OpSet (KeyDLQ t'.(Command) t'.(TenantID) t'.(ID)) "";
                 OpSet (KeyTask t'.(ID)) (marshal_task t')] ;;!
    ResultRepository.dbLeases (leaseTable.Delete t'.(ID)) ;;!
    mret (if ro_DLQCallback r
          then Some (t', mkResultRecord t'.(ID) StatusFailed None t'.(TaskError) [] now) else None)
  else
    let visibleAt := now + seconds delaySeconds in
    let t' := expired_delayed now t in
    CommitBatch [del; OpSet (KeyDelayed t'.(Command) t'.(TenantID) (unixSeconds visibleAt) t'.(ID)) "";
                 OpSet (KeyTask t'.(ID)) (marshal_task t')] ;;!
    ResultRepository.dbLeases (leaseTable.Delete t'.(ID)) ;;!
    mret None.

(** One id of the snapshot; a failed requeue is logged and skipped. *)
Definition sweepOne (now : Z) (acc : Z * list callback) (id : string) : M (DB P) (Z * list callback) :=
  let '(moved, cbs) := acc in
  let! d := mget in
  let still := match leaseTable.Get id (db_leases d) with
               | Some e => unix now <? le_untilU e
               | None => false
               end in
  if still then mret (moved, cbs)
  else
    let forget := ResultRepository.dbLeases (leaseTable.Delete id) ;;! mret (moved, cbs) in
    let! g := mtry (PebbleDB.Get (KeyTask id)) in
    match g with
    | Err e => if is_not_found e then forget else mthrow e
    | Ok taskJSON =>
        match unmarshal_task taskJSON with
        | None => forget
        | Some t =>
            if bool_decide (t.(Status) <> StatusInProgress) then forget
            else
              match Backoff.Compute cvt_overflow seed1 (ro_BackoffPolicy r) (ro_BackoffBaseSeconds r)
                      (ro_BackoffMaxSeconds r) t.(Attempts) None with
              | Err e => mthrow e
              | Ok delaySeconds =>
                  let! q := mtry (requeueExpiredOne now t delaySeconds) in
                  match q with
                  | Err _ => mret (moved, cbs)
                  | Ok cb => mret (moved + 1, cbs ++ match cb with Some c => [c] | None => [] end)
                  end
              end
        end
    end.

(** [order] is the iteration order of the lease map. *)
Definition sweepLeases (order : list (string * leaseEntry) -> list (string * leaseEntry)) (now : Z)
  : M (DB P) (Z * list callback) :=
  let! d := mget in
  mfold (leaseTable.SnapshotExpired order (unix now) (ro_LeaseBatch r) (db_leases d)) (0, [])
    (sweepOne now).

Definition sweepTTL (now : Z) : M (DB P) Z :=
  let! ks := Iter (pTTL, Some (pTTL +:+ be8 (wrapu64 (unixSeconds now + 1)))) in
  let bucket :=
    take (Z.to_nat (ro_TTLBatch r))
      (omap (fun k => match ParseDelayedKey k with Some id => Some (k, id) | None => None end) ks) in
  match bucket with
  | [] => mret 0
  | _ =>
      CommitBatch (concat (map (fun '(ttlKey, id) => [OpDelete (KeyTask id); OpDelete ttlKey]) bucket)) ;;!
      mfor bucket (fun c => ResultRepository.dbLeases (leaseTable.Delete (snd c))) ;;!
      mret (Z.of_nat (length bucket))
  end.

(** One iteration of [loop]: gated ticks do nothing, failed ticks are
    logged; a panic is not recovered. *)
Definition tick {A} (sweep : M (DB P) A) : M (DB P) (option A) :=
  match ro_LeaderGate r with
  | Some false => mret None
  | _ =>
      let! x := mtry sweep in
      match x with
      | Ok a => mret (Some a)
      | Err (Panic m) => mthrow (Panic m)
      | Err _ => mret None
      end
  end.
End ops.
End Reaper.
