(* ===== verification/Scheduler.v ===== *)
(** The scheduler service ([src/internal/services/scheduler_service.go]) over
    the Pebble task repository: definitions.  Notifications and callbacks are
    returned as values; tracing and metrics are not modelled.  [url.Parse] is
    an argument that returns the scheme and the host of a URL. *)

From S2P Require Import Prelude GoTime Domain Keys GoText LeaseTable PebbleDB Backoff TaskRepo.

(** ** The service *)

Record schedulerConfig := mkScheduler {
  sc_notifier : bool;
  sc_callback : bool;
  sc_defaultLease : Z;
  sc_requeueInspectLimit : Z;
  sc_maxAttemptsDefault : Z;
  sc_backoffPolicy : string;
  sc_backoffBaseSeconds : Z;
  sc_backoffMaxSeconds : Z
}.

Module schedulerService.

Definition NewSchedulerService (notifier callback : bool)
  (defaultLease inspectLimit maxAttemptsDefault : Z) (backoffPolicy : string)
  (backoffBaseSeconds backoffMaxSeconds : Z) : schedulerConfig :=
  mkScheduler notifier callback defaultLease inspectLimit
    (if maxAttemptsDefault <=? 0 then 5 else maxAttemptsDefault)
    (if bool_decide (backoffPolicy = "") then "exp_full_jitter" else backoffPolicy)
    (if backoffBaseSeconds <=? 0 then 5 else backoffBaseSeconds)
    (if backoffMaxSeconds <=? 0 then 900 else backoffMaxSeconds).

Section ops.
Context {P : Type} `{Pebble P} `{JSON}.
Variables (cvt_overflow : Z) (seed1 : Z -> Z).
Variable url_Parse : string -> option (string * string).
(** [rng.Intn] of the service's generator. *)
Variable rng : Z -> Z.
Variable s : schedulerConfig.

Definition validWebhook (webhook : string) : bool :=
  match url_Parse webhook with
  | None => false
  | Some (scheme, host) =>
      (bool_decide (scheme = "http") || bool_decide (scheme = "https")) && bool_decide (host <> "")
  end.

(** The task and whether queue readiness is announced. *)
Definition CreateTask (newID : string) (now : Z) (cmd payload : string) (priority : Z) (webhook : string)
  (maxAttempts : Z) (idempotencyKey : string) (runAt delaySeconds : Z) (tenantID : string)
  : M (Repo P) (Task * bool) :=
  if blank cmd then mthrow (ErrText "invalid command")
  else if bool_decide (webhook <> "") && negb (validWebhook webhook)
  then mthrow (ErrText "invalid webhook url")
  else
    let maxAttempts := if maxAttempts <=? 0 then sc_maxAttemptsDefault s else maxAttempts in
    let visibleAt :=
      if negb (is_zero runAt) then runAt
      else if 0 <? delaySeconds then now + seconds delaySeconds
      else zero_time in
    let! r := TaskRepository.EnqueueWithReady newID now cmd payload priority webhook maxAttempts
                idempotencyKey visibleAt tenantID in
    mret (fst r, sc_notifier s && snd r).

Definition defaultCommands (commands : list string) : list string :=
  match commands with [] => [CmdGenerateMaster; CmdGenerateCreative] | _ => commands end.

Definition defaultLeaseOf (leaseSeconds : Z) : Z :=
  if leaseSeconds <=? 0 then sc_defaultLease s else leaseSeconds.

(** Over a repository that implements [batchClaimer], as the local and the
    sharded one do. *)
Definition ClaimManyTasks (now : Z) (workerID : string) (commands : list string) (leaseSeconds max : Z)
  (tenantID : string) : M (Repo P) (list Task) :=
  if bool_decide (workerID = "") then mthrow (ErrText "workerId is required")
  else if max <=? 0 then mret []
  else TaskRepository.ClaimMany cvt_overflow seed1 now workerID (defaultCommands commands) (defaultLeaseOf leaseSeconds) max
         (sc_requeueInspectLimit s) (sc_maxAttemptsDefault s) tenantID.

(** Over another repository, as the cluster's router: one claim after the
    other, [claim commands leaseSeconds k] being the [k]-th.  What has been
    claimed is returned with an error too. *)
Fixpoint claimLoop {St} (n k : nat) (out : list Task) (claim : nat -> M St (option Task)) : M St (list Task * option error) :=
  match n with
  | O => mret (out, None)
  | S n' =>
      let! r := mtry (claim k) in
      match r with
      | Err e => mret (out, Some e)
      | Ok None => mret (out, None)
      | Ok (Some t) => claimLoop n' (S k) (out ++ [t]) claim
      end
  end.

Definition ClaimManyLoop {St} (claim : list string -> Z -> nat -> M St (option Task)) (workerID : string)
  (commands : list string) (leaseSeconds max : Z) : M St (list Task * option error) :=
  if bool_decide (workerID = "") then mthrow (ErrText "workerId is required")
  else if max <=? 0 then mret ([], None)
  else claimLoop (Z.to_nat max) 0 [] (claim (defaultCommands commands) (defaultLeaseOf leaseSeconds)).

(** The long-poll loop.  The timer sleeps exactly what it is set to, the clock
    moves by that, and [between k] is what the rest of the system does during
    the [k]-th sleep; [cancelled k] says whether the context ends in it. *)
Definition pollInterval : Z := 250 * millisecond.

Fixpoint poll (fuel : nat) (between : nat -> M (Repo P) unit) (cancelled : nat -> bool) (k : nat)
  (now deadline : Z) (workerID : string) (commands : list string) (leaseSeconds : Z) (tenantID : string)
  : M (Repo P) (option Task) :=
  match fuel with
  | O => mthrow (ErrText "out of fuel")
  | S f =>
      let! t := TaskRepository.Claim cvt_overflow seed1 now workerID commands leaseSeconds (sc_requeueInspectLimit s)
                  (sc_maxAttemptsDefault s) tenantID in
      match t with
      | Some t => mret (Some t)
      | None =>
          let remaining := deadline - now in
          if remaining <=? 0 then mret None
          else
            let sleep := if remaining <? pollInterval then remaining else pollInterval in
            let! _ := mtry (between k) in
            if cancelled k then mthrow (ErrText "context canceled")
            else poll f between cancelled (S k) (now + sleep) deadline workerID commands leaseSeconds tenantID
      end
  end.

Definition ClaimTask (between : nat -> M (Repo P) unit) (cancelled : nat -> bool) (now : Z)
  (workerID : string) (commands : list string) (leaseSeconds waitSeconds : Z) (tenantID : string)
  : M (Repo P) (option Task) :=
  if bool_decide (workerID = "") then mthrow (ErrText "workerId is required")
  else
    let commands := defaultCommands commands in
    let leaseSeconds := defaultLeaseOf leaseSeconds in
    if waitSeconds <=? 0 then
      TaskRepository.Claim cvt_overflow seed1 now workerID commands leaseSeconds (sc_requeueInspectLimit s)
        (sc_maxAttemptsDefault s) tenantID
    else
      let waitSeconds := if 30 <? waitSeconds then 30 else waitSeconds in
      poll (4 * Z.to_nat waitSeconds + 1) between cancelled 0 now (now + seconds waitSeconds)
        workerID commands leaseSeconds tenantID.

Definition Heartbeat (now : Z) (taskID workerID : string) (extendSeconds : Z) : M (Repo P) unit :=
  TaskRepository.Heartbeat now taskID workerID
    (if extendSeconds <=? 0 then sc_defaultLease s else extendSeconds).

Definition Abandon (now : Z) (taskID workerID : string) : M (Repo P) unit :=
  TaskRepository.Abandon now taskID workerID.

Definition computeBackoff (attempts : Z) : res Z :=
  Backoff.Compute cvt_overflow seed1 (sc_backoffPolicy s) (sc_backoffBaseSeconds s) (sc_backoffMaxSeconds s)
    attempts (Some rng).

(** The delay, whether the task is dead, and the callback that is sent. *)
Definition NackTask (now : Z) (taskID workerID : string) (delaySeconds : Z) (reason : string)
  : M (Repo P) (Z * bool * option (Task * ResultRecord)) :=
  if bool_decide (workerID = "") then mthrow (ErrText "workerId is required")
  else
    let! t := TaskRepository.Get taskID in
    if bool_decide (t.(WorkerID) <> workerID) then mthrow (ErrText "not-owner")
    else if bool_decide (t.(Status) <> StatusInProgress) then mthrow (ErrText "not-in-progress")
    else
      match (if delaySeconds <=? 0 then computeBackoff t.(Attempts) else Ok delaySeconds) with
      | Err e => mthrow e
      | Ok delaySeconds =>
          let delaySeconds :=
            if sc_backoffMaxSeconds s <? delaySeconds then sc_backoffMaxSeconds s else delaySeconds in
          let! r := TaskRepository.Nack now taskID workerID delaySeconds (sc_maxAttemptsDefault s) reason in
          let '(attempts, terminal) := r in
          let effectiveReason := if bool_decide (reason = "") then "MAX_ATTEMPTS" else reason in
          mret (attempts, terminal,
                if terminal && sc_callback s
                then Some (t, mkResultRecord taskID StatusFailed None effectiveReason [] now) else None)
      end.

Definition GetTask (id : string) : M (Repo P) Task := TaskRepository.Get id.
Definition AdminQueues : M (Repo P) (gmap string Z) := TaskRepository.AdminQueues.
Definition QueueStats (cmd tenantID : string) : M (Repo P) Domain.QueueStats :=
  TaskRepository.QueueStats cmd tenantID.

Definition CleanupExpired (now limit before : Z) : M (Repo P) Z :=
  let before := if is_zero before then now else before in
  let limit := if limit <=? 0 then 1000 else limit in
  TaskRepository.CleanupExpired limit before.
End ops.
End schedulerService.

(** The loop hands out at most as many tasks as it was asked for. *)
Lemma claimLoop_length {St} n k out (claim : nat -> M St (option Task)) st l e :
  fst (schedulerService.claimLoop n k out claim st) = Ok (l, e) -> (length l <= length out + n)%nat.
Proof.
  revert k out st. induction n as [|n IH]; intros k out st; cbn [schedulerService.claimLoop].
  - intros [= <- _]. lia.
  - unfold mbnd, mtry. destruct (claim k st) as [[[t|]|err] st']; [|intros [= <- _]; lia..].
    intros Hl%IH. rewrite length_app in Hl. cbn in Hl. lia.
Qed.


(** ** The long poll ends *)

Section poll_ends.
Context {P : Type} `{Pebble P} `{JSON}.
Variables (cvt_overflow : Z) (seed1 : Z -> Z) (s : schedulerConfig).
Variables (between : nat -> M (Repo P) unit) (cancelled : nat -> bool).
Variables (workerID tenantID : string).

(** Every round but the last uses up a full interval of the wait. *)
Lemma poll_fuel commands leaseSeconds n : forall extra k now deadline r,
  let poll f := schedulerService.poll cvt_overflow seed1 s f between cancelled k now deadline workerID
                  commands leaseSeconds tenantID in
  deadline - now <= Z.of_nat n * schedulerService.pollInterval ->
  poll (S n + extra)%nat r = poll (S n) r.
Proof.
  cbv zeta. induction n as [|n IH]; intros extra k now deadline r Hd.
  - cbn [schedulerService.poll Nat.add]. unfold mbnd at 1 3.
    destruct (TaskRepository.Claim _ _ _ _ _ _ _ _ _ r) as [[[t|]|e] r1]; try done.
    by rewrite (proj2 (Z.leb_le _ _)) by lia.
  - change (S (S n) + extra)%nat with (S (S n + extra)). cbn [schedulerService.poll].
    unfold mbnd at 1 3. destruct (TaskRepository.Claim _ _ _ _ _ _ _ _ _ r) as [[[t|]|e] r1]; try done.
    destruct (Z.leb_spec (deadline - now) 0); [done|].
    unfold mbnd at 1 2. destruct (mtry (between k) r1) as [[x|e] r2]; [|done].
    destruct (cancelled k); [done|]. apply IH.
    change schedulerService.pollInterval with 250000000 in *.
    destruct (Z.ltb_spec (deadline - now) 250000000); lia.
Qed.

(** C35. The long poll ends.  A wait is clamped to thirty seconds, and a claim
    that waits [w] seconds makes at most [4 w + 1] rounds whatever the other
    callers do during its sleeps: any larger fuel gives the same outcome, so
    it is never the fuel that ends the loop. *)
Theorem ClaimTask_terminates commands leaseSeconds now waitSeconds f r :
  workerID <> "" -> 0 < waitSeconds -> (4 * Z.to_nat (Z.min waitSeconds 30) + 1 <= f)%nat ->
  schedulerService.ClaimTask cvt_overflow seed1 s between cancelled now workerID commands leaseSeconds
    waitSeconds tenantID r =
  schedulerService.poll cvt_overflow seed1 s f between cancelled 0 now
    (now + Z.min waitSeconds 30 * second) workerID (schedulerService.defaultCommands commands)
    (schedulerService.defaultLeaseOf s leaseSeconds) tenantID r.
Proof.
  intros Hw Hp Hf. unfold schedulerService.ClaimTask.
  rewrite bool_decide_eq_false_2 by done. rewrite (proj2 (Z.leb_gt _ _)) by lia.
  assert ((if 30 <? waitSeconds then 30 else waitSeconds) = Z.min waitSeconds 30) as ->
    by (destruct (Z.ltb_spec 30 waitSeconds); lia).
  set (w := Z.min waitSeconds 30) in *.
  rewrite seconds_exact by (unfold max_duration_seconds; lia).
  replace (4 * Z.to_nat w + 1)%nat with (S (4 * Z.to_nat w)) in * by lia.
  replace f with (S (4 * Z.to_nat w) + (f - S (4 * Z.to_nat w)))%nat by lia.
  symmetry. apply poll_fuel.
  change schedulerService.pollInterval with 250000000. unfold second. lia.
Qed.
End poll_ends.

Lemma ClaimTask_terminates_witness :
  let cfg := schedulerService.NewSchedulerService false false 60 200 5 "" 5 900 in
  let r := TaskRepository.emptyRepo (mkDB (∅ : memstore.store) 0 None false ∅) "" 0 0 in
  schedulerService.ClaimTask (H0 := framed.codec) 0 (fun _ => 0) cfg (fun _ => mret tt) (fun _ => false)
    (1700000000 * second) "w1" [] 0 45 "acme" r =
  schedulerService.poll (H0 := framed.codec) 0 (fun _ => 0) cfg 1000 (fun _ => mret tt) (fun _ => false) 0
    (1700000000 * second) (1700000030 * second) "w1" [CmdGenerateMaster; CmdGenerateCreative] 60 "acme" r.
Proof.
  intros cfg r. apply (ClaimTask_terminates 0 (fun _ => 0) cfg (fun _ => mret tt) (fun _ => false) "w1" "acme" [] 0
    (1700000000 * second) 45 1000 r); [done | lia | vm_compute; lia].
Defined.
