(* ===== verification/Uploader.v ===== *)
(** The object paths of artifacts: [path.Clean] and [path.Join], and the check
    the local uploader ([src/internal/providers/uploader.go]) makes before it
    writes, which keeps every object under its root. *)

From S2P Require Import Prelude Keys.

(** ** [path.Join] and [path.Clean] *)

Module path.

Definition split_slash (s : string) : list string := splitN s "/" (S (String.length s)).

(** One path element against the cleaned elements so far, last first.  A
    relative path keeps the leading [..]s it cannot cancel. *)
Definition push (rooted : bool) (st : list string) (e : string) : list string :=
  if bool_decide (e = "") || bool_decide (e = ".") then st
  else if bool_decide (e = "..") then
    match st with
    | [] => if rooted then [] else [".."]
    | x :: st' => if bool_decide (x = "..") then ".." :: st else st'
    end
  else e :: st.

Fixpoint join_slash (l : list string) : string :=
  match l with
  | [] => ""
  | [x] => x
  | x :: l' => x +:+ "/" +:+ join_slash l'
  end.

Definition Clean (p : string) : string :=
  let rooted := has_prefix "/" p in
  let out := join_slash (rev (fold_left (push rooted) (split_slash p) [])) in
  if rooted then "/" +:+ out else if bool_decide (out = "") then "." else out.

Definition Join (elems : list string) : string :=
  match List.filter (fun e => negb (bool_decide (e = ""))) elems with
  | [] => ""
  | l => Clean (join_slash l)
  end.

End path.

(** [UploadBytes] of the local uploader up to the file system: the cleaned
    path relative to the root, or the refusal. *)
Definition uploadPath (objectPath : string) : option string :=
  let clean := path.Clean objectPath in
  if bool_decide (clean = ".") || has_prefix "/" objectPath || bool_decide (clean = "..") ||
     has_prefix "../" clean
  then None else Some clean.

(** ** Splitting and joining *)

Section split.
Import path.

Lemma split_go_free s k cur : elem "/" cur = false -> (String.length s <= k)%nat ->
  Forall (fun e => elem "/" e = false) (split_go s "/" k cur).
Proof.
  revert k cur. induction s as [|a s IH]; intros k cur Hc Hk; simpl in *; [by constructor|].
  destruct k as [|k]; [lia|]. destruct (Ascii.eqb_spec a "/") as [->|Ha].
  - constructor; [done|]. apply IH; [done | lia].
  - apply IH; [|lia]. rewrite elem_app, Hc. simpl. rewrite orb_false_r. by apply Ascii.eqb_neq.
Qed.

Lemma split_slash_free s : Forall (fun e => elem "/" e = false) (split_slash s).
Proof. apply split_go_free; [done | simpl; lia]. Qed.

(** The bound is never reached, and a part without separators is taken whole. *)
Lemma split_go_bound s k k' cur : (String.length s <= k)%nat -> (String.length s <= k')%nat ->
  split_go s "/" k cur = split_go s "/" k' cur.
Proof.
  revert k k' cur. induction s as [|a s IH]; intros k k' cur Hk Hk'; simpl in *; [done|].
  destruct k as [|k], k' as [|k']; try lia. rewrite (IH k k') by lia. by rewrite (IH (S k) (S k')) by lia.
Qed.

Lemma split_go_part x s k cur : elem "/" x = false -> (String.length (x +:+ s) <= k)%nat ->
  split_go (x +:+ s) "/" k cur = split_go s "/" k (cur +:+ x).
Proof.
  revert cur. induction x as [|a x IH]; intros cur Hx Hk; sapp; [by rewrite app_nil_s|].
  sapp_in Hk. simpl in *. apply orb_false_iff in Hx as [Ha Hx].
  destruct k as [|k]; [lia|]. rewrite Ha, IH by (done || lia). rewrite app_assoc_s. by sapp.
Qed.

Lemma split_slash_one x : elem "/" x = false -> split_slash x = [x].
Proof.
  intros Hx. unfold split_slash, splitN. rewrite <- (app_nil_s x) at 1. rewrite split_go_part; [by sapp | done|].
  rewrite app_nil_s. simpl. lia.
Qed.

Lemma split_slash_cons x s : elem "/" x = false -> split_slash (x +:+ "/" +:+ s) = x :: split_slash s.
Proof.
  intros Hx. unfold split_slash, splitN. rewrite split_go_part by (done || simpl; lia). sapp. simpl.
  rewrite length_app_s, Nat.sub_0_r. simpl. destruct (_ + _)%nat as [|k] eqn:E; [lia|]. simpl. f_equal.
  apply split_go_bound; lia.
Qed.

Lemma split_join l : l <> [] -> Forall (fun e => elem "/" e = false) l -> split_slash (join_slash l) = l.
Proof.
  intros Hl Hf. induction Hf as [|x l Hx Hf IH]; [done|]. destruct l as [|y l].
  - by apply split_slash_one.
  - change (join_slash (x :: y :: l)) with (x +:+ "/" +:+ join_slash (y :: l)).
    by rewrite split_slash_cons, IH.
Qed.
End split.

(** ** Cleaned paths *)

(** A name an element can be cleaned to. *)
Definition plain (e : string) : Prop := e <> "" /\ e <> "." /\ e <> ".." /\ elem "/" e = false.

(** The stack of a cleaning, last element first: names above parent steps,
    and no parent step under the root. *)
Definition cleaned (rooted : bool) (st : list string) : Prop :=
  exists names n, st = names ++ replicate n ".." /\ Forall plain names /\ (rooted = true -> n = 0%nat).

Section clean.
Import path.

Lemma push_cleaned rooted st e : elem "/" e = false -> cleaned rooted st -> cleaned rooted (push rooted st e).
Proof.
  intros He (names & n & -> & Hn & Hr). unfold push.
  destruct (decide (e = "")) as [->|]; [by exists names, n|].
  destruct (decide (e = ".")) as [->|]; [by exists names, n|].
  rewrite !bool_decide_false by done. cbn [orb]. case_bool_decide as Ed.
  - destruct Hn as [|x names Hx Hn]; cbn [app].
    + destruct n as [|n]; cbn [replicate].
      * destruct rooted; [by exists [], 0%nat | by exists [], 1%nat].
      * rewrite bool_decide_true by done. exists [], (S (S n)). split_and!; [done..|].
        intros ->. by specialize (Hr eq_refl).
    + destruct Hx as (_ & _ & Hx & _). rewrite bool_decide_false by done. by exists names, n.
  - exists (e :: names), n. split_and!; [done | by constructor | done].
Qed.

Lemma clean_stack rooted l st :
  Forall (fun e => elem "/" e = false) l -> cleaned rooted st -> cleaned rooted (fold_left (push rooted) l st).
Proof. intros Hl. revert st. induction Hl; intros st Hst; simpl; [done|]. by apply IHHl, push_cleaned. Qed.

Lemma plain_free l : Forall plain l -> Forall (fun e => elem "/" e = false) l.
Proof. intros. eapply Forall_impl; [done|]. by intros e (_ & _ & _ & ?). Qed.

Lemma join_nonempty x l : x <> "" -> join_slash (x :: l) <> "".
Proof. destruct x as [|a x]; [done|]. intros _. destruct l; [done|]. cbn [join_slash]. by sapp. Qed.

Lemma join_head x l : plain x -> has_prefix "/" (join_slash (x :: l)) = false.
Proof.
  intros (Hx & _ & _ & Hs). destruct x as [|a x]; [done|]. cbn [elem] in Hs. apply orb_false_iff in Hs as [Ha _].
  destruct l; cbn [join_slash]; rewrite ?app_cons_s; cbn [has_prefix]; by rewrite Ascii.eqb_sym, Ha.
Qed.

Lemma join_relative l : Forall plain l -> has_prefix "/" (join_slash l) = false.
Proof. intros [|x l' Hx _]; [done | by apply join_head]. Qed.

(** The local uploader writes under its root only: a path it accepts is
    relative and, taken apart at the separators, has neither a parent step nor
    an empty or a dot element, whatever the object path looked like. *)
Theorem upload_confined p c :
  uploadPath p = Some c -> has_prefix "/" c = false /\ Forall plain (split_slash c).
Proof.
  unfold uploadPath. destruct (_ || _) eqn:E; [done|]. intros [= <-].
  apply orb_false_iff in E as [E Hpre]. apply orb_false_iff in E as [E Hdd]. apply orb_false_iff in E as [Hdot Habs].
  apply bool_decide_eq_false in Hdd, Hdot. unfold Clean in *. rewrite Habs in *.
  set (st := fold_left _ _ _) in *.
  assert (cleaned false st) as (names & n & Est & Hn & _).
  { apply clean_stack; [apply split_slash_free | by exists [], 0%nat]. }
  rewrite Est, rev_app_distr in *. destruct n as [|n]; cycle 1.
  { exfalso. assert (rev (replicate (S n) "..") = ".." :: replicate n "..") as Er.
    { rewrite rev_alt. exact (reverse_replicate (S n) ".."). }
    rewrite Er in *. cbn [app] in *. destruct (replicate n ".." ++ rev names) as [|y l]; [done|].
    by vm_compute in Hpre. }
  cbn [replicate rev app] in *. assert (Forall plain (rev names)) as Hr by by apply Forall_rev.
  destruct (rev names) as [|x l] eqn:El; [done|].
  assert (x <> "") as Hx by (inversion Hr as [|? ? Hp]; by destruct Hp).
  rewrite bool_decide_false by (by apply join_nonempty).
  rewrite split_join by (done || by apply plain_free). split; [by apply join_relative | done].
Qed.

Lemma upload_confined_witness : Forall plain (split_slash "results/t2/report").
Proof. refine (proj2 (upload_confined "results/t1/.././t2//report" "results/t2/report" _)). vm_compute. reflexivity. Defined.

Lemma push_plain rooted l st : Forall plain l -> fold_left (push rooted) l st = rev l ++ st.
Proof.
  intros Hl. revert st. induction Hl as [|x l (H1 & H2 & H3 & _) Hl IH]; intros st; [done|]. cbn [fold_left rev].
  rewrite IH, <- app_assoc. unfold push. by rewrite !bool_decide_false by done.
Qed.

(** Cleaning a joined list of plain names, and one with a parent step. *)
Lemma Clean_plain l : l <> [] -> Forall plain l -> Clean (join_slash l) = join_slash l.
Proof.
  intros Hl Hp. unfold Clean. rewrite join_relative by done.
  rewrite split_join, push_plain, app_nil_r, rev_involutive by (done || by apply plain_free).
  destruct Hp as [|x l (Hx & _)]; [done|]. by rewrite bool_decide_false by by apply join_nonempty.
Qed.

Lemma Clean_parent l1 x l2 : l1 <> [] -> Forall plain l1 -> plain x -> Forall plain l2 ->
  Clean (join_slash (l1 ++ [x; ".."] ++ l2)) = join_slash (l1 ++ l2).
Proof.
  intros Hl H1 Hx H2. pose proof Hx as (Hx1 & Hx2 & Hx3 & Hx4). unfold Clean.
  assert (has_prefix "/" (join_slash (l1 ++ [x; ".."] ++ l2)) = false) as ->.
  { destruct H1 as [|y l1 Hy H1]; [done|]. by apply join_head. }
  rewrite split_join; [|by destruct l1|].
  2: { apply Forall_app. split; [by apply plain_free|]. repeat constructor; [done|]. by apply plain_free. }
  assert (forall st, fold_left (push false) [x; ".."] st = st) as Hup.
  { intros st. change [x; ".."] with ([x] ++ [".."]). rewrite fold_left_app, (push_plain _ [x]) by (constructor; [exact Hx | constructor]).
    cbn [fold_left rev app]. unfold push. rewrite (bool_decide_true (".." = "..")) by done.
    by rewrite !bool_decide_false by done. }
  rewrite fold_left_app, (push_plain _ l1), fold_left_app, Hup by done.
  rewrite app_nil_r, push_plain, rev_app_distr, !rev_involutive by done.
  destruct H1 as [|y l1 (Hy & _)]; [done|]. by rewrite bool_decide_false by by apply join_nonempty.
Qed.
End clean.
