(* ===== verification/ResultsService.v ===== *)
(** The results service ([src/internal/services/results_service.go]):
    definitions.  The uploader that stores the bytes is an argument; the
    callbacks that are sent are returned as values. *)

From S2P Require Import Prelude GoTime Domain Keys GoText LeaseTable PebbleDB TaskRepo ResultRepo Scheduler Uploader.

Record BatchSubmitItem := mkItem { it_TaskID : string; it_Req : SubmitResultRequest }.
Record BatchSubmitResponse := mkResponse {
  br_TaskID : string; br_Result : option ResultRecord; br_Error : string
}.

Module resultsService.
Section ops.
Context {P : Type} `{Pebble P} `{JSON}.
(** [UploadBytes objectPath contentType data]. *)
Variable UploadBytes : string -> string -> string -> res string.
(** The order in which the concurrent uploads finish. *)
Variable finish : list ArtifactIn -> list ArtifactIn.
(** Whether a callback service is configured. *)
Variable callback : bool.

Definition objPath (taskID name : string) : string := path.Join ["results"; taskID; name].

Fixpoint uploadAll (taskID : string) (l : list ArtifactIn) : res (list ArtifactOut) :=
  match l with
  | [] => Ok []
  | a :: l' =>
      match ResultRepository.DecodeBase64 (ain_ContentBase64 a) with
      | None => Err (ErrWrap ("artifact " +:+ ain_Name a +:+ " base64 decode") (ErrExternal "illegal base64 data"))
      | Some data =>
          match UploadBytes (objPath taskID (ain_Name a)) (ain_ContentType a) data with
          | Err e => Err (ErrWrap ("artifact " +:+ ain_Name a +:+ " upload") e)
          | Ok url =>
              match uploadAll taskID l' with
              | Ok outs => Ok (mkArtifactOut (ain_Name a) url :: outs)
              | Err e => Err e
              end
          end
      end
  end.

(** First the artifacts that come with a URL, then the uploads as they finish. *)
Definition artifacts (taskID : string) (l : list ArtifactIn) : res (list ArtifactOut) :=
  let outs := omap (fun a => if bool_decide (ain_URL a = "") then None
                             else Some (mkArtifactOut (ain_Name a) (ain_URL a))) l in
  let toUpload := List.filter (fun a => bool_decide (ain_URL a = "") && negb (bool_decide (ain_ContentBase64 a = ""))) l in
  match uploadAll taskID (finish toUpload) with
  | Ok ups => Ok (outs ++ ups)
  | Err e => Err e
  end.

(** The [switch req.Status]: the message of the refusal. *)
Definition checkStatus (req : SubmitResultRequest) : option string :=
  if bool_decide (sr_Status req = StatusCompleted) then
    match sr_Result req with None => Some "result required when status=COMPLETED" | Some _ => None end
  else if bool_decide (sr_Status req = StatusFailed) then
    if blank (sr_Error req) then Some "error required when status=FAILED" else None
  else Some "invalid status".

Definition notOwner (t : Task) (req : SubmitResultRequest) : bool :=
  bool_decide (t.(WorkerID) <> "") && bool_decide (sr_WorkerID req <> "") &&
  bool_decide (t.(WorkerID) <> sr_WorkerID req).

(** The record and the callback that is sent. *)
Definition Submit (now : Z) (taskID : string) (req : SubmitResultRequest)
  : M (DB P) (ResultRecord * option (Task * ResultRecord)) :=
  let! g := mtry (ResultRepository.GetTask taskID) in
  match g with
  | Err _ => mthrow (ErrText "task not found")
  | Ok task =>
      if notOwner task req then mthrow (ErrText "not-owner")
      else if bool_decide (task.(Status) <> StatusInProgress) then mthrow (ErrText "not-in-progress")
      else
        match artifacts taskID (sr_Artifacts req) with
        | Err e => mthrow e
        | Ok outs =>
            match checkStatus req with
            | Some msg => mthrow (ErrText msg)
            | None =>
                let rec := mkResultRecord taskID (sr_Status req) (sr_Result req) (sr_Error req) outs now in
                ResultRepository.SaveResult now rec ;;!
                ResultRepository.UpdateTaskOnComplete now taskID task.(Command) task.(TenantID)
                  (sr_Status req) (sr_Error req) ;;!
                mret (rec, if callback then Some (task, rec) else None)
            end
        end
  end.

Definition Get (taskID : string)
  : M (DB P) (option ResultRecord * option Task * option error) :=
  let! r := ResultRepository.GetTaskAndResult taskID in
  let '(task, rec, err) := r in
  match err with
  | None => mret (rec, task, None)
  | Some _ =>
      match task with
      | Some t => mret (None, Some t, Some (ErrText "result not found"))
      | None => mret (None, None, Some (ErrText "task not found"))
      end
  end.

(** ** BatchSubmit *)

(** Validation of one item against the tasks fetched up front. *)
Definition validateItem (now : Z) (tasks : gmap string Task) (item : BatchSubmitItem)
  : string + (ResultRecord * Task) :=
  let req := it_Req item in
  match tasks !! it_TaskID item with
  | None => inl "task not found"
  | Some task =>
      if notOwner task req then inl "not-owner"
      else if bool_decide (task.(Status) <> StatusInProgress) then inl "not-in-progress"
      else match checkStatus req with
           | Some msg => inl msg
           | None => inr (mkResultRecord (it_TaskID item) (sr_Status req) (sr_Result req) (sr_Error req) [] now, task)
           end
  end.

(** The valid items with their positions. *)
Fixpoint validItems (now : Z) (tasks : gmap string Task) (i : nat) (items : list BatchSubmitItem)
  : list (nat * (ResultRecord * Task)) :=
  match items with
  | [] => []
  | item :: items' =>
      match validateItem now tasks item with
      | inr v => (i, v) :: validItems now tasks (S i) items'
      | inl _ => validItems now tasks (S i) items'
      end
  end.

Definition firstResponse (now : Z) (tasks : gmap string Task) (item : BatchSubmitItem) : BatchSubmitResponse :=
  match validateItem now tasks item with
  | inl msg => mkResponse (it_TaskID item) None msg
  | inr _ => mkResponse "" None ""
  end.

Definition completion (rec : ResultRecord) : TaskCompleteUpdate :=
  mkUpdate (rr_TaskID rec) (rr_Status rec) (rr_Error rec).

(** The fallback when the batch fetch fails: one submission per item. *)
Fixpoint submitEach (now : Z) (items : list BatchSubmitItem)
  : M (DB P) (list BatchSubmitResponse * list (Task * ResultRecord)) :=
  match items with
  | [] => mret ([], [])
  | item :: items' =>
      let! r := mtry (Submit now (it_TaskID item) (it_Req item)) in
      let! rest := submitEach now items' in
      let '(rs, cbs) := rest in
      match r with
      | Err e => mret (mkResponse (it_TaskID item) None (error_text e) :: rs, cbs)
      | Ok (rec, cb) =>
          mret (mkResponse (it_TaskID item) (Some rec) "" :: rs,
                match cb with Some c => c :: cbs | None => cbs end)
      end
  end.

(** Responses, the error return, and the callbacks that are sent. *)
Definition BatchSubmit (now : Z) (items : list BatchSubmitItem)
  : M (DB P) (list BatchSubmitResponse * option error * list (Task * ResultRecord)) :=
  match items with
  | [] => mret ([], None, [])
  | _ =>
      let! g := mtry (ResultRepository.GetTasksBatch (map it_TaskID items)) in
      match g with
      | Err _ =>
          let! r := submitEach now items in
          mret (fst r, None, snd r)
      | Ok tasks =>
          let responses := map (firstResponse now tasks) items in
          let valid := validItems now tasks 0 items in
          let! responses := mfold valid responses (fun rs '(i, (rec, _)) =>
            let! sv := mtry (ResultRepository.SaveResult now rec) in
            match sv with
            | Ok _ => mret rs
            | Err e => mret (<[i := mkResponse (rr_TaskID rec) None (error_text e)]> rs)
            end) in
          let! up := mtry (ResultRepository.BatchUpdateTasksOnComplete now
                             (map (fun '(_, (rec, _)) => completion rec) valid)) in
          match up with
          | Err e =>
              mret (fold_left (fun rs '(i, _) =>
                      alter (fun r => mkResponse (br_TaskID r) None (error_text e)) i rs) valid responses,
                    Some e, [])
          | Ok _ =>
              let responses' := fold_left (fun rs '(i, (rec, _)) =>
                alter (fun r => if bool_decide (br_Error r = "")
                                then mkResponse (rr_TaskID rec) (Some rec) "" else r) i rs)
                valid responses in
              let sent := List.filter (fun '(i, _) =>
                match responses' !! i with Some r => bool_decide (br_Error r = "") | None => false end) valid in
              mret (responses', None,
                    if callback then map (fun '(_, (rec, task)) => (task, rec)) sent else [])
          end
      end
  end.
End ops.
End resultsService.

(** ** The answers of a batch *)

Section answers.
Context {P : Type} `{Pebble P} `{JSON}.
Variable UploadBytes : string -> string -> string -> res string.
Variable finish : list ArtifactIn -> list ArtifactIn.
Variable callback : bool.
Import resultsService.

(** [r] answers [item]. *)
Definition answers (item : BatchSubmitItem) (r : BatchSubmitResponse) : Prop := br_TaskID r = it_TaskID item.

Lemma validateItem_id now tasks item rec t : validateItem now tasks item = inr (rec, t) -> rr_TaskID rec = it_TaskID item.
Proof.
  unfold validateItem. destruct (tasks !! it_TaskID item); [|done]. destruct (notOwner _ _); [done|]. case_bool_decide; [done|].
  destruct (checkStatus _); [done|]. by intros [= <- <-].
Qed.

Lemma validItems_spec now tasks items k i v : (i, v) ∈ validItems now tasks k items <->
  exists j item, i = (k + j)%nat /\ items !! j = Some item /\ validateItem now tasks item = inr v.
Proof.
  revert k. induction items as [|item items IH]; intros k; cbn [validItems].
  { split; [by intros ?%not_elem_of_nil | by intros (j & it & _ & Hj & _); rewrite lookup_nil in Hj]. }
  assert ((exists j it, i = (k + j)%nat /\ (item :: items) !! j = Some it /\ validateItem now tasks it = inr v) <->
    (i = k /\ validateItem now tasks item = inr v) \/
    (exists j it, i = (S k + j)%nat /\ items !! j = Some it /\ validateItem now tasks it = inr v)) as ->.
  { split.
    - intros ([|j] & it & -> & Hj & Hv); [left; injection Hj as ->; split; [lia | done] | right; exists j, it; split; [lia | done]].
    - intros [[-> Hv]|(j & it & -> & Hj & Hv)]; [exists 0%nat, item; split; [lia | done] | exists (S j), it; split; [lia | done]]. }
  rewrite <- IH. destruct (validateItem now tasks item) as [msg|v'] eqn:Ev; [naive_solver|].
  rewrite elem_of_cons. split; [intros [[= -> ->]|?]; auto | intros [[-> [= ->]]|?]; auto].
Qed.

(** While a batch is worked on, an answer is in place or still blank at the
    position of a valid item. *)
Definition shaped now tasks (items : list BatchSubmitItem) (rs : list BatchSubmitResponse) : Prop :=
  Forall2 (fun item r => answers item r \/ r = mkResponse "" None "" /\ exists v, validateItem now tasks item = inr v) items rs.

Lemma shaped_first now tasks items : shaped now tasks items (map (firstResponse now tasks) items).
Proof.
  unfold shaped. apply Forall2_fmap_r, Forall_Forall2_diag, Forall_forall. intros item _. unfold compose, firstResponse, answers.
  destruct (validateItem now tasks item) as [msg|v] eqn:Ev; [left; reflexivity | right; eauto].
Qed.

Lemma shaped_insert now tasks items rs i item r : shaped now tasks items rs -> items !! i = Some item -> answers item r ->
  shaped now tasks items (<[i := r]> rs).
Proof.
  intros Hs Hi Ha. unfold shaped. rewrite <- (list_insert_id items i item Hi). apply Forall2_insert; [done | by left].
Qed.

(** The valid items point at the items they came from. *)
Definition points (items : list BatchSubmitItem) (valid : list (nat * (ResultRecord * Task))) : Prop :=
  forall i rec t, (i, (rec, t)) ∈ valid -> exists item, items !! i = Some item /\ rr_TaskID rec = it_TaskID item.

Lemma SaveResults_shaped now tasks items (valid : list (nat * (ResultRecord * Task))) rs (d : DB P) :
  shaped now tasks items rs -> points items valid ->
  exists rs' d', mfold valid rs (fun rs '(i, (rec, _)) =>
    let! sv := mtry (ResultRepository.SaveResult now rec) in
    match sv with
    | Ok _ => mret rs
    | Err e => mret (<[i := mkResponse (rr_TaskID rec) None (error_text e)]> rs)
    end) d = (Ok rs', d') /\ shaped now tasks items rs'.
Proof.
  intros Hs Hv. revert rs d Hs. induction valid as [|[i [rec t]] valid IH]; intros rs d Hs; cbn [mfold]; [by eexists _, _|].
  assert (points items valid) as Hv' by (intros i' rec' t' Hin; eapply Hv; by right).
  destruct (Hv i rec t) as (item & Hi & Hid); [constructor|].
  unfold mbnd at 1, mbnd at 1, mtry. destruct (ResultRepository.SaveResult now rec d) as [[u|e] d1]; cbn; apply IH; [done | done | done|].
  by eapply shaped_insert.
Qed.

(** The last pass: one answer filled in, and all of them. *)
Definition fillOne (rs : list BatchSubmitResponse) '((i, (rec, _)) : nat * (ResultRecord * Task)) : list BatchSubmitResponse :=
  alter (fun r => if bool_decide (br_Error r = "") then mkResponse (rr_TaskID rec) (Some rec) "" else r) i rs.

Lemma fillOne_shaped now tasks items rs i rec t item : shaped now tasks items rs -> items !! i = Some item -> rr_TaskID rec = it_TaskID item ->
  exists r, fillOne rs (i, (rec, t)) = <[i := r]> rs /\ answers item r.
Proof.
  intros Hs Hi Hid. assert (exists r0, rs !! i = Some r0) as [r0 Hr0]
    by (apply lookup_lt_is_Some_2; rewrite <- (Forall2_length _ _ _ Hs); by eapply lookup_lt_Some).
  exists (if bool_decide (br_Error r0 = "") then mkResponse (rr_TaskID rec) (Some rec) "" else r0).
  split.
  { unfold fillOne. rewrite list_insert_alter. apply list_eq. intros j. rewrite !list_lookup_alter.
    destruct (decide (i = j)); [by rewrite Hr0 | done]. }
  case_bool_decide as He; [done|].
  destruct (Forall2_lookup_lr _ _ _ _ _ _ Hs Hi Hr0) as [?|[-> _]]; [done | by destruct He].
Qed.

Lemma fill_keeps now tasks items valid rs : shaped now tasks items rs -> points items valid ->
  shaped now tasks items (fold_left fillOne valid rs) /\
  forall j item r, items !! j = Some item -> rs !! j = Some r -> answers item r ->
    exists r', fold_left fillOne valid rs !! j = Some r' /\ answers item r'.
Proof.
  revert rs. induction valid as [|[i [rec t]] valid IH]; intros rs Hs Hv; cbn [fold_left]; [by eauto|].
  destruct (Hv i rec t) as (item0 & Hi0 & Hid); [constructor|].
  destruct (fillOne_shaped now tasks items rs i rec t item0 Hs Hi0 Hid) as (r1 & -> & Ha).
  destruct (IH (<[i := r1]> rs)) as [Hs' Hk]; [by eapply shaped_insert | intros i' rec' t' Hin; eapply Hv; by right|].
  split; [done|]. intros j item r Hj Hr Har. destruct (decide (j = i)) as [->|Hne].
  - apply (Hk i item r1 Hj); [|by simplify_eq]. apply list_lookup_insert_eq. by eapply lookup_lt_Some.
  - apply (Hk j item r Hj); [|done]. by rewrite list_lookup_insert_ne.
Qed.

Lemma final_answers now tasks items rs : shaped now tasks items rs ->
  Forall2 answers items (fold_left fillOne (validItems now tasks 0 items) rs).
Proof.
  intros Hs. set (valid := validItems now tasks 0 items).
  assert (points items valid) as Hv.
  { intros i rec t (j & item & -> & Hj & Hval)%validItems_spec. exists item. split; [done|]. by eapply validateItem_id. }
  destruct (fill_keeps now tasks items valid rs Hs Hv) as [Hs' _].
  apply Forall2_same_length_lookup_2; [by eapply Forall2_length|]. intros i item r Hi Hr.
  destruct (Forall2_lookup_lr _ _ _ _ _ _ Hs' Hi Hr) as [?|[-> [v Hval]]]; [done|].
  assert ((i, v) ∈ valid) as Hin by (apply validItems_spec; by exists i, item).
  apply list_elem_of_split in Hin as (pre & post & E). rewrite E, fold_left_app in Hr. cbn [fold_left] in Hr.
  destruct (fill_keeps now tasks items pre rs Hs) as [Hs1 _].
  { intros i' rec' t' Hin. apply (Hv i' rec' t'). rewrite E, elem_of_app. by left. }
  destruct v as [rec t]. destruct (Hv i rec t) as (item' & Hi' & Hid); [rewrite E, elem_of_app, elem_of_cons; auto|].
  destruct (fillOne_shaped now tasks items _ i rec t item' Hs1 Hi' Hid) as (r1 & Ef & Ha). rewrite Ef in Hr.
  destruct (fill_keeps now tasks items post (<[i := r1]> (fold_left fillOne pre rs))) as [_ Hk].
  { by eapply shaped_insert. }
  { intros i' rec' t' Hin. apply (Hv i' rec' t'). rewrite E, elem_of_app, elem_of_cons. auto. }
  destruct (Hk i item r1 Hi) as (r' & Hr' & Har'); [|by simplify_eq|by simplify_eq].
  apply list_lookup_insert_eq. rewrite <- (Forall2_length _ _ _ Hs1). by eapply lookup_lt_Some.
Qed.

(** One at a time, every item is answered in its place. *)
Lemma submitEach_answers now items (d : DB P) : exists rs cbs d',
  submitEach UploadBytes finish callback now items d = (Ok (rs, cbs), d') /\ Forall2 answers items rs.
Proof.
  revert d. induction items as [|item items IH]; intros d; cbn [submitEach]; [by eexists _, _, _|].
  unfold mbnd at 1, mtry. destruct (Submit UploadBytes finish callback now (it_TaskID item) (it_Req item) d) as [x d1].
  unfold mbnd at 1. destruct (IH d1) as (rs & cbs & d2 & -> & Hr). destruct x as [[rec cb]|e]; eexists _, _, _; (split; [reflexivity|]);
    (constructor; [reflexivity | done]).
Qed.

(** A batch is answered item by item, unless its last write fails. *)
Lemma BatchSubmit_answers now items (d : DB P) : exists rs e cbs d',
  BatchSubmit UploadBytes finish callback now items d = (Ok (rs, e, cbs), d') /\ (e = None -> Forall2 answers items rs).
Proof.
  unfold BatchSubmit. destruct items as [|item0 items']; [by eexists _, _, _, _|]. set (items := item0 :: items').
  unfold mbnd at 1, mtry at 1. destruct (ResultRepository.GetTasksBatch (map it_TaskID items) d) as [[tasks|e] d1]; cbv zeta.
  - destruct (SaveResults_shaped now tasks items (validItems now tasks 0 items) (map (firstResponse now tasks) items) d1
      (shaped_first now tasks items)) as (rs1 & d2 & Hf & Hs).
    { intros i rec t (j & item & -> & Hj & Hval)%validItems_spec. exists item. split; [done|]. by eapply validateItem_id. }
    unfold mbnd at 1. rewrite Hf. unfold mbnd, mtry.
    destruct (ResultRepository.BatchUpdateTasksOnComplete now _ d2) as [[u|e] d3]; eexists _, _, _, _; (split; [reflexivity|]); [|done].
    intros _. exact (final_answers now tasks items rs1 Hs).
  - unfold mbnd. destruct (submitEach_answers now items d1) as (rs & cbs & d2 & -> & Hr). by eexists _, _, _, _.
Qed.
End answers.

(** ** Object paths *)

Lemma join_inj l l' : l <> [] -> l' <> [] -> Forall plain l -> Forall plain l' ->
  path.join_slash l = path.join_slash l' -> l = l'.
Proof. intros ? ? ? ? E. rewrite <- (split_join l), <- (split_join l'), E by (done || by apply plain_free). done. Qed.

Lemma results_plain l : Forall plain l -> Forall plain ("results" :: l).
Proof. constructor; [by split_and! | done]. Qed.

Lemma plain2 x y : plain x -> plain y -> Forall plain [x; y].
Proof. intros Hx Hy. constructor; [exact Hx|]. constructor; [exact Hy | constructor]. Qed.

Lemma objPath_plain taskID name : plain taskID -> plain name ->
  resultsService.objPath taskID name = path.join_slash ["results"; taskID; name].
Proof.
  intros Ht Hn. unfold resultsService.objPath, path.Join. cbn [List.filter].
  rewrite !bool_decide_false by (done || apply Ht || apply Hn). cbn [negb].
  apply Clean_plain; [done|]. by apply results_plain, plain2.
Qed.

(** Object paths of artifacts.  For plain task ids and names (no
    separator, not a dot element) the objects of different tasks or names
    differ and the local uploader accepts them; but the name is taken as it is
    sent, so a name that starts with a parent step is stored, and accepted, as
    an object of the other task it names. *)
Theorem object_paths t1 t2 n1 n2 : plain t1 -> plain t2 -> plain n1 -> plain n2 ->
  (resultsService.objPath t1 n1 = resultsService.objPath t2 n2 -> t1 = t2 /\ n1 = n2) /\
  uploadPath (resultsService.objPath t1 n1) = Some (resultsService.objPath t1 n1) /\
  resultsService.objPath t1 ("../" +:+ t2 +:+ "/" +:+ n2) = resultsService.objPath t2 n2.
Proof.
  intros H1 H2 H3 H4.
  assert (forall t n, plain t -> plain n -> Forall plain ["results"; t; n]) as Hf
    by (intros; by apply results_plain, plain2).
  split_and!.
  - rewrite !objPath_plain by done. intros E. apply join_inj in E; [by injection E | done | done | auto..].
  - rewrite objPath_plain by done. unfold uploadPath. rewrite Clean_plain by (done || auto).
    rewrite !bool_decide_false by (cbn [path.join_slash]; by rewrite app_cons_s). rewrite join_relative by auto.
    cbn [path.join_slash]. by rewrite !app_cons_s.
  - rewrite (objPath_plain t2) by done. unfold resultsService.objPath, path.Join. cbn [List.filter].
    rewrite !bool_decide_false; [|by rewrite app_cons_s | apply H1 | done]. cbn [negb].
    change (path.join_slash ["results"; t1; "../" +:+ t2 +:+ "/" +:+ n2])
      with (path.join_slash (["results"] ++ [t1; ".."] ++ [t2; n2])).
    apply Clean_parent; [done | by apply results_plain | done | by apply plain2].
Qed.

Lemma object_paths_witness :
  resultsService.objPath "t1" "../t2/report" = resultsService.objPath "t2" "report".
Proof. refine (proj2 (proj2 (object_paths "t1" "t2" "log" "report" _ _ _ _))); by split_and!. Defined.
