(* ===== verification/WorkerStream.v ===== *)
(** The worker-facing stream ([src/internal/worker/server.go]).

    A worker says Hello with its token, then sends events; each is handled by a
    goroutine of its own, so the handlers of one stream run in any order and
    interleave at their service calls.  A handler is a computation over the state
    [S] of the services that returns the events it sends; [services] is what the
    server is given ([services.SchedulerService] and [services.ResultsService]).
    The transport (gRPC, the writer goroutine and its channel) is not modelled. *)

From S2P Require Import Prelude GoTime Domain Keys GoText LeaseTable PebbleDB TaskRepo Cluster Auth Middleware Scheduler ResultsService.

(** The service calls the two streams make. *)
Record services (S : Type) := mkServices {
  sv_CreateTask : Z -> string -> string -> Z -> string -> Z -> string -> Z -> Z -> string -> M S Task;
  sv_ClaimTask : Z -> string -> list string -> Z -> Z -> string -> M S (option Task);
  sv_ClaimManyTasks : Z -> string -> list string -> Z -> Z -> string -> M S (list Task);
  sv_NackTask : Z -> string -> string -> Z -> string -> M S (Z * bool);
  sv_Heartbeat : Z -> string -> string -> Z -> M S unit;
  sv_Abandon : Z -> string -> string -> M S unit;
  sv_Submit : Z -> string -> SubmitResultRequest -> M S ResultRecord;
  sv_BatchSubmit : Z -> list BatchSubmitItem -> M S (list BatchSubmitResponse * option error)
}.
Arguments mkServices {S}.
Arguments sv_CreateTask {S}.
Arguments sv_ClaimTask {S}.
Arguments sv_ClaimManyTasks {S}.
Arguments sv_NackTask {S}.
Arguments sv_Heartbeat {S}.
Arguments sv_Abandon {S}.
Arguments sv_Submit {S}.
Arguments sv_BatchSubmit {S}.

(** ** Messages *)

Record protoTask := mkProto {
  pt_Id : string; pt_Command : string; pt_Payload : string; pt_Priority : Z; pt_Webhook : string; pt_MaxAttempts : Z;
  pt_Status : string; pt_WorkerId : string; pt_LeaseUntil : string; pt_Attempts : Z; pt_TenantId : string;
  pt_CreatedAt : option Z; pt_UpdatedAt : option Z
}.

Definition taskToProto (t : Task) : protoTask :=
  mkProto t.(ID) t.(Command) t.(Payload) (Int32 t.(Priority)) t.(Webhook) (Int32 t.(MaxAttempts)) t.(Status) t.(WorkerID)
    t.(LeaseUntil) (Int32 t.(Attempts)) t.(TenantID)
    (if is_zero t.(CreatedAt) then None else Some t.(CreatedAt)) (if is_zero t.(UpdatedAt) then None else Some t.(UpdatedAt)).

Record wResult := mkWResult { wr_TaskId : string; wr_Status : string; wr_ResultJson : string; wr_Error : string }.

Inductive workerEvent :=
  | EHello (token workerId : string)
  | EReady (commands : list string) (leaseSeconds count : Z)
  | EResult (r : wResult)
  | EResultBatch (rs : list (option wResult))
  | ENack (taskId : string) (delaySeconds : Z) (reason : string)
  | EHeartbeat (taskId : string) (extendSeconds : Z)
  | EAbandon (taskId : string)
  | EUnknown.

Record ack := mkAck { ak_TaskId : string; ak_Ok : bool; ak_ErrorMessage : string }.

Inductive serverEvent :=
  | SHelloAck (workerId tenantId : string)
  | STask (t : protoTask)
  | STaskBatch (ts : list protoTask)
  | SResultAck (a : ack)
  | SResultAckBatch (acks : list (option ack))
  | SNackAck (a : ack) (appliedDelaySeconds : Z) (dlq : bool)
  | SHeartbeatAck (a : ack)
  | SAbandonAck (a : ack)
  | SError (code message : string).

(** The error of a call in an ack. *)
Definition ackOf {A} (id : string) (r : res A) : ack :=
  match r with Ok _ => mkAck id true "" | Err e => mkAck id false (error_text e) end.

Record session := mkSession {
  ws_workerID : string;
  ws_tenantID : string;
  ws_claims : Claims;
  ws_commands : list string;
  ws_hasWild : bool
}.

Record workerConfig := mkWorkerConfig {
  wc_DefaultLease : Z;
  wc_WorkerAudience : string;
  wc_AllowProducerAsWorker : bool;
  wc_MaxClaimRetries : Z
}.

Module worker.

(** The polling knobs of [New]; producers do not act as workers. *)
Definition New (defaultLease : Z) (audience : string) : workerConfig := mkWorkerConfig defaultLease audience false 600.

Definition status (code msg : string) : error := ErrText ("rpc error: code = " +:+ code +:+ " desc = " +:+ msg).

(** ** Hello *)

Section hello.
Context {V : Type}.
Variable cfg : workerConfig.
Variables validator producerValidator : option (Validator V).

Definition validateWorkerClaims (claims : Claims) : option error :=
  match c_EventTypes claims, c_Scopes claims with
  | [], _ => Some (ErrText "missing eventTypes")
  | _, [] => Some (ErrText "missing scope")
  | _, _ => None
  end.

(** The producer half of [authenticate]; [err] is why the token is not a
    worker's. *)
Definition asProducer (token : string) (err : error) : M V Claims :=
  match wc_AllowProducerAsWorker cfg, producerValidator with
  | true, Some producer =>
      let! r := mtry (producer token) in
      match r with
      | Ok p => mret (middleware.producerAsWorker (mkMwConfig "" true (wc_WorkerAudience cfg)) p)
      | Err _ => mthrow err
      end
  | _, _ => mthrow err
  end.

Definition authenticate (worker : Validator V) (token : string) : M V Claims :=
  let token := TrimSpace token in
  if bool_decide (token = "") then mthrow (ErrText "missing token")
  else
    let! r := mtry (worker token) in
    match r with
    | Ok claims => match validateWorkerClaims claims with None => mret claims | Some e => asProducer token e end
    | Err e => asProducer token e
    end.

(** The event types become commands, the wildcard a flag. *)
Definition sessionOf (workerID tenantID : string) (claims : Claims) : session :=
  mkSession workerID tenantID claims (List.filter (fun e => bool_decide (e <> "*")) (c_EventTypes claims))
    (existsb (fun e => bool_decide (e = "*")) (c_EventTypes claims)).

Definition handleHello (first : workerEvent) : M V (session * serverEvent) :=
  match first with
  | EHello token workerId =>
      match validator with
      | None => mthrow (status "Internal" "no worker validator configured")
      | Some worker =>
          let! r := mtry (authenticate worker token) in
          match r with
          | Err e => mthrow (status "Unauthenticated" ("auth failed: " +:+ error_text e))
          | Ok claims =>
              let workerID := let w := TrimSpace workerId in if bool_decide (w = "") then c_Subject claims else w in
              match authclaims.ResolveTenantID (Some claims) with
              | Err _ => mthrow (status "PermissionDenied" "invalid tenant claims")
              | Ok tenantID => mret (sessionOf workerID tenantID claims, SHelloAck workerID tenantID)
              end
          end
      end
  | _ => mthrow (status "FailedPrecondition" "first event must be Hello")
  end.
End hello.

(** ** Events *)

(** The commands of a request, each trimmed and not empty. *)
Definition trimmed (requested : list string) : list string :=
  List.filter (fun c => bool_decide (c <> "")) (map TrimSpace requested).

(** [None]: not allowed.  The loop stops at the first command that is not
    granted, which is the same as asking that all are. *)
Definition resolveCommands (sess : session) (requested : list string) : option (list string) :=
  match requested with
  | [] =>
      if ws_hasWild sess then Some []
      else match ws_commands sess with [] => None | cs => Some cs end
  | _ =>
      let out := trimmed requested in
      if ws_hasWild sess then match out with [] => None | _ => Some out end
      else if negb (forallb (fun c => bool_decide (c ∈ ws_commands sess)) out) then None
      else match out with [] => None | _ => Some out end
  end.

Definition errInvalidStatus : error := ErrText "invalid status (must be COMPLETED or FAILED)".
Definition validateResultStatus (s : string) : option error :=
  if bool_decide (s <> "COMPLETED") && bool_decide (s <> "FAILED")
  then Some (ErrText (error_text errInvalidStatus +:+ ": " +:+ quoted s)) else None.

Section events.
Context {S : Type}.
Variable cfg : workerConfig.
Variable svc : services S.
(** [sonic.Unmarshal] of a result into a map, [None] for a JSON null. *)
Variable unmarshal_map : string -> res (option string).
(** The clock at the [k]-th attempt of a polling handler, what the rest of the
    system does in the sleep after it, and whether the context is done before
    and in that sleep. *)
Variables (clock : nat -> Z) (between : nat -> M S unit) (done_before done_in : nat -> bool).
Variable sess : session.

(** A polling loop of at most [left] attempts. *)
Fixpoint pollClaims {A} (left k : nat) (claim : Z -> M S (option A)) (push : A -> list serverEvent) : M S (list serverEvent) :=
  match left with
  | O => mret []
  | Datatypes.S left' =>
      if done_before k then mret []
      else
        let! r := mtry (claim (clock k)) in
        match r with
        | Err e => mret [SError "Internal" (error_text e)]
        | Ok (Some a) => mret (push a)
        | Ok None =>
            let! _ := mtry (between k) in
            if done_in k then mret [] else pollClaims left' (Datatypes.S k) claim push
        end
  end.

Definition attempts : nat := Z.to_nat (wc_MaxClaimRetries cfg + 1).

Definition handleReadyOne (commands : list string) (lease : Z) : M S (list serverEvent) :=
  pollClaims attempts 0 (fun now => sv_ClaimTask svc now (ws_workerID sess) commands lease 0 (ws_tenantID sess))
    (fun t => [STask (taskToProto t)]).

Definition handleReadyBatch (commands : list string) (lease count : Z) : M S (list serverEvent) :=
  pollClaims attempts 0
    (fun now => let! got := sv_ClaimManyTasks svc now (ws_workerID sess) commands lease count (ws_tenantID sess) in
                mret (match got with [] => None | _ => Some got end))
    (fun got => [STaskBatch (map taskToProto got)]).

Definition handleReady (requested : list string) (leaseSeconds count : Z) : M S (list serverEvent) :=
  match resolveCommands sess requested with
  | None => mret [SError "PermissionDenied" "event type not allowed"]
  | Some commands =>
      let lease := if leaseSeconds <=? 0 then wc_DefaultLease cfg else leaseSeconds in
      if count <=? 1 then handleReadyOne commands lease else handleReadyBatch commands lease count
  end.

(** A result before it reaches the service: the refusal, or the submission. *)
Definition checkResult (r : wResult) : ack + SubmitResultRequest :=
  match validateResultStatus (wr_Status r) with
  | Some e => inl (mkAck (wr_TaskId r) false (error_text e))
  | None =>
      match (if bool_decide (wr_ResultJson r = "") then Ok None else unmarshal_map (wr_ResultJson r)) with
      | Err _ => inl (mkAck (wr_TaskId r) false "invalid result_json")
      | Ok v => inr (mkSubmit (ws_workerID sess) (wr_Status r) v (wr_Error r) [])
      end
  end.

Definition handleResult (now : Z) (r : wResult) : M S (list serverEvent) :=
  match checkResult r with
  | inl a => mret [SResultAck a]
  | inr req =>
      let! x := mtry (sv_Submit svc now (wr_TaskId r) req) in
      mret [SResultAck (ackOf (wr_TaskId r) x)]
  end.

(** The refusals of a batch in place, and the submissions with their positions. *)
Definition firstAck (r : option wResult) : option ack :=
  match r with
  | None => Some (mkAck "" false "nil result")
  | Some r => match checkResult r with inl a => Some a | inr _ => None end
  end.

Fixpoint batchItems (i : nat) (rs : list (option wResult)) : list (nat * BatchSubmitItem) :=
  match rs with
  | [] => []
  | r :: rest =>
      match r with
      | Some w => match checkResult w with inl _ => [] | inr req => [(i, mkItem (wr_TaskId w) req)] end
      | None => []
      end ++ batchItems (Datatypes.S i) rest
  end.

Definition responseAck (resp : BatchSubmitResponse) : ack :=
  if bool_decide (br_Error resp <> "") then mkAck (br_TaskID resp) false (br_Error resp) else mkAck (br_TaskID resp) true "".

(** [for k, resp := range resps]: an answer more than there are items is an
    index out of range. *)
Fixpoint fillAcks (idx : list nat) (resps : list BatchSubmitResponse) (acks : list (option ack)) : res (list (option ack)) :=
  match resps, idx with
  | [], _ => Ok acks
  | resp :: resps', i :: idx' => fillAcks idx' resps' (<[i := Some (responseAck resp)]> acks)
  | _ :: _, [] => Err (Panic "index out of range")
  end.

Definition failAcks (e : error) (items : list (nat * BatchSubmitItem)) (acks : list (option ack)) : list (option ack) :=
  fold_left (fun acks '(i, item) => <[i := Some (mkAck (it_TaskID item) false (error_text e))]> acks) items acks.

Definition handleResultBatch (now : Z) (rs : list (option wResult)) : M S (list serverEvent) :=
  match rs with
  | [] => mret []
  | _ =>
      let acks := map firstAck rs in
      let items := batchItems 0 rs in
      match items with
      | [] => mret [SResultAckBatch acks]
      | _ =>
          let! x := sv_BatchSubmit svc now (map snd items) in
          match x with
          | (_, Some e) => mret [SResultAckBatch (failAcks e items acks)]
          | (resps, None) =>
              match fillAcks (map fst items) resps acks with
              | Ok acks => mret [SResultAckBatch acks]
              | Err e => mthrow e
              end
          end
      end
  end.

Definition handleNack (now : Z) (taskId : string) (delaySeconds : Z) (reason : string) : M S (list serverEvent) :=
  let! x := mtry (sv_NackTask svc now taskId (ws_workerID sess) delaySeconds reason) in
  mret [match x with
        | Ok (applied, dlq) => SNackAck (mkAck taskId true "") (Int32 applied) dlq
        | Err e => SNackAck (mkAck taskId false (error_text e)) 0 false
        end].

Definition handleHeartbeat (now : Z) (taskId : string) (extendSeconds : Z) : M S (list serverEvent) :=
  let! x := mtry (sv_Heartbeat svc now taskId (ws_workerID sess) extendSeconds) in mret [SHeartbeatAck (ackOf taskId x)].

Definition handleAbandon (now : Z) (taskId : string) : M S (list serverEvent) :=
  let! x := mtry (sv_Abandon svc now taskId (ws_workerID sess)) in mret [SAbandonAck (ackOf taskId x)].

Definition requireScope (scope : string) (m : M S (list serverEvent)) : M S (list serverEvent) :=
  if HasScope (Some (ws_claims sess)) scope then m else mret [SError "PermissionDenied" "missing scope"].

(** One event of the read loop, with the handler it starts. *)
Definition handle (now : Z) (ev : workerEvent) : M S (list serverEvent) :=
  match ev with
  | EHello _ _ => mret [SError "FailedPrecondition" "already-authenticated"]
  | EReady cmds lease count => requireScope "codeq:claim" (handleReady cmds lease count)
  | EResult r => requireScope "codeq:result" (handleResult now r)
  | EResultBatch rs => requireScope "codeq:result" (handleResultBatch now rs)
  | ENack id delay reason => requireScope "codeq:nack" (handleNack now id delay reason)
  | EHeartbeat id ext => requireScope "codeq:heartbeat" (handleHeartbeat now id ext)
  | EAbandon id => requireScope "codeq:abandon" (handleAbandon now id)
  | EUnknown => mret [SError "InvalidArgument" "unknown-event"]
  end.
End events.
End worker.

(** ** A session stays within its token *)

Section rights.
Context {S : Type}.
Variable sess : session.

Definition granted (scope : string) : bool := HasScope (Some (ws_claims sess)) scope.

(** The claims a session may make: as its worker, for its tenant, with the claim
    scope, and for commands among the event types of its token unless it has the
    wildcard. *)
Definition mayClaim (w : string) (cmds : list string) (tenant : string) : bool :=
  bool_decide (w = ws_workerID sess) && bool_decide (tenant = ws_tenantID sess) && granted "codeq:claim" &&
  (bool_decide ("*" ∈ c_EventTypes (ws_claims sess)) ||
   bool_decide (cmds <> []) && forallb (fun c => bool_decide (c ∈ c_EventTypes (ws_claims sess))) cmds).

(** A submission as its worker with a final status. *)
Definition maySubmit (req : SubmitResultRequest) : bool :=
  granted "codeq:result" && bool_decide (sr_WorkerID req = ws_workerID sess) &&
  (bool_decide (sr_Status req = "COMPLETED") || bool_decide (sr_Status req = "FAILED")).

Definition mayAct (scope w : string) : bool := granted scope && bool_decide (w = ws_workerID sess).

(** The services with every other call turned into a crash. *)
Definition within {A} (ok : bool) (m : M S A) : M S A := if ok then m else mthrow (Panic "outside the session's rights").

Definition guarded (svc : services S) : services S := {|
  sv_CreateTask now cmd payload prio hook maxA idem runAt delay tenant := within false (sv_CreateTask svc now cmd payload prio hook maxA idem runAt delay tenant);
  sv_ClaimTask now w cmds lease wait tenant := within (mayClaim w cmds tenant) (sv_ClaimTask svc now w cmds lease wait tenant);
  sv_ClaimManyTasks now w cmds lease max tenant := within (mayClaim w cmds tenant) (sv_ClaimManyTasks svc now w cmds lease max tenant);
  sv_NackTask now id w delay reason := within (mayAct "codeq:nack" w) (sv_NackTask svc now id w delay reason);
  sv_Heartbeat now id w ext := within (mayAct "codeq:heartbeat" w) (sv_Heartbeat svc now id w ext);
  sv_Abandon now id w := within (mayAct "codeq:abandon" w) (sv_Abandon svc now id w);
  sv_Submit now id req := within (maySubmit req) (sv_Submit svc now id req);
  sv_BatchSubmit now items := within (forallb (fun it => maySubmit (it_Req it)) items) (sv_BatchSubmit svc now items)
|}.
End rights.

Section stream_facts.
Context {S V : Type}.
Import worker.

(** The session of a Hello: its claims are what a validator returned for the
    token, or the worker's rights of a producer. *)
Lemma hello_session cfg (validator producer : option (Validator V)) first v v' sess ack :
  handleHello cfg validator producer first v = (Ok (sess, ack), v') ->
  exists token workerId w, first = EHello token workerId /\ validator = Some w /\
    sess = sessionOf (ws_workerID sess) (ws_tenantID sess) (ws_claims sess) /\
    authclaims.ResolveTenantID (Some (ws_claims sess)) = Ok (ws_tenantID sess) /\
    ((exists v1 v2, w (TrimSpace token) v1 = (Ok (ws_claims sess), v2)) \/
     (wc_AllowProducerAsWorker cfg = true /\ exists p pc v1 v2, producer = Some p /\ p (TrimSpace token) v1 = (Ok pc, v2) /\
        ws_claims sess = middleware.producerAsWorker (mkMwConfig "" true (wc_WorkerAudience cfg)) pc)).
Proof.
  unfold handleHello. destruct first as [token workerId| | | | | | |]; try done. destruct validator as [w|]; [|done].
  unfold mbnd at 1, mtry at 1. destruct (authenticate cfg producer w token v) as [[claims|e] v1] eqn:Ea; [|done].
  destruct (authclaims.ResolveTenantID (Some claims)) as [t|] eqn:Et; [|done]. intros [= <- <- <-].
  exists token, workerId, w. cbn [ws_workerID ws_tenantID ws_claims sessionOf]. split; [done|]. split; [done|]. split; [done|]. split; [done|].
  assert (forall e v0, asProducer cfg producer (TrimSpace token) e v0 = (Ok claims, v1) ->
    wc_AllowProducerAsWorker cfg = true /\ exists p pc v1 v2, producer = Some p /\ p (TrimSpace token) v1 = (Ok pc, v2) /\
      claims = middleware.producerAsWorker (mkMwConfig "" true (wc_WorkerAudience cfg)) pc) as Hp.
  { intros e v0. unfold asProducer. destruct (wc_AllowProducerAsWorker cfg); [|done]. destruct producer as [p|]; [|done].
    unfold mbnd, mtry. destruct (p (TrimSpace token) v0) as [[pc|] v2] eqn:Ep; [|done]. intros [= <- <-]. split; [done|]. by exists p, pc, v0, v2. }
  unfold authenticate in Ea. cbv zeta in Ea. case_bool_decide; [done|]. unfold mbnd, mtry in Ea.
  destruct (w (TrimSpace token) v) as [[cl|e] v2] eqn:Ew; [|right; by eapply Hp].
  destruct (validateWorkerClaims cl); [right; by eapply Hp|]. injection Ea as <- <-. left. by exists v, v2.
Qed.

(** What [resolveCommands] lets through is within the event types. *)
Lemma resolve_granted w t claims requested cmds :
  resolveCommands (sessionOf w t claims) requested = Some cmds ->
  bool_decide ("*" ∈ c_EventTypes claims) ||
  bool_decide (cmds <> []) && forallb (fun c => bool_decide (c ∈ c_EventTypes claims)) cmds = true.
Proof.
  unfold resolveCommands. cbn [sessionOf ws_hasWild ws_commands].
  destruct (existsb (fun e => bool_decide (e = "*")) (c_EventTypes claims)) eqn:Ew.
  { intros _. apply existsb_exists in Ew as (e & He%list_elem_of_In & ->%bool_decide_eq_true). by rewrite bool_decide_eq_true_2. }
  set (cs := List.filter _ _). assert (forall c, c ∈ cs -> c ∈ c_EventTypes claims) as Hcs
    by (intros c [Hc _]%list_elem_of_In%filter_In; by apply list_elem_of_In).
  assert (forall l, l <> [] -> (forall c, c ∈ l -> c ∈ cs) ->
    bool_decide (l <> []) && forallb (fun c => bool_decide (c ∈ c_EventTypes claims)) l = true) as Hl.
  { intros l Hn Hin. rewrite bool_decide_eq_true_2 by done. apply forallb_forall. intros c Hc%list_elem_of_In.
    apply bool_decide_eq_true_2. auto. }
  intros Hr. apply orb_true_iff. right. destruct requested as [|r0 rest].
  - destruct cs as [|c0 cs'] eqn:Ec; [done|]. injection Hr as <-. rewrite <- Ec in *. apply Hl; [by rewrite Ec | done].
  - set (out := trimmed (r0 :: rest)) in Hr. destruct (forallb (fun c => bool_decide (c ∈ cs)) out) eqn:Ef; [|done]. cbn [negb] in Hr.
    rewrite forallb_forall in Ef. destruct out as [|c0 out'] eqn:Eo; [done|]. injection Hr as <-. apply Hl; [done|].
    intros c Hc%list_elem_of_In. apply Ef in Hc. by apply bool_decide_eq_true in Hc.
Qed.

Lemma pollClaims_ext {A} clock between db di left k (claim claim' : Z -> M S (option A)) push s :
  (forall now s, claim now s = claim' now s) ->
  pollClaims clock between db di left k claim push s = pollClaims clock between db di left k claim' push s.
Proof.
  intros Hc. revert k s. induction left as [|left IH]; intros k s; cbn [pollClaims]; [done|]. destruct (db k); [done|].
  unfold mbnd at 1 3, mtry at 1 3. rewrite Hc. destruct (claim' (clock k) s) as [[[a|]|e] s1]; try done.
  unfold mbnd, mtry. destruct (between k s1) as [x s2]. destruct x; destruct (di k); auto.
Qed.

Lemma checkResult_submits um sess r req : granted sess "codeq:result" = true -> checkResult um sess r = inr req -> maySubmit sess req = true.
Proof.
  intros Hg. unfold checkResult, validateResultStatus. destruct (_ && _) eqn:Es; [done|].
  destruct (if bool_decide (wr_ResultJson r = "") then _ else _) as [val|]; [|done]. intros [= <-]. unfold maySubmit. rewrite Hg.
  cbn [sr_WorkerID sr_Status]. rewrite (bool_decide_eq_true_2 (ws_workerID sess = ws_workerID sess)) by done. cbn [andb].
  apply andb_false_iff in Es as [Es|Es]; apply bool_decide_eq_false, dec_stable in Es; rewrite Es.
  - by rewrite bool_decide_eq_true_2.
  - by rewrite orb_comm, bool_decide_eq_true_2.
Qed.

Lemma batchItems_submit um sess i rs : granted sess "codeq:result" = true ->
  forallb (fun it => maySubmit sess (it_Req it)) (map snd (batchItems um sess i rs)) = true.
Proof.
  intros Hg. revert i. induction rs as [|r rs IH]; intros i; cbn [batchItems]; [done|]. rewrite map_app, forallb_app, IH, andb_true_r.
  destruct r as [w|]; [|done]. destruct (checkResult um sess w) as [a|req] eqn:Ec; [done|]. cbn. by rewrite (checkResult_submits um sess w req).
Qed.

(** C11. A worker stream never steps outside its token.  Once a Hello has been
    accepted, the tenant is the one the token's claims resolve to, and every event
    of the stream is handled exactly as if each service call outside the session's
    rights crashed: it claims only with the claim scope, for its tenant, in the
    name of its worker and for commands its token names (all of them when it has
    the wildcard); it submits, nacks, extends and abandons only with the scope of
    that operation and in the name of its worker, results only with a final
    status; and it never creates tasks. *)
Theorem stream_within_rights cfg (validator producer : option (Validator V)) first v v' sess a
  (svc : services S) um clock between db di now ev s :
  handleHello cfg validator producer first v = (Ok (sess, a), v') ->
  authclaims.ResolveTenantID (Some (ws_claims sess)) = Ok (ws_tenantID sess) /\
  handle cfg (guarded sess svc) um clock between db di sess now ev s = handle cfg svc um clock between db di sess now ev s.
Proof.
  intros (token & workerId & w & _ & _ & Hsess & Ht & _)%hello_session. split; [done|].
  assert (forall scope, granted sess scope = HasScope (Some (ws_claims sess)) scope) as Hgr by done.
  assert (forall x : string, bool_decide (x = x) = true) as Heq by (intros x; by apply bool_decide_eq_true_2).
  unfold handle, requireScope. destruct ev as [| cmds lease count|r|rs|id delay reason|id ext|id|]; try done;
    rewrite <- Hgr; (destruct (granted sess _) eqn:Hg; [|done]).
  - unfold handleReady. destruct (resolveCommands sess cmds) as [cs|] eqn:Er; [|done]. cbv zeta.
    assert (mayClaim sess (ws_workerID sess) cs (ws_tenantID sess) = true) as Hmay.
    { rewrite Hsess in Er. apply resolve_granted in Er. unfold mayClaim. by rewrite !Heq, Hg, Er. }
    destruct (count <=? 1); apply pollClaims_ext; intros now' s'; cbn [guarded sv_ClaimTask sv_ClaimManyTasks]; by rewrite Hmay.
  - unfold handleResult. destruct (checkResult um sess r) as [ak|req] eqn:Ec; [done|]. cbn [guarded sv_Submit].
    by rewrite (checkResult_submits um sess r req).
  - unfold handleResultBatch. destruct rs as [|r0 rs]; [done|]. pose proof (batchItems_submit um sess 0 (r0 :: rs) Hg) as Hb.
    destruct (batchItems um sess 0 (r0 :: rs)) as [|it its]; [done|]. cbn [guarded sv_BatchSubmit]. by rewrite Hb.
  - unfold handleNack. cbn [guarded sv_NackTask]. unfold mayAct. by rewrite Hg, Heq.
  - unfold handleHeartbeat. cbn [guarded sv_Heartbeat]. unfold mayAct. by rewrite Hg, Heq.
  - unfold handleAbandon. cbn [guarded sv_Abandon]. unfold mayAct. by rewrite Hg, Heq.
Qed.

(** *** Acks of a batch *)

Lemma batchItems_spec um sess rs k i it : (i, it) ∈ batchItems um sess k rs <->
  exists j w req, i = (k + j)%nat /\ rs !! j = Some (Some w) /\ checkResult um sess w = inr req /\ it = mkItem (wr_TaskId w) req.
Proof.
  revert k. induction rs as [|r rs IH]; intros k; cbn [batchItems].
  { split; [by intros ?%not_elem_of_nil | by intros (j & w & req & _ & Hj & _); rewrite lookup_nil in Hj]. }
  rewrite elem_of_app, IH. split.
  - intros [Hin|(j & w & req & -> & Hj & Hc)]; [|exists (Datatypes.S j), w, req; split; [lia | done]].
    destruct r as [w|]; [|by apply not_elem_of_nil in Hin]. destruct (checkResult um sess w) as [a|req] eqn:Ec; [by apply not_elem_of_nil in Hin|].
    apply list_elem_of_singleton in Hin as [= -> ->]. exists 0%nat, w, req. split; [lia | done].
  - intros ([|j] & w & req & -> & Hj & Hc & ->).
    + injection Hj as ->. left. rewrite Hc. apply list_elem_of_singleton. f_equal. lia.
    + right. exists j, w, req. split; [lia | done].
Qed.

(** [a] is the ack of [r]: there is one, and it names the task of [r]. *)
Definition acks_for (r : option wResult) (a : option ack) : Prop :=
  exists k, a = Some k /\ ak_TaskId k = match r with Some w => wr_TaskId w | None => "" end.

(** The entries of [its] point at the results they came from. *)
Definition refers (rs : list (option wResult)) (its : list (nat * BatchSubmitItem)) : Prop :=
  forall i it, (i, it) ∈ its -> exists w, rs !! i = Some (Some w) /\ it_TaskID it = wr_TaskId w.

(** Acks in place, those at the positions of [its] still to come. *)
Definition waiting (rs : list (option wResult)) (its : list (nat * BatchSubmitItem)) (acks : list (option ack)) : Prop :=
  Forall2 (fun r a => True) rs acks /\
  forall i r a, rs !! i = Some r -> acks !! i = Some a -> i ∉ map fst its -> acks_for r a.

Lemma waiting_insert rs i it its acks a : refers rs ((i, it) :: its) -> waiting rs ((i, it) :: its) acks -> ak_TaskId a = it_TaskID it ->
  waiting rs its (<[i := Some a]> acks).
Proof.
  intros Hr [Hl Hw] Ha. split.
  - apply Forall2_same_length_lookup_2; [rewrite length_insert; by eapply Forall2_length | done].
  - intros j r b Hj Hb Hn. destruct (decide (j = i)) as [->|Hne].
    + rewrite list_lookup_insert_eq in Hb by (rewrite <- (Forall2_length _ _ _ Hl); by eapply lookup_lt_Some). injection Hb as <-.
      destruct (Hr i it) as (w & Hi & Hid); [constructor|]. rewrite Hj in Hi. injection Hi as ->. exists a. by rewrite Ha.
    + rewrite list_lookup_insert_ne in Hb by done. apply (Hw j r b Hj Hb). cbn. rewrite elem_of_cons. by intros [?|?].
Qed.

Lemma fillAcks_complete rs its resps acks : refers rs its -> waiting rs its acks -> Forall2 answers (map snd its) resps ->
  exists out, fillAcks (map fst its) resps acks = Ok out /\ Forall2 acks_for rs out.
Proof.
  revert resps acks. induction its as [|[i it] its IH]; intros resps acks Hr Hw Ha; cbn [map] in *.
  - inversion Ha; subst. exists acks. split; [done|]. destruct Hw as [Hl Hw].
    apply Forall2_same_length_lookup_2; [by eapply Forall2_length|]. intros j r a Hj Hb. apply (Hw j r a Hj Hb), not_elem_of_nil.
  - inversion Ha as [|x resp xs resps' Hx Hrest]; subst. cbn [fillAcks fst]. apply IH; [|eapply waiting_insert; [exact Hr | done|]|done].
    + intros j jt Hin. apply Hr. by right.
    + unfold responseAck, answers in *. case_bool_decide; exact Hx.
Qed.

Lemma failAcks_complete rs its e acks : refers rs its -> waiting rs its acks -> Forall2 acks_for rs (failAcks e its acks).
Proof.
  unfold failAcks. revert acks. induction its as [|[i it] its IH]; intros acks Hr Hw; cbn [fold_left].
  - destruct Hw as [Hl Hw]. apply Forall2_same_length_lookup_2; [by eapply Forall2_length|].
    intros j r a Hj Hb. apply (Hw j r a Hj Hb), not_elem_of_nil.
  - apply IH; [intros j jt Hin; apply Hr; by right | by eapply waiting_insert].
Qed.

Lemma firstAcks_waiting um sess rs : waiting rs (batchItems um sess 0 rs) (map (firstAck um sess) rs).
Proof.
  split; [apply Forall2_same_length_lookup_2; [by rewrite length_map | done]|]. intros i r a Hi Ha Hn.
  apply list_lookup_fmap_Some in Ha as (r' & -> & Hi'). rewrite Hi in Hi'. injection Hi' as <-. unfold firstAck, acks_for.
  destruct r as [w|]; [|by eexists]. destruct (checkResult um sess w) as [ak|req] eqn:Ec.
  - exists ak. split; [done|]. unfold checkResult in Ec. destruct (validateResultStatus _); [by injection Ec as <-|].
    destruct (if bool_decide (wr_ResultJson w = "") then _ else _); [done | by injection Ec as <-].
  - destruct Hn. apply list_elem_of_fmap. exists (i, mkItem (wr_TaskId w) req). split; [done|].
    apply batchItems_spec. by exists i, w, req.
Qed.

(** What the results service promises: it answers, and each item in its place. *)
Definition batch_law (svc : services S) : Prop := forall now items s, exists rs e s',
  sv_BatchSubmit svc now items s = (Ok (rs, e), s') /\ (e = None -> Forall2 answers items rs).

(** A batch of results is acknowledged in order.  Whatever a worker sends in
    a batch, malformed and missing entries included, and whether or not the
    service takes it, one event comes back with one ack for each result in the
    order they were sent, each naming the task of its result. *)
Theorem result_batch_acks svc um sess now rs s : batch_law svc -> rs <> [] ->
  exists acks, fst (handleResultBatch svc um sess now rs s) = Ok [SResultAckBatch acks] /\ Forall2 acks_for rs acks.
Proof.
  intros Hlaw Hne. unfold handleResultBatch. destruct rs as [|r0 rs']; [done|]. set (rs := r0 :: rs') in *. cbv zeta.
  pose proof (firstAcks_waiting um sess rs) as Hw.
  assert (refers rs (batchItems um sess 0 rs)) as Hr.
  { intros i it (j & w & req & -> & Hj & _ & ->)%batchItems_spec. by exists w. }
  destruct (batchItems um sess 0 rs) as [|it0 its'] eqn:Eb.
  - eexists. split; [reflexivity|]. destruct Hw as [Hl Hw]. apply Forall2_same_length_lookup_2; [by eapply Forall2_length|].
    intros j r a Hj Ha. apply (Hw j r a Hj Ha), not_elem_of_nil.
  - set (its := it0 :: its') in *. unfold mbnd. destruct (Hlaw now (map snd its) s) as (resps & e & s' & -> & Hans).
    destruct e as [e|]; [eexists; split; [reflexivity | by apply failAcks_complete]|].
    destruct (fillAcks_complete rs its resps (map (firstAck um sess) rs) Hr Hw (Hans eq_refl)) as (out & -> & Hout). by exists out.
Qed.
End stream_facts.

(** ** Over the Pebble repository *)

Section pebble_services.
Context {P : Type} `{Pebble P} `{JSON}.
Variables (cvt_overflow : Z) (seed1 : Z -> Z) (url_Parse : string -> option (string * string)) (rng : Z -> Z).
Variable sched : schedulerConfig.
Variable UploadBytes : string -> string -> string -> res string.
Variable finish : list ArtifactIn -> list ArtifactIn.
Variable callback : bool.
(** The uuid of a new task, and the rest of the system during a long poll. *)
Variable newID : Repo P -> string.
Variables (between : nat -> M (Repo P) unit) (cancelled : nat -> bool).

(** The services of the application, as the streams call them. *)
Definition pebbleServices : services (Repo P) := {|
  sv_CreateTask now cmd payload prio hook maxA idem runAt delay tenant := fun r =>
    (let! x := schedulerService.CreateTask url_Parse sched (newID r) now cmd payload prio hook maxA idem runAt delay tenant in mret (fst x)) r;
  sv_ClaimTask now w cmds lease wait tenant :=
    schedulerService.ClaimTask cvt_overflow seed1 sched between cancelled now w cmds lease wait tenant;
  sv_ClaimManyTasks now w cmds lease max tenant := schedulerService.ClaimManyTasks cvt_overflow seed1 sched now w cmds lease max tenant;
  sv_NackTask now id w delay reason :=
    let! x := schedulerService.NackTask cvt_overflow seed1 rng sched now id w delay reason in mret (fst x);
  sv_Heartbeat now id w ext := schedulerService.Heartbeat sched now id w ext;
  sv_Abandon now id w := schedulerService.Abandon now id w;
  sv_Submit now id req := let! x := TaskRepo.db (resultsService.Submit UploadBytes finish callback now id req) in mret (fst x);
  sv_BatchSubmit now items :=
    let! x := TaskRepo.db (resultsService.BatchSubmit UploadBytes finish callback now items) in mret (fst x)
|}.

Lemma pebble_batch_law : batch_law pebbleServices.
Proof.
  intros now items r. cbn [pebbleServices sv_BatchSubmit].
  destruct (BatchSubmit_answers UploadBytes finish callback now items (r_db r)) as (rs & e & cbs & d' & Hb & Ha).
  exists rs, e. eexists. split; [|exact Ha]. unfold mbnd, TaskRepo.db, mlift. by rewrite Hb.
Qed.
End pebble_services.

(** ** Concrete streams *)

Module stream_run.
Definition cfg : workerConfig := worker.New 300 "codeq-worker".
Definition token : static.validatorConfig :=
  static.mkStatic "w-token" "w1" "" ["codeq:claim"; "codeq:result"; "codeq:nack"] ["send"] {[ "tid" := AString "acme" ]}.
Definition validator : Validator unit := static.Validate token.
Definition hello := worker.handleHello cfg (Some validator) None (EHello "w-token" "") tt.
Definition claims : Claims := mkClaims "w1" "" "" [] zero_time zero_time ["codeq:claim"; "codeq:result"; "codeq:nack"] ["send"] {[ "tid" := AString "acme" ]}.
Definition sess : session := worker.sessionOf "w1" "acme" claims.

Lemma hello_run : hello = (Ok (sess, SHelloAck "w1" "acme"), tt).
Proof. vm_compute. reflexivity. Qed.

(** Services that answer nothing; what a handler does with them is which calls it makes. *)
Definition deaf : services unit := {|
  sv_CreateTask _ _ _ _ _ _ _ _ _ _ := mthrow (ErrText "down");
  sv_ClaimTask _ _ _ _ _ _ := mret None;
  sv_ClaimManyTasks _ _ _ _ _ _ := mret [];
  sv_NackTask _ _ _ _ _ := mret (0, false);
  sv_Heartbeat _ _ _ _ := mret tt;
  sv_Abandon _ _ _ := mret tt;
  sv_Submit _ _ _ := mthrow (ErrText "down");
  sv_BatchSubmit _ items := mret (map (fun it => mkResponse (it_TaskID it) None "") items, None)
|}.

Lemma deaf_law : batch_law deaf.
Proof.
  intros now items s. eexists _, _, _. split; [reflexivity|]. intros _. apply Forall2_fmap_r, Forall_Forall2_diag, Forall_forall. done.
Qed.
End stream_run.

Lemma stream_within_rights_witness :
  fst (worker.handle stream_run.cfg (guarded stream_run.sess stream_run.deaf) (fun _ => Ok None) (fun _ => 0) (fun _ => mret tt) (fun _ => false)
    (fun _ => false) stream_run.sess 0 (ENack "t1" 5 "busy") tt) = Ok [SNackAck (mkAck "t1" true "") 0 false].
Proof.
  destruct (stream_within_rights stream_run.cfg (Some stream_run.validator) None (EHello "w-token" "") tt tt stream_run.sess (SHelloAck "w1" "acme")
    stream_run.deaf (fun _ => Ok None) (fun _ => 0) (fun _ => mret tt) (fun _ => false) (fun _ => false) 0 (ENack "t1" 5 "busy") tt
    stream_run.hello_run) as [_ ->].
  reflexivity.
Defined.

(** A malformed, a missing and a good result. *)
Lemma result_batch_acks_witness :
  exists acks, fst (worker.handleResultBatch stream_run.deaf (fun _ => Ok None) stream_run.sess 0
      [Some (mkWResult "t1" "DONE" "" ""); None; Some (mkWResult "t2" "COMPLETED" "{}" "")] tt) = Ok [SResultAckBatch acks] /\
    Forall2 acks_for [Some (mkWResult "t1" "DONE" "" ""); None; Some (mkWResult "t2" "COMPLETED" "{}" "")] acks.
Proof. apply result_batch_acks; [exact stream_run.deaf_law | done]. Defined.
