(* ===== verification/ProducerStream.v ===== *)
(** The producer-facing stream ([src/internal/producer/server.go]): a producer
    says Hello with its token, then sends tasks to create, one by one or in
    batches, and gets an ack for each by its sequence number.  As for the worker
    stream, each event is handled by a goroutine of its own and the transport is
    not modelled. *)

From S2P Require Import Prelude GoTime Domain Keys GoText Auth Middleware Scheduler ResultsService WorkerStream.

(** [RunAt] is [AsTime] of the timestamp, if there is one. *)
Record createRequest := mkCreate {
  cr_Seq : Z; cr_Command : string; cr_Payload : string; cr_Priority : Z; cr_Webhook : string; cr_MaxAttempts : Z;
  cr_IdempotencyKey : string; cr_RunAt : option Z; cr_DelaySeconds : Z
}.

Inductive producerEvent :=
  | PHello (token : string)
  | PCreate (req : option createRequest)
  | PCreateBatch (reqs : list (option createRequest))
  | PUnknown.

Record createAck := mkCreateAck { ca_Seq : Z; ca_Ok : bool; ca_TaskId : string; ca_ErrorMessage : string }.

Inductive producerReply :=
  | RHelloAck (tenantId subject : string)
  | RCreateAck (a : createAck)
  | RCreateAckBatch (acks : list createAck)
  | RError (code message : string).

Record producerSession := mkProducer { ps_tenantID : string; ps_subject : string }.

Module producer.

Definition handleHello {V} (validator : option (Validator V)) (first : producerEvent) : M V (producerSession * producerReply) :=
  match first with
  | PHello token =>
      match validator with
      | None => mthrow (worker.status "Internal" "no producer validator configured")
      | Some validate =>
          let token := TrimSpace token in
          if bool_decide (token = "") then mthrow (worker.status "Unauthenticated" "missing token")
          else
            let! r := mtry (validate token) in
            match r with
            | Err e => mthrow (worker.status "Unauthenticated" ("auth failed: " +:+ error_text e))
            | Ok claims =>
                match authclaims.ResolveTenantID (Some claims) with
                | Err _ => mthrow (worker.status "PermissionDenied" "invalid tenant claims")
                | Ok tenantID => mret (mkProducer tenantID (c_Subject claims), RHelloAck tenantID (c_Subject claims))
                end
            end
      end
  | _ => mthrow (worker.status "FailedPrecondition" "first event must be Hello")
  end.

Section events.
Context {S : Type}.
Variable svc : services S.
Variable sess : producerSession.
Variable now : Z.

Definition processCreate (req : option createRequest) : M S createAck :=
  match req with
  | None => mret (mkCreateAck 0 false "" "nil request")
  | Some req =>
      let cmd := TrimSpace (cr_Command req) in
      if bool_decide (cmd = "") then mret (mkCreateAck (cr_Seq req) false "" "command is required")
      else if cr_DelaySeconds req <? 0 then mret (mkCreateAck (cr_Seq req) false "" "delaySeconds must be >= 0")
      else
        let runAt := default zero_time (cr_RunAt req) in
        let payload := if bool_decide (cr_Payload req = "") then "null" else cr_Payload req in
        let! r := mtry (sv_CreateTask svc now cmd payload (cr_Priority req) (cr_Webhook req) (cr_MaxAttempts req)
                          (cr_IdempotencyKey req) runAt (cr_DelaySeconds req) (ps_tenantID sess)) in
        match r with
        | Err e => mret (mkCreateAck (cr_Seq req) false "" (error_text e))
        | Ok task => mret (mkCreateAck (cr_Seq req) true task.(ID) "")
        end
  end.

Definition handleCreate (req : option createRequest) : M S (list producerReply) :=
  let! a := processCreate req in mret [RCreateAck a].

Definition handleCreateBatch (reqs : list (option createRequest)) : M S (list producerReply) :=
  match reqs with
  | [] => mret []
  | _ =>
      let! acks := mfold reqs [] (fun acks req => let! a := processCreate req in mret (acks ++ [a])) in
      mret [RCreateAckBatch acks]
  end.

(** One event of the read loop, with the handler it starts. *)
Definition handle (ev : producerEvent) : M S (list producerReply) :=
  match ev with
  | PHello _ => mret [RError "FailedPrecondition" "already-authenticated"]
  | PCreate req => handleCreate req
  | PCreateBatch reqs => handleCreateBatch reqs
  | PUnknown => mret [RError "InvalidArgument" "unknown-event"]
  end.
End events.
End producer.

(** ** A stream creates for its tenant, and acknowledges in order *)

Section facts.
Context {S : Type}.
Import producer.

(** The creations a session may ask for. *)
Definition mayCreate (sess : producerSession) (cmd payload : string) (delay : Z) (tenant : string) : bool :=
  bool_decide (tenant = ps_tenantID sess) && bool_decide (cmd <> "") && bool_decide (payload <> "") && (0 <=? delay).

(** The services with every other call turned into a crash. *)
Definition forProducer (sess : producerSession) (svc : services S) : services S :=
  let stop {A} : M S A := mthrow (Panic "outside the session's rights") in {|
  sv_CreateTask now cmd payload prio hook maxA idem runAt delay tenant :=
    within (mayCreate sess cmd payload delay tenant) (sv_CreateTask svc now cmd payload prio hook maxA idem runAt delay tenant);
  sv_ClaimTask _ _ _ _ _ _ := stop;
  sv_ClaimManyTasks _ _ _ _ _ _ := stop;
  sv_NackTask _ _ _ _ _ := stop;
  sv_Heartbeat _ _ _ _ := stop;
  sv_Abandon _ _ _ := stop;
  sv_Submit _ _ _ := stop;
  sv_BatchSubmit _ _ := stop
|}.

(** [a] acknowledges [req]. *)
Definition acknowledges (req : option createRequest) (a : createAck) : Prop :=
  ca_Seq a = match req with Some r => cr_Seq r | None => 0 end.

Lemma processCreate_ack (svc : services S) sess now req s : exists a s', processCreate svc sess now req s = (Ok a, s') /\ acknowledges req a.
Proof.
  unfold processCreate. destruct req as [req|]; [|by eexists _, _]. cbv zeta. case_bool_decide; [by eexists _, _|].
  destruct (cr_DelaySeconds req <? 0); [by eexists _, _|]. unfold mbnd, mtry. destruct (sv_CreateTask _ _ _ _ _ _ _ _ _ _ _ s) as [[t|e] s'];
    by eexists _, _.
Qed.

Lemma processCreate_within (svc : services S) sess now req s :
  processCreate (forProducer sess svc) sess now req s = processCreate svc sess now req s.
Proof.
  unfold processCreate. destruct req as [req|]; [|done]. cbv zeta. case_bool_decide as Hc; [done|].
  destruct (Z.ltb_spec (cr_DelaySeconds req) 0); [done|]. cbn [forProducer sv_CreateTask].
  unfold mayCreate. rewrite !bool_decide_eq_true_2, (proj2 (Z.leb_le _ _)) by (done || (case_bool_decide; done)). done.
Qed.

Lemma creates_ext (svc : services S) sess now reqs acks s :
  mfold reqs acks (fun acks req => let! a := processCreate (forProducer sess svc) sess now req in mret (acks ++ [a])) s =
  mfold reqs acks (fun acks req => let! a := processCreate svc sess now req in mret (acks ++ [a])) s.
Proof.
  revert acks s. induction reqs as [|req reqs IH]; intros acks s; cbn [mfold]; [done|]. unfold mbnd. rewrite processCreate_within.
  destruct (processCreate svc sess now req s) as [[a|e] s1]; [apply IH | done].
Qed.

Lemma creates_acks (svc : services S) sess now reqs acks s : exists out s',
  mfold reqs acks (fun acks req => let! a := processCreate svc sess now req in mret (acks ++ [a])) s = (Ok (acks ++ out), s') /\
  Forall2 acknowledges reqs out.
Proof.
  revert acks s. induction reqs as [|req reqs IH]; intros acks s; cbn [mfold]; [exists [], s; by rewrite app_nil_r|].
  unfold mbnd. destruct (processCreate_ack svc sess now req s) as (a & s1 & -> & Ha). destruct (IH (acks ++ [a]) s1) as (out & s' & Hm & Hall).
  exists (a :: out), s'. split; [|by constructor]. etransitivity; [exact Hm|]. by rewrite <- app_assoc.
Qed.

(** A producer stream creates tasks of its own tenant, and acknowledges every
    request.  After an accepted Hello the session's tenant is the one its token's
    claims resolve to; every event is handled as if any service call other than
    the creation of a task of that tenant, with a command, a payload and no
    negative delay, crashed; and a batch is answered by one event with an ack for
    each request in order, by its sequence number, whatever fails in between. *)
Theorem producer_stream_bounds {V} (validator : option (Validator V)) first v v' sess a (svc : services S) now :
  handleHello validator first v = (Ok (sess, a), v') ->
  (exists w token claims, validator = Some w /\ first = PHello token /\ w (TrimSpace token) v = (Ok claims, v') /\
     authclaims.ResolveTenantID (Some claims) = Ok (ps_tenantID sess)) /\
  (forall ev s, handle (forProducer sess svc) sess now ev s = handle svc sess now ev s) /\
  (forall reqs s, reqs <> [] -> exists acks, fst (handle svc sess now (PCreateBatch reqs) s) = Ok [RCreateAckBatch acks] /\
     Forall2 acknowledges reqs acks).
Proof.
  intros Hh. split; [|split].
  - unfold handleHello in Hh. destruct first as [token| | |]; try done. destruct validator as [w|]; [|done]. cbv zeta in Hh.
    case_bool_decide; [done|]. unfold mbnd, mtry in Hh. destruct (w (TrimSpace token) v) as [[claims|e] v1] eqn:Ew; [|done].
    destruct (authclaims.ResolveTenantID (Some claims)) as [t|] eqn:Et; [|done]. injection Hh as <- <- <-. by exists w, token, claims.
  - intros ev s. destruct ev as [token|req|reqs|]; try done; cbn [handle].
    + unfold handleCreate, mbnd. by rewrite processCreate_within.
    + unfold handleCreateBatch. destruct reqs as [|req reqs]; [done|]. unfold mbnd at 1 3. by rewrite creates_ext.
  - intros reqs s Hne. cbn [handle]. unfold handleCreateBatch. destruct reqs as [|req reqs]; [done|].
    unfold mbnd at 1. destruct (creates_acks svc sess now (req :: reqs) [] s) as (out & s' & -> & Hall). by exists out.
Qed.
End facts.

Module producer_run.
Definition validator : Validator unit := static.Validate (static.mkStatic "p-token" "p1" "" [] [] {[ "tid" := AString "acme" ]}).
Definition sess : producerSession := mkProducer "acme" "p1".
Definition req (seq : Z) (cmd : string) : option createRequest := Some (mkCreate seq cmd "" 0 "" 0 "" None 0).

Lemma producer_hello_run : producer.handleHello (Some validator) (PHello " p-token ") tt = (Ok (sess, RHelloAck "acme" "p1"), tt).
Proof. vm_compute. reflexivity. Qed.
End producer_run.

Lemma producer_stream_bounds_witness :
  exists acks, fst (producer.handle stream_run.deaf producer_run.sess 0
      (PCreateBatch [producer_run.req 7 "send"; None; producer_run.req 8 " "]) tt) = Ok [RCreateAckBatch acks] /\
    Forall2 acknowledges [producer_run.req 7 "send"; None; producer_run.req 8 " "] acks.
Proof.
  destruct (producer_stream_bounds (Some producer_run.validator) (PHello " p-token ") tt tt producer_run.sess (RHelloAck "acme" "p1")
    stream_run.deaf 0 producer_run.producer_hello_run) as (_ & _ & Hb).
  by apply Hb.
Defined.
