(* ===== verification/ProducerClient.v ===== *)
(** The producer's client library ([src/pkg/producerclient/client.go]): a session
    pipelines creations of many goroutines over one stream and hands each the ack
    of its own sequence number.

    A session is a state and the goroutines are interleaved by actions: the steps
    of the calls ([Produce] and [ProduceBatch]) between their accesses to shared
    state, the deliveries and the end of the reader, a failed send of the writer,
    and [Close].  The gRPC transport decides which actions happen. *)

From S2P Require Import Prelude GoTime Domain Keys GoText Cluster Auth Middleware Scheduler ResultsService WorkerStream ProducerStream.

(** A creation as the caller asks for it; no [RunAt] is the zero time. *)
Record CreateRequest := mkCreateRequest {
  rq_Command : string; rq_Payload : string; rq_Priority : Z; rq_Webhook : string; rq_MaxAttempts : Z; rq_IdempotencyKey : string;
  rq_RunAt : Z; rq_DelaySeconds : Z
}.

(** What a caller gets for a request: the task's id and the error. *)
Abbreviation ackResult := (string * option error)%type.

Inductive phase :=
  | Begin
  | Registering
  | Awaiting (got : list ackResult)
  | Returned (got : list ackResult) (err : option error)
  | Crashed (msg : string).

(** A call: its requests, the sequence numbers it has registered, where it is. *)
Record call := mkCall { cl_batch : bool; cl_reqs : list CreateRequest; cl_seqs : list Z; cl_phase : phase }.

(** A session.  A registered number is in [pending]; [chans] holds the buffered
    values of the channels of the numbers.  [out] is what the send channel has
    accepted, in order. *)
Record clientSession := mkClientSession {
  ss_closed : bool;
  ss_sendErr : option error;
  ss_seq : Z;
  ss_pending : gset Z;
  ss_chans : gmap Z ackResult;
  ss_out : list producerEvent;
  ss_reader : option (option error);
  ss_calls : list call
}.

Module producerclient.

Definition toProto (seq : Z) (req : CreateRequest) : createRequest :=
  mkCreate seq (rq_Command req) (rq_Payload req) (Int32 (rq_Priority req)) (rq_Webhook req) (Int32 (rq_MaxAttempts req)) (rq_IdempotencyKey req)
    (if is_zero (rq_RunAt req) then None else Some (rq_RunAt req)) (Int32 (rq_DelaySeconds req)).

Definition deadStreamErr (e : option error) : error :=
  match e with
  | None => ErrText "producerclient: stream closed"
  | Some e => ErrWrap "producerclient: stream closed" e
  end.

(** The outcome of an ack. *)
Definition ackOutcome (a : createAck) : ackResult := (ca_TaskId a, if ca_Ok a then None else Some (ErrText (ca_ErrorMessage a))).

(** [ch <- res] with a default: a full channel keeps what it has. *)
Definition offer (s : Z) (x : ackResult) (chans : gmap Z ackResult) : gmap Z ackResult :=
  match chans !! s with None => <[s := x]> chans | Some _ => chans end.

Definition set_call (i : nat) (c : call) (s : clientSession) : clientSession :=
  mkClientSession (ss_closed s) (ss_sendErr s) (ss_seq s) (ss_pending s) (ss_chans s) (ss_out s) (ss_reader s) (<[i := c]> (ss_calls s)).
Definition set_pending (p : gset Z) (s : clientSession) : clientSession :=
  mkClientSession (ss_closed s) (ss_sendErr s) (ss_seq s) p (ss_chans s) (ss_out s) (ss_reader s) (ss_calls s).
Definition set_chans (m : gmap Z ackResult) (s : clientSession) : clientSession :=
  mkClientSession (ss_closed s) (ss_sendErr s) (ss_seq s) (ss_pending s) m (ss_out s) (ss_reader s) (ss_calls s).
Definition moveTo (p : phase) (c : call) : call := mkCall (cl_batch c) (cl_reqs c) (cl_seqs c) p.

(** [peekReadErr]: the reader has ended. *)
Definition peekReadErr (s : clientSession) : option error := deadStreamErr <$> ss_reader s.

(** The checks at the start of a call. *)
Definition start (i : nat) (c : call) (s : clientSession) : clientSession :=
  set_call i (moveTo
    (match cl_reqs c with
     | [] => Returned [] None
     | _ =>
         if ss_closed s then Returned [] (Some (ErrText "producerclient: session closed"))
         else match peekReadErr s with Some e => Returned [] (Some e) | None => Registering end
     end) c) s.

(** [seq := s.seq.Add(1)] and [s.pending.Store(seq, ch)]. *)
Definition register (i : nat) (c : call) (s : clientSession) : clientSession :=
  let seq := wrapu64 (ss_seq s + 1) in
  set_call i (mkCall (cl_batch c) (cl_reqs c) (cl_seqs c ++ [seq]) (cl_phase c))
    (mkClientSession (ss_closed s) (ss_sendErr s) seq ({[ seq ]} ∪ ss_pending s) (delete seq (ss_chans s)) (ss_out s) (ss_reader s) (ss_calls s)).

Definition eventOf (c : call) : producerEvent :=
  if cl_batch c then PCreateBatch (zip_with (fun s r => Some (toProto s r)) (cl_seqs c) (cl_reqs c))
  else match cl_seqs c, cl_reqs c with
       | s :: _, r :: _ => PCreate (Some (toProto s r))
       | _, _ => PCreate None
       end.

(** The send: the stream's context is done when [cancelled]; a send on the closed
    channel panics. *)
Definition sendErrText (c : call) : string := if cl_batch c then "producerclient: send batch" else "producerclient: send create".
Definition failSend (i : nat) (c : call) (e : error) (s : clientSession) : clientSession :=
  set_pending (ss_pending s ∖ list_to_set (cl_seqs c)) (set_call i (moveTo (Returned [] (Some (ErrWrap (sendErrText c) e))) c) s).
Definition send (i : nat) (c : call) (cancelled : bool) (s : clientSession) : clientSession :=
  match ss_sendErr s with
  | Some e => failSend i c e s
  | None =>
      if cancelled then failSend i c (ErrText "context canceled") s
      else if ss_closed s then set_call i (moveTo (Crashed "send on closed channel") c) s
      else set_call i (moveTo (Awaiting []) c)
             (mkClientSession (ss_closed s) (ss_sendErr s) (ss_seq s) (ss_pending s) (ss_chans s) (ss_out s ++ [eventOf c]) (ss_reader s) (ss_calls s))
  end.

(** The next value from the channels in order. *)
Definition receive (i : nat) (c : call) (got : list ackResult) (s : clientSession) : clientSession :=
  match cl_seqs c !! length got with
  | None => s
  | Some seq =>
      match ss_chans s !! seq with
      | None => s
      | Some x =>
          let got := got ++ [x] in
          set_call i (moveTo (if bool_decide (length got = length (cl_seqs c)) then Returned got None else Awaiting got) c)
            (set_chans (delete seq (ss_chans s)) s)
      end
  end.

(** The caller's context is done: the numbers still waited for are dropped. *)
Definition cancelCall (i : nat) (c : call) (got : list ackResult) (s : clientSession) : clientSession :=
  set_pending (ss_pending s ∖ list_to_set (drop (length got) (cl_seqs c)))
    (set_call i (moveTo (Returned got (Some (ErrText "context canceled"))) c) s).

Definition deliver (a : createAck) (s : clientSession) : clientSession :=
  if bool_decide (ca_Seq a ∈ ss_pending s) then
    set_chans (offer (ca_Seq a) (ackOutcome a) (ss_chans s)) (set_pending (ss_pending s ∖ {[ ca_Seq a ]}) s)
  else s.

(** The end of the reader: the error goes to every pending number, which stays in
    the map. *)
Definition readEnd (e : option error) (s : clientSession) : clientSession :=
  mkClientSession (ss_closed s) (ss_sendErr s) (ss_seq s) (ss_pending s)
    (set_fold (fun seq m => offer seq ("", Some (deadStreamErr e)) m) (ss_chans s) (ss_pending s)) (ss_out s) (Some e) (ss_calls s).

Definition Close (s : clientSession) : clientSession :=
  mkClientSession true (ss_sendErr s) (ss_seq s) (ss_pending s) (ss_chans s) (ss_out s) (ss_reader s) (ss_calls s).

Inductive action :=
  | AStart (i : nat)
  | ARegister (i : nat)
  | ASend (i : nat) (cancelled : bool)
  | AReceive (i : nat)
  | ACancel (i : nat)
  | AWriterFails (e : error)
  | ADeliver (a : createAck)
  | AReadEnd (e : option error)
  | AClose.

(** One action; one that is not enabled changes nothing. *)
Definition exec (x : action) (s : clientSession) : clientSession :=
  let on i (k : call -> clientSession) := match ss_calls s !! i with Some c => k c | None => s end in
  match x with
  | AStart i => on i (fun c => match cl_phase c with Begin => start i c s | _ => s end)
  | ARegister i => on i (fun c => match cl_phase c with
      | Registering => if bool_decide (length (cl_seqs c) < length (cl_reqs c))%nat then register i c s else s
      | _ => s end)
  | ASend i cancelled => on i (fun c => match cl_phase c with
      | Registering => if bool_decide (length (cl_seqs c) = length (cl_reqs c)) then send i c cancelled s else s
      | _ => s end)
  | AReceive i => on i (fun c => match cl_phase c with Awaiting got => receive i c got s | _ => s end)
  | ACancel i => on i (fun c => match cl_phase c with Awaiting got => cancelCall i c got s | _ => s end)
  | AWriterFails e => mkClientSession (ss_closed s) (Some e) (ss_seq s) (ss_pending s) (ss_chans s) (ss_out s) (ss_reader s) (ss_calls s)
  | ADeliver a => match ss_reader s with None => deliver a s | Some _ => s end
  | AReadEnd e => match ss_reader s with None => readEnd e s | Some _ => s end
  | AClose => Close s
  end.

Definition run (xs : list action) (s : clientSession) : clientSession := fold_left (fun s x => exec x s) xs s.

Definition newCall (batch : bool) (reqs : list CreateRequest) : call := mkCall batch reqs [] Begin.
Definition connect (calls : list call) : clientSession := mkClientSession false None 0 ∅ ∅ [] None calls.
End producerclient.

(** ** Every caller gets its own ack *)

Section acks.
Import producerclient.
Implicit Types (acts : list action) (st : clientSession) (c : call).

(** What a channel can hold: the end of the stream, or an ack of its number that
    the reader has delivered. *)
Definition origin acts (s : Z) (x : ackResult) : Prop :=
  (exists e, x = ("", Some (deadStreamErr e))) \/ exists a, ADeliver a ∈ acts /\ ca_Seq a = s /\ x = ackOutcome a.

Definition callInv acts c : Prop :=
  (length (cl_seqs c) <= length (cl_reqs c))%nat /\
  match cl_phase c with
  | Begin => cl_seqs c = []
  | Registering | Crashed _ => True
  | Awaiting got => length (cl_seqs c) = length (cl_reqs c) /\ Forall2 (origin acts) (take (length got) (cl_seqs c)) got
  | Returned got None => length (cl_seqs c) = length (cl_reqs c) /\ Forall2 (origin acts) (cl_seqs c) got
  | Returned got (Some _) => Forall2 (origin acts) (take (length got) (cl_seqs c)) got
  end.

(** The requests in the events of the send channel. *)
Definition requestsOf (ev : producerEvent) : list createRequest :=
  match ev with
  | PCreate (Some r) => [r]
  | PCreateBatch rs => omap id rs
  | _ => []
  end.
Definition sent st : list createRequest := concat (map requestsOf (ss_out st)).

(** [r] is the [k]-th request of [c], under its number. *)
Definition belongs c (k : nat) (r : createRequest) : Prop :=
  exists req, cl_seqs c !! k = Some (cr_Seq r) /\ cl_reqs c !! k = Some req /\ r = toProto (cr_Seq r) req.

Record ClientInv acts st : Prop := {
  ci_count : 0 <= ss_seq st <= Z.of_nat (length acts);
  ci_range : forall i c k s, ss_calls st !! i = Some c -> cl_seqs c !! k = Some s -> 1 <= s <= ss_seq st;
  ci_unique : forall i j c c' k k' s, ss_calls st !! i = Some c -> ss_calls st !! j = Some c' ->
    cl_seqs c !! k = Some s -> cl_seqs c' !! k' = Some s -> i = j /\ k = k';
  ci_calls : forall i c, ss_calls st !! i = Some c -> callInv acts c;
  ci_chans : forall s x, ss_chans st !! s = Some x -> origin acts s x;
  ci_sent : forall r, r ∈ sent st -> exists i c k, ss_calls st !! i = Some c /\ belongs c k r
}.

Lemma origin_mono acts x s v : origin acts s v -> origin (acts ++ [x]) s v.
Proof. intros [?|(a & Ha & Hs)]; [by left|]. right. exists a. rewrite elem_of_app. auto. Qed.

Lemma origins_mono acts x ss vs : Forall2 (origin acts) ss vs -> Forall2 (origin (acts ++ [x])) ss vs.
Proof. intros Hf. eapply Forall2_impl; [exact Hf|]. intros; by apply origin_mono. Qed.

Lemma callInv_mono acts x c : callInv acts c -> callInv (acts ++ [x]) c.
Proof.
  intros [Hl Hp]. split; [done|]. destruct (cl_phase c) as [| |got|got [e|]|]; try done; naive_solver eauto using origins_mono.
Qed.

(** A step that keeps the numbers of all calls: [i] moves to another phase. *)
Lemma inv_move acts x st i c p st' : ClientInv acts st -> ss_calls st !! i = Some c ->
  ss_seq st' = ss_seq st -> ss_calls st' = <[i := moveTo p c]> (ss_calls st) ->
  callInv (acts ++ [x]) (moveTo p c) ->
  (forall s v, ss_chans st' !! s = Some v -> origin (acts ++ [x]) s v) ->
  (forall r, r ∈ sent st' -> r ∈ sent st \/ exists k, belongs c k r) -> ClientInv (acts ++ [x]) st'.
Proof.
  intros [I1 I2 I3 I4 I5 I6] Hc Hs Hcalls Hp Hch Hsent. pose proof (lookup_lt_Some _ _ _ Hc) as Hlt.
  assert (forall j d, ss_calls st' !! j = Some d -> exists d', ss_calls st !! j = Some d' /\ cl_seqs d = cl_seqs d' /\ cl_reqs d = cl_reqs d') as Hb.
  { intros j d. rewrite Hcalls. destruct (decide (j = i)) as [->|Hne].
    - rewrite list_lookup_insert_eq by done. intros [= <-]. by exists c.
    - rewrite list_lookup_insert_ne by done. intros Hd. by exists d. }
  split.
  - rewrite Hs, length_app. simpl. lia.
  - intros j d k s (d' & Hd' & -> & _)%Hb Hk. rewrite Hs. by eapply I2.
  - intros j1 j2 d1 d2 k1 k2 s (d1' & H1 & -> & _)%Hb (d2' & H2 & -> & _)%Hb Hk1 Hk2. by eapply I3.
  - intros j d. rewrite Hcalls. destruct (decide (j = i)) as [->|Hne].
    + rewrite list_lookup_insert_eq by done. by intros [= <-].
    + rewrite list_lookup_insert_ne by done. intros Hd. by eapply callInv_mono, I4.
  - done.
  - intros r [Hr|(k & Hr)]%Hsent.
    + destruct (I6 r Hr) as (j & d & k & Hd & Hbel). destruct (decide (j = i)) as [->|Hne].
      * exists i, (moveTo p c), k. rewrite Hcalls, list_lookup_insert_eq by done. split; [done|]. by simplify_eq.
      * exists j, d, k. rewrite Hcalls, list_lookup_insert_ne by done. done.
    + exists i, (moveTo p c), k. rewrite Hcalls, list_lookup_insert_eq by done. done.
Qed.

(** A step that changes no call. *)
Lemma inv_keep acts x st st' : ClientInv acts st -> ss_seq st' = ss_seq st -> ss_calls st' = ss_calls st -> ss_out st' = ss_out st ->
  (forall s v, ss_chans st' !! s = Some v -> origin (acts ++ [x]) s v) -> ClientInv (acts ++ [x]) st'.
Proof.
  intros [I1 I2 I3 I4 I5 I6] Hs Hcalls Hout Hch. split; rewrite ?Hs, ?Hcalls; try done.
  - rewrite length_app. simpl. lia.
  - intros i c Hc. by eapply callInv_mono, I4.
  - unfold sent. rewrite Hout. done.
Qed.

Lemma inv_idle acts x st : ClientInv acts st -> ClientInv (acts ++ [x]) st.
Proof. intros I. eapply inv_keep; eauto. intros s v Hv. by eapply origin_mono, ci_chans. Qed.

Lemma offer_lookup s x m s' v : offer s x m !! s' = Some v -> m !! s' = Some v \/ (s' = s /\ v = x).
Proof.
  unfold offer. destruct (m !! s) eqn:E; [by left|]. destruct (decide (s' = s)) as [->|]; [rewrite lookup_insert_eq; intros [= <-]; by right|].
  rewrite lookup_insert_ne by done. by left.
Qed.

Lemma offers_lookup (p : gset Z) x m s v : set_fold (fun seq m => offer seq x m) m p !! s = Some v -> m !! s = Some v \/ v = x.
Proof.
  unfold set_fold. simpl. generalize (elements p). intros l. induction l as [|y l IH]; simpl; [by left|].
  intros [Hv|[_ ->]]%offer_lookup; [by apply IH | by right].
Qed.

Lemma inv_register acts x st i c : ClientInv acts st -> Z.of_nat (length (acts ++ [x])) < two64 -> ss_calls st !! i = Some c ->
  cl_phase c = Registering -> (length (cl_seqs c) < length (cl_reqs c))%nat -> ClientInv (acts ++ [x]) (register i c st).
Proof.
  intros [I1 I2 I3 I4 I5 I6] Hn Hc Hp Hlen. pose proof (lookup_lt_Some _ _ _ Hc) as Hlt. rewrite length_app in Hn. simpl in Hn.
  unfold register. replace (wrapu64 (ss_seq st + 1)) with (ss_seq st + 1) by (unfold wrapu64; rewrite Z.mod_small; lia).
  set (c' := mkCall _ _ _ _).
  assert (forall j d, <[i := c']> (ss_calls st) !! j = Some d -> (j = i /\ d = c') \/ (j <> i /\ ss_calls st !! j = Some d)) as Hb.
  { intros j d. destruct (decide (j = i)) as [->|Hne]; [rewrite list_lookup_insert_eq by done; intros [= <-]; by left|].
    rewrite list_lookup_insert_ne by done. by right. }
  assert (forall k s, cl_seqs c' !! k = Some s -> cl_seqs c !! k = Some s \/ (k = length (cl_seqs c) /\ s = ss_seq st + 1)) as Hk.
  { intros k s. subst c'. simpl. rewrite lookup_app_Some. intros [?|[? Hx]]; [by left|]. right. apply list_lookup_singleton_Some in Hx as [? <-]. lia. }
  split; cbn [set_call ss_seq ss_calls ss_chans].
  - rewrite length_app. simpl. lia.
  - intros j d k s [[-> ->]|[_ Hd]]%Hb Hs; [apply Hk in Hs as [Hs|[_ ->]]; [|lia]|]; (eapply I2 in Hs; [|done]); lia.
  - intros j1 j2 d1 d2 k1 k2 s [[-> ->]|[Hn1 H1]]%Hb [[-> ->]|[Hn2 H2]]%Hb Hs1 Hs2.
    + apply Hk in Hs1 as [Hs1|[-> ->]], Hs2 as [Hs2|[-> E]]; subst; [by eapply (I3 i i)|eapply I2 in Hs1; [|done]; lia|eapply I2 in Hs2; [|done]; lia|done].
    + apply Hk in Hs1 as [Hs1|[_ ->]]; [by eapply I3|]. eapply I2 in Hs2; [|done]. lia.
    + apply Hk in Hs2 as [Hs2|[_ ->]]; [by eapply I3|]. eapply I2 in Hs1; [|done]. lia.
    + by eapply I3.
  - intros j d [[-> ->]|[_ Hd]]%Hb; [|by eapply callInv_mono, I4]. split; [subst c'; cbn; rewrite length_app; simpl; lia|].
    subst c'. cbn [cl_phase]. by rewrite Hp.
  - intros s v [_ Hv]%lookup_delete_Some. by eapply origin_mono, I5.
  - intros r Hr. destruct (I6 r Hr) as (j & d & k & Hd & req & Hs & Hq & Hrq). destruct (decide (j = i)) as [->|Hne].
    + exists i, c', k. rewrite list_lookup_insert_eq by done. split; [done|]. simplify_eq. exists req. split; [|done].
      subst c'. simpl. by apply lookup_app_l_Some.
    + exists j, d, k. rewrite list_lookup_insert_ne by done. split; [done|]. by exists req.
Qed.

(** The event of a call carries its requests under its numbers. *)
Lemma eventOf_belongs c r : length (cl_seqs c) = length (cl_reqs c) -> r ∈ requestsOf (eventOf c) -> exists k, belongs c k r.
Proof.
  intros Hl. unfold eventOf. destruct (cl_batch c).
  - cbn [requestsOf]. rewrite list_elem_of_omap. intros (o & (k & Hk)%list_elem_of_lookup & Ho). unfold id in Ho. subst o.
    apply lookup_zip_with_Some in Hk as (s & req & [= ->] & Hs & Hq). exists k, req. done.
  - destruct (cl_seqs c) as [|s ss] eqn:Es, (cl_reqs c) as [|req reqs] eqn:Er; cbn [requestsOf]; rewrite ?elem_of_nil; try done.
    intros ->%list_elem_of_singleton. exists 0%nat, req. by rewrite Es, Er.
Qed.

Lemma sent_snoc st ev r : r ∈ concat (map requestsOf (ss_out st ++ [ev])) -> r ∈ sent st \/ r ∈ requestsOf ev.
Proof. unfold sent. rewrite map_app, concat_app, elem_of_app. simpl. rewrite app_nil_r. done. Qed.

Lemma inv_send acts x st i c cancelled : ClientInv acts st -> ss_calls st !! i = Some c -> cl_phase c = Registering ->
  length (cl_seqs c) = length (cl_reqs c) -> ClientInv (acts ++ [x]) (send i c cancelled st).
Proof.
  intros I Hc Hp Hl.
  assert (forall s v, ss_chans st !! s = Some v -> origin (acts ++ [x]) s v) as Hch by (intros; by eapply origin_mono, ci_chans).
  assert (forall e, ClientInv (acts ++ [x]) (failSend i c e st)) as Hf.
  { intros e. eapply (inv_move acts x st i c); eauto; try done. split; [simpl; lia | constructor]. }
  unfold send. destruct (ss_sendErr st); [done|]. destruct cancelled; [done|].
  destruct (ss_closed st); eapply (inv_move acts x st i c); eauto; try done.
  - split; [simpl; lia | done].
  - split; [simpl; lia|]. split; [done | constructor].
  - intros r [Hr|Hr]%sent_snoc; [by left|]. right. by apply eventOf_belongs.
Qed.

Lemma inv_receive acts x st i c got : ClientInv acts st -> ss_calls st !! i = Some c -> cl_phase c = Awaiting got ->
  ClientInv (acts ++ [x]) (receive i c got st).
Proof.
  intros I Hc Hp. destruct (ci_calls _ _ I i c Hc) as [Hl Hg]. rewrite Hp in Hg. destruct Hg as [Hlen Hg].
  unfold receive. destruct (cl_seqs c !! length got) as [seq|] eqn:Es; [|by apply inv_idle].
  destruct (ss_chans st !! seq) as [v|] eqn:Ev; [|by apply inv_idle]. cbv zeta.
  assert (Forall2 (origin (acts ++ [x])) (take (length (got ++ [v])) (cl_seqs c)) (got ++ [v])) as Hall.
  { rewrite length_app. simpl. rewrite Nat.add_1_r. erewrite take_S_r by done. apply Forall2_app; [by apply origins_mono|].
    constructor; [|constructor]. eapply origin_mono, ci_chans; eauto. }
  eapply (inv_move acts x st i c); eauto; try done.
  - split; [done|]. cbn [moveTo cl_phase cl_seqs cl_reqs]. case_bool_decide as Hfull; cbn; [|done]. split; [done|]. by rewrite Hfull, firstn_all in Hall.
  - cbn [set_call set_chans ss_chans]. intros s w [_ Hw]%lookup_delete_Some. by eapply origin_mono, ci_chans.
Qed.

Lemma exec_session_inv acts x st : ClientInv acts st -> Z.of_nat (length (acts ++ [x])) < two64 -> ClientInv (acts ++ [x]) (exec x st).
Proof.
  intros I Hn.
  assert (forall s v, ss_chans st !! s = Some v -> origin (acts ++ [x]) s v) as Hch by (intros; by eapply origin_mono, ci_chans).
  assert (forall e, ClientInv (acts ++ [x]) (readEnd e st)) as Hend.
  { intros e. eapply inv_keep; eauto; try done. intros s v [Hv| ->]%offers_lookup; [by apply Hch | left; by exists e]. }
  destruct x as [i|i|i cancelled|i|i|e|a|e|]; cbn [exec]; cbv zeta;
    try (destruct (ss_calls st !! i) as [c|] eqn:Hc; [|by apply inv_idle]; pose proof (ci_calls _ _ I i c Hc) as [Hl Hp];
      destruct (cl_phase c) as [| |got|got e|m] eqn:Ep; try (by apply inv_idle)).
  - eapply (inv_move acts _ st i c); eauto; try done. split; [done|]. cbn [moveTo cl_phase cl_reqs cl_seqs]. rewrite Hp in *.
    destruct (cl_reqs c); [by split|]. destruct (ss_closed st); [constructor|]. destruct (peekReadErr st); constructor.
  - case_bool_decide; [by apply inv_register | by apply inv_idle].
  - case_bool_decide; [by apply inv_send | by apply inv_idle].
  - by apply inv_receive.
  - eapply (inv_move acts _ st i c); eauto; try done. split; [done|]. cbn [moveTo cl_phase cl_seqs]. apply origins_mono, Hp.
  - eapply inv_keep; eauto.
  - destruct (ss_reader st); [by apply inv_idle|]. unfold deliver. case_bool_decide; [|by apply inv_idle].
    eapply inv_keep; eauto; try done. intros s v [Hv|[-> ->]]%offer_lookup; [by apply Hch|].
    right. exists a. split; [|done]. apply elem_of_app. right. by apply list_elem_of_singleton.
  - destruct (ss_reader st); [by apply inv_idle | apply Hend].
  - eapply inv_keep; eauto; done.
Qed.

Lemma connect_inv calls : Forall (fun c => cl_seqs c = [] /\ cl_phase c = Begin) calls -> ClientInv [] (connect calls).
Proof.
  intros Hf. rewrite Forall_lookup in Hf. split; cbn [connect ss_seq ss_calls ss_chans]; try done.
  - intros i c k s [-> _]%Hf. done.
  - intros i j c c' k k' s [-> _]%Hf. done.
  - intros i c Hc. destruct (Hf i c Hc) as [Hs Hp]. split; [rewrite Hs; simpl; lia | by rewrite Hp].
  - intros r Hr. by apply elem_of_nil in Hr.
Qed.

Lemma run_inv calls acts : Forall (fun c => cl_seqs c = [] /\ cl_phase c = Begin) calls -> Z.of_nat (length acts) < two64 ->
  ClientInv acts (run acts (connect calls)).
Proof.
  intros Hf. induction acts as [|x acts IH] using rev_ind; intros Hn; [by apply connect_inv|].
  unfold run in *. rewrite fold_left_app. simpl. apply exec_session_inv; [|done]. apply IH. rewrite length_app in Hn. simpl in Hn. lia.
Qed.

(** C28. Every caller gets the answer to its own request.  However the goroutines
    of a session interleave, if the acks the reader delivers are answers of the
    server to requests of the session, under their sequence numbers, then a call
    that returns without an error returns one result for each of its requests in
    order, and each is the server's answer to this very request, or the end of
    the stream. *)
Theorem produce_own_ack calls acts (served : createRequest -> createAck -> Prop) i c got :
  Forall (fun c => cl_seqs c = [] /\ cl_phase c = Begin) calls -> Z.of_nat (length acts) < two64 ->
  (forall r a, served r a -> ca_Seq a = cr_Seq r) ->
  (forall a, ADeliver a ∈ acts -> exists r, r ∈ sent (run acts (connect calls)) /\ served r a) ->
  ss_calls (run acts (connect calls)) !! i = Some c -> cl_phase c = Returned got None ->
  Forall2 (fun req x => (exists e, x = ("", Some (deadStreamErr e))) \/
                        exists seq a, served (toProto seq req) a /\ x = ackOutcome a) (cl_reqs c) got.
Proof.
  intros Hf Hn Hseq Hhonest Hc Hp. pose proof (run_inv calls acts Hf Hn) as I.
  destruct (ci_calls _ _ I i c Hc) as [_ Hg]. rewrite Hp in Hg. destruct Hg as [Hlen Hg].
  apply Forall2_same_length_lookup. split; [rewrite <- Hlen; by eapply Forall2_length|]. intros k req x Hq Hx.
  destruct (lookup_lt_is_Some_2 (cl_seqs c) k) as [s Hs]; [rewrite Hlen; by eapply lookup_lt_Some|].
  destruct (Forall2_lookup_lr _ _ _ _ _ _ Hg Hs Hx) as [?|(a & Ha & Hsa & ->)]; [by left|]. right. exists s, a. split; [|done].
  destruct (Hhonest a Ha) as (r & Hr & Hserved). pose proof (Hseq _ _ Hserved) as Hrs.
  destruct (ci_sent _ _ I r Hr) as (j & c' & k' & Hc' & req' & Hs' & Hq' & Hreq).
  assert (s = cr_Seq r) as -> by congruence. destruct (ci_unique _ _ I _ _ _ _ _ _ _ Hc Hc' Hs Hs') as [<- <-]. simplify_eq.
  by rewrite <- Hreq.
Qed.
End acks.

(** ** Runs *)

Module client_run.
Import producerclient.
Definition req (cmd : string) : CreateRequest := mkCreateRequest cmd "{}" 0 "" 3 "" zero_time 0.
Definition calls : list call := [newCall false [req "send"]; newCall true [req "a"; req "b"]].
(** The server of [stream_run.deaf] answers each creation with its failure. *)
Definition served (r : createRequest) (a : createAck) : Prop :=
  producer.processCreate stream_run.deaf producer_run.sess 0 (Some r) tt = (Ok a, tt).
Definition ack (s : Z) : createAck := mkCreateAck s false "" "down".
Definition acts : list action :=
  [AStart 0; ARegister 0; AStart 1; ARegister 1; ASend 0 false; ARegister 1; ASend 1 false; ADeliver (ack 2); ADeliver (ack 1); ADeliver (ack 3);
   AReceive 0; AReceive 1; AReceive 1].
(** The reader ends between the check of a call and its registration. *)
Definition late : list action := [AStart 0; AReadEnd None; ARegister 0; ASend 0 false].
Definition late_state : clientSession := run late (connect [newCall false [req "send"]]).
End client_run.

Lemma produce_own_ack_witness :
  exists c got, ss_calls (producerclient.run client_run.acts (producerclient.connect client_run.calls)) !! 1%nat = Some c /\
    cl_phase c = Returned got None /\
    Forall2 (fun req x => (exists e, x = ("", Some (producerclient.deadStreamErr e))) \/
      exists seq a, client_run.served (producerclient.toProto seq req) a /\ x = producerclient.ackOutcome a) [client_run.req "a"; client_run.req "b"] got.
Proof.
  pose (got := [("", Some (ErrText "down")); ("", Some (ErrText "down"))] : list ackResult).
  pose (c := mkCall true [client_run.req "a"; client_run.req "b"] [2; 3] (Returned got None)).
  assert (ss_calls (producerclient.run client_run.acts (producerclient.connect client_run.calls)) !! 1%nat = Some c) as Hc by (vm_compute; reflexivity).
  assert (sent (producerclient.run client_run.acts (producerclient.connect client_run.calls)) =
    [producerclient.toProto 1 (client_run.req "send"); producerclient.toProto 2 (client_run.req "a"); producerclient.toProto 3 (client_run.req "b")]) as Hsent
    by (vm_compute; reflexivity).
  exists c, got. split; [exact Hc|]. split; [reflexivity|].
  apply (produce_own_ack client_run.calls client_run.acts client_run.served 1 c got).
  - unfold client_run.calls. apply Forall_cons; split; [split; reflexivity|].
    apply Forall_cons; split; [split; reflexivity | apply Forall_nil; exact I].
  - vm_compute. reflexivity.
  - intros r a Ha. destruct (processCreate_ack stream_run.deaf producer_run.sess 0 (Some r) tt) as (a' & s' & E & Hs).
    unfold client_run.served in Ha. rewrite E in Ha. injection Ha as <- _. exact Hs.
  - intros a Ha. rewrite Hsent. unfold client_run.acts in Ha.
    do 7 (apply elem_of_cons in Ha as [[=]|Ha]). apply elem_of_cons in Ha as [[= ->]|Ha].
    { eexists. split; [right; left | vm_compute; reflexivity]. }
    apply elem_of_cons in Ha as [[= ->]|Ha]. { eexists. split; [left | vm_compute; reflexivity]. }
    apply elem_of_cons in Ha as [[= ->]|Ha]. { eexists. split; [right; right; left | vm_compute; reflexivity]. }
    do 3 (apply elem_of_cons in Ha as [[=]|Ha]). apply elem_of_nil in Ha. destruct Ha.
  - exact Hc.
  - reflexivity.
Defined.

(** The other goroutines never wake the call. *)
Lemma late_stays acts : producerclient.ACancel 0 ∉ acts -> forall st, ss_reader st = Some None -> ss_chans st = ∅ ->
  ss_calls st = ss_calls client_run.late_state ->
  ss_calls (producerclient.run acts st) = ss_calls client_run.late_state.
Proof.
  unfold producerclient.run. induction acts as [|x acts IH]; intros Hx st Hr Hch Hc; cbn [fold_left]; [done|].
  apply not_elem_of_cons in Hx as [Hne Hx].
  assert (ss_calls client_run.late_state = [mkCall false [client_run.req "send"] [1] (Awaiting [])]) as Hl by (vm_compute; reflexivity).
  assert (producerclient.exec x st = st \/ exists st', producerclient.exec x st = st' /\ ss_reader st' = ss_reader st /\ ss_chans st' = ss_chans st /\
    ss_calls st' = ss_calls st) as [->|(st' & -> & E1 & E2 & E3)]; [| |by apply IH; [..|congruence|congruence|congruence]].
  - destruct x as [[|i]|[|i]|[|i] cancelled|[|i]|[|i]|e|a|e|]; cbn [producerclient.exec]; rewrite ?Hc, ?Hl, ?Hr; cbn [lookup list_lookup cl_phase];
      try (by left); try done; [|right; eexists; split; [reflexivity|done]..].
    left. unfold producerclient.receive. simpl. by rewrite Hch.
  - by apply IH.
Qed.

(** A call can outlive its stream.  The reader's end wakes the calls that are
    registered; one that passed its check before and registers after it waits for
    an ack nobody will deliver: whatever the session does from there, [Close]
    included, it stays blocked until its own context is done.  And a send after
    [Close] has closed the channel panics. *)
Theorem produce_blocks_or_panics :
  (exists acts st, st = producerclient.run acts (producerclient.connect [producerclient.newCall false [client_run.req "send"]]) /\
     ss_reader st = Some None /\ forall more, producerclient.ACancel 0 ∉ more ->
       cl_phase <$> ss_calls (producerclient.run more st) !! 0%nat = Some (Awaiting [])) /\
  cl_phase <$> ss_calls (producerclient.run [producerclient.AStart 0; producerclient.AClose; producerclient.ARegister 0; producerclient.ASend 0 false]
      (producerclient.connect [producerclient.newCall false [client_run.req "send"]])) !! 0%nat = Some (Crashed "send on closed channel").
Proof.
  split; [|vm_compute; reflexivity]. exists client_run.late, client_run.late_state. split; [done|]. split; [vm_compute; reflexivity|].
  intros more Hm. rewrite (late_stays more Hm client_run.late_state); vm_compute; reflexivity.
Qed.
