(* ===== verification/WorkerClient.v ===== *)
(** The worker's client library ([src/pkg/workerclient]): slots that ask for tasks
    over one stream, run the handler on what they get and send its verdicts.

    The handler is a function of the task.  [wstep] interleaves the slots, the
    server's handlers of the outstanding Ready events and the reader. *)

From S2P Require Import Prelude GoTime Domain Keys GoText Cluster Auth Middleware Scheduler ResultsService WorkerStream.

(** A task as the handler gets it. *)
Record clientTask := mkClientTask {
  wt_ID : string; wt_Command : string; wt_Payload : string; wt_Priority : Z; wt_Attempts : Z; wt_MaxAttempts : Z; wt_TenantID : string;
  wt_Webhook : string; wt_LeaseUntil : string
}.

(** The verdict of a handler; the kind is an integer constant of the source. *)
Record clientResult := mkClientResult {
  wr_kind : Z; wr_body : option (gmap string anyv); wr_err : string; wr_delaySeconds : Z; wr_reason : string
}.

Record clientConfig := mkClientConfig {
  wk_Addr : string; wk_Token : string; wk_WorkerID : string; wk_Commands : list string; wk_Concurrency : Z; wk_LeaseSeconds : Z; wk_BatchSize : Z;
  wk_IdleBackoff : Z
}.

Module workerclient.

Definition resultCompleted : Z := 0.
Definition resultFailed : Z := 1.
Definition resultNacked : Z := 2.
Definition resultAbandoned : Z := 3.

Definition zeroResult : clientResult := mkClientResult 0 None "" 0 "".
Definition Completed (body : option (gmap string anyv)) : clientResult := mkClientResult resultCompleted body "" 0 "".
Definition Failed (err : string) : clientResult := mkClientResult resultFailed None err 0 "".
Definition Nack (delaySeconds : Z) (reason : string) : clientResult :=
  mkClientResult resultNacked None "" (if delaySeconds <? 0 then 0 else delaySeconds) reason.
Definition Abandon : clientResult := mkClientResult resultAbandoned None "" 0 "".

Definition defaults (c : clientConfig) : clientConfig :=
  mkClientConfig (wk_Addr c) (wk_Token c) (wk_WorkerID c) (wk_Commands c) (if wk_Concurrency c <=? 0 then 1 else wk_Concurrency c)
    (wk_LeaseSeconds c) (wk_BatchSize c) (if wk_IdleBackoff c <=? 0 then 50 * millisecond else wk_IdleBackoff c).

Definition New (c : clientConfig) : res clientConfig :=
  if bool_decide (wk_Addr c = "") then Err (ErrText "workerclient: Addr is required")
  else if bool_decide (wk_Token c = "") then Err (ErrText "workerclient: Token is required")
  else Ok (defaults c).

Definition protoToTask (p : protoTask) : clientTask :=
  mkClientTask (pt_Id p) (pt_Command p) (pt_Payload p) (pt_Priority p) (pt_Attempts p) (pt_MaxAttempts p) (pt_TenantId p) (pt_Webhook p) (pt_LeaseUntil p).

Section dispatch.
(** [sonic.Marshal] of a result body. *)
Variable marshalBody : gmap string anyv -> res string.
Variable h : clientTask -> clientResult.

(** The event a verdict is sent as, or the error. *)
Definition applyResult (taskID : string) (r : clientResult) : res workerEvent :=
  if wr_kind r =? resultCompleted then
    match (match wr_body r with None => Ok "" | Some b => marshalBody b end) with
    | Err e => Err (ErrWrap "marshal result body" e)
    | Ok payload => Ok (EResult (mkWResult taskID "COMPLETED" payload ""))
    end
  else if wr_kind r =? resultFailed then Ok (EResult (mkWResult taskID "FAILED" "" (wr_err r)))
  else if wr_kind r =? resultNacked then Ok (ENack taskID (Int32 (wr_delaySeconds r)) (wr_reason r))
  else if wr_kind r =? resultAbandoned then Ok (EAbandon taskID)
  else Err (ErrText "workerclient: invalid Result (zero value?)").

Definition sentBy (r : res workerEvent) : list workerEvent := match r with Ok ev => [ev] | Err _ => [] end.

Definition dispatch (pt : protoTask) : list workerEvent := sentBy (applyResult (pt_Id pt) (h (protoToTask pt))).

(** The result of a task in a batch; a body that cannot be encoded is left out. *)
Definition batchResultOf (pt : protoTask) : option wResult :=
  let r := h (protoToTask pt) in
  if wr_kind r =? resultCompleted then
    Some (mkWResult (pt_Id pt) "COMPLETED" (match wr_body r with Some b => match marshalBody b with Ok p => p | Err _ => "" end | None => "" end) "")
  else if wr_kind r =? resultFailed then Some (mkWResult (pt_Id pt) "FAILED" "" (wr_err r))
  else None.

Definition dispatchBatch (batch : list protoTask) : list workerEvent :=
  match batch with
  | [pt] => dispatch pt
  | _ =>
      concat (map (fun pt => match batchResultOf pt with None => dispatch pt | Some _ => [] end) batch) ++
      match omap batchResultOf batch with
      | [] => []
      | results => [EResultBatch (map Some results)]
      end
  end.
End dispatch.

Definition readyEvent (c : clientConfig) : workerEvent :=
  EReady (wk_Commands c) (Int32 (wk_LeaseSeconds c)) (Int32 (if wk_BatchSize c <? 1 then 1 else wk_BatchSize c)).

(** What the reader makes of an event: a batch for a slot, or nothing. *)
Definition batchOf (ev : serverEvent) : option (list protoTask) :=
  match ev with
  | STask t => Some [t]
  | STaskBatch [] => None
  | STaskBatch ts => Some ts
  | _ => None
  end.
End workerclient.

(** ** A session *)

Inductive slot := SlotReady | SlotWaiting | SlotHolding (batch : list protoTask).

(** The slots, what they have sent, the Ready events the server still works on,
    its events the reader has not read, and the Ready events it has answered with
    no task. *)
Record workerSession := mkWorkerSession {
  cs_slots : list slot; cs_out : list workerEvent; cs_open : nat; cs_in : list serverEvent; cs_silent : nat
}.

Definition newSession (c : clientConfig) : workerSession := mkWorkerSession (replicate (Z.to_nat (wk_Concurrency c)) SlotReady) [] 0 [] 0.

Section session.
Import workerclient.
Variable marshalBody : gmap string anyv -> res string.
Variable h : clientTask -> clientResult.
Variable c : clientConfig.

(** The answers of the server's handler of a Ready event; other events of the
    server, the acks among them, carry no task. *)
Definition readyAnswer (evs : list serverEvent) : Prop :=
  evs = [] \/ (exists code msg, evs = [SError code msg]) \/ (exists t, evs = [STask t]) \/ exists t ts, evs = [STaskBatch (t :: ts)].

(** The Ready events answered with no task, after one more answer. *)
Definition silentAfter (evs : list serverEvent) (n : nat) : nat := match omap batchOf evs with [] => S n | _ => n end.

(** The steps of a session whose context is not done and whose stream is open. *)
Inductive wstep : workerSession -> workerSession -> Prop :=
  | step_ready st i : cs_slots st !! i = Some SlotReady ->
      wstep st (mkWorkerSession (<[i := SlotWaiting]> (cs_slots st)) (cs_out st ++ [readyEvent c]) (S (cs_open st)) (cs_in st) (cs_silent st))
  | step_answer st n evs : cs_open st = S n -> readyAnswer evs ->
      wstep st (mkWorkerSession (cs_slots st) (cs_out st) n (cs_in st ++ evs)
                  (silentAfter evs (cs_silent st)))
  | step_take st i ev rest batch : cs_in st = ev :: rest -> batchOf ev = Some batch -> cs_slots st !! i = Some SlotWaiting ->
      wstep st (mkWorkerSession (<[i := SlotHolding batch]> (cs_slots st)) (cs_out st) (cs_open st) rest (cs_silent st))
  | step_drop st ev rest : cs_in st = ev :: rest -> batchOf ev = None ->
      wstep st (mkWorkerSession (cs_slots st) (cs_out st) (cs_open st) rest (cs_silent st))
  | step_other st ev : batchOf ev = None ->
      wstep st (mkWorkerSession (cs_slots st) (cs_out st) (cs_open st) (cs_in st ++ [ev]) (cs_silent st))
  | step_work st i batch : cs_slots st !! i = Some (SlotHolding batch) ->
      wstep st (mkWorkerSession (<[i := SlotReady]> (cs_slots st)) (cs_out st ++ dispatchBatch marshalBody h batch) (cs_open st) (cs_in st) (cs_silent st)).
End session.

(** ** Every task of a batch is answered once *)

(** The tasks an event disposes of. *)
Definition disposes (ev : workerEvent) : list string :=
  match ev with
  | EResult r => [wr_TaskId r]
  | EResultBatch rs => map wr_TaskId (omap id rs)
  | ENack taskId _ _ => [taskId]
  | EAbandon taskId => [taskId]
  | _ => []
  end.

Section dispatch_facts.
Import workerclient.
Variable marshalBody : gmap string anyv -> res string.
Variable h : clientTask -> clientResult.

(** Verdicts a handler can build, with bodies that can be encoded. *)
Definition sound_verdict (r : clientResult) : Prop :=
  0 <= wr_kind r <= 3 /\ forall b, wr_body r = Some b -> is_ok (marshalBody b) = true.

Lemma dispatch_once pt : sound_verdict (h (protoToTask pt)) -> exists ev, dispatch marshalBody h pt = [ev] /\ disposes ev = [pt_Id pt].
Proof.
  intros [Hk Hb]. unfold dispatch, applyResult, resultCompleted, resultFailed, resultNacked, resultAbandoned. set (r := h (protoToTask pt)) in *.
  assert (wr_kind r = 0 \/ wr_kind r = 1 \/ wr_kind r = 2 \/ wr_kind r = 3) as [E|[E|[E|E]]] by lia; rewrite E; cbn [Z.eqb Pos.eqb]; try (by eexists).
  destruct (wr_body r) as [b|]; [|by eexists]. specialize (Hb b eq_refl). destruct (marshalBody b); [by eexists | done].
Qed.

Lemma disposes_batch rs : disposes (EResultBatch (map Some rs)) = map wr_TaskId rs.
Proof. induction rs as [|r rs IH]; [done|]. cbn in *. by rewrite IH. Qed.

(** A slot answers for every task of its batch.  When the handler's verdicts
    are sound, the events a slot sends for a batch dispose of each of its tasks
    exactly once: completions and failures together in one event, the others one
    by one. *)
Theorem batch_disposed batch : Forall (fun pt => sound_verdict (h (protoToTask pt))) batch ->
  concat (map disposes (dispatchBatch marshalBody h batch)) ≡ₚ map pt_Id batch.
Proof.
  intros Hall.
  assert (forall l, Forall (fun pt => sound_verdict (h (protoToTask pt))) l ->
    concat (map disposes (concat (map (fun pt => match batchResultOf marshalBody h pt with None => dispatch marshalBody h pt | Some _ => [] end) l))) ++
    map wr_TaskId (omap (batchResultOf marshalBody h) l) ≡ₚ map pt_Id l) as Hl.
  { clear. induction 1 as [|pt l Hpt Hl IH]; [done|]. cbn [map concat omap list_omap].
    destruct (batchResultOf marshalBody h pt) as [r|] eqn:Er.
    - assert (wr_TaskId r = pt_Id pt) as Hid
        by (unfold batchResultOf in Er; cbv zeta in Er; destruct (_ =? _); [|destruct (_ =? _)]; try done; by injection Er as <-).
      cbn [app map]. rewrite Hid, <- IH. by rewrite Permutation_middle.
    - destruct (dispatch_once pt Hpt) as (ev & -> & Hd). cbn [map app concat]. rewrite Hd. cbn [app]. by rewrite IH. }
  unfold dispatchBatch. destruct batch as [|pt [|pt' rest]]; [done| |].
  - inversion_clear Hall as [|? ? Hpt _]. destruct (dispatch_once pt Hpt) as (ev & -> & Hd). cbn [map concat]. by rewrite Hd.
  - rewrite <- (Hl _ Hall), map_app, concat_app. apply Permutation_app_head.
    destruct (omap (batchResultOf marshalBody h) (pt :: pt' :: rest)) as [|r rs]; [done|].
    cbn [map concat]. by rewrite app_nil_r, <- disposes_batch.
Qed.
End dispatch_facts.

(** ** A Ready event that is not answered costs a slot *)

Section answers.
Import worker.
Context {S : Type}.

Lemma pollClaims_answers {A} clock between db di left k (claim : Z -> M S (option A)) push s evs :
  (forall now s x s', claim now s = (Ok (Some x), s') -> readyAnswer (push x)) ->
  fst (pollClaims clock between db di left k claim push s) = Ok evs -> readyAnswer evs.
Proof.
  intros Hpush. revert k s. induction left as [|left IH]; intros k s; cbn [pollClaims]; [intros [= <-]; by left|].
  destruct (db k); [intros [= <-]; by left|]. unfold mbnd at 1, mtry at 1. destruct (claim (clock k) s) as [[[x|]|e] s1] eqn:Ec.
  - intros [= <-]. by eapply Hpush.
  - unfold mbnd, mtry. destruct (between k s1) as [r s2]. destruct (di k); [intros [= <-]; by left | by apply IH].
  - intros [= <-]. right. left. eauto.
Qed.

(** The server's handler answers a Ready event with an error, a task, a batch that
    is not empty, or not at all. *)
Lemma handleReady_answers cfg (svc : services S) clock between db di sess cmds lease count s evs :
  fst (handleReady cfg svc clock between db di sess cmds lease count s) = Ok evs -> readyAnswer evs.
Proof.
  unfold handleReady. destruct (resolveCommands sess cmds) as [cs|]; [|intros [= <-]; right; left; eauto]. cbv zeta.
  destruct (count <=? 1); apply pollClaims_answers; intros now s0 x s'.
  - intros _. right. right. left. eauto.
  - unfold mbnd, mret. destruct (sv_ClaimManyTasks svc _ _ _ _ _ _ s0) as [[[|t got]|e] s1]; [done| |done].
    intros [= <- <-]. right. right. right. eexists _, _. reflexivity.
Qed.

(** A Ready event that finds no task in any of its attempts is not answered. *)
Lemma ready_unanswered cfg (svc : services S) clock between db di sess cmds cs lease s :
  resolveCommands sess cmds = Some cs ->
  (forall now w l wait t s, exists s', sv_ClaimTask svc now w cs l wait t s = (Ok None, s')) ->
  fst (handleReady cfg svc clock between db di sess cmds lease 1 s) = Ok [].
Proof.
  intros Hcs Hnone. unfold handleReady. rewrite Hcs. cbv zeta. change (1 <=? 1) with true. cbn match. unfold handleReadyOne.
  generalize (attempts cfg) 0%nat s. clear s. intros left. induction left as [|left IH]; intros k s; cbn [pollClaims]; [done|].
  destruct (db k); [done|]. unfold mbnd at 1, mtry at 1.
  edestruct Hnone as [s1 ->]. unfold mbnd, mtry. destruct (between k s1) as [r s2]. destruct (di k); [done | apply IH].
Qed.
End answers.

Section stall.
Import workerclient.
Variable marshalBody : gmap string anyv -> res string.
Variable h : clientTask -> clientResult.
Variable c : clientConfig.
Implicit Types (st : workerSession).

Definition waits (x : slot) : nat := match x with SlotWaiting => 1 | _ => 0 end.
Definition waiting (l : list slot) : nat := sum_list_with waits l.

Lemma client_waiting_insert l i x y : l !! i = Some x -> (waiting (<[i := y]> l) + waits x = waiting l + waits y)%nat.
Proof.
  revert i. unfold waiting. induction l as [|z l IH]; intros [|i] Hi; [done|done| |].
  - injection Hi as ->. cbn. lia.
  - change (<[S i := y]> (z :: l)) with (z :: <[i := y]> l). specialize (IH i Hi). cbn [sum_list_with]. lia.
Qed.

Lemma waiting_le l : (waiting l <= length l)%nat.
Proof. unfold waiting. induction l as [|[] l IH]; cbn [sum_list_with waits length]; lia. Qed.

Lemma waiting_all l i x : waiting l = length l -> l !! i = Some x -> x = SlotWaiting.
Proof.
  revert i. induction l as [|z l IH]; intros i Hw Hi; [done|]. pose proof (waiting_le l) as Hle. unfold waiting in *. cbn in Hw.
  destruct i as [|i]; cbn in Hi; [injection Hi as <-; destruct z; cbn in Hw; [lia|done|lia]|].
  apply (IH i); [|done]. destruct z; cbn in Hw; lia.
Qed.

(** Every waiting slot is accounted for: by a Ready event the server works on, by a
    batch the reader has not handed out, or by a Ready event that was answered
    with no task. *)
Definition SlotInv st : Prop :=
  length (cs_slots st) = Z.to_nat (wk_Concurrency c) /\
  waiting (cs_slots st) = (cs_open st + length (omap batchOf (cs_in st)) + cs_silent st)%nat.

Lemma answer_count evs n : readyAnswer evs -> (length (omap batchOf evs) + silentAfter evs n = S n)%nat.
Proof. by intros [->|[(code & msg & ->)|[(t & ->)|(t & ts & ->)]]]. Qed.

Lemma wstep_inv st st' : SlotInv st -> wstep marshalBody h c st st' -> SlotInv st'.
Proof.
  intros [Hl Hw] Hstep. unfold SlotInv.
  destruct Hstep as [st i Hi|st n evs Hn Ha|st i ev rest batch Hin Hb Hi|st ev rest Hin Hb|st ev Hb|st i batch Hi];
    cbn [cs_slots cs_open cs_in cs_silent]; rewrite ?length_insert; (split; [done|]);
    try (pose proof (client_waiting_insert _ _ _ SlotWaiting Hi)); try (pose proof (client_waiting_insert _ _ _ (SlotHolding batch) Hi));
    try (pose proof (client_waiting_insert _ _ _ SlotReady Hi)); cbn [waits] in *; rewrite ?omap_app, ?length_app; try lia.
  - pose proof (answer_count evs (cs_silent st) Ha). lia.
  - rewrite Hin in Hw. cbn in Hw. rewrite Hb in Hw. cbn in Hw. lia.
  - rewrite Hin in Hw. cbn in Hw. rewrite Hb in Hw. lia.
  - cbn. rewrite Hb. cbn. lia.
Qed.

Lemma session_inv st : rtc (wstep marshalBody h c) (newSession c) st -> SlotInv st.
Proof.
  intros Hr. assert (SlotInv (newSession c)) as H0.
  { split; cbn; [by rewrite length_replicate|]. unfold waiting. by induction (Z.to_nat (wk_Concurrency c)). }
  revert H0. induction Hr as [|st1 st2 st3 Hs _ IH]; [done|]. intros H1. apply IH. by eapply wstep_inv.
Qed.

Definition stalled st : Prop := cs_silent st = Z.to_nat (wk_Concurrency c).

Lemma stalled_step st st' : SlotInv st -> stalled st -> wstep marshalBody h c st st' ->
  cs_slots st' = cs_slots st /\ cs_out st' = cs_out st /\ stalled st'.
Proof.
  intros [Hl Hw] Hs. unfold stalled in *. pose proof (waiting_le (cs_slots st)) as Hle.
  assert (waiting (cs_slots st) = length (cs_slots st)) as Hall by lia.
  assert (cs_open st = 0%nat /\ omap batchOf (cs_in st) = []) as [Ho Hin] by (split; [lia|]; apply length_zero_iff_nil; lia).
  destruct 1 as [st i Hi|st n evs Hn Ha|st i ev rest batch Hev Hb Hi|st ev rest Hev Hb|st ev Hb|st i batch Hi]; cbn; try done.
  - by pose proof (waiting_all _ _ _ Hall Hi).
  - by rewrite Hn in Ho.
  - rewrite Hev in Hin. cbn in Hin. by rewrite Hb in Hin.
  - by pose proof (waiting_all _ _ _ Hall Hi).
Qed.

(** C38. A worker whose slots have each had one Ready event end without a task
    never asks again.  The reader hands slots only tasks, so a Ready event that
    the server ends in silence or with an error leaves its slot waiting; once as
    many have ended that way as there are slots, no step changes a slot or sends
    anything. *)
Theorem idle_worker_stalls st st' : rtc (wstep marshalBody h c) (newSession c) st -> stalled st ->
  rtc (wstep marshalBody h c) st st' -> cs_slots st' = cs_slots st /\ cs_out st' = cs_out st.
Proof.
  intros Hr Hs Hr'. apply session_inv in Hr. revert Hr Hs. induction Hr' as [|st1 st2 st3 Hstep _ IH]; [done|].
  intros Hi Hs. destruct (stalled_step _ _ Hi Hs Hstep) as (Hsl & Hout & Hs2).
  destruct (IH (wstep_inv _ _ Hi Hstep) Hs2) as [-> ->]. done.
Qed.
End stall.

(** ** Witnesses *)

Module workerclient_demo.
Import workerclient.

Definition marshalNone (_ : gmap string anyv) : res string := Err (ErrText "unsupported value").
Definition handler (t : clientTask) : clientResult :=
  if bool_decide (wt_Command t = "SEND") then Completed None else if bool_decide (wt_Command t = "LATER") then Nack (-5) "busy" else Failed "unknown".
Definition taskOf (id command : string) : protoTask := mkProto id command "{}" 0 "" 5 "IN_PROGRESS" "w1" "" 1 "acme" None None.
Definition cfg : clientConfig := mkClientConfig "localhost:9092" "token" "" ["SEND"] 1 60 1 0.
Definition asked : workerSession := mkWorkerSession [SlotWaiting] [EReady ["SEND"] 60 1] 1 [] 0.
Definition unanswered : workerSession := mkWorkerSession [SlotWaiting] [EReady ["SEND"] 60 1] 0 [] 1.
End workerclient_demo.
Import workerclient workerclient_demo.

Lemma batch_disposed_witness :
  concat (map disposes (dispatchBatch marshalNone handler [taskOf "t1" "SEND"; taskOf "t2" "LATER"; taskOf "t3" "OTHER"])) ≡ₚ ["t1"; "t2"; "t3"].
Proof.
  apply (batch_disposed marshalNone handler [taskOf "t1" "SEND"; taskOf "t2" "LATER"; taskOf "t3" "OTHER"]).
  repeat (constructor; [split; [vm_compute; split; discriminate | vm_compute; discriminate]|]). constructor.
Defined.

Lemma idle_worker_stalls_witness :
  stalled cfg unanswered /\ forall st', rtc (wstep marshalNone handler cfg) unanswered st' ->
  cs_slots st' = [SlotWaiting] /\ cs_out st' = [EReady ["SEND"] 60 1].
Proof.
  split; [reflexivity|]. intros st' Hr. apply (idle_worker_stalls marshalNone handler cfg unanswered st'); [|reflexivity|exact Hr].
  apply (rtc_l _ _ asked); [apply (step_ready marshalNone handler cfg (newSession cfg) 0); reflexivity|].
  apply (rtc_l _ _ unanswered); [|apply rtc_refl].
  apply (step_answer marshalNone handler cfg asked 0 []); [reflexivity | by left].
Defined.

(** The zero verdict completes its task, and a batch reports a task COMPLETED
    without its body when the body cannot be encoded; alone, the task gets no
    answer. *)
Lemma worker_client_run :
  applyResult marshalNone "t1" zeroResult = Ok (EResult (mkWResult "t1" "COMPLETED" "" "")) /\
  dispatchBatch marshalNone (fun _ => Completed (Some ∅)) [taskOf "t1" "SEND"; taskOf "t2" "SEND"] =
    [EResultBatch [Some (mkWResult "t1" "COMPLETED" "" ""); Some (mkWResult "t2" "COMPLETED" "" "")]] /\
  dispatchBatch marshalNone (fun _ => Completed (Some ∅)) [taskOf "t1" "SEND"] = [].
Proof. repeat split; vm_compute; reflexivity. Qed.
