(* ===== verification/Controllers.v ===== *)
(** The HTTP interface ([src/internal/controllers], [src/pkg/app/url_mappings.go]):
    a handler for each route over the services, and the routes with the
    middleware in front of them.

    A handler takes what gin made of the request: the context the middleware
    passed on, the path parameters, and the decoded body, [None] when
    [ShouldBindJSON] refuses it.  Its answer is the status, the headers the code
    sets and the value it gives to [c.JSON].  [clock k] is the time of the [k]-th
    service call of a handler. *)

From S2P Require Import Prelude GoTime Domain Keys GoText GoParse Float64 RateLimit PebbleDB SubRepo Topics TaskRepo Auth Middleware Scheduler ResultsService WorkerStream.

(** ** Requests and answers *)

Record createReq := mkCreateReq {
  cq_Command : string; cq_Payload : anyv; cq_Priority : Z; cq_Webhook : string; cq_MaxAttempts : Z; cq_Idempotency : string;
  cq_RunAt : string; cq_DelaySecs : Z
}.
Record claimReq := mkClaimReq { clq_Commands : list string; clq_LeaseSeconds : Z; clq_WaitSeconds : Z }.
Record batchClaimReq := mkBatchClaimReq { bq_Commands : list string; bq_LeaseSeconds : Z; bq_Count : Z }.
Record nackReq := mkNackReq { nq_DelaySeconds : Z; nq_Reason : string }.
Record createSubscriptionReq := mkSubReq {
  sq_CallbackURL : string; sq_EventTypes : list string; sq_TTLSeconds : Z; sq_DeliveryMode : string; sq_GroupID : string;
  sq_MinIntervalSeconds : Z
}.
Record cleanupReq := mkCleanupReq { xq_Limit : Z; xq_Before : string }.

Record batchCreateResult := mkCreateResult { bc_Task : option Task; bc_Error : string }.

Record raftGroup := mkRaftGroup {
  rg_IsLeader : bool; rg_SelfID : string; rg_BindAddr : string; rg_LeaderID : string; rg_LeaderAddr : string; rg_LeaderHTTPAddr : string
}.
Record raftGroupView := mkGroupView { gv_ShardIdx : nat; gv_group : raftGroup; gv_HasLeader : bool }.

Inductive body :=
  | NoBody
  | ErrorBody (msg : string)
  | NotLeaderBody (leader : string)
  | LimitBody (scope operation : string) (retryAfterSeconds : Z)
  | TaskBody (t : Task)
  | TasksBody (ts : list Task) (error : option string)
  | CreatedBody (results : list batchCreateResult)
  | RecordBody (r : ResultRecord)
  | SubmittedBody (results : list BatchSubmitResponse)
  | NackBody (status : string) (delaySeconds : Z)
  | OkBody
  | StatusBody (status : string)
  | ResultBody (task : option Task) (result : option ResultRecord)
  | CleanupBody (deleted : Z) (before : Z) (limit : Z)
  | StatsBody (q : QueueStats)
  | QueuesBody (m : gmap string Z)
  | SubscriptionBody (id : string) (expiresAt : Z)
  | RaftBody (groups : list raftGroupView)
  | TopicBody (r : topicResponse).

Record httpResponse := mkHTTP { hr_status : Z; hr_Location : option string; hr_RetryAfter : option Z; hr_body : body }.

Definition json (status : Z) (b : body) : httpResponse := mkHTTP status None None b.
Definition jsonError (status : Z) (msg : string) : httpResponse := json status (ErrorBody msg).

(** ** The services the handlers call *)

Inductive topicRequest :=
  | TopicPut (topicName body : string)
  | TopicGet (topicName : string)
  | TopicDelete (deletionPolicy topicName : string).

Record api (S : Type) := mkApi {
  ap_tasks : services S;
  ap_GetTask : string -> M S Task;
  ap_GetResult : string -> M S (option ResultRecord * option Task);
  ap_AdminQueues : M S (gmap string Z);
  ap_QueueStats : string -> string -> M S QueueStats;
  ap_CleanupExpired : Z -> Z -> Z -> M S Z;
  ap_Subscribe : Z -> string -> list string -> string -> string -> Z -> Z -> M S Subscription;
  ap_SubHeartbeat : Z -> string -> Z -> M S Subscription;
  ap_Topic : Z -> topicRequest -> string -> string -> S -> topicResponse * S
}.
Arguments mkApi {S}.
Arguments ap_tasks {S}.
Arguments ap_GetTask {S}.
Arguments ap_GetResult {S}.
Arguments ap_AdminQueues {S}.
Arguments ap_QueueStats {S}.
Arguments ap_CleanupExpired {S}.
Arguments ap_Subscribe {S}.
Arguments ap_SubHeartbeat {S}.
Arguments ap_Topic {S}.

(** One round of the long poll: the case of the select that fires. *)
Inductive pollEvent := PollTick | PollDeadline | PollDone.

Module controllers.

(** ** Errors *)

Definition maybeRedirectLeader (uri : string) (e : error) : option httpResponse :=
  match asLeaderHint e with
  | Some addr =>
      if bool_decide (addr = "") then None
      else Some (mkHTTP 307 (Some (topicsHandler.trimSlash addr +:+ uri)) None (NotLeaderBody addr))
  | None => None
  end.

Definition respondWriteError (uri : string) (e : error) : httpResponse :=
  match maybeRedirectLeader uri e with Some r => r | None => jsonError 400 (error_text e) end.

(** The redirect, or the status the handler has for the error. *)
Definition redirectOr (uri : string) (status : string -> Z) (e : error) : httpResponse :=
  match maybeRedirectLeader uri e with Some r => r | None => jsonError (status (error_text e)) (error_text e) end.

Definition submitStatus (msg : string) : Z :=
  if bool_decide (msg = "task not found") then 404 else if bool_decide (msg = "not-owner") then 403
  else if bool_decide (msg = "not-in-progress") then 409 else 400.
Definition nackStatus (msg : string) : Z :=
  if bool_decide (msg = "not-owner") then 403 else if bool_decide (msg = "not-found") then 404
  else if bool_decide (msg = "not-in-progress") then 409 else 500.
Definition ownerStatus (msg : string) : Z := if bool_decide (msg = "not-owner") then 403 else 500.

(** ** The commands a worker may claim *)

Fixpoint scanTypes (evs : list string) (allowed : gset string) : bool * gset string :=
  match evs with
  | [] => (false, allowed)
  | ev :: rest => if bool_decide (ev = "*") then (true, allowed) else scanTypes rest ({[ ev ]} ∪ allowed)
  end.

(** [order] is the order of Go's map iteration. *)
Definition claimCommands (order : list string -> list string) (evs commands : list string) : option (list string) :=
  let '(hasWildcard, allowed) := scanTypes evs ∅ in
  match commands with
  | [] => Some (if hasWildcard then [] else order (elements allowed))
  | _ => if hasWildcard || forallb (fun cmd => bool_decide (cmd ∈ allowed)) commands then Some commands else None
  end.

Definition maxBatchCreateSize : nat := 100.
Definition maxBatchClaimSize : Z := 10.
Definition maxBatchResultSize : nat := 100.
Definition maxLongPollSeconds : Z := 60.

Definition parseWaitSeconds (raw : string) : Z :=
  if bool_decide (raw = "") then 0
  else
    match Atoi raw with
    | Some n => if n <=? 0 then 0 else if maxLongPollSeconds <? n then maxLongPollSeconds else n
    | None => 0
    end.

(** ** The handlers *)

Section handlers.
Context {S : Type}.
Variable a : api S.
(** [json.Marshal] of a decoded payload. *)
Variable jsonMarshal : anyv -> res string.
Variable order : list string -> list string.
Variable clock : nat -> Z.
Variables (c : Ctx) (uri : string).

(** A service call and its two answers. *)
Definition answer {A} (m : M S A) (ok : A -> httpResponse) (bad : error -> httpResponse) : S -> httpResponse * S := fun s =>
  match m s with
  | (Ok x, s') => (ok x, s')
  | (Err e, s') => (bad e, s')
  end.

Definition invalidBody : S -> httpResponse * S := fun s => (jsonError 400 "invalid body", s).

Definition withClaims (k : Claims -> S -> httpResponse * S) : S -> httpResponse * S :=
  match cx_workerClaims c with
  | None => fun s => (jsonError 401 "missing worker claims", s)
  | Some claims => k claims
  end.

(** The run time of a request, or the refusal. *)
Definition runAtOf (req : createReq) : res Z :=
  match (if bool_decide (cq_RunAt req = "") then Some zero_time else goParse.Parse (cq_RunAt req)) with
  | None => Err (ErrText "invalid 'runAt' (use RFC3339)")
  | Some t => if cq_DelaySecs req <? 0 then Err (ErrText "invalid 'delaySeconds' (must be >= 0)") else Ok t
  end.

Definition create (k : nat) (req : createReq) (payloadJSON : string) (runAt : Z) : M S Task :=
  sv_CreateTask (ap_tasks a) (clock k) (cq_Command req) payloadJSON (cq_Priority req) (cq_Webhook req) (cq_MaxAttempts req)
    (cq_Idempotency req) runAt (cq_DelaySecs req) (cx_tenantID c).

Definition createTask (req : option createReq) : S -> httpResponse * S :=
  match req with
  | None => invalidBody
  | Some req =>
      let payloadJSON := match jsonMarshal (cq_Payload req) with Ok p => p | Err _ => "" end in
      match runAtOf req with
      | Err e => fun s => (jsonError 400 (error_text e), s)
      | Ok runAt => answer (create 0 req payloadJSON runAt) (fun t => json 202 (TaskBody t)) (respondWriteError uri)
      end
  end.

Definition createOne (k : nat) (req : createReq) : S -> batchCreateResult * S := fun s =>
  match jsonMarshal (cq_Payload req) with
  | Err e => (mkCreateResult None (error_text e), s)
  | Ok payloadJSON =>
      match runAtOf req with
      | Err e => (mkCreateResult None (error_text e), s)
      | Ok runAt =>
          match create k req payloadJSON runAt s with
          | (Ok t, s') => (mkCreateResult (Some t) "", s')
          | (Err e, s') => (mkCreateResult None (error_text e), s')
          end
      end
  end.

Fixpoint createAll (k : nat) (reqs : list createReq) : S -> list batchCreateResult * S := fun s =>
  match reqs with
  | [] => ([], s)
  | req :: rest =>
      let '(r, s1) := createOne k req s in
      let '(rs, s2) := createAll (Datatypes.S k) rest s1 in
      (r :: rs, s2)
  end.

Definition batchCreateTask (reqs : option (list createReq)) : S -> httpResponse * S :=
  match reqs with
  | None => invalidBody
  | Some reqs =>
      if (maxBatchCreateSize <? length reqs)%nat then fun s => (jsonError 400 "batch size exceeds maximum of 100", s)
      else fun s => let '(rs, s') := createAll 0 reqs s in (json 200 (CreatedBody rs), s')
  end.

Definition notAllowed : S -> httpResponse * S := fun s => (jsonError 403 "event type not allowed", s).

Definition claimTask (req : option claimReq) : S -> httpResponse * S :=
  match req with
  | None => invalidBody
  | Some req =>
      withClaims (fun claims =>
        match claimCommands order (c_EventTypes claims) (clq_Commands req) with
        | None => notAllowed
        | Some cmds =>
            answer (sv_ClaimTask (ap_tasks a) (clock 0) (c_Subject claims) cmds (clq_LeaseSeconds req) (clq_WaitSeconds req) (cx_tenantID c))
              (fun t => match t with Some t => json 200 (TaskBody t) | None => json 204 NoBody end)
              (respondWriteError uri)
        end)
  end.

(** [n] more claims, after [k]: what was claimed and the text of the error that
    ended it. *)
Fixpoint claimUpTo (n k : nat) (claim : Z -> M S (option Task)) (tasks : list Task) : S -> (list Task * string) * S := fun s =>
  match n with
  | O => ((tasks, ""), s)
  | Datatypes.S n' =>
      match claim (clock k) s with
      | (Err e, s') => ((tasks, error_text e), s')
      | (Ok None, s') => ((tasks, ""), s')
      | (Ok (Some t), s') => claimUpTo n' (Datatypes.S k) claim (tasks ++ [t]) s'
      end
  end.

Definition claimedAnswer (tasks : list Task) (claimErr : string) : httpResponse :=
  match tasks with
  | [] => if bool_decide (claimErr <> "") then jsonError 500 claimErr else json 204 NoBody
  | _ => json 200 (TasksBody tasks (if bool_decide (claimErr <> "") then Some claimErr else None))
  end.

Definition batchClaimTask (req : option batchClaimReq) : S -> httpResponse * S :=
  match req with
  | None => invalidBody
  | Some req =>
      if maxBatchClaimSize <? bq_Count req then fun s => (jsonError 400 "count exceeds maximum of 10", s)
      else
        withClaims (fun claims =>
          match claimCommands order (c_EventTypes claims) (bq_Commands req) with
          | None => notAllowed
          | Some cmds => fun s =>
              let '((tasks, claimErr), s') :=
                claimUpTo (Z.to_nat (bq_Count req)) 0
                  (fun now => sv_ClaimTask (ap_tasks a) now (c_Subject claims) cmds (bq_LeaseSeconds req) 0 (cx_tenantID c)) [] s in
              (claimedAnswer tasks claimErr, s')
          end)
  end.

Definition heartbeat (taskID : string) (extendSeconds : option Z) : S -> httpResponse * S :=
  match extendSeconds with
  | None => invalidBody
  | Some ext =>
      withClaims (fun claims =>
        answer (sv_Heartbeat (ap_tasks a) (clock 0) taskID (c_Subject claims) ext) (fun _ => json 200 OkBody) (redirectOr uri ownerStatus))
  end.

Definition abandon (taskID : string) : S -> httpResponse * S :=
  withClaims (fun claims =>
    answer (sv_Abandon (ap_tasks a) (clock 0) taskID (c_Subject claims)) (fun _ => json 200 (StatusBody "requeued")) (redirectOr uri ownerStatus)).

Definition nack (taskID : string) (req : option nackReq) : S -> httpResponse * S :=
  match req with
  | None => invalidBody
  | Some req =>
      withClaims (fun claims =>
        answer (sv_NackTask (ap_tasks a) (clock 0) taskID (c_Subject claims) (nq_DelaySeconds req) (nq_Reason req))
          (fun '(delay, movedToDLQ) => json 200 (NackBody (if movedToDLQ : bool then "dlq" else "requeued") delay))
          (redirectOr uri nackStatus))
  end.

(** The request under the worker of the token. *)
Definition asWorker (worker : string) (r : SubmitResultRequest) : SubmitResultRequest :=
  mkSubmit worker (sr_Status r) (sr_Result r) (sr_Error r) (sr_Artifacts r).

Definition submitResult (taskID : string) (req : option SubmitResultRequest) : S -> httpResponse * S :=
  match req with
  | None => fun s => (jsonError 400 "invalid request body", s)
  | Some req =>
      withClaims (fun claims =>
        answer (sv_Submit (ap_tasks a) (clock 0) taskID (asWorker (c_Subject claims) req)) (fun rec => json 200 (RecordBody rec))
          (redirectOr uri submitStatus))
  end.

Definition batchResult (r : BatchSubmitResponse) : BatchSubmitResponse :=
  if bool_decide (br_Error r <> "") then mkResponse (br_TaskID r) None (br_Error r) else mkResponse (br_TaskID r) (br_Result r) "".

Definition batchSubmitResult (reqs : option (list BatchSubmitItem)) : S -> httpResponse * S :=
  match reqs with
  | None => invalidBody
  | Some reqs =>
      if (maxBatchResultSize <? length reqs)%nat then fun s => (jsonError 400 "batch size exceeds maximum of 100", s)
      else
        withClaims (fun claims =>
          let failed := jsonError 500 "batch submit failed" in
          answer (sv_BatchSubmit (ap_tasks a) (clock 0) (map (fun it => mkItem (it_TaskID it) (asWorker (c_Subject claims) (it_Req it))) reqs))
            (fun '(responses, err) =>
               match err with Some _ => failed | None => json 200 (SubmittedBody (map batchResult responses)) end)
            (fun _ => failed))
  end.

Definition createSubscription (req : option createSubscriptionReq) : S -> httpResponse * S :=
  match req with
  | None => invalidBody
  | Some req =>
      answer (ap_Subscribe a (clock 0) (sq_CallbackURL req) (sq_EventTypes req) (sq_DeliveryMode req) (sq_GroupID req) (sq_TTLSeconds req)
                (sq_MinIntervalSeconds req))
        (fun sub => json 200 (SubscriptionBody (sub_ID sub) (sub_ExpiresAt sub))) (fun e => jsonError 400 (error_text e))
  end.

Definition heartbeatSubscription (id : string) (ttlSeconds : Z) : S -> httpResponse * S :=
  answer (ap_SubHeartbeat a (clock 0) id ttlSeconds) (fun sub => json 200 (SubscriptionBody (sub_ID sub) (sub_ExpiresAt sub)))
    (fun e => jsonError (if bool_decide (error_text e = "not-found") then 404 else 500) (error_text e)).

Definition getTask (taskID : string) : S -> httpResponse * S :=
  answer (ap_GetTask a taskID) (fun t => json 200 (TaskBody t)) (fun _ => jsonError 404 "not found").

Definition gotResult (r : option ResultRecord * option Task) : httpResponse := json 200 (ResultBody (snd r) (fst r)).
Definition noResult (e : error) : httpResponse := jsonError 404 (error_text e).

(** The rounds of the wait, each with what the rest of the system has done before
    it; [None] when the client has gone, or the wait is not over. *)
Fixpoint waitResult (id : string) (rounds : list (M S unit * pollEvent)) : S -> option httpResponse * S := fun s =>
  match rounds with
  | [] => (None, s)
  | (meanwhile, ev) :: rest =>
      let s := snd (meanwhile s) in
      match ev with
      | PollDone => (None, s)
      | PollDeadline => let '(r, s') := answer (ap_GetResult a id) gotResult noResult s in (Some r, s')
      | PollTick =>
          match ap_GetResult a id s with
          | (Ok r, s') => (Some (gotResult r), s')
          | (Err _, s') => waitResult id rest s'
          end
      end
  end.

Definition getResult (id waitSeconds : string) (rounds : list (M S unit * pollEvent)) : S -> option httpResponse * S := fun s =>
  let wait := parseWaitSeconds waitSeconds in
  match ap_GetResult a id s with
  | (Ok r, s') => (Some (gotResult r), s')
  | (Err e, s') =>
      if (wait =? 0) || bool_decide (error_text e = "task not found") then (Some (noResult e), s') else waitResult id rounds s'
  end.

Definition queuesAdmin : S -> httpResponse * S :=
  answer (ap_AdminQueues a) (fun m => json 200 (QueuesBody m)) (fun e => jsonError 500 (error_text e)).

Definition queueStats (command : string) : S -> httpResponse * S :=
  let cmd := TrimSpace command in
  if bool_decide (cmd = "") then fun s => (jsonError 400 "command is required", s)
  else answer (ap_QueueStats a cmd (middleware.GetTenantID c)) (fun q => json 200 (StatsBody q)) (fun e => jsonError 500 (error_text e)).

(** Without [Before], the time of the request.  The answer has the instant as text. *)
Definition cleanupExpired (req : cleanupReq) : S -> httpResponse * S :=
  match (if bool_decide (xq_Before req = "") then Some (clock 0) else goParse.Parse (xq_Before req)) with
  | None => fun s => (jsonError 400 "invalid 'before' (use RFC3339)", s)
  | Some before =>
      answer (ap_CleanupExpired a (clock 1) (xq_Limit req) before)
        (fun deleted => json 200 (CleanupBody deleted before (xq_Limit req))) (fun e => jsonError 500 (error_text e))
  end.

Definition raftStatus (groups : list raftGroup) : httpResponse :=
  json 200 (RaftBody (imap (fun i g => mkGroupView i g (bool_decide (rg_LeaderID g <> ""))) groups)).
End handlers.
End controllers.

(** ** The routes *)

Section routes.
Context {V L S : Type}.

Inductive request :=
  | CreateTask (req : option createReq)
  | BatchCreate (reqs : option (list createReq))
  | ClaimTask (req : option claimReq)
  | BatchClaim (req : option batchClaimReq)
  | HeartbeatTask (id : string) (extendSeconds : option Z)
  | AbandonTask (id : string)
  | NackTask (id : string) (req : option nackReq)
  | SubmitResult (id : string) (req : option SubmitResultRequest)
  | BatchResults (reqs : option (list BatchSubmitItem))
  | Subscribe (req : option createSubscriptionReq)
  | SubHeartbeat (id : string) (ttlSeconds : Z)
  | GetTask (id : string)
  | GetResult (id waitSeconds : string) (rounds : list (M S unit * pollEvent))
  | RaftStatus
  | TopicAdmin (req : topicRequest)
  | AdminQueues
  | QueueStatsOf (command : string)
  | CleanupTasks (req : cleanupReq).

(** The groups of [SetupMappings] and the scope a route asks for. *)
Inductive group := GProducer | GWorker (scope : string) | GAny | GAdmin.

Definition groupOf (rq : request) : group :=
  match rq with
  | CreateTask _ | BatchCreate _ => GProducer
  | ClaimTask _ | BatchClaim _ => GWorker "codeq:claim"
  | HeartbeatTask _ _ => GWorker "codeq:heartbeat"
  | AbandonTask _ => GWorker "codeq:abandon"
  | NackTask _ _ => GWorker "codeq:nack"
  | SubmitResult _ _ | BatchResults _ => GWorker "codeq:result"
  | Subscribe _ | SubHeartbeat _ _ => GWorker "codeq:subscribe"
  | GetTask _ | GetResult _ _ _ | RaftStatus => GAny
  | TopicAdmin _ | AdminQueues | QueueStatsOf _ | CleanupTasks _ => GAdmin
  end.

Variable cfg : MwConfig.
Variable upper : string -> string.
Variables (worker producer : option (Validator V)).
Variables (cvt : Z) (lim : option (Limiter L)) (producerBucket workerBucket adminBucket : Bucket).
Variable groups : list raftGroup.

Definition guards (g : group) : list (MW V) :=
  match g with
  | GProducer => [middleware.AuthMiddleware cfg upper producer]
  | GWorker scope => [middleware.WorkerAuthMiddleware cfg worker producer; middleware.RequireWorkerScope scope]
  | GAny => [middleware.AnyAuthMiddleware cfg upper worker producer]
  | GAdmin => [middleware.AuthMiddleware cfg upper producer; middleware.RequireAdmin]
  end.

(** The rate limit of a route: its scope, operation and bucket. *)
Definition limitOf (rq : request) : option (string * string * Bucket) :=
  match rq with
  | CreateTask _ | BatchCreate _ => Some ("producer", "create_task", producerBucket)
  | ClaimTask _ | BatchClaim _ => Some ("worker", "claim", workerBucket)
  | CleanupTasks _ => Some ("admin", "cleanup", adminBucket)
  | _ => None
  end.

Definition limited (rq : request) (c : Ctx) : L -> option httpResponse * L := fun l =>
  match limitOf rq with
  | None => (None, l)
  | Some (scope, operation, bucket) =>
      match middleware.rateLimitBearer cvt lim scope bucket (cx_Authorization c) l with
      | (middleware.Proceed, l') => (None, l')
      | (middleware.TooMany n, l') => (Some (mkHTTP 429 None (Some n) (LimitBody scope operation n)), l')
      end
  end.

Variable jsonMarshal : anyv -> res string.
Variable order : list string -> list string.

Definition always (m : S -> httpResponse * S) : S -> option httpResponse * S := fun s => let '(r, s') := m s in (Some r, s').

Definition dispatch (a : api S) (clock : nat -> Z) (c : Ctx) (uri : string) (rq : request) : S -> option httpResponse * S :=
  match rq with
  | CreateTask req => always (controllers.createTask a jsonMarshal clock c uri req)
  | BatchCreate reqs => always (controllers.batchCreateTask a jsonMarshal clock c reqs)
  | ClaimTask req => always (controllers.claimTask a order clock c uri req)
  | BatchClaim req => always (controllers.batchClaimTask a order clock c req)
  | HeartbeatTask id ext => always (controllers.heartbeat a clock c uri id ext)
  | AbandonTask id => always (controllers.abandon a clock c uri id)
  | NackTask id req => always (controllers.nack a clock c uri id req)
  | SubmitResult id req => always (controllers.submitResult a clock c uri id req)
  | BatchResults reqs => always (controllers.batchSubmitResult a clock c reqs)
  | Subscribe req => always (controllers.createSubscription a clock req)
  | SubHeartbeat id ttl => always (controllers.heartbeatSubscription a clock id ttl)
  | GetTask id => always (controllers.getTask a id)
  | GetResult id wait rounds => controllers.getResult a id wait rounds
  | RaftStatus => fun s => (Some (controllers.raftStatus groups), s)
  | TopicAdmin req => always (fun s => let '(r, s') := ap_Topic a (clock 0%nat) req (middleware.GetTenantID c) uri s in
                                  (json (tr_status r) (TopicBody r), s'))
  | AdminQueues => always (controllers.queuesAdmin a)
  | QueueStatsOf command => always (controllers.queueStats a c command)
  | CleanupTasks req => always (controllers.cleanupExpired a clock req)
  end.

(** A request through the middleware of its group, the rate limit and its handler. *)
Definition serve (a : api S) (clock : nat -> Z) (c : Ctx) (uri : string) (rq : request) (st : V * L * S)
  : option httpResponse * (V * L * S) :=
  let '(v, l, s) := st in
  match chain (guards (groupOf rq)) c v with
  | (Abort status msg, v') => (Some (jsonError status msg), (v', l, s))
  | (Next c', v') =>
      match limited rq c' l with
      | (Some r, l') => (Some r, (v', l', s))
      | (None, l') => let '(r, s') := dispatch a clock c' uri rq s in (r, (v', l', s'))
      end
  end.
End routes.
Arguments request : clear implicits.

(** ** Who may make which call *)

(** The service calls, with what authorises them. *)
Inductive call :=
  | CallCreate (tenant : string)
  | CallClaim (w : string) (cmds : list string) (tenant : string)
  | CallHeartbeat (w : string)
  | CallAbandon (w : string)
  | CallNack (w : string)
  | CallSubmit (ws : list string)
  | CallSubscribe
  | CallRead
  | CallTopic (tenant : string)
  | CallStats (tenant : string)
  | CallQueues
  | CallCleanup.

Inductive principal :=
  | Nobody
  | AsWorker (claims : Claims) (tenant : string)
  | AsProducer (claims : Claims) (tenant : string) (admin : bool)
  | AsReader.

Definition hasEvent (claims : Claims) (cmd : string) : bool := bool_decide (cmd ∈ c_EventTypes claims).

(** A worker claims for its tenant, commands among its event types or, with the
    wildcard, any; it acts on tasks as the subject of its token, with the scope
    of the call.  A producer creates tasks of its tenant; an administrator looks
    at the queues, cleans up and manages the topics of its tenant.  Everyone with
    a token reads. *)
Definition mayCall (p : principal) (x : call) : bool :=
  match p, x with
  | AsWorker claims t, CallClaim w cmds t' =>
      HasScope (Some claims) "codeq:claim" && bool_decide (w = c_Subject claims) && bool_decide (t' = t) &&
      (hasEvent claims "*" || (bool_decide (cmds <> []) && forallb (hasEvent claims) cmds))
  | AsWorker claims _, CallHeartbeat w => HasScope (Some claims) "codeq:heartbeat" && bool_decide (w = c_Subject claims)
  | AsWorker claims _, CallAbandon w => HasScope (Some claims) "codeq:abandon" && bool_decide (w = c_Subject claims)
  | AsWorker claims _, CallNack w => HasScope (Some claims) "codeq:nack" && bool_decide (w = c_Subject claims)
  | AsWorker claims _, CallSubmit ws => HasScope (Some claims) "codeq:result" && forallb (fun w => bool_decide (w = c_Subject claims)) ws
  | AsWorker claims _, CallSubscribe => HasScope (Some claims) "codeq:subscribe"
  | AsProducer _ t _, CallCreate t' => bool_decide (t' = t)
  | AsProducer _ t admin, CallTopic t' => admin && bool_decide (t' = t)
  | AsProducer _ t admin, CallStats t' => admin && bool_decide (t' = t)
  | AsProducer _ _ admin, (CallQueues | CallCleanup) => admin
  | AsReader, CallRead => true
  | _, _ => false
  end.

Section authorised.
Context {V L S : Type}.

(** The services with every call outside [p]'s rights turned into a crash. *)
Definition only (p : principal) (a : api S) : api S :=
  let may {A} (x : call) (m : M S A) := within (mayCall p x) m in
  let stop {A} : M S A := mthrow (Panic "outside the caller's rights") in {|
  ap_tasks := {|
    sv_CreateTask now cmd payload prio hook maxA idem runAt delay tenant :=
      may (CallCreate tenant) (sv_CreateTask (ap_tasks a) now cmd payload prio hook maxA idem runAt delay tenant);
    sv_ClaimTask now w cmds lease wait tenant := may (CallClaim w cmds tenant) (sv_ClaimTask (ap_tasks a) now w cmds lease wait tenant);
    sv_ClaimManyTasks _ _ _ _ _ _ := stop;
    sv_NackTask now id w delay reason := may (CallNack w) (sv_NackTask (ap_tasks a) now id w delay reason);
    sv_Heartbeat now id w ext := may (CallHeartbeat w) (sv_Heartbeat (ap_tasks a) now id w ext);
    sv_Abandon now id w := may (CallAbandon w) (sv_Abandon (ap_tasks a) now id w);
    sv_Submit now id req := may (CallSubmit [sr_WorkerID req]) (sv_Submit (ap_tasks a) now id req);
    sv_BatchSubmit now items := may (CallSubmit (map (fun it => sr_WorkerID (it_Req it)) items)) (sv_BatchSubmit (ap_tasks a) now items)
  |};
  ap_GetTask id := may CallRead (ap_GetTask a id);
  ap_GetResult id := may CallRead (ap_GetResult a id);
  ap_AdminQueues := may CallQueues (ap_AdminQueues a);
  ap_QueueStats cmd tenant := may (CallStats tenant) (ap_QueueStats a cmd tenant);
  ap_CleanupExpired now limit before := may CallCleanup (ap_CleanupExpired a now limit before);
  ap_Subscribe now url evs mode grp ttl interval := may CallSubscribe (ap_Subscribe a now url evs mode grp ttl interval);
  ap_SubHeartbeat now id ttl := may CallSubscribe (ap_SubHeartbeat a now id ttl);
  ap_Topic now req tenant uri := if mayCall p (CallTopic tenant) then ap_Topic a now req tenant uri else fun s => (failed 0 "", s)
|}.

Variable cfg : MwConfig.
Variable upper : string -> string.
Variables (worker producer : option (Validator V)).
Variable c : Ctx.

(** What the request's token shows of a principal. *)
Definition identified (p : principal) : Prop :=
  let header := cx_Authorization c in
  match p with
  | Nobody => True
  | AsWorker claims tenant =>
      authclaims.ResolveTenantID (Some claims) = Ok tenant /\
      ((exists v, worker = Some v /\ accepted v header claims) \/
       (mc_AllowProducerAsWorker cfg = true /\ exists v pclaims, producer = Some v /\ accepted v header pclaims /\
          claims = middleware.producerAsWorker cfg pclaims))
  | AsProducer claims tenant admin =>
      authclaims.ResolveTenantID (Some claims) = Ok tenant /\ (exists v, producer = Some v /\ accepted v header claims) /\
      (admin = true -> middleware.isAdmin (middleware.setProducerContext cfg upper c claims tenant) = true)
  | AsReader => exists v claims, (worker = Some v \/ producer = Some v) /\ accepted v header claims
  end.
End authorised.

(** ** The event types of a claim *)

Lemma scanTypes_spec evs acc wild allowed : controllers.scanTypes evs acc = (wild, allowed) ->
  if wild then "*" ∈ evs else forall cmd, cmd ∈ allowed <-> cmd ∈ evs \/ cmd ∈ acc.
Proof.
  revert acc. induction evs as [|ev evs IH]; intros acc; cbn [controllers.scanTypes].
  - intros [= <- <-]. intros cmd. rewrite elem_of_nil. tauto.
  - case_bool_decide as Hev; [intros [= <- <-]; subst; left|]. intros H. specialize (IH _ H). destruct wild; [by right|].
    intros cmd. rewrite IH, elem_of_union, elem_of_singleton, elem_of_cons. tauto.
Qed.

(** The commands of a claim are event types of the token, or it has the wildcard. *)
Lemma claimCommands_granted order claims cmds cmds' : (forall l, order l ≡ₚ l) -> c_EventTypes claims <> [] ->
  controllers.claimCommands order (c_EventTypes claims) cmds = Some cmds' ->
  hasEvent claims "*" || (bool_decide (cmds' <> []) && forallb (hasEvent claims) cmds') = true.
Proof.
  intros Horder Hne. unfold controllers.claimCommands.
  destruct (controllers.scanTypes (c_EventTypes claims) ∅) as [wild allowed] eqn:Es. apply scanTypes_spec in Es.
  destruct wild; [intros _; unfold hasEvent; by rewrite bool_decide_eq_true_2|].
  assert (forall cmd, cmd ∈ allowed <-> cmd ∈ c_EventTypes claims) as Ha by (intros cmd; rewrite Es; set_solver). clear Es.
  intros Hc. apply orb_true_iff. right. rewrite andb_true_iff, bool_decide_eq_true, forallb_forall.
  destruct cmds as [|cmd cmds].
  - injection Hc as <-. split.
    + intros Hnil. destruct (c_EventTypes claims) as [|ev evs] eqn:Ee; [done|].
      assert (ev ∈ order (elements allowed)) as Hin by (rewrite Horder, elem_of_elements, Ha; left). rewrite Hnil in Hin. set_solver.
    + intros x Hx%list_elem_of_In. unfold hasEvent. rewrite bool_decide_eq_true, <- Ha, <- elem_of_elements. by rewrite <- (Horder (elements allowed)).
  - cbn [orb] in Hc. destruct (forallb _ _) eqn:Ef; [|done]. injection Hc as <-. split; [done|].
    rewrite forallb_forall in Ef. intros x Hx%Ef. unfold hasEvent. rewrite bool_decide_eq_true in *. by apply Ha.
Qed.

(** ** No call without its right *)

Section serve_facts.
Context {V L S : Type}.
Variable cfg : MwConfig.
Variable upper : string -> string.
Variables (worker producer : option (Validator V)).
Implicit Types (c : Ctx) (a : api S) (p : principal).
Import controllers.

(** What the guards of a group leave in the context of a principal. *)
Definition admitted (g : group) c p : Prop :=
  match g with
  | GProducer => exists claims, p = AsProducer claims (cx_tenantID c) false
  | GWorker scope => exists claims, p = AsWorker claims (cx_tenantID c) /\ cx_workerClaims c = Some claims /\
      HasScope (Some claims) scope = true /\ c_EventTypes claims <> []
  | GAny => p = AsReader
  | GAdmin => exists claims, p = AsProducer claims (cx_tenantID c) true
  end.

Lemma guards_admit g c v c' v' : chain (guards cfg upper worker producer g) c v = (Next c', v') ->
  exists p, identified cfg upper worker producer c p /\ admitted g c' p.
Proof.
  destruct g as [|scope| |]; cbn [guards chain].
  - destruct (middleware.AuthMiddleware _ _ _ c v) as [[c1|] v1] eqn:Ea; [|done]. intros [= <- <-].
    apply producer_passes in Ea as (w & claims & Hw & Ha & t & Ht & ->). exists (AsProducer claims t false).
    split; [|by exists claims]. split; [done|]. split; [by exists w | done].
  - destruct (middleware.WorkerAuthMiddleware _ _ _ c v) as [[c1|] v1] eqn:Ea; [|done].
    apply worker_passes in Ea as (claims & Hc & Ht & Hor). unfold middleware.RequireWorkerScope. rewrite Hc.
    destruct (HasScope (Some claims) scope) eqn:Hs; [|done]. intros [= <- <-]. exists (AsWorker claims (cx_tenantID c1)). split.
    + split; [done|]. destruct Hor as [(w & Hw & Ha & _)|Hp]; [left; by exists w | by right].
    + exists claims. split_and!; try done. by destruct Hor as [(_ & _ & _ & He & _)|(_ & _ & pc & _ & _ & ->)].
  - destruct (middleware.AnyAuthMiddleware _ _ _ _ c v) as [[c1|] v1] eqn:Ea; [|done]. intros [= <- <-].
    apply any_passes in Ea as (w & claims & Hw & Ha & _). exists AsReader. split; [by exists w, claims | done].
  - destruct (middleware.AuthMiddleware _ _ _ c v) as [[c1|] v1] eqn:Ea; [|done].
    apply producer_passes in Ea as (w & claims & Hw & Ha & t & Ht & ->). unfold middleware.RequireAdmin.
    destruct (middleware.isAdmin _) eqn:Ei; [|done]. intros [= <- <-]. exists (AsProducer claims t true).
    split; [|by exists claims]. split; [done|]. split; [by exists w | done].
Qed.

Lemma eq_decided (x : string) : bool_decide (x = x) = true.
Proof. by apply bool_decide_eq_true_2. Qed.

Lemma create_only a jm clock c claims admin k reqs s :
  createAll (only (AsProducer claims (cx_tenantID c) admin) a) jm clock c k reqs s = createAll a jm clock c k reqs s.
Proof.
  revert k s. induction reqs as [|req reqs IH]; intros k s; cbn [createAll]; [done|].
  replace (createOne (only _ a) jm clock c k req s) with (createOne a jm clock c k req s).
  - destruct (createOne a jm clock c k req s) as [r s1]. by rewrite IH.
  - unfold createOne. destruct (jm _); [|done]. destruct (runAtOf req); [|done].
    unfold create. cbn [only ap_tasks sv_CreateTask mayCall]. by rewrite eq_decided.
Qed.

Lemma claimUpTo_only clock n k (claim claim' : Z -> M S (option Task)) ts s :
  (forall now s, claim now s = claim' now s) -> claimUpTo clock n k claim ts s = claimUpTo clock n k claim' ts s.
Proof.
  intros He. revert k ts s. induction n as [|n IH]; intros k ts s; cbn [claimUpTo]; [done|]. rewrite He.
  destruct (claim' (clock k) s) as [[[t|]|e] s']; [apply IH | done..].
Qed.

Lemma waitResult_only a id rounds s : waitResult (only AsReader a) id rounds s = waitResult a id rounds s.
Proof.
  revert s. induction rounds as [|[m ev] rounds IH]; intros s; cbn [waitResult]; [done|]. destruct ev; [|done..].
  cbn [only ap_GetResult mayCall within]. destruct (ap_GetResult a id _) as [[r|e] s']; [done | apply IH].
Qed.

(** The routes of the workers. *)
Lemma dispatch_worker a jm order clock c uri groups rq scope p s : (forall l, order l ≡ₚ l) -> groupOf rq = GWorker scope ->
  admitted (groupOf rq) c p -> dispatch groups jm order (only p a) clock c uri rq s = dispatch groups jm order a clock c uri rq s.
Proof.
  intros Horder Hg Had. destruct rq as [req|reqs|req|req|id ext|id|id req|id req|reqs|req|id ttl|id|id wait rounds| |req| |command|req];
    try done; cbn [groupOf admitted] in Had; destruct Had as (claims & -> & Hc & Hs & He); cbn [dispatch]; unfold always.
  - destruct req as [req|]; [|done]. unfold claimTask, withClaims. rewrite Hc.
    destruct (claimCommands order _ _) as [cmds|] eqn:Ec; [|done]. apply claimCommands_granted in Ec; [|done..].
    unfold answer. cbn [only ap_tasks sv_ClaimTask mayCall]. by rewrite Hs, !eq_decided, Ec.
  - destruct req as [req|]; [|done]. unfold batchClaimTask, withClaims. rewrite Hc.
    destruct (_ <? _); [done|]. destruct (claimCommands order _ _) as [cmds|] eqn:Ec; [|done]. apply claimCommands_granted in Ec; [|done..].
    erewrite claimUpTo_only; [done|]. intros now s'. cbn [only ap_tasks sv_ClaimTask mayCall]. by rewrite Hs, !eq_decided, Ec.
  - destruct ext as [ext|]; [|done]. unfold heartbeat, withClaims, answer. rewrite Hc.
    cbn [only ap_tasks sv_Heartbeat mayCall]. by rewrite Hs, eq_decided.
  - unfold abandon, withClaims, answer. rewrite Hc. cbn [only ap_tasks sv_Abandon mayCall]. by rewrite Hs, eq_decided.
  - destruct req as [req|]; [|done]. unfold nack, withClaims, answer. rewrite Hc.
    cbn [only ap_tasks sv_NackTask mayCall]. by rewrite Hs, eq_decided.
  - destruct req as [req|]; [|done]. unfold submitResult, withClaims, answer. rewrite Hc.
    cbn [only ap_tasks sv_Submit mayCall forallb asWorker sr_WorkerID]. by rewrite Hs, eq_decided.
  - destruct reqs as [reqs|]; [|done]. unfold batchSubmitResult, withClaims, answer. rewrite Hc.
    destruct (_ <? _)%nat; [done|]. cbn [only ap_tasks sv_BatchSubmit mayCall]. rewrite Hs. cbn [andb].
    replace (forallb _ _) with true; [done|]. symmetry. apply forallb_forall. intros w Hw.
    rewrite map_map in Hw. apply in_map_iff in Hw as (it & <- & _). apply eq_decided.
  - destruct req as [req|]; [|done]. unfold createSubscription, answer. cbn [only ap_Subscribe mayCall]. by rewrite Hs.
  - unfold heartbeatSubscription, answer. cbn [only ap_SubHeartbeat mayCall]. by rewrite Hs.
Qed.

Lemma dispatch_only a jm order clock c uri groups rq p s : (forall l, order l ≡ₚ l) -> admitted (groupOf rq) c p ->
  dispatch groups jm order (only p a) clock c uri rq s = dispatch groups jm order a clock c uri rq s.
Proof.
  intros Horder. destruct (groupOf rq) as [|scope| |] eqn:Hg; [|rewrite <- Hg; by eapply dispatch_worker| |];
    destruct rq as [req|reqs| | | | | | | | | |id|id wait rounds| |req| |command|req]; try done; cbn [admitted dispatch]; unfold always.
  - intros [claims ->]. destruct req as [req|]; [|done]. unfold createTask. destruct (runAtOf req); [|done].
    unfold answer, create. cbn [only ap_tasks sv_CreateTask mayCall]. by rewrite eq_decided.
  - intros [claims ->]. destruct reqs as [reqs|]; [|done]. unfold batchCreateTask. destruct (_ <? _)%nat; [done|]. by rewrite create_only.
  - by intros ->.
  - intros ->. unfold getResult. cbn [only ap_GetResult mayCall within]. destruct (ap_GetResult a id s) as [[r|e] s']; [done|].
    destruct (_ || _); [done | apply waitResult_only].
  - intros [claims ->]. cbn [only ap_Topic mayCall andb]. unfold middleware.GetTenantID. by rewrite eq_decided.
  - by intros [claims ->].
  - intros [claims ->]. unfold queueStats. cbv zeta. destruct (bool_decide _); [done|]. unfold answer.
    cbn [only ap_QueueStats mayCall andb]. unfold middleware.GetTenantID. by rewrite eq_decided.
  - intros [claims ->]. unfold cleanupExpired. by destruct (if bool_decide _ then _ else _).
Qed.

End serve_facts.

(** ** Over the Pebble repository *)

Section pebble_api.
Context {P : Type} `{Pebble P} `{JSON} `{TopicJSON}.
Variable tasks : services (Repo P).
(** The strict decoder of topic policies, and the subscription service. *)
Variable decodeFirst : string -> res (Policy * string).
Variable decodeNext : string -> option (res unit).
Variable subscribe : Z -> string -> list string -> string -> string -> Z -> Z -> M (Repo P) Subscription.
Variable subHeartbeat : Z -> string -> Z -> M (Repo P) Subscription.
#[local] Existing Instance topicStore.pebbleStore.

Definition topicAdmin (now : Z) (req : topicRequest) (tenant uri : string) : DB P -> topicResponse * DB P :=
  match req with
  | TopicPut name text => topicsHandler.Upsert None decodeFirst decodeNext tenant uri now name text
  | TopicGet name => topicsHandler.Get None tenant uri name
  | TopicDelete policy name => topicsHandler.Delete None tenant uri policy name
  end.

Definition pebbleApi : api (Repo P) := {|
  ap_tasks := tasks;
  ap_GetTask id := schedulerService.GetTask id;
  ap_GetResult id :=
    let! r := TaskRepo.db (resultsService.Get id) in
    match r with (_, _, Some e) => mthrow e | (rec, task, None) => mret (rec, task) end;
  ap_AdminQueues := schedulerService.AdminQueues;
  ap_QueueStats cmd tenant := schedulerService.QueueStats cmd tenant;
  ap_CleanupExpired now limit before := schedulerService.CleanupExpired now limit before;
  ap_Subscribe := subscribe;
  ap_SubHeartbeat := subHeartbeat;
  ap_Topic now req tenant uri := fun r => let '(resp, d) := topicAdmin now req tenant uri (r_db r) in (resp, set_db d r)
|}.
End pebble_api.

(** ** Followers *)

Section followers.
Context {S : Type}.
Import controllers.

(** The services of a node that is not the leader: every write fails with the hint. *)
Definition follower (e : error) (a : api S) : api S := {|
  ap_tasks := {|
    sv_CreateTask _ _ _ _ _ _ _ _ _ _ := mthrow e;
    sv_ClaimTask _ _ _ _ _ _ := mthrow e;
    sv_ClaimManyTasks _ _ _ _ _ _ := mthrow e;
    sv_NackTask _ _ _ _ _ := mthrow e;
    sv_Heartbeat _ _ _ _ := mthrow e;
    sv_Abandon _ _ _ := mthrow e;
    sv_Submit _ _ _ := mthrow e;
    sv_BatchSubmit _ _ := mret ([], Some e)
  |};
  ap_GetTask := ap_GetTask a; ap_GetResult := ap_GetResult a; ap_AdminQueues := ap_AdminQueues a; ap_QueueStats := ap_QueueStats a;
  ap_CleanupExpired _ _ _ := mthrow e; ap_Subscribe _ _ _ _ _ _ _ := mthrow e; ap_SubHeartbeat _ _ _ := mthrow e; ap_Topic := ap_Topic a
|}.

(** The routes that write one task. *)
Definition singleWrite (rq : request S) : bool :=
  match rq with
  | CreateTask _ | ClaimTask _ | HeartbeatTask _ _ | AbandonTask _ | NackTask _ _ | SubmitResult _ _ => true
  | _ => false
  end.

Definition redirect (leader uri : string) : httpResponse :=
  mkHTTP 307 (Some (topicsHandler.trimSlash leader +:+ uri)) None (NotLeaderBody leader).

Lemma redirected e leader uri status : asLeaderHint e = Some leader -> leader <> "" ->
  respondWriteError uri e = redirect leader uri /\ redirectOr uri status e = redirect leader uri.
Proof. intros He Hl. unfold respondWriteError, redirectOr, maybeRedirectLeader. rewrite He, bool_decide_eq_false_2 by done. done. Qed.


(** The batch routes do not redirect: the same failure is a 500, or an error for
    each task of a batch. *)
Lemma batch_not_redirected e (a : api S) clock jm c uri claims order groups s : cx_workerClaims c = Some claims -> error_text e <> "" ->
  c_EventTypes claims = ["*"] ->
  dispatch groups jm order (follower e a) clock c uri (BatchClaim (Some (mkBatchClaimReq [] 0 1))) s = (Some (jsonError 500 (error_text e)), s) /\
  dispatch groups jm order (follower e a) clock c uri (BatchResults (Some [])) s = (Some (jsonError 500 "batch submit failed"), s) /\
  dispatch groups jm order (follower e a) clock c uri (CleanupTasks (mkCleanupReq 0 "")) s = (Some (jsonError 500 (error_text e)), s).
Proof.
  intros Hc He Hw. cbn [dispatch]. unfold always, batchClaimTask, batchSubmitResult, withClaims. rewrite Hc, Hw.
  split_and!; [|reflexivity..]. transitivity (Some (claimedAnswer [] (error_text e)), s); [reflexivity|].
  unfold claimedAnswer. by rewrite bool_decide_eq_true_2.
Qed.

(** One answer for each task of a batch, in order. *)
Lemma createAll_length (a : api S) jm clock c k reqs s : length (fst (createAll a jm clock c k reqs s)) = length reqs.
Proof.
  revert k s. induction reqs as [|req reqs IH]; intros k s; cbn [createAll]; [done|].
  destruct (createOne a jm clock c k req s) as [r s1]. specialize (IH (Datatypes.S k) s1). destruct (createAll _ _ _ _ _ reqs s1). simpl in *. lia.
Qed.

(** ** The long poll *)

(** A long poll is answered by its deadline.  Whatever the other requests do
    meanwhile, a lookup with a wait answers: with the result as soon as a tick or
    the deadline finds it, otherwise with the error the deadline finds; at once
    when the task does not exist. *)
Theorem long_poll_answers (a : api S) id wait ticks last s :
  Forall (fun x => snd x = PollTick) ticks ->
  exists r, fst (getResult a id wait (ticks ++ [(last, PollDeadline)]) s) = Some r /\
    ((exists s0 x, fst (ap_GetResult a id s0) = Ok x /\ r = gotResult x) \/
     exists s0 e, fst (ap_GetResult a id s0) = Err e /\ r = noResult e).
Proof.
  intros Ht. unfold getResult. destruct (ap_GetResult a id s) as [[x|e] s1] eqn:E.
  { eexists. split; [reflexivity|]. left. exists s, x. by rewrite E. }
  destruct (_ || _). { eexists. split; [reflexivity|]. right. exists s, e. by rewrite E. }
  clear E. revert s1. induction Ht as [|[m ev] ticks Hev Ht IH]; intros s1; cbn [app waitResult]; cbv zeta.
  - unfold answer. destruct (ap_GetResult a id _) as [[x|e'] s2] eqn:E; (eexists; split; [reflexivity|]); [left | right];
      eexists _, _; (split; [|reflexivity]); by rewrite E.
  - simpl in Hev. subst ev. destruct (ap_GetResult a id _) as [[x|e'] s2] eqn:E; [|apply IH].
    eexists. split; [reflexivity|]. left. eexists _, x. split; [|reflexivity]. by rewrite E.
Qed.
End followers.

(** ** Concrete requests *)

Module http_run.
Definition deafApi : api unit := {|
  ap_tasks := stream_run.deaf;
  ap_GetTask _ := mthrow (ErrText "not-found");
  ap_GetResult _ := mthrow (ErrText "task not found");
  ap_AdminQueues := mret ∅;
  ap_QueueStats cmd _ := mret (mkStats cmd 0 0 0 0);
  ap_CleanupExpired _ _ _ := mret 0;
  ap_Subscribe _ _ _ _ _ _ _ := mthrow (ErrText "down");
  ap_SubHeartbeat _ _ _ := mthrow (ErrText "not-found");
  ap_Topic _ _ _ _ := fun s => (failed 503 "down", s)
|}.
Definition noLimit : option (Limiter unit) := None.
Definition serve1 (a : api unit) (authorization : string) (rq : request unit) : option httpResponse * (unit * unit * unit) :=
  serve mw_run.cfg (fun s => s) (Some mw_run.worker) (Some mw_run.producer) 0 noLimit (mkBucket 0 0) (mkBucket 0 0) (mkBucket 0 0) []
    (fun _ => Ok "null") (fun l => l) a (fun _ => 0) (mw_run.req authorization) "/v1/codeq/tasks/claim" rq (tt, tt, tt).
End http_run.


