(* ===== verification/Config.v ===== *)
(** The configuration ([src/pkg/config/config.go]): environment variables over the
    values of the YAML file, defaults, and validation.

    [env] is [os.Getenv]; the YAML decoder is outside, so loading starts from the
    configuration it returns.  A [json.RawMessage] is [None] when nil.  The JSON
    encoders of the two derived configurations and [strconv.ParseFloat] are
    arguments. *)

From Stdlib Require Import SpecFloat.
From S2P Require Import Prelude GoTime Domain Keys GoText GoParse Float64 RateLimit Auth Middleware.

Record ClusterConfig := mkClusterConfig { cc_Enabled : bool; cc_SelfID : string; cc_GRPCAddr : string; cc_Nodes : list (string * string) }.

Record ShardBackendConfig := mkBackend { sb_Address : string; sb_Password : string; sb_DB : Z; sb_PoolSize : Z }.

Record ShardingConfig := mkSharding {
  sh_Enabled : bool; sh_DefaultShard : string; sh_CommandMappings : gmap string string; sh_TenantOverrides : gmap string string;
  sh_Backends : gmap string ShardBackendConfig
}.

Record RaftConfig := mkRaftConfig {
  rc_Enabled : bool; rc_SelfID : string; rc_BindAddr : string; rc_Bootstrap : bool; rc_Peers : gmap string string; rc_MuxEnabled : bool;
  rc_PeerHTTPAddrs : gmap string string; rc_HeartbeatMS : Z; rc_ElectionMS : Z; rc_LeaderLeaseMS : Z; rc_CommitMS : Z;
  rc_ApplyTimeoutSeconds : Z; rc_TopicCatalogProtocol : string
}.

Record RateLimitConfig := mkRateLimit { rl_Producer : Bucket; rl_Worker : Bucket; rl_Webhook : Bucket; rl_Admin : Bucket }.

Record Config := mkConfig {
  cf_Port : Z;
  cf_RedisAddr : string;
  cf_RedisPassword : string;
  cf_PersistenceProvider : string;
  cf_PersistenceConfig : option string;
  cf_TracingEnabled : bool;
  cf_TracingServiceName : string;
  cf_TracingOtlpEndpoint : string;
  cf_TracingOtlpInsecure : bool;
  cf_TracingSampleRatio : spec_float;
  cf_IdentityServiceURL : string;
  cf_IdentityServiceApiKey : string;
  cf_IdentityJwksURL : string;
  cf_IdentityIssuer : string;
  cf_IdentityAudience : string;
  cf_ProducerAuthProvider : string;
  cf_ProducerAuthConfig : option string;
  cf_Timezone : string;
  cf_LogLevel : string;
  cf_LogFormat : string;
  cf_Env : string;
  cf_DefaultLeaseSeconds : Z;
  cf_RequeueInspectLimit : Z;
  cf_LocalArtifactsDir : string;
  cf_MaxAttemptsDefault : Z;
  cf_BackoffPolicy : string;
  cf_BackoffBaseSeconds : Z;
  cf_BackoffMaxSeconds : Z;
  cf_WorkerJwksURL : string;
  cf_WorkerAudience : string;
  cf_WorkerIssuer : string;
  cf_WorkerAuthProvider : string;
  cf_WorkerAuthConfig : option string;
  cf_AllowedClockSkewSeconds : Z;
  cf_AllowProducerAsWorker : bool;
  cf_WebhookHmacSecret : string;
  cf_SubscriptionMinIntervalSeconds : Z;
  cf_SubscriptionCleanupIntervalSeconds : Z;
  cf_ResultWebhookMaxAttempts : Z;
  cf_ResultWebhookBaseBackoffSeconds : Z;
  cf_ResultWebhookMaxBackoffSeconds : Z;
  cf_RateLimit : RateLimitConfig;
  cf_Sharding : ShardingConfig;
  cf_Cluster : ClusterConfig;
  cf_Raft : RaftConfig;
  cf_WorkerStreamAddr : string;
  cf_ProducerStreamAddr : string
}.

Module config.

(** ** Values of variables *)

(** [strings.EqualFold(s, "yes")]: the long s folds to s. *)
Fixpoint unlong (s : string) : string :=
  match s with
  | String a s' =>
      match s' with
      | String b s'' => if (ch a =? 197) && (ch b =? 191) then String "s" (unlong s'') else String a (unlong s')
      | EmptyString => s
      end
  | EmptyString => ""
  end.

Definition isTrue (v : string) : bool :=
  middleware.EqualFold v "true" || bool_decide (v = "1") || middleware.EqualFold (unlong v) "yes".

(** One element of ["id1=addr1,id2=addr2,..."]. *)
Definition parsePair (text : string) : option (string * string) :=
  match cut "=" (TrimSpace text) with
  | Some (x, y) => if bool_decide (x = "") || bool_decide (y = "") then None else Some (TrimSpace x, TrimSpace y)
  | None => None
  end.

Definition parsePairs (v : string) : list (string * string) := omap parsePair (splitN v "," (S (String.length v))).

(** As a Go map the last of equal keys counts. *)
Definition pairsMap (ps : list (string * string)) : gmap string string :=
  fold_left (fun m '(k, v) => <[k := v]> m) ps ∅.

(** [strings.TrimRight(s, "/")]. *)
Definition trimSlashes (s : string) : string :=
  let fix drop (s : string) : string :=
    match s with String a s' => if Ascii.eqb a "/" then drop s' else s | EmptyString => "" end in
  rev_s (drop (rev_s s "")) "".

Section load.
Variable env : string -> string.
Variable ParseFloat : string -> option spec_float.

Definition strVar (name old : string) : string := if bool_decide (env name = "") then old else env name.
Definition boolVar (name : string) (old : bool) : bool := if bool_decide (env name = "") then old else isTrue (env name).
Definition intVar (name : string) (old : Z) : Z :=
  if bool_decide (env name = "") then old else match Atoi (env name) with Some n => n | None => old end.
Definition posVar (name : string) (old : Z) : Z :=
  if bool_decide (env name = "") then old else match Atoi (env name) with Some n => if 0 <? n then n else old | None => old end.
Definition rawVar (name : string) (old : option string) : option string := if bool_decide (env name = "") then old else Some (env name).
Definition mapVar (name : string) (old : gmap string string) : gmap string string :=
  if bool_decide (env name = "") then old else match parsePairs (env name) with [] => old | ps => pairsMap ps end.

Definition envCluster (c : ClusterConfig) : ClusterConfig := {|
  cc_Enabled := boolVar "CLUSTER_ENABLED" (cc_Enabled c);
  cc_SelfID := strVar "CLUSTER_SELF_ID" (cc_SelfID c);
  cc_GRPCAddr := strVar "CLUSTER_GRPC_ADDR" (cc_GRPCAddr c);
  cc_Nodes := if bool_decide (env "CLUSTER_NODES" = "") then cc_Nodes c
              else match parsePairs (env "CLUSTER_NODES") with [] => cc_Nodes c | nodes => nodes end
|}.

Definition envRaft (c : RaftConfig) : RaftConfig := {|
  rc_Enabled := boolVar "RAFT_ENABLED" (rc_Enabled c);
  rc_SelfID := strVar "RAFT_SELF_ID" (rc_SelfID c);
  rc_BindAddr := strVar "RAFT_BIND_ADDR" (rc_BindAddr c);
  rc_Bootstrap := boolVar "RAFT_BOOTSTRAP" (rc_Bootstrap c);
  rc_Peers := mapVar "RAFT_PEERS" (rc_Peers c);
  rc_MuxEnabled := boolVar "RAFT_MUX_ENABLED" (rc_MuxEnabled c);
  rc_PeerHTTPAddrs := mapVar "RAFT_PEER_HTTP_ADDRS" (rc_PeerHTTPAddrs c);
  rc_HeartbeatMS := posVar "RAFT_HEARTBEAT_MS" (rc_HeartbeatMS c);
  rc_ElectionMS := posVar "RAFT_ELECTION_MS" (rc_ElectionMS c);
  rc_LeaderLeaseMS := posVar "RAFT_LEADER_LEASE_MS" (rc_LeaderLeaseMS c);
  rc_CommitMS := posVar "RAFT_COMMIT_MS" (rc_CommitMS c);
  rc_ApplyTimeoutSeconds := posVar "RAFT_APPLY_TIMEOUT_SECONDS" (rc_ApplyTimeoutSeconds c);
  rc_TopicCatalogProtocol :=
    if bool_decide (env "RAFT_TOPIC_CATALOG_PROTOCOL" = "") then rc_TopicCatalogProtocol c else TrimSpace (env "RAFT_TOPIC_CATALOG_PROTOCOL")
|}.

Definition floatVar (name : string) (old : spec_float) : spec_float :=
  if bool_decide (env name = "") then old else match ParseFloat (env name) with Some f => f | None => old end.

(** The environment over the file: where a variable has an older name, the newer
    one counts. *)
Definition applyEnv (c : Config) : Config := {|
  cf_Port := intVar "PORT" (cf_Port c);
  cf_RedisAddr := strVar "REDIS_ADDR" (cf_RedisAddr c);
  cf_RedisPassword := strVar "REDIS_PASSWORD" (strVar "KVROCKS_PASSWORD" (cf_RedisPassword c));
  cf_PersistenceProvider := strVar "PERSISTENCE_PROVIDER" (cf_PersistenceProvider c);
  cf_PersistenceConfig := rawVar "PERSISTENCE_CONFIG" (cf_PersistenceConfig c);
  cf_TracingEnabled := boolVar "TRACING_ENABLED" (cf_TracingEnabled c);
  cf_TracingServiceName := strVar "TRACING_SERVICE_NAME" (strVar "OTEL_SERVICE_NAME" (cf_TracingServiceName c));
  cf_TracingOtlpEndpoint := strVar "TRACING_OTLP_ENDPOINT" (strVar "OTEL_EXPORTER_OTLP_ENDPOINT" (cf_TracingOtlpEndpoint c));
  cf_TracingOtlpInsecure := boolVar "TRACING_OTLP_INSECURE" (boolVar "OTEL_EXPORTER_OTLP_INSECURE" (cf_TracingOtlpInsecure c));
  cf_TracingSampleRatio := floatVar "TRACING_SAMPLE_RATIO" (cf_TracingSampleRatio c);
  cf_IdentityServiceURL := strVar "IDENTITY_SERVICE_URL" (cf_IdentityServiceURL c);
  cf_IdentityServiceApiKey := strVar "IDENTITY_SERVICE_API_KEY" (cf_IdentityServiceApiKey c);
  cf_IdentityJwksURL := strVar "IDENTITY_JWKS_URL" (cf_IdentityJwksURL c);
  cf_IdentityIssuer := strVar "IDENTITY_ISSUER" (cf_IdentityIssuer c);
  cf_IdentityAudience := strVar "IDENTITY_AUDIENCE" (cf_IdentityAudience c);
  cf_ProducerAuthProvider := strVar "PRODUCER_AUTH_PROVIDER" (cf_ProducerAuthProvider c);
  cf_ProducerAuthConfig := rawVar "PRODUCER_AUTH_CONFIG" (cf_ProducerAuthConfig c);
  cf_Timezone := cf_Timezone c;
  cf_LogLevel := cf_LogLevel c;
  cf_LogFormat := cf_LogFormat c;
  cf_Env := cf_Env c;
  cf_DefaultLeaseSeconds := cf_DefaultLeaseSeconds c;
  cf_RequeueInspectLimit := cf_RequeueInspectLimit c;
  cf_LocalArtifactsDir := strVar "LOCAL_ARTIFACTS_DIR" (cf_LocalArtifactsDir c);
  cf_MaxAttemptsDefault := intVar "MAX_ATTEMPTS_DEFAULT" (cf_MaxAttemptsDefault c);
  cf_BackoffPolicy := strVar "BACKOFF_POLICY" (cf_BackoffPolicy c);
  cf_BackoffBaseSeconds := intVar "BACKOFF_BASE_SECONDS" (cf_BackoffBaseSeconds c);
  cf_BackoffMaxSeconds := intVar "BACKOFF_MAX_SECONDS" (cf_BackoffMaxSeconds c);
  cf_WorkerJwksURL := strVar "WORKER_JWKS_URL" (cf_WorkerJwksURL c);
  cf_WorkerAudience := strVar "WORKER_AUDIENCE" (cf_WorkerAudience c);
  cf_WorkerIssuer := strVar "WORKER_ISSUER" (cf_WorkerIssuer c);
  cf_WorkerAuthProvider := strVar "WORKER_AUTH_PROVIDER" (cf_WorkerAuthProvider c);
  cf_WorkerAuthConfig := rawVar "WORKER_AUTH_CONFIG" (cf_WorkerAuthConfig c);
  cf_AllowedClockSkewSeconds := intVar "ALLOWED_CLOCK_SKEW_SECONDS" (cf_AllowedClockSkewSeconds c);
  cf_AllowProducerAsWorker := boolVar "ALLOW_PRODUCER_AS_WORKER" (cf_AllowProducerAsWorker c);
  cf_WebhookHmacSecret := strVar "WEBHOOK_HMAC_SECRET" (cf_WebhookHmacSecret c);
  cf_SubscriptionMinIntervalSeconds := intVar "SUBSCRIPTION_MIN_INTERVAL_SECONDS" (cf_SubscriptionMinIntervalSeconds c);
  cf_SubscriptionCleanupIntervalSeconds := intVar "SUBSCRIPTION_CLEANUP_INTERVAL_SECONDS" (cf_SubscriptionCleanupIntervalSeconds c);
  cf_ResultWebhookMaxAttempts := intVar "RESULT_WEBHOOK_MAX_ATTEMPTS" (cf_ResultWebhookMaxAttempts c);
  cf_ResultWebhookBaseBackoffSeconds := intVar "RESULT_WEBHOOK_BASE_BACKOFF_SECONDS" (cf_ResultWebhookBaseBackoffSeconds c);
  cf_ResultWebhookMaxBackoffSeconds := intVar "RESULT_WEBHOOK_MAX_BACKOFF_SECONDS" (cf_ResultWebhookMaxBackoffSeconds c);
  cf_RateLimit := cf_RateLimit c;
  cf_Sharding := cf_Sharding c;
  cf_Cluster := envCluster (cf_Cluster c);
  cf_Raft := envRaft (cf_Raft c);
  cf_WorkerStreamAddr := strVar "WORKER_STREAM_ADDR" (cf_WorkerStreamAddr c);
  cf_ProducerStreamAddr := strVar "PRODUCER_STREAM_ADDR" (cf_ProducerStreamAddr c)
|}.
End load.

(** ** Defaults *)

Definition orStr (d s : string) : string := if bool_decide (s = "") then d else s.
Definition orPos (d n : Z) : Z := if n <=? 0 then d else n.
Definition notNegative (n : Z) : Z := if n <? 0 then 0 else n.
Definition limit (b : Bucket) : Bucket := mkBucket (notNegative (RequestsPerMinute b)) (notNegative (BurstSize b)).
Definition limits (r : RateLimitConfig) : RateLimitConfig :=
  mkRateLimit (limit (rl_Producer r)) (limit (rl_Worker r)) (limit (rl_Webhook r)) (limit (rl_Admin r)).

Section defaults.
(** [json.Marshal] of the Redis configuration, and of the JWKS configuration
    with its HTTP timeout. *)
Variable redisJSON : string -> string -> string.
Variable jwksJSON : jwks.Config -> Z -> string.

Definition applyDefaults (c : Config) : Config :=
  let redis := orStr "localhost:6379" (cf_RedisAddr c) in
  let service := orStr "http://api.codecompany.ai" (cf_IdentityServiceURL c) in {|
  cf_Port := if cf_Port c =? 0 then 8080 else cf_Port c;
  cf_RedisAddr := redis;
  cf_RedisPassword := cf_RedisPassword c;
  cf_PersistenceProvider := orStr "redis" (cf_PersistenceProvider c);
  cf_PersistenceConfig := match cf_PersistenceConfig c with None | Some "" => Some (redisJSON redis (cf_RedisPassword c)) | raw => raw end;
  cf_TracingEnabled := cf_TracingEnabled c;
  cf_TracingServiceName := orStr "codeq" (cf_TracingServiceName c);
  cf_TracingOtlpEndpoint := if blank (cf_TracingOtlpEndpoint c) then "localhost:4317" else cf_TracingOtlpEndpoint c;
  cf_TracingOtlpInsecure := cf_TracingOtlpInsecure c;
  cf_TracingSampleRatio := if fle (cf_TracingSampleRatio c) (float64 0) || flt (float64 1) (cf_TracingSampleRatio c) then float64 1 else cf_TracingSampleRatio c;
  cf_IdentityServiceURL := service;
  cf_IdentityServiceApiKey := cf_IdentityServiceApiKey c;
  cf_IdentityJwksURL := orStr (trimSlashes service +:+ "/v1/.well-known/jwks.json") (cf_IdentityJwksURL c);
  cf_IdentityIssuer := orStr (trimSlashes service) (cf_IdentityIssuer c);
  cf_IdentityAudience := cf_IdentityAudience c;
  cf_ProducerAuthProvider := cf_ProducerAuthProvider c;
  cf_ProducerAuthConfig := cf_ProducerAuthConfig c;
  cf_Timezone := orStr "America/Sao_Paulo" (cf_Timezone c);
  cf_LogLevel := orStr "info" (cf_LogLevel c);
  cf_LogFormat := orStr "json" (cf_LogFormat c);
  cf_Env := orStr "dev" (cf_Env c);
  cf_DefaultLeaseSeconds := orPos 300 (cf_DefaultLeaseSeconds c);
  cf_RequeueInspectLimit := orPos 200 (cf_RequeueInspectLimit c);
  cf_LocalArtifactsDir := orStr "/tmp/codeq-artifacts" (cf_LocalArtifactsDir c);
  cf_MaxAttemptsDefault := orPos 5 (cf_MaxAttemptsDefault c);
  cf_BackoffPolicy := orStr "exp_full_jitter" (cf_BackoffPolicy c);
  cf_BackoffBaseSeconds := orPos 5 (cf_BackoffBaseSeconds c);
  cf_BackoffMaxSeconds := orPos 900 (cf_BackoffMaxSeconds c);
  cf_WorkerJwksURL := cf_WorkerJwksURL c;
  cf_WorkerAudience := orStr "codeq-worker" (cf_WorkerAudience c);
  cf_WorkerIssuer := cf_WorkerIssuer c;
  cf_WorkerAuthProvider := cf_WorkerAuthProvider c;
  cf_WorkerAuthConfig := cf_WorkerAuthConfig c;
  cf_AllowedClockSkewSeconds := orPos 60 (cf_AllowedClockSkewSeconds c);
  cf_AllowProducerAsWorker := cf_AllowProducerAsWorker c;
  cf_WebhookHmacSecret := cf_WebhookHmacSecret c;
  cf_SubscriptionMinIntervalSeconds := orPos 5 (cf_SubscriptionMinIntervalSeconds c);
  cf_SubscriptionCleanupIntervalSeconds := orPos 60 (cf_SubscriptionCleanupIntervalSeconds c);
  cf_ResultWebhookMaxAttempts := orPos 5 (cf_ResultWebhookMaxAttempts c);
  cf_ResultWebhookBaseBackoffSeconds := orPos 2 (cf_ResultWebhookBaseBackoffSeconds c);
  cf_ResultWebhookMaxBackoffSeconds := orPos 60 (cf_ResultWebhookMaxBackoffSeconds c);
  cf_RateLimit := limits (cf_RateLimit c);
  cf_Sharding := cf_Sharding c;
  cf_Cluster := cf_Cluster c;
  cf_Raft := cf_Raft c;
  cf_WorkerStreamAddr := cf_WorkerStreamAddr c;
  cf_ProducerStreamAddr := cf_ProducerStreamAddr c
|}.

(** The provider and the configuration of a validator that is not set explicitly. *)
Definition autoAuth (provider : string) (raw : option string) (url issuer audience : string) (skew : Z) : string * option string :=
  if bool_decide (provider = "") && bool_decide (url <> "") then
    ("jwks", match raw with
             | None => Some (jwksJSON (jwks.mkConfig url issuer audience (seconds skew)) (5 * second))
             | _ => raw
             end)
  else (provider, raw).

Definition applyAuth (c : Config) : Config :=
  let producer := autoAuth (cf_ProducerAuthProvider c) (cf_ProducerAuthConfig c) (cf_IdentityJwksURL c) (cf_IdentityIssuer c) (cf_IdentityAudience c)
                    (cf_AllowedClockSkewSeconds c) in
  let worker := autoAuth (cf_WorkerAuthProvider c) (cf_WorkerAuthConfig c) (cf_WorkerJwksURL c) (cf_WorkerIssuer c) (cf_WorkerAudience c)
                  (cf_AllowedClockSkewSeconds c) in {|
  cf_Port := cf_Port c;
  cf_RedisAddr := cf_RedisAddr c;
  cf_RedisPassword := cf_RedisPassword c;
  cf_PersistenceProvider := cf_PersistenceProvider c;
  cf_PersistenceConfig := cf_PersistenceConfig c;
  cf_TracingEnabled := cf_TracingEnabled c;
  cf_TracingServiceName := cf_TracingServiceName c;
  cf_TracingOtlpEndpoint := cf_TracingOtlpEndpoint c;
  cf_TracingOtlpInsecure := cf_TracingOtlpInsecure c;
  cf_TracingSampleRatio := cf_TracingSampleRatio c;
  cf_IdentityServiceURL := cf_IdentityServiceURL c;
  cf_IdentityServiceApiKey := cf_IdentityServiceApiKey c;
  cf_IdentityJwksURL := cf_IdentityJwksURL c;
  cf_IdentityIssuer := cf_IdentityIssuer c;
  cf_IdentityAudience := cf_IdentityAudience c;
  cf_ProducerAuthProvider := fst producer;
  cf_ProducerAuthConfig := snd producer;
  cf_Timezone := cf_Timezone c;
  cf_LogLevel := cf_LogLevel c;
  cf_LogFormat := cf_LogFormat c;
  cf_Env := cf_Env c;
  cf_DefaultLeaseSeconds := cf_DefaultLeaseSeconds c;
  cf_RequeueInspectLimit := cf_RequeueInspectLimit c;
  cf_LocalArtifactsDir := cf_LocalArtifactsDir c;
  cf_MaxAttemptsDefault := cf_MaxAttemptsDefault c;
  cf_BackoffPolicy := cf_BackoffPolicy c;
  cf_BackoffBaseSeconds := cf_BackoffBaseSeconds c;
  cf_BackoffMaxSeconds := cf_BackoffMaxSeconds c;
  cf_WorkerJwksURL := cf_WorkerJwksURL c;
  cf_WorkerAudience := cf_WorkerAudience c;
  cf_WorkerIssuer := cf_WorkerIssuer c;
  cf_WorkerAuthProvider := fst worker;
  cf_WorkerAuthConfig := snd worker;
  cf_AllowedClockSkewSeconds := cf_AllowedClockSkewSeconds c;
  cf_AllowProducerAsWorker := cf_AllowProducerAsWorker c;
  cf_WebhookHmacSecret := cf_WebhookHmacSecret c;
  cf_SubscriptionMinIntervalSeconds := cf_SubscriptionMinIntervalSeconds c;
  cf_SubscriptionCleanupIntervalSeconds := cf_SubscriptionCleanupIntervalSeconds c;
  cf_ResultWebhookMaxAttempts := cf_ResultWebhookMaxAttempts c;
  cf_ResultWebhookBaseBackoffSeconds := cf_ResultWebhookBaseBackoffSeconds c;
  cf_ResultWebhookMaxBackoffSeconds := cf_ResultWebhookMaxBackoffSeconds c;
  cf_RateLimit := cf_RateLimit c;
  cf_Sharding := cf_Sharding c;
  cf_Cluster := cf_Cluster c;
  cf_Raft := cf_Raft c;
  cf_WorkerStreamAddr := cf_WorkerStreamAddr c;
  cf_ProducerStreamAddr := cf_ProducerStreamAddr c
|}.
End defaults.

Definition applyEnvAndDefaults env ParseFloat redisJSON jwksJSON (c : Config) : Config :=
  applyAuth jwksJSON (applyDefaults redisJSON (applyEnv env ParseFloat c)).

(** [LoadConfigOptional]: [file] is the outcome of reading the file, [None] when
    there is none; [yaml_Unmarshal] decodes into the empty configuration. *)
Definition LoadConfigOptional env ParseFloat redisJSON jwksJSON (yaml_Unmarshal : string -> res Config) (empty : Config)
  (filePath : string) (file : res (option string)) : res Config :=
  match (if blank filePath then Ok empty
         else match file with
              | Err e => Err e
              | Ok None => Ok empty
              | Ok (Some data) => yaml_Unmarshal data
              end) with
  | Err e => Err e
  | Ok c => Ok (applyEnvAndDefaults env ParseFloat redisJSON jwksJSON c)
  end.

(** ** Validation *)

Section validate.
(** The scheme and the host [url.Parse] finds, and the orders of Go's map
    iterations. *)
Variable url_Parse : string -> option (string * string).
Variable order : list (string * string) -> list (string * string).
Variable orderBackends : list (string * ShardBackendConfig) -> list (string * ShardBackendConfig).

Definition check (bad : bool) (msg : string) : list string := if bad then [msg] else [].

Definition httpURL (s : string) : bool :=
  match url_Parse s with
  | Some (scheme, host) => (bool_decide (scheme = "http") || bool_decide (scheme = "https")) && bool_decide (host <> "")
  | None => false
  end.

Definition isDev (c : Config) : bool := bool_decide (ToLower (TrimSpace (cf_Env c)) = "dev").

Definition authErrs (c : Config) : list string :=
  (if bool_decide (cf_WorkerJwksURL c = "") then check (negb (isDev c)) "workerJwksUrl is required in non-dev"
   else check (negb (httpURL (cf_WorkerJwksURL c))) "workerJwksUrl must be a valid http(s) URL") ++
  check (bool_decide (cf_WorkerIssuer c = "") && negb (isDev c)) "workerIssuer is required in non-dev" ++
  check (bool_decide (cf_WorkerAudience c = "")) "workerAudience is required" ++
  check (bool_decide (cf_IdentityJwksURL c = "") && negb (isDev c)) "identityJwksUrl is required in non-dev" ++
  check (((0 <? cf_SubscriptionMinIntervalSeconds c) || (0 <? cf_ResultWebhookMaxAttempts c)) && blank (cf_WebhookHmacSecret c) && negb (isDev c))
    "webhookHmacSecret is required when webhooks are enabled".

Definition undefined (s : ShardingConfig) (msg : string -> string -> string) (m : gmap string string) : list string :=
  concat (map (fun '(k, shardID) => check (bool_decide (sh_Backends s !! shardID = None)) (msg k shardID)) (order (map_to_list m))).

Definition shardingErrs (s : ShardingConfig) : list string :=
  if sh_Enabled s && bool_decide (sh_Backends s <> ∅) then
    let defaultShard := orStr "default" (sh_DefaultShard s) in
    check (bool_decide (sh_Backends s !! defaultShard = None)) ("default shard " +:+ quoted defaultShard +:+ " not found in sharding backends") ++
    undefined s (fun cmd shardID => "command " +:+ cmd +:+ " maps to undefined shard backend " +:+ quoted shardID) (sh_CommandMappings s) ++
    undefined s (fun tenant shardID => "tenant " +:+ tenant +:+ " override maps to undefined shard backend " +:+ quoted shardID) (sh_TenantOverrides s) ++
    concat (map (fun '(name, b) => check (blank (sb_Address b)) ("shard backend " +:+ quoted name +:+ " has empty address"))
              (orderBackends (map_to_list (sh_Backends s))))
  else [].

Definition raftErrs (c : Config) : list string :=
  let r := cf_Raft c in
  if rc_Enabled r then
    check (cc_Enabled (cf_Cluster c)) "raft.enabled and cluster.enabled are mutually exclusive" ++
    check (sh_Enabled (cf_Sharding c)) "raft.enabled and sharding.enabled are mutually exclusive" ++
    check (blank (rc_SelfID r)) "raft.selfId is required when raft is enabled" ++
    check (blank (rc_BindAddr r)) "raft.bindAddr is required when raft is enabled" ++
    check (bool_decide (rc_SelfID r <> "") && bool_decide (rc_Peers r <> ∅) && bool_decide (rc_Peers r !! rc_SelfID r = None))
      ("raft.selfId " +:+ quoted (rc_SelfID r) +:+ " not present in raft.peers") ++
    check (bool_decide (cf_PersistenceProvider c <> "") && bool_decide (cf_PersistenceProvider c <> "pebble"))
      ("raft.enabled requires persistenceProvider=pebble, got " +:+ quoted (cf_PersistenceProvider c)) ++
    (let protocol := TrimSpace (rc_TopicCatalogProtocol r) in
     check (bool_decide (protocol <> "") && bool_decide (protocol <> "v1"))
       ("raft.topicCatalogProtocol " +:+ quoted protocol +:+ " is unsupported (expected v1 or empty)"))
  else [].

Definition Validate (c : Config) : option error :=
  match authErrs c ++ shardingErrs (cf_Sharding c) ++ raftErrs c with
  | [] => None
  | errs => Some (ErrText ("config validation failed: " +:+ String.concat "; " errs))
  end.
End validate.
End config.

(** ** What a loaded configuration satisfies *)

(** The ranges the components rely on.  A sample ratio that is not a number stays. *)
Record in_range (c : Config) : Prop := {
  ir_port : cf_Port c <> 0;
  ir_lease : 0 < cf_DefaultLeaseSeconds c;
  ir_inspect : 0 < cf_RequeueInspectLimit c;
  ir_attempts : 0 < cf_MaxAttemptsDefault c;
  ir_base : 0 < cf_BackoffBaseSeconds c;
  ir_max : 0 < cf_BackoffMaxSeconds c;
  ir_skew : 0 < cf_AllowedClockSkewSeconds c;
  ir_interval : 0 < cf_SubscriptionMinIntervalSeconds c;
  ir_cleanup : 0 < cf_SubscriptionCleanupIntervalSeconds c;
  ir_webhook : 0 < cf_ResultWebhookMaxAttempts c /\ 0 < cf_ResultWebhookBaseBackoffSeconds c /\ 0 < cf_ResultWebhookMaxBackoffSeconds c;
  ir_ratio : fle (cf_TracingSampleRatio c) (float64 0) = false /\ flt (float64 1) (cf_TracingSampleRatio c) = false;
  ir_limits : Forall (fun b => 0 <= RequestsPerMinute b /\ 0 <= BurstSize b)
    [rl_Producer (cf_RateLimit c); rl_Worker (cf_RateLimit c); rl_Webhook (cf_RateLimit c); rl_Admin (cf_RateLimit c)];
  ir_names : Forall (fun s => s <> "") [cf_RedisAddr c; cf_PersistenceProvider c; cf_IdentityServiceURL c; cf_IdentityJwksURL c; cf_Timezone c;
    cf_Env c; cf_BackoffPolicy c; cf_WorkerAudience c; cf_LocalArtifactsDir c; cf_ProducerAuthProvider c];
  ir_persistence : is_Some (cf_PersistenceConfig c) /\ cf_PersistenceConfig c <> Some ""
}.

Lemma orPos_pos d n : 0 < d -> 0 < config.orPos d n.
Proof. unfold config.orPos. destruct (Z.leb_spec n 0); lia. Qed.

Lemma orStr_nonempty d s : d <> "" -> config.orStr d s <> "".
Proof. unfold config.orStr. by case_bool_decide. Qed.

Lemma notNegative_ok n : 0 <= config.notNegative n.
Proof. unfold config.notNegative. destruct (Z.ltb_spec n 0); lia. Qed.

Section loaded.
Variable env : string -> string.
Variable ParseFloat : string -> option spec_float.
Variable redisJSON : string -> string -> string.
Variable jwksJSON : jwks.Config -> Z -> string.
Abbreviation load := (config.applyEnvAndDefaults env ParseFloat redisJSON jwksJSON).

(** Every loaded configuration is in range.  Whatever the file and the
    environment hold, malformed numbers included, the settings the components
    divide by, wait for or count with are positive, the rate limits are not
    negative, the names are not empty and there is a persistence configuration. *)
Theorem config_in_range c : (forall addr password, redisJSON addr password <> "") -> in_range (load c).
Proof.
  intros Hjson. set (c1 := config.applyEnv env ParseFloat c).
  change (load c) with (config.applyAuth jwksJSON (config.applyDefaults redisJSON c1)). generalize c1. clear c c1. intros c.
  assert (forall s, s +:+ "/v1/.well-known/jwks.json" <> "") as Hurl.
  { intros s Hs. apply (f_equal String.length) in Hs. rewrite length_app_s in Hs. simpl in Hs. lia. }
  split; cbn [config.applyAuth config.applyDefaults cf_Port cf_DefaultLeaseSeconds cf_RequeueInspectLimit cf_MaxAttemptsDefault cf_BackoffBaseSeconds
    cf_BackoffMaxSeconds cf_AllowedClockSkewSeconds cf_SubscriptionMinIntervalSeconds cf_SubscriptionCleanupIntervalSeconds cf_ResultWebhookMaxAttempts
    cf_ResultWebhookBaseBackoffSeconds cf_ResultWebhookMaxBackoffSeconds]; try (by apply orPos_pos); try (split_and!; by apply orPos_pos).
  - destruct (Z.eqb_spec (cf_Port c) 0); lia.
  - cbn [config.applyAuth config.applyDefaults cf_TracingSampleRatio]. destruct (fle (cf_TracingSampleRatio c) (float64 0)) eqn:E1; [by split|].
    destruct (flt (float64 1) (cf_TracingSampleRatio c)) eqn:E2; [by split|]. cbn [orb]. by rewrite E1, E2.
  - cbn [config.applyAuth config.applyDefaults cf_RateLimit config.limits rl_Producer rl_Worker rl_Webhook rl_Admin].
    repeat (constructor; [split; apply notNegative_ok|]). constructor.
  - repeat (constructor; [first [by apply orStr_nonempty | by apply orStr_nonempty, Hurl | idtac]|]); [|constructor].
    cbn [config.applyAuth cf_ProducerAuthProvider]. unfold config.autoAuth.
    rewrite (bool_decide_eq_true_2 (cf_IdentityJwksURL _ <> "")) by apply orStr_nonempty, Hurl. rewrite andb_true_r. by case_bool_decide.
  - cbn [config.applyAuth config.applyDefaults cf_PersistenceConfig].
    destruct (cf_PersistenceConfig c) as [[|a s]|]; split; try done; intros [= E]; by eapply Hjson.
Qed.
End loaded.

(** ** What validation accepts *)

Section valid.
Variable url_Parse : string -> option (string * string).
Variable order : list (string * string) -> list (string * string).
Variable orderBackends : list (string * ShardBackendConfig) -> list (string * ShardBackendConfig).
Hypothesis order_perm : forall l, order l ≡ₚ l.
Hypothesis orderBackends_perm : forall l, orderBackends l ≡ₚ l.
Import config.

(** The requirements on a configuration. *)
Record valid_sharding (s : ShardingConfig) : Prop := {
  vs_default : is_Some (sh_Backends s !! orStr "default" (sh_DefaultShard s));
  vs_commands : forall cmd id, sh_CommandMappings s !! cmd = Some id -> is_Some (sh_Backends s !! id);
  vs_tenants : forall tenant id, sh_TenantOverrides s !! tenant = Some id -> is_Some (sh_Backends s !! id);
  vs_addresses : forall name b, sh_Backends s !! name = Some b -> blank (sb_Address b) = false
}.

Record valid_raft (c : Config) : Prop := {
  vr_exclusive : cc_Enabled (cf_Cluster c) = false /\ sh_Enabled (cf_Sharding c) = false;
  vr_self : blank (rc_SelfID (cf_Raft c)) = false;
  vr_bind : blank (rc_BindAddr (cf_Raft c)) = false;
  vr_peers : rc_Peers (cf_Raft c) <> ∅ -> is_Some (rc_Peers (cf_Raft c) !! rc_SelfID (cf_Raft c));
  vr_provider : cf_PersistenceProvider c = "" \/ cf_PersistenceProvider c = "pebble";
  vr_protocol : TrimSpace (rc_TopicCatalogProtocol (cf_Raft c)) = "" \/ TrimSpace (rc_TopicCatalogProtocol (cf_Raft c)) = "v1"
}.

Record valid_auth (c : Config) : Prop := {
  va_url : cf_WorkerJwksURL c <> "" -> httpURL url_Parse (cf_WorkerJwksURL c) = true;
  va_audience : cf_WorkerAudience c <> "";
  va_prod : isDev c = false ->
    cf_WorkerJwksURL c <> "" /\ cf_WorkerIssuer c <> "" /\ cf_IdentityJwksURL c <> "" /\
    (0 < cf_SubscriptionMinIntervalSeconds c \/ 0 < cf_ResultWebhookMaxAttempts c -> blank (cf_WebhookHmacSecret c) = false)
}.

Lemma check_nil b msg : check b msg = [] <-> b = false.
Proof. by destruct b. Qed.

Lemma concat_nil_iff {A} (ls : list (list A)) : concat ls = [] <-> Forall (fun l => l = []) ls.
Proof. induction ls as [|l ls IH]; simpl; [done|]. rewrite app_nil, Forall_cons, IH. done. Qed.

(** A check of every entry of a map, in any order. *)
Lemma checked_all {A} (f : list (string * A) -> list (string * A)) (m : gmap string A) (bad : string * A -> bool) (msg : string * A -> string) :
  (forall l, f l ≡ₚ l) ->
  concat (map (fun e => check (bad e) (msg e)) (f (map_to_list m))) = [] <-> forall k v, m !! k = Some v -> bad (k, v) = false.
Proof.
  intros Hf. rewrite concat_nil_iff, Forall_map. split.
  - intros Hall k v Hk%elem_of_map_to_list. rewrite <- (Hf (map_to_list m)) in Hk. eapply Forall_forall in Hall; [|exact Hk].
    by eapply check_nil.
  - intros Hall. apply Forall_forall. intros [k v] Hk. rewrite (Hf (map_to_list m)) in Hk. apply elem_of_map_to_list, Hall in Hk. by apply check_nil.
Qed.

Lemma defined_iff s (id : string) : bool_decide (sh_Backends s !! id = None) = false <-> is_Some (sh_Backends s !! id).
Proof. rewrite bool_decide_eq_false. apply not_eq_None_Some. Qed.

Lemma undefined_nil s msg m : undefined order s msg m = [] <-> forall k id, m !! k = Some id -> is_Some (sh_Backends s !! id).
Proof.
  unfold undefined. set (bad := fun e : string * string => bool_decide (sh_Backends s !! e.2 = None)).
  transitivity (concat (map (fun e => check (bad e) (msg e.1 e.2)) (order (map_to_list m))) = []).
  { replace (map _ _) with (map (fun e => check (bad e) (msg e.1 e.2)) (order (map_to_list m))); [done|]. apply map_ext. by intros []. }
  rewrite (checked_all order m bad (fun e => msg e.1 e.2)) by done. unfold bad. simpl. split; intros Hall k id Hk; by eapply defined_iff, Hall.
Qed.

Lemma shardingErrs_nil s : shardingErrs order orderBackends s = [] <-> (sh_Enabled s = true -> sh_Backends s <> ∅ -> valid_sharding s).
Proof.
  unfold shardingErrs. destruct (sh_Enabled s); [|done]. cbn [andb]. case_bool_decide as Hb; [|by split]. cbv zeta.
  rewrite !app_nil, check_nil, defined_iff, !undefined_nil.
  set (bad := fun e : string * ShardBackendConfig => blank (sb_Address e.2)).
  set (msg := fun e : string * ShardBackendConfig => "shard backend " +:+ quoted e.1 +:+ " has empty address").
  replace (map _ (orderBackends _)) with (map (fun e => check (bad e) (msg e)) (orderBackends (map_to_list (sh_Backends s))))
    by (apply map_ext; by intros []).
  rewrite (checked_all orderBackends _ bad msg) by done. split; [intros (H1 & H2 & H3 & H4) _ _; by split|].
  intros Hv. destruct (Hv eq_refl Hb). done.
Qed.

Lemma orb_decided (s x : string) : bool_decide (s <> "") && bool_decide (s <> x) = false <-> s = "" \/ s = x.
Proof. rewrite andb_false_iff, !bool_decide_eq_false. destruct (decide (s = "")), (decide (s = x)); naive_solver. Qed.

Lemma raftErrs_nil c : raftErrs c = [] <-> (rc_Enabled (cf_Raft c) = true -> valid_raft c).
Proof.
  unfold raftErrs. destruct (rc_Enabled (cf_Raft c)); [|done]. cbv zeta. rewrite !app_nil, !check_nil, !orb_decided, !andb_false_iff, !bool_decide_eq_false.
  split.
  - intros (H1 & H2 & H3 & H4 & H5 & H6 & H7) _. split; try done. intros Hp. destruct H5 as [[H5|H5]|H5]; [|done|by apply not_eq_None_Some].
    exfalso. apply H5. intros E. by rewrite E in H3.
  - intros Hv. destruct (Hv eq_refl) as [[H1 H2] H3 H4 H5 H6 H7]. split_and!; try done.
    destruct (decide (rc_Peers (cf_Raft c) = ∅)) as [E|E]; [left; right; naive_solver|]. right. by apply not_eq_None_Some, H5.
Qed.

Lemma authErrs_nil c : authErrs url_Parse c = [] <-> valid_auth c.
Proof.
  unfold authErrs. rewrite !app_nil, !check_nil, !andb_false_iff, !negb_false_iff, !bool_decide_eq_false, orb_false_iff, !Z.ltb_ge.
  split.
  - intros (H1 & H2 & H3 & H4 & H5). split; [|done|].
    + intros Hu. rewrite bool_decide_eq_false_2 in H1 by done. by apply check_nil, negb_false_iff in H1.
    + intros Hd. rewrite Hd in H1, H2, H4, H5. split_and!; [|naive_solver..|intros; destruct H5 as [[[]|]|]; [lia|done..]].
      intros E. rewrite bool_decide_eq_true_2 in H1 by done. done.
  - intros [H1 H2 H3]. destruct (isDev c) eqn:Hd.
    + split_and!; try done; try (by right). case_bool_decide; [done|]. apply check_nil, negb_false_iff. by apply H1.
    + destruct (H3 eq_refl) as (Ha & Hb & Hc & Hs). rewrite bool_decide_eq_false_2 by done. split_and!; [|by left|done|by left|].
      * apply check_nil, negb_false_iff. by apply H1.
      * destruct (Z.ltb_spec 0 (cf_SubscriptionMinIntervalSeconds c)), (Z.ltb_spec 0 (cf_ResultWebhookMaxAttempts c)); auto.
Qed.

End valid.

(** ** The environment is always development *)

(** What the middleware takes from the configuration. *)
Definition mwOf (c : Config) : MwConfig := mkMwConfig (cf_Env c) (cf_AllowProducerAsWorker c) (cf_WorkerAudience c).

(** No environment variable leaves the development mode.  Whatever the
    environment says, [ENV] included, a configuration whose file does not name an
    environment is loaded as dev: validation asks for none of the production
    settings, and every accepted producer token whose claims have no role passes
    the administrator check by the header [X-Role: ADMIN]. *)
Theorem env_always_dev {S} env ParseFloat redisJSON jwksJSON upper c (v : Validator S) header claims tenant s s' :
  cf_Env c = "" ->
  let c' := config.applyEnvAndDefaults env ParseFloat redisJSON jwksJSON c in
  middleware.validateBearer v header s = (Ok claims, s') -> middleware.extractTenantID claims = Ok tenant -> c_Raw claims !! "role" = None ->
  config.isDev c' = true /\
  exists x, chain [middleware.AuthMiddleware (mwOf c') upper (Some v); middleware.RequireAdmin]
    (mkCtx header "ADMIN" None None "" "" "" "") s = (Next x, s').
Proof.
  intros He c' Hv Ht Hr. assert (cf_Env c' = "dev") as Hdev.
  { subst c'. unfold config.applyEnvAndDefaults. cbn [config.applyAuth config.applyDefaults config.applyEnv cf_Env]. by rewrite He. }
  split; [unfold config.isDev; by rewrite Hdev|]. cbn [chain]. unfold middleware.AuthMiddleware. cbn [cx_Authorization]. rewrite Hv, Ht.
  unfold middleware.RequireAdmin, middleware.setProducerContext. cbn [mwOf mc_Env]. rewrite Hr, Hdev.
  rewrite (bool_decide_eq_true_2 ("" = "")), (bool_decide_eq_true_2 ("dev" = "dev")) by done. cbn [andb cx_XRole]. unfold middleware.isAdmin. cbn [cx_userRole].
  change (middleware.ToUpper upper (TrimSpace "ADMIN")) with "ADMIN". rewrite (bool_decide_eq_false_2 ("ADMIN" = "")) by done.
  rewrite orb_true_r. by eexists.
Qed.

Module config_run.
Definition none : ShardingConfig := mkSharding false "" ∅ ∅ ∅.
Definition empty : Config :=
  mkConfig 0 "" "" "" None false "" "" false (float64 0) "" "" "" "" "" "" None "" "" "" "" 0 0 "" 0 "" 0 0 "" "" "" "" None 0 false "" 0 0 0 0 0
    (mkRateLimit (mkBucket (-1) 0) (mkBucket 0 0) (mkBucket 0 0) (mkBucket 0 0)) none (mkClusterConfig false "" "" [])
    (mkRaftConfig false "" "" false ∅ false ∅ 0 0 0 0 0 "") "" "".
(** The variables of a production deployment. *)
Definition env (name : string) : string :=
  if bool_decide (name = "ENV") then "prod" else if bool_decide (name = "RAFT_PEERS") then "n1=a:7000, n2=b:7000"
  else if bool_decide (name = "BACKOFF_BASE_SECONDS") then "-3" else "".
Definition redisJSON (addr _ : string) : string := "{" +:+ addr +:+ "}".
Definition loaded : Config := config.applyEnvAndDefaults env (fun _ => None) redisJSON (fun _ _ => "{}") empty.
Definition parse (s : string) : option (string * string) := if has_prefix "http://" s then Some ("http", "h") else None.
End config_run.

Lemma config_in_range_witness : in_range config_run.loaded /\ cf_BackoffBaseSeconds config_run.loaded = 5.
Proof. split; [apply config_in_range; intros a p; destruct a; discriminate | vm_compute; reflexivity]. Defined.


(** A token without any right is an administrator's. *)
Lemma env_always_dev_witness :
  exists x, chain [middleware.AuthMiddleware (mwOf config_run.loaded) (fun s => s)
      (Some (static.Validate (static.mkStatic "p-token" "p1" "" [] [] {[ "tid" := AString "acme" ]}) : Validator unit)); middleware.RequireAdmin]
    (mkCtx "Bearer p-token" "ADMIN" None None "" "" "" "") tt = (Next x, tt).
Proof.
  apply (env_always_dev config_run.env (fun _ => None) config_run.redisJSON (fun _ _ => "{}") (fun s => s) config_run.empty
    (static.Validate (static.mkStatic "p-token" "p1" "" [] [] {[ "tid" := AString "acme" ]})) "Bearer p-token"
    (mkClaims "p1" "" "" [] zero_time zero_time [] [] {[ "tid" := AString "acme" ]}) "acme" tt tt); vm_compute; reflexivity.
Defined.
