(* ===== verification/Shards.v ===== *)
(** Routing of the Redis shards ([src/internal/shard]): queue keys with a shard
    segment, the static supplier that names the shard of a command and a tenant,
    and the map of clients.

    A client is a name; the servers behind the names are in [Migrate]. *)

From stdpp Require Import pretty.
From S2P Require Import Prelude GoTime Domain Keys GoText GoParse RateLimit Auth Middleware RaftAddr.

Module shard.

(** ** Keys *)

Definition DefaultShardID : string := "default".

Definition ShardKeySegment (shardID : string) : string :=
  if bool_decide (shardID = "") || bool_decide (shardID = DefaultShardID) then "" else ":s:" +:+ shardID.

Definition buildQueueKey (command tenantID shardID suffix : string) : string :=
  "codeq:q:" +:+ ToLower command +:+ (if bool_decide (tenantID = "") then "" else ":" +:+ tenantID) +:+ ShardKeySegment shardID +:+ ":" +:+ suffix.

Definition QueueKeyPending (command tenantID shardID : string) (priority : Z) : string :=
  buildQueueKey command tenantID shardID ("pending:" +:+ pretty priority).
Definition QueueKeyInProgress (command tenantID shardID : string) : string := buildQueueKey command tenantID shardID "inprog".
Definition QueueKeyDelayed (command tenantID shardID : string) : string := buildQueueKey command tenantID shardID "delayed".
Definition QueueKeyDLQ (command tenantID shardID : string) : string := buildQueueKey command tenantID shardID "dlq".

(** ** The static supplier *)

Record StaticShardSupplier := mkSupplier { ss_default : string; ss_commands : gmap string string; ss_tenants : gmap string string }.

Section supplier.
(** The case mapping of other than ASCII text, and the order of a map. *)
Variable upper : string -> string.
Variable order : list (string * string) -> list (string * string).

Definition NewStaticShardSupplier (defaultShard : string) (commandMappings tenantOverrides : gmap string string) : StaticShardSupplier :=
  mkSupplier (if bool_decide (defaultShard = "") then DefaultShardID else defaultShard)
    (fold_left (fun m '(k, v) => <[middleware.ToUpper upper k := v]> m) (order (map_to_list commandMappings)) ∅) tenantOverrides.

Definition NewDefaultShardSupplier : StaticShardSupplier := mkSupplier DefaultShardID ∅ ∅.

Definition CurrentShard (s : StaticShardSupplier) (command tenantID : string) : string :=
  match (if bool_decide (tenantID = "") then None else ss_tenants s !! tenantID) with
  | Some shardID => shardID
  | None => default (ss_default s) (ss_commands s !! middleware.ToUpper upper command)
  end.

Definition QueueShards (s : StaticShardSupplier) (command tenantID : string) : list string :=
  let current := CurrentShard s command tenantID in
  current :: if bool_decide (ss_default s = current) then [] else [ss_default s].

Fixpoint findUnknown (known : gset string) (l : list (string * string)) : option (string * string) :=
  match l with
  | [] => None
  | (k, shardID) :: rest => if bool_decide (shardID ∈ known) then findUnknown known rest else Some (k, shardID)
  end.

Definition Validate (known : gset string) (s : StaticShardSupplier) : option error :=
  if negb (bool_decide (ss_default s ∈ known)) then Some (ErrText ("default shard " +:+ quoted (ss_default s) +:+ " not found in configured backends"))
  else match findUnknown known (order (map_to_list (ss_commands s))) with
       | Some (cmd, shardID) => Some (ErrText ("command " +:+ cmd +:+ " maps to undefined shard " +:+ quoted shardID))
       | None =>
           match findUnknown known (order (map_to_list (ss_tenants s))) with
           | Some (tenant, shardID) => Some (ErrText ("tenant " +:+ tenant +:+ " override maps to undefined shard " +:+ quoted shardID))
           | None => None
           end
       end.
End supplier.

(** ** The clients *)

Record ClientMap := mkClientMap { cm_clients : gmap string string; cm_default : string }.

Definition NewClientMap (clients : gmap string string) (defaultShard : string) : res ClientMap :=
  if bool_decide (clients = ∅) then Err (ErrText "at least one shard client is required")
  else match clients !! defaultShard with
       | None => Err (ErrText ("default shard " +:+ quoted defaultShard +:+ " not found in client map"))
       | Some _ => Ok (mkClientMap clients defaultShard)
       end.

Definition NewSingleClientMap (client : string) : ClientMap := mkClientMap {[ DefaultShardID := client ]} DefaultShardID.

(** [None] is the nil client. *)
Definition Client (m : ClientMap) (shardID : string) : option string :=
  match cm_clients m !! shardID with Some c => Some c | None => cm_clients m !! cm_default m end.

Definition HasShard (m : ClientMap) (shardID : string) : bool := bool_decide (is_Some (cm_clients m !! shardID)).
Definition ShardIDs (order : list (string * string) -> list (string * string)) (m : ClientMap) : list string := map fst (order (map_to_list (cm_clients m))).
End shard.
Import shard.

(** ** Keys of different queues differ *)

(** The suffixes of the queues of a command. *)
Definition suffixes : list string := map (fun p => "pending:" +:+ pretty p) (seqZ 0 10) ++ ["delayed"; "inprog"; "dlq"].

Lemma cutLast_tail x y : is_Some (cutLast ":" y) -> snd <$> cutLast ":" (x +:+ y) = snd <$> cutLast ":" y.
Proof.
  intros Hy. induction x as [|a x IH]; [by rewrite app_empty_s|]. rewrite app_cons_s. cbn [cutLast].
  destruct (cutLast ":" (x +:+ y)) as [[u v]|] eqn:E; [done|]. destruct Hy as [[u v] Hy]. by rewrite Hy in IH.
Qed.

Lemma suffix_tail : forall s s', s ∈ suffixes -> s' ∈ suffixes -> snd <$> cutLast ":" (":" +:+ s) = snd <$> cutLast ":" (":" +:+ s') -> s = s'.
Proof.
  assert (forallb (fun s => forallb (fun s' => negb (bool_decide (snd <$> cutLast ":" (":" +:+ s) = snd <$> cutLast ":" (":" +:+ s'))) || bool_decide (s = s'))
    suffixes) suffixes = true) as H by (vm_compute; reflexivity).
  rewrite forallb_forall in H. intros s s' Hs%list_elem_of_In Hs'%list_elem_of_In E. specialize (H s Hs). rewrite forallb_forall in H.
  specialize (H s' Hs'). rewrite bool_decide_eq_true_2 in H by exact E. by apply bool_decide_eq_true in H.
Qed.

Lemma suffix_colon s : is_Some (cutLast ":" (":" +:+ s)).
Proof. change (":" +:+ s) with (String ":" s). cbn [cutLast]. destruct (cutLast ":" s) as [[u v]|]; by eexists. Qed.

(** The key of a queue tells its suffix and its shard segment. *)
Lemma queueKey_inj cmd tenant f g s s' : s ∈ suffixes -> s' ∈ suffixes ->
  buildQueueKey cmd tenant f s = buildQueueKey cmd tenant g s' -> s = s' /\ ShardKeySegment f = ShardKeySegment g.
Proof.
  intros Hs Hs'. unfold buildQueueKey. intros E%app_inj_l%app_inj_l%app_inj_l.
  assert (s = s') as <-.
  { apply suffix_tail; [done|done|]. apply (f_equal (fun k => snd <$> cutLast ":" k)) in E. cbv beta in E.
    by rewrite (cutLast_tail _ (":" +:+ s) (suffix_colon s)), (cutLast_tail _ (":" +:+ s') (suffix_colon s')) in E. }
  split; [done|]. assert (String.length (ShardKeySegment f) = String.length (ShardKeySegment g)) as Hl
    by (apply (f_equal String.length) in E; rewrite !length_app_s in E; lia).
  by destruct (app_inj_len _ _ _ _ Hl E).
Qed.

(** Different shards have different segments, but for the two names of the default. *)
Lemma segment_inj f g : f <> g -> ShardKeySegment f <> ShardKeySegment g \/ (ShardKeySegment f = "" /\ ShardKeySegment g = "").
Proof.
  intros Hne. unfold ShardKeySegment. destruct (bool_decide (f = "") || _) eqn:Ef; destruct (bool_decide (g = "") || _) eqn:Eg; [by right|by left|by left|].
  left. by intros ?%app_inj_l.
Qed.

(** ** The supplier *)

(** A command and a tenant are routed to the tenant's shard, else to the
    command's, else to the default, and the shards of their queues contain it;
    when the supplier is valid all of them are known. *)
Lemma supplier_routes upper order known s cmd tenant : (forall l, order l ≡ₚ l) -> Validate order known s = None ->
  CurrentShard upper s cmd tenant ∈ QueueShards upper s cmd tenant /\ Forall (fun id => id ∈ known) (QueueShards upper s cmd tenant).
Proof.
  intros Horder Hv. split; [left|].
  assert (forall l, findUnknown known l = None -> Forall (fun kv => kv.2 ∈ known) l) as Hf.
  { induction l as [|[k v] l IH]; cbn; [by constructor|]. case_bool_decide; [|done]. intros Hl. constructor; [done | by apply IH]. }
  unfold Validate in Hv. destruct (bool_decide (ss_default s ∈ known)) eqn:Ed; [|done]. apply bool_decide_eq_true in Ed. cbn [negb] in Hv.
  destruct (findUnknown known (order (map_to_list (ss_commands s)))) as [[]|] eqn:Ec; [done|]. apply Hf in Ec.
  destruct (findUnknown known (order (map_to_list (ss_tenants s)))) as [[]|] eqn:Et; [done|]. apply Hf in Et. rewrite Horder, Forall_forall in Ec, Et.
  assert (CurrentShard upper s cmd tenant ∈ known) as Hc.
  { unfold CurrentShard. destruct (if bool_decide (tenant = "") then None else ss_tenants s !! tenant) as [id|] eqn:E.
    - case_bool_decide; [done|]. by apply (Et (tenant, id)), elem_of_map_to_list.
    - destruct (ss_commands s !! _) as [id|] eqn:Eid; [|done]. by apply (Ec (middleware.ToUpper upper cmd, id)), elem_of_map_to_list. }
  unfold QueueShards. constructor; [done|]. case_bool_decide; [constructor | by repeat constructor].
Qed.

(** A map of clients has a client for every shard id, known or not. *)
Lemma Client_total clients d m shardID : NewClientMap clients d = Ok m -> is_Some (Client m shardID).
Proof.
  unfold NewClientMap. case_bool_decide; [done|]. destruct (clients !! d) as [c|] eqn:E; [|done]. intros [= <-].
  unfold Client. cbn. destruct (clients !! shardID); eauto.
Qed.
