(* ===== verification/RedisStore.v ===== *)
(** What the sources use of Redis: the data a server stores, the commands with
    their documented replies and effects, and the interface of a server.

    A command is interpreted at the server's clock [now]; a string key whose
    time has come is absent.  [sample] is the server's choice of random members.
    A pipeline that reaches the server runs its commands in order and answers
    each; whether it reaches it is the server's affair. *)

From Stdlib Require Import SpecFloat.
From stdpp Require Import pretty sorting.
From S2P Require Import Prelude GoTime Float64.

(** ** Data *)

(** A string key has a value and may have a time at which it disappears. *)
Record rstore := mkStore {
  st_strings : gmap string (string * option Z); st_lists : gmap string (list string); st_zsets : gmap string (gmap string spec_float);
  st_sets : gmap string (gset string); st_hashes : gmap string (gmap string string)
}.

Definition empty_store : rstore := mkStore ∅ ∅ ∅ ∅ ∅.

Definition string_at (now : Z) (k : string) (s : rstore) : option string :=
  match st_strings s !! k with
  | Some (v, None) => Some v
  | Some (v, Some e) => if now <? e then Some v else None
  | None => None
  end.
Definition list_at (k : string) (s : rstore) : list string := default [] (st_lists s !! k).
Definition zset_at (k : string) (s : rstore) : gmap string spec_float := default ∅ (st_zsets s !! k).
Definition set_at (k : string) (s : rstore) : gset string := default ∅ (st_sets s !! k).
Definition hash_at (k : string) (s : rstore) : gmap string string := default ∅ (st_hashes s !! k).
Definition put_strings (m : gmap string (string * option Z)) (s : rstore) : rstore := mkStore m (st_lists s) (st_zsets s) (st_sets s) (st_hashes s).
Definition put_list (k : string) (l : list string) (s : rstore) : rstore := mkStore (st_strings s) (<[k := l]> (st_lists s)) (st_zsets s) (st_sets s) (st_hashes s).
Definition put_zset (k : string) (z : gmap string spec_float) (s : rstore) : rstore := mkStore (st_strings s) (st_lists s) (<[k := z]> (st_zsets s)) (st_sets s) (st_hashes s).
Definition put_set (k : string) (z : gset string) (s : rstore) : rstore := mkStore (st_strings s) (st_lists s) (st_zsets s) (<[k := z]> (st_sets s)) (st_hashes s).
Definition put_hash (k : string) (h : gmap string string) (s : rstore) : rstore := mkStore (st_strings s) (st_lists s) (st_zsets s) (st_sets s) (<[k := h]> (st_hashes s)).

(** ** Commands *)

Inductive rcmd :=
  | HGET (k f : string) | HSET (k f v : string) | HDEL (k f : string)
  | ZADD (k : string) (score : spec_float) (m : string) | ZREM (k m : string) | ZCARD (k : string)
  | ZRANGEBYSCORE (k : string) (max count : Z)
  | LPUSH (k v : string) | LREM (k v : string) | LLEN (k : string)
  | SADD (k m : string) | SREM (k m : string) | SCARD (k : string) | SRANDMEMBER (k : string) (n : Z)
  | GET (k : string) | SETNX (k v : string) (secs : Z) | SETEX (k v : string) (secs : Z) | DEL (k : string) | EXPIRE (k : string) (secs : Z) | TTL (k : string).

Inductive reply := RNil | RStr (s : string) | RInt (n : Z) | RStrs (l : list string) | ROK | RErr (msg : string).

(** The order of a sorted set: by score, then by member. *)
Definition zle (a b : string * spec_float) : Prop :=
  (flt (snd a) (snd b) || (feq (snd a) (snd b) && String.leb (fst a) (fst b))) = true.
#[export] Instance zle_dec a b : Decision (zle a b).
Proof. unfold zle. apply _. Defined.

(** [ZRANGEBYSCORE k -inf max LIMIT 0 count], [max] an integer. *)
Definition due (z : gmap string spec_float) (max count : Z) : list string :=
  take (Z.to_nat count) (map fst (merge_sort zle (filter (fun p => fle (snd p) (float64 max) = true) (map_to_list z)))).

(** [TTL]: -2 without the key, -1 without an expiry, else the seconds left, to
    the nearest. *)
Definition ttl (now : Z) (s : rstore) (k : string) : Z :=
  match st_strings s !! k with
  | Some (_, None) => -1
  | Some (_, Some e) => if now <? e then ((e - now) / millisecond + 500) / 1000 else -2
  | None => -2
  end.

Section exec.
Variable sample : gset string -> Z -> list string.
Variable now : Z.

Definition b2z (b : bool) : Z := if b then 1 else 0.

Definition exec (c : rcmd) (s : rstore) : reply * rstore :=
  match c with
  | HGET k f => (match hash_at k s !! f with Some v => RStr v | None => RNil end, s)
  | HSET k f v => (RInt (b2z (bool_decide (hash_at k s !! f = None))), put_hash k (<[f := v]> (hash_at k s)) s)
  | HDEL k f => (RInt (b2z (negb (bool_decide (hash_at k s !! f = None)))), put_hash k (delete f (hash_at k s)) s)
  | ZADD k score m => (RInt (b2z (bool_decide (zset_at k s !! m = None))), put_zset k (<[m := score]> (zset_at k s)) s)
  | ZREM k m => (RInt (b2z (negb (bool_decide (zset_at k s !! m = None)))), put_zset k (delete m (zset_at k s)) s)
  | ZCARD k => (RInt (Z.of_nat (size (zset_at k s))), s)
  | ZRANGEBYSCORE k max count => (RStrs (due (zset_at k s) max count), s)
  | LPUSH k v => (RInt (Z.of_nat (length (v :: list_at k s))), put_list k (v :: list_at k s) s)
  | LREM k v => (RInt (Z.of_nat (length (filter (fun x => x = v) (list_at k s)))), put_list k (filter (fun x => x <> v) (list_at k s)) s)
  | LLEN k => (RInt (Z.of_nat (length (list_at k s))), s)
  | SADD k m => (RInt (b2z (negb (bool_decide (m ∈ set_at k s)))), put_set k ({[ m ]} ∪ set_at k s) s)
  | SREM k m => (RInt (b2z (bool_decide (m ∈ set_at k s))), put_set k (set_at k s ∖ {[ m ]}) s)
  | SCARD k => (RInt (Z.of_nat (size (set_at k s))), s)
  | SRANDMEMBER k n => (RStrs (sample (set_at k s) n), s)
  | GET k => (match string_at now k s with Some v => RStr v | None => RNil end, s)
  | SETNX k v secs =>
      match string_at now k s with
      | Some _ => (RInt 0, s)
      | None => (RInt 1, put_strings (<[k := (v, Some (now + secs * second))]> (st_strings s)) s)
      end
  | SETEX k v secs =>
      if secs <=? 0 then (RErr "ERR invalid expire time in setex", s)
      else (ROK, put_strings (<[k := (v, Some (now + secs * second))]> (st_strings s)) s)
  | DEL k => (RInt (b2z (negb (bool_decide (string_at now k s = None)))), put_strings (delete k (st_strings s)) s)
  | EXPIRE k secs =>
      match string_at now k s with
      | Some v => (RInt 1, put_strings (if secs <=? 0 then delete k (st_strings s) else <[k := (v, Some (now + secs * second))]> (st_strings s)) s)
      | None => (RInt 0, s)
      end
  | TTL k => (RInt (ttl now s k), s)
  end.

Fixpoint exec_all (cs : list rcmd) (s : rstore) : list reply * rstore :=
  match cs with
  | [] => ([], s)
  | c :: rest => let (x, s1) := exec c s in let (xs, s2) := exec_all rest s1 in (x :: xs, s2)
  end.
End exec.

(** The effect of commands that only write. *)
Definition effect (sample : gset string -> Z -> list string) (now : Z) (cs : list rcmd) (s : rstore) : rstore := snd (exec_all sample now cs s).

(** ** Servers *)

(** The claim scripts, with the sets and lists they name. *)
Record claimArgs := mkClaimArgs { ca_inprog : string; ca_tasks : string; ca_pending : list string; ca_iters : nat }.

(** One list: pop until an id is new in the set. *)
Fixpoint claimList (dst : string) (iters : nat) (src : string) (s : rstore) : option string * rstore :=
  match iters with
  | O => (None, s)
  | S iters' =>
      match last (list_at src s) with
      | None => (None, s)
      | Some id =>
          let s1 := put_list src (take (length (list_at src s) - 1) (list_at src s)) s in
          let s2 := put_set dst ({[ id ]} ∪ set_at dst s1) s1 in
          if bool_decide (id ∈ set_at dst s1) then claimList dst iters' src s2 else (Some id, s2)
      end
  end.

(** [multiPriorityClaimScript]: the first id of the first list that has one,
    with its body. *)
Fixpoint claimLists (a : claimArgs) (srcs : list string) (s : rstore) : option (string * option string) * rstore :=
  match srcs with
  | [] => (None, s)
  | src :: rest =>
      match claimList (ca_inprog a) (ca_iters a) src s with
      | (Some id, s') => (Some (id, hash_at (ca_tasks a) s' !! id), s')
      | (None, s') => claimLists a rest s'
      end
  end.
Definition multiPriorityClaim (a : claimArgs) (s : rstore) : option (string * option string) * rstore := claimLists a (ca_pending a) s.

(** A round trip of a pipeline and of a script.  An error means that no answer
    came: the commands may have run up to some point. *)
Class Server (R : Type) := {
  round : Z -> list rcmd -> M R (list reply);
  script : claimArgs -> M R (option (string * option string));
  stored : R -> rstore;
  chosen : R -> gset string -> Z -> list string
}.

Class ServerLaws (R : Type) `{Server R} : Prop := {
  round_ok now cs r xs r' : round now cs r = (Ok xs, r') -> (xs, stored r') = exec_all (chosen r) now cs (stored r);
  round_err now cs r e r' : round now cs r = (Err e, r') -> exists k, stored r' = snd (exec_all (chosen r) now (take k cs) (stored r));
  script_ok a r x r' : script a r = (Ok x, r') -> (x, stored r') = multiPriorityClaim a (stored r);
  script_err a r e r' : script a r = (Err e, r') -> stored r' = stored r \/ stored r' = snd (multiPriorityClaim a (stored r));
  chosen_ok r s n : 0 <= n -> NoDup (chosen r s n) /\ (forall m, m ∈ chosen r s n -> m ∈ s) /\ length (chosen r s n) = Nat.min (Z.to_nat n) (size s)
}.

(** Every round trip is answered. *)
Class ServerUp (R : Type) `{Server R} : Prop := {
  round_up now cs r : is_ok (fst (round now cs r)) = true
}.

(** ** Lookups after a write *)

Lemma list_at_put k l s k' : list_at k' (put_list k l s) = if bool_decide (k = k') then l else list_at k' s.
Proof. unfold list_at, put_list. cbn. case_bool_decide; [subst; by rewrite lookup_insert_eq | by rewrite lookup_insert_ne]. Qed.
Lemma zset_at_put k l s k' : zset_at k' (put_zset k l s) = if bool_decide (k = k') then l else zset_at k' s.
Proof. unfold zset_at, put_zset. cbn. case_bool_decide; [subst; by rewrite lookup_insert_eq | by rewrite lookup_insert_ne]. Qed.
Lemma set_at_put k l s k' : set_at k' (put_set k l s) = if bool_decide (k = k') then l else set_at k' s.
Proof. unfold set_at, put_set. cbn. case_bool_decide; [subst; by rewrite lookup_insert_eq | by rewrite lookup_insert_ne]. Qed.
Lemma hash_at_put k l s k' : hash_at k' (put_hash k l s) = if bool_decide (k = k') then l else hash_at k' s.
Proof. unfold hash_at, put_hash. cbn. case_bool_decide; [subst; by rewrite lookup_insert_eq | by rewrite lookup_insert_ne]. Qed.

Lemma exec_all_app sample now a b s : exec_all sample now (a ++ b) s =
  let (xs, s1) := exec_all sample now a s in let (ys, s2) := exec_all sample now b s1 in (xs ++ ys, s2).
Proof.
  revert s. induction a as [|c a IH]; intros s; cbn; [by destruct (exec_all sample now b s)|]. destruct (exec sample now c s) as [x s1]. rewrite IH.
  destruct (exec_all sample now a s1) as [xs s2]. by destruct (exec_all sample now b s2).
Qed.

Lemma sublist_map {A B} (f : A -> B) l k : l `sublist_of` k -> f <$> l `sublist_of` f <$> k.
Proof. induction 1; cbn; by constructor. Qed.

Lemma due_ok z max count : NoDup (due z max count) /\ forall m, m ∈ due z max count -> exists score, z !! m = Some score /\ fle score (float64 max) = true.
Proof.
  unfold due. set (l := merge_sort zle _). assert (l ≡ₚ filter (fun p => fle (snd p) (float64 max) = true) (map_to_list z)) as Hp by apply merge_sort_Permutation.
  assert (NoDup l.*1) as Hnd.
  { rewrite Hp. eapply sublist_NoDup; [apply (NoDup_fst_map_to_list z) | apply sublist_map, sublist_filter]. }
  split.
  - eapply sublist_NoDup; [exact Hnd | apply sublist_take].
  - intros m Hm. apply elem_of_take in Hm as (i & Hi & _). apply list_elem_of_lookup_2, list_elem_of_fmap in Hi as ([m' score] & -> & Hin).
    rewrite Hp in Hin. apply list_elem_of_filter in Hin as [Hle Hin%elem_of_map_to_list]. eauto.
Qed.

(** ** A server in memory

    Its schedule says which round trips are lost before they reach it; when the
    schedule is over all arrive. *)
Module memServer.

Definition state : Type := list bool * rstore.
Definition chooses (s : gset string) (n : Z) : list string := take (Z.to_nat n) (elements s).

Definition trip {A} (f : rstore -> A * rstore) : M state A := fun '(sched, s) =>
  match sched with
  | false :: rest => (Err (ErrExternal "connection lost"), (rest, s))
  | _ => let (x, s') := f s in (Ok x, (tl sched, s'))
  end.

#[export] Instance server : Server state := {|
  round now cs := trip (exec_all chooses now cs);
  script a := trip (multiPriorityClaim a);
  stored := snd;
  chosen _ := chooses
|}.

Lemma trip_ok {A} (f : rstore -> A * rstore) r x r' : trip f r = (Ok x, r') -> (x, snd r') = f (snd r).
Proof. destruct r as [[|[] l] s]; cbn; [|..|done]; destruct (f s); by intros [= <- <-]. Qed.

Lemma trip_err {A} (f : rstore -> A * rstore) r e r' : trip f r = (Err e, r') -> snd r' = snd r.
Proof. destruct r as [[|[] l] s]; cbn; [|..|by intros [= _ <-]]; by destruct (f s). Qed.

Lemma chooses_ok s n : NoDup (chooses s n) /\ (forall m, m ∈ chooses s n -> m ∈ s) /\ length (chooses s n) = Nat.min (Z.to_nat n) (size s).
Proof.
  unfold chooses. split; [|split].
  - eapply sublist_NoDup; [apply (NoDup_elements s) | apply sublist_take].
  - intros m (i & Hi & _)%elem_of_take. by apply elem_of_elements, (list_elem_of_lookup_2 _ i).
  - by rewrite length_take.
Qed.

#[export] Instance laws : ServerLaws state.
Proof.
  split.
  - intros now cs r xs r' E. by apply trip_ok.
  - intros now cs r err r' E. exists 0%nat. by apply trip_err in E.
  - intros a r x r' E. by apply trip_ok.
  - intros a r err r' E. left. by apply trip_err in E.
  - intros r s n _. apply chooses_ok.
Qed.
End memServer.

(** The same without losses. *)
Module upServer.
Definition always {A} (f : rstore -> A * rstore) : M rstore A := fun s => let (x, s') := f s in (Ok x, s').

#[export] Instance server : Server rstore := {|
  round now cs := always (exec_all memServer.chooses now cs);
  script a := always (multiPriorityClaim a);
  stored s := s;
  chosen _ := memServer.chooses
|}.

Lemma always_ok {A} (f : rstore -> A * rstore) r x r' : always f r = (Ok x, r') -> (x, r') = f r.
Proof. unfold always. destruct (f r). by intros [= <- <-]. Qed.

Lemma always_err {A} (f : rstore -> A * rstore) r e r' : always f r <> (Err e, r').
Proof. unfold always. by destruct (f r). Qed.

#[export] Instance laws : ServerLaws rstore.
Proof.
  split.
  - intros now cs r xs r' E. by apply always_ok.
  - intros now cs r err r' E. by apply always_err in E.
  - intros a r x r' E. by apply always_ok.
  - intros a r err r' E. by apply always_err in E.
  - intros r s n _. apply memServer.chooses_ok.
Qed.

#[export] Instance up : ServerUp rstore.
Proof. split. intros now cs r. cbn. unfold always. by destruct (exec_all _ _ _ _). Qed.
End upServer.
