(* ===== verification/RedisTasks.v ===== *)
(** The task repository on Redis ([src/internal/repository/task_repository.go]).

    The state is the server, the three filters and the times of the last
    repairs.  The instant [now] of a call is an argument, as are the ids
    [uuid.NewString] returns; metrics and tracing are left out.  The transitions
    of a task that the two repositories share are those of [TaskRepo]. *)

From Stdlib Require Import SpecFloat.
From stdpp Require Import pretty.
From S2P Require Import Prelude GoTime Domain Keys GoText GoParse Float64 RateLimit Bloom IdemBloom LeaseTable PebbleDB Auth Middleware Backoff TaskRepo.
From S2P Require Import RaftAddr Shards RedisStore.
Import shard.

(** What the process brings along: case mapping, [math.Log], conversions out of
    range, [maphash], the seeds of a filter made at a time, and the generator
    of the backoff. *)
Record redisEnv := mkRedisEnv {
  en_upper : string -> string; en_log : spec_float -> spec_float; en_cvt : Z; en_hash : Z -> string -> Z; en_seeds : Z -> Z * Z; en_intn : Z -> Z
}.

Record taskRedisRepo (R : Type) := mkRedisRepo {
  rt_rdb : R; rt_policy : string; rt_base : Z; rt_max : Z; rt_supplier : StaticShardSupplier;
  rt_idempo : idempotencyBloom; rt_cleanup : idempotencyBloom; rt_ghost : idempotencyBloom; rt_interval : Z; rt_last : gmap string Z
}.
Arguments mkRedisRepo {R}.
Arguments rt_rdb {R}.
Arguments rt_policy {R}.
Arguments rt_base {R}.
Arguments rt_max {R}.
Arguments rt_supplier {R}.
Arguments rt_idempo {R}.
Arguments rt_cleanup {R}.
Arguments rt_ghost {R}.
Arguments rt_interval {R}.
Arguments rt_last {R}.

(** [redis.Nil]. *)
Definition redisNil : error := ErrExternal "redis: nil".

Module redisTasks.

Definition keyTasksHash : string := "codeq:tasks".
Definition keyTTLIndex : string := "codeq:tasks:ttl".
Definition keyLease (id : string) : string := "codeq:lease:" +:+ id.
Definition keyIdempotency (key : string) : string := "codeq:idempo:" +:+ key.
Definition keyQueuePending (cmd : string) (priority : Z) (tenantID shardID : string) : string := QueueKeyPending cmd tenantID shardID priority.
Definition allCommands : list string := [CmdGenerateMaster; CmdGenerateCreative].

(** The seconds of a duration of whole seconds. *)
Definition secs (n : Z) : Z := Z.quot (seconds n) second.
Definition retentionScore (now : Z) : spec_float := float64 (unix (now + taskRetention)).

(** The error a pipeline reports: that of its first failed command. *)
Definition replyErr (x : reply) : option error := match x with RNil => Some redisNil | RErr m => Some (ErrExternal m) | _ => None end.
Fixpoint firstErr (xs : list reply) : option error :=
  match xs with [] => None | x :: rest => match replyErr x with Some e => Some e | None => firstErr rest end end.

Definition strOf (x : reply) : string := match x with RStr s => s | _ => "" end.
Definition intOf (x : reply) : Z := match x with RInt n => n | _ => 0 end.
Definition strsOf (x : reply) : list string := match x with RStrs l => l | _ => [] end.

Section repo.
Context {R : Type} `{Server R} `{JSON}.
Variable E : redisEnv.
Abbreviation Repo := (taskRedisRepo R).

Definition set_rdb (r : R) (t : Repo) : Repo :=
  mkRedisRepo r (rt_policy t) (rt_base t) (rt_max t) (rt_supplier t) (rt_idempo t) (rt_cleanup t) (rt_ghost t) (rt_interval t) (rt_last t).
Definition set_idempo (b : idempotencyBloom) (t : Repo) : Repo :=
  mkRedisRepo (rt_rdb t) (rt_policy t) (rt_base t) (rt_max t) (rt_supplier t) b (rt_cleanup t) (rt_ghost t) (rt_interval t) (rt_last t).
Definition set_cleanup (b : idempotencyBloom) (t : Repo) : Repo :=
  mkRedisRepo (rt_rdb t) (rt_policy t) (rt_base t) (rt_max t) (rt_supplier t) (rt_idempo t) b (rt_ghost t) (rt_interval t) (rt_last t).
Definition set_ghost (b : idempotencyBloom) (t : Repo) : Repo :=
  mkRedisRepo (rt_rdb t) (rt_policy t) (rt_base t) (rt_max t) (rt_supplier t) (rt_idempo t) (rt_cleanup t) b (rt_interval t) (rt_last t).
Definition set_last (l : gmap string Z) (t : Repo) : Repo :=
  mkRedisRepo (rt_rdb t) (rt_policy t) (rt_base t) (rt_max t) (rt_supplier t) (rt_idempo t) (rt_cleanup t) (rt_ghost t) (rt_interval t) l.

Definition NewTaskRepository (rdb : R) (backoffPolicy : string) (backoffBaseSeconds backoffMaxSeconds : Z) (shardSupplier : option StaticShardSupplier) (now : Z) : Repo :=
  let filter n p every := let (a, b) := en_seeds E now in idem.newIdempotencyBloom (en_log E) (en_cvt E) n p every now a b a b in
  mkRedisRepo rdb (if bool_decide (backoffPolicy = "") then "exp_full_jitter" else backoffPolicy)
    (if backoffBaseSeconds <=? 0 then 5 else backoffBaseSeconds) (if backoffMaxSeconds <=? 0 then 900 else backoffMaxSeconds)
    (default NewDefaultShardSupplier shardSupplier)
    (filter 1000000 (S754_finite false 5764607523034235 (-59)) (1800 * second)) (filter 2000000 (S754_finite false 5764607523034235 (-59)) (21600 * second))
    (filter 2000000 (S754_finite false 4951760157141521 (-92)) (21600 * second)) defaultReconcileInterval ∅.

(** ** Round trips *)

Definition roundTrip (now : Z) (cs : list rcmd) : M Repo (list reply) := mlift rt_rdb set_rdb (round now cs).

(** [pipe.Exec] with its error, and the same with [redis.Nil] allowed. *)
Definition execPipe (now : Z) (cs : list rcmd) : M Repo (list reply) :=
  let! xs := roundTrip now cs in
  match firstErr xs with Some e => mthrow e | None => mret xs end.
Definition execPipeNil (now : Z) (cs : list rcmd) : M Repo (list reply) :=
  let! xs := roundTrip now cs in
  match firstErr xs with Some e => if bool_decide (e = redisNil) then mret xs else mthrow e | None => mret xs end.

(** One command whose error is ignored. *)
Definition tryCmd (now : Z) (c : rcmd) : M Repo unit := let! _ := mtry (roundTrip now [c]) in mret tt.

Definition wrapped {A} (msg : string) (m : M Repo A) : M Repo A := fun s =>
  match m s with
  | (Err (Panic p), s') => (Err (Panic p), s')
  | (Err e, s') => (Err (ErrWrap msg e), s')
  | r => r
  end.

Definition bloomHas (get : Repo -> idempotencyBloom) (set : idempotencyBloom -> Repo -> Repo) (now : Z) (key : string) : M Repo bool :=
  mlift get set (idem.MaybeHas (en_log E) (en_cvt E) (en_hash E) now (en_seeds E now) key).
Definition bloomAdd (get : Repo -> idempotencyBloom) (set : idempotencyBloom -> Repo -> Repo) (now : Z) (key : string) : M Repo unit :=
  mlift get set (idem.Add (en_log E) (en_cvt E) (en_hash E) now (en_seeds E now) key).

Definition currentShard (cmd tenantID : string) : M Repo string := fun s => (Ok (CurrentShard (en_upper E) (rt_supplier s) cmd tenantID), s).

(** ** Get *)

(** The body is empty when the field is missing and when the command fails. *)
Definition hgetTask (now : Z) (id : string) : M Repo string :=
  let! r := mtry (roundTrip now [HGET keyTasksHash id]) in
  mret (match r with Ok [x] => strOf x | _ => "" end).

Definition decode (js : string) : M Repo Task :=
  match unmarshal_task js with Some t => mret t | None => mthrow (ErrWrap "unmarshal task" (ErrExternal "sonic")) end.

Definition Get (now : Z) (taskID : string) : M Repo Task :=
  let! js := hgetTask now taskID in
  if bool_decide (js = "") then mthrow (ErrText "not-found") else decode js.

(** ** Enqueue *)

Definition enqueueWithID (now : Z) (id cmd payload : string) (priority : Z) (webhook : string) (maxAttempts visibleAt : Z) (tenantID : string)
  : M Repo (Task * bool) :=
  let priority := normalizePriority priority in
  let scheduled := negb (is_zero visibleAt) && (now <? visibleAt) in
  let task := TaskRepository.newTask now id cmd payload priority webhook maxAttempts tenantID scheduled in
  let! sid := currentShard cmd tenantID in
  let push := if scheduled then ZADD (QueueKeyDelayed cmd tenantID sid) (float64 (unix visibleAt)) id else LPUSH (keyQueuePending cmd priority tenantID sid) id in
  let! xs := wrapped "redis pipeline enqueue"
    (execPipe now [HSET keyTasksHash id (marshal_task task); ZADD keyTTLIndex (retentionScore now) id; push]) in
  mret (task, negb scheduled && (intOf (default RNil (xs !! 2%nat)) =? 1)).

(** [SETNX] of the idempotency key; [true] when the key was free. *)
Definition reserve (now : Z) (idKey id : string) : M Repo bool :=
  let! xs := wrapped "redis SETNX idempotency" (execPipe now [SETNX idKey id (Z.quot taskRetention second)]) in
  mret (intOf (default RNil (head xs)) =? 1).

(** The task the key names: its id, and the task when it can be read. *)
Definition existing (now : Z) (idKey : string) : M Repo (option (res Task)) :=
  let! r := mtry (roundTrip now [GET idKey]) in
  match r with
  | Ok [RStr existingID] => if bool_decide (existingID = "") then mret None else let! t := mtry (Get now existingID) in mret (Some t)
  | _ => mret None
  end.

(** The new task of a reserved key; a failure gives the key back. *)
Definition enqueueReserved (now : Z) (idKey id cmd payload : string) (priority : Z) (webhook : string) (maxAttempts visibleAt : Z) (tenantID : string)
  : M Repo (Task * bool) :=
  let! r := mtry (enqueueWithID now id cmd payload priority webhook maxAttempts visibleAt tenantID) in
  match r with
  | Ok x => mret x
  | Err e => tryCmd now (DEL idKey) ;;! mthrow e
  end.

Definition enqueueIdempotent (newID newID' : string) (now : Z) (cmd payload : string) (priority : Z) (webhook : string) (maxAttempts : Z)
  (idempotencyKey : string) (visibleAt : Z) (tenantID : string) : M Repo (Task * bool) :=
  let idKey := keyIdempotency idempotencyKey in
  let enqueue id := enqueueReserved now idKey id cmd payload priority webhook maxAttempts visibleAt tenantID in
  let addKey := bloomAdd rt_idempo set_idempo now idempotencyKey in
  let! maybe := bloomHas rt_idempo set_idempo now idempotencyKey in
  let! fast :=
    (if maybe then mret None
     else
       let! ok := reserve now idKey newID in
       addKey ;;!
       if ok then let! x := enqueue newID in mret (Some x) else mret None) in
  match fast with
  | Some x => mret x
  | None =>
      let! found := existing now idKey in
      match found with
      | Some (Ok task) => addKey ;;! mret (task, false)
      | _ =>
          (match found with Some _ => tryCmd now (DEL idKey) | None => mret tt end) ;;!
          let! ok := reserve now idKey newID' in
          if ok then let! x := enqueue newID' in addKey ;;! mret x
          else
            let! found := existing now idKey in
            match found with
            | Some (Ok task) => addKey ;;! mret (task, false)
            | _ => mthrow (ErrText "idempotency conflict")
            end
      end
  end.

Definition EnqueueWithReady (newID newID' : string) (now : Z) (cmd payload : string) (priority : Z) (webhook : string) (maxAttempts : Z)
  (idempotencyKey : string) (visibleAt : Z) (tenantID : string) : M Repo (Task * bool) :=
  if bool_decide (TrimSpace idempotencyKey <> "") then enqueueIdempotent newID newID' now cmd payload priority webhook maxAttempts idempotencyKey visibleAt tenantID
  else enqueueWithID now newID cmd payload priority webhook maxAttempts visibleAt tenantID.

Definition Enqueue (newID newID' : string) (now : Z) (cmd payload : string) (priority : Z) (webhook : string) (maxAttempts : Z)
  (idempotencyKey : string) (visibleAt : Z) (tenantID : string) : M Repo Task :=
  let! r := EnqueueWithReady newID newID' now cmd payload priority webhook maxAttempts idempotencyKey visibleAt tenantID in
  mret (fst r).

(** ** Heartbeat, Abandon, Nack *)

Definition Heartbeat (now : Z) (taskID workerID : string) (extendSeconds : Z) : M Repo unit :=
  let! t := Get now taskID in
  if bool_decide (t.(WorkerID) <> workerID) then mthrow (ErrText "not-owner")
  else
    let t' := set_LastKnownLocation LocationInProgress (set_UpdatedAt now (set_LeaseUntil (FormatRFC3339 (now + seconds extendSeconds)) t)) in
    let! _ := execPipe now [EXPIRE (keyLease taskID) (secs extendSeconds); HSET keyTasksHash t.(ID) (marshal_task t'); ZADD keyTTLIndex (retentionScore now) t.(ID)] in
    mret tt.

Definition Abandon (now : Z) (taskID workerID : string) : M Repo unit :=
  let! t := Get now taskID in
  let! sid := currentShard t.(Command) t.(TenantID) in
  if bool_decide (t.(WorkerID) <> workerID) then mthrow (ErrText "not-owner")
  else
    let! _ := execPipe now
      [SREM (QueueKeyInProgress t.(Command) t.(TenantID) sid) taskID;
       LPUSH (keyQueuePending t.(Command) (normalizePriority t.(Priority)) t.(TenantID) sid) taskID;
       DEL (keyLease taskID); HSET keyTasksHash t.(ID) (marshal_task (TaskRepository.abandoned now t)); ZADD keyTTLIndex (retentionScore now) t.(ID)] in
    mret tt.

Definition Nack (now : Z) (taskID workerID : string) (delaySeconds maxAttemptsDefault : Z) (reason : string) : M Repo (Z * bool) :=
  let! t := Get now taskID in
  if bool_decide (workerID <> "") && bool_decide (t.(WorkerID) <> workerID) then mthrow (ErrText "not-owner")
  else if bool_decide (t.(Status) <> StatusInProgress) then mthrow (ErrText "not-in-progress")
  else
    let t := TaskRepository.charge maxAttemptsDefault t in
    let! sid := currentShard t.(Command) t.(TenantID) in
    let inprog := QueueKeyInProgress t.(Command) t.(TenantID) sid in
    if t.(MaxAttempts) <=? t.(Attempts) then
      let reason := if bool_decide (reason = "") then "MAX_ATTEMPTS" else reason in
      let! _ := execPipe now
        [SREM inprog taskID; DEL (keyLease taskID); SADD (QueueKeyDLQ t.(Command) t.(TenantID) sid) taskID;
         HSET keyTasksHash t.(ID) (marshal_task (TaskRepository.to_dlq now reason t)); ZADD keyTTLIndex (retentionScore now) t.(ID)] in
      mret (0, true)
    else
      let delaySeconds := if delaySeconds <? 0 then 0 else delaySeconds in
      let visibleAt := unix (now + seconds delaySeconds) in
      let! _ := execPipe now
        [SREM inprog taskID; DEL (keyLease taskID); ZADD (QueueKeyDelayed t.(Command) t.(TenantID) sid) (float64 visibleAt) taskID;
         HSET keyTasksHash t.(ID) (marshal_task (TaskRepository.to_delayed now t)); ZADD keyTTLIndex (retentionScore now) t.(ID)] in
      mret (delaySeconds, false).

(** ** Repairs *)

Definition shouldRun (now : Z) (cmd tenantID : string) : M Repo bool := fun s =>
  if rt_interval s <=? 0 then (Ok true, s)
  else
    let key := reconcileKey cmd tenantID in
    let last := default 0 (rt_last s !! key) in
    if now - rt_interval s <? last then (Ok false, set_last (<[key := last]> (rt_last s)) s)
    else (Ok true, set_last (<[key := now]> (rt_last s)) s).

(** The delay and the priority of an expired task, from its body if it was read. *)
Definition retry (js : string) : M Repo (Z * Z) := fun s =>
  match unmarshal_task js with
  | Some t =>
      if bool_decide (js = "") then (Ok (0, minPriority), s)
      else match Compute (en_cvt E) (en_intn E) (rt_policy s) (rt_base s) (rt_max s) t.(Attempts) (Some (en_intn E)) with
           | Ok d => (Ok (d, normalizePriority t.(Priority)), s)
           | Err e => (Err e, s)
           end
  | None => (Ok (0, minPriority), s)
  end.

Fixpoint contains (needle s : string) : bool :=
  String.prefix needle s || match s with EmptyString => false | String _ s' => contains needle s' end.

Definition requeueOne (now : Z) (cmd tenantID sid inprog : string) (maxAttemptsDefault : Z) (id js : string) : M Repo unit :=
  let! dp := retry js in
  let! r := mtry (Nack now id "" (fst dp) maxAttemptsDefault "LEASE_EXPIRED") in
  match r with
  | Ok _ => mret tt
  | Err e =>
      if contains "not-in-progress" (error_text e) || contains "not-found" (error_text e) then tryCmd now (SREM inprog id)
      else
        let! _ := wrapped "SREM inprog" (execPipe now [SREM inprog id]) in
        let! _ := wrapped "LPUSH pending" (execPipe now [LPUSH (keyQueuePending cmd (snd dp) tenantID sid) id]) in
        mret tt
  end.

Definition requeueExpired (now : Z) (cmd : string) (inspectLimit maxAttemptsDefault : Z) (tenantID : string) : M Repo Z :=
  let! sid := currentShard cmd tenantID in
  let inprog := QueueKeyInProgress cmd tenantID sid in
  let inspectLimit := if inspectLimit <=? 0 then defaultInspectLimit else inspectLimit in
  let! xs := wrapped "SRANDMEMBER inprog" (execPipeNil now [SRANDMEMBER inprog inspectLimit]) in
  match strsOf (default RNil (head xs)) with
  | [] => mret 0
  | ids =>
      let! ttls := wrapped "pipeline TTL leases" (execPipeNil now (map (fun id => TTL (keyLease id)) ids)) in
      let expired := (filter (fun p => intOf (snd p) <= 0) (zip ids ttls)).*1 in
      let! bodies := (match expired with
                      | [] => mret []
                      | _ => let! r := mtry (roundTrip now (map (HGET keyTasksHash) expired)) in mret (match r with Ok ys => map strOf ys | Err _ => [] end)
                      end) in
      let js i := default "" (bodies !! i) in
      mfor (imap (fun i id => (id, js i)) expired) (fun p => requeueOne now cmd tenantID sid inprog maxAttemptsDefault (fst p) (snd p)) ;;!
      mret (Z.of_nat (length expired))
  end.

(** ** Delayed tasks *)

Definition surfaced (now : Z) (t : Task) : Task :=
  set_UpdatedAt now (set_LeaseUntil "" (set_WorkerID "" (set_LastKnownLocation LocationPending (set_Status StatusPending t)))).

(** The move of the due tasks of [delayed]; [pend] is the list a task goes to. *)
Definition moveDue (now : Z) (delayed : string) (limit : Z) (pend : Task -> string) : M Repo Z :=
  let limit := if limit <=? 0 then 200 else limit in
  let! xs := wrapped "ZRANGEBYSCORE delayed" (execPipeNil now [ZRANGEBYSCORE delayed (unix now) limit]) in
  match strsOf (default RNil (head xs)) with
  | [] => mret 0
  | ids =>
      let! bodies := wrapped "redis pipeline HGET" (execPipeNil now (map (HGET keyTasksHash) ids)) in
      let task p := if bool_decide (strOf (snd p) = "") then None else unmarshal_task (strOf (snd p)) in
      let moves p := ZREM delayed (fst p) :: match task p with Some t => [LPUSH (pend t) (fst p)] | None => [] end in
      let updates := omap (fun p => (fun t => (fst p, surfaced now t)) <$> task p) (zip ids bodies) in
      let! _ := execPipe now (flat_map moves (zip ids bodies)) in
      let! _ := mtry (roundTrip now (flat_map (fun u => [HSET keyTasksHash (fst u) (marshal_task (snd u)); ZADD keyTTLIndex (retentionScore now) (fst u)]) updates)) in
      mret (Z.of_nat (length updates))
  end.

Definition MoveDueDelayed (now : Z) (cmd : string) (limit : Z) : M Repo Z :=
  let! sid := currentShard cmd "" in
  let! s := mget in
  moveDue now (QueueKeyDelayed cmd "" sid) limit
    (fun t => keyQueuePending cmd (normalizePriority t.(Priority)) t.(TenantID) (CurrentShard (en_upper E) (rt_supplier s) cmd t.(TenantID))).

Definition moveDueDelayedForTenant (now : Z) (cmd : string) (limit : Z) (tenantID : string) : M Repo Z :=
  let! sid := currentShard cmd tenantID in
  moveDue now (QueueKeyDelayed cmd tenantID sid) limit (fun t => keyQueuePending cmd (normalizePriority t.(Priority)) tenantID sid).

(** ** Claim *)

Fixpoint repairAll (now : Z) (commands : list string) (inspectLimit maxAttemptsDefault : Z) (tenantID : string) : M Repo unit :=
  match commands with
  | [] => mret tt
  | cmd :: rest =>
      let! _ := MoveDueDelayed now cmd inspectLimit in
      let! _ := (if bool_decide (tenantID <> "") then moveDueDelayedForTenant now cmd inspectLimit tenantID else mret 0) in
      let! run := shouldRun now cmd tenantID in
      let! _ := (if run then requeueExpired now cmd inspectLimit maxAttemptsDefault tenantID else mret 0) in
      repairAll now rest inspectLimit maxAttemptsDefault tenantID
  end.

Definition claimedTask (now : Z) (workerID : string) (leaseSeconds : Z) (t : Task) : Task := TaskRepository.claimed now workerID (FormatRFC3339 (now + seconds leaseSeconds)) t.

(** The lease of a popped task; a failure puts it back. *)
Definition lease (now : Z) (workerID cmd tenantID sid dst : string) (leaseSeconds : Z) (id : string) (t : Task) : M Repo Task :=
  let t' := claimedTask now workerID leaseSeconds t in
  let! r := mtry (execPipe now [SETEX (keyLease id) workerID (secs leaseSeconds); HSET keyTasksHash t.(ID) (marshal_task t'); ZADD keyTTLIndex (retentionScore now) id]) in
  match r with
  | Ok _ => mret t'
  | Err e =>
      tryCmd now (SREM dst id) ;;!
      tryCmd now (LPUSH (keyQueuePending cmd (normalizePriority t.(Priority)) tenantID sid) id) ;;!
      mthrow (ErrWrap "pipeline lease/task/ttl update" e)
  end.

(** [tryPopMulti] with [left] turns to go. *)
Fixpoint tryPop (left : nat) (now : Z) (workerID cmd tenantID sid : string) (leaseSeconds : Z) : M Repo (option Task) :=
  let dst := QueueKeyInProgress cmd tenantID sid in
  let pendingKeys := map (fun p => keyQueuePending cmd p tenantID sid) priorities in
  match left with
  | O => mret None
  | S left' =>
      let! x := wrapped "multi-priority claim script" (mlift rt_rdb set_rdb (script (mkClaimArgs dst keyTasksHash pendingKeys 1))) in
      match x with
      | None => mret None
      | Some (id, body) =>
          if bool_decide (id = "") then mret None
          else
            let js := default "" body in
            let! ghost := bloomHas rt_ghost set_ghost now id in
            if ghost || bool_decide (js = "") then
              bloomAdd rt_ghost set_ghost now id ;;!
              let! _ := mtry (roundTrip now (SREM dst id :: map (fun k => LREM k id) pendingKeys)) in
              tryPop left' now workerID cmd tenantID sid leaseSeconds
            else
              match unmarshal_task js with
              | None => tryCmd now (SREM dst id) ;;! tryPop left' now workerID cmd tenantID sid leaseSeconds
              | Some t => let! t' := lease now workerID cmd tenantID sid dst leaseSeconds id t in mret (Some t')
              end
      end
  end.

Fixpoint popCommands (now : Z) (workerID : string) (commands : list string) (leaseSeconds inspectLimit : Z) (tenantID : string) : M Repo (option Task) :=
  match commands with
  | [] => mret None
  | cmd :: rest =>
      let! sid := currentShard cmd tenantID in
      let! t := tryPop (Z.to_nat inspectLimit) now workerID cmd tenantID sid leaseSeconds in
      match t with Some t => mret (Some t) | None => popCommands now workerID rest leaseSeconds inspectLimit tenantID end
  end.

Definition Claim (now : Z) (workerID : string) (commands : list string) (leaseSeconds inspectLimit maxAttemptsDefault : Z) (tenantID : string)
  : M Repo (option Task) :=
  repairAll now commands inspectLimit maxAttemptsDefault tenantID ;;!
  popCommands now workerID commands leaseSeconds inspectLimit tenantID.

(** ** Counts *)

Definition countCmds (cmd tenantID sid : string) : list (string * rcmd) :=
  map (fun p => (keyQueuePending cmd p tenantID sid, LLEN (keyQueuePending cmd p tenantID sid))) priorities ++
  [(QueueKeyInProgress cmd tenantID sid, SCARD (QueueKeyInProgress cmd tenantID sid)); (QueueKeyDelayed cmd tenantID sid, ZCARD (QueueKeyDelayed cmd tenantID sid));
   (QueueKeyDLQ cmd tenantID sid, SCARD (QueueKeyDLQ cmd tenantID sid))].

Definition AdminQueues (now : Z) : M Repo (gmap string Z) :=
  let! s := mget in
  let cs := flat_map (fun cmd => countCmds cmd "" (CurrentShard (en_upper E) (rt_supplier s) cmd "")) allCommands in
  let! xs := execPipe now cs.*2 in
  mret (fold_left (fun out '(k, x) => <[k := intOf x]> out) (zip cs.*1 xs) ∅).

Definition total (xs : list reply) : Z := fold_left (fun a x => wrap64 (a + intOf x)) xs 0.

Definition QueueStats (now : Z) (cmd tenantID : string) : M Repo QueueStats :=
  let! sid := currentShard cmd tenantID in
  let! xs := execPipe now (countCmds cmd tenantID sid).*2 in
  let at_ i := intOf (default RNil (xs !! i)) in
  mret (mkStats cmd (total (take 10 xs)) (at_ 11%nat) (at_ 10%nat) (at_ 12%nat)).

Definition PendingLength (now : Z) (cmd : string) : M Repo Z :=
  let! sid := currentShard cmd "" in
  let! xs := execPipe now (map (fun p => LLEN (keyQueuePending cmd p "" sid)) priorities) in
  mret (total xs).

(** ** Cleanup *)

(** The removal of a task from its queues; the list only when it may be there. *)
Definition removeCmds (upper : string -> string) (supplier : StaticShardSupplier) (id : string) (t : Task) : list rcmd :=
  let sid := CurrentShard upper supplier t.(Command) t.(TenantID) in
  [HDEL keyTasksHash id; ZREM keyTTLIndex id; DEL (keyLease id)] ++
  (if bool_decide (t.(LastKnownLocation) = "") || bool_decide (t.(LastKnownLocation) = LocationPending)
   then [LREM (keyQueuePending t.(Command) (normalizePriority t.(Priority)) t.(TenantID) sid) id] else []) ++
  [SREM (QueueKeyInProgress t.(Command) t.(TenantID) sid) id; ZREM (QueueKeyDelayed t.(Command) t.(TenantID) sid) id; SREM (QueueKeyDLQ t.(Command) t.(TenantID) sid) id].

(** The ids the filter of cleaned tasks does not know. *)
Fixpoint unseen (now : Z) (ids : list string) : M Repo (list string) :=
  match ids with
  | [] => mret []
  | id :: rest =>
      let! seen := bloomHas rt_cleanup set_cleanup now id in
      let! more := unseen now rest in
      mret (if seen then more else id :: more)
  end.

Definition CleanupExpired (now : Z) (limit before : Z) : M Repo Z :=
  let limit := if limit <=? 0 then 1000 else limit in
  let! xs := execPipeNil now [ZRANGEBYSCORE keyTTLIndex (unix before) limit] in
  match strsOf (default RNil (head xs)) with
  | [] => mret 0
  | ids =>
      let! ids := unseen now ids in
      let! bodies := (match ids with [] => mret [] | _ => wrapped "redis pipeline fetch" (execPipeNil now (map (HGET keyTasksHash) ids)) end) in
      let tasks := omap (fun p => if bool_decide (strOf (snd p) = "") then None else (fun t => (fst p, t)) <$> unmarshal_task (strOf (snd p))) (zip ids bodies) in
      match tasks with
      | [] => mret 0
      | _ =>
          let! s := mget in
          let! _ := wrapped "redis pipeline cleanup" (execPipe now (flat_map (fun p => removeCmds (en_upper E) (rt_supplier s) (fst p) (snd p)) tasks)) in
          mfor tasks (fun p => bloomAdd rt_cleanup set_cleanup now (fst p) ;;! bloomAdd rt_ghost set_ghost now (fst p)) ;;!
          mret (Z.of_nat (length tasks))
      end
  end.
End repo.
End redisTasks.
Import redisTasks.
