(* ===== verification/RedisLease.v ===== *)
(** Leases and idempotency keys on Redis: a task that is in progress under a live
    lease is not handed out again by a claim, whatever round trips fail on the
    way, and a key in force answers with its task. *)

From Stdlib Require Import SpecFloat.
From stdpp Require Import pretty.
From S2P Require Import Prelude GoTime Domain Keys GoText GoParse Float64 RateLimit Bloom IdemBloom LeaseTable PebbleDB Auth Middleware Backoff TaskRepo.
From S2P Require Import RaftAddr Shards RedisStore RedisTasks.
Import shard redisTasks.

Section lease.
Context {R : Type} `{SL : ServerLaws R} `{JL : JSONLaws}.
Variable E : redisEnv.
Variables (now : Z) (me : string).

(** ** The task is held *)

(** In progress in the set [k], with the lease entry [e], in no list and in no
    sorted set but the expiry index; bodies are stored under their own ids. *)
Record held (k : string) (e : string * option Z) (s : rstore) : Prop := {
  hd_inprog : me ∈ set_at k s;
  hd_lease : st_strings s !! keyLease me = Some e;
  hd_live : 0 < ttl now s (keyLease me);
  hd_lists q : me ∉ list_at q s;
  hd_zsets q : q <> keyTTLIndex -> zset_at q s !! me = None;
  hd_bodies f js t : hash_at keyTasksHash s !! f = Some js -> unmarshal_task js = Some t -> t.(ID) = f
}.

(** Commands that leave it so. *)
Definition harmless (c : rcmd) : Prop :=
  match c with
  | SREM _ m => m <> me
  | DEL q | EXPIRE q _ | SETEX q _ _ | SETNX q _ _ => q <> keyLease me
  | LPUSH _ v => v <> me
  | ZADD q _ m => q = keyTTLIndex \/ m <> me
  | HSET q f v => q = keyTasksHash -> forall t, unmarshal_task v = Some t -> t.(ID) = f
  | _ => True
  end.

Section store.
Variables (k : string) (e : string * option Z) (sample : gset string -> Z -> list string).

Lemma ttl_strings s s' q : st_strings s' !! q = st_strings s !! q -> ttl now s' q = ttl now s q.
Proof. intros Hq. unfold ttl. by rewrite Hq. Qed.

Lemma held_strings m s : held k e s -> m !! keyLease me = st_strings s !! keyLease me -> held k e (put_strings m s).
Proof. intros [H1 H2 H3 H4 H5 H6] Hm. split; [done | by cbn; rewrite Hm | by rewrite (ttl_strings s) | done..]. Qed.

Lemma held_list q l s : held k e s -> me ∉ l -> held k e (put_list q l s).
Proof. intros [H1 H2 H3 H4 H5 H6] Hl. split; [done..| |done|done]. intros q'. rewrite list_at_put. by case_bool_decide. Qed.

Lemma held_zset q z s : held k e s -> q = keyTTLIndex \/ z !! me = None -> held k e (put_zset q z s).
Proof.
  intros [H1 H2 H3 H4 H5 H6] Hz. split; [done..| |done]. intros q' Hq. rewrite zset_at_put. case_bool_decide; [subst|by apply H5]. by destruct Hz.
Qed.

Lemma held_set q z s : held k e s -> (me ∈ set_at q s -> me ∈ z) -> held k e (put_set q z s).
Proof. intros [H1 H2 H3 H4 H5 H6] Hz. split; [|done..]. rewrite set_at_put. case_bool_decide; [subst; auto | done]. Qed.

Lemma held_hash q h s : held k e s -> (q = keyTasksHash -> forall f js t, h !! f = Some js -> unmarshal_task js = Some t -> t.(ID) = f) -> held k e (put_hash q h s).
Proof.
  intros [H1 H2 H3 H4 H5 H6] Hh. split; [done..|]. intros f js t. rewrite hash_at_put. case_bool_decide; [subst; by apply Hh | apply H6].
Qed.

Lemma exec_held c s : held k e s -> harmless c -> held k e (snd (exec sample now c s)).
Proof.
  intros Hs Hc. destruct c; cbn [exec snd harmless] in *; try done.
  - apply held_hash; [done|]. intros -> f' js t. rewrite lookup_insert_Some. intros [[<- <-]|[_ Hf]] Hu; [by apply Hc | by apply (hd_bodies _ _ _ Hs f' js)].
  - apply held_hash; [done|]. intros -> f' js t [_ Hf]%lookup_delete_Some. by apply (hd_bodies _ _ _ Hs).
  - apply held_zset; [done|]. destruct (decide (k0 = keyTTLIndex)); [by left|right]. rewrite lookup_insert_ne by (destruct Hc; congruence). by apply Hs.
  - apply held_zset; [done|]. destruct (decide (k0 = keyTTLIndex)); [by left|right]. apply lookup_delete_None. right. by apply Hs.
  - apply held_list; [done|]. apply not_elem_of_cons. split; [congruence | apply Hs].
  - apply held_list; [done|]. intros [_ Hin]%list_elem_of_filter. by apply (hd_lists _ _ _ Hs) in Hin.
  - apply held_set; set_solver.
  - apply held_set; set_solver.
  - destruct (string_at now k0 s); [done|]. cbn. apply held_strings; [done|]. by rewrite lookup_insert_ne.
  - destruct (_ <=? 0); [done|]. apply held_strings; [done|]. by rewrite lookup_insert_ne.
  - apply held_strings; [done|]. by rewrite lookup_delete_ne.
  - destruct (string_at now k0 s); [|done]. cbn. apply held_strings; [done|]. destruct (_ <=? 0); [by rewrite lookup_delete_ne | by rewrite lookup_insert_ne].
Qed.

Lemma exec_all_held cs s : held k e s -> Forall harmless cs -> held k e (snd (exec_all sample now cs s)).
Proof.
  intros Hs Hc. revert s Hs. induction Hc as [|c cs Hc _ IH]; intros s Hs; [done|]. cbn [exec_all]. pose proof (exec_held c s Hs Hc) as H1.
  destruct (exec sample now c s) as [x s1]. specialize (IH s1 H1). by destruct (exec_all sample now cs s1).
Qed.
End store.

(** ** Runs that keep it held *)

Section runs.
Variables (k : string) (e : string * option Z).
Abbreviation Repo := (taskRedisRepo R).

(** [m] keeps the task held and what it returns satisfies [P]. *)
Definition yields {A} (m : M Repo A) (P : A -> Prop) : Prop :=
  forall s, held k e (stored (rt_rdb s)) -> wp m (fun x s' => held k e (stored (rt_rdb s')) /\ match x with Ok a => P a | Err _ => True end) s.

Lemma yields_ret {A} (a : A) (P : A -> Prop) : P a -> yields (mret a) P.
Proof. by intros HP s Hs. Qed.

Lemma yields_throw {A} err (P : A -> Prop) : yields (mthrow err) P.
Proof. by intros s Hs. Qed.

Lemma yields_seq {A B} (m : M Repo A) (f : A -> M Repo B) P Q : yields m P -> (forall a, P a -> yields (f a) Q) -> yields (mbnd m f) Q.
Proof. intros Hm Hf s Hs. apply wp_bind. eapply wp_mono; [by apply Hm|]. intros [a|err] s' [Hs' HP]; [by apply Hf | done]. Qed.

Lemma yields_mono {A} (m : M Repo A) (P Q : A -> Prop) : yields m P -> (forall a, P a -> Q a) -> yields m Q.
Proof. intros Hm HPQ s Hs. eapply wp_mono; [by apply Hm|]. intros [a|err] s' [Hs' HP]; auto. Qed.

Lemma yields_try {A} (m : M Repo A) P : yields m P -> yields (mtry m) (fun x => match x with Ok a => P a | Err _ => True end).
Proof. intros Hm s Hs. apply wp_try. by apply Hm. Qed.

Lemma yields_wrapped {A} msg (m : M Repo A) P : yields m P -> yields (wrapped msg m) P.
Proof. intros Hm s Hs. specialize (Hm s Hs). unfold wp, wrapped in *. by destruct (m s) as [[a|[]] s']. Qed.

Lemma yields_if {A} (b : bool) (m1 m2 : M Repo A) P : yields m1 P -> yields m2 P -> yields (if b then m1 else m2) P.
Proof. by destruct b. Qed.

Lemma yields_for {A} (l : list A) (f : A -> M Repo unit) : (forall x, x ∈ l -> yields (f x) (fun _ => True)) -> yields (mfor l f) (fun _ => True).
Proof.
  induction l as [|x l IH]; intros Hf; [by apply yields_ret|]. cbn [mfor]. eapply yields_seq; [apply Hf; by constructor|]. intros _ _. apply IH.
  intros y Hy. apply Hf. by constructor.
Qed.

(** What does not touch the server. *)
Lemma yields_bloom {A} (get : Repo -> idempotencyBloom) set (m : M idempotencyBloom A) : (forall b s, rt_rdb (set b s) = rt_rdb s) -> yields (mlift get set m) (fun _ => True).
Proof. intros Hset s Hs. apply wp_lift. unfold wp. rewrite Hset. by destruct (fst (m (get s))). Qed.

Lemma yields_shard cmd tenantID : yields (currentShard E cmd tenantID) (fun _ => True).
Proof. by intros s Hs. Qed.

(** A round trip of harmless commands; the replies are those of a store in
    which the task is held. *)
Lemma yields_round cs : Forall harmless cs ->
  yields (roundTrip now cs) (fun xs => exists sample s, held k e s /\ xs = fst (exec_all sample now cs s)).
Proof.
  intros Hc s Hs. unfold roundTrip. apply wp_lift. unfold wp. destruct (round now cs (rt_rdb s)) as [[xs|err] r'] eqn:Er; cbn.
  - apply round_ok in Er. pose proof (exec_all_held k e (chosen (rt_rdb s)) cs _ Hs Hc) as Hh. rewrite <- Er in Hh. split; [done|].
    exists (chosen (rt_rdb s)), (stored (rt_rdb s)). split; [done|]. by rewrite <- Er.
  - apply round_err in Er as [n ->]. split; [|done]. apply exec_all_held; [done|]. by apply Forall_take.
Qed.

Lemma yields_execPipe cs : Forall harmless cs ->
  yields (execPipe now cs) (fun xs => exists sample s, held k e s /\ xs = fst (exec_all sample now cs s)).
Proof. intros Hc. eapply yields_seq; [by apply yields_round|]. intros xs Hx. destruct (firstErr xs); [apply yields_throw | by apply yields_ret]. Qed.

Lemma yields_execPipeNil cs : Forall harmless cs ->
  yields (execPipeNil now cs) (fun xs => exists sample s, held k e s /\ xs = fst (exec_all sample now cs s)).
Proof.
  intros Hc. eapply yields_seq; [by apply yields_round|]. intros xs Hx. destruct (firstErr xs); [|by apply yields_ret]. apply yields_if; [by apply yields_ret | apply yields_throw].
Qed.

Lemma yields_tryCmd c : harmless c -> yields (tryCmd now c) (fun _ => True).
Proof. intros Hc. eapply yields_seq; [apply yields_try, yields_round; by constructor|]. intros x _. by apply yields_ret. Qed.

(** A batch of reads. *)
Lemma exec_all_reads {A} sample (f : A -> rcmd) (g : A -> reply) l s : (forall x, exec sample now (f x) s = (g x, s)) ->
  exec_all sample now (map f l) s = (map g l, s).
Proof. intros Hf. induction l as [|x l IH]; [done|]. cbn [map exec_all]. by rewrite Hf, IH. Qed.

(** A body that was read carries its id. *)
Definition own (id js : string) : Prop := forall t, unmarshal_task js = Some t -> js <> "" -> t.(ID) = id.

Lemma own_body s id : held k e s -> own id (default "" (hash_at keyTasksHash s !! id)).
Proof. intros Hs t Ht Hne. destruct (hash_at keyTasksHash s !! id) as [js|] eqn:Ej; [by apply (hd_bodies _ _ _ Hs id js) | done]. Qed.

Lemma yields_hgetTask id : yields (hgetTask now id) (own id).
Proof.
  eapply yields_seq; [apply yields_try, yields_round; by repeat constructor|]. intros [xs|err] Hx; apply yields_ret; [|by intros t _ ?].
  destruct Hx as (sample & s & Hs & ->). cbn. pose proof (own_body s id Hs) as Ho. by destruct (hash_at keyTasksHash s !! id).
Qed.

Lemma yields_Get id : yields (Get now id) (fun t => t.(ID) = id).
Proof.
  eapply yields_seq; [apply yields_hgetTask|]. intros js Ho. case_bool_decide as Hn; [apply yields_throw|]. unfold decode.
  destruct (unmarshal_task js) as [t|] eqn:Et; [apply yields_ret; by apply Ho | apply yields_throw].
Qed.

Lemma lease_inj a b : keyLease a = keyLease b -> a = b.
Proof. apply app_inj_l. Qed.

(** Storing a task under its own id. *)
Lemma harmless_body f t : t.(ID) = f -> harmless (HSET keyTasksHash f (marshal_task t)).
Proof. intros Hf _ t'. rewrite task_roundtrip. by intros [= <-]. Qed.

Lemma charge_ID n t : (TaskRepository.charge n t).(ID) = t.(ID).
Proof. unfold TaskRepository.charge. destruct (MaxAttempts t <=? 0); [destruct (MaxAttempts (set_MaxAttempts n t) <=? 0) | destruct (MaxAttempts t <=? 0)]; done. Qed.

Lemma yields_Nack id workerID delay maxA reason : id <> me -> yields (Nack E now id workerID delay maxA reason) (fun _ => True).
Proof.
  intros Hid. eapply yields_seq; [apply yields_Get|]. intros t Ht. apply yields_if; [apply yields_throw|]. apply yields_if; [apply yields_throw|].
  cbv zeta. set (t' := TaskRepository.charge maxA t). assert (t'.(ID) = id) as Ht' by (unfold t'; by rewrite charge_ID).
  eapply yields_seq; [apply yields_shard|]. intros sid _. assert (keyLease id <> keyLease me) by (intros ?%lease_inj; done).
  apply yields_if; (eapply yields_seq; [|intros xs _; by apply yields_ret]); apply yields_execPipe;
    repeat (apply Forall_cons; split); try apply Forall_nil; try done; try (by left); try (by right); rewrite Ht'; try (by left); by apply harmless_body.
Qed.

Lemma yields_requeueOne cmd tenantID sid inprog maxA id js : id <> me -> yields (requeueOne E now cmd tenantID sid inprog maxA id js) (fun _ => True).
Proof.
  intros Hid. eapply yields_seq with (P := fun _ => True).
  { intros s Hs. unfold wp, retry. destruct (unmarshal_task js) as [t|]; [|done]. case_bool_decide; [done|]. by destruct (Compute _ _ _ _ _ _ _). }
  intros dp _. eapply yields_seq; [apply yields_try; by apply yields_Nack|]. intros [x|err] _; [by apply yields_ret|]. apply yields_if; [by apply yields_tryCmd|].
  eapply yields_seq; [apply yields_wrapped, yields_execPipe; by repeat constructor|]. intros xs _.
  eapply yields_seq; [apply yields_wrapped, yields_execPipe; by repeat constructor|]. intros ys _. by apply yields_ret.
Qed.

(** The held task is not among the expired ones. *)
Lemma expired_others s ids : held k e s -> me ∉ (filter (fun p => intOf (snd p) <= 0) (zip ids (map (fun id => RInt (ttl now s (keyLease id))) ids))).*1.
Proof.
  intros Hs. induction ids as [|i ids IH]; [apply not_elem_of_nil|]. cbn [map zip zip_with]. rewrite filter_cons. case_decide as Hd; [|done]. cbn.
  apply not_elem_of_cons. split; [|done]. intros <-. cbn in Hd. pose proof (hd_live _ _ _ Hs). lia.
Qed.

Lemma yields_requeueExpired cmd limit maxA tenantID : yields (requeueExpired E now cmd limit maxA tenantID) (fun _ => True).
Proof.
  eapply yields_seq; [apply yields_shard|]. intros sid _. cbv zeta. eapply yields_seq; [apply yields_wrapped, yields_execPipeNil; by repeat constructor|].
  intros xs _. destruct (strsOf (default RNil (head xs))) as [|i ids]; [by apply yields_ret|]. set (l := i :: ids).
  eapply yields_seq; [apply yields_wrapped, yields_execPipeNil; apply Forall_map, Forall_true; done|]. intros ttls (sample & s & Hs & ->).
  rewrite (exec_all_reads sample _ (fun id => RInt (ttl now s (keyLease id)))) by done. cbn [fst]. pose proof (expired_others s l Hs) as Hout.
  set (expired := (filter _ _).*1) in *. eapply yields_seq with (P := fun _ => True).
  { destruct expired; [by apply yields_ret|]. eapply yields_seq; [apply yields_try, yields_round; apply Forall_map, Forall_true; done|]. intros r _. by apply yields_ret. }
  intros bodies _. eapply yields_seq; [apply yields_for|intros _ _; by apply yields_ret]. intros [id js] Hin. apply yields_requeueOne. cbn. intros ->.
  apply elem_of_lookup_imap in Hin as (n & id & [= <- _] & Hn). by apply list_elem_of_lookup_2 in Hn.
Qed.

Lemma yields_shouldRun cmd tenantID : yields (shouldRun now cmd tenantID) (fun _ => True).
Proof. intros s Hs. unfold wp, shouldRun. destruct (_ <=? 0); [done|]. cbv zeta. by destruct (_ <? _). Qed.

(** ** Delayed tasks *)

Lemma own_bodies s ids : held k e s -> Forall (fun p => own (fst p) (strOf (snd p))) (zip ids (map (fun id => match hash_at keyTasksHash s !! id with Some v => RStr v | None => RNil end) ids)).
Proof.
  intros Hs. induction ids as [|i ids IH]; [constructor|]. cbn. constructor; [|done]. cbn. pose proof (own_body s i Hs) as Ho. by destruct (hash_at keyTasksHash s !! i).
Qed.

Lemma yields_moveDue delayed limit pend : delayed <> keyTTLIndex -> yields (moveDue now delayed limit pend) (fun _ => True).
Proof.
  intros Hq. unfold moveDue. cbv zeta. set (lim := if limit <=? 0 then 200 else limit).
  eapply yields_seq; [apply yields_wrapped, yields_execPipeNil; by repeat constructor|]. intros xs (sample & s & Hs & ->). cbn [exec_all exec fst head default strsOf].
  assert (me ∉ due (zset_at delayed s) (unix now) lim) as Hme.
  { intros Hin. apply due_ok in Hin as (score & Hz & _). by rewrite (hd_zsets _ _ _ Hs) in Hz. }
  destruct (due (zset_at delayed s) (unix now) lim) as [|i ids']; [by apply yields_ret|]. set (ids := i :: ids') in *.
  eapply yields_seq; [apply yields_wrapped, yields_execPipeNil; apply Forall_map, Forall_true; done|]. intros bodies (sample' & s' & Hs' & ->).
  rewrite (exec_all_reads sample' _ (fun id => match hash_at keyTasksHash s' !! id with Some v => RStr v | None => RNil end)) by done. cbn [fst].
  pose proof (own_bodies s' ids Hs') as Hown. set (l := zip ids _) in *. rewrite Forall_forall in Hown.
  assert (forall p, p ∈ l -> fst p <> me) as Hne.
  { intros [id x] Hin Heq. cbn in Heq. subst id. apply elem_of_zip_l in Hin. done. }
  eapply yields_seq.
  { apply yields_execPipe. apply Forall_flat_map, Forall_forall. intros p Hp. constructor; [done|].
    destruct (if bool_decide (strOf p.2 = "") then None else unmarshal_task (strOf p.2)); [|constructor]. constructor; [by apply Hne | constructor]. }
  intros ys _. eapply yields_seq; [apply yields_try, yields_round|intros zs _; by apply yields_ret].
  apply Forall_flat_map, Forall_forall. intros u (p & Hp & Eu)%list_elem_of_omap. case_bool_decide as Hn; [done|]. destruct (unmarshal_task (strOf p.2)) as [t|] eqn:Et; [|done].
  injection Eu as <-. cbn [fst snd]. repeat (apply Forall_cons; split); [|by left|by apply Forall_nil]. apply harmless_body. by apply (Hown p Hp t Et).
Qed.

Lemma delayed_not_ttl cmd tenantID sid : QueueKeyDelayed cmd tenantID sid <> keyTTLIndex.
Proof. unfold QueueKeyDelayed, buildQueueKey. intros Heq. discriminate Heq. Qed.

Lemma yields_repairAll commands limit maxA tenantID : yields (repairAll E now commands limit maxA tenantID) (fun _ => True).
Proof.
  induction commands as [|cmd rest IH]; [by apply yields_ret|]. cbn [repairAll]. eapply yields_seq.
  { eapply yields_seq; [apply yields_shard|]. intros sid _. eapply yields_seq with (P := fun _ => True); [by intros s Hs|]. intros s _. apply yields_moveDue, delayed_not_ttl. }
  intros _ _. eapply yields_seq with (P := fun _ => True).
  { apply yields_if; [|by apply yields_ret]. eapply yields_seq; [apply yields_shard|]. intros sid _. apply yields_moveDue, delayed_not_ttl. }
  intros _ _. eapply yields_seq; [apply yields_shouldRun|]. intros run _. eapply yields_seq with (P := fun _ => True); [|by intros _ _].
  apply yields_if; [apply yields_requeueExpired | by apply yields_ret].
Qed.

(** ** The claim script *)

Lemma claimList_held dst n srcq s : held k e s -> held k e (snd (claimList dst n srcq s)) /\ forall id, fst (claimList dst n srcq s) = Some id -> id <> me.
Proof.
  revert s. induction n as [|n IH]; intros s Hs; [done|]. cbn [claimList]. destruct (last (list_at srcq s)) as [id|] eqn:El; [|done].
  assert (id <> me) as Hid.
  { intros ->. apply last_Some in El as [l El]. pose proof (hd_lists _ _ _ Hs srcq) as Hl. rewrite El in Hl. set_solver. }
  cbv zeta. set (s1 := put_list srcq _ s). assert (held k e s1) as H1.
  { apply held_list; [done|]. intros (i & Hi & _)%elem_of_take. apply list_elem_of_lookup_2 in Hi. by apply (hd_lists _ _ _ Hs) in Hi. }
  set (s2 := put_set dst _ s1). assert (held k e s2) as H2 by (apply held_set; set_solver). case_bool_decide; [by apply IH | by split; [|intros ? [= <-]]].
Qed.

Lemma claimLists_held a srcs s : held k e s -> held k e (snd (claimLists a srcs s)) /\
  forall id body, fst (claimLists a srcs s) = Some (id, body) -> id <> me /\ (ca_tasks a = keyTasksHash -> own id (default "" body)).
Proof.
  revert s. induction srcs as [|q srcs IH]; intros s Hs; [done|]. cbn [claimLists]. destruct (claimList_held (ca_inprog a) (ca_iters a) q s Hs) as [H1 H2].
  destruct (claimList (ca_inprog a) (ca_iters a) q s) as [[id|] s']; cbn [fst snd] in *; [|by apply IH]. split; [done|]. intros id' body [= <- <-].
  split; [by apply H2|]. intros ->. by apply own_body.
Qed.

Lemma yields_script a : ca_tasks a = keyTasksHash ->
  yields (mlift rt_rdb set_rdb (script a)) (fun x => forall id body, x = Some (id, body) -> id <> me /\ own id (default "" body)).
Proof.
  intros Ha s Hs. apply wp_lift. unfold wp. destruct (claimLists_held a (ca_pending a) _ Hs) as [H1 H2].
  destruct (script a (rt_rdb s)) as [[x|err] r'] eqn:Er; cbn.
  - apply script_ok in Er. unfold multiPriorityClaim in Er. rewrite <- Er in *. cbn [fst snd] in *. split; [done|]. intros id body Hx. destruct (H2 id body Hx). auto.
  - apply script_err in Er as [-> | ->]; done.
Qed.

(** ** Claim *)

Lemma yields_lease workerID cmd tenantID sid dst secs_ id t : id <> me -> t.(ID) = id ->
  yields (lease now workerID cmd tenantID sid dst secs_ id t) (fun t' => t'.(ID) <> me).
Proof.
  intros Hid Ht. unfold lease. cbv zeta. assert (keyLease id <> keyLease me) by (intros ?%lease_inj; done). rewrite Ht.
  eapply yields_seq; [apply yields_try, yields_execPipe; repeat (apply Forall_cons; split); [done|by apply harmless_body|by left|by apply Forall_nil]|].
  intros [xs|err] _; [apply yields_ret; cbn; by rewrite Ht|]. eapply yields_seq; [by apply yields_tryCmd|]. intros _ _.
  eapply yields_seq; [by apply yields_tryCmd|]. intros _ _. apply yields_throw.
Qed.

Lemma yields_tryPop n workerID cmd tenantID sid secs_ : yields (tryPop E n now workerID cmd tenantID sid secs_) (fun x => forall t, x = Some t -> t.(ID) <> me).
Proof.
  induction n as [|n IH]; [by apply yields_ret|]. cbn [tryPop]. cbv zeta. eapply yields_seq; [apply yields_wrapped; by apply yields_script|].
  intros [[id body]|] Hx; [|by apply yields_ret]. destruct (Hx id body eq_refl) as [Hid Ho]. apply yields_if; [by apply yields_ret|].
  eapply yields_seq; [by apply yields_bloom|]. intros ghost _. destruct (ghost || bool_decide (default "" body = "")) eqn:Eg.
  - eapply yields_seq; [by apply yields_bloom|]. intros _ _. eapply yields_seq; [|intros y _; apply IH]. apply yields_try, yields_round.
    constructor; [done|]. apply Forall_map, Forall_true. done.
  - apply orb_false_iff in Eg as [_ Eg%bool_decide_eq_false]. destruct (unmarshal_task (default "" body)) as [t|] eqn:Et.
    + eapply yields_seq; [apply yields_lease; [exact Hid | by apply Ho]|]. intros t' Ht'. apply yields_ret. by intros ? [= <-].
    + eapply yields_seq; [by apply yields_tryCmd|]. intros _ _. apply IH.
Qed.

Lemma yields_popCommands workerID commands secs_ limit tenantID :
  yields (popCommands E now workerID commands secs_ limit tenantID) (fun x => forall t, x = Some t -> t.(ID) <> me).
Proof.
  induction commands as [|cmd rest IH]; [by apply yields_ret|]. cbn [popCommands]. eapply yields_seq; [apply yields_shard|]. intros sid _.
  eapply yields_seq; [apply yields_tryPop|]. intros [t|] Ht; [by apply yields_ret | apply IH].
Qed.
End runs.

End lease.

(** ** Idempotency keys *)

Section idempotency.
Context {R : Type} `{SL : ServerLaws R} `{JL : JSONLaws} {UP : ServerUp R}.
Variable E : redisEnv.
Abbreviation Repo := (taskRedisRepo R).

Lemma wp_round now cs (Q : res (list reply) -> Repo -> Prop) s :
  (forall r', stored r' = snd (exec_all (chosen (rt_rdb s)) now cs (stored (rt_rdb s))) ->
     Q (Ok (fst (exec_all (chosen (rt_rdb s)) now cs (stored (rt_rdb s))))) (set_rdb r' s)) -> wp (roundTrip now cs) Q s.
Proof.
  intros HQ. unfold roundTrip. apply wp_lift. unfold wp. pose proof (round_up now cs (rt_rdb s)) as Hu.
  destruct (round now cs (rt_rdb s)) as [[xs|err] r'] eqn:Er; [|done]. apply round_ok in Er. cbn. specialize (HQ r'). rewrite <- Er in HQ. by apply HQ.
Qed.

(** The local filter is well-formed and the store is [st]. *)
Definition calm (st : rstore) (s : Repo) : Prop := stored (rt_rdb s) = st /\ idem_wf (en_log E) (en_cvt E) (rt_idempo s).

Lemma wp_reads now cs st (Q : res (list reply) -> Repo -> Prop) s : calm st s ->
  (forall sample, snd (exec_all sample now cs st) = st) ->
  (forall s', calm st s' -> Q (Ok (fst (exec_all (chosen (rt_rdb s)) now cs st))) s') -> wp (roundTrip now cs) Q s.
Proof. intros [<- Hw] Hcs HQ. apply wp_round. intros r' Hr. apply HQ. split; [cbn; by rewrite Hr, Hcs | done]. Qed.

Lemma wp_redisGet now id js t st (Q : res Task -> Repo -> Prop) s : calm st s ->
  hash_at keyTasksHash st !! id = Some js -> unmarshal_task js = Some t -> js <> "" ->
  (forall s', calm st s' -> Q (Ok t) s') -> wp (Get now id) Q s.
Proof.
  intros Hs Hj Ht Hne HQ. unfold Get, hgetTask. wp_step. wp_step. wp_step. apply (wp_reads now _ st); [done|done|]. intros s1 Hs1. cbn [exec_all exec fst]. rewrite Hj.
  wp_step. cbn [strOf]. rewrite bool_decide_eq_false_2 by done. unfold decode. rewrite Ht. by apply HQ.
Qed.

Lemma wp_existing now idKey id js t st (Q : res (option (res Task)) -> Repo -> Prop) s : calm st s ->
  string_at now idKey st = Some id -> id <> "" -> hash_at keyTasksHash st !! id = Some js -> unmarshal_task js = Some t -> js <> "" ->
  (forall s', calm st s' -> Q (Ok (Some (Ok t))) s') -> wp (existing now idKey) Q s.
Proof.
  intros Hs Hk Hid Hj Ht Hne HQ. unfold existing. wp_step. wp_step. apply (wp_reads now _ st); [done|done|]. intros s1 Hs1. cbn [exec_all exec fst]. rewrite Hk.
  rewrite bool_decide_eq_false_2 by done. wp_step. wp_step. apply (wp_redisGet now id js t st); [done..|]. intros s2 Hs2. wp_step. by apply HQ.
Qed.

(** A taken key is not reserved again. *)
Lemma wp_reserve now idKey newID id st (Q : res bool -> Repo -> Prop) s : calm st s -> string_at now idKey st = Some id ->
  (forall s', calm st s' -> Q (Ok false) s') -> wp (reserve now idKey newID) Q s.
Proof.
  intros Hs Hk HQ. unfold reserve. wp_step.
  assert (wp (execPipe now [SETNX idKey newID (Z.quot taskRetention second)]) (fun x s' => x = Ok [RInt 0] /\ calm st s') s) as Hp.
  { unfold execPipe. wp_step. apply (wp_reads now _ st); [done | intros sample; cbn; by rewrite Hk|]. intros s1 Hs1. cbn [exec_all exec fst]. by rewrite Hk. }
  unfold wrapped, wp in *. destruct (execPipe now _ s) as [x s1]. cbn in Hp. destruct Hp as [-> Hs1]. by apply HQ.
Qed.

Lemma wp_bloomHas now key st (Q : res bool -> Repo -> Prop) s : calm st s -> (forall v s', calm st s' -> Q (Ok v) s') -> wp (bloomHas E rt_idempo set_idempo now key) Q s.
Proof.
  intros [Hs Hw] HQ. apply wp_lift. unfold wp. destruct (MaybeHas_total _ _ (en_hash E) now (en_seeds E now) key _ Hw) as (v & b & -> & Hb). by apply HQ.
Qed.

Lemma wp_bloomAdd now key st (Q : res unit -> Repo -> Prop) s : calm st s -> (forall s', calm st s' -> Q (Ok tt) s') -> wp (bloomAdd E rt_idempo set_idempo now key) Q s.
Proof.
  intros [Hs Hw] HQ. apply wp_lift. unfold wp. destruct (Add_total _ _ (en_hash E) now (en_seeds E now) key _ Hw) as (b & -> & Hb). by apply HQ.
Qed.

(** C18. An idempotency key in force on Redis: while the key names a stored task,
    an enqueue under the key on a server that answers returns that task, creates
    none and stores nothing, whatever the local filter remembers. *)
Theorem redis_enqueue_idempotent newID newID' now cmd payload priority webhook maxAttempts idempotencyKey visibleAt tenantID id js t (s : Repo) :
  idem_wf (en_log E) (en_cvt E) (rt_idempo s) -> TrimSpace idempotencyKey <> "" ->
  string_at now (keyIdempotency idempotencyKey) (stored (rt_rdb s)) = Some id -> id <> "" ->
  hash_at keyTasksHash (stored (rt_rdb s)) !! id = Some js -> unmarshal_task js = Some t -> js <> "" ->
  let out := EnqueueWithReady E newID newID' now cmd payload priority webhook maxAttempts idempotencyKey visibleAt tenantID s in
  fst out = Ok (t, false) /\ stored (rt_rdb (snd out)) = stored (rt_rdb s).
Proof.
  intros Hw Hkey Hk Hid Hj Ht Hne. unfold EnqueueWithReady. rewrite bool_decide_eq_true_2 by done. set (st := stored (rt_rdb s)) in *.
  enough (wp (enqueueIdempotent E newID newID' now cmd payload priority webhook maxAttempts idempotencyKey visibleAt tenantID)
    (fun x s' => x = Ok (t, false) /\ stored (rt_rdb s') = st) s) by done.
  unfold enqueueIdempotent. cbv zeta. wp_step. apply (wp_bloomHas now _ st); [by split|]. intros maybe s1 Hs1. wp_step.
  apply (wp_mono _ (fun x s2 => x = Ok None /\ calm st s2)).
  - destruct maybe; [by apply wp_ret|]. wp_step. apply (wp_reserve now _ newID id st); [done..|]. intros s2 Hs2. wp_step. apply (wp_bloomAdd now _ st); [done|].
    intros s3 Hs3. by wp_step.
  - intros x s2 [-> Hs2]. wp_step. apply (wp_existing now _ id js t st); [done..|]. intros s3 Hs3. wp_step. apply (wp_bloomAdd now _ st); [done|].
    intros s4 [Hs4 _]. by wp_step.
Qed.
End idempotency.

(** Runs of a repository with small filters on a server in memory. *)
Module redis_run.
Import memServer upServer.
#[local] Existing Instances framed.codec framed.codec_laws.

Definition env : redisEnv := mkRedisEnv id (fun _ => S754_finite true 5184960683398421 (-50)) 0 (fun seed key => seed * 31 + Z.of_nat (String.length key)) (fun t => (t, t + 1)) (fun n => n - 1).
Definition filter : idempotencyBloom := idem.newIdempotencyBloom (en_log env) 0 10 (float64 0) (1000000 * second) 0 1 2 3 4.
Definition repo (sched : list bool) (s : rstore) : taskRedisRepo state := mkRedisRepo (sched, s) "fixed" 5 900 NewDefaultShardSupplier filter filter filter 0 ∅.

Definition pendingKey : string := QueueKeyPending "demo" "" "default" 3.
Definition inprogKey : string := QueueKeyInProgress "demo" "" "default".
Definition delayedKey : string := QueueKeyDelayed "demo" "" "default".
Definition t0 : Z := 1000 * second.

(** Task [b] waits; task [a] is with worker [w1] until [t0 + 60s]. *)
Definition taskA : Task := claimedTask t0 "w1" 60 (TaskRepository.newTask t0 "a" "demo" "{}" 3 "" 5 "" false).
Definition taskB : Task := TaskRepository.newTask t0 "b" "demo" "{}" 3 "" 5 "" false.
Definition store : rstore :=
  mkStore {[ keyLease "a" := ("w1", Some (t0 + 60 * second)) ]} {[ pendingKey := ["b"] ]} ∅ {[ inprogKey := {[ "a" ]} ]}
    {[ keyTasksHash := {[ "a" := marshal_task taskA; "b" := marshal_task taskB ]} ]}.

Lemma store_held : held (t0 + second) "a" inprogKey ("w1", Some (t0 + 60 * second)) store.
Proof.
  split; [vm_compute; reflexivity.. | | |].
  - intros q. unfold list_at. cbn [store st_lists]. destruct (decide (q = pendingKey)) as [->|Hn]; [rewrite lookup_singleton_eq; cbn; set_solver|].
    rewrite lookup_singleton_ne by done. apply not_elem_of_nil.
  - done.
  - intros f js t. unfold hash_at. cbn [store st_hashes]. rewrite lookup_singleton_eq. cbn [from_option]. unfold id.
    intros [[<- <-]|[_ [<- <-]%lookup_singleton_Some]]%lookup_insert_Some; rewrite task_roundtrip; by intros [= <-].
Qed.

Definition claim (now : Z) (sched : list bool) (s : rstore) := Claim env now "w2" ["demo"] 30 10 5 "" (repo sched s).


(** The claim hands out [b]. *)
Lemma redis_claim_run :
  let out := claim (t0 + second) [] store in
  (match fst out with Ok (Some t) => t.(ID) | _ => "" end) = "b" /\ set_at inprogKey (stored (rt_rdb (snd out))) = {[ "a"; "b" ]} /\
  string_at (t0 + second) (keyLease "b") (stored (rt_rdb (snd out))) = Some "w2".
Proof. vm_compute. split_and!; reflexivity. Qed.

(** Where task [a] is. *)
Definition queued (s : rstore) : bool :=
  bool_decide ("a" ∈ list_at pendingKey s) || bool_decide ("a" ∈ set_at inprogKey s) || bool_decide (is_Some (zset_at delayedKey s !! "a")) ||
  bool_decide ("a" ∈ set_at (QueueKeyDLQ "demo" "" "default") s).

(** An expired task whose body cannot be read for a moment is taken for a
    deleted one: it leaves the in-progress set for no other queue. *)
Lemma lost_read_loses_task :
  let out := claim (t0 + 61 * second) [true; true; true; true; false] store in
  is_ok (fst out) = true /\ queued store = true /\ queued (stored (rt_rdb (snd out))) = false /\
  is_Some (hash_at keyTasksHash (stored (rt_rdb (snd out))) !! "a").
Proof. vm_compute. split_and!; [reflexivity..|by eexists]. Qed.

(** Without the loss it is delayed. *)
Lemma expired_is_delayed :
  let s := stored (rt_rdb (snd (claim (t0 + 61 * second) [] store))) in
  zset_at delayedKey s !! "a" = Some (float64 1066) /\ set_at inprogKey s = {[ "b" ]}.
Proof. vm_compute. split; reflexivity. Qed.

(** A lease with less than half a second to go reads as expired. *)
Lemma lease_ends_early :
  let now := t0 + 59600 * millisecond in
  string_at now (keyLease "a") store = Some "w1" /\ zset_at delayedKey (stored (rt_rdb (snd (claim now [] store)))) !! "a" = Some (float64 1064).
Proof. vm_compute. split; reflexivity. Qed.

(** The key [k] names task [a]. *)
Definition keyed : rstore := put_strings (<[keyIdempotency "k" := ("a", Some (t0 + 600 * second))]> (st_strings store)) store.
Definition again {R} `{Server R} (s : taskRedisRepo R) := EnqueueWithReady env "x" "y" t0 "demo" "{}" 3 "" 5 "k" zero_time "" s.

Lemma redis_enqueue_idempotent_witness :
  let s := mkRedisRepo keyed "fixed" 5 900 NewDefaultShardSupplier filter filter filter 0 ∅ in
  fst (again s) = Ok (taskA, false) /\ stored (rt_rdb (snd (again s))) = stored (rt_rdb s).
Proof.
  apply (redis_enqueue_idempotent (R := rstore) env "x" "y" t0 "demo" "{}" 3 "" 5 "k" zero_time "" "a" (marshal_task taskA) taskA
    (mkRedisRepo keyed "fixed" 5 900 NewDefaultShardSupplier filter filter filter 0 ∅)); [apply newIdempotencyBloom_wf; vm_compute; reflexivity | vm_compute; discriminate | vm_compute; reflexivity | discriminate |
    vm_compute; reflexivity | apply task_roundtrip | vm_compute; discriminate].
Defined.

(** When the body of its task cannot be read for a moment the key is deleted and
    the task is created a second time. *)
Lemma lost_read_duplicates :
  let out := again (repo [true; true; false] keyed) in
  (match fst out with Ok (t, ready) => Some (t.(ID), ready) | Err _ => None end) = Some ("y", false) /\
  list_at pendingKey (stored (rt_rdb (snd out))) = ["y"; "b"] /\ is_Some (hash_at keyTasksHash (stored (rt_rdb (snd out))) !! "a").
Proof. vm_compute. split_and!; [reflexivity..|by eexists]. Qed.

(** A lost read answers that the task does not exist. *)
Lemma lost_read_is_not_found : fst (Get t0 "a" (repo [false] store)) = Err (ErrText "not-found").
Proof. vm_compute. reflexivity. Qed.

(** Abandoning a finished task for no worker makes it pending again. *)
Lemma abandon_revives :
  let done := set_WorkerID "" (set_Status StatusCompleted taskA) in
  let s := mkStore ∅ ∅ ∅ ∅ {[ keyTasksHash := {[ "a" := marshal_task done ]} ]} in
  let out := Abandon env t0 "a" "" (repo [] s) in
  fst out = Ok tt /\ list_at pendingKey (stored (rt_rdb (snd out))) = ["a"] /\
  (Status <$> (hash_at keyTasksHash (stored (rt_rdb (snd out))) !! "a" ≫= unmarshal_task)) = Some StatusPending.
Proof. vm_compute. split_and!; reflexivity. Qed.
End redis_run.
