(* ===== verification/RedisResults.v ===== *)
(** The result repository on Redis ([src/internal/repository/result_repository.go]).

    The state is the server; the supplier of the shards does not change. *)

From Stdlib Require Import SpecFloat.
From stdpp Require Import pretty.
From S2P Require Import Prelude GoTime Domain Keys GoText GoParse Float64 RateLimit Bloom IdemBloom LeaseTable PebbleDB Auth Middleware Backoff TaskRepo ResultRepo.
From S2P Require Import RaftAddr Shards RedisStore RedisTasks.
Import shard.

Module redisResults.

Definition keyResultsHash : string := "codeq:results".

Section repo.
Context {R : Type} `{Server R} `{JSON}.
Variable upper : string -> string.
Variable supplier : StaticShardSupplier.

Definition keyQueueInprog (cmd tenantID : string) : string := QueueKeyInProgress cmd tenantID (CurrentShard upper supplier cmd tenantID).
Definition retention (now : Z) : spec_float := redisTasks.retentionScore now.

Definition wrapped {A} (msg : string) (m : M R A) : M R A := fun s =>
  match m s with
  | (Err (Panic p), s') => (Err (Panic p), s')
  | (Err e, s') => (Err (ErrWrap msg e), s')
  | r => r
  end.

(** [pipe.Exec]: the error of the first failed command is the pipeline's. *)
Definition execPipe (now : Z) (cs : list rcmd) : M R (list reply) :=
  let! xs := round now cs in
  match redisTasks.firstErr xs with Some e => mthrow e | None => mret xs end.
Definition execPipeNil (now : Z) (cs : list rcmd) : M R (list reply) :=
  let! xs := round now cs in
  match redisTasks.firstErr xs with Some e => if bool_decide (e = redisNil) then mret xs else mthrow e | None => mret xs end.

(** A field read whose failure looks like a missing field. *)
Definition hget (now : Z) (k f : string) : M R string :=
  let! r := mtry (round now [HGET k f]) in
  mret (match r with Ok [x] => redisTasks.strOf x | _ => "" end).

Definition decodeTask (js : string) : M R Task :=
  match unmarshal_task js with Some t => mret t | None => mthrow (ErrWrap "unmarshal task" (ErrExternal "sonic")) end.
Definition decodeResult (js : string) : M R ResultRecord :=
  match unmarshal_result js with Some r => mret r | None => mthrow (ErrWrap "unmarshal result" (ErrExternal "sonic")) end.

Definition GetTask (now : Z) (id : string) : M R Task :=
  let! js := hget now redisTasks.keyTasksHash id in
  if bool_decide (js = "") then mthrow (ErrText "not-found") else decodeTask js.

(** The command and the tenant are not used by the code. *)
Definition SaveResult (now : Z) (rec : ResultRecord) : M R unit :=
  let! xs := wrapped "redis HGET task" (execPipeNil now [HGET redisTasks.keyTasksHash (rr_TaskID rec)]) in
  let js := redisTasks.strOf (default RNil (head xs)) in
  if bool_decide (js = "") then mthrow (ErrText "not-found")
  else
    let! t := decodeTask js in
    let t' := set_ResultKey keyResultsHash t in
    let! _ := wrapped "redis write pipeline"
      (execPipe now [HSET keyResultsHash (rr_TaskID rec) (marshal_result rec); HSET redisTasks.keyTasksHash (rr_TaskID rec) (marshal_task t');
                     ZADD redisTasks.keyTTLIndex (retention now) (rr_TaskID rec)]) in
    mret tt.

Definition GetResult (now : Z) (id : string) : M R ResultRecord :=
  let! js := hget now keyResultsHash id in
  if bool_decide (js = "") then mthrow (ErrText "not-found") else decodeResult js.

(** The three return values of the code. *)
Definition GetTaskAndResult (now : Z) (id : string) : M R (option Task * option ResultRecord * option error) :=
  let! r := mtry (wrapped "redis pipeline" (execPipeNil now [HGET redisTasks.keyTasksHash id; HGET keyResultsHash id])) in
  match r with
  | Err e => mret (None, None, Some e)
  | Ok xs =>
      let taskJS := redisTasks.strOf (default RNil (xs !! 0%nat)) in
      let resultJS := redisTasks.strOf (default RNil (xs !! 1%nat)) in
      mret (if bool_decide (taskJS = "") then (None, None, Some (ErrText "task not-found"))
            else match unmarshal_task taskJS with
                 | None => (None, None, Some (ErrWrap "unmarshal task" (ErrExternal "sonic")))
                 | Some t =>
                     if bool_decide (resultJS = "") then (Some t, None, Some (ErrText "result not-found"))
                     else match unmarshal_result resultJS with
                          | None => (Some t, None, Some (ErrWrap "unmarshal result" (ErrExternal "sonic")))
                          | Some rec => (Some t, Some rec, None)
                          end
                 end)
  end.

(** The commands that finish a task. *)
Definition finishCmds (now : Z) (id inprog : string) (t' : Task) : list rcmd :=
  [HSET redisTasks.keyTasksHash id (marshal_task t'); SREM inprog id; DEL (redisTasks.keyLease id); ZADD redisTasks.keyTTLIndex (retention now) id].

Definition UpdateTaskOnComplete (now : Z) (id cmd tenantID status errorMsg : string) : M R unit :=
  let! t := GetTask now id in
  let t' := ResultRepository.finalized now status errorMsg t in
  let! _ := wrapped "redis pipeline" (execPipe now (finishCmds now id (keyQueueInprog cmd tenantID) t')) in
  mret tt.

Definition RemoveFromInprogAndClearLease (now : Z) (id cmd tenantID : string) : M R unit :=
  let! _ := wrapped "redis pipeline" (execPipe now [SREM (keyQueueInprog cmd tenantID) id; DEL (redisTasks.keyLease id)]) in
  mret tt.

(** The replies of a batch read; a missing field makes the pipeline fail. *)
Fixpoint batchTasks (l : list (string * reply)) (out : gmap string Task) : M R (gmap string Task) :=
  match l with
  | [] => mret out
  | (id, x) :: rest =>
      let js := redisTasks.strOf x in
      if bool_decide (js = "") then batchTasks rest out
      else match unmarshal_task js with
           | None => mthrow (ErrWrap ("unmarshal task " +:+ id) (ErrExternal "sonic"))
           | Some t => batchTasks rest (<[id := t]> out)
           end
  end.

Definition GetTasksBatch (now : Z) (ids : list string) : M R (gmap string Task) :=
  match ids with
  | [] => mret ∅
  | _ => let! xs := wrapped "redis pipeline" (execPipe now (map (HGET redisTasks.keyTasksHash) ids)) in batchTasks (zip ids xs) ∅
  end.

(** An id that occurs twice is updated in place twice. *)
Fixpoint updateCmds (now : Z) (updates : list TaskCompleteUpdate) (tasks : gmap string Task) : res (list rcmd) :=
  match updates with
  | [] => Ok []
  | u :: rest =>
      match tasks !! up_ID u with
      | None => Err (ErrText ("task " +:+ up_ID u +:+ " not found"))
      | Some t =>
          let t' := ResultRepository.finalized now (up_Status u) (up_ErrorMsg u) t in
          match updateCmds now rest (<[up_ID u := t']> tasks) with
          | Err e => Err e
          | Ok cs => Ok (finishCmds now (up_ID u) (keyQueueInprog t'.(Command) t'.(TenantID)) t' ++ cs)
          end
      end
  end.

Definition BatchUpdateTasksOnComplete (now : Z) (updates : list TaskCompleteUpdate) : M R unit :=
  match updates with
  | [] => mret tt
  | _ =>
      let! tasks := wrapped "batch fetch tasks" (GetTasksBatch now (map up_ID updates)) in
      match updateCmds now updates tasks with
      | Err e => mthrow e
      | Ok cs => let! _ := wrapped "redis pipeline" (execPipe now cs) in mret tt
      end
  end.

(** The deletions of a batch by in-progress queue; [order] is the order of the map. *)
Definition groups (deletes : list TaskDeleteInfo) : gmap (string * string) (list string) :=
  fold_left (fun m d => let g := (del_Command d, del_TenantID d) in <[g := default [] (m !! g) ++ [del_ID d]]> m) deletes ∅.

Definition BatchRemoveFromInprogAndClearLease (order : list (string * string * list string) -> list (string * string * list string)) (now : Z)
  (deletes : list TaskDeleteInfo) : M R unit :=
  match deletes with
  | [] => mret tt
  | _ =>
      let! _ := wrapped "redis pipeline"
        (execPipe now (flat_map (fun '((cmd, tenantID), ids) => flat_map (fun id => [SREM (keyQueueInprog cmd tenantID) id; DEL (redisTasks.keyLease id)]) ids)
          (order (map_to_list (groups deletes))))) in
      mret tt
  end.
End repo.
End redisResults.
Import redisResults.

Section laws.
Context {R : Type} `{SL : ServerLaws R} `{JL : JSONLaws}.

Lemma exec_hgets sample now k ids s : exec_all sample now (map (HGET k) ids) s =
  (map (fun id => match hash_at k s !! id with Some js => RStr js | None => RNil end) ids, s).
Proof. induction ids as [|id ids IH]; [done|]. cbn [map exec_all exec]. by rewrite IH. Qed.

Lemma firstErr_None xs : redisTasks.firstErr xs = None -> RNil ∉ xs.
Proof. induction xs as [|x xs IH]; [intros _; apply not_elem_of_nil|]. destruct x; cbn; try done; intros Hf%IH; by apply not_elem_of_cons. Qed.

Lemma execPipe_ok now cs (r : R) xs r' : execPipe now cs r = (Ok xs, r') -> redisTasks.firstErr xs = None /\ (xs, stored r') = exec_all (chosen r) now cs (stored r).
Proof.
  unfold execPipe, mbnd. destruct (round now cs r) as [[ys|e] r1] eqn:Er; [|done]. destruct (redisTasks.firstErr ys) eqn:Ef; [done|].
  intros [= <- <-]. split; [done | by apply round_ok].
Qed.

Lemma wrapped_ok {A} msg (m : M R A) r a r' : wrapped msg m r = (Ok a, r') -> m r = (Ok a, r').
Proof. unfold wrapped. destruct (m r) as [[b|[]] s1]; congruence. Qed.

(** A batch that is read has every one of its tasks. *)
Lemma batch_needs_all now ids (r : R) m r' : GetTasksBatch now ids r = (Ok m, r') -> forall id, id ∈ ids -> is_Some (hash_at redisTasks.keyTasksHash (stored r) !! id).
Proof.
  destruct ids as [|i ids]; [intros _ id Hid; by apply not_elem_of_nil in Hid|]. unfold GetTasksBatch, mbnd.
  destruct (wrapped "redis pipeline" _ r) as [[xs|e] r1] eqn:Ew; [|done]. intros _ id Hid. apply wrapped_ok, execPipe_ok in Ew as [Hf Hx].
  rewrite exec_hgets in Hx. apply pair_equal_spec in Hx as [-> _]. apply firstErr_None in Hf.
  destruct (hash_at redisTasks.keyTasksHash (stored r) !! id) as [js|] eqn:Ej; [by eexists|]. destruct Hf.
  apply list_elem_of_fmap. exists id. by rewrite Ej.
Qed.

(** A task that is completed is off the in-progress set, without a lease, and
    its body is the final one. *)
Lemma complete_effect upper supplier now id cmd tenantID status errorMsg (r : R) u r' :
  UpdateTaskOnComplete upper supplier now id cmd tenantID status errorMsg r = (Ok u, r') ->
  id ∉ set_at (keyQueueInprog upper supplier cmd tenantID) (stored r') /\ (st_strings (stored r') !! redisTasks.keyLease id) = None /\
  exists t, unmarshal_task (default "" (hash_at redisTasks.keyTasksHash (stored r) !! id)) = Some t /\
    hash_at redisTasks.keyTasksHash (stored r') !! id = Some (marshal_task (ResultRepository.finalized now status errorMsg t)).
Proof.
  unfold UpdateTaskOnComplete, GetTask, hget, decodeTask, mbnd, mtry.
  destruct (round now [HGET redisTasks.keyTasksHash id] r) as [[xs|e] r1] eqn:Er; cbn; [|done]. apply round_ok in Er. cbn in Er. injection Er as -> Hs1.
  destruct (hash_at redisTasks.keyTasksHash (stored r) !! id) as [js|] eqn:Ej; cbn; [|done]. unfold Datatypes.id. case_bool_decide; [done|].
  destruct (unmarshal_task js) as [t|] eqn:Et; cbn; [|done].
  destruct (wrapped "redis pipeline" _ r1) as [[xs|e] r2] eqn:Ew; [|done]. intros [= _ <-]. apply wrapped_ok, execPipe_ok in Ew as [_ Hx]. cbn in Hx.
  injection Hx as _ ->. cbn. split_and!.
  - unfold set_at. cbn. rewrite lookup_insert_eq. cbn. set_solver.
  - apply lookup_delete_eq.
  - exists t. split; [done|]. unfold hash_at. cbn. rewrite lookup_insert_eq. cbn. by rewrite lookup_insert_eq.
Qed.
End laws.
