(* ===== verification/Migrate.v ===== *)
(** Moving a command between shards ([src/internal/shard/migrator.go] and
    [verifier.go]).

    A Redis server is outside the sources: [Redis] is the client's view of one
    and [RedisLaws] what its commands are documented to do when they succeed.  A
    command that fails may or may not have run, so the laws say nothing of it.
    The state holds the servers by name and the progress reports. *)

From Stdlib Require Import SpecFloat.
From stdpp Require Import pretty.
From S2P Require Import Prelude GoTime Domain Keys GoText GoParse Float64 RateLimit Auth Middleware RaftAddr Shards RedisStore.
Import shard.

(** ** Redis *)

(** [LRANGE]: indices from 0, negative ones from the end, out of range clipped. *)
Definition lrange (l : list string) (start stop : Z) : list string :=
  let n := Z.of_nat (length l) in
  let a := Z.max 0 (if start <? 0 then n + start else start) in
  let b := if stop <? 0 then n + stop else stop in
  take (Z.to_nat (b + 1 - a)) (drop (Z.to_nat a) l).

(** The writes and the counts of pipelines. *)
Inductive wcmd := WHSet (k f v : string) | WZAdd (k : string) (score : spec_float) (member : string).
Inductive ccmd := CLLen (k : string) | CZCard (k : string) | CSCard (k : string).

Definition run_wcmd (s : rstore) (c : wcmd) : rstore :=
  match c with
  | WHSet k f v => put_hash k (<[f := v]> (hash_at k s)) s
  | WZAdd k score member => put_zset k (<[member := score]> (zset_at k s)) s
  end.
Definition run_ccmd (s : rstore) (c : ccmd) : Z :=
  match c with
  | CLLen k => Z.of_nat (length (list_at k s))
  | CZCard k => Z.of_nat (size (zset_at k s))
  | CSCard k => Z.of_nat (size (set_at k s))
  end.

Class Redis (R : Type) := {
  Count : ccmd -> M R Z;
  LRange : string -> Z -> Z -> M R (list string);
  RPush : string -> list string -> M R unit;
  RPop : string -> M R (option string);
  ZRangeWithScores : string -> Z -> Z -> M R (list (string * spec_float));
  ZAdd : string -> list (string * spec_float) -> M R unit;
  ZRem : string -> list string -> M R unit;
  SPopN : string -> Z -> M R (list string);
  SAdd : string -> list string -> M R unit;
  HMGet : string -> list string -> M R (list (option string));
  (** pipelines *)
  ZMScores : string -> list string -> M R (list spec_float);
  Exec : list wcmd -> M R unit;
  Counts : list ccmd -> M R (list Z);
  Ping : M R unit;
  contents : R -> rstore
}.

(** What a command that succeeds has done. *)
Class RedisLaws (R : Type) `{Redis R} : Prop := {
  Count_ok c r x r' : Count c r = (Ok x, r') -> contents r' = contents r /\ x = run_ccmd (contents r) c;
  LRange_ok k a b r x r' : LRange k a b r = (Ok x, r') -> contents r' = contents r /\ x = lrange (list_at k (contents r)) a b;
  RPush_ok k l r x r' : RPush k l r = (Ok x, r') -> contents r' = put_list k (list_at k (contents r) ++ l) (contents r);
  RPop_ok k r x r' : RPop k r = (Ok x, r') ->
    x = last (list_at k (contents r)) /\ contents r' = put_list k (take (length (list_at k (contents r)) - 1) (list_at k (contents r))) (contents r);
  ZRange_ok k n r x r' : ZRangeWithScores k 0 n r = (Ok x, r') ->
    contents r' = contents r /\ NoDup x.*1 /\ (forall m score, (m, score) ∈ x -> zset_at k (contents r) !! m = Some score) /\
    length x = Nat.min (Z.to_nat (n + 1)) (size (zset_at k (contents r)));
  ZAdd_ok k l r x r' : ZAdd k l r = (Ok x, r') ->
    contents r' = put_zset k (fold_left (fun z '(m, score) => <[m := score]> z) l (zset_at k (contents r))) (contents r);
  ZRem_ok k l r x r' : ZRem k l r = (Ok x, r') -> contents r' = put_zset k (foldr delete (zset_at k (contents r)) l) (contents r);
  SPopN_ok k n r x r' : SPopN k n r = (Ok x, r') ->
    NoDup x /\ (forall m, m ∈ x -> m ∈ set_at k (contents r)) /\ length x = Nat.min (Z.to_nat n) (size (set_at k (contents r))) /\
    contents r' = put_set k (set_at k (contents r) ∖ list_to_set x) (contents r);
  SAdd_ok k l r x r' : SAdd k l r = (Ok x, r') -> contents r' = put_set k (set_at k (contents r) ∪ list_to_set l) (contents r);
  HMGet_ok k fs r x r' : HMGet k fs r = (Ok x, r') -> contents r' = contents r /\ x = map (fun f => hash_at k (contents r) !! f) fs;
  ZMScores_ok k ms r x r' : ZMScores k ms r = (Ok x, r') ->
    contents r' = contents r /\ x = map (fun m => default (float64 0) (zset_at k (contents r) !! m)) ms;
  Exec_ok l r x r' : Exec l r = (Ok x, r') -> contents r' = fold_left run_wcmd l (contents r);
  Counts_ok l r x r' : Counts l r = (Ok x, r') -> contents r' = contents r /\ x = map (run_ccmd (contents r)) l
}.

(** ** Migration *)

Record MigrateProgress := mkProgress { mp_QueueType : string; mp_Migrated : Z; mp_Total : Z }.

(** [mo_OnProgress]: there is a callback. *)
Record MigrateOptions := mkMigrateOptions {
  mo_Command : string; mo_TenantID : string; mo_FromShard : string; mo_ToShard : string; mo_BatchSize : Z; mo_DryRun : bool; mo_OnProgress : bool
}.

(** The elapsed time is left out. *)
Record MigrateResult := mkMigrateResult {
  mr_Pending : Z; mr_Delayed : Z; mr_InProg : Z; mr_DLQ : Z; mr_Total : Z; mr_DryRun : bool
}.

Record VerifyResult := mkVerifyResult {
  vr_SourceCounts : gmap string Z; vr_DestCounts : gmap string Z; vr_Healthy : gmap string bool; vr_OK : bool
}.

Record mig (R : Type) := mkMig { mg_servers : gmap string R; mg_progress : list MigrateProgress }.
Arguments mkMig {R}.
Arguments mg_servers {R}.
Arguments mg_progress {R}.

Module migrator.

Definition tasksHashKey : string := "codeq:tasks".
Definition ttlIndexKey : string := "codeq:tasks:ttl".

Section migrate.
Context {R : Type} `{Redis R}.

(** A command on the server behind a client. *)
Definition on {A} (c : string) (m : M R A) : M (mig R) A := fun st =>
  match mg_servers st !! c with
  | None => (Err (Panic "nil client"), st)
  | Some r => let '(x, r') := m r in (x, mkMig (<[c := r']> (mg_servers st)) (mg_progress st))
  end.

Definition wrapped {A} (msg : string) (m : M (mig R) A) : M (mig R) A := fun st =>
  match m st with
  | (Err (Panic p), st') => (Err (Panic p), st')
  | (Err e, st') => (Err (ErrWrap msg e), st')
  | r => r
  end.

Variable opts : MigrateOptions.

Definition report (queueType : string) (migrated total : Z) : M (mig R) unit := fun st =>
  (Ok tt, if mo_OnProgress opts then mkMig (mg_servers st) (mg_progress st ++ [mkProgress queueType migrated total]) else st).

(** The writes of [copyTaskData]: the bodies that exist, with their expiry. *)
Fixpoint copyWrites (ids : list string) (vals : list (option string)) (scores : list spec_float) : list wcmd :=
  match ids, vals, scores with
  | id :: ids', v :: vals', score :: scores' =>
      match v with
      | None | Some "" => []
      | Some js => WHSet tasksHashKey id js :: if flt (float64 0) score then [WZAdd ttlIndexKey score id] else []
      end ++ copyWrites ids' vals' scores'
  | _, _, _ => []
  end.

Definition copyTaskData (src dst : string) (ids : list string) : M (mig R) unit :=
  match ids with
  | [] => mret tt
  | _ =>
      let! vals := wrapped ("HMGET " +:+ tasksHashKey) (on src (HMGet tasksHashKey ids)) in
      let! scores := wrapped "pipeline ZMSCORE" (on src (ZMScores ttlIndexKey ids)) in
      wrapped "pipeline write task data" (on dst (Exec (copyWrites ids vals scores)))
  end.

Section queue.
Variables (src dst srcKey dstKey queueType : string).

(** The count of a queue, an early end, or its loop. *)
Definition counted (cmd : ccmd) (msg : string) (loop : Z -> M (mig R) Z) : M (mig R) Z :=
  let! total := wrapped msg (on src (Count cmd)) in
  if total =? 0 then mret 0
  else if mo_DryRun opts then report queueType total total ;;! mret total
  else loop total.

Fixpoint listLoop (fuel : nat) (total migrated : Z) : M (mig R) Z :=
  if total <=? migrated then mret migrated
  else match fuel with
       | O => mthrow (Panic "out of fuel")
       | S fuel' =>
           let end_ := wrap64 (migrated + mo_BatchSize opts) in
           let batchCount := wrap64 ((if total <? end_ then total else end_) - migrated) in
           let! ids := wrapped ("LRANGE " +:+ srcKey) (on src (LRange srcKey (- batchCount) (-1))) in
           match ids with
           | [] => mret migrated
           | _ =>
               wrapped ("copy task data for " +:+ srcKey) (copyTaskData src dst ids) ;;!
               wrapped ("RPUSH " +:+ dstKey) (on dst (RPush dstKey ids)) ;;!
               mfor ids (fun _ => let! _ := wrapped ("RPOP " +:+ srcKey) (on src (RPop srcKey)) in mret tt) ;;!
               let migrated := wrap64 (migrated + Z.of_nat (length ids)) in
               report queueType migrated total ;;!
               listLoop fuel' total migrated
           end
       end.

Definition migrateList : M (mig R) Z := counted (CLLen srcKey) ("LLEN " +:+ srcKey) (fun total => listLoop (Z.to_nat total) total 0).

Fixpoint zsetLoop (fuel : nat) (total migrated : Z) : M (mig R) Z :=
  if total <=? migrated then mret migrated
  else match fuel with
       | O => mthrow (Panic "out of fuel")
       | S fuel' =>
           let! members := wrapped ("ZRANGEWITHSCORES " +:+ srcKey) (on src (ZRangeWithScores srcKey 0 (mo_BatchSize opts - 1))) in
           match members with
           | [] => mret migrated
           | _ =>
               wrapped ("copy task data for " +:+ srcKey) (copyTaskData src dst members.*1) ;;!
               wrapped ("ZADD " +:+ dstKey) (on dst (ZAdd dstKey members)) ;;!
               wrapped ("ZREM " +:+ srcKey) (on src (ZRem srcKey members.*1)) ;;!
               let migrated := wrap64 (migrated + Z.of_nat (length members)) in
               report queueType migrated total ;;!
               zsetLoop fuel' total migrated
           end
       end.

Definition migrateZSet : M (mig R) Z := counted (CZCard srcKey) ("ZCARD " +:+ srcKey) (fun total => zsetLoop (Z.to_nat total) total 0).

Fixpoint setLoop (fuel : nat) (total migrated : Z) : M (mig R) Z :=
  if total <=? migrated then mret migrated
  else match fuel with
       | O => mthrow (Panic "out of fuel")
       | S fuel' =>
           let! ids := wrapped ("SPOPN " +:+ srcKey) (on src (SPopN srcKey (mo_BatchSize opts))) in
           match ids with
           | [] => mret migrated
           | _ =>
               wrapped ("copy task data for " +:+ srcKey) (copyTaskData src dst ids) ;;!
               wrapped ("SADD " +:+ dstKey) (on dst (SAdd dstKey ids)) ;;!
               let migrated := wrap64 (migrated + Z.of_nat (length ids)) in
               report queueType migrated total ;;!
               setLoop fuel' total migrated
           end
       end.

Definition migrateSet : M (mig R) Z := counted (CSCard srcKey) ("SCARD " +:+ srcKey) (fun total => setLoop (Z.to_nat total) total 0).
End queue.

(** The pending queues from priority [pri] on, and how many tasks were moved. *)
Fixpoint migratePending (src dst : string) (left : nat) (pri moved : Z) : M (mig R) Z :=
  match left with
  | O => mret moved
  | S left' =>
      let! n := wrapped ("migrate pending priority " +:+ pretty pri)
        (migrateList src dst (QueueKeyPending (mo_Command opts) (mo_TenantID opts) (mo_FromShard opts) pri)
           (QueueKeyPending (mo_Command opts) (mo_TenantID opts) (mo_ToShard opts) pri) ("pending:" +:+ pretty pri)) in
      migratePending src dst left' (pri + 1) (wrap64 (moved + n))
  end.

(** Tasks in progress are only counted; outside a dry run they stop the migration. *)
Definition checkInProgress (src : string) : M (mig R) Z :=
  let srcKey := QueueKeyInProgress (mo_Command opts) (mo_TenantID opts) (mo_FromShard opts) in
  let! n := wrapped ("check in-progress queue " +:+ quoted srcKey) (on src (Count (CSCard srcKey))) in
  if (0 <? n) && negb (mo_DryRun opts) then
    mthrow (ErrText ("cannot migrate: " +:+ pretty n +:+ " tasks are still in progress in " +:+ quoted srcKey +:+
                     " (lease keys are not migrated); drain in-progress work before retrying"))
  else if mo_DryRun opts && (0 <? n) then report "inprog" n n ;;! mret n
  else mret 0.
End migrate.

Section ops.
Context {R : Type} `{Redis R}.

Definition withBatch (opts : MigrateOptions) : MigrateOptions :=
  if mo_BatchSize opts <=? 0 then
    mkMigrateOptions (mo_Command opts) (mo_TenantID opts) (mo_FromShard opts) (mo_ToShard opts) 1000 (mo_DryRun opts) (mo_OnProgress opts)
  else opts.

Definition Migrate (clients : ClientMap) (opts0 : MigrateOptions) : M (mig R) MigrateResult :=
  let opts := withBatch opts0 in
  if bool_decide (mo_FromShard opts = mo_ToShard opts) then
    mthrow (ErrText ("source and destination shards are the same: " +:+ quoted (mo_FromShard opts)))
  else match Client clients (mo_FromShard opts), Client clients (mo_ToShard opts) with
       | None, _ => mthrow (ErrText ("source shard " +:+ quoted (mo_FromShard opts) +:+ " not found"))
       | _, None => mthrow (ErrText ("destination shard " +:+ quoted (mo_ToShard opts) +:+ " not found"))
       | Some src, Some dst =>
           let key (f : string -> string -> string -> string) (shardID : string) := f (mo_Command opts) (mo_TenantID opts) shardID in
           let! pending := migratePending opts src dst 10 0 0 in
           let! delayed := wrapped "migrate delayed"
             (migrateZSet opts src dst (key QueueKeyDelayed (mo_FromShard opts)) (key QueueKeyDelayed (mo_ToShard opts)) "delayed") in
           let! inprog := checkInProgress opts src in
           let! dlq := wrapped "migrate DLQ"
             (migrateSet opts src dst (key QueueKeyDLQ (mo_FromShard opts)) (key QueueKeyDLQ (mo_ToShard opts)) "dlq") in
           mret (mkMigrateResult pending delayed inprog dlq (wrap64 (wrap64 (wrap64 (pending + delayed) + inprog) + dlq)) (mo_DryRun opts))
       end.

(** ** Verification *)

Definition queueCounts (command tenantID shardID : string) : list ccmd :=
  map (fun pri => CLLen (QueueKeyPending command tenantID shardID pri)) (seqZ 0 10) ++
  [CZCard (QueueKeyDelayed command tenantID shardID); CSCard (QueueKeyInProgress command tenantID shardID); CSCard (QueueKeyDLQ command tenantID shardID)].

Definition sum64 (l : list Z) : Z := fold_left (fun a n => wrap64 (a + n)) l 0.

Definition countQueueTasks (c command tenantID shardID : string) : M (mig R) (gmap string Z) :=
  let! ns := wrapped ("pipeline count for command=" +:+ command +:+ " shard=" +:+ shardID) (on c (Counts (queueCounts command tenantID shardID))) in
  let nth k := default 0 (ns !! k) in
  mret {[ "pending" := sum64 (take 10 ns); "delayed" := nth 10%nat; "inprog" := nth 11%nat; "dlq" := nth 12%nat ]}.

Fixpoint HealthCheck (clients : ClientMap) (ids : list string) : M (mig R) (gmap string bool) :=
  match ids with
  | [] => mret ∅
  | sid :: rest =>
      let! ok := match Client clients sid with Some c => mtry (on c Ping) | None => mret (Err (Panic "nil client")) end in
      let! m := HealthCheck clients rest in
      mret (<[sid := is_ok ok]> m)
  end.

Definition Verify (order : list (string * string) -> list (string * string)) (clients : ClientMap)
  (command tenantID fromShard toShard : string) : M (mig R) VerifyResult :=
  if negb (HasShard clients fromShard) then mthrow (ErrText ("source shard " +:+ quoted fromShard +:+ " not found in client map"))
  else if negb (HasShard clients toShard) then mthrow (ErrText ("destination shard " +:+ quoted toShard +:+ " not found in client map"))
  else match Client clients fromShard, Client clients toShard with
       | Some src, Some dst =>
           let! sc := wrapped "count source tasks" (countQueueTasks src command tenantID fromShard) in
           let! dc := wrapped "count destination tasks" (countQueueTasks dst command tenantID toShard) in
           let! healthy := HealthCheck clients (ShardIDs order clients) in
           let remaining := sum64 (map_to_list sc).*2 in
           let allHealthy := forallb snd (map_to_list healthy) in
           mret (mkVerifyResult sc dc healthy ((remaining =? 0) && allHealthy))
       | _, _ => mthrow (Panic "nil client")
       end.
End ops.
End migrator.
Import migrator.

(** ** Outcomes

    [world]: what the servers store.  [fine Q]: the run ended with [Q], or some
    command failed. *)

(** Every command succeeds. *)
Class RedisUp (R : Type) `{Redis R} : Prop := {
  Count_up c r : is_ok (fst (Count c r)) = true;
  LRange_up k a b r : is_ok (fst (LRange k a b r)) = true;
  RPush_up k l r : is_ok (fst (RPush k l r)) = true;
  RPop_up k r : is_ok (fst (RPop k r)) = true;
  ZRange_up k a b r : is_ok (fst (ZRangeWithScores k a b r)) = true;
  ZAdd_up k l r : is_ok (fst (ZAdd k l r)) = true;
  ZRem_up k l r : is_ok (fst (ZRem k l r)) = true;
  SPopN_up k n r : is_ok (fst (SPopN k n r)) = true;
  SAdd_up k l r : is_ok (fst (SAdd k l r)) = true;
  HMGet_up k l r : is_ok (fst (HMGet k l r)) = true;
  ZMScores_up k l r : is_ok (fst (ZMScores k l r)) = true;
  Exec_up l r : is_ok (fst (Exec l r)) = true;
  Counts_up l r : is_ok (fst (Counts l r)) = true
}.

Abbreviation servers := (gmap string rstore).
Definition srv (w : servers) (c : string) : rstore := default empty_store (w !! c).
Definition lst (w : servers) (c k : string) : list string := list_at k (srv w c).
Definition zst (w : servers) (c k : string) : gmap string spec_float := zset_at k (srv w c).
Definition sst (w : servers) (c k : string) : gset string := set_at k (srv w c).
Definition body (w : servers) (c id : string) : option string := hash_at tasksHashKey (srv w c) !! id.
Definition expiry (w : servers) (c id : string) : option spec_float := zst w c ttlIndexKey !! id.

Lemma srv_insert w c s c' : srv (<[c := s]> w) c' = if bool_decide (c = c') then s else srv w c'.
Proof. unfold srv. case_bool_decide as E; [subst; by rewrite lookup_insert_eq | by rewrite lookup_insert_ne]. Qed.

Lemma insert_srv w c : is_Some (w !! c) -> <[c := srv w c]> w = w.
Proof. intros [s E]. apply insert_id. unfold srv. by rewrite E. Qed.

Section triples.
Context {R : Type} `{RL : RedisLaws R}.

Definition world (st : mig R) : servers := contents <$> mg_servers st.

(** [Pre] to [Post], or a command failed, or [stop]. *)
Definition triple {A} (stop : Prop) (Pre : servers -> Prop) (m : M (mig R) A) (Post : A -> servers -> Prop) : Prop :=
  forall st, Pre (world st) -> wp m (fun x st' => match x with Ok a => Post a (world st') | Err _ => ~ RedisUp R \/ stop end) st.

Lemma triple_bind {A B} stop Pre (m : M (mig R) A) Mid (k : A -> M (mig R) B) Post :
  triple stop Pre m Mid -> (forall a, triple stop (Mid a) (k a) Post) -> triple stop Pre (mbnd m k) Post.
Proof. intros Hm Hk st Hp. apply wp_bind. eapply wp_mono; [by apply Hm|]. intros [a|e] st'; [apply Hk | done]. Qed.

Lemma triple_ret {A} stop (Pre : servers -> Prop) (a : A) Post : (forall w, Pre w -> Post a w) -> triple stop Pre (mret a) Post.
Proof. intros HP st Hp. by apply HP. Qed.

Lemma triple_wrapped {A} stop Pre msg (m : M (mig R) A) Post : triple stop Pre m Post -> triple stop Pre (wrapped msg m) Post.
Proof. intros Hm st Hp. specialize (Hm st Hp). unfold wp, wrapped in *. by destruct (m st) as [[a|[]] st']. Qed.

Lemma triple_conseq {A} stop (Pre Pre' : servers -> Prop) (m : M (mig R) A) (Post Post' : A -> servers -> Prop) :
  triple stop Pre m Post -> (forall w, Pre' w -> Pre w) -> (forall a w, Post a w -> Post' a w) -> triple stop Pre' m Post'.
Proof. intros Hm Hp Hq st HP. eapply wp_mono; [by apply Hm, Hp|]. intros [a|e] st'; [apply Hq | done]. Qed.

Lemma triple_at {A} stop (Pre : servers -> Prop) (m : M (mig R) A) Post : (forall w, Pre w -> triple stop (eq w) m Post) -> triple stop Pre m Post.
Proof. intros Hm st Hp. by apply (Hm _ Hp). Qed.

(** A statement that only learns a fact. *)
Lemma triple_pure {A} stop (P : Prop) (Pre : servers -> Prop) (m : M (mig R) A) Post :
  (P -> triple stop Pre m Post) -> triple stop (fun w => P /\ Pre w) m Post.
Proof. intros Hm st [HP Hw]. by apply Hm. Qed.

Lemma triple_report stop opts q a b w : triple stop (eq w) (report opts q a b) (fun _ w' => w' = w).
Proof. intros st ->. unfold wp, report. cbn. by destruct (mo_OnProgress opts). Qed.

Lemma triple_on {A} stop c (m : M R A) (f : A -> rstore -> rstore) (P : rstore -> A -> Prop) w :
  is_Some (w !! c) ->
  (forall r x r', m r = (Ok x, r') -> contents r' = f x (contents r) /\ P (contents r) x) ->
  (RedisUp R -> forall r, is_ok (fst (m r)) = true) ->
  triple stop (eq w) (on c m) (fun x w' => w' = <[c := f x (srv w c)]> w /\ P (srv w c) x).
Proof.
  intros [s Hc] Hok Hup st ->. unfold wp, on, world in *. rewrite lookup_fmap in Hc. destruct (mg_servers st !! c) as [r|] eqn:Er; [|done].
  injection Hc as <-. assert (srv (contents <$> mg_servers st) c = contents r) as Es by (unfold srv; by rewrite lookup_fmap, Er).
  destruct (m r) as [[x|e] r'] eqn:Em; cbn.
  - destruct (Hok _ _ _ Em) as [Hf HP]. by rewrite Es, fmap_insert, Hf.
  - left. intros U. specialize (Hup U r). by rewrite Em in Hup.
Qed.

(** A command that only reads. *)
Lemma triple_read {A} stop c (m : M R A) (g : rstore -> A -> Prop) w :
  is_Some (w !! c) ->
  (forall r x r', m r = (Ok x, r') -> contents r' = contents r /\ g (contents r) x) ->
  (RedisUp R -> forall r, is_ok (fst (m r)) = true) ->
  triple stop (eq w) (on c m) (fun x w' => g (srv w c) x /\ w = w').
Proof.
  intros Hc Hok Hup. eapply triple_conseq; [apply (triple_on stop c m (fun _ s => s) g w Hc); [|done] | done |].
  - intros r x r' E. by apply Hok.
  - intros x w' [-> Hg]. by rewrite insert_srv.
Qed.
End triples.

(** ** Effects

    What a part of a migration from [src] to [dst] does besides its queues:
    the bodies and expiries of [ids] are at [dst], those of [src] stay, and the
    lists, sorted sets and sets outside [L], [Z] and [S] are untouched. *)

Section effects.
Variables (src dst : string).

Definition Copied (w w' : servers) (ids : list string) : Prop :=
  (forall id, body w' src id = body w src id) /\ (forall id, expiry w' src id = expiry w src id) /\
  forall id b, body w src id = Some b -> b <> "" ->
    (id ∈ ids \/ body w dst id = Some b -> body w' dst id = Some b) /\
    forall e, expiry w src id = Some e -> flt (float64 0) e = true ->
      id ∈ ids \/ expiry w dst id = Some e -> expiry w' dst id = Some e.

Record Eff (L Z S : list (string * string)) (ids : list string) (w w' : servers) : Prop := {
  eff_dom : forall c, is_Some (w !! c) -> is_Some (w' !! c);
  eff_copied : Copied w w' ids;
  eff_lists : forall c k, (c, k) ∉ L -> lst w' c k = lst w c k;
  eff_zsets : forall c k, (c, k) <> (dst, ttlIndexKey) -> (c, k) ∉ Z -> zst w' c k = zst w c k;
  eff_sets : forall c k, (c, k) ∉ S -> sst w' c k = sst w c k
}.

Lemma Copied_refl w : Copied w w [].
Proof. split; [done|]. split; [done|]. intros id b Hb Hne. split; [by intros [?%elem_of_nil|?] | by intros e _ _ [?%elem_of_nil|?]]. Qed.

Lemma Copied_trans w1 w2 w3 a b : Copied w1 w2 a -> Copied w2 w3 b -> Copied w1 w3 (a ++ b).
Proof.
  intros (Hb1 & He1 & H1) (Hb2 & He2 & H2). split; [intros id; by rewrite Hb2|]. split; [intros id; by rewrite He2|].
  intros id x Hx Hne. destruct (H1 id x Hx Hne) as [Hb Ht]. rewrite <- Hb1 in Hx. destruct (H2 id x Hx Hne) as [Hb' Ht']. split.
  - rewrite elem_of_app. intros [[?|?]|?]; apply Hb'; auto.
  - intros e He Hpos. rewrite elem_of_app. assert (expiry w2 src id = Some e) as He' by by rewrite He1.
    intros [[?|?]|?]; apply Ht'; auto.
Qed.

Lemma Eff_refl L Z S w : Eff L Z S [] w w.
Proof. split; auto using Copied_refl. Qed.

Lemma Eff_trans L Z S a b w1 w2 w3 : Eff L Z S a w1 w2 -> Eff L Z S b w2 w3 -> Eff L Z S (a ++ b) w1 w3.
Proof.
  intros [D1 C1 L1 Z1 S1] [D2 C2 L2 Z2 S2]. split; eauto using Copied_trans.
  - intros c k Hn. by rewrite L2, L1. 
  - intros c k Ht Hn. by rewrite Z2, Z1.
  - intros c k Hn. by rewrite S2, S1.
Qed.

Lemma Eff_weaken L Z S L' Z' S' a b w w' : L ⊆ L' -> Z ⊆ Z' -> S ⊆ S' -> b ⊆ a -> Eff L Z S a w w' -> Eff L' Z' S' b w w'.
Proof.
  intros HL HZ HS Hab [D (Hb & He & C) HL' HZ' HS']. split; [done| |..]; [|intros c k Hn; auto..].
  split; [done|]. split; [done|]. intros id x Hx Hne. destruct (C id x Hx Hne) as [C1 C2]. split; [|intros e E Hp]; intros [?|?]; eauto.
Qed.

Lemma Eff_seq L Z S a b ids w1 w2 w3 : Eff L Z S a w1 w2 -> Eff L Z S b w2 w3 -> ids ⊆ a ++ b -> Eff L Z S ids w1 w3.
Proof. intros H1 H2 Hi. eapply Eff_weaken; [done..|exact Hi | by eapply Eff_trans]. Qed.

(** A write to one queue. *)
Lemma Eff_put_list w c k l : is_Some (w !! c) -> Eff [(c, k)] [] [] [] w (<[c := put_list k l (srv w c)]> w).
Proof.
  intros Hc. assert (forall c', hash_at tasksHashKey (srv (<[c := put_list k l (srv w c)]> w) c') = hash_at tasksHashKey (srv w c')) as Hh.
  { intros c'. rewrite srv_insert. by case_bool_decide; subst. }
  assert (forall c' k', zst (<[c := put_list k l (srv w c)]> w) c' k' = zst w c' k') as Hz.
  { intros c' k'. unfold zst. rewrite srv_insert. by case_bool_decide; subst. }
  split.
  - intros c' ?. rewrite lookup_insert_is_Some. destruct (decide (c = c')); auto.
  - unfold Copied, body, expiry. setoid_rewrite Hh. setoid_rewrite Hz. apply Copied_refl.
  - intros c' k' Hn. unfold lst. rewrite srv_insert. case_bool_decide as E; [subst|done]. rewrite list_at_put. case_bool_decide; [|done].
    subst. by rewrite list_elem_of_singleton in Hn.
  - intros c' k' _ _. apply Hz.
  - intros c' k' _. unfold sst. rewrite srv_insert. by case_bool_decide; subst.
Qed.

Lemma Eff_put_zset w c k z : is_Some (w !! c) -> k <> ttlIndexKey -> Eff [] [(c, k)] [] [] w (<[c := put_zset k z (srv w c)]> w).
Proof.
  intros Hc Hk. assert (forall c', hash_at tasksHashKey (srv (<[c := put_zset k z (srv w c)]> w) c') = hash_at tasksHashKey (srv w c')) as Hh.
  { intros c'. rewrite srv_insert. by case_bool_decide; subst. }
  assert (forall c' k', (c', k') <> (c, k) -> zst (<[c := put_zset k z (srv w c)]> w) c' k' = zst w c' k') as Hz.
  { intros c' k' Hn. unfold zst. rewrite srv_insert. case_bool_decide; [|done]. rewrite zset_at_put. case_bool_decide; congruence. }
  assert (forall c', zst (<[c := put_zset k z (srv w c)]> w) c' ttlIndexKey = zst w c' ttlIndexKey) as Ht by (intros c'; apply Hz; congruence).
  split.
  - intros c' ?. rewrite lookup_insert_is_Some. destruct (decide (c = c')); auto.
  - unfold Copied, body, expiry. setoid_rewrite Hh. setoid_rewrite Ht. apply Copied_refl.
  - intros c' k' _. unfold lst. rewrite srv_insert. by case_bool_decide; subst.
  - intros c' k' _ Hn. apply Hz. by rewrite list_elem_of_singleton in Hn.
  - intros c' k' _. unfold sst. rewrite srv_insert. by case_bool_decide; subst.
Qed.

Lemma Eff_put_set w c k z : is_Some (w !! c) -> Eff [] [] [(c, k)] [] w (<[c := put_set k z (srv w c)]> w).
Proof.
  intros Hc. assert (forall c', hash_at tasksHashKey (srv (<[c := put_set k z (srv w c)]> w) c') = hash_at tasksHashKey (srv w c')) as Hh.
  { intros c'. rewrite srv_insert. by case_bool_decide; subst. }
  assert (forall c' k', zst (<[c := put_set k z (srv w c)]> w) c' k' = zst w c' k') as Hz.
  { intros c' k'. unfold zst. rewrite srv_insert. by case_bool_decide; subst. }
  split.
  - intros c' ?. rewrite lookup_insert_is_Some. destruct (decide (c = c')); auto.
  - unfold Copied, body, expiry. setoid_rewrite Hh. setoid_rewrite Hz. apply Copied_refl.
  - intros c' k' _. unfold lst. rewrite srv_insert. by case_bool_decide; subst.
  - intros c' k' _ _. apply Hz.
  - intros c' k' Hn. unfold sst. rewrite srv_insert. case_bool_decide as E; [subst|done]. rewrite set_at_put. case_bool_decide; [|done].
    subst. by rewrite list_elem_of_singleton in Hn.
Qed.
End effects.

(** What the writes of a copy leave: each body and expiry is the old one or the
    source's, and the source's where the task has a body. *)
Lemma copyWrites_run (hs : gmap string string) (zs : gmap string spec_float) ids s :
  let s' := fold_left run_wcmd (copyWrites ids (map (fun id => hs !! id) ids) (map (fun id => default (float64 0) (zs !! id)) ids)) s in
  let h' := hash_at tasksHashKey s' in let z' := zset_at ttlIndexKey s' in
  (forall k, list_at k s' = list_at k s) /\ (forall k, set_at k s' = set_at k s) /\ (forall k, k <> ttlIndexKey -> zset_at k s' = zset_at k s) /\
  (forall id, h' !! id = hash_at tasksHashKey s !! id \/ h' !! id = hs !! id) /\
  (forall id, z' !! id = zset_at ttlIndexKey s !! id \/ z' !! id = zs !! id) /\
  forall id b, hs !! id = Some b -> b <> "" -> id ∈ ids ->
    h' !! id = Some b /\ forall e, zs !! id = Some e -> flt (float64 0) e = true -> z' !! id = Some e.
Proof.
  revert s. induction ids as [|id ids IH]; intros s; [cbn; split_and!; auto; by intros ?? _ _ ?%elem_of_nil|].
  destruct (decide (default "" (hs !! id) = "")) as [Enone|Hsome].
  { cbn [map copyWrites]. replace (match hs !! id with None | Some "" => [] | Some _ => _ end) with (@nil wcmd) by (by destruct (hs !! id) as [[]|]).
    cbn [app]. destruct (IH s) as (Hl & Hs & Hz & Hh & Ht & Hm). split_and!; auto.
    intros id' b Hb Hne [->|?]%elem_of_cons; [by rewrite Hb in Enone | by apply Hm]. }
  destruct (hs !! id) as [js|] eqn:Ejs; [|done]. cbn in Hsome.
  set (score := default (float64 0) (zs !! id)).
  set (s1 := fold_left run_wcmd (WHSet tasksHashKey id js :: if flt (float64 0) score then [WZAdd ttlIndexKey score id] else []) s).
  assert (fold_left run_wcmd (copyWrites (id :: ids) (map (fun id => hs !! id) (id :: ids)) (map (fun id => default (float64 0) (zs !! id)) (id :: ids))) s =
    fold_left run_wcmd (copyWrites ids (map (fun id => hs !! id) ids) (map (fun id => default (float64 0) (zs !! id)) ids)) s1) as ->.
  { cbn [map copyWrites]. rewrite Ejs. destruct js; [done|]. by rewrite fold_left_app. }
  assert (forall k, list_at k s1 = list_at k s /\ set_at k s1 = set_at k s) as H1 by (intros k; unfold s1; by destruct (flt _ _)).
  assert (forall k, k <> ttlIndexKey -> zset_at k s1 = zset_at k s) as Hz1.
  { intros k Hk. unfold s1. destruct (flt _ _); [|done]. cbn [fold_left run_wcmd]. rewrite zset_at_put. by case_bool_decide. }
  assert (hash_at tasksHashKey s1 = <[id := js]> (hash_at tasksHashKey s)) as Hh1.
  { unfold s1. destruct (flt _ _); cbn [fold_left run_wcmd]; [change (hash_at tasksHashKey (put_zset ?k ?z ?t)) with (hash_at tasksHashKey t)|];
    rewrite hash_at_put; by rewrite bool_decide_eq_true_2. }
  assert (zset_at ttlIndexKey s1 = if flt (float64 0) score then <[id := score]> (zset_at ttlIndexKey s) else zset_at ttlIndexKey s) as Ht1.
  { unfold s1. destruct (flt _ _); cbn [fold_left run_wcmd]; [rewrite zset_at_put; by rewrite bool_decide_eq_true_2 | done]. }
  assert (flt (float64 0) score = true -> zs !! id = Some score) as Hsc by (unfold score; destruct (zs !! id); [done | by vm_compute]).
  destruct (IH s1) as (Hl & Hs & Hz & Hh & Ht & Hm). split; [intros k; rewrite Hl; apply H1|]. split; [intros k; rewrite Hs; apply H1|].
  split; [intros k Hk; rewrite Hz by done; by apply Hz1|]. split; [|split].
  - intros id'. destruct (Hh id') as [E|E]; [|by right]. rewrite E, Hh1. destruct (decide (id = id')) as [<-|]; [right; by rewrite lookup_insert_eq | left; by rewrite lookup_insert_ne].
  - intros id'. destruct (Ht id') as [E|E]; [|by right]. rewrite E, Ht1. destruct (flt _ _); [|by left].
    destruct (decide (id = id')) as [<-|]; [right; rewrite lookup_insert_eq; symmetry; by apply Hsc | left; by rewrite lookup_insert_ne].
  - intros id' b Hb Hne Hin. destruct (decide (id' ∈ ids)) as [Hi|Hi]; [by apply Hm|]. apply elem_of_cons in Hin as [->|?]; [|done].
    assert (js = b) as -> by congruence. split.
    + destruct (Hh id) as [E|E]; rewrite E; [rewrite Hh1; by rewrite lookup_insert_eq | done].
    + intros e He Hp. destruct (Ht id) as [E|E]; rewrite E; [|done]. rewrite Ht1.
      assert (score = e) as -> by (unfold score; by rewrite He). rewrite Hp. by rewrite lookup_insert_eq.
Qed.

(** ** Moving one queue *)

Section moves.
Context {R : Type} `{RL : RedisLaws R}.
Variables (opts : MigrateOptions) (src dst : string) (stop : Prop).
Hypothesis Hbatch : 0 < mo_BatchSize opts < 2 ^ 63.
Hypothesis Hwet : mo_DryRun opts = false.

Lemma Eff_copy w ids :
  is_Some (w !! src) -> is_Some (w !! dst) ->
  Eff src dst [] [] [] ids w (<[dst := fold_left run_wcmd (copyWrites ids (map (fun id => hash_at tasksHashKey (srv w src) !! id) ids)
    (map (fun m => default (float64 0) (zset_at ttlIndexKey (srv w src) !! m)) ids)) (srv w dst)]> w).
Proof.
  intros Hs Hd. destruct (copyWrites_run (hash_at tasksHashKey (srv w src)) (zset_at ttlIndexKey (srv w src)) ids (srv w dst)) as (Hl & Hse & Hz & Hh & Ht & Hm).
  cbv zeta in *. set (s' := fold_left _ _ _) in *. split.
  - intros c' ?. rewrite lookup_insert_is_Some. destruct (decide (dst = c')); auto.
  - unfold Copied, body, expiry, zst. split_and!.
    + intros id. rewrite srv_insert. case_bool_decide as E; [|done]. subst. by destruct (Hh id).
    + intros id. rewrite srv_insert. case_bool_decide as E; [|done]. subst. by destruct (Ht id).
    + intros id b Hb Hne. rewrite srv_insert, bool_decide_eq_true_2 by done. split.
      * intros [Hi|Hi]; [by apply Hm|]. destruct (Hh id) as [E|E]; by rewrite E.
      * intros e He Hp [Hi|Hi]; [by apply (Hm id b)|]. destruct (Ht id) as [E|E]; by rewrite E.
  - intros c k _. unfold lst. rewrite srv_insert. case_bool_decide; [subst; apply Hl | done].
  - intros c k Hne _. unfold zst. rewrite srv_insert. case_bool_decide; [subst; apply Hz; congruence | done].
  - intros c k _. unfold sst. rewrite srv_insert. case_bool_decide; [subst; apply Hse | done].
Qed.

Lemma triple_copy w ids : is_Some (w !! src) -> is_Some (w !! dst) ->
  triple stop (eq w) (copyTaskData src dst ids) (fun _ w' => Eff src dst [] [] [] ids w w').
Proof.
  intros Hs Hd. unfold copyTaskData. destruct ids as [|i ids]; [apply triple_ret; intros ? <-; apply Eff_refl|]. set (l := i :: ids).
  eapply triple_bind.
  { apply triple_wrapped, (triple_read stop src _ (fun s x => x = map (fun f => hash_at tasksHashKey s !! f) l) w Hs);
      [intros r x r' E; by apply HMGet_ok in E | intros U r; apply HMGet_up]. }
  intros vals. apply triple_pure. intros ->. eapply triple_bind.
  { apply triple_wrapped, (triple_read stop src _ (fun s x => x = map (fun m => default (float64 0) (zset_at ttlIndexKey s !! m)) l) w Hs);
      [intros r x r' E; by apply ZMScores_ok in E | intros U r; apply ZMScores_up]. }
  intros scores. apply triple_pure. intros ->. apply triple_wrapped.
  set (ws := copyWrites _ _ _).
  eapply triple_conseq; [apply (triple_on stop dst _ (fun _ => fold_left run_wcmd ws) (fun _ _ => True) w Hd); [|intros U r; apply Exec_up] | done |].
  - intros r x r' E. apply Exec_ok in E. split; [exact E | done].
  - intros _ w' [-> _]. by apply Eff_copy.
Qed.

Section list.
Variables (srcKey dstKey queueType : string).
Hypothesis Hapart : (src, srcKey) <> (dst, dstKey).

Lemma triple_pops {A} (ids : list A) w : is_Some (w !! src) ->
  triple stop (eq w) (mfor ids (fun _ => let! _ := wrapped ("RPOP " +:+ srcKey) (on src (RPop srcKey)) in mret tt))
    (fun _ w' => Eff src dst [(src, srcKey)] [] [] [] w w' /\ lst w' src srcKey = take (length (lst w src srcKey) - length ids) (lst w src srcKey)).
Proof.
  revert w. induction ids as [|i ids IH]; intros w Hs; cbn [mfor].
  { apply triple_ret. intros ? <-. split; [apply Eff_refl|]. rewrite Nat.sub_0_r, firstn_all. done. }
  set (pop := fun s => put_list srcKey (take (length (list_at srcKey s) - 1) (list_at srcKey s)) s).
  apply (triple_bind _ _ _ (fun _ w1 => w1 = <[src := pop (srv w src)]> w)); [eapply triple_bind|].
  { apply triple_wrapped, (triple_on stop src _ (fun _ => pop) (fun _ _ => True) w Hs);
      [intros r x r' E; by apply RPop_ok in E as [_ ->] | intros U r; apply RPop_up]. }
  { intros x. apply triple_ret. by intros w1 [-> _]. }
  cbv beta. intros _. apply triple_at. intros w1 Ew1. assert (Eff src dst [(src, srcKey)] [] [] [] w w1) as H1 by (rewrite Ew1; by apply Eff_put_list).
  eapply triple_conseq; [apply (IH w1); by apply H1 | done |]. intros _ w' [H2 E2]. split; [by apply (Eff_trans src dst _ _ _ [] [] w w1 w')|].
  rewrite E2. assert (lst w1 src srcKey = take (length (lst w src srcKey) - 1) (lst w src srcKey)) as ->.
  { unfold lst. rewrite Ew1, srv_insert, bool_decide_eq_true_2 by done. unfold pop. rewrite list_at_put, bool_decide_eq_true_2 by done. done. }
  rewrite length_take, take_take. f_equal. cbn [length]. lia.
Qed.

Lemma lrange_tail (l : list string) n : 0 < n <= Z.of_nat (length l) -> lrange l (- n) (-1) = drop (length l - Z.to_nat n) l.
Proof.
  intros Hn. unfold lrange. destruct (Z.ltb_spec (- n) 0); [|lia]. destruct (Z.ltb_spec (-1) 0); [|lia]. rewrite Z.max_r by lia.
  replace (Z.to_nat (Z.of_nat (length l) + - n)) with (length l - Z.to_nat n)%nat by lia. apply take_ge. rewrite length_drop. lia.
Qed.

(** One batch: the last [n] tasks of the source, in order. *)
Lemma triple_batch (ids : list string) w (k : M (mig R) Z) Post :
  is_Some (w !! src) -> is_Some (w !! dst) -> (exists rest, lst w src srcKey = rest ++ ids) ->
  (forall w1, Eff src dst [(src, srcKey); (dst, dstKey)] [] [] ids w w1 -> lst w src srcKey = lst w1 src srcKey ++ ids ->
     lst w1 dst dstKey = lst w dst dstKey ++ ids -> triple stop (eq w1) k Post) ->
  triple stop (eq w)
    (wrapped ("copy task data for " +:+ srcKey) (copyTaskData src dst ids) ;;! wrapped ("RPUSH " +:+ dstKey) (on dst (RPush dstKey ids)) ;;!
     mfor ids (fun _ => let! _ := wrapped ("RPOP " +:+ srcKey) (on src (RPop srcKey)) in mret tt) ;;! k) Post.
Proof.
  intros Hs Hd [rest Hl] Hk. eapply triple_bind; [apply triple_wrapped; by apply triple_copy|]. intros u. apply triple_at. intros w1 E1. assert (is_Some (w1 !! src)) as Hs1 by by apply E1. assert (is_Some (w1 !! dst)) as Hd1 by by apply E1.
  eapply triple_bind.
  { apply triple_wrapped, (triple_on stop dst _ (fun _ s => put_list dstKey (list_at dstKey s ++ ids) s) (fun _ _ => True) w1 Hd1);
      [intros r x r' E; by apply RPush_ok in E | intros U r; apply RPush_up]. }
  intros u'. set (w2 := <[dst := _]> w1). assert (Eff src dst [(dst, dstKey)] [] [] [] w1 w2) as E2 by by apply Eff_put_list.
  assert (lst w2 dst dstKey = lst w dst dstKey ++ ids) as Hd2.
  { unfold w2, lst. rewrite srv_insert, bool_decide_eq_true_2, list_at_put, bool_decide_eq_true_2 by done.
    change (list_at dstKey (srv w1 dst)) with (lst w1 dst dstKey). by rewrite (eff_lists _ _ _ _ _ _ _ _ E1) by set_solver. }
  assert (lst w2 src srcKey = rest ++ ids) as Hs2.
  { rewrite (eff_lists _ _ _ _ _ _ _ _ E2), (eff_lists _ _ _ _ _ _ _ _ E1) by set_solver. done. }
  eapply triple_conseq with (Pre := eq w2); [|by intros ? [-> _]|done].
  eapply triple_bind; [apply triple_pops; by apply E2|]. intros v. apply triple_at. intros w3 [E3 Hs3]. rewrite Hs2, length_app in Hs3.
  replace (length rest + length ids - length ids)%nat with (length rest) in Hs3 by lia. rewrite take_app_length in Hs3.
  apply Hk; [|by rewrite Hs3|by rewrite (eff_lists _ _ _ _ _ _ _ _ E3) by set_solver].
  assert (Eff src dst [(src, srcKey); (dst, dstKey)] [] [] (ids ++ ([] ++ [])) w w3) as E; [|by rewrite !app_nil_r in E].
  apply (Eff_trans src dst _ _ _ _ _ w w1); [|apply (Eff_trans src dst _ _ _ _ _ w1 w2)]; eapply Eff_weaken; try eassumption; set_solver.
Qed.

(** The queue of the source moved behind the one of the destination; its order
    is kept when it fits a batch. *)
Definition ListMoved (w w' : servers) : Prop :=
  lst w' src srcKey = [] /\
  exists l, l ≡ₚ lst w src srcKey /\ (Z.of_nat (length l) <= mo_BatchSize opts -> l = lst w src srcKey) /\ lst w' dst dstKey = lst w dst dstKey ++ l.

Lemma triple_listLoop fuel total migrated w :
  is_Some (w !! src) -> is_Some (w !! dst) -> 0 <= migrated <= total -> total < 2 ^ 32 -> (0 < migrated < total -> mo_BatchSize opts < total) ->
  Z.of_nat (length (lst w src srcKey)) = total - migrated -> (Z.to_nat (total - migrated) <= fuel)%nat ->
  triple stop (eq w) (listLoop opts src dst srcKey dstKey queueType fuel total migrated)
    (fun n w' => n = total /\ Eff src dst [(src, srcKey); (dst, dstKey)] [] [] (lst w src srcKey) w w' /\ ListMoved w w').
Proof.
  revert migrated w. induction fuel as [|fuel IH]; intros migrated w Hs Hd Hm Ht Hb Hlen Hf.
  all: cbn [listLoop]; destruct (Z.leb_spec total migrated) as [Hle|Hlt].
  1, 3: apply triple_ret; intros ? <-; assert (lst w src srcKey = []) as E by (apply length_zero_iff_nil; lia); rewrite E; split; [lia|];
    split; [apply Eff_refl | split; [done | exists []; rewrite E, app_nil_r; done]].
  { lia. }
  rewrite (wrap64_id (migrated + _)) by (unfold MinInt64, MaxInt64; destruct (decide (0 < migrated)); lia).
  set (B := mo_BatchSize opts) in *. set (n := Z.min B (total - migrated)).
  replace (wrap64 _) with n; [|destruct (Z.ltb_spec total (migrated + B)); rewrite wrap64_id by (unfold MinInt64, MaxInt64; lia); lia].
  eapply triple_bind.
  { apply triple_wrapped, (triple_read stop src _ (fun s x => x = lrange (list_at srcKey s) (- n) (-1)) w Hs);
      [intros r x r' E; by apply LRange_ok in E | intros U r; apply LRange_up]. }
  intros ids. apply triple_pure. change (list_at srcKey (srv w src)) with (lst w src srcKey). rewrite lrange_tail by lia. intros Eids.
  assert (length ids = Z.to_nat n) as Hids by (rewrite Eids, length_drop; lia). destruct ids as [|i ids']; [cbn in Hids; lia|].
  cbv beta iota. set (ids := i :: ids') in *. apply triple_batch; [done|done|eexists; rewrite Eids; symmetry; apply take_drop|].
  intros w1 E1 Hs1 Hd1. assert (length (lst w src srcKey) = length (lst w1 src srcKey) + length ids)%nat as Hl1 by by rewrite Hs1, length_app.
  rewrite wrap64_id by (unfold MinInt64, MaxInt64; lia). eapply triple_bind; [apply triple_report|]. intros u.
  eapply triple_conseq; [apply (IH (migrated + Z.of_nat (length ids)) w1); try (by apply E1); lia | by intros ? -> |].
  intros m w' (-> & E2 & Hs2 & l & Hl & Hsame & Hd2). split; [done|]. split.
  - eapply Eff_seq; [exact E1|exact E2|]. rewrite Hs1. set_solver.
  - split; [done|]. exists (ids ++ l). split_and!; [rewrite Hs1, Hl; apply Permutation_app_comm| |by rewrite Hd2, Hd1, app_assoc].
    intros Hsmall. rewrite length_app, Hl in Hsmall. assert (lst w1 src srcKey = []) as E by (apply length_zero_iff_nil; lia).
    rewrite Hs1, E in *. apply Permutation_nil_r in Hl. by rewrite Hl, app_nil_r.
Qed.

(** A queue that is empty needs no loop. *)
Lemma triple_counted (cmd : ccmd) msg loop w (Post : Z -> servers -> Prop) :
  is_Some (w !! src) -> (run_ccmd (srv w src) cmd = 0 -> Post 0 w) ->
  triple stop (eq w) (loop (run_ccmd (srv w src) cmd)) Post -> triple stop (eq w) (counted opts src queueType cmd msg loop) Post.
Proof.
  intros Hs H0 Hloop. unfold counted. eapply triple_bind.
  { apply triple_wrapped, (triple_read stop src _ (fun s x => x = run_ccmd s cmd) w Hs);
      [intros r x r' E; by apply Count_ok in E | intros U r; apply Count_up]. }
  intros total. apply triple_pure. intros ->. destruct (Z.eqb_spec (run_ccmd (srv w src) cmd) 0) as [E|E]; [apply triple_ret; intros ? <-; auto|].
  by rewrite Hwet.
Qed.

Lemma triple_migrateList w :
  is_Some (w !! src) -> is_Some (w !! dst) -> Z.of_nat (length (lst w src srcKey)) < 2 ^ 32 ->
  triple stop (eq w) (migrateList opts src dst srcKey dstKey queueType)
    (fun n w' => n = Z.of_nat (length (lst w src srcKey)) /\ Eff src dst [(src, srcKey); (dst, dstKey)] [] [] (lst w src srcKey) w w' /\ ListMoved w w').
Proof.
  intros Hs Hd Hlen. apply triple_counted; [done| |].
  - intros E. change (Z.of_nat (length (lst w src srcKey)) = 0) in E. assert (lst w src srcKey = []) as Enil by (apply length_zero_iff_nil; lia).
    rewrite Enil. split; [done|]. split; [apply Eff_refl|]. split; [done|]. exists []. by rewrite Enil, app_nil_r.
  - change (run_ccmd (srv w src) (CLLen srcKey)) with (Z.of_nat (length (lst w src srcKey))). apply triple_listLoop; try done; lia.
Qed.
End list.

Section zset.
Variables (srcKey dstKey queueType : string).
Hypothesis Hapart : (src, srcKey) <> (dst, dstKey).
Hypothesis Httl : srcKey <> ttlIndexKey /\ dstKey <> ttlIndexKey.

(** The scores of the source win. *)
Definition ZSetMoved (w w' : servers) : Prop := zst w' src srcKey = ∅ /\ zst w' dst dstKey = zst w src srcKey ∪ zst w dst dstKey.

(** A batch of a sorted set: what is added and what is left. *)
Lemma added_lookup (x : list (string * spec_float)) (z d : gmap string spec_float) id :
  (forall m score, (m, score) ∈ x -> z !! m = Some score) ->
  fold_left (fun z '(m, score) => <[m := score]> z) x d !! id = if bool_decide (id ∈ x.*1) then z !! id else d !! id.
Proof.
  revert d. induction x as [|[m score] x IH]; intros d Hx; [done|]. cbn [fold_left]. rewrite IH by (intros; apply Hx; by constructor).
  cbn. case_bool_decide as E1; case_bool_decide as E2; [done|set_solver| |].
  - apply elem_of_cons in E2 as [->|?]; [|done]. rewrite lookup_insert_eq. symmetry. apply Hx. by constructor.
  - rewrite lookup_insert_ne by set_solver. done.
Qed.

Lemma left_lookup (x : list string) (z : gmap string spec_float) id : foldr delete z x !! id = if bool_decide (id ∈ x) then None else z !! id.
Proof.
  induction x as [|m x IH]; [done|]. cbn [foldr]. destruct (decide (m = id)) as [->|Hn].
  - rewrite lookup_delete_eq, bool_decide_eq_true_2; [done | by constructor].
  - rewrite lookup_delete_ne by done. rewrite IH. case_bool_decide as E1; case_bool_decide as E2; set_solver.
Qed.

Lemma left_size (x : list string) (z : gmap string spec_float) :
  NoDup x -> (forall m, m ∈ x -> is_Some (z !! m)) -> (size (foldr delete z x) + length x = size z)%nat.
Proof.
  induction x as [|m x IH]; intros Hnd Hx; [cbn; lia|]. apply NoDup_cons in Hnd as [Hm Hnd]. cbn [foldr length].
  assert (foldr delete z x !! m = z !! m) as Hl by (rewrite left_lookup, bool_decide_eq_false_2; done).
  assert (is_Some (foldr delete z x !! m)) as Hsome by (rewrite Hl; apply Hx; by constructor). rewrite map_size_delete_Some by done.
  rewrite <- (IH Hnd) by (intros; apply Hx; by constructor). assert (size (foldr delete z x) <> 0)%nat; [|lia].
  intros E%map_size_empty_iff. rewrite E, lookup_empty in Hsome. by destruct Hsome.
Qed.

(** One batch of a sorted set. *)
Lemma triple_zbatch (x : list (string * spec_float)) w (k : M (mig R) Z) Post :
  is_Some (w !! src) -> is_Some (w !! dst) -> 
  (forall w1, Eff src dst [] [(src, srcKey); (dst, dstKey)] [] x.*1 w w1 -> zst w1 src srcKey = foldr delete (zst w src srcKey) x.*1 ->
     zst w1 dst dstKey = fold_left (fun z '(m, score) => <[m := score]> z) x (zst w dst dstKey) -> triple stop (eq w1) k Post) ->
  triple stop (eq w)
    (wrapped ("copy task data for " +:+ srcKey) (copyTaskData src dst x.*1) ;;! wrapped ("ZADD " +:+ dstKey) (on dst (ZAdd dstKey x)) ;;!
     wrapped ("ZREM " +:+ srcKey) (on src (ZRem srcKey x.*1)) ;;! k) Post.
Proof.
  intros Hs Hd Hk. destruct Httl as [Ht1 Ht2]. eapply triple_bind; [apply triple_wrapped; by apply triple_copy|]. intros u. apply triple_at. intros w1 E1.
  set (add := fold_left (fun (z : gmap string spec_float) '(m, score) => <[m := score]> z) x) in *.
  eapply triple_bind.
  { apply triple_wrapped, (triple_on stop dst _ (fun _ s => put_zset dstKey (add (zset_at dstKey s)) s) (fun _ _ => True) w1);
      [by apply E1|intros r y r' E; by apply ZAdd_ok in E | intros U r; apply ZAdd_up]. }
  intros u'. set (w2 := <[dst := _]> w1). assert (Eff src dst [] [(dst, dstKey)] [] [] w1 w2) as E2 by (apply Eff_put_zset; [by apply E1 | done]).
  eapply triple_conseq with (Pre := eq w2); [|by intros ? [-> _]|done]. eapply triple_bind.
  { apply triple_wrapped, (triple_on stop src _ (fun _ s => put_zset srcKey (foldr delete (zset_at srcKey s) x.*1) s) (fun _ _ => True) w2);
      [by apply E2, E1|intros r y r' E; by apply ZRem_ok in E | intros U r; apply ZRem_up]. }
  intros v. set (w3 := <[src := _]> w2). assert (Eff src dst [] [(src, srcKey)] [] [] w2 w3) as E3 by (apply Eff_put_zset; [by apply E2, E1 | done]).
  eapply triple_conseq with (Pre := eq w3); [|by intros ? [-> _]|done].
  assert (zst w1 src srcKey = zst w src srcKey) as Hs1 by (apply E1; [congruence | set_solver]).
  assert (zst w1 dst dstKey = zst w dst dstKey) as Hd1 by (apply E1; [congruence | set_solver]).
  apply Hk.
  - apply (Eff_seq src dst _ _ _ x.*1 [] _ w w1 w3); [eapply Eff_weaken; [..|exact E1]; set_solver | | set_solver].
    apply (Eff_seq src dst _ _ _ [] [] _ w1 w2 w3); [eapply Eff_weaken; [..|exact E2]; set_solver | eapply Eff_weaken; [..|exact E3]; set_solver | done].
  - rewrite <- Hs1, <- (eff_zsets _ _ _ _ _ _ _ _ E2 src srcKey) by (congruence || set_solver).
    unfold w3, zst. rewrite srv_insert, bool_decide_eq_true_2, zset_at_put, bool_decide_eq_true_2 by done. done.
  - rewrite (eff_zsets _ _ _ _ _ _ _ _ E3) by (congruence || set_solver). rewrite <- Hd1.
    unfold w2, zst. rewrite srv_insert, bool_decide_eq_true_2, zset_at_put, bool_decide_eq_true_2 by done. done.
Qed.

Lemma triple_zsetLoop fuel total migrated w :
  is_Some (w !! src) -> is_Some (w !! dst) -> 0 <= migrated <= total -> total < 2 ^ 32 ->
  Z.of_nat (size (zst w src srcKey)) = total - migrated -> (Z.to_nat (total - migrated) <= fuel)%nat ->
  triple stop (eq w) (zsetLoop opts src dst srcKey dstKey queueType fuel total migrated)
    (fun n w' => n = total /\ Eff src dst [] [(src, srcKey); (dst, dstKey)] [] (map_to_list (zst w src srcKey)).*1 w w' /\ ZSetMoved w w').
Proof.
  revert migrated w. induction fuel as [|fuel IH]; intros migrated w Hs Hd Hm Ht Hlen Hf.
  all: cbn [zsetLoop]; destruct (Z.leb_spec total migrated) as [Hle|Hlt].
  1, 3: apply triple_ret; intros ? <-; assert (zst w src srcKey = ∅) as E by (apply map_size_empty_iff; lia); unfold ZSetMoved; rewrite E, map_to_list_empty, (left_id ∅ union);
    split; [lia|]; split; [apply Eff_refl | done].
  { lia. }
  eapply triple_bind.
  { apply triple_wrapped, (triple_read stop src _ (fun s x => NoDup x.*1 /\ (forall m score, (m, score) ∈ x -> zset_at srcKey s !! m = Some score) /\
      length x = Nat.min (Z.to_nat (mo_BatchSize opts - 1 + 1)) (size (zset_at srcKey s))) w Hs);
      [intros r x r' E; by apply ZRange_ok in E | intros U r; apply ZRange_up]. }
  intros x. apply triple_pure. change (zset_at srcKey (srv w src)) with (zst w src srcKey). intros (Hnd & Hx & Hlx).
  destruct x as [|i x'] eqn:Ex; [cbn in Hlx; lia|]. cbv beta iota. rewrite <- Ex in *. clear Ex i x'. apply triple_zbatch; [done|done|].
  intros w1 E1 Hs1 Hd1. assert (size (zst w1 src srcKey) + length x = size (zst w src srcKey))%nat as Hsz.
  { rewrite Hs1, <- (length_fmap fst). apply left_size; [done|]. intros m ([m' score] & -> & Hin)%list_elem_of_fmap. cbn. rewrite (Hx m' score Hin). eauto. }
  rewrite wrap64_id by (unfold MinInt64, MaxInt64; lia). eapply triple_bind; [apply triple_report|]. intros u.
  eapply triple_conseq; [apply (IH (migrated + Z.of_nat (length x)) w1); try (by apply E1); lia | by intros ? -> |].
  intros m w' (-> & E2 & Hs2 & Hd2). split; [done|]. split.
  - eapply Eff_seq; [exact E1|exact E2|]. intros id ([id' score] & -> & Hin%elem_of_map_to_list)%list_elem_of_fmap. cbn. apply elem_of_app.
    destruct (decide (id' ∈ x.*1)) as [?|Hn]; [by left|]. right. apply list_elem_of_fmap. exists (id', score). split; [done|].
    apply elem_of_map_to_list. rewrite Hs1, left_lookup, bool_decide_eq_false_2; done.
  - split; [done|]. rewrite Hd2, Hs1, Hd1. apply map_eq. intros id. rewrite !lookup_union, left_lookup, (added_lookup x (zst w src srcKey)) by done.
    case_bool_decide as Hin; [|done]. apply list_elem_of_fmap in Hin as ([id' score] & -> & Hin). cbn. rewrite (Hx _ _ Hin). cbn. by destruct (zst w dst dstKey !! id').
Qed.

Lemma triple_migrateZSet w :
  is_Some (w !! src) -> is_Some (w !! dst) -> Z.of_nat (size (zst w src srcKey)) < 2 ^ 32 ->
  triple stop (eq w) (migrateZSet opts src dst srcKey dstKey queueType)
    (fun n w' => n = Z.of_nat (size (zst w src srcKey)) /\
       Eff src dst [] [(src, srcKey); (dst, dstKey)] [] (map_to_list (zst w src srcKey)).*1 w w' /\ ZSetMoved w w').
Proof.
  intros Hs Hd Hlen. apply triple_counted; [done| |].
  - intros E. change (Z.of_nat (size (zst w src srcKey)) = 0) in E. assert (zst w src srcKey = ∅) as Enil by (apply map_size_empty_iff; lia).
    unfold ZSetMoved. rewrite Enil, map_to_list_empty, (left_id ∅ union). split; [done|]. split; [apply Eff_refl | done].
  - change (run_ccmd (srv w src) (CZCard srcKey)) with (Z.of_nat (size (zst w src srcKey))). apply triple_zsetLoop; try done; lia.
Qed.
End zset.

Section set.
Variables (srcKey dstKey queueType : string).
Hypothesis Hapart : (src, srcKey) <> (dst, dstKey).

Definition SetMoved (w w' : servers) : Prop := sst w' src srcKey = ∅ /\ sst w' dst dstKey = sst w dst dstKey ∪ sst w src srcKey.

(** One batch of a set, whose tasks are already off the source. *)
Lemma triple_sbatch (x : list string) w (k : M (mig R) Z) Post :
  is_Some (w !! src) -> is_Some (w !! dst) ->
  (forall w1, Eff src dst [] [] [(dst, dstKey)] x w w1 -> sst w1 dst dstKey = sst w dst dstKey ∪ list_to_set x -> triple stop (eq w1) k Post) ->
  triple stop (eq w)
    (wrapped ("copy task data for " +:+ srcKey) (copyTaskData src dst x) ;;! wrapped ("SADD " +:+ dstKey) (on dst (SAdd dstKey x)) ;;! k) Post.
Proof.
  intros Hs Hd Hk. eapply triple_bind; [apply triple_wrapped; by apply triple_copy|]. intros u. apply triple_at. intros w1 E1. eapply triple_bind.
  { apply triple_wrapped, (triple_on stop dst _ (fun _ s => put_set dstKey (set_at dstKey s ∪ list_to_set x) s) (fun _ _ => True) w1);
      [by apply E1|intros r y r' E; by apply SAdd_ok in E | intros U r; apply SAdd_up]. }
  intros u'. set (w2 := <[dst := _]> w1). assert (Eff src dst [] [] [(dst, dstKey)] [] w1 w2) as E2 by (apply Eff_put_set; by apply E1).
  eapply triple_conseq with (Pre := eq w2); [|by intros ? [-> _]|done]. apply Hk.
  - apply (Eff_seq src dst _ _ _ x [] _ w w1 w2); [eapply Eff_weaken; [..|exact E1]; set_solver | done | set_solver].
  - rewrite <- (eff_sets _ _ _ _ _ _ _ _ E1 dst dstKey) by set_solver.
    unfold w2, sst. rewrite srv_insert, bool_decide_eq_true_2, set_at_put, bool_decide_eq_true_2 by done. done.
Qed.

Lemma triple_setLoop fuel total migrated w :
  is_Some (w !! src) -> is_Some (w !! dst) -> 0 <= migrated <= total -> total < 2 ^ 32 ->
  Z.of_nat (size (sst w src srcKey)) = total - migrated -> (Z.to_nat (total - migrated) <= fuel)%nat ->
  triple stop (eq w) (setLoop opts src dst srcKey dstKey queueType fuel total migrated)
    (fun n w' => n = total /\ Eff src dst [] [] [(src, srcKey); (dst, dstKey)] (elements (sst w src srcKey)) w w' /\ SetMoved w w').
Proof.
  revert migrated w. induction fuel as [|fuel IH]; intros migrated w Hs Hd Hm Ht Hlen Hf.
  all: cbn [setLoop]; destruct (Z.leb_spec total migrated) as [Hle|Hlt].
  1, 3: apply triple_ret; intros ? <-; assert (sst w src srcKey = ∅) as E by (apply leibniz_equiv, size_empty_iff; lia); unfold SetMoved; rewrite E, elements_empty, (right_id_L ∅ union);
    split; [lia|]; split; [apply Eff_refl | done].
  { lia. }
  set (rest := fun x s => put_set srcKey (set_at srcKey s ∖ list_to_set x) s). eapply triple_bind.
  { apply triple_wrapped, (triple_on stop src _ rest (fun s x => NoDup x /\ (forall m, m ∈ x -> m ∈ set_at srcKey s) /\
      length x = Nat.min (Z.to_nat (mo_BatchSize opts)) (size (set_at srcKey s))) w Hs);
      [intros r x r' E; by apply SPopN_ok in E as (? & ? & ? & ->) | intros U r; apply SPopN_up]. }
  intros x. apply triple_at. intros w0 [Ew0 (Hnd & Hx & Hlx)]. change (set_at srcKey (srv w src)) with (sst w src srcKey) in *.
  assert (Eff src dst [] [] [(src, srcKey)] [] w w0) as E0 by (rewrite Ew0; by apply Eff_put_set).
  assert (sst w0 src srcKey = sst w src srcKey ∖ list_to_set x) as Hs0.
  { unfold sst. rewrite Ew0, srv_insert, bool_decide_eq_true_2 by done. unfold rest. rewrite set_at_put, bool_decide_eq_true_2 by done. done. }
  destruct x as [|i x'] eqn:Ex; [cbn in Hlx; lia|]. cbv beta iota. rewrite <- Ex in *. clear Ex i x'. apply triple_sbatch; [by apply E0|by apply E0|].
  intros w1 E1 Hd1. assert (sst w1 src srcKey = sst w src srcKey ∖ list_to_set x) as Hs1 by (rewrite <- Hs0; apply E1; set_solver).
  assert (size (sst w1 src srcKey) + length x = size (sst w src srcKey))%nat as Hsz.
  { rewrite Hs1, size_difference by (intros id; rewrite elem_of_list_to_set; apply Hx). rewrite (size_list_to_set (C := gset string)) by done. lia. }
  rewrite wrap64_id by (unfold MinInt64, MaxInt64; lia). eapply triple_bind; [apply triple_report|]. intros u.
  eapply triple_conseq; [apply (IH (migrated + Z.of_nat (length x)) w1); try (by apply E1, E0); lia | by intros ? -> |].
  assert (Eff src dst [] [] [(src, srcKey); (dst, dstKey)] x w w1) as E01.
  { apply (Eff_seq src dst _ _ _ [] x _ w w0 w1); [eapply Eff_weaken; [..|exact E0]; set_solver | eapply Eff_weaken; [..|exact E1]; set_solver | done]. }
  intros m w' (-> & E2 & Hs2 & Hd2). split; [done|]. split.
  - eapply Eff_seq; [exact E01|exact E2|]. intros id. rewrite elem_of_app, Hs1, !elem_of_elements. destruct (decide (id ∈ x)); set_solver.
  - split; [done|]. rewrite Hd2, Hs1, Hd1, (eff_sets _ _ _ _ _ _ _ _ E0 dst dstKey) by set_solver.
    apply set_eq. intros id. specialize (Hx id). destruct (decide (id ∈ x)); set_solver.
Qed.

Lemma triple_migrateSet w :
  is_Some (w !! src) -> is_Some (w !! dst) -> Z.of_nat (size (sst w src srcKey)) < 2 ^ 32 ->
  triple stop (eq w) (migrateSet opts src dst srcKey dstKey queueType)
    (fun n w' => n = Z.of_nat (size (sst w src srcKey)) /\
       Eff src dst [] [] [(src, srcKey); (dst, dstKey)] (elements (sst w src srcKey)) w w' /\ SetMoved w w').
Proof.
  intros Hs Hd Hlen. apply triple_counted; [done| |].
  - intros E. change (Z.of_nat (size (sst w src srcKey)) = 0) in E. assert (sst w src srcKey = ∅) as Enil by (apply leibniz_equiv, size_empty_iff; lia).
    unfold SetMoved. rewrite Enil, elements_empty, (right_id_L ∅ union). split; [done|]. split; [apply Eff_refl | done].
  - change (run_ccmd (srv w src) (CSCard srcKey)) with (Z.of_nat (size (sst w src srcKey))). apply triple_setLoop; try done; lia.
Qed.
End set.
End moves.

(** ** The whole migration *)

Section whole.
Context {R : Type} `{RL : RedisLaws R}.
Variables (opts : MigrateOptions) (src dst : string).
Hypothesis Hbatch : 0 < mo_BatchSize opts < 2 ^ 63.
Hypothesis Hwet : mo_DryRun opts = false.

Definition key (shardID suffix : string) : string := buildQueueKey (mo_Command opts) (mo_TenantID opts) shardID suffix.
Definition pending (p : Z) : string := "pending:" +:+ pretty p.

(** The queue with this suffix has two different places. *)
Hypothesis Hapart : src <> dst \/ ShardKeySegment (mo_FromShard opts) <> ShardKeySegment (mo_ToShard opts).

Lemma places_apart f g s s' (c c' : string) : s ∈ suffixes -> s' ∈ suffixes -> s <> s' -> (c, key f s) <> (c', key g s').
Proof. intros Hs Hs' Hn E%pair_equal_spec. destruct E as [_ E]. by apply queueKey_inj in E as [? _]. Qed.

Lemma ends_apart s : s ∈ suffixes -> (src, key (mo_FromShard opts) s) <> (dst, key (mo_ToShard opts) s).
Proof. intros Hs E%pair_equal_spec. destruct E as [E1 E2]. apply queueKey_inj in E2 as [_ E2]; [|done..]. by destruct Hapart. Qed.

Lemma key_not_ttl f s : key f s <> ttlIndexKey.
Proof. unfold key, buildQueueKey. intros E. discriminate E. Qed.

Lemma place_not_ttl f s (c c' : string) : (c, key f s) <> (c', ttlIndexKey).
Proof. intros E%pair_equal_spec. destruct E as [_ E]. by apply key_not_ttl in E. Qed.

Lemma pending_in p : 0 <= p < 10 -> pending p ∈ suffixes.
Proof. intros Hp. unfold suffixes. apply elem_of_app. left. apply list_elem_of_fmap. exists p. split; [done|]. apply elem_of_seqZ. lia. Qed.

Lemma pending_ne p q : 0 <= p -> 0 <= q -> p <> q -> pending p <> pending q.
Proof. intros Hp Hq Hn E%app_inj_l. apply Hn. by apply (inj pretty). Qed.

Definition places (s : string) : list (string * string) := [(src, key (mo_FromShard opts) s); (dst, key (mo_ToShard opts) s)].

Lemma other_place s s' f c : s ∈ suffixes -> s' ∈ suffixes -> s <> s' -> (c, key f s) ∉ places s'.
Proof. intros Hs Hs' Hn. unfold places. rewrite !not_elem_of_cons. split_and!; [by apply places_apart.. | apply not_elem_of_nil]. Qed.

Definition moved_ids (w : servers) (ps : list Z) : list string := concat (map (fun p => lst w src (key (mo_FromShard opts) (pending p))) ps).
Definition count (w : servers) (ps : list Z) : Z := Z.of_nat (length (moved_ids w ps)).

Lemma triple_migratePending stop left pri moved w :
  is_Some (w !! src) -> is_Some (w !! dst) -> 0 <= pri -> pri + Z.of_nat left <= 10 -> 0 <= moved <= pri * 2 ^ 32 ->
  (forall p, 0 <= p < 10 -> Z.of_nat (length (lst w src (key (mo_FromShard opts) (pending p)))) < 2 ^ 32) ->
  let ps := seqZ pri (Z.of_nat left) in
  triple stop (eq w) (migratePending opts src dst left pri moved)
    (fun n w' => n = moved + count w ps /\ Eff src dst (flat_map (fun p => places (pending p)) ps) [] [] (moved_ids w ps) w w' /\
       Forall (fun p => ListMoved opts src dst (key (mo_FromShard opts) (pending p)) (key (mo_ToShard opts) (pending p)) w w') ps).
Proof.
  revert pri moved w. induction left as [|left IH]; intros pri moved w Hs Hd Hp Hl Hm Hsmall ps.
  { apply triple_ret. intros ? <-. split; [change (count w ps) with 0; lia|]. split; [apply Eff_refl | constructor]. }
  assert (ps = pri :: seqZ (pri + 1) (Z.of_nat left)) as Eps by (unfold ps; rewrite seqZ_cons by lia; by replace (Z.pred (Z.of_nat (S left))) with (Z.of_nat left) by lia).
  cbn [migratePending]. eapply triple_bind; [apply triple_wrapped|].
  { apply (triple_migrateList opts src dst stop Hbatch Hwet (key (mo_FromShard opts) (pending pri)) (key (mo_ToShard opts) (pending pri)));
      [apply ends_apart, pending_in; lia | done | done | apply Hsmall; lia]. }
  intros n. apply triple_at. intros w1 (-> & E1 & M1). set (ps' := seqZ (pri + 1) (Z.of_nat left)) in *.
  assert (forall p f c, 0 <= p < 10 -> p <> pri -> lst w1 c (key f (pending p)) = lst w c (key f (pending p))) as Hkeep.
  { intros p f c Hp10 Hn. apply E1. apply other_place; [apply pending_in; lia.. | apply pending_ne; lia]. }
  assert (forall p, p ∈ ps' -> 0 <= p < 10 /\ p <> pri) as Hin by (intros p Hin%elem_of_seqZ; lia).
  assert (moved_ids w1 ps' = moved_ids w ps') as Eids.
  { unfold moved_ids. f_equal. apply map_ext_in. intros p [??]%list_elem_of_In%Hin. by apply Hkeep. }
  specialize (Hsmall pri ltac:(lia)) as Hn. rewrite wrap64_id by (unfold MinInt64, MaxInt64; lia).
  eapply triple_conseq; [apply (IH (pri + 1) _ w1); try (by apply E1); try lia | done |].
  { intros p Hp10. destruct (decide (p = pri)) as [->|]; [by destruct M1 as [-> _] | rewrite Hkeep by done; by apply Hsmall]. }
  intros n' w' (-> & E2 & M2). fold ps' in E2, M2 |- *. rewrite Eids in E2. rewrite Eps. cbn [flat_map]. unfold count.
  change (moved_ids w (pri :: ps')) with (lst w src (key (mo_FromShard opts) (pending pri)) ++ moved_ids w ps'). rewrite Eids, length_app. split; [lia|].
  split.
  { eapply Eff_seq; [eapply Eff_weaken; [..|exact E1]; set_solver | eapply Eff_weaken; [..|exact E2]; set_solver | done]. }
  constructor.
  - destruct M1 as [Hs1 (l & Hperm & Hlen & Hd1)]. assert (forall f c, (c, key f (pending pri)) ∉ flat_map (fun p => places (pending p)) ps') as Hout.
    { intros f c (p & Hpl & Hpin)%list_elem_of_In%in_flat_map. apply list_elem_of_In, Hin in Hpl as [??]. apply list_elem_of_In in Hpin.
      revert Hpin. apply other_place; [apply pending_in; lia.. | apply pending_ne; lia]. }
    split; [by rewrite (eff_lists _ _ _ _ _ _ _ _ E2) by apply Hout|]. exists l. rewrite (eff_lists _ _ _ _ _ _ _ _ E2) by apply Hout. done.
  - rewrite Forall_forall in M2 |- *. intros p Hpl. destruct (Hin p Hpl) as [??]. destruct (M2 p Hpl) as [? (l & Hperm & Hlen & Hd1)].
    rewrite !Hkeep in * by done. split; [done|]. by exists l.
Qed.

(** The outcome of a migration of all the queues of a command. *)
Abbreviation from_ := (key (mo_FromShard opts)).
Abbreviation to_ := (key (mo_ToShard opts)).
Record Migrated (w w' : servers) (r : MigrateResult) : Prop := {
  mv_pending p : 0 <= p < 10 -> ListMoved opts src dst (from_ (pending p)) (to_ (pending p)) w w';
  mv_delayed : ZSetMoved src dst (from_ "delayed") (to_ "delayed") w w';
  mv_inprog : sst w' src (from_ "inprog") = ∅;
  mv_dlq : SetMoved src dst (from_ "dlq") (to_ "dlq") w w';
  mv_data : Copied src dst w w' (moved_ids w (seqZ 0 10) ++ (map_to_list (zst w src (from_ "delayed"))).*1 ++ elements (sst w src (from_ "dlq")));
  mv_total : mr_Total r = count w (seqZ 0 10) + Z.of_nat (size (zst w src (from_ "delayed"))) + Z.of_nat (size (sst w src (from_ "dlq")))
}.

(** Redis limits the size of a list, a set or a sorted set. *)
Definition sized (w : servers) : Prop :=
  forall k, Z.of_nat (length (lst w src k)) < 2 ^ 32 /\ Z.of_nat (size (zst w src k)) < 2 ^ 32 /\ Z.of_nat (size (sst w src k)) < 2 ^ 32.

Lemma count_small w ps : (forall k, Z.of_nat (length (lst w src k)) < 2 ^ 32) -> 0 <= count w ps <= Z.of_nat (length ps) * 2 ^ 32.
Proof.
  intros Hs. unfold count, moved_ids. induction ps as [|p ps IH]; [done|]. cbn [map concat]. rewrite length_app. specialize (Hs (from_ (pending p))).
  cbn [length]. lia.
Qed.

(** The guard on tasks in progress. *)
Lemma triple_checkInProgress w : is_Some (w !! src) ->
  triple (sst w src (from_ "inprog") <> ∅) (eq w) (checkInProgress opts src) (fun n w' => (n = 0 /\ sst w src (from_ "inprog") = ∅) /\ w = w').
Proof.
  intros Hs. unfold checkInProgress. rewrite Hwet. eapply triple_bind.
  { apply triple_wrapped, (triple_read _ src _ (fun s x => x = run_ccmd s (CSCard (from_ "inprog"))) w Hs);
      [intros r x r' E; by apply Count_ok in E | intros U r; apply Count_up]. }
  intros n. apply triple_pure. intros ->. cbn [negb]. rewrite andb_true_r. change (run_ccmd (srv w src) _) with (Z.of_nat (size (sst w src (from_ "inprog")))).
  destruct (Z.ltb_spec 0 (Z.of_nat (size (sst w src (from_ "inprog"))))) as [Hp|Hz].
  - intros st _. apply wp_throw. right. intros E. rewrite E, size_empty in Hp. lia.
  - apply triple_ret. intros ? <-. split; [|done]. split; [done|]. apply leibniz_equiv, size_empty_iff. lia.
Qed.

Lemma ListMoved_later s t w w1 w2 : ListMoved opts src dst s t w w1 -> lst w2 src s = lst w1 src s -> lst w2 dst t = lst w1 dst t -> ListMoved opts src dst s t w w2.
Proof. intros [H1 (l & Hp & Hl & H2)] E1 E2. split; [by rewrite E1|]. exists l. by rewrite E2. Qed.

Lemma other_suffixes : "delayed" ∈ suffixes /\ "inprog" ∈ suffixes /\ "dlq" ∈ suffixes.
Proof. split_and!; apply (bool_decide_unpack _); vm_compute; exact I. Qed.

Lemma Migrated_compose w w1 w2 w3 L r :
  Eff src dst L [] [] (moved_ids w (seqZ 0 10)) w w1 ->
  Forall (fun p => ListMoved opts src dst (from_ (pending p)) (to_ (pending p)) w w1) (seqZ 0 10) ->
  Eff src dst [] (places "delayed") [] (map_to_list (zst w1 src (from_ "delayed"))).*1 w1 w2 -> ZSetMoved src dst (from_ "delayed") (to_ "delayed") w1 w2 ->
  sst w2 src (from_ "inprog") = ∅ ->
  Eff src dst [] [] (places "dlq") (elements (sst w2 src (from_ "dlq"))) w2 w3 -> SetMoved src dst (from_ "dlq") (to_ "dlq") w2 w3 ->
  mr_Total r = count w (seqZ 0 10) + Z.of_nat (size (zst w1 src (from_ "delayed"))) + Z.of_nat (size (sst w2 src (from_ "dlq"))) ->
  Migrated w w3 r.
Proof.
  intros E1 M1 E2 M2 Hin E3 M3 Ht. destruct other_suffixes as (Hi1 & Hi2 & Hi3).
  assert (forall c f, zst w1 c (key f "delayed") = zst w c (key f "delayed")) as Z1 by (intros c f; apply E1; [apply place_not_ttl | set_solver]).
  assert (forall c f, zst w3 c (key f "delayed") = zst w2 c (key f "delayed")) as Z3 by (intros c f; apply E3; [apply place_not_ttl | set_solver]).
  assert (forall c k, sst w2 c k = sst w c k) as S2.
  { intros c k. by rewrite (eff_sets _ _ _ _ _ _ _ _ E2), (eff_sets _ _ _ _ _ _ _ _ E1) by apply not_elem_of_nil. }
  unfold ZSetMoved, SetMoved in *. rewrite !Z1 in *. rewrite !S2 in *. split.
  - intros p Hp. rewrite Forall_forall in M1. eapply ListMoved_later; [apply M1, elem_of_seqZ; lia | |];
      by rewrite (eff_lists _ _ _ _ _ _ _ _ E3), (eff_lists _ _ _ _ _ _ _ _ E2) by apply not_elem_of_nil.
  - unfold ZSetMoved. by rewrite !Z3.
  - rewrite (eff_sets _ _ _ _ _ _ _ _ E3), S2; [done|]. by apply other_place.
  - done.
  - eapply Copied_trans; [apply E1|]. eapply Copied_trans; [apply E2 | apply E3].
  - done.
Qed.
End whole.

Lemma triple_Migrate {R} `{RL : RedisLaws R} clients opts0 src dst w :
  let opts := withBatch opts0 in
  Client clients (mo_FromShard opts) = Some src -> Client clients (mo_ToShard opts) = Some dst -> mo_FromShard opts <> mo_ToShard opts ->
  (src <> dst \/ ShardKeySegment (mo_FromShard opts) <> ShardKeySegment (mo_ToShard opts)) ->
  is_Some (w !! src) -> is_Some (w !! dst) -> mo_DryRun opts = false -> mo_BatchSize opts < 2 ^ 63 -> sized src w ->
  triple (sst w src (key opts (mo_FromShard opts) "inprog") <> ∅) (eq w) (Migrate clients opts0) (fun r w' => Migrated opts src dst w w' r).
Proof.
  intros opts Hsrc Hdst Hne Hap Hs Hd Hwet HB Hsz. assert (0 < mo_BatchSize opts) as HB0.
  { unfold opts, withBatch. destruct (Z.leb_spec (mo_BatchSize opts0) 0); cbn; lia. }
  set (stop := sst w src _ <> ∅). unfold Migrate. fold opts. rewrite bool_decide_eq_false_2 by done. rewrite Hsrc, Hdst.
  destruct other_suffixes as (Hi1 & Hi2 & Hi3). eapply triple_bind.
  { apply (triple_migratePending opts src dst (conj HB0 HB) Hwet Hap); [done|done|lia|lia|lia|]. intros p _. apply Hsz. }
  intros n. change (seqZ 0 (Z.of_nat 10)) with (seqZ 0 10). apply triple_at. intros w1 (-> & E1 & M1). eapply triple_bind; [apply triple_wrapped|].
  { apply (triple_migrateZSet opts src dst stop (conj HB0 HB) Hwet (key opts (mo_FromShard opts) "delayed") (key opts (mo_ToShard opts) "delayed"));
      [by apply ends_apart | split; apply key_not_ttl | by apply E1 | by apply E1 |].
    rewrite (eff_zsets _ _ _ _ _ _ _ _ E1); [apply Hsz | apply place_not_ttl | set_solver]. }
  intros n2. apply triple_at. intros w2 (-> & E2 & M2).
  assert (zst w1 src (key opts (mo_FromShard opts) "delayed") = zst w src (key opts (mo_FromShard opts) "delayed")) as Z1
    by (apply E1; [apply place_not_ttl | set_solver]).
  assert (forall k, sst w2 src k = sst w src k) as S2.
  { intros k. by rewrite (eff_sets _ _ _ _ _ _ _ _ E2), (eff_sets _ _ _ _ _ _ _ _ E1) by apply not_elem_of_nil. }
  assert (is_Some (w2 !! src) /\ is_Some (w2 !! dst)) as [Hs2 Hd2] by (split; by apply E2, E1).
  eapply triple_bind; [unfold stop; rewrite <- S2; by apply triple_checkInProgress|]. intros n3. apply triple_pure. intros [-> Hin].
  eapply triple_bind; [apply triple_wrapped|].
  { apply (triple_migrateSet opts src dst stop (conj HB0 HB) Hwet (key opts (mo_FromShard opts) "dlq") (key opts (mo_ToShard opts) "dlq"));
      [by apply ends_apart | done | done | rewrite S2; apply Hsz]. }
  intros n4. apply triple_ret. intros w3 (-> & E3 & M3). eapply Migrated_compose; [done..|]. cbn [mr_Total].
  rewrite Z1, S2. pose proof (count_small opts src w (seqZ 0 10) (fun k => proj1 (Hsz k))) as Hc. rewrite length_seqZ in Hc.
  destruct (Hsz (key opts (mo_FromShard opts) "delayed")) as (_ & Hd' & _). destruct (Hsz (key opts (mo_FromShard opts) "dlq")) as (_ & _ & Hq').
  revert Hc Hd' Hq'. generalize (count opts src w (seqZ 0 10)). generalize (size (zst w src (key opts (mo_FromShard opts) "delayed"))).
  generalize (size (sst w src (key opts (mo_FromShard opts) "dlq"))). intros a b c Ha Hb Hc.
  rewrite (wrap64_id (0 + c + _)), (wrap64_id (_ + 0)), wrap64_id by (unfold MinInt64, MaxInt64; lia). lia.
Qed.

(** ** Dry runs and verification *)

Section checks.
Context {R : Type} `{RL : RedisLaws R}.

Lemma triple_dry opts src qt cmd msg loop stop w : mo_DryRun opts = true -> is_Some (w !! src) ->
  triple stop (eq w) (counted opts src qt cmd msg loop) (fun n w' => n = run_ccmd (srv w src) cmd /\ w = w').
Proof.
  intros Hdry Hs. unfold counted. eapply triple_bind.
  { apply triple_wrapped, (triple_read stop src _ (fun s x => x = run_ccmd s cmd) w Hs);
      [intros r x r' E; by apply Count_ok in E | intros U r; apply Count_up]. }
  intros total. apply triple_pure. intros ->. destruct (Z.eqb_spec (run_ccmd (srv w src) cmd) 0) as [E|E]; [by apply triple_ret; intros ? <-|].
  rewrite Hdry. eapply triple_bind; [apply triple_report|]. intros u. apply triple_ret. by intros ? ->.
Qed.

Lemma triple_dry_pending opts src dst stop left pri moved w : mo_DryRun opts = true -> is_Some (w !! src) ->
  triple stop (eq w) (migratePending opts src dst left pri moved) (fun _ w' => w = w').
Proof.
  intros Hdry Hs. revert pri moved. induction left as [|left IH]; intros pri moved; [by apply triple_ret|]. cbn [migratePending].
  eapply triple_bind; [apply triple_wrapped; by apply triple_dry|]. intros n. apply triple_pure. intros ->. apply IH.
Qed.

(** A dry run writes nothing. *)
Lemma dry_run_reads clients opts0 src dst w : mo_DryRun opts0 = true -> mo_FromShard opts0 <> mo_ToShard opts0 ->
  Client clients (mo_FromShard opts0) = Some src -> Client clients (mo_ToShard opts0) = Some dst -> is_Some (w !! src) ->
  triple False (eq w) (Migrate clients opts0) (fun r w' => w = w' /\ mr_DryRun r = true).
Proof.
  intros Hdry Hne Hsrc Hdst Hs. unfold Migrate. assert (mo_DryRun (withBatch opts0) = true /\ mo_FromShard (withBatch opts0) = mo_FromShard opts0 /\
    mo_ToShard (withBatch opts0) = mo_ToShard opts0) as (Hd & -> & ->) by (unfold withBatch; by destruct (_ <=? _)).
  rewrite bool_decide_eq_false_2, Hsrc, Hdst by done. eapply triple_bind; [by apply triple_dry_pending|]. intros n1.
  eapply triple_bind; [apply triple_wrapped; by apply triple_dry|]. intros n2. apply triple_pure. intros _.
  apply (triple_bind _ _ _ (fun _ w' => w = w')).
  { unfold checkInProgress. eapply triple_bind.
    { apply triple_wrapped, (triple_read _ src _ (fun _ _ => True) w Hs); [intros r x r' E; by apply Count_ok in E as [-> _] | intros U r; apply Count_up]. }
    intros n. apply triple_pure. intros _. rewrite Hd. cbn [negb]. rewrite andb_false_r. cbn [andb]. destruct (0 <? n); [|by apply triple_ret].
    eapply triple_bind; [apply triple_report|]. intros u. apply triple_ret. by intros ? ->. }
  intros n3. eapply triple_bind; [apply triple_wrapped; by apply triple_dry|]. intros n4. apply triple_pure. intros _. apply triple_ret. by intros ? <-.
Qed.

Lemma sum64_small l : Forall (fun n => 0 <= n) l -> foldr Z.add 0 l <= MaxInt64 -> sum64 l = foldr Z.add 0 l.
Proof.
  unfold sum64. enough (forall a, 0 <= a -> Forall (fun n => 0 <= n) l -> a + foldr Z.add 0 l <= MaxInt64 ->
    fold_left (fun a n => wrap64 (a + n)) l a = a + foldr Z.add 0 l /\ 0 <= foldr Z.add 0 l) as Hall.
  { intros Hl Hs. destruct (Hall 0) as [E _]; [done | done | lia | lia]. }
  induction l as [|n l IH]; intros a Ha Hl Hs; cbn in *; [lia|]. apply Forall_cons in Hl as [Hn Hl].
  assert (0 <= foldr Z.add 0 l) as Hp by (clear -Hl; induction Hl; cbn; lia).
  rewrite wrap64_id by (unfold MinInt64; lia). destruct (IH (a + n)) as [E _]; [lia|done|lia|]. lia.
Qed.

(** The queues of a command at a shard are empty. *)
Definition drained (w : servers) (c command tenantID shardID : string) : Prop :=
  Forall (fun cmd => run_ccmd (srv w c) cmd = 0) (queueCounts command tenantID shardID).

(** The source counts of [Verify] add up to nothing exactly when it is drained. *)
Lemma counts_drained w c command tenantID shardID ns :
  ns = map (run_ccmd (srv w c)) (queueCounts command tenantID shardID) -> sized c w ->
  let nth k := default 0 (ns !! k) in
  sum64 (map_to_list ({[ "pending" := sum64 (take 10 ns); "delayed" := nth 10%nat; "inprog" := nth 11%nat; "dlq" := nth 12%nat ]} : gmap string Z)).*2 = 0
    <-> drained w c command tenantID shardID.
Proof.
  intros Ens Hz nth.
  assert (forall a b c d : Z, (map_to_list ({[ "pending" := a; "delayed" := b; "inprog" := c; "dlq" := d ]} : gmap string Z)).*2 = [c; b; d; a]) as ->
    by (intros; vm_compute; reflexivity).
  assert (Forall (fun n => 0 <= n < 2 ^ 32) ns) as Hall.
  { subst ns. apply Forall_forall. intros n (cmd & -> & Hin)%list_elem_of_fmap. destruct cmd; cbn; specialize (Hz k); unfold lst, zst, sst in Hz; lia. }
  assert (drained w c command tenantID shardID <-> Forall (fun n => n = 0) ns) as ->.
  { subst ns. unfold drained. rewrite Forall_map. done. }
  assert (length ns = 13%nat) as Hlen by (subst ns; unfold queueCounts; by rewrite length_map, length_app, length_map, length_seqZ). clear Ens. unfold nth. clear nth.
  do 13 (destruct ns as [|? ns]; [discriminate|]). destruct ns; [|discriminate]. cbn [take lookup list_lookup default].
  repeat (apply Forall_cons in Hall as [? Hall]). unfold id.
  rewrite (sum64_small [_; _; _; _; _; _; _; _; _; _]) by (first [repeat constructor; lia | cbn; unfold MaxInt64; lia]).
  rewrite sum64_small by (first [repeat constructor; cbn; lia | cbn; unfold MaxInt64; lia]). cbn [foldr]. rewrite !Forall_cons. split; [|lia].
  intros E. split_and!; try lia. done.
Qed.

Lemma triple_health clients ids stop w : triple stop (eq w) (HealthCheck clients ids) (fun _ _ => True).
Proof.
  apply (triple_conseq stop (fun _ => True) _ _ (fun _ _ => True)); [|done|done]. induction ids as [|i ids IH]; [by apply triple_ret|]. cbn [HealthCheck].
  apply (triple_bind _ _ _ (fun _ _ => True)); [|intros ok; apply (triple_bind _ _ _ (fun _ _ => True)); [exact IH | intros m; by apply triple_ret]].
  destruct (Client clients i); [|by apply triple_ret]. intros st _. by apply wp_try.
Qed.

(** [Verify] approves exactly when the source is drained and every shard answers. *)
Lemma verify_exact order clients command tenantID fromShard toShard src dst w :
  cm_clients clients !! fromShard = Some src -> cm_clients clients !! toShard = Some dst -> is_Some (w !! src) -> is_Some (w !! dst) -> sized src w ->
  triple False (eq w) (Verify order clients command tenantID fromShard toShard)
    (fun v _ => vr_OK v = true <-> drained w src command tenantID fromShard /\ map_Forall (fun _ h => h = true) (vr_Healthy v)).
Proof.
  intros Hsrc Hdst Hs Hd Hz. unfold Verify. unfold HasShard. rewrite Hsrc, Hdst, !bool_decide_eq_true_2 by eauto. cbn [negb].
  unfold Client. rewrite Hsrc, Hdst. eapply triple_bind; [apply triple_wrapped; unfold countQueueTasks; eapply triple_bind|].
  { apply triple_wrapped, (triple_read _ src _ (fun s x => x = map (run_ccmd s) (queueCounts command tenantID fromShard)) w Hs);
      [intros r x r' E; by apply Counts_ok in E | intros U r; apply Counts_up]. }
  { intros ns. apply triple_pure. intros Ens. apply triple_ret with (Post := fun sc w' => (sum64 (map_to_list sc).*2 = 0 <-> drained w src command tenantID fromShard) /\ w = w').
    intros ? <-. split; [|done]. by apply counts_drained. }
  intros sc. apply triple_pure. intros Hsc. apply (triple_bind _ _ _ (fun _ w' => w = w')).
  { apply triple_wrapped. unfold countQueueTasks. eapply triple_bind.
    { apply triple_wrapped, (triple_read _ dst _ (fun _ _ => True) w Hd); [intros r x r' E; by apply Counts_ok in E as [-> _] | intros U r; apply Counts_up]. }
    intros ns. apply triple_pure. intros _. by apply triple_ret. }
  intros dc. eapply triple_bind; [apply triple_health|]. intros healthy. apply triple_ret. intros w' _. cbn [vr_OK vr_Healthy].
  rewrite andb_true_iff, Z.eqb_eq, Hsc, forallb_forall. setoid_rewrite <- list_elem_of_In. rewrite map_Forall_to_list, Forall_forall.
  apply and_iff_compat_l. split; intros Hh [k h] Hin; by apply (Hh (k, h)).
Qed.
End checks.


(** A server in memory, and one that fails after a number of commands. *)
Module memory.

Definition zrange (k : string) (n : Z) (s : rstore) : list (string * spec_float) := take (Z.to_nat (n + 1)) (map_to_list (zset_at k s)).
Definition popped (k : string) (n : Z) (s : rstore) : list string := take (Z.to_nat n) (elements (set_at k s)).

Section commands.
Context {R : Type} (run : forall A, (rstore -> A * rstore) -> M R A) (data : R -> rstore).

Definition redis : Redis R := {|
  Count c := run Z (fun s => (run_ccmd s c, s));
  LRange k a b := run _ (fun s => (lrange (list_at k s) a b, s));
  RPush k l := run _ (fun s => (tt, put_list k (list_at k s ++ l) s));
  RPop k := run _ (fun s => (last (list_at k s), put_list k (take (length (list_at k s) - 1) (list_at k s)) s));
  ZRangeWithScores k _ b := run _ (fun s => (zrange k b s, s));
  ZAdd k l := run _ (fun s => (tt, put_zset k (fold_left (fun z '(m, score) => <[m := score]> z) l (zset_at k s)) s));
  ZRem k l := run _ (fun s => (tt, put_zset k (foldr delete (zset_at k s) l) s));
  SPopN k n := run _ (fun s => (popped k n s, put_set k (set_at k s ∖ list_to_set (popped k n s)) s));
  SAdd k l := run _ (fun s => (tt, put_set k (set_at k s ∪ list_to_set l) s));
  HMGet k fs := run _ (fun s => (map (fun f => hash_at k s !! f) fs, s));
  ZMScores k ms := run _ (fun s => (map (fun m => default (float64 0) (zset_at k s !! m)) ms, s));
  Exec l := run _ (fun s => (tt, fold_left run_wcmd l s));
  Counts l := run _ (fun s => (map (run_ccmd s) l, s));
  Ping := run _ (fun s => (tt, s));
  contents := data
|}.
End commands.

Definition always (A : Type) (f : rstore -> A * rstore) : M rstore A := fun s => let (x, s') := f s in (Ok x, s').
#[export] Instance up_redis : Redis rstore := redis always id.

(** The server answers [n] more commands. *)
Definition budget (A : Type) (f : rstore -> A * rstore) : M (nat * rstore) A := fun '(n, s) =>
  match n with O => (Err (ErrExternal "connection refused"), (O, s)) | S n' => let (x, s') := f s in (Ok x, (n', s')) end.
#[export] Instance flaky_redis : Redis (nat * rstore) := redis budget snd.

Lemma take_nodup {A} n (l : list A) : NoDup l -> NoDup (take n l).
Proof. intros Hl. rewrite <- (take_drop n l) in Hl. by apply NoDup_app in Hl as [? _]. Qed.

#[export] Instance up_laws : RedisLaws rstore.
Proof.
  split; cbn; unfold always; intros; simplify_eq; cbn; try done.
  - split; [done|]. unfold zrange. split; [|split].
    + rewrite fmap_take. apply take_nodup, NoDup_fst_map_to_list.
    + intros m score Hin%elem_of_take. destruct Hin as (i & Hi & _). by apply elem_of_map_to_list, (list_elem_of_lookup_2 _ i).
    + by rewrite length_take, length_map_to_list.
  - unfold popped. split; [apply take_nodup, NoDup_elements|]. split; [|split; [|done]].
    + intros m Hin%elem_of_take. destruct Hin as (i & Hi & _). by apply elem_of_elements, (list_elem_of_lookup_2 _ i).
    + by rewrite length_take.
Qed.

#[export] Instance up_up : RedisUp rstore.
Proof. split; done. Qed.
End memory.
Import memory.

Lemma sized_of src (w : servers) :
  bool_decide (map_Forall (fun _ l => Z.of_nat (length l) < 2 ^ 32) (st_lists (srv w src))) &&
  bool_decide (map_Forall (fun _ z => Z.of_nat (size z) < 2 ^ 32) (st_zsets (srv w src))) &&
  bool_decide (map_Forall (fun _ z => Z.of_nat (size z) < 2 ^ 32) (st_sets (srv w src))) = true -> sized src w.
Proof.
  rewrite !andb_true_iff, !bool_decide_eq_true. intros [[Hl Hz] Hs] k. unfold lst, zst, sst, list_at, zset_at, set_at.
  split_and!; [destruct (st_lists _ !! k) eqn:E | destruct (st_zsets _ !! k) eqn:E | destruct (st_sets _ !! k) eqn:E]; cbn;
    first [by apply (Hl _ _ E) | by apply (Hz _ _ E) | by apply (Hs _ _ E) | done].
Qed.

(** Runs of [demo] from the default shard to shard [s1]. *)
Module migrate_run.

Definition shards : ClientMap := mkClientMap {[ "default" := "redis-a"; "s1" := "redis-b" ]} "default".
Definition demo : MigrateOptions := mkMigrateOptions "demo" "" "default" "s1" 2 false true.
Definition demoKey (suffix : string) : string := buildQueueKey "demo" "" "default" suffix.

(** Three pending tasks of priority 5, the oldest last, a delayed task and a dead letter. *)
Definition source (inprog : gset string) : rstore :=
  mkStore ∅ {[ demoKey "pending:5" := ["t3"; "t2"; "t1"] ]} {[ demoKey "delayed" := {[ "t4" := float64 99 ]}; ttlIndexKey := {[ "t1" := float64 50 ]} ]}
    {[ demoKey "dlq" := {[ "t5" ]}; demoKey "inprog" := inprog ]} {[ tasksHashKey := {[ "t1" := "one"; "t2" := "two"; "t3" := "three"; "t4" := "four"; "t5" := "five" ]} ]}.
Definition before (inprog : gset string) : mig rstore := mkMig {[ "redis-a" := source inprog; "redis-b" := empty_store ]} [].

Definition dest (st : mig rstore) : rstore := default empty_store (mg_servers st !! "redis-b").


(** The run of the witness ends well, with five tasks moved; but the list needs
    two batches, and the newest task is then served first. *)
Lemma batches_break_fifo :
  let out := Migrate shards demo (before ∅) in
  (mr_Total <$> (match fst out with Ok r => Some r | Err _ => None end)) = Some 5 /\
  last (list_at (demoKey "pending:5") (source ∅)) = Some "t1" /\
  list_at (buildQueueKey "demo" "" "s1" "pending:5") (dest (snd out)) = ["t2"; "t1"; "t3"].
Proof. vm_compute. split_and!; reflexivity. Qed.

(** Tasks in progress stop the migration after the pending and the delayed
    queues were moved. *)
Lemma guard_comes_late :
  let out := Migrate shards demo (before {[ "t6" ]}) in
  is_ok (fst out) = false /\ list_at (buildQueueKey "demo" "" "s1" "pending:5") (dest (snd out)) = ["t2"; "t1"; "t3"].
Proof. vm_compute. split; reflexivity. Qed.

(** The two names of the default shard are one place: the delayed tasks are
    added to the set they are then removed from. *)
Lemma renaming_loses_delayed :
  let out := Migrate (NewSingleClientMap "redis-a") (mkMigrateOptions "demo" "" "" "default" 0 false false) (before ∅) in
  (mr_Delayed <$> (match fst out with Ok r => Some r | Err _ => None end)) = Some 1 /\
  (zset_at (demoKey "delayed") <$> (mg_servers (snd out) !! "redis-a")) = Some ∅ /\ zset_at (buildQueueKey "demo" "" "s1" "delayed") (dest (snd out)) = ∅.
Proof. vm_compute. split_and!; reflexivity. Qed.

(** Dead letters leave the source before they are copied: when a command fails
    in between they are in no queue. *)
Lemma failure_loses_dead_letters :
  let st : mig (nat * rstore) := mkMig {[ "redis-a" := (14%nat, mkStore ∅ ∅ ∅ {[ demoKey "dlq" := {[ "t5" ]} ]} ∅); "redis-b" := (100%nat, empty_store) ]} [] in
  let out := Migrate shards demo st in
  is_ok (fst out) = false /\
  forall c r, mg_servers (snd out) !! c = Some r -> set_at (demoKey "dlq") (snd r) = ∅ /\ set_at (buildQueueKey "demo" "" "s1" "dlq") (snd r) = ∅.
Proof.
  intros st out.
  assert (bool_decide (map_Forall (fun _ (r : nat * rstore) => set_at (demoKey "dlq") (snd r) = ∅ /\ set_at (buildQueueKey "demo" "" "s1" "dlq") (snd r) = ∅)
    (mg_servers (snd out))) = true) as Hall by (vm_compute; reflexivity).
  split; [vm_compute; reflexivity|]. apply bool_decide_eq_true in Hall. intros c r. apply Hall.
Qed.
End migrate_run.
