(* ===== verification/RedisSharded.v ===== *)
(** The repositories over several Redis servers
    ([src/internal/repository/sharded_task_repository.go],
    [sharded_result_repository.go]).

    A call that fans out runs on every shard at once, each on its own server.
    [arrival] is the order in which the answers come; the shards behind the
    decisive answer are cancelled, and [late] says which of them still run.  A
    cancelled run is one whose round trips fail. *)

From Stdlib Require Import SpecFloat.
From stdpp Require Import pretty.
From S2P Require Import Prelude GoTime Domain Keys GoText GoParse Float64 RateLimit Bloom IdemBloom LeaseTable PebbleDB Auth Middleware Backoff TaskRepo ResultRepo.
From S2P Require Import RaftAddr Shards RedisStore RedisTasks RedisLease RedisResults Migrate.
Import shard.

Record shardedRepo (S : Type) := mkSharded { sr_repos : gmap string S; sr_default : string; sr_supplier : StaticShardSupplier }.
Arguments mkSharded {S}.
Arguments sr_repos {S}.
Arguments sr_default {S}.
Arguments sr_supplier {S}.

Module redisSharded.

Definition isNotFoundErr (e : error) : bool := bool_decide (error_text e = "not-found").

Section routing.
Context {S : Type}.
Variable upper : string -> string.
Abbreviation Sh := (shardedRepo S).

Definition set_repo (sid : string) (x : S) (s : Sh) : Sh := mkSharded (<[sid := x]> (sr_repos s)) (sr_default s) (sr_supplier s).

Definition resolveShard (s : Sh) (cmd tenantID : string) : string :=
  let sid := CurrentShard upper (sr_supplier s) cmd tenantID in
  if bool_decide (sid = "") then sr_default s else sid.

(** The key of the repository of a shard. *)
Definition repoForShard (s : Sh) (sid : string) : string := match sr_repos s !! sid with Some _ => sid | None => sr_default s end.

Definition onRepo {A} (sid : string) (m : M S A) : M Sh A := fun s =>
  match sr_repos s !! sid with
  | None => (Err (Panic "nil repository"), s)
  | Some x => let (r, x') := m x in (r, set_repo sid x' s)
  end.

(** The repository that a command and a tenant resolve to. *)
Definition routed {A} (cmd tenantID : string) (m : M S A) : M Sh A := fun s => onRepo (repoForShard s (resolveShard s cmd tenantID)) m s.

(** ** Fan-out *)

Section fan.
Variable late : string -> bool.

Definition runLate {A} (rest : list string) (op : M S A) : M Sh unit :=
  mfor rest (fun sid => if late sid then let! _ := mtry (onRepo sid op) in mret tt else mret tt).

(** The first answer that is not a missing task decides.  A map of clients has
    at least one shard. *)
Fixpoint fanOut {A} (arrival : list string) (op : M S A) (lastNotFound : option error) : M Sh A :=
  match arrival with
  | [] => mthrow (default (Panic "no shards") lastNotFound)
  | sid :: rest =>
      let! r := mtry (onRepo sid op) in
      match r with
      | Ok a => runLate rest op ;;! mret a
      | Err e => if isNotFoundErr e then fanOut rest op (Some e) else runLate rest op ;;! mthrow e
      end
  end.

(** All answers are needed; the first error is returned. *)
Fixpoint gather {A B} (arrival : list string) (op : M S A) (acc : B) (add : B -> A -> B) : M Sh B :=
  match arrival with
  | [] => mret acc
  | sid :: rest =>
      let! r := mtry (onRepo sid op) in
      match r with
      | Ok a => gather rest op (add acc a) add
      | Err e => runLate rest op ;;! mthrow e
      end
  end.
End fan.
End routing.

(** ** Tasks *)

Section tasks.
Context {R : Type} `{Server R} `{JSON}.
Variable E : redisEnv.
Abbreviation Sh := (shardedRepo (taskRedisRepo R)).
Abbreviation route := (routed (S := taskRedisRepo R) (en_upper E)).

Definition NewShardedTaskRepository (clients : gmap string R) (defaultShard backoffPolicy : string) (base max : Z) (supplier : option StaticShardSupplier) (now : Z) : Sh :=
  mkSharded ((fun rdb => redisTasks.NewTaskRepository E rdb backoffPolicy base max (Some (default NewDefaultShardSupplier supplier)) now) <$> clients) defaultShard
    (default NewDefaultShardSupplier supplier).

Definition EnqueueWithReady (newID newID' : string) (now : Z) (cmd payload : string) (priority : Z) (webhook : string) (maxAttempts : Z)
  (idempotencyKey : string) (visibleAt : Z) (tenantID : string) : M Sh (Task * bool) :=
  route cmd tenantID (redisTasks.EnqueueWithReady E newID newID' now cmd payload priority webhook maxAttempts idempotencyKey visibleAt tenantID).

Definition Enqueue (newID newID' : string) (now : Z) (cmd payload : string) (priority : Z) (webhook : string) (maxAttempts : Z)
  (idempotencyKey : string) (visibleAt : Z) (tenantID : string) : M Sh Task :=
  route cmd tenantID (redisTasks.Enqueue E newID newID' now cmd payload priority webhook maxAttempts idempotencyKey visibleAt tenantID).

Fixpoint Claim (now : Z) (workerID : string) (commands : list string) (leaseSeconds inspectLimit maxAttemptsDefault : Z) (tenantID : string) : M Sh (option Task) :=
  match commands with
  | [] => mret None
  | cmd :: rest =>
      let! t := route cmd tenantID (redisTasks.Claim E now workerID [cmd] leaseSeconds inspectLimit maxAttemptsDefault tenantID) in
      match t with
      | Some t => mret (Some t)
      | None => Claim now workerID rest leaseSeconds inspectLimit maxAttemptsDefault tenantID
      end
  end.

Definition MoveDueDelayed (now : Z) (cmd : string) (limit : Z) : M Sh Z := route cmd "" (redisTasks.MoveDueDelayed E now cmd limit).

Section fan.
Variables (late : string -> bool) (arrival : list string).

Definition Heartbeat (now : Z) (taskID workerID : string) (extendSeconds : Z) : M Sh unit :=
  fanOut late arrival (redisTasks.Heartbeat now taskID workerID extendSeconds) None.
Definition Abandon (now : Z) (taskID workerID : string) : M Sh unit := fanOut late arrival (redisTasks.Abandon E now taskID workerID) None.
Definition Nack (now : Z) (taskID workerID : string) (delaySeconds maxAttemptsDefault : Z) (reason : string) : M Sh (Z * bool) :=
  fanOut late arrival (redisTasks.Nack E now taskID workerID delaySeconds maxAttemptsDefault reason) None.
Definition Get (now : Z) (taskID : string) : M Sh Task := fanOut late arrival (redisTasks.Get now taskID) None.

Definition AdminQueues (now : Z) : M Sh (gmap string Z) :=
  gather late arrival (redisTasks.AdminQueues E now) ∅ (union_with (fun a b => Some (wrap64 (a + b)))).
End fan.

(** The answers of the shards a command may be on: [arrival] orders them. *)
Definition PendingLength (late : string -> bool) (arrival : list string -> list string) (now : Z) (cmd : string) : M Sh Z := fun s =>
  gather late (map (repoForShard s) (arrival (QueueShards (en_upper E) (sr_supplier s) cmd ""))) (redisTasks.PendingLength E now cmd) 0 (fun a n => wrap64 (a + n)) s.

Definition addStats (a b : QueueStats) : QueueStats :=
  mkStats (qs_Command a) (wrap64 (qs_Ready a + qs_Ready b)) (wrap64 (qs_Delayed a + qs_Delayed b)) (wrap64 (qs_InProgress a + qs_InProgress b)) (wrap64 (qs_DLQ a + qs_DLQ b)).

Definition QueueStats (late : string -> bool) (arrival : list string -> list string) (now : Z) (cmd tenantID : string) : M Sh QueueStats := fun s =>
  gather late (map (repoForShard s) (arrival (QueueShards (en_upper E) (sr_supplier s) cmd tenantID))) (redisTasks.QueueStats E now cmd tenantID)
    (mkStats cmd 0 0 0 0) addStats s.

(** The shards in the order of the map, each with its share of what is left;
    the count that the code returns beside an error is left out. *)
Fixpoint cleanupLoop (shards : list string) (perShardLimit remaining totalDeleted now before : Z) : M Sh Z :=
  match shards with
  | [] => mret totalDeleted
  | sid :: rest =>
      if remaining <=? 0 then mret totalDeleted
      else
        let! deleted := onRepo sid (redisTasks.CleanupExpired E now (Z.min perShardLimit remaining) before) in
        cleanupLoop rest perShardLimit (wrap64 (remaining - deleted)) (wrap64 (totalDeleted + deleted)) now before
  end.

Definition CleanupExpired (order : list string -> list string) (now limit before : Z) : M Sh Z := fun s =>
  let n := Z.of_nat (size (sr_repos s)) in
  if n =? 0 then (Err (Panic "integer divide by zero"), s)
  else
    let perShardLimit := Z.quot limit n in
    cleanupLoop (order (elements (dom (sr_repos s)))) (if perShardLimit <=? 0 then 1 else perShardLimit) limit 0 now before s.
End tasks.

(** ** Results *)

Section results.
Context {R : Type} `{Server R} `{JSON}.
Variable upper : string -> string.
Abbreviation Rs := (shardedRepo R).

Definition NewShardedResultRepository (clients : gmap string R) (defaultShard : string) (supplier : option StaticShardSupplier) : Rs :=
  mkSharded clients defaultShard (default NewDefaultShardSupplier supplier).

(** The operation closes over the context of the caller, which is not cancelled:
    every shard runs it. *)
Definition fanOutErr (arrival : list string) (op : M R unit) : M Rs unit := fanOut (fun _ => true) arrival op None.

Definition SaveResult (arrival : list string) (now : Z) (rec : ResultRecord) (cmd tenantID : string) : M Rs unit :=
  if bool_decide (cmd <> "") then routed upper cmd tenantID (redisResults.SaveResult now rec)
  else fanOutErr arrival (redisResults.SaveResult now rec).

Definition UpdateTaskOnComplete (now : Z) (id cmd tenantID status errorMsg : string) : M Rs unit := fun s =>
  routed upper cmd tenantID (redisResults.UpdateTaskOnComplete upper (sr_supplier s) now id cmd tenantID status errorMsg) s.
Definition RemoveFromInprogAndClearLease (now : Z) (id cmd tenantID : string) : M Rs unit := fun s =>
  routed upper cmd tenantID (redisResults.RemoveFromInprogAndClearLease upper (sr_supplier s) now id cmd tenantID) s.

Section fan.
Variables (late : string -> bool) (arrival : list string).

Definition GetTask (now : Z) (id : string) : M Rs Task := fanOut late arrival (redisResults.GetTask now id) None.
Definition GetResult (now : Z) (id : string) : M Rs ResultRecord := fanOut late arrival (redisResults.GetResult now id) None.

(** An answer with a task decides; any other error is kept as the last. *)
Fixpoint taskAndResult (arrival : list string) (now : Z) (id : string) (last : option Task * option ResultRecord * option error)
  : M Rs (option Task * option ResultRecord * option error) :=
  match arrival with
  | [] => mret last
  | sid :: rest =>
      let! r := onRepo sid (redisResults.GetTaskAndResult now id) in
      if bool_decide (snd r = None) || (bool_decide (is_Some (fst (fst r))) && bool_decide (snd (fst r) = None))
      then runLate late rest (redisResults.GetTaskAndResult now id) ;;! mret r
      else taskAndResult rest now id r
  end.

Definition GetTaskAndResult (now : Z) (id : string) : M Rs (option Task * option ResultRecord * option error) :=
  taskAndResult arrival now id (None, None, None).

(** The maps of the shards that answer, later ones over earlier ones. *)
Fixpoint mergeBatch (arrival : list string) (now : Z) (ids : list string) (merged : gmap string Task) (firstErr : option error) : M Rs (gmap string Task) :=
  match arrival with
  | [] => match firstErr with
          | Some e => if bool_decide (size merged = 0%nat) then mthrow e else mret merged
          | None => mret merged
          end
  | sid :: rest =>
      let! r := mtry (onRepo sid (redisResults.GetTasksBatch now ids)) in
      match r with
      | Ok m => mergeBatch rest now ids (m ∪ merged) firstErr
      | Err e => mergeBatch rest now ids merged (match firstErr with Some e' => Some e' | None => Some e end)
      end
  end.

Definition GetTasksBatch (now : Z) (ids : list string) : M Rs (gmap string Task) :=
  match ids with [] => mret ∅ | _ => mergeBatch arrival now ids ∅ None end.
End fan.

(** Items by shard. *)
Definition addTo {X} (sid : string) (x : X) (m : gmap string (list X)) : gmap string (list X) := <[sid := default [] (m !! sid) ++ [x]]> m.

Fixpoint groupUpdates (s : Rs) (tasks : gmap string Task) (updates : list TaskCompleteUpdate) (grouped : gmap string (list TaskCompleteUpdate))
  : res (gmap string (list TaskCompleteUpdate)) :=
  match updates with
  | [] => Ok grouped
  | u :: rest =>
      match tasks !! up_ID u with
      | None => Err (ErrText ("task " +:+ up_ID u +:+ " not found"))
      | Some t => groupUpdates s tasks rest (addTo (resolveShard upper s t.(Command) t.(TenantID)) u grouped)
      end
  end.

(** Every group runs, in the order given; the first error is returned. *)
Fixpoint runGroups {X} (l : list (string * list X)) (op : StaticShardSupplier -> list X -> M R unit) (firstErr : option error) : M Rs unit :=
  match l with
  | [] => match firstErr with Some e => mthrow e | None => mret tt end
  | (sid, g) :: rest =>
      let! r := mtry (fun s => onRepo (repoForShard s sid) (op (sr_supplier s) g) s) in
      runGroups rest op (match firstErr, r with None, Err e => Some e | _, _ => firstErr end)
  end.

Definition locate (arrival : list string) (now : Z) (ids : list string) : M Rs (gmap string Task) := fun s =>
  match GetTasksBatch arrival now ids s with
  | (Err (Panic p), s') => (Err (Panic p), s')
  | (Err e, s') => (Err (ErrWrap "batch locate tasks" e), s')
  | r => r
  end.

Definition BatchUpdateTasksOnComplete (arrival : list string) (order : list (string * list TaskCompleteUpdate) -> list (string * list TaskCompleteUpdate))
  (now : Z) (updates : list TaskCompleteUpdate) : M Rs unit :=
  match updates with
  | [] => mret tt
  | _ =>
      let! tasks := locate arrival now (map up_ID updates) in
      fun s => match groupUpdates s tasks updates ∅ with
               | Err e => (Err e, s)
               | Ok grouped => runGroups (order (map_to_list grouped)) (fun supplier => redisResults.BatchUpdateTasksOnComplete upper supplier now) None s
               end
  end.

Definition groupDeletes (s : Rs) (deletes : list TaskDeleteInfo) : gmap string (list TaskDeleteInfo) :=
  fold_left (fun m d => addTo (resolveShard upper s (del_Command d) (del_TenantID d)) d m) deletes ∅.

Definition BatchRemoveFromInprogAndClearLease (order : list (string * list TaskDeleteInfo) -> list (string * list TaskDeleteInfo))
  (order' : list (string * string * list string) -> list (string * string * list string)) (now : Z) (deletes : list TaskDeleteInfo) : M Rs unit :=
  match deletes with
  | [] => mret tt
  | _ => fun s => runGroups (order (map_to_list (groupDeletes s deletes)))
                    (fun supplier => redisResults.BatchRemoveFromInprogAndClearLease upper supplier order' now) None s
  end.
End results.
End redisSharded.
Import redisSharded.

(** ** The owner answers *)

Section owner.
Context {R : Type} `{SL : ServerLaws R} `{JSON}.
Variable E : redisEnv.
Abbreviation Repo := (taskRedisRepo R).
Abbreviation Sh := (shardedRepo Repo).

Variables (now : Z) (id owner : string).

(** The shard has no body for the task. *)
Definition absent (x : Repo) : Prop := default "" (hash_at redisTasks.keyTasksHash (stored (rt_rdb x)) !! id) = "".

(** A shard without the body takes the task for missing, whether its read is
    answered or not, and stores what it stored. *)
Lemma Get_absent (x : Repo) : absent x -> exists x', redisTasks.Get now id x = (Err (ErrText "not-found"), x') /\ stored (rt_rdb x') = stored (rt_rdb x).
Proof.
  intros Hx. unfold redisTasks.Get, redisTasks.hgetTask, redisTasks.roundTrip, mbnd, mtry, mlift.
  destruct (round now [HGET redisTasks.keyTasksHash id] (rt_rdb x)) as [[xs|e] r'] eqn:Er; cbn.
  - apply round_ok in Er. cbn in Er. injection Er as -> Hs. cbn. destruct (hash_at redisTasks.keyTasksHash (stored (rt_rdb x)) !! id) as [js|] eqn:Ej; cbn.
    + unfold absent in Hx. rewrite Ej in Hx. cbn in Hx. unfold Datatypes.id in Hx. subst js. rewrite bool_decide_eq_true_2 by done. by eexists.
    + rewrite ?bool_decide_eq_true_2 by done. by eexists.
  - apply round_err in Er as [k Hk]. rewrite ?bool_decide_eq_true_2 by done. eexists. split; [done|]. cbn. rewrite Hk. by destruct k as [|[|k]].
Qed.

(** The operation begins with the read of the body. *)
Definition reads {A} (op : M Repo A) : Prop := exists k, forall x, op x = mbnd (redisTasks.Get now id) k x.

Lemma reads_absent {A} (op : M Repo A) x : reads op -> absent x -> exists x', op x = (Err (ErrText "not-found"), x') /\ stored (rt_rdb x') = stored (rt_rdb x).
Proof. intros [k Hk] (x' & Hg & Hs)%Get_absent. exists x'. rewrite Hk. unfold mbnd. by rewrite Hg. Qed.

(** An answer that is not a missing task is the owner's. *)
Definition same_answer {A} (a r : res A) : Prop :=
  match r with
  | Ok _ => a = r
  | Err e => if isNotFoundErr e then exists e', a = Err e' /\ isNotFoundErr e' = true else a = r
  end.

(** The owner ran the operation; the others store what they stored. *)
Definition only_owner (x' : Repo) (s s' : Sh) : Prop :=
  sr_repos s' !! owner = Some x' /\
  forall sid x, sid <> owner -> sr_repos s !! sid = Some x -> exists y, sr_repos s' !! sid = Some y /\ stored (rt_rdb y) = stored (rt_rdb x).

(** No shard but the owner has the body, and each of [l] is a shard. *)
Definition others_absent (l : list string) (s : Sh) : Prop :=
  (forall sid, sid ∈ l -> is_Some (sr_repos s !! sid)) /\ (forall sid x, sid <> owner -> sr_repos s !! sid = Some x -> absent x).

Lemma onRepo_other {A} (op : M Repo A) l sid s : reads op -> sid <> owner -> others_absent (sid :: l) s ->
  exists y, onRepo sid op s = (Err (ErrText "not-found"), set_repo sid y s) /\
    exists x, sr_repos s !! sid = Some x /\ stored (rt_rdb y) = stored (rt_rdb x).
Proof.
  intros Hop Hne [Hl Ha]. destruct (Hl sid ltac:(left)) as [x Hx]. destruct (reads_absent op x Hop (Ha sid x Hne Hx)) as (y & Hy & Hs).
  exists y. unfold onRepo. rewrite Hx, Hy. split; [done | by exists x].
Qed.

Lemma absent_set sid x y l s : sr_repos s !! sid = Some x -> stored (rt_rdb y) = stored (rt_rdb x) -> others_absent (sid :: l) s -> others_absent l (set_repo sid y s).
Proof.
  intros Hx Hy [Hl Ha]. split.
  - intros z Hz. cbn. destruct (decide (z = sid)) as [->|]; [rewrite lookup_insert_eq; by eexists | rewrite lookup_insert_ne by done; apply Hl; by right].
  - intros z w Hz. cbn. rewrite lookup_insert_Some. intros [[<- <-]|[_ Hw]]; [|by apply (Ha z)]. unfold absent. rewrite Hy. by apply (Ha sid).
Qed.

Lemma only_owner_set sid x y x' s s' : sid <> owner -> sr_repos s !! sid = Some x -> stored (rt_rdb y) = stored (rt_rdb x) ->
  only_owner x' (set_repo sid y s) s' -> only_owner x' s s'.
Proof.
  intros Hne Hx Hy [Ho Hr]. split; [done|]. intros z w Hz Hw. destruct (decide (z = sid)) as [->|Hzs].
  - simplify_eq. destruct (Hr sid y Hz) as (v & Hv & Hs); [cbn; by rewrite lookup_insert_eq|]. exists v. by rewrite Hs.
  - apply (Hr z w Hz). cbn. by rewrite lookup_insert_ne.
Qed.

Lemma runLate_others {A} late (op : M Repo A) x' l s : reads op -> owner ∉ l -> others_absent l s -> sr_repos s !! owner = Some x' ->
  exists s', runLate late l op s = (Ok tt, s') /\ only_owner x' s s'.
Proof.
  intros Hop. revert s. induction l as [|sid l IH]; intros s Ho Hs Hx'.
  { exists s. split; [done|]. split; [done|]. intros z w _ Hw. by exists w. }
  apply not_elem_of_cons in Ho as [Hne Ho]. unfold runLate. cbn [mfor]. unfold mbnd at 1. destruct (late sid).
  - destruct (onRepo_other op l sid s Hop (not_eq_sym Hne) Hs) as (y & Hy & x & Hx & Hst). unfold mbnd at 1, mtry. rewrite Hy. cbn.
    destruct (IH (set_repo sid y s) Ho) as (s' & Hrun & Hown); [by eapply absent_set | cbn; by rewrite lookup_insert_ne |].
    exists s'. split; [exact Hrun|]. by eapply only_owner_set.
  - cbn. apply IH; [done| |done]. destruct Hs as [Hl Ha]. split; [|done]. intros z Hz. apply Hl. by right.
Qed.

Lemma fanOut_step {A} late (op : M Repo A) sid l last s r s1 : onRepo sid op s = (r, s1) -> fanOut late (sid :: l) op last s =
  match r with
  | Ok a => (runLate late l op ;;! mret a) s1
  | Err e => if isNotFoundErr e then fanOut late l op (Some e) s1 else (runLate late l op ;;! mthrow e) s1
  end.
Proof. intros Ho. cbn [fanOut]. unfold mbnd at 1, mtry. rewrite Ho. destruct r as [a|e]; [done|]. by destruct (isNotFoundErr e). Qed.

Lemma fanOut_missing {A} late (op : M Repo A) x' l s e : reads op -> owner ∉ l -> others_absent l s -> sr_repos s !! owner = Some x' -> isNotFoundErr e = true ->
  exists e' s', fanOut late l op (Some e) s = (Err e', s') /\ isNotFoundErr e' = true /\ only_owner x' s s'.
Proof.
  intros Hop. revert s e. induction l as [|sid l IH]; intros s e Ho Hs Hx' He.
  { exists e, s. split_and!; [done..|]. split; [done|]. intros z w _ Hw. by exists w. }
  apply not_elem_of_cons in Ho as [Hne Ho]. destruct (onRepo_other op l sid s Hop (not_eq_sym Hne) Hs) as (y & Hy & x & Hx & Hst).
  rewrite (fanOut_step _ _ _ _ _ _ _ _ Hy). cbn -[fanOut].
  destruct (IH (set_repo sid y s) (ErrText "not-found") Ho) as (e' & s' & Hf & He' & Hown); [by eapply absent_set|cbn; by rewrite lookup_insert_ne|done|].
  exists e', s'. split_and!; [exact Hf | done | by eapply only_owner_set].
Qed.

Lemma fanOut_owner {A} late (op : M Repo A) x l s last : reads op -> NoDup l -> owner ∈ l -> others_absent l s -> sr_repos s !! owner = Some x ->
  same_answer (fst (fanOut late l op last s)) (fst (op x)) /\ only_owner (snd (op x)) s (snd (fanOut late l op last s)).
Proof.
  intros Hop. revert s last. induction l as [|sid l IH]; intros s last Hnd Hin Hs Hx; [by apply not_elem_of_nil in Hin|].
  apply NoDup_cons in Hnd as [Hsid Hnd]. destruct (decide (sid = owner)) as [->|Hne].
  - destruct (op x) as [r x'] eqn:Eo. cbn [fst snd].
    assert (onRepo owner op s = (r, set_repo owner x' s)) as Hrep by (unfold onRepo; by rewrite Hx, Eo).
    rewrite (fanOut_step _ _ _ _ _ _ _ _ Hrep).
    assert (others_absent l (set_repo owner x' s)) as Hs'.
    { destruct Hs as [Hl Ha]. split; intros z; cbn; [|intros w Hz; rewrite lookup_insert_ne by done; by apply Ha].
      intros Hz. destruct (decide (z = owner)) as [->|]; [rewrite lookup_insert_eq; by eexists | rewrite lookup_insert_ne by done; apply Hl; by right]. }
    assert (sr_repos (set_repo owner x' s) !! owner = Some x') as Hx' by (cbn; by rewrite lookup_insert_eq).
    destruct (runLate_others late op x' l _ Hop Hsid Hs' Hx') as (s' & Hrun & Hown).
    assert (only_owner x' s s') as Hown'.
    { destruct Hown as [Ho Hr]. split; [done|]. intros z w Hz Hw. apply Hr; [done|]. cbn. by rewrite lookup_insert_ne. }
    destruct r as [a|e]; [unfold mbnd; rewrite Hrun; by split|]. cbn [same_answer]. destruct (isNotFoundErr e) eqn:En; [|unfold mbnd; rewrite Hrun; by split].
    destruct (fanOut_missing late op x' l _ e Hop Hsid Hs' Hx' En) as (e' & s2 & Hf & He' & [Ho Hr]). rewrite Hf. split; [by exists e'|].
    split; [done|]. intros z w Hz Hw. apply Hr; [done|]. cbn. by rewrite lookup_insert_ne.
  - destruct (onRepo_other op l sid s Hop Hne Hs) as (y & Hy & x0 & Hx0 & Hst). rewrite (fanOut_step _ _ _ _ _ _ _ _ Hy). cbn -[fanOut].
    destruct (IH (set_repo sid y s) (Some (ErrText "not-found")) Hnd) as [Ha Ho]; [by apply elem_of_cons in Hin as [-> | ]|by eapply absent_set|cbn; by rewrite lookup_insert_ne|].
    split; [exact Ha|]. by eapply only_owner_set.
Qed.

(** The fan-out of [op] acts as [op] at the owner. *)
Definition acts_at_owner {A} (fan : M Sh A) (op : M Repo A) (x : Repo) (s : Sh) : Prop :=
  same_answer (fst (fan s)) (fst (op x)) /\ only_owner (snd (op x)) s (snd (fan s)).

(** C17. A task whose body is on one shard only is worked on at that shard: its
    heartbeat, its return, its rejection and its read are answered as the owner
    answers them, in whatever order the shards answer, whichever of them still
    run after the answer and whichever of their reads fail; no other shard's
    store changes. *)
Theorem sharded_owner_answers late arrival workerID extend delay maxAttempts reason x s :
  NoDup arrival -> owner ∈ arrival -> others_absent arrival s -> sr_repos s !! owner = Some x ->
  acts_at_owner (Heartbeat late arrival now id workerID extend) (redisTasks.Heartbeat now id workerID extend) x s /\
  acts_at_owner (Abandon E late arrival now id workerID) (redisTasks.Abandon E now id workerID) x s /\
  acts_at_owner (Nack E late arrival now id workerID delay maxAttempts reason) (redisTasks.Nack E now id workerID delay maxAttempts reason) x s /\
  acts_at_owner (Get late arrival now id) (redisTasks.Get now id) x s.
Proof.
  intros Hnd Hin Hs Hx.
  split_and!; (apply fanOut_owner; [|done..]); [by eexists..|]. exists mret. intros y. unfold mbnd. by destruct (redisTasks.Get now id y) as [[] ?].
Qed.
End owner.

(** ** Runs *)

Module sharded_run.
Import memServer upServer redis_run memory.
#[local] Existing Instances framed.codec framed.codec_laws.

(** Commands of [demo] go to [s1]. *)
Definition supplier : StaticShardSupplier := mkSupplier "default" {[ "DEMO" := "s1" ]} ∅.
Definition shardRepo {R} (r : R) : taskRedisRepo R := mkRedisRepo r "fixed" 5 900 supplier filter filter filter 0 ∅.

(** [store] is the server of [s1]; the read of the other server is lost. *)
Definition two : shardedRepo (taskRedisRepo memServer.state) :=
  mkSharded {[ "default" := shardRepo ([false], empty_store); "s1" := shardRepo ([], store) ]} "default" supplier.

Lemma two_absent : others_absent "a" "s1" ["default"; "s1"] two.
Proof.
  split.
  - intros sid [-> | [-> | []%not_elem_of_nil]%elem_of_cons]%elem_of_cons; by eexists.
  - intros sid x Hne. cbn. rewrite lookup_insert_Some. intros [[<- <-]|[_ [<- _]%lookup_singleton_Some]]; done.
Qed.

Lemma sharded_owner_answers_witness :
  let nack := Nack env (fun _ => true) ["default"; "s1"] t0 "a" "w1" 5 5 "" in
  acts_at_owner "s1" nack (redisTasks.Nack env t0 "a" "w1" 5 5 "") (shardRepo ([], store)) two /\ fst (nack two) = Ok (5, false).
Proof.
  split; [|vm_compute; reflexivity].
  apply (sharded_owner_answers env t0 "a" "s1" (fun _ => true) ["default"; "s1"] "w1" 30 5 5 "" (shardRepo ([], store)) two).
  - apply NoDup_ListNoDup. repeat constructor; cbn; intuition discriminate.
  - right. left.
  - apply two_absent.
  - reflexivity.
Defined.

(** *** After a migration

    The migrator leaves the bodies at the source.  Task [b] is moved to [s1] and
    worker [w2] claims it there; the answer to the worker's rejection is then
    that of the shard that answers first. *)
Definition moved : mig rstore :=
  snd (migrator.Migrate (mkClientMap {[ "default" := "redis-a"; "s1" := "redis-b" ]} "default") (mkMigrateOptions "demo" "" "default" "s1" 10 false true)
    (mkMig {[ "redis-a" := mkStore ∅ {[ pendingKey := ["b"] ]} ∅ ∅ {[ redisTasks.keyTasksHash := {[ "b" := marshal_task taskB ]} ]}; "redis-b" := empty_store ]} [])).
Definition server_of (c : string) : rstore := default empty_store (mg_servers moved !! c).
Definition migrated : shardedRepo (taskRedisRepo rstore) :=
  mkSharded {[ "default" := shardRepo (server_of "redis-a"); "s1" := shardRepo (server_of "redis-b") ]} "default" supplier.

Lemma stale_copy_answers :
  let claimed := Claim env (t0 + second) "w2" ["demo"] 30 10 5 "" migrated in
  let nack arrival := fst (Nack env (fun _ => false) arrival (t0 + 2 * second) "b" "w2" 5 5 "" (snd claimed)) in
  (match fst claimed with Ok (Some t) => t.(ID) | _ => "" end) = "b" /\
  nack ["s1"; "default"] = Ok (5, false) /\ nack ["default"; "s1"] = Err (ErrText "not-owner").
Proof. vm_compute. split_and!; reflexivity. Qed.

(** *** Batches

    Tasks of two shards are not read in one batch: each shard misses one of them
    and fails as a whole. *)
Definition apart : shardedRepo rstore :=
  mkSharded {[ "default" := mkStore ∅ ∅ ∅ ∅ {[ redisTasks.keyTasksHash := {[ "a" := marshal_task taskA ]} ]}; "s1" := mkStore ∅ ∅ ∅ ∅ {[ redisTasks.keyTasksHash := {[ "b" := marshal_task taskB ]} ]} ]}
    "default" supplier.

Lemma batch_across_shards_fails :
  let batch ids := fst (GetTasksBatch ["default"; "s1"] t0 ids apart) in
  is_ok (batch ["a"]) = true /\ is_ok (batch ["b"]) = true /\ batch ["a"; "b"] = Err (ErrWrap "redis pipeline" redisNil).
Proof. vm_compute. split_and!; reflexivity. Qed.
End sharded_run.
