(* ===== verification/Wiring.v ===== *)
(** The assembly of a process ([src/pkg/app/application_pebble.go], with
    [worker_stream.go], [producer_stream.go] and the opening and closing of a
    raft group in [src/internal/raft/db.go]): what is opened in which order, what
    each failure closes, how the parts are configured, and the shutdown.

    The state is a ledger of what was opened and closed, the newest first.
    [fails] decides which calls of the operating system, the engine and the
    consensus library fail.  Logging, tracing and the HTTP engine are left out. *)

From stdpp Require Import pretty.
From S2P Require Import Prelude GoTime Domain Keys GoText RateLimit PebbleDB Raft RaftAddr MuxTransport Auth Middleware Ring.
From S2P Require Import Backoff TaskRepo Reaper Scheduler Notifier WorkerStream Config.

Record pebbleConfig := mkPebbleConfig { pb_Path : string; pb_FsyncOnCommit : bool; pb_NumShards : Z }.

(** ** The ledger *)

Inductive resource :=
  | RPebble (i : nat) | RTransport (i : nat) | RRaft (i : nat) | RMux | RCluster | RPool | RWorkerStream | RProducerStream | RBackground.

Inductive event := Opened (r : resource) | Closed (r : resource).

Definition ledger : Type := list event.

(** The calls that can fail. *)
Inductive step :=
  | SMkdir | SMkdirShard (i : nat) | SOpenPebble (i : nat) | SListenMux | SSnapshots (i : nat) | SListenRaft (i : nat) | SHasState (i : nat)
  | SBootstrap (i : nat) | SNewRaft (i : nat) | SRecoverSeq (i : nat) | SShutdown (i : nat) | SListenCluster | SListenWorker | SListenProducer.

(** The repositories behind the services. *)
Inductive repoKind := RepoLocal | RepoSharded (n : nat) | RepoCluster (ring : LocalRing).

Record Application (V L : Type) := mkApplication {
  wi_shards : nat; wi_repo : repoKind; wi_raft : list Raft.Config; wi_mux : bool; wi_reapers : list ReaperOptions;
  wi_scheduler : schedulerConfig; wi_notifier : notifierConfig L; wi_callback : callbackConfig; wi_topicsUnavailable : option string;
  wi_producer : option (Validator V); wi_worker : option (Validator V); wi_workerStream : option workerConfig; wi_producerStream : bool
}.
Arguments mkApplication {V L}.
Arguments wi_shards {V L}.
Arguments wi_repo {V L}.
Arguments wi_raft {V L}.
Arguments wi_mux {V L}.
Arguments wi_reapers {V L}.
Arguments wi_scheduler {V L}.
Arguments wi_notifier {V L}.
Arguments wi_callback {V L}.
Arguments wi_topicsUnavailable {V L}.
Arguments wi_producer {V L}.
Arguments wi_worker {V L}.
Arguments wi_workerStream {V L}.
Arguments wi_producerStream {V L}.

Module app.

Definition emit (e : event) : M ledger unit := mmod (cons e).

Definition ofRes {A} (r : res A) : M ledger A := match r with Ok a => mret a | Err e => mthrow e end.

(** What a failure that is not a panic does before the error is returned. *)
Definition orElse {A} (m : M ledger A) (cleanup : M ledger unit) : M ledger A := fun l =>
  match m l with
  | (Err (Panic msg), l') => (Err (Panic msg), l')
  | (Err e, l') => (Err e, snd (cleanup l'))
  | r => r
  end.

(** [validateClusterConfig]. *)
Fixpoint checkNodes (selfID : string) (nodes : list (string * string)) (seen : gset string) (selfFound : bool) : res unit :=
  match nodes with
  | [] => if selfFound then Ok tt else Err (ErrText ("cluster.selfId " +:+ quoted selfID +:+ " not present in cluster.nodes"))
  | (id, addr) :: rest =>
      if bool_decide (id = "") || bool_decide (addr = "")
      then Err (ErrText ("cluster node missing id/grpcAddr: {ID:" +:+ id +:+ " GRPCAddr:" +:+ addr +:+ "}"))
      else if bool_decide (id ∈ seen) then Err (ErrText ("cluster node id " +:+ quoted id +:+ " listed twice"))
      else checkNodes selfID rest ({[ id ]} ∪ seen) (selfFound || bool_decide (id = selfID))
  end.

Definition validateClusterConfig (c : ClusterConfig) : res unit :=
  if bool_decide (cc_SelfID c = "") then Err (ErrText "cluster.selfId is required when cluster.enabled=true")
  else if bool_decide (cc_GRPCAddr c = "") then Err (ErrText "cluster.grpcAddr is required when cluster.enabled=true")
  else match cc_Nodes c with
       | [] => Err (ErrText "cluster.nodes is empty")
       | nodes => checkNodes (cc_SelfID c) nodes ∅ false
       end.

Section start.
Context {V L : Type}.
Variable cfg : Config.Config.
(** [json.Unmarshal] of the persistence configuration. *)
Variable unmarshal : string -> res pebbleConfig.
Variable registry : gmap string (option string -> res (Validator V)).
Variable limiter : Limiter L.
Variable order : list (string * string) -> list (string * string).
(** The address of the shared listener, whether a group has state on disk, and
    whether it leads when its reaper asks. *)
Variable muxAddr : string.
Variables hasState leads : nat -> bool.
Variable fails : step -> option error.
Abbreviation rcfg := (cf_Raft cfg).

Definition attempt (s : step) (msg : string) : M ledger unit :=
  match fails s with Some e => mthrow (ErrWrap msg e) | None => mret tt end.

(** ** The shards *)

Definition closeDBs (n : nat) : M ledger unit := mfor (seq 0 n) (fun i => emit (Closed (RPebble i))).

Definition shardPath (pc : pebbleConfig) (n i : nat) : string :=
  if bool_decide (1 < n)%nat then pb_Path pc +:+ "/shard" +:+ pretty i else pb_Path pc.

Definition openShard (pc : pebbleConfig) (n i : nat) : M ledger unit :=
  (if bool_decide (1 < n)%nat then attempt (SMkdirShard i) ("ensure pebble shard dir " +:+ shardPath pc n i) else mret tt) ;;!
  attempt (SOpenPebble i) ("open pebble shard " +:+ pretty i) ;;!
  emit (Opened (RPebble i)).

Fixpoint openShards (pc : pebbleConfig) (n left i : nat) : M ledger unit :=
  match left with
  | O => mret tt
  | S left' => orElse (openShard pc n i) (closeDBs i) ;;! openShards pc n left' (S i)
  end.

(** ** Raft groups *)

(** [openInternal] and its way back when the sequence number cannot be read
    ([shutdownRaftOnly]).  Earlier failures leave the transport. *)
Definition openInternal (rc : Raft.Config) (i : nat) : M ledger unit :=
  ofRes (checkConfig rc) ;;!
  attempt (SSnapshots i) "snapshot store" ;;!
  (if rc_MuxEnabled rcfg then mret tt else attempt (SListenRaft i) "tcp transport") ;;!
  emit (Opened (RTransport i)) ;;!
  (if cf_Bootstrap rc then
     attempt (SHasState i) "HasExistingState" ;;!
     match bootstrapVoters rc (hasState i) with Some _ => attempt (SBootstrap i) "BootstrapCluster" | None => mret tt end
   else mret tt) ;;!
  attempt (SNewRaft i) "NewRaft" ;;!
  emit (Opened (RRaft i)) ;;!
  orElse (attempt (SRecoverSeq i) "recover seq") (emit (Closed (RRaft i)) ;;! emit (Closed (RTransport i))).

(** [DB.Close]: when the shutdown fails the transport stays open. *)
Definition closeRaft (i : nat) : M ledger unit :=
  match fails (SShutdown i) with
  | Some _ => mret tt
  | None => emit (Closed (RRaft i)) ;;! emit (Closed (RTransport i))
  end.

Definition closeRafts (n : nat) : M ledger unit := mfor (seq 0 n) closeRaft.
Definition bgCancel : M ledger unit := emit (Closed RBackground).
Definition closeMux (a : option mux) : M ledger unit := match a with Some _ => emit (Closed RMux) | None => mret tt end.

(** The listening address and the peers of a group, and the acceptor with the
    group registered. *)
Definition addresses (a : option mux) (i : nat) : res (string * gmap string string * option mux) :=
  match a with
  | Some a =>
      match muxAcceptor.RegisterGroup (Z.of_nat i mod 2 ^ 32) a with
      | (Err e, _) => Err (ErrWrap ("raft mux register shard " +:+ pretty i) e)
      | (Ok _, a') => Ok (muxAddr, rc_Peers rcfg, Some a')
      end
  | None =>
      match bindAddrForShard (rc_BindAddr rcfg) (Z.of_nat i) with
      | Err e => Err (ErrWrap ("raft bind addr shard " +:+ pretty i) e)
      | Ok addr =>
          match peersForShard order (rc_Peers rcfg) (Z.of_nat i) with
          | Err e => Err (ErrWrap ("raft peers shard " +:+ pretty i) e)
          | Ok peers => Ok (addr, peers, None)
          end
      end
  end.

Definition raftConfig (path bind : string) (peers : gmap string string) : Raft.Config := {|
  cf_Path := path; cf_FsyncOnCommit := false; cf_SelfID := rc_SelfID rcfg; cf_BindAddr := bind; cf_Bootstrap := rc_Bootstrap rcfg;
  cf_PeerAddrs := order (map_to_list peers); cf_PeerHTTPAddrs := rc_PeerHTTPAddrs rcfg; cf_HeartbeatMS := rc_HeartbeatMS rcfg;
  cf_ElectionMS := rc_ElectionMS rcfg; cf_LeaderLeaseMS := rc_LeaderLeaseMS rcfg; cf_CommitMS := rc_CommitMS rcfg; cf_SnapshotEntries := 0;
  cf_ApplyTimeout := if 0 <? rc_ApplyTimeoutSeconds rcfg then seconds (rc_ApplyTimeoutSeconds rcfg) else 0
|}.

(** The groups from [i] on. *)
Fixpoint openRafts (pc : pebbleConfig) (n left i : nat) (a : option mux) : M ledger (list Raft.Config) :=
  match left with
  | O => mret []
  | S left' =>
      let! at_ := orElse (ofRes (addresses a i)) (closeMux a ;;! bgCancel ;;! closeDBs n) in
      let '(bind, peers, a') := at_ in
      let rc := raftConfig (shardPath pc n i) bind peers in
      orElse (let! r := mtry (openInternal rc i) in
              match r with Err (Panic msg) => mthrow (Panic msg) | Err e => mthrow (ErrWrap ("raft open shard " +:+ pretty i) e) | Ok _ => mret tt end)
             (bgCancel ;;! closeMux a ;;! closeRafts i ;;! closeDBs n) ;;!
      let! rest := openRafts pc n left' (S i) a' in
      mret (rc :: rest)
  end.

Definition startRaft (pc : pebbleConfig) (n : nat) : M ledger (list Raft.Config) :=
  if negb (rc_Enabled rcfg) then mret []
  else if rc_MuxEnabled rcfg then
    orElse (attempt SListenMux "raft mux acceptor") (bgCancel ;;! closeDBs n) ;;!
    emit (Opened RMux) ;;!
    openRafts pc n n 0 (Some muxAcceptor.NewMuxAcceptor)
  else openRafts pc n n 0 None.

(** ** Repositories *)

(** The connections of the pool are the routers' and the gossiper's. *)
Definition startRepos (n : nat) : M ledger repoKind :=
  if bool_decide (1 < n)%nat && cc_Enabled (cf_Cluster cfg) then
    orElse (mthrow (ErrText "pebble: cluster mode + intra-process shards not supported (pick one)")) (bgCancel ;;! closeDBs n)
  else if cc_Enabled (cf_Cluster cfg) then
    orElse (ofRes (validateClusterConfig (cf_Cluster cfg))) (bgCancel ;;! emit (Closed (RPebble 0))) ;;!
    let! ring := ofRes (NewRing (map (fun '(id, addr) => mkClusterNode id addr) (cc_Nodes (cf_Cluster cfg)))) in
    let! ring := ofRes (NewLocalRing ring (cc_SelfID (cf_Cluster cfg))) in
    orElse (attempt SListenCluster ("cluster gRPC listen " +:+ cc_GRPCAddr (cf_Cluster cfg))) (bgCancel ;;! emit (Closed (RPebble 0))) ;;!
    emit (Opened RCluster) ;;!
    emit (Opened RPool) ;;!
    mret (RepoCluster ring)
  else mret (if bool_decide (1 < n)%nat then RepoSharded n else RepoLocal).

(** ** The parts *)

Definition reaperOpts (i : nat) : ReaperOptions :=
  mkReaperOptions 0 0 0 0 (cf_BackoffPolicy cfg) (cf_BackoffBaseSeconds cfg) (cf_BackoffMaxSeconds cfg) (cf_MaxAttemptsDefault cfg) true
    (if rc_Enabled rcfg then Some (leads i) else None).

Definition topicsUnavailable : option string :=
  if rc_Enabled rcfg && negb (bool_decide (TrimSpace (rc_TopicCatalogProtocol rcfg) = "v1"))
  then Some "raft.topicCatalogProtocol=v1 is required for replicated topic catalog writes" else None.

Definition clustered (k : repoKind) : bool := match k with RepoCluster _ => true | _ => false end.

(** [stopGRPCServer] of the cluster's server, and the pool. *)
Definition stopCluster (k : repoKind) : M ledger unit := if clustered k then emit (Closed RCluster) else mret tt.
Definition closePool (k : repoKind) : M ledger unit := if clustered k then emit (Closed RPool) else mret tt.
Definition stopMux : M ledger unit := if rc_Enabled rcfg && rc_MuxEnabled rcfg then emit (Closed RMux) else mret tt.
Definition stopRafts (n : nat) : M ledger unit := if rc_Enabled rcfg then closeRafts n else mret tt.

Definition cleanupStartupFailure (n : nat) (k : repoKind) : M ledger unit :=
  bgCancel ;;! stopCluster k ;;! closePool k ;;! stopRafts n ;;! stopMux ;;! closeDBs n.

Definition validatorOf (v : option (Validator V)) (provider : string) (raw : option string) : res (option (Validator V)) :=
  match v with
  | Some v => Ok (Some v)
  | None => if bool_decide (provider = "") then Ok None
            else match auth.NewValidator _ _ registry provider raw with Ok v => Ok (Some v) | Err e => Err e end
  end.

Definition startWorkerStreamServer (worker : option (Validator V)) : M ledger (option workerConfig) :=
  let addr := TrimSpace (cf_WorkerStreamAddr cfg) in
  if bool_decide (addr = "") then mret None
  else match worker with
       | None => mthrow (ErrText "workerStreamAddr set but no worker validator configured")
       | Some _ =>
           attempt SListenWorker ("worker stream gRPC listen " +:+ addr) ;;!
           emit (Opened RWorkerStream) ;;!
           let w := worker.New (cf_DefaultLeaseSeconds cfg) (cf_WorkerAudience cfg) in
           mret (Some (mkWorkerConfig (wc_DefaultLease w) (wc_WorkerAudience w) (cf_AllowProducerAsWorker cfg) (wc_MaxClaimRetries w)))
       end.

Definition startProducerStreamServer (producer : option (Validator V)) : M ledger bool :=
  let addr := TrimSpace (cf_ProducerStreamAddr cfg) in
  if bool_decide (addr = "") then mret false
  else match producer with
       | None => mthrow (ErrText "producerStreamAddr set but no producer validator configured")
       | Some _ =>
           attempt SListenProducer ("producer stream gRPC listen " +:+ addr) ;;!
           emit (Opened RProducerStream) ;;!
           mret true
       end.

Definition stopWorkerStream (w : option workerConfig) : M ledger unit := match w with Some _ => emit (Closed RWorkerStream) | None => mret tt end.
Definition stopProducerStream (p : bool) : M ledger unit := if p then emit (Closed RProducerStream) else mret tt.

(** The options set validators or fail. *)
Fixpoint applyOptions (opts : list (option (Validator V) * option (Validator V) -> res (option (Validator V) * option (Validator V))))
  (vs : option (Validator V) * option (Validator V)) : res (option (Validator V) * option (Validator V)) :=
  match opts with
  | [] => Ok vs
  | o :: rest => match o vs with Ok vs' => applyOptions rest vs' | Err e => Err e end
  end.

Definition validators (opts : list (option (Validator V) * option (Validator V) -> res (option (Validator V) * option (Validator V))))
  : res (option (Validator V) * option (Validator V)) :=
  match applyOptions opts (None, None) with
  | Err e => Err e
  | Ok (p, w) =>
      match validatorOf p (cf_ProducerAuthProvider cfg) (cf_ProducerAuthConfig cfg) with
      | Err e => Err e
      | Ok p => match validatorOf w (cf_WorkerAuthProvider cfg) (cf_WorkerAuthConfig cfg) with Err e => Err e | Ok w => Ok (p, w) end
      end
  end.

Definition pebbleConfigOf : res pebbleConfig :=
  match (match cf_PersistenceConfig cfg with None | Some "" => Ok (mkPebbleConfig "" false 0) | Some raw => unmarshal raw end) with
  | Err e => Err (ErrWrap "parse pebble PersistenceConfig" e)
  | Ok pc => Ok (mkPebbleConfig (if bool_decide (pb_Path pc = "") then "./codeq-pebble" else pb_Path pc) (pb_FsyncOnCommit pc) (pb_NumShards pc))
  end.

Definition numShards (pc : pebbleConfig) : nat := if pb_NumShards pc <=? 0 then 1 else Z.to_nat (pb_NumShards pc).

Definition newPebbleApplication opts : M ledger (Application V L) :=
  let! pc := ofRes pebbleConfigOf in
  attempt SMkdir ("ensure pebble dir " +:+ pb_Path pc) ;;!
  let n := numShards pc in
  openShards pc n n 0 ;;!
  emit (Opened RBackground) ;;!
  let! rafts := startRaft pc n in
  let! kind := startRepos n in
  let bucket := rl_Webhook (cf_RateLimit cfg) in
  let! vs := orElse (ofRes (validators opts)) (cleanupStartupFailure n kind) in
  let '(producer, worker) := vs in
  let! w := orElse (startWorkerStreamServer worker) (cleanupStartupFailure n kind) in
  let! p := orElse (startProducerStreamServer producer) (stopWorkerStream w ;;! cleanupStartupFailure n kind) in
  mret {|
    wi_shards := n; wi_repo := kind; wi_raft := rafts; wi_mux := rc_Enabled rcfg && rc_MuxEnabled rcfg;
    wi_reapers := map (fun i => Reaper.NewReaper (reaperOpts i)) (seq 0 n);
    wi_scheduler := schedulerService.NewSchedulerService true true (cf_DefaultLeaseSeconds cfg) (cf_RequeueInspectLimit cfg)
      (cf_MaxAttemptsDefault cfg) (cf_BackoffPolicy cfg) (cf_BackoffBaseSeconds cfg) (cf_BackoffMaxSeconds cfg);
    wi_notifier := notifierService.NewNotifierService (cf_WebhookHmacSecret cfg) (cf_SubscriptionMinIntervalSeconds cfg) (Some limiter) bucket;
    wi_callback := resultCallbackService.NewResultCallbackService (cf_WebhookHmacSecret cfg) (cf_ResultWebhookMaxAttempts cfg)
      (cf_ResultWebhookBaseBackoffSeconds cfg) (cf_ResultWebhookMaxBackoffSeconds cfg);
    wi_topicsUnavailable := topicsUnavailable; wi_producer := producer; wi_worker := worker; wi_workerStream := w; wi_producerStream := p
  |}.

(** The shutdown hook. *)
Definition shutdown (a : Application V L) : M ledger unit :=
  bgCancel ;;! stopCluster (wi_repo a) ;;! stopWorkerStream (wi_workerStream a) ;;! stopProducerStream (wi_producerStream a) ;;!
  closePool (wi_repo a) ;;! stopRafts (wi_shards a) ;;! stopMux ;;! closeDBs (wi_shards a).
End start.
End app.

(** ** Balance *)

(** What is open. *)
Record openset := mkOpen {
  o_pebble : gset nat; o_trans : gset nat; o_raft : gset nat; o_mux : bool; o_cluster : bool; o_pool : bool; o_worker : bool; o_producer : bool; o_bg : bool
}.

Definition nothing : openset := mkOpen ∅ ∅ ∅ false false false false false false.

Definition add (i : nat) (s : gset nat) : option (gset nat) := if bool_decide (i ∈ s) then None else Some ({[ i ]} ∪ s).
Definition remove (i : nat) (s : gset nat) : option (gset nat) := if bool_decide (i ∈ s) then Some (s ∖ {[ i ]}) else None.
Definition flip (b' b : bool) : option bool := if bool_decide (b' = b) then None else Some b'.

(** One event: nothing is opened or closed twice, a raft group runs on an open
    store, and a store is closed only when neither its raft group nor the
    background work runs. *)
Definition record (e : event) (o : openset) : option openset :=
  let 'mkOpen pe tr ra mx cl po wo pr bg := o in
  match e with
  | Opened (RPebble i) => (fun pe => mkOpen pe tr ra mx cl po wo pr bg) <$> add i pe
  | Closed (RPebble i) =>
      if bool_decide (i ∈ ra) || bg then None else (fun pe => mkOpen pe tr ra mx cl po wo pr bg) <$> remove i pe
  | Opened (RTransport i) => (fun tr => mkOpen pe tr ra mx cl po wo pr bg) <$> add i tr
  | Closed (RTransport i) => (fun tr => mkOpen pe tr ra mx cl po wo pr bg) <$> remove i tr
  | Opened (RRaft i) => if bool_decide (i ∈ pe) then (fun ra => mkOpen pe tr ra mx cl po wo pr bg) <$> add i ra else None
  | Closed (RRaft i) => (fun ra => mkOpen pe tr ra mx cl po wo pr bg) <$> remove i ra
  | Opened RMux => (fun mx => mkOpen pe tr ra mx cl po wo pr bg) <$> flip true mx
  | Closed RMux => (fun mx => mkOpen pe tr ra mx cl po wo pr bg) <$> flip false mx
  | Opened RCluster => (fun cl => mkOpen pe tr ra mx cl po wo pr bg) <$> flip true cl
  | Closed RCluster => (fun cl => mkOpen pe tr ra mx cl po wo pr bg) <$> flip false cl
  | Opened RPool => (fun po => mkOpen pe tr ra mx cl po wo pr bg) <$> flip true po
  | Closed RPool => (fun po => mkOpen pe tr ra mx cl po wo pr bg) <$> flip false po
  | Opened RWorkerStream => (fun wo => mkOpen pe tr ra mx cl po wo pr bg) <$> flip true wo
  | Closed RWorkerStream => (fun wo => mkOpen pe tr ra mx cl po wo pr bg) <$> flip false wo
  | Opened RProducerStream => (fun pr => mkOpen pe tr ra mx cl po wo pr bg) <$> flip true pr
  | Closed RProducerStream => (fun pr => mkOpen pe tr ra mx cl po wo pr bg) <$> flip false pr
  | Opened RBackground => (fun bg => mkOpen pe tr ra mx cl po wo pr bg) <$> flip true bg
  | Closed RBackground => (fun bg => mkOpen pe tr ra mx cl po wo pr bg) <$> flip false bg
  end.

(** What is open after a ledger in which every event was in order. *)
Fixpoint replay (l : ledger) : option openset :=
  match l with [] => Some nothing | e :: l' => replay l' ≫= record e end.

(** The action takes [o] to an open set with [Q], every event in order. *)
Definition steps {A} (m : M ledger A) (o : openset) (Q : res A -> openset -> Prop) : Prop :=
  forall l, replay l = Some o -> wp m (fun r l' => exists o', replay l' = Some o' /\ Q r o') l.

Section rules.
Import app.
Context {A B : Type}.
Implicit Types (o : openset).

Lemma steps_ret (a : A) o (Q : res A -> openset -> Prop) : Q (Ok a) o -> steps (mret a) o Q.
Proof. intros HQ l Hl. exists o. done. Qed.

Lemma steps_ofRes (r : res A) o (Q : res A -> openset -> Prop) : Q r o -> steps (ofRes r) o Q.
Proof. intros HQ l Hl. exists o. by destruct r. Qed.

Lemma steps_bind (m : M ledger A) (f : A -> M ledger B) o (Q : res B -> openset -> Prop) :
  steps m o (fun r o' => match r with Ok a => steps (f a) o' Q | Err e => Q (Err e) o' end) -> steps (mbnd m f) o Q.
Proof.
  intros Hm l Hl. destruct (Hm l Hl) as (o' & Ho' & HQ). unfold wp, mbnd in *. destruct (m l) as [[a|e] l']; cbn in *; [by apply HQ | by exists o'].
Qed.

Lemma steps_mono (m : M ledger A) o (Q R : res A -> openset -> Prop) : steps m o Q -> (forall r o', Q r o' -> R r o') -> steps m o R.
Proof. intros Hm HQR l Hl. destruct (Hm l Hl) as (o' & Ho' & HQ). exists o'. split; [done | by apply HQR]. Qed.

Lemma steps_try (m : M ledger A) o (Q : res (res A) -> openset -> Prop) : steps m o (fun r o' => Q (Ok r) o') -> steps (mtry m) o Q.
Proof. intros Hm l Hl. by apply wp_try, Hm. Qed.

Lemma steps_orElse (m : M ledger A) cleanup o (Q : res A -> openset -> Prop) :
  steps m o (fun r o' => match r with
                         | Ok a => Q (Ok a) o'
                         | Err (Panic msg) => Q (Err (Panic msg)) o'
                         | Err e => steps cleanup o' (fun _ o2 => Q (Err e) o2)
                         end) -> steps (orElse m cleanup) o Q.
Proof.
  intros Hm l Hl. destruct (Hm l Hl) as (o' & Ho' & HQ). unfold wp, orElse in *. destruct (m l) as [[a|e] l']; cbn in *; [by exists o'|].
  destruct e; first [by exists o' | exact (HQ l' Ho')].
Qed.
End rules.

Lemma steps_emit e o o' (Q : res unit -> openset -> Prop) : record e o = Some o' -> Q (Ok tt) o' -> steps (app.emit e) o Q.
Proof. intros He HQ l Hl. exists o'. split; [|done]. cbn. by rewrite Hl. Qed.

Lemma steps_attempt fails s msg o (Q : res unit -> openset -> Prop) :
  (fails s = None -> Q (Ok tt) o) -> (forall e, fails s = Some e -> Q (Err (ErrWrap msg e)) o) -> steps (app.attempt fails s msg) o Q.
Proof. intros Hn Hs l Hl. exists o. unfold app.attempt, wp. destruct (fails s) as [e|]; cbn; auto. Qed.

(** ** Every way through the start *)

Section start.
Import app.
Context {V L : Type}.
Variable cfg : Config.Config.
Variable unmarshal : string -> res pebbleConfig.
Variable registry : gmap string (option string -> res (Validator V)).
Variable limiter : Limiter L.
Variable order : list (string * string) -> list (string * string).
Variable muxAddr : string.
Variables hasState leads : nat -> bool.
Variable fails : step -> option error.
Abbreviation rcfg := (cf_Raft cfg).
Abbreviation range := (sets.set_seq (C := gset nat)).

(** The open set of a start with [n] stores and [j] raft groups. *)
Definition stage (n j : nat) (mx cl wo pr bg : bool) : openset := mkOpen (range 0 n) (range 0 j) (range 0 j) mx cl cl wo pr bg.

(** The consensus library starts and stops its groups. *)
Definition library_works : Prop :=
  forall i, fails (SHasState i) = None /\ fails (SBootstrap i) = None /\ fails (SNewRaft i) = None /\ fails (SShutdown i) = None.

Lemma range_split i k : i ∈ range i (S k) /\ (range i (S k) ∖ {[ i ]}) = range (S i) k.
Proof. split; [apply elem_of_set_seq; lia|]. apply set_eq. intros x. rewrite elem_of_difference, elem_of_singleton, !elem_of_set_seq. lia. Qed.

Lemma range_next i : (i ∉ range 0 i) /\ ({[ i ]} ∪ range 0 i) = range 0 (S i).
Proof. split; [rewrite elem_of_set_seq; lia|]. apply set_eq. intros x. rewrite elem_of_union, elem_of_singleton, !elem_of_set_seq. lia. Qed.

Lemma remove_first i k : remove i (range i (S k)) = Some (range (S i) k).
Proof. destruct (range_split i k) as [Hi He]. unfold remove. by rewrite bool_decide_eq_true_2, He. Qed.

Lemma add_next i : add i (range 0 i) = Some (range 0 (S i)).
Proof. destruct (range_next i) as [Hi He]. unfold add. by rewrite bool_decide_eq_false_2, He. Qed.

Lemma steps_closeDBs n mx cl po wo pr (Q : res unit -> openset -> Prop) :
  Q (Ok tt) (mkOpen ∅ ∅ ∅ mx cl po wo pr false) -> steps (closeDBs n) (mkOpen (range 0 n) ∅ ∅ mx cl po wo pr false) Q.
Proof.
  intros HQ. unfold closeDBs. generalize 0%nat as i. induction n as [|n IH]; intros i; [by apply steps_ret|].
  cbn [seq mfor]. apply steps_bind. eapply steps_emit; [cbn [record]; by rewrite bool_decide_eq_false_2, remove_first by set_solver|].
  apply IH.
Qed.

Lemma steps_closeRafts n pe mx cl po wo pr bg (Q : res unit -> openset -> Prop) : library_works ->
  Q (Ok tt) (mkOpen pe ∅ ∅ mx cl po wo pr bg) -> steps (closeRafts fails n) (mkOpen pe (range 0 n) (range 0 n) mx cl po wo pr bg) Q.
Proof.
  intros Hlib HQ. unfold closeRafts. generalize 0%nat as i. induction n as [|n IH]; intros i; [by apply steps_ret|].
  cbn [seq mfor]. apply steps_bind. unfold closeRaft. destruct (Hlib i) as (_ & _ & _ & ->). apply steps_bind.
  eapply steps_emit; [cbn [record]; by rewrite remove_first|]. eapply steps_emit; [cbn [record]; by rewrite remove_first|]. apply IH.
Qed.

(** What a start ends in when it fails: nothing open, but for a panic. *)
Definition released {A} (r : res A) (o : openset) : Prop :=
  match r with Ok _ => False | Err (Panic _) => True | Err _ => o = nothing end.

Definition or_released {A} (Q : A -> openset -> Prop) (r : res A) (o : openset) : Prop :=
  match r with Ok a => Q a o | _ => released r o end.

Lemma steps_openShards pc n left i (Q : res unit -> openset -> Prop) :
  (forall r o, or_released (fun _ o => o = stage (i + left) 0 false false false false false) r o -> Q r o) ->
  steps (openShards fails pc n left i) (stage i 0 false false false false false) Q.
Proof.
  revert i. induction left as [|left IH]; intros i HQ; cbn [openShards].
  { apply steps_ret, HQ. by rewrite Nat.add_0_r. }
  assert (forall e, steps (closeDBs i) (stage i 0 false false false false false) (fun _ o2 => Q (Err (ErrWrap e.1 e.2)) o2)) as Hclose
    by (intros e; apply steps_closeDBs, HQ; done).
  apply steps_bind, steps_orElse. unfold openShard. apply steps_bind.
  assert (steps (attempt fails (SOpenPebble i) ("open pebble shard " +:+ pretty i) ;;! emit (Opened (RPebble i))) (stage i 0 false false false false false)
    (fun r o' => match r with
       | Ok _ => steps (openShards fails pc n left (S i)) o' Q
       | Err (Panic msg) => Q (Err (Panic msg)) o'
       | Err e => steps (closeDBs i) o' (fun _ o2 => Q (Err e) o2)
       end)) as Hopen.
  { apply steps_bind, steps_attempt; [intros _ | intros e _; apply (Hclose (_, e))].
    eapply steps_emit; [unfold stage; cbn [record]; by rewrite add_next|]. apply IH. intros r o Ho. apply HQ.
    by rewrite <- Nat.add_succ_comm. }
  case_bool_decide; [|by apply steps_ret]. apply steps_attempt; [by intros _ | intros e _; apply (Hclose (_, e))].
Qed.

(** ** Raft *)

Abbreviation running_ n j mx := (stage n j mx false false false true).

Lemma steps_openInternal rc n i mx (Q : res unit -> openset -> Prop) : library_works -> (i < n)%nat ->
  Q (Ok tt) (running_ n (S i) mx) -> (forall e, match e with Panic _ => False | _ => True end -> Q (Err e) (running_ n i mx)) ->
  steps (openInternal cfg hasState fails rc i) (running_ n i mx) Q.
Proof.
  intros Hlib Hi Hok Herr. destruct (Hlib i) as (Hs & Hb & Hn & _). unfold openInternal. apply steps_bind, steps_ofRes.
  destruct (checkConfig rc) as [[]|e] eqn:Ec.
  2:{ apply Herr. unfold checkConfig in Ec. repeat case_bool_decide; by simplify_eq. }
  apply steps_bind, steps_attempt; [intros _ | intros e _; by apply Herr].
  apply steps_bind. assert (steps (emit (Opened (RTransport i)) ;;!
      (if cf_Bootstrap rc then attempt fails (SHasState i) "HasExistingState" ;;!
         match bootstrapVoters rc (hasState i) with Some _ => attempt fails (SBootstrap i) "BootstrapCluster" | None => mret tt end
       else mret tt) ;;!
      attempt fails (SNewRaft i) "NewRaft" ;;!
      emit (Opened (RRaft i)) ;;!
      orElse (attempt fails (SRecoverSeq i) "recover seq") (emit (Closed (RRaft i)) ;;! emit (Closed (RTransport i)))) (running_ n i mx) Q) as Hrest.
  { apply steps_bind. eapply steps_emit; [unfold stage; cbn [record]; by rewrite add_next|].
    apply steps_bind. apply steps_mono with (fun r o => r = Ok tt /\ o = mkOpen (range 0 n) (range 0 (S i)) (range 0 i) mx false false false false true).
    { destruct (cf_Bootstrap rc); [|by apply steps_ret]. apply steps_bind, steps_attempt; [intros _ | by rewrite Hs].
      destruct (bootstrapVoters _ _); [|by apply steps_ret]. apply steps_attempt; [done | by rewrite Hb]. }
    intros r o [-> ->]. apply steps_bind, steps_attempt; [intros _ | by rewrite Hn]. apply steps_bind.
    eapply steps_emit; [cbn [record]; rewrite bool_decide_eq_true_2 by (apply elem_of_set_seq; lia); by rewrite add_next|].
    apply steps_orElse, steps_attempt; [done|]. intros e _. apply steps_bind.
    assert (remove i (range 0 (S i)) = Some (range 0 i)) as Hr.
    { unfold remove. rewrite bool_decide_eq_true_2 by (apply elem_of_set_seq; lia). f_equal. apply set_eq. intros x.
      rewrite elem_of_difference, elem_of_singleton, !elem_of_set_seq. lia. }
    eapply steps_emit; [cbn [record]; by rewrite Hr|]. eapply steps_emit; [cbn [record]; by rewrite Hr|]. by apply Herr. }
  destruct (rc_MuxEnabled rcfg); [by apply steps_ret|]. apply steps_attempt; [by intros _ | intros e _; by apply Herr].
Qed.

(** The groups have addresses: every base address can be shifted, or they share
    one listener and are few enough to have an id each. *)
Definition addressable (n : nat) : Prop :=
  if rc_MuxEnabled rcfg then (Z.of_nat n <= 2 ^ 32)
  else forall i, (i < n)%nat -> is_ok (bindAddrForShard (rc_BindAddr rcfg) (Z.of_nat i)) = true /\
                                 is_ok (peersForShard order (rc_Peers rcfg) (Z.of_nat i)) = true.

(** The acceptor has the groups before [i]. *)
Definition acceptor_at (i : nat) (a : option mux) : Prop :=
  match a with
  | Some a => rc_MuxEnabled rcfg = true /\ mx_closed a = false /\ forall g, g ∈ mx_groups a -> 0 <= g < Z.of_nat i
  | None => rc_MuxEnabled rcfg = false
  end.

Lemma addresses_ok n i a : addressable n -> (i < n)%nat -> acceptor_at i a ->
  exists bind peers a', addresses cfg order muxAddr a i = Ok (bind, peers, a') /\ acceptor_at (S i) a' /\ (is_Some a' <-> is_Some a).
Proof.
  unfold addressable, acceptor_at, addresses. intros Ha Hi Hat. destruct a as [a|].
  - destruct Hat as (Hm & Hc & Hg). rewrite Hm in Ha. unfold muxAcceptor.RegisterGroup. rewrite Hc, Z.mod_small by lia.
    rewrite bool_decide_eq_false_2 by (intros ?%Hg; lia). eexists _, _, _. split; [done|]. split; [|by split; eauto].
    split_and!; [done|done|]. cbn. intros g [->%elem_of_singleton|?%Hg]%elem_of_union; lia.
  - rewrite Hat in Ha. destruct (Ha i Hi) as [Hb Hp]. destruct (bindAddrForShard _ _); [|done]. destruct (peersForShard _ _ _); [|done].
    eexists _, _, _. by split_and!.
Qed.

Lemma steps_openRafts pc n left i a (Q : res (list Raft.Config) -> openset -> Prop) : library_works -> addressable n -> (i + left = n)%nat ->
  acceptor_at i a ->
  (forall r o, or_released (fun _ o => o = running_ n n (bool_decide (is_Some a))) r o -> Q r o) ->
  steps (openRafts cfg order muxAddr hasState fails pc n left i a) (running_ n i (bool_decide (is_Some a))) Q.
Proof.
  intros Hlib Ha. revert i a Q. induction left as [|left IH]; intros i a Q Hn Hat HQ; cbn [openRafts].
  { apply steps_ret, HQ. by replace i with n by lia. }
  destruct (addresses_ok n i a Ha) as (bind & peers & a' & Ead & Hat' & Hsome); [lia | done|].
  apply steps_bind, steps_orElse, steps_ofRes. rewrite Ead. cbn iota beta. apply steps_bind, steps_orElse, steps_bind, steps_try.
  apply steps_openInternal; [done | lia | |].
  - apply steps_ret, steps_bind. rewrite (bool_decide_ext _ _ (iff_sym Hsome)). apply IH; [lia | done|]. intros r o Ho. destruct r as [rest|e].
    + apply steps_ret, HQ. cbn in *. by rewrite (bool_decide_ext _ _ Hsome) in Ho.
    + by apply HQ.
  - intros e He. assert (match e with Panic msg => mthrow (Panic msg) | e => mthrow (ErrWrap ("raft open shard " +:+ pretty i) e) end =
      (mthrow (ErrWrap ("raft open shard " +:+ pretty i) e) : M ledger unit)) as -> by (by destruct e).
    apply (steps_ofRes (Err _)). apply steps_bind. eapply steps_emit; [done|]. apply steps_bind.
    assert (steps (closeRafts fails i ;;! closeDBs n) (stage n i false false false false false) 
      (fun _ o2 => Q (Err (ErrWrap ("raft open shard " +:+ pretty i) e)) o2)) as Hrest.
    { apply steps_bind, steps_closeRafts; [done|]. by apply steps_closeDBs, HQ. }
    destruct a; [eapply steps_emit; [done | exact Hrest] | by apply steps_ret].
Qed.

(** The raft groups of a start, and the shared listener. *)
Definition groups (n : nat) : nat := if rc_Enabled rcfg then n else 0.
Definition muxed : bool := rc_Enabled rcfg && rc_MuxEnabled rcfg.

Lemma steps_startRaft pc n (Q : res (list Raft.Config) -> openset -> Prop) : library_works -> (rc_Enabled rcfg = true -> addressable n) ->
  (forall r o, or_released (fun _ o => o = running_ n (groups n) muxed) r o -> Q r o) ->
  steps (startRaft cfg order muxAddr hasState fails pc n) (running_ n 0 false) Q.
Proof.
  intros Hlib Ha HQ. unfold startRaft, groups, muxed in *. destruct (rc_Enabled rcfg); [|by apply steps_ret, HQ]. specialize (Ha eq_refl). cbn [negb andb] in *.
  destruct (rc_MuxEnabled rcfg) eqn:Em.
  - apply steps_bind, steps_orElse, steps_attempt.
    + intros _. apply steps_bind. eapply steps_emit; [done|].
      apply (steps_openRafts pc n n 0 (Some muxAcceptor.NewMuxAcceptor)); [done|done|done| |done]. split_and!; [done|done|]. cbn. set_solver.
    + intros e _. apply steps_bind. eapply steps_emit; [done|]. by apply steps_closeDBs, HQ.
  - by apply (steps_openRafts pc n n 0 None).
Qed.

(** ** The rest *)

(** The ring refuses its nodes only by a panic. *)
Lemma NewRing_panics nodes e : NewRing nodes = Err e -> exists msg, e = Panic msg.
Proof.
  assert (forall id v c e, vhashes_from id v c = Err e -> exists msg, e = Panic msg) as Hv.
  { intros id v c. revert v. induction c as [|c IH]; intros v e0; cbn; [done|]. unfold vhash at 1. destruct (_ <=? _)%nat; [intros [= <-]; eauto|].
    destruct (vhashes_from id (v + 1) c) eqn:E; [done|]. intros [= <-]. by eapply IH. }
  assert (forall l e, positions l = Err e -> exists msg, e = Panic msg) as Hp.
  { intros l. induction l as [|n l IH]; intros e0; cbn [positions]; [done|]. destruct (vhashes_from _ _ _) eqn:E; [|intros [= <-]; by eapply Hv].
    destruct (positions l); [done|]. intros [= <-]. by eapply IH. }
  unfold NewRing. destruct nodes as [|n nodes]; [intros [= <-]; eauto|]. cbv zeta. destruct (positions _) eqn:E; [done|]. intros [= <-]. by eapply Hp.
Qed.

Lemma steps_startRepos n (Q : res repoKind -> openset -> Prop) : (0 < n)%nat -> rc_Enabled rcfg && cc_Enabled (cf_Cluster cfg) = false ->
  (forall r o, or_released (fun k o => o = stage n (groups n) muxed (clustered k) false false true /\ (cc_Enabled (cf_Cluster cfg) = false -> clustered k = false)) r o -> Q r o) ->
  steps (startRepos cfg fails n) (running_ n (groups n) muxed) Q.
Proof.
  intros Hn Hex HQ. unfold startRepos. destruct (cc_Enabled (cf_Cluster cfg)) eqn:Ec.
  2:{ rewrite andb_false_r. apply steps_ret, HQ. by case_bool_decide. }
  rewrite andb_true_r in Hex. unfold groups, muxed in *. rewrite Hex in *. cbn [andb] in *. rewrite andb_true_r. case_bool_decide as Hn1.
  { apply steps_orElse, (steps_ofRes (Err _)), steps_bind. eapply steps_emit; [done|]. by apply steps_closeDBs, HQ. }
  assert (n = 1%nat) as -> by lia.
  assert (forall e, match e with Panic _ => False | _ => True end ->
    steps (bgCancel ;;! emit (Closed (RPebble 0))) (running_ 1 0 false) (fun _ o2 => Q (Err e) o2)) as Hclose.
  { intros e He. apply steps_bind. eapply steps_emit; [done|]. eapply steps_emit; [reflexivity|]. apply HQ. by destruct e. }
  apply steps_bind, steps_orElse, steps_ofRes. destruct (validateClusterConfig _) as [[]|e]; [|destruct e; by (apply HQ || apply Hclose)].
  apply steps_bind, steps_ofRes. destruct (NewRing _) as [ring|e] eqn:Er.
  2:{ apply HQ. by destruct (NewRing_panics _ _ Er) as [msg ->]. }
  apply steps_bind, steps_ofRes. destruct (NewLocalRing _ _) as [lr|e] eqn:El.
  2:{ apply HQ. unfold NewLocalRing in El. destruct (Node_ _ _); [done|]. by injection El as <-. }
  apply steps_bind, steps_orElse, steps_attempt; [intros _ | intros e _; by apply Hclose].
  apply steps_bind. eapply steps_emit; [done|]. apply steps_bind. eapply steps_emit; [done|]. by apply steps_ret, HQ.
Qed.

(** Raft before the stores, whatever else is already closed. *)
Lemma steps_teardown n (Q : res unit -> openset -> Prop) : library_works -> Q (Ok tt) nothing ->
  steps (stopRafts cfg fails n ;;! stopMux cfg ;;! closeDBs n) (stage n (groups n) muxed false false false false) Q.
Proof.
  intros Hlib HQ. apply steps_bind. unfold stopRafts, stopMux, groups, muxed. destruct (rc_Enabled rcfg); cbn [andb].
  - apply steps_closeRafts; [done|]. apply steps_bind. destruct (rc_MuxEnabled rcfg).
    + eapply steps_emit; [done|]. by apply steps_closeDBs.
    + apply steps_ret. by apply steps_closeDBs.
  - apply steps_ret, steps_bind, steps_ret. by apply steps_closeDBs.
Qed.

Lemma steps_cleanup n k (Q : res unit -> openset -> Prop) : library_works -> Q (Ok tt) nothing ->
  steps (cleanupStartupFailure cfg fails n k) (stage n (groups n) muxed (clustered k) false false true) Q.
Proof.
  intros Hlib HQ. unfold cleanupStartupFailure, stopCluster, closePool. apply steps_bind. eapply steps_emit; [done|]. destruct (clustered k).
  - apply steps_bind. eapply steps_emit; [done|]. apply steps_bind. eapply steps_emit; [done|]. by apply steps_teardown.
  - apply steps_bind, steps_ret, steps_bind, steps_ret. by apply steps_teardown.
Qed.

(** What an application holds while it runs. *)
Definition holds_ (a : Application V L) : openset :=
  stage (wi_shards a) (groups (wi_shards a)) muxed (clustered (wi_repo a)) (bool_decide (is_Some (wi_workerStream a))) (wi_producerStream a) true.

Lemma steps_shutdown (a : Application V L) (Q : res unit -> openset -> Prop) : library_works -> Q (Ok tt) nothing ->
  steps (shutdown cfg fails a) (holds_ a) Q.
Proof.
  intros Hlib HQ. unfold shutdown, holds_, stopCluster, closePool, stopWorkerStream, stopProducerStream. apply steps_bind. eapply steps_emit; [done|].
  destruct (clustered (wi_repo a)); destruct (wi_workerStream a); destruct (wi_producerStream a);
    repeat first [by apply steps_teardown | apply steps_bind | apply steps_ret | eapply steps_emit; [done|]].
Qed.

Lemma steps_workerStream v n k (Q : res (option workerConfig) -> openset -> Prop) :
  (forall w, Q (Ok w) (stage n (groups n) muxed (clustered k) (bool_decide (is_Some w)) false true)) ->
  (forall e, Q (Err e) (stage n (groups n) muxed (clustered k) false false true)) ->
  steps (startWorkerStreamServer (V := V) cfg fails v) (stage n (groups n) muxed (clustered k) false false true) Q.
Proof.
  intros Hok Herr. unfold startWorkerStreamServer. case_bool_decide; [apply steps_ret, (Hok None)|].
  destruct v; [|by apply (steps_ofRes (Err _))]. apply steps_bind, steps_attempt; [intros _ | intros e _; apply Herr].
  apply steps_bind. eapply steps_emit; [done|]. apply steps_ret, (Hok (Some _)).
Qed.

Lemma steps_producerStream v n k wo (Q : res bool -> openset -> Prop) :
  (forall p, Q (Ok p) (stage n (groups n) muxed (clustered k) wo p true)) ->
  (forall e, Q (Err e) (stage n (groups n) muxed (clustered k) wo false true)) ->
  steps (startProducerStreamServer (V := V) cfg fails v) (stage n (groups n) muxed (clustered k) wo false true) Q.
Proof.
  intros Hok Herr. unfold startProducerStreamServer. case_bool_decide; [apply steps_ret, Hok|].
  destruct v; [|by apply (steps_ofRes (Err _))]. apply steps_bind, steps_attempt; [intros _ | intros e _; apply Herr].
  apply steps_bind. eapply steps_emit; [done|]. apply steps_ret, Hok.
Qed.

(** A failure that is not a panic runs its cleanup. *)
Lemma cleanup_err {A} (e : error) (cleanup : M ledger unit) o (Q : res A -> openset -> Prop) :
  (forall r, released r nothing -> Q r nothing) -> (forall msg, Q (Err (Panic msg)) o) ->
  (forall Q' : res unit -> openset -> Prop, Q' (Ok tt) nothing -> steps cleanup o Q') ->
  match e with Panic msg => Q (Err (Panic msg)) o | _ => steps cleanup o (fun _ o2 => Q (Err e) o2) end.
Proof. intros HQ Hp Hc. destruct e; try (by apply Hc, HQ). done. Qed.

Lemma steps_start opts : library_works -> rc_Enabled rcfg && cc_Enabled (cf_Cluster cfg) = false ->
  (forall pc, pebbleConfigOf cfg unmarshal = Ok pc -> rc_Enabled rcfg = true -> addressable (numShards pc)) ->
  steps (newPebbleApplication cfg unmarshal registry limiter order muxAddr hasState leads fails opts) nothing
    (or_released (fun a o => o = holds_ a)).
Proof.
  intros Hlib Hex Ha. unfold newPebbleApplication. apply steps_bind, steps_ofRes. destruct (pebbleConfigOf cfg unmarshal) as [pc|e] eqn:Epc; [|by destruct e].
  apply steps_bind, steps_attempt; [intros _ | by intros e _]. cbv zeta. set (n := numShards pc).
  assert (0 < n)%nat as Hn by (unfold n, numShards; destruct (Z.leb_spec (pb_NumShards pc) 0); lia).
  apply steps_bind, (steps_openShards pc n n 0). intros [[]|e] o Ho; [|by destruct e]. cbn in Ho. subst o. cbn [Nat.add].
  apply steps_bind. eapply steps_emit; [done|]. apply steps_bind, steps_startRaft; [done | by apply Ha|].
  intros [rafts|e] o Ho; [|by destruct e]. cbn in Ho. subst o. apply steps_bind, steps_startRepos; [done | done|].
  intros [kind|e] o Ho; [|by destruct e]. destruct Ho as [-> _].
  assert (forall Q' : res unit -> openset -> Prop, Q' (Ok tt) nothing ->
    steps (cleanupStartupFailure cfg fails n kind) (stage n (groups n) muxed (clustered kind) false false true) Q') as Hclean
    by (intros; by apply steps_cleanup).
  apply steps_bind, steps_orElse, steps_ofRes. destruct (validators cfg registry opts) as [[p w]|e]; [|apply cleanup_err; [by intros [] | done | done]].
  apply steps_bind, steps_orElse, steps_workerStream; [|intros e; apply cleanup_err; [by intros [] | done | done]].
  intros ws. apply steps_bind, steps_orElse, steps_producerStream; [intros ps; by apply steps_ret|].
  intros e. apply cleanup_err; [by intros [] | done |]. intros Q' HQ'. apply steps_bind. unfold stopWorkerStream.
  destruct ws; [eapply steps_emit; [done|] | apply steps_ret]; by apply Hclean.
Qed.

Lemma validated_exclusive url_Parse orderBackends : config.Validate url_Parse order orderBackends cfg = None ->
  rc_Enabled rcfg && cc_Enabled (cf_Cluster cfg) = false.
Proof.
  intros Hv. destruct (rc_Enabled rcfg) eqn:Er; [|done]. unfold config.Validate in Hv.
  destruct (config.authErrs _ _ ++ _) as [|] eqn:E; [|done]. apply app_nil in E as [_ [_ E]%app_nil].
  by destruct (vr_exclusive _ (proj1 (raftErrs_nil url_Parse cfg) E Er)).
Qed.

End start.

(** ** Runs *)

Module wiring_run.
Import app.

(** Two shards, each with a raft group, and both streams. *)
Definition env (bind : string) (name : string) : string :=
  if bool_decide (name = "RAFT_ENABLED") then "true" else if bool_decide (name = "RAFT_SELF_ID") then "n1"
  else if bool_decide (name = "RAFT_BIND_ADDR") then bind else if bool_decide (name = "PERSISTENCE_PROVIDER") then "pebble"
  else if bool_decide (name = "WORKER_STREAM_ADDR") then ":9091" else if bool_decide (name = "WORKER_AUTH_PROVIDER") then "static"
  else if bool_decide (name = "PRODUCER_AUTH_PROVIDER") then "static" else if bool_decide (name = "PRODUCER_STREAM_ADDR") then ":9092" else "".
Definition cfg (bind : string) : Config.Config :=
  config.applyEnvAndDefaults (env bind) (fun _ => None) config_run.redisJSON (fun _ _ => "{}") config_run.empty.
Definition unmarshal (_ : string) : res pebbleConfig := Ok (mkPebbleConfig "" false 2).
Definition registry : gmap string (option string -> res (Validator unit)) :=
  {[ "static" := fun _ => Ok (static.Validate (static.mkStatic "p-token" "p1" "" [] [] ∅)) ]}.
Definition limiter : Limiter unit := fun _ _ _ => mret (mkDecision true 0).
Abbreviation start bind fails :=
  (newPebbleApplication (cfg bind) unmarshal registry limiter (fun l => l) "" (fun _ => false) (fun _ => true) fails [] []).
(** The port of the producer stream is taken. *)
Definition taken (s : step) : option error := match s with SListenProducer => Some (ErrExternal "address already in use") | _ => None end.
End wiring_run.


(** Where the conditions fail, so does the balance.  A base address with port 0
    is refused at the second shard only, and the first shard's store is closed
    under its running raft group; when the library cannot start a group, the
    transport that was opened for it stays. *)
Lemma start_leaks :
  (exists e, fst (wiring_run.start ":0" (fun _ => None)) = Err e) /\
  Closed (RPebble 0) ∈ snd (wiring_run.start ":0" (fun _ => None)) /\ Opened (RRaft 0) ∈ snd (wiring_run.start ":0" (fun _ => None)) /\
  Closed (RRaft 0) ∉ snd (wiring_run.start ":0" (fun _ => None)) /\
  let out := wiring_run.start ":7000" (fun s => match s with SNewRaft 0 => Some (ErrExternal "log corrupt") | _ => None end) in
  is_ok (fst out) = false /\ (o_trans <$> replay (snd out)) = Some {[ 0%nat ]}.
Proof.
  assert (snd (wiring_run.start ":0" (fun _ => None)) = [Closed (RPebble 1); Closed (RPebble 0); Closed RBackground; Opened (RRaft 0); Opened (RTransport 0);
    Opened RBackground; Opened (RPebble 1); Opened (RPebble 0)]) as -> by (vm_compute; reflexivity).
  split; [eexists; vm_compute; reflexivity|]. split; [set_solver|]. split; [set_solver|]. split; [set_solver|]. vm_compute. done.
Qed.
