(* ===== verification/Invariant.v ===== *)
(** The queue invariant of the durable store, and the one lemma every state
    change goes through.

    [StoreInv m L] relates the stored map [m] and the lease table [L]: every
    live task (one whose body is stored) stands in at most one queue, in the
    queue its status names and under its own command, tenant and priority;
    a PENDING or IN_PROGRESS task does stand in one; an IN_PROGRESS task has a
    lease.  Queue entries whose task body is gone (ghosts) are not
    constrained.  [transition_inv] preserves it under a batch that moves one
    task, whatever the order of the batch. *)

From S2P Require Import Prelude GoTime Domain Keys LeaseTable PebbleDB TaskRepo.

(** ** Typed batches *)

(** A write ([Some]) or a delete ([None]) of a typed key. *)
Abbreviation top := (qkey * option string)%type.

Definition op_of (o : top) : kvop :=
  match o with (q, Some v) => OpSet (enc q) v | (q, None) => OpDelete (enc q) end.

(** What [q] holds after the batch, from what it held before. *)
Fixpoint tlook (tb : list top) (q : qkey) (v : option string) : option string :=
  match tb with
  | [] => v
  | (q', ov) :: tb' => tlook tb' q (if decide (q = q') then ov else v)
  end.

Lemma tlook_app tb1 tb2 q v : tlook (tb1 ++ tb2) q v = tlook tb2 q (tlook tb1 q v).
Proof. revert v. induction tb1 as [|[q' ov] tb1 IH]; intros v; simpl; auto. Qed.

Lemma tlook_notin tb q v : (forall o, o ∈ tb -> fst o <> q) -> tlook tb q v = v.
Proof.
  revert v. induction tb as [|[q' ov] tb IH]; intros v H; simpl; [done|].
  rewrite IH by (intros o Ho; apply H; by constructor).
  case_decide as E; [|done]. destruct (H (q', ov)); [constructor | done].
Qed.

Lemma lookup_typed tb m q :
  wf_qkey q -> Forall (fun o => wf_qkey (fst o)) tb ->
  apply_batch (map op_of tb) m !! enc q = tlook tb q (m !! enc q).
Proof.
  intros Wq. revert m. induction tb as [|[q' ov] tb IH]; intros m W; [done|].
  apply Forall_cons in W as [W' W]. simpl in W'. cbn [map tlook].
  rewrite apply_batch_cons, IH by done. f_equal. case_decide as E.
  - subst q'. destruct ov; simpl; [apply lookup_insert_eq | apply lookup_delete_eq].
  - assert (enc q' <> enc q) as Hne by (intros Heq; apply E; symmetry; by apply enc_inj).
    destruct ov; simpl; [by apply lookup_insert_ne | by apply lookup_delete_ne].
Qed.

Lemma keys_typed tb m k :
  is_Some (apply_batch (map op_of tb) m !! k) ->
  is_Some (m !! k) \/ exists o, o ∈ tb /\ k = enc (fst o).
Proof.
  revert m. induction tb as [|[q' ov] tb IH]; intros m Hk; [by left|].
  cbn [map] in Hk. rewrite apply_batch_cons in Hk. apply IH in Hk as [Hk|(o & Ho & ->)].
  - destruct ov as [v|]; simpl in Hk.
    + destruct (decide (enc q' = k)) as [<-|Hne].
      * right. exists (q', Some v). split; [constructor | done].
      * left. by rewrite lookup_insert_ne in Hk.
    + apply lookup_delete_is_Some in Hk as [_ Hk]. by left.
  - right. exists o. split; [by constructor | done].
Qed.

(** ** Ids and keys *)

Definition id_ok (id : string) : bool := seg_ok id && negb (bool_decide (id = "")).

(** The task a queue entry stands for. *)
Definition qid (q : qkey) : option string :=
  match q with
  | KPending _ _ _ _ id | KInprog _ _ id | KDelayed _ _ _ id | KDLQ _ _ id => Some id
  | _ => None
  end.

(** The task an indexed key names: queue entries and retention entries. *)
Definition kid (q : qkey) : option string :=
  match q with KTTL _ id => Some id | _ => qid q end.

(** Segments that are not the name of a queue type: the recovery scans find
    the type of a key by searching for it. *)
Definition free (s : string) : bool :=
  bool_decide (s ∉ ["pending"; "inprog"; "delayed"; "dlq"]).

(** The scores of delayed entries: clock readings, far below the width. *)
Definition score (s : Z) : Prop := 0 <= s < 2 ^ 56.

(** A pair of segments as the code writes them: lower-case command, tenant
    never empty, neither a queue type. *)
Definition queue_name (c t : string) : Prop :=
  free c = true /\ free t = true /\ cmdSeg c = c /\ t <> "".

Definition named (q : qkey) : Prop :=
  match q with
  | KPending c t _ _ _ | KInprog c t _ | KDLQ c t _ => queue_name c t
  | KDelayed c t s _ => queue_name c t /\ score s
  | _ => True
  end.

Definition okq (q : qkey) : Prop :=
  wf_qkey q /\ match kid q with Some id => id_ok id = true | None => True end /\ named q.

(** Keys a batch about task [id] may touch. *)
Definition about (id : string) (q : qkey) : Prop :=
  match q with
  | KTask i => i = id
  | _ => match qid q with Some i => i = id | None => True end
  end.

(** Keys that are neither a task body nor a queue entry. *)
Definition aside (q : qkey) : Prop :=
  match q with KTask _ => False | _ => qid q = None end.

Lemma id_ok_seg id : id_ok id = true -> seg_ok id = true.
Proof. unfold id_ok. rewrite andb_true_iff. by intros []. Qed.

Lemma id_ok_ne id : id_ok id = true -> id <> "".
Proof. unfold id_ok. rewrite andb_true_iff, negb_true_iff. intros [_ H]. by case_bool_decide. Qed.

Lemma okq_wf q : okq q -> wf_qkey q.
Proof. by intros []. Qed.

#[export] Hint Resolve id_ok_seg id_ok_ne okq_wf : codeq.

(** ** Tasks and their places *)

Definition statuses : list string := [StatusPending; StatusInProgress; StatusCompleted; StatusFailed].

(** The lease of the task can be read back after a restart. *)
Definition recoverable (t : Task) : Prop :=
  t.(WorkerID) <> "" /\ t.(LeaseUntil) <> "" /\ is_Some (ParseRFC3339 t.(LeaseUntil)).

(** A command or tenant that can name a queue. *)
Definition name_ok (seg : string -> string) (s : string) : Prop := seg_ok s = true /\ free (seg s) = true.

(** A task as the handlers build it, stored under [id]. *)
Record good_task (id : string) (t : Task) : Prop := {
  gt_id : t.(ID) = id;
  gt_idok : id_ok id = true;
  gt_cmd : name_ok cmdSeg t.(Command);
  gt_ten : name_ok tenantSeg t.(TenantID);
  gt_status : t.(Status) ∈ statuses;
  gt_lease : t.(Status) = StatusInProgress -> recoverable t
}.

(** The queue entries the state of a task allows. *)
Definition place (t : Task) (q : qkey) : Prop :=
  let c := cmdSeg t.(Command) in
  let ten := tenantSeg t.(TenantID) in
  match q with
  | KPending c' t' p _ id =>
      t.(Status) = StatusPending /\ c' = c /\ t' = ten /\ p = normalizePriority t.(Priority) /\ id = t.(ID)
  | KDelayed c' t' _ id => t.(Status) = StatusPending /\ c' = c /\ t' = ten /\ id = t.(ID)
  | KInprog c' t' id => t.(Status) = StatusInProgress /\ c' = c /\ t' = ten /\ id = t.(ID)
  | KDLQ c' t' id => t.(Status) = StatusFailed /\ c' = c /\ t' = ten /\ id = t.(ID)
  | _ => False
  end.

Definition open_status (t : Task) : Prop := t.(Status) = StatusPending \/ t.(Status) = StatusInProgress.

(** The keys the code builds are well-formed. *)
Lemma lower_lower a : lower_byte (lower_byte a) = lower_byte a.
Proof.
  unfold lower_byte. destruct ((65 <=? ch a) && (ch a <=? 90)) eqn:E; [|by rewrite E].
  apply andb_true_iff in E as [E1 E2]. rewrite Z.leb_le in *.
  rewrite ch_byte, Z.mod_small by lia.
  by rewrite (proj2 (Z.leb_gt (ch a + 32) 90)), andb_false_r by lia.
Qed.

Lemma cmdSeg_cmdSeg c : cmdSeg (cmdSeg c) = cmdSeg c.
Proof. unfold cmdSeg. induction c as [|a c IH]; simpl; [done|]. by rewrite lower_lower, IH. Qed.

Lemma tenantSeg_ne t : tenantSeg t <> "".
Proof. unfold tenantSeg. by case_bool_decide. Qed.

Lemma name_queue cmd ten : name_ok cmdSeg cmd -> name_ok tenantSeg ten -> queue_name (cmdSeg cmd) (tenantSeg ten).
Proof. intros [_ Hc] [_ Ht]. split_and!; [done | done | apply cmdSeg_cmdSeg | apply tenantSeg_ne]. Qed.

Lemma name_seg cmd ten : name_ok cmdSeg cmd -> name_ok tenantSeg ten ->
  seg_ok (cmdSeg cmd) = true /\ seg_ok (tenantSeg ten) = true.
Proof. intros [Hc _] [Ht _]. rewrite seg_ok_cmd. split; [done | by apply seg_ok_tenant]. Qed.

Lemma okq_pending cmd ten p s id :
  name_ok cmdSeg cmd -> name_ok tenantSeg ten -> 0 <= p <= 9 -> uint64 s -> id_ok id = true ->
  okq (KPending (cmdSeg cmd) (tenantSeg ten) p s id).
Proof.
  intros Hc Ht Hp Hs Hid. destruct (name_seg _ _ Hc Ht). split; [|split; [done | by apply name_queue]].
  simpl. split_and!; try done; lia.
Qed.

Lemma okq_delayed cmd ten s id :
  name_ok cmdSeg cmd -> name_ok tenantSeg ten -> score s -> id_ok id = true ->
  okq (KDelayed (cmdSeg cmd) (tenantSeg ten) s id).
Proof.
  intros Hc Ht Hs Hid. destruct (name_seg _ _ Hc Ht).
  split; [|split; [done | by split; [apply name_queue|]]].
  simpl. unfold score, uint64, two64 in *. split_and!; try done; lia.
Qed.

Lemma okq_inprog cmd ten id :
  name_ok cmdSeg cmd -> name_ok tenantSeg ten -> id_ok id = true ->
  okq (KInprog (cmdSeg cmd) (tenantSeg ten) id).
Proof.
  intros Hc Ht Hid. destruct (name_seg _ _ Hc Ht). split; [done|]. split; [done | by apply name_queue].
Qed.

Lemma okq_dlq cmd ten id :
  name_ok cmdSeg cmd -> name_ok tenantSeg ten -> id_ok id = true ->
  okq (KDLQ (cmdSeg cmd) (tenantSeg ten) id).
Proof.
  intros Hc Ht Hid. destruct (name_seg _ _ Hc Ht). split; [done|]. split; [done | by apply name_queue].
Qed.

Lemma okq_ttl e id : uint64 e -> id_ok id = true -> okq (KTTL e id).
Proof. by split. Qed.

Lemma okq_task id : okq (KTask id).
Proof. by split. Qed.

(** What a proof wants to see unchanged: [frozen id st] says that task [id]
    has reached the final status [st].  The invariant carries it, so that its
    preservation says that final statuses do not change. *)
Class Ghost := {
  frozen : string -> string -> Prop;
  frozen_final id st : frozen id st -> st = StatusCompleted \/ st = StatusFailed
}.

Section store.
Context `{JSONLaws} `{Ghost}.
Implicit Types (m : gmap string string) (L : gmap string leaseEntry).

Definition live m (id : string) (t : Task) : Prop :=
  exists v, m !! enc (KTask id) = Some v /\ unmarshal_task v = Some t.

(** [q] is a queue entry of [id] in the store. *)
Definition entry m (id : string) (q : qkey) : Prop :=
  okq q /\ qid q = Some id /\ is_Some (m !! enc q).

Record StoreInv m L : Prop := {
  inv_keys : forall k, is_Some (m !! k) ->
    has_prefix pQueue k = true \/ has_prefix pTTL k = true -> exists q, okq q /\ k = enc q;
  inv_body : forall id v, m !! enc (KTask id) = Some v ->
    exists t, unmarshal_task v = Some t /\ good_task id t;
  inv_place : forall id t q, live m id t -> entry m id q -> place t q;
  inv_one : forall id t q q', live m id t -> entry m id q -> entry m id q' -> q = q';
  inv_some : forall id t, live m id t -> open_status t -> exists q, entry m id q;
  inv_lease : forall id t, live m id t -> t.(Status) = StatusInProgress -> is_Some (L !! id);
  inv_frozen : forall id st t, frozen id st -> live m id t -> t.(Status) = st
}.

Lemma live_fun m id t t' : live m id t -> live m id t' -> t = t'.
Proof. intros (v & Hv & Hu) (v' & Hv' & Hu'). congruence. Qed.

Lemma live_good m L id t : StoreInv m L -> live m id t -> good_task id t.
Proof.
  intros I (v & Hv & Hu). destruct (inv_body _ _ I id v Hv) as (t' & Hu' & Hg). congruence.
Qed.

Lemma place_qid t q : place t q -> qid q = Some t.(ID).
Proof. destruct q; simpl; try done; intros; destruct_and?; congruence. Qed.

(** ** The transition lemma *)

Definition typed (tb : list top) : Prop := Forall (fun o => okq (fst o)) tb.

Lemma typed_wf tb : typed tb -> Forall (fun o => wf_qkey (fst o)) tb.
Proof. intros. eapply Forall_impl; [eassumption|]. intros o [Hw _]. exact Hw. Qed.

Lemma wf_task id : wf_qkey (KTask id).
Proof. done. Qed.

Section one_task.
Context (m : gmap string string) (L L' : gmap string leaseEntry) (id : string) (tb : list top).
Hypothesis Ityped : typed tb.
Hypothesis Iabout : Forall (fun o => about id (fst o)) tb.

Let m' := apply_batch (map op_of tb) m.

Lemma tlook_about q v : (match q with KTask i => Some i | _ => qid q end) <> None ->
  ~ about id q -> tlook tb q v = v.
Proof.
  intros Hq Hn. apply tlook_notin. intros o Ho <-. apply Hn.
  rewrite Forall_forall in Iabout. by apply Iabout.
Qed.

Lemma live_other i t : i <> id -> live m' i t <-> live m i t.
Proof.
  intros Hi. unfold live, m'. setoid_rewrite lookup_typed; [|done | by apply typed_wf].
  by rewrite tlook_about by done.
Qed.

Lemma lookup_other i q : i <> id -> okq q -> qid q = Some i -> m' !! enc q = m !! enc q.
Proof.
  intros Hi [Hw _] Hq. unfold m'. rewrite lookup_typed by auto using typed_wf, wf_task.
  apply tlook_about; destruct q; simpl in *; congruence.
Qed.

Lemma entry_other i q : i <> id -> entry m' i q <-> entry m i q.
Proof.
  intros Hi. unfold entry. split; intros (Ho & Hq & Hs); (split; [done|]; split; [done|]);
    by rewrite (lookup_other i) in *.
Qed.

(** A batch about one task, which leaves it in state [t'] and exactly in the
    queue [oq], preserves the invariant. *)
Lemma transition_inv t' oq :
  StoreInv m L ->
  tlook tb (KTask id) (m !! enc (KTask id)) = Some (marshal_task t') ->
  good_task id t' ->
  (forall q, okq q -> qid q = Some id -> is_Some (tlook tb q (m !! enc q)) <-> oq = Some q) ->
  match oq with Some q => okq q /\ place t' q | None => ~ open_status t' end ->
  (t'.(Status) = StatusInProgress -> is_Some (L' !! id)) ->
  (forall st, frozen id st -> t'.(Status) = st) ->
  (forall i, i <> id -> is_Some (L !! i) -> is_Some (L' !! i)) ->
  StoreInv m' L'.
Proof.
  intros I Htask Hgood Hq Hplace Hl Hfz HL.
  assert (m' !! enc (KTask id) = Some (marshal_task t')) as Hbody
    by (unfold m'; by rewrite lookup_typed by auto using typed_wf, wf_task).
  assert (forall t, live m' id t -> t = t') as Hlive.
  { intros t (v & Hv & Hu). rewrite Hbody in Hv. injection Hv as <-.
    rewrite task_roundtrip in Hu. congruence. }
  assert (forall q, entry m' id q -> oq = Some q) as Hentry.
  { intros q (Ho & Hi & Hs). apply Hq; try done. unfold m' in Hs.
    by rewrite lookup_typed in Hs by (auto using typed_wf, wf_task with codeq). }
  split.
  - intros k Hk Hp. apply keys_typed in Hk as [Hk|(o & Ho & ->)]; [by eapply inv_keys|].
    exists (fst o). split; [|done]. unfold typed in Ityped. rewrite Forall_forall in Ityped. auto.
  - intros i v Hv. destruct (decide (i = id)) as [->|Hi].
    + rewrite Hbody in Hv. injection Hv as <-. rewrite task_roundtrip. eauto.
    + apply (inv_body _ _ I). rewrite <- Hv. unfold m'.
      rewrite lookup_typed by auto using typed_wf, wf_task. by rewrite tlook_about.
  - intros i t q Ht He. destruct (decide (i = id)) as [->|Hi].
    + rewrite (Hlive _ Ht). apply Hentry in He. subst oq. apply Hplace.
    + rewrite live_other in Ht by done. rewrite entry_other in He by done. by eapply inv_place.
  - intros i t q q' Ht He He'. destruct (decide (i = id)) as [->|Hi].
    + apply Hentry in He, He'. congruence.
    + rewrite live_other in Ht by done. rewrite entry_other in He, He' by done. by eapply inv_one.
  - intros i t Ht Ho. destruct (decide (i = id)) as [->|Hi].
    + rewrite (Hlive _ Ht) in Ho. destruct oq as [q|]; [|done]. destruct Hplace as [Hok Hp].
      assert (qid q = Some id) as Hid by (rewrite (place_qid _ _ Hp); f_equal; apply Hgood).
      exists q. repeat split; [apply Hok.. | done |]. unfold m'.
      rewrite lookup_typed by (auto using typed_wf, wf_task with codeq). by apply Hq.
    + rewrite live_other in Ht by done. destruct (inv_some _ _ I i t Ht Ho) as [q Hqe].
      exists q. by apply entry_other.
  - intros i t Ht Hs. destruct (decide (i = id)) as [->|Hi].
    + apply Hl. by rewrite <- (Hlive _ Ht).
    + rewrite live_other in Ht by done. apply HL; [done|]. by eapply inv_lease.
  - intros i st t Hz Ht. destruct (decide (i = id)) as [->|Hi].
    + rewrite (Hlive _ Ht). by apply Hfz.
    + rewrite live_other in Ht by done. by eapply inv_frozen.
Qed.
End one_task.

(** ** Consequences *)

Lemma entry_unique m L id t q0 q :
  StoreInv m L -> live m id t -> entry m id q0 -> okq q -> qid q = Some id ->
  is_Some (m !! enc q) -> q = q0.
Proof. intros I Ht He Hok Hq Hs. eapply (inv_one _ _ I); eauto. by split. Qed.

Lemma open_not_frozen m L id t st :
  StoreInv m L -> live m id t -> open_status t -> ~ frozen id st.
Proof.
  intros I Hl Ho Hz. pose proof (inv_frozen _ _ I _ _ _ Hz Hl) as Hs.
  destruct (frozen_final _ _ Hz), Ho; status_contra.
Qed.

(** The queues a task leaves are those of open tasks. *)
Definition open_queue (q : qkey) : Prop := match q with KDLQ _ _ _ => False | _ => True end.

Lemma place_open t q : place t q -> open_queue q -> open_status t.
Proof. unfold open_status. destruct q; simpl; tauto. Qed.

(** A move from the queue [q0] to the queue [oq]. *)
Lemma move_inv m L L' id t q0 tb t' oq :
  typed tb -> Forall (fun o => about id (fst o)) tb ->
  StoreInv m L -> live m id t -> entry m id q0 -> open_queue q0 ->
  tlook tb (KTask id) (m !! enc (KTask id)) = Some (marshal_task t') ->
  good_task id t' ->
  (forall q v, qid q = Some id -> q <> q0 -> oq <> Some q -> tlook tb q v = v) ->
  (forall v, tlook tb q0 v = None) ->
  (forall q v, oq = Some q -> is_Some (tlook tb q v)) ->
  match oq with Some q => okq q /\ place t' q | None => ~ open_status t' end ->
  (t'.(Status) = StatusInProgress -> is_Some (L' !! id)) ->
  (forall i, i <> id -> is_Some (L !! i) -> is_Some (L' !! i)) ->
  StoreInv (apply_batch (map op_of tb) m) L'.
Proof.
  intros Ht Ha I Hl He Hoq Htask Hgood Hrest H0q Hto Hp Hlease HL.
  eapply transition_inv; try eassumption.
  2: { intros st Hz. exfalso. eapply open_not_frozen; eauto. eapply place_open; [|exact Hoq].
       by eapply inv_place. }
  intros q Hok Hq. split.
  - intros Hs. destruct (decide (oq = Some q)) as [|Hne]; [done|]. exfalso.
    destruct (decide (q = q0)) as [->|Hq0].
    + rewrite H0q in Hs. by destruct Hs.
    + rewrite Hrest in Hs by done. apply Hq0. by eapply entry_unique.
  - intros ->. by apply Hto.
Qed.

(** A new task in a store that has no trace of its id. *)
Definition fresh m (id : string) : Prop :=
  m !! enc (KTask id) = None /\ (forall q, okq q -> qid q = Some id -> m !! enc q = None) /\
  forall st, ~ frozen id st.

Lemma create_inv m L L' id tb t' q1 :
  typed tb -> Forall (fun o => about id (fst o)) tb ->
  StoreInv m L -> fresh m id ->
  tlook tb (KTask id) (m !! enc (KTask id)) = Some (marshal_task t') ->
  good_task id t' ->
  (forall q v, qid q = Some id -> q <> q1 -> tlook tb q v = v) ->
  (forall v, is_Some (tlook tb q1 v)) ->
  okq q1 -> place t' q1 -> t'.(Status) <> StatusInProgress ->
  (forall i, i <> id -> is_Some (L !! i) -> is_Some (L' !! i)) ->
  StoreInv (apply_batch (map op_of tb) m) L'.
Proof.
  intros Ht Ha I (Hf1 & Hf2 & Hf3) Htask Hgood Hrest Hto Hok Hp Hst HL.
  eapply (transition_inv _ _ _ _ _ Ht Ha t' (Some q1)); try done.
  2: { intros st Hz. by apply Hf3 in Hz. }
  intros q Hqok Hq. split.
  - intros Hs. destruct (decide (q = q1)) as [->|Hne]; [done|].
    rewrite Hrest, Hf2 in Hs by done. by destruct Hs.
  - intros [= ->]. apply Hto.
Qed.

(** The queue entry of a live task, if any. *)
Lemma entry_dec m L id t :
  StoreInv m L -> live m id t ->
  (exists q, entry m id q) \/ (forall q, okq q -> qid q = Some id -> m !! enc q = None).
Proof.
  intros I Hl. pose proof (live_good _ _ _ _ I Hl) as G.
  destruct (decide (t.(Status) = StatusPending \/ t.(Status) = StatusInProgress)) as [Ho|Ho].
  { left. by eapply inv_some. }
  set (q0 := KDLQ (cmdSeg t.(Command)) (tenantSeg t.(TenantID)) id).
  destruct (m !! enc q0) as [v|] eqn:E.
  { left. exists q0. split; [apply okq_dlq; apply G|]. split; [done | by eexists]. }
  right. intros q Hok Hq. destruct (m !! enc q) as [v|] eqn:Eq; [|done]. exfalso.
  assert (place t q) as Hp.
  { eapply inv_place; [done | done |]. split; [done|]. split; [done | by eexists]. }
  destruct q; simpl in Hp; try done; destruct_and?; simplify_eq; try tauto.
  unfold q0 in E. rewrite (gt_id _ _ G) in Eq. congruence.
Qed.

(** Same state, same queue: rewriting a body in place. *)
Definition same_place (t t' : Task) : Prop :=
  t'.(ID) = t.(ID) /\ t'.(Command) = t.(Command) /\ t'.(TenantID) = t.(TenantID) /\
  t'.(Priority) = t.(Priority) /\ t'.(Status) = t.(Status).

Lemma same_place_place t t' q : same_place t t' -> place t q -> place t' q.
Proof. intros (Hi & Hc & Ht & Hp & Hs). unfold place. by rewrite Hi, Hc, Ht, Hp, Hs. Qed.

Lemma rewrite_inv m L L' id t tb t' :
  typed tb -> Forall (fun o => about id (fst o)) tb ->
  StoreInv m L -> live m id t -> same_place t t' -> good_task id t' ->
  tlook tb (KTask id) (m !! enc (KTask id)) = Some (marshal_task t') ->
  (forall q v, qid q = Some id -> tlook tb q v = v) ->
  (forall i, is_Some (L !! i) -> is_Some (L' !! i)) ->
  StoreInv (apply_batch (map op_of tb) m) L'.
Proof.
  intros Ht Ha I Hl Hsame G' Htask Hrest HL.
  assert (t'.(Status) = StatusInProgress -> is_Some (L' !! id)) as Hlease.
  { destruct Hsame as (_ & _ & _ & _ & ->). intros. apply HL. by eapply inv_lease. }
  assert (forall st, frozen id st -> t'.(Status) = st) as Hfz.
  { destruct Hsame as (_ & _ & _ & _ & ->). intros st Hz. by eapply inv_frozen. }
  destruct (entry_dec _ _ _ _ I Hl) as [[q0 He]|Hnone].
  - eapply (transition_inv _ _ _ _ _ Ht Ha t' (Some q0)); eauto.
    + intros q Hok Hq. rewrite Hrest by done. split.
      * intros. f_equal. symmetry. by eapply entry_unique.
      * intros [= ->]. apply He.
    + split; [apply He|]. eapply same_place_place; [done|]. by eapply inv_place.
  - eapply (transition_inv _ _ _ _ _ Ht Ha t' None); eauto.
    + intros q Hok Hq. rewrite Hrest, Hnone by done. split; [by intros [] | done].
    + unfold open_status. destruct Hsame as (_ & _ & _ & _ & ->). intros Ho.
      destruct (inv_some _ _ I id t Hl Ho) as (q & Hok & Hq & Hs).
      rewrite Hnone in Hs by done. by destruct Hs.
Qed.

(** Changes that touch no task body and no queue entry of a live task. *)
Lemma ext_inv m m' L L' :
  StoreInv m L ->
  (forall id, m' !! enc (KTask id) = m !! enc (KTask id)) ->
  (forall id t q, live m id t -> okq q -> qid q = Some id -> m' !! enc q = m !! enc q) ->
  (forall k, is_Some (m' !! k) -> is_Some (m !! k) \/ exists q, okq q /\ k = enc q) ->
  (forall id t, live m id t -> t.(Status) = StatusInProgress -> is_Some (L !! id) -> is_Some (L' !! id)) ->
  StoreInv m' L'.
Proof.
  intros I Hbody Hq Hkeys HL.
  assert (forall id t, live m' id t <-> live m id t) as Hlive
    by (intros; unfold live; by rewrite Hbody).
  assert (forall id t q, live m id t -> entry m' id q <-> entry m id q) as Hentry.
  { intros id t q Ht. unfold entry.
    split; intros (Ho & Hi & Hs); (split; [done|]; split; [done|]); by rewrite (Hq id t q) in *. }
  split.
  - intros k Hk Hp. apply Hkeys in Hk as [Hk|]; [by eapply inv_keys | done].
  - intros id v Hv. rewrite Hbody in Hv. by eapply inv_body.
  - intros id t q Ht He. apply Hlive in Ht. apply (Hentry _ _ _ Ht) in He. by eapply inv_place.
  - intros id t q q' Ht He He'. apply Hlive in Ht. apply (Hentry _ _ _ Ht) in He, He'.
    by eapply inv_one.
  - intros id t Ht Ho. apply Hlive in Ht. destruct (inv_some _ _ I id t Ht Ho) as [q He].
    exists q. by apply (Hentry _ _ _ Ht).
  - intros id t Ht Hs. apply Hlive in Ht. eapply HL; eauto using inv_lease.
  - intros id st t Hz Ht. apply Hlive in Ht. by eapply inv_frozen.
Qed.

(** Results, idempotency records and retention entries are aside. *)
Lemma aside_inv m L tb :
  typed tb -> Forall (fun o => aside (fst o)) tb -> StoreInv m L ->
  StoreInv (apply_batch (map op_of tb) m) L.
Proof.
  intros Ht Ha I. rewrite Forall_forall in Ha. eapply ext_inv; eauto.
  - intros id. rewrite lookup_typed by auto using typed_wf, wf_task.
    apply tlook_notin. intros o Ho Heq. apply Ha in Ho. by rewrite Heq in Ho.
  - intros id t q _ Hok Hq. rewrite lookup_typed by auto using typed_wf with codeq.
    apply tlook_notin. intros o Ho <-. apply Ha in Ho. unfold aside in Ho. destruct (fst o); done.
  - intros k Hk. apply keys_typed in Hk as [|(o & Ho & ->)]; [by left|]. right.
    unfold typed in Ht. rewrite Forall_forall in Ht. eauto.
Qed.

(** Deleting a queue entry of a task that is gone. *)
Lemma ghost_inv m L q id :
  StoreInv m L -> okq q -> qid q = Some id -> (forall t, ~ live m id t) ->
  StoreInv (delete (enc q) m) L.
Proof.
  intros I Hok Hq Hdead. eapply ext_inv; eauto.
  - intros i. apply lookup_delete_ne. intros Heq. apply enc_inj in Heq; [|by apply Hok | done].
    by subst q.
  - intros i t q' Ht Hok' Hq'. apply lookup_delete_ne. intros Heq.
    apply enc_inj in Heq; [|by apply Hok | by apply Hok']. subst q'.
    rewrite Hq in Hq'. injection Hq' as ->. by eapply Hdead.
  - intros k Hk. apply lookup_delete_is_Some in Hk as [_ Hk]. by left.
Qed.

(** Forgetting a task: its body, a retention entry and its lease go. *)
Lemma forget_inv m L id k :
  StoreInv m L -> (has_prefix pTTL k = true) ->
  StoreInv (delete k (delete (enc (KTask id)) m)) (delete id L).
Proof.
  intros I Hk.
  assert (forall q, okq q -> (match q with KTTL _ _ => False | _ => True end) -> enc q <> k) as Hne.
  { intros q _ Hq <-. pose proof (family_prefix_inj FTTL (family_of q) (enc q) Hk (enc_family q)) as Hf.
    by destruct q. }
  assert (forall i, enc (KTask i) <> k) as HneT by (intros i; apply Hne; done).
  assert (forall i t, live (delete k (delete (enc (KTask id)) m)) i t <-> i <> id /\ live m i t) as Hlive.
  { intros i t. unfold live. rewrite lookup_delete_ne by (intros E; by apply (HneT i)).
    destruct (decide (i = id)) as [->|Hi].
    - rewrite lookup_delete_eq. split; [intros (? & ? & _); done | by intros []].
    - rewrite lookup_delete_ne; [tauto|]. intros E. apply enc_inj in E; [congruence | done | done]. }
  assert (forall i q, entry (delete k (delete (enc (KTask id)) m)) i q <-> entry m i q) as Hentry.
  { intros i q. unfold entry. split; intros (Ho & Hi & Hs); (split; [done|]; split; [done|]).
    - by apply lookup_delete_is_Some in Hs as [_ [_ Hs]%lookup_delete_is_Some].
    - rewrite !lookup_delete_ne; [done | |].
      + intros E. apply enc_inj in E; [by subst q | done | apply Ho].
      + intros E. symmetry in E. revert E. apply Hne; [done | by destruct q]. }
  split.
  - intros k' [_ [_ Hk']%lookup_delete_is_Some]%lookup_delete_is_Some Hp. by eapply inv_keys.
  - intros i v Hv. rewrite lookup_delete_ne in Hv by (intros E; by apply (HneT i)).
    apply lookup_delete_Some in Hv as [_ Hv]. by eapply inv_body.
  - intros i t q [_ Ht]%Hlive He%Hentry. by eapply inv_place.
  - intros i t q q' [_ Ht]%Hlive He%Hentry He'%Hentry. by eapply inv_one.
  - intros i t [_ Ht]%Hlive Ho. destruct (inv_some _ _ I i t Ht Ho) as [q He].
    exists q. by apply Hentry.
  - intros i t [Hi Ht]%Hlive Hs. rewrite lookup_delete_ne by done. by eapply inv_lease.
  - intros i st t Hz [Hi Ht]%Hlive. by eapply inv_frozen.
Qed.
End store.
