(* ===== verification/KeyScan.v ===== *)
(** How the start-up scans read keys: where [indexOf] finds the type marker
    of a queue key, and what the recovery parsers extract from it. *)

From S2P Require Import Prelude GoTime Domain Keys LeaseTable PebbleDB TaskRepo Invariant.

(** ** Searching for a path segment *)

Lemma index_skip x y w i :
  elem "/" x = false -> index_from (x +:+ y) (String "/" w) i = index_from y (String "/" w) (i + slen x).
Proof.
  revert i. induction x as [|a x IH]; intros i Hx; rewrite ?app_cons_s, ?app_empty_s.
  - unfold slen. simpl. by rewrite Z.add_0_r.
  - cbn [elem] in Hx. apply orb_false_iff in Hx as [Ha Hx].
    assert (has_prefix (String "/" w) (String a (x +:+ y)) = false) as Hp.
    { cbn [has_prefix]. by rewrite Ascii.eqb_sym, Ha. }
    cbn [index_from]. rewrite Hp, IH by done. f_equal. unfold slen. cbn [String.length]. lia.
Qed.

Lemma index_hit w y i : index_from (String "/" (w +:+ y)) (String "/" w) i = i.
Proof.
  assert (has_prefix (String "/" w) (String "/" (w +:+ y)) = true) as Hp.
  { apply has_prefix_spec. exists y. by rewrite app_cons_s. }
  cbn [index_from]. by rewrite Hp.
Qed.

Lemma index_miss w y i :
  has_prefix w y = false -> index_from (String "/" y) (String "/" w) i = index_from y (String "/" w) (i + 1).
Proof. intros Hy. cbn [index_from has_prefix]. by rewrite Ascii.eqb_refl, Hy. Qed.

(** A segment that is not [w] does not start with [w/]. *)
Lemma segment_miss w c y :
  elem "/" w = false -> elem "/" c = false -> c <> w ->
  has_prefix (w +:+ "/") (c +:+ String "/" y) = false.
Proof.
  intros Hw Hc Hne. destruct (has_prefix _ _) eqn:E; [|done]. exfalso.
  apply has_prefix_spec in E as [r Hr]. rewrite app_assoc_s, app_cons_s, app_empty_s in Hr.
  by apply split_unique in Hr as [-> _].
Qed.

Lemma no_hit w u id :
  elem "/" id = false -> (String.length u <= String.length w)%nat ->
  has_prefix (w +:+ "/") (u +:+ id) = false.
Proof.
  intros Hid. revert w. induction u as [|a u IH]; intros w Hl.
  - rewrite app_empty_s. destruct (has_prefix _ _) eqn:E; [|done]. exfalso.
    apply has_prefix_spec in E as [r ->]. rewrite !elem_app in Hid. cbn [elem] in Hid.
    rewrite Ascii.eqb_refl in Hid. cbn [orb] in Hid. by rewrite orb_true_r in Hid.
  - destruct w as [|b w]; [cbn [String.length] in Hl; lia|]. rewrite !app_cons_s. cbn [has_prefix].
    rewrite IH by (cbn [String.length] in Hl; lia). by rewrite andb_false_r.
Qed.

(** A marker does not fit into what ends before an id. *)
Lemma no_index w u id i :
  elem "/" id = false -> (String.length u <= String.length w)%nat ->
  index_from (u +:+ id) (w +:+ "/") i = -1.
Proof.
  intros Hid. revert i. induction u as [|a u IH]; intros i Hl.
  - rewrite app_empty_s. revert i. induction id as [|b id IHd]; intros i.
    + pose proof (no_hit w "" "" Hid Hl) as Hh. rewrite app_empty_s in Hh.
      cbn [index_from]. by rewrite Hh.
    + pose proof (no_hit w "" (String b id) Hid Hl) as Hh. rewrite app_empty_s in Hh.
      cbn [index_from]. rewrite Hh. apply IHd. cbn [elem] in Hid. by apply orb_false_iff in Hid as [_ Hid].
  - pose proof (no_hit w (String a u) id Hid Hl) as Hh. rewrite app_cons_s in *. cbn [index_from].
    rewrite Hh. apply IH. cbn [String.length] in Hl. lia.
Qed.

(** ** The marker of a typed key *)

Lemma free_ne c w : free c = true -> w ∈ ["pending"; "inprog"; "delayed"; "dlq"] -> c <> w.
Proof. intros Hf Hw ->. unfold free in Hf. by apply bool_decide_eq_true in Hf. Qed.

(** Up to the type, a search for a type marker finds nothing. *)
Lemma index_base c t w rest :
  seg_ok c = true -> seg_ok t = true -> free c = true -> free t = true ->
  w ∈ ["pending"; "inprog"; "delayed"; "dlq"] ->
  indexOf (qbase c t +:+ rest) (String "/" (w +:+ "/")) =
  index_from (String "/" rest) (String "/" (w +:+ "/")) (slen pQueue + slen c + 1 + slen t).
Proof.
  intros Hc Ht Hfc Hft Hw.
  assert (elem "/" w = false /\ "q" <> w) as [Hws Hq].
  { rewrite !elem_of_cons in Hw. destruct Hw as [->|[->|[->|[->|Hw]]]]; try done. by apply not_elem_of_nil in Hw. }
  assert (qbase c t +:+ rest =
    "codeq" +:+ String "/" ("q" +:+ String "/" (c +:+ String "/" (t +:+ String "/" rest)))) as ->.
  { unfold qbase, pQueue, namespace. by rewrite !app_assoc_s, !app_cons_s, !app_empty_s, !app_assoc_s. }
  unfold indexOf. rewrite index_skip by done. rewrite index_miss by (by apply segment_miss).
  rewrite index_skip by done.
  rewrite index_miss by (apply segment_miss; auto with codeq; by eapply free_ne).
  rewrite index_skip by auto with codeq.
  rewrite index_miss by (apply segment_miss; auto with codeq; by eapply free_ne).
  rewrite index_skip by auto with codeq. reflexivity.
Qed.

Lemma marker_pending c t p s id :
  okq (KPending c t p s id) ->
  indexOf (enc (KPending c t p s id)) segPending = slen pQueue + slen c + 1 + slen t.
Proof.
  intros ((Hc & Ht & _) & _ & (Hfc & Hft & _)). cbn [enc].
  change segPending with (String "/" ("pending" +:+ "/")).
  rewrite index_base by (done || apply list_elem_of_here).
  change ("pending/" +:+ ?x) with (("pending" +:+ "/") +:+ x). apply index_hit.
Qed.

Lemma be8_low s : score s -> exists r, be8 s = String (byte 0) r /\ String.length r = 7%nat.
Proof.
  intros Hs. unfold be8. cbn [be_bytes]. eexists. split.
  - f_equal. apply ch_inj. rewrite !ch_byte. change (8 * Z.of_nat 7) with 56.
    rewrite Z.shiftr_div_pow2 by lia. unfold score in Hs. rewrite Z.div_small by lia. done.
  - reflexivity.
Qed.

(** After the type, a plain id holds no marker. *)
Lemma no_marker_id c t typ w id :
  seg_ok c = true -> seg_ok t = true -> free c = true -> free t = true ->
  w ∈ ["pending"; "inprog"; "delayed"; "dlq"] -> typ ∈ ["pending"; "inprog"; "delayed"; "dlq"] -> typ <> w ->
  elem "/" id = false ->
  indexOf (qbase c t +:+ typ +:+ String "/" id) (String "/" (w +:+ "/")) = -1.
Proof.
  intros Hc Ht Hfc Hft Hw Htyp Hne Hid. rewrite index_base by done.
  assert (elem "/" w = false /\ elem "/" typ = false) as [Hws Hts].
  { rewrite !elem_of_cons in Hw, Htyp. split.
    - destruct Hw as [->|[->|[->|[->|Hw]]]]; try done. by apply not_elem_of_nil in Hw.
    - destruct Htyp as [->|[->|[->|[->|Htyp]]]]; try done. by apply not_elem_of_nil in Htyp. }
  rewrite index_miss by (by apply segment_miss). rewrite index_skip by done.
  apply (no_index (String "/" w) "/" id); [done|]. cbn [String.length]. lia.
Qed.

Lemma marker_inprog_pending c t id :
  okq (KInprog c t id) -> indexOf (enc (KInprog c t id)) segPending = -1.
Proof.
  intros ((Hc & Ht) & Hid & (Hfc & Hft & _)). cbn [enc].
  apply (no_marker_id c t "inprog" "pending" id); try done; auto with codeq;
    rewrite !elem_of_cons; tauto.
Qed.

Lemma marker_dlq_pending c t id :
  okq (KDLQ c t id) -> indexOf (enc (KDLQ c t id)) segPending = -1.
Proof.
  intros ((Hc & Ht) & Hid & (Hfc & Hft & _)). cbn [enc].
  apply (no_marker_id c t "dlq" "pending" id); try done; auto with codeq;
    rewrite !elem_of_cons; tauto.
Qed.

Lemma marker_delayed_pending c t s id :
  okq (KDelayed c t s id) -> indexOf (enc (KDelayed c t s id)) segPending = -1.
Proof.
  intros ((Hc & Ht & _) & Hid & ((Hfc & Hft & _) & Hs)). cbn [enc].
  destruct (be8_low s Hs) as (r & -> & Hr).
  change segPending with (String "/" ("pending" +:+ "/")).
  rewrite index_base by (done || (rewrite !elem_of_cons; tauto)).
  change ("delayed/" +:+ ?x) with ("delayed" +:+ String "/" x).
  rewrite index_miss by (by apply segment_miss). rewrite index_skip by done.
  rewrite app_cons_s. rewrite index_miss by done.
  rewrite (index_skip (String (byte 0) "") (r +:+ String "/" id)) by done.
  change (String "/" id) with ("/" +:+ id). rewrite <- app_assoc_s.
  change (String "/" ("pending" +:+ "/")) with ("/pending" +:+ "/").
  apply no_index; [auto with codeq|]. rewrite length_app_s, Hr. done.
Qed.

(** ** Slices of a key *)

Lemma split_two c t : elem "/" c = false -> splitN (c +:+ String "/" t) "/" 2 = [c; t].
Proof.
  unfold splitN. change (2 - 1)%nat with 1%nat.
  assert (forall cur, elem "/" c = false ->
    split_go (c +:+ String "/" t) "/" 1 cur = [cur +:+ c; t]) as Hgen.
  { induction c as [|a c IH]; intros cur Hc; rewrite ?app_cons_s, ?app_empty_s.
    - cbn [split_go]. rewrite Ascii.eqb_refl, app_nil_s. f_equal. destruct t; cbn [split_go]; by rewrite ?app_empty_s.
    - cbn [elem] in Hc. apply orb_false_iff in Hc as [Ha Hc]. cbn [split_go]. rewrite Ha.
      rewrite IH by done. by rewrite app_assoc_s, app_cons_s, app_empty_s. }
  intros Hc. rewrite Hgen by done. by rewrite app_empty_s.
Qed.

Section parsers.
Context {P : Type} `{Pebble P} `{JSON}.

Lemma slice_mid (x y z : string) lo hi :
  lo = slen x -> hi = slen x + slen y ->
  TaskRepository.slice (P := P) (x +:+ y +:+ z) lo hi = mret y.
Proof.
  intros -> ->. unfold TaskRepository.slice, slen. rewrite !length_app_s.
  rewrite (proj2 (Z.leb_le _ _)), (proj2 (Z.leb_le _ _)) by lia. cbn [andb].
  rewrite Nat2Z.id, drop_app_s.
  replace (Z.to_nat _) with (String.length y) by lia. by rewrite take_app_s.
Qed.

(** The tenant of a key segment. *)
Definition unseg (t : string) : string := if bool_decide (t = emptyTenant) then "" else t.

Lemma unseg_seg t : t <> "" -> tenantSeg (unseg t) = t.
Proof. intros Ht. unfold unseg, tenantSeg, emptyTenant. repeat case_bool_decide; congruence. Qed.

Lemma queueOf_base c t rest idx :
  elem "/" c = false -> idx = slen pQueue + slen c + 1 + slen t ->
  TaskRepository.queueOf (P := P) (qbase c t +:+ rest) idx = mret (Some (c, unseg t)).
Proof.
  intros Hc ->. unfold TaskRepository.queueOf.
  assert (qbase c t +:+ rest = pQueue +:+ (c +:+ String "/" t) +:+ String "/" rest) as ->.
  { unfold qbase. by rewrite !app_assoc_s, !app_cons_s, !app_assoc_s, !app_cons_s, !app_empty_s. }
  rewrite slice_mid; [|done|].
  - unfold mbnd, mret. by rewrite split_two.
  - unfold slen. rewrite length_app_s. cbn [String.length]. lia.
Qed.

(** What recovery does with a pending key. *)
Lemma recover_pending c t p s id :
  okq (KPending c t p s id) ->
  TaskRepository.recoverQueueKey (P := P) (enc (KPending c t p s id)) =
  (let! sent := send (queueKey c (unseg t) p) (mkHint s id) in
   if sent then mret tt else mthrow (ErrText "channel full during recovery")).
Proof.
  intros Hok. pose proof (marker_pending _ _ _ _ _ Hok) as Hidx.
  destruct Hok as ((Hc & Ht & Hp & Hs) & Hid & _). simpl in Hid.
  unfold TaskRepository.recoverQueueKey. rewrite Hidx.
  set (pre := qbase c t +:+ "pending/"). set (idx := slen pQueue + slen c + 1 + slen t) in *.
  change (slen segPending) with 9. assert (slen pre = idx + 9) as Hpre.
  { unfold pre, idx, qbase, slen. rewrite !length_app_s. cbn [String.length]. rewrite length_app_s.
    cbn [String.length]. lia. }
  assert (forall x, 0 <= slen x) as Hpos by (intros; unfold slen; lia).
  rewrite (proj2 (Z.ltb_ge _ _)) by (pose proof (Hpos c); pose proof (Hpos t); pose proof (Hpos pQueue); lia).
  rewrite ParsePendingKey_enc by auto with codeq. cbn [enc]. rewrite queueOf_base by auto with codeq.
  rewrite mbnd_ret, <- app_assoc_s. fold pre.
  assert (slen (be8 s) = 8) as H8 by reflexivity.
  rewrite (proj2 (Z.ltb_ge _ _)).
  2: { rewrite <- Hpre. unfold slen in *. rewrite length_app_s. cbn [String.length]. rewrite length_app_s.
       cbn [String.length]. lia. }
  rewrite (slice_mid pre (String (byte p) "") (String "/" (be8 s +:+ String "/" id))) by (unfold slen in *; cbn; lia).
  rewrite mbnd_ret. cbn [TaskRepository.first_byte default]. rewrite ch_byte, Z.mod_small by lia.
  assert (pre +:+ String (byte p) (String "/" (be8 s +:+ String "/" id)) =
    (pre +:+ String (byte p) "/") +:+ be8 s +:+ String "/" id) as ->
    by (by rewrite !app_assoc_s, !app_cons_s, !app_empty_s).
  rewrite slice_mid.
  - rewrite mbnd_ret. rewrite <- (app_nil_s (be8 s)), beUint64_be8 by done. reflexivity.
  - unfold slen in *. rewrite length_app_s. cbn [String.length]. lia.
  - unfold slen in *. rewrite length_app_s. cbn [String.length]. lia.
Qed.

(** ... and with any other entry: nothing. *)
Lemma recover_other k :
  indexOf k segPending = -1 -> TaskRepository.recoverQueueKey (P := P) k = mret tt.
Proof. intros E. unfold TaskRepository.recoverQueueKey. by rewrite E. Qed.

(** The id lease recovery reads from an in-progress key. *)
Lemma marker_inprog c t id :
  okq (KInprog c t id) -> indexOf (enc (KInprog c t id)) segInprog = slen pQueue + slen c + 1 + slen t.
Proof.
  intros ((Hc & Ht) & Hid & (Hfc & Hft & _)). cbn [enc].
  change segInprog with (String "/" ("inprog" +:+ "/")).
  rewrite index_base by (done || (rewrite !elem_of_cons; tauto)).
  change ("inprog/" +:+ ?x) with (("inprog" +:+ "/") +:+ x). apply index_hit.
Qed.

Lemma marker_delayed c t s id :
  okq (KDelayed c t s id) ->
  indexOf (enc (KDelayed c t s id)) segDelayed = slen pQueue + slen c + 1 + slen t.
Proof.
  intros ((Hc & Ht & _) & _ & ((Hfc & Hft & _) & _)). cbn [enc].
  change segDelayed with (String "/" ("delayed" +:+ "/")).
  rewrite index_base by (done || (rewrite !elem_of_cons; tauto)).
  change ("delayed/" +:+ ?x) with (("delayed" +:+ "/") +:+ x). apply index_hit.
Qed.

Lemma marker_inprog_delayed c t id :
  okq (KInprog c t id) -> indexOf (enc (KInprog c t id)) segDelayed = -1.
Proof.
  intros ((Hc & Ht) & Hid & (Hfc & Hft & _)). cbn [enc].
  apply (no_marker_id c t "inprog" "delayed" id); try done; auto with codeq;
    rewrite !elem_of_cons; tauto.
Qed.

Lemma marker_dlq_delayed c t id :
  okq (KDLQ c t id) -> indexOf (enc (KDLQ c t id)) segDelayed = -1.
Proof.
  intros ((Hc & Ht) & Hid & (Hfc & Hft & _)). cbn [enc].
  apply (no_marker_id c t "dlq" "delayed" id); try done; auto with codeq;
    rewrite !elem_of_cons; tauto.
Qed.

(** The priority byte and the sequence of a pending key hide no marker as
    long as the sequence number leaves its top byte zero. *)
Lemma marker_pending_delayed c t p s id :
  okq (KPending c t p s id) -> score s -> indexOf (enc (KPending c t p s id)) segDelayed = -1.
Proof.
  intros ((Hc & Ht & _) & Hid & (Hfc & Hft & _)) Hs. cbn [enc].
  destruct (be8_low s Hs) as (r & -> & Hr).
  change segDelayed with (String "/" ("delayed" +:+ "/")).
  rewrite index_base by (done || (rewrite !elem_of_cons; tauto)).
  change ("pending/" +:+ ?x) with ("pending" +:+ String "/" x).
  rewrite index_miss by (by apply segment_miss). rewrite index_skip by done.
  assert (forall y i, index_from (String (byte p) (String "/" (String (byte 0) y))) (String "/" ("delayed" +:+ "/")) i =
                      index_from y (String "/" ("delayed" +:+ "/")) (i + 3)) as Hskip.
  { intros y i. cbn [index_from]. change ("delayed" +:+ "/") with "delayed/". cbn [has_prefix].
    change (Ascii.eqb "d" "/") with false. change (Ascii.eqb "/" (byte 0)) with false.
    change (Ascii.eqb "d" (byte 0)) with false. rewrite !andb_false_l, !andb_false_r. f_equal. lia. }
  assert (forall y, has_prefix ("delayed" +:+ "/") (String (byte p) (String "/" y)) = false) as Hp.
  { intros y. change ("delayed" +:+ "/") with "delayed/". cbn [has_prefix].
    change (Ascii.eqb "e" "/") with false. by rewrite andb_false_l, andb_false_r. }
  rewrite app_cons_s, index_miss by (by apply Hp). rewrite Hskip.
  change (String "/" id) with ("/" +:+ id). rewrite <- app_assoc_s.
  change (String "/" ("delayed" +:+ "/")) with ("/delayed" +:+ "/").
  apply no_index; [auto with codeq|]. rewrite length_app_s, Hr. done.
Qed.

Lemma inprog_id c t id :
  okq (KInprog c t id) ->
  drop_s (Z.to_nat (indexOf (enc (KInprog c t id)) segInprog + slen segInprog)) (enc (KInprog c t id)) = id.
Proof.
  intros Hok. rewrite marker_inprog by done. change (slen segInprog) with 8.
  cbn [enc]. rewrite <- app_assoc_s.
  replace (Z.to_nat _) with (String.length (qbase c t +:+ "inprog/")); [apply drop_app_s|].
  unfold qbase, slen. rewrite !length_app_s. cbn [String.length]. rewrite length_app_s. cbn [String.length]. lia.
Qed.
End parsers.
