(* ===== verification/Bulk.v ===== *)
(** Batches over many tasks.  An item is one queue entry with the writes the
    code makes for it: a ghost entry is deleted, the entry of a live task is
    moved.  [bulk_inv]: a batch made of items with distinct entries, each
    computed from the store before the batch, preserves the invariant. *)

From S2P Require Import Prelude GoTime Domain Keys LeaseTable PebbleDB TaskRepo Invariant.

Section bulk.
Context `{JSONLaws} `{Ghost}.
Implicit Types (m : gmap string string) (L : gmap string leaseEntry) (tb : list top).

(** The writes [tb] take task [id] from queue [q0] to queue [oq], in state [t']. *)
Record mover (L : gmap string leaseEntry) (id : string) (q0 : qkey) (oq : option qkey) (t' : Task) tb : Prop := {
  mo_open : open_queue q0;
  mo_typed : typed tb;
  mo_about : Forall (fun o => about id (fst o)) tb;
  mo_body : forall v, tlook tb (KTask id) v = Some (marshal_task t');
  mo_good : good_task id t';
  mo_rest : forall q v, qid q = Some id -> q <> q0 -> oq <> Some q -> tlook tb q v = v;
  mo_from : forall v, tlook tb q0 v = None;
  mo_to : forall q v, oq = Some q -> is_Some (tlook tb q v);
  mo_place : match oq with Some q => okq q /\ place t' q | None => ~ open_status t' end;
  mo_lease : t'.(Status) = StatusInProgress -> is_Some (L !! id)
}.

Lemma mover_inv m L L' id t q0 oq t' tb :
  mover L' id q0 oq t' tb -> StoreInv m L -> live m id t -> entry m id q0 ->
  (forall i, i <> id -> is_Some (L !! i) -> is_Some (L' !! i)) ->
  StoreInv (apply_batch (map op_of tb) m) L'.
Proof. intros [] I Hl He HL. eapply move_inv; eauto. Qed.

Record item := mkItem { i_from : qkey; i_id : string; i_ops : list top }.

Inductive item_ok m L (x : item) : Prop :=
  | item_ghost :
      entry m (i_id x) (i_from x) -> (forall t, ~ live m (i_id x) t) ->
      i_ops x = [(i_from x, None)] -> item_ok m L x
  | item_move t oq t' :
      entry m (i_id x) (i_from x) -> live m (i_id x) t ->
      mover L (i_id x) (i_from x) oq t' (i_ops x) -> item_ok m L x.

Lemma item_entry m L x : item_ok m L x -> entry m (i_id x) (i_from x).
Proof. by destruct 1. Qed.

Lemma lease_mono m L L' :
  StoreInv m L -> (forall i, is_Some (L !! i) -> is_Some (L' !! i)) -> StoreInv m L'.
Proof. intros I HL. eapply ext_inv; eauto. Qed.

Lemma item_typed m L x : item_ok m L x -> typed (i_ops x).
Proof.
  destruct 1 as [(Ho & _) _ ->|t oq t' _ _ Hm]; [|apply Hm].
  unfold typed. rewrite Forall_singleton. exact Ho.
Qed.

Lemma item_step m L x :
  StoreInv m L -> item_ok m L x -> StoreInv (apply_batch (map op_of (i_ops x)) m) L.
Proof.
  intros I [(Ho & Hq & Hs) Hdead ->|t oq t' He Hl Hm].
  - simpl. by eapply ghost_inv.
  - eapply mover_inv; eauto.
Qed.

(** An item leaves every other queue entry where it is. *)
Lemma item_keeps m L x i q :
  StoreInv m L -> item_ok m L x -> entry m i q -> q <> i_from x ->
  entry (apply_batch (map op_of (i_ops x)) m) i q.
Proof.
  intros I Hx (Ho & Hq & Hs) Hne. split; [done|]. split; [done|].
  rewrite lookup_typed by (eauto using typed_wf, item_typed with codeq).
  destruct Hx as [_ _ ->|t oq t' He Hl Hm]; simpl; [by rewrite decide_False by done|].
  destruct (decide (i = i_id x)) as [->|Hi].
  - exfalso. apply Hne. by eapply entry_unique.
  - rewrite (tlook_about (i_id x)); [done | apply Hm | destruct q; simpl in *; congruence..].
Qed.

Lemma item_live m L x y t :
  StoreInv m L -> item_ok m L x -> item_ok m L y -> i_from x <> i_from y ->
  live (apply_batch (map op_of (i_ops x)) m) (i_id y) t <-> live m (i_id y) t.
Proof.
  intros I Hx Hy Hne.
  assert (apply_batch (map op_of (i_ops x)) m !! enc (KTask (i_id y)) = m !! enc (KTask (i_id y)) \/
          exists t, live m (i_id x) t /\ i_id x = i_id y) as [E|(t0 & Hl & Hid)].
  { rewrite lookup_typed by (eauto using typed_wf, item_typed, wf_task).
    destruct Hx as [(_ & Hq & _) _ ->|t0 oq t' He Hl Hm]; simpl.
    - left. rewrite decide_False; [done|]. intros Heq. by rewrite <- Heq in Hq.
    - destruct (decide (i_id x = i_id y)) as [Hid|Hid]; [by eauto|]. left.
      rewrite (tlook_about (i_id x)); [done | apply Hm | done | simpl; congruence]. }
  - unfold live. by rewrite E.
  - exfalso. apply Hne. apply item_entry in Hx, Hy. rewrite Hid in *. by eapply (inv_one _ _ I).
Qed.

Lemma item_stable m L x y :
  StoreInv m L -> item_ok m L x -> item_ok m L y -> i_from x <> i_from y ->
  item_ok (apply_batch (map op_of (i_ops x)) m) L y.
Proof.
  intros I Hx Hy Hne.
  pose proof (item_keeps _ _ _ _ _ I Hx (item_entry _ _ _ Hy) (not_eq_sym Hne)) as He.
  destruct Hy as [He0 Hdead Ho|t oq t' He0 Hl Hm].
  - apply item_ghost; [done | | done]. intros t Ht. apply (Hdead t).
    eapply item_live; eauto. by apply item_ghost.
  - eapply item_move; [done | | done]. eapply item_live; eauto. by eapply item_move.
Qed.

Definition bulk_ops (xs : list item) : batch := concat (map (fun x => map op_of (i_ops x)) xs).

Lemma bulk_inv m L xs :
  StoreInv m L -> Forall (item_ok m L) xs -> NoDup (map i_from xs) ->
  StoreInv (apply_batch (bulk_ops xs) m) L.
Proof.
  revert m. induction xs as [|x xs IH]; intros m I Hok Hnd; [done|].
  apply Forall_cons in Hok as [Hx Hok]. apply NoDup_cons in Hnd as [Hx' Hnd].
  unfold bulk_ops. cbn [map concat]. rewrite apply_batch_app. apply IH; [by apply item_step | | done].
  rewrite Forall_forall in *. intros y Hy. apply item_stable; auto.
  intros E. apply Hx'. rewrite E. by apply list_elem_of_fmap_2.
Qed.

Lemma bulk_keeps m L xs i q :
  StoreInv m L -> Forall (item_ok m L) xs -> NoDup (map i_from xs) ->
  entry m i q -> q ∉ map i_from xs -> entry (apply_batch (bulk_ops xs) m) i q.
Proof.
  revert m. induction xs as [|x xs IH]; intros m I Hok Hnd He Hq; [done|].
  apply Forall_cons in Hok as [Hx Hok]. apply NoDup_cons in Hnd as [Hx' Hnd].
  cbn [map] in Hq. apply not_elem_of_cons in Hq as [Hqx Hq].
  unfold bulk_ops. cbn [map concat]. rewrite apply_batch_app.
  apply IH; [by apply item_step | | done | by apply (item_keeps _ _ _ _ _ I Hx) | done].
  rewrite Forall_forall in *. intros y Hy. apply item_stable; auto.
  intros E. apply Hx'. rewrite E. by apply list_elem_of_fmap_2.
Qed.

(** A mover puts its task in its new queue, and later items leave it there. *)
Lemma mover_arrives m L id q0 q t' tb :
  mover L id q0 (Some q) t' tb -> entry (apply_batch (map op_of tb) m) id q.
Proof.
  intros Hm. destruct (mo_place _ _ _ _ _ _ Hm) as [Hok Hp].
  split; [done|]. split.
  - rewrite (place_qid _ _ Hp). f_equal. apply (mo_good _ _ _ _ _ _ Hm).
  - rewrite lookup_typed by (auto using typed_wf with codeq; apply typed_wf, Hm).
    by apply (mo_to _ _ _ _ _ _ Hm).
Qed.

Lemma bulk_arrives m L xs x t oq t' q :
  StoreInv m L -> Forall (item_ok m L) xs -> NoDup (map i_from xs) -> x ∈ xs ->
  live m (i_id x) t -> mover L (i_id x) (i_from x) oq t' (i_ops x) -> oq = Some q ->
  entry (apply_batch (bulk_ops xs) m) (i_id x) q.
Proof.
  revert m. induction xs as [|y xs IH]; intros m I Hok Hnd Hx Hl Hm Hq; [by apply not_elem_of_nil in Hx|].
  apply Forall_cons in Hok as [Hy Hok]. apply NoDup_cons in Hnd as [Hy' Hnd].
  unfold bulk_ops. cbn [map concat]. rewrite apply_batch_app.
  assert (forall z, z ∈ xs -> i_from y <> i_from z) as Hdiff
    by (intros z Hz E; apply Hy'; rewrite E; by apply list_elem_of_fmap_2).
  rewrite Forall_forall in Hok.
  assert (Forall (item_ok (apply_batch (map op_of (i_ops y)) m) L) xs) as Hok'
    by (apply Forall_forall; intros z Hz; apply item_stable; auto).
  apply elem_of_cons in Hx as [->|Hx].
  - eapply bulk_keeps; eauto using item_step; [eapply mover_arrives; by subst oq|].
    intros (z & Hzq & Hz)%list_elem_of_fmap. apply (Hdiff z Hz).
    pose proof (item_entry _ _ _ (Hok z Hz)) as He. subst oq q.
    assert (i_id z = i_id y) as Hid.
    { destruct (mo_place _ _ _ _ _ _ Hm) as [_ Hp]. apply place_qid in Hp.
      destruct He as (_ & Hz2 & _). rewrite Hp in Hz2.
      injection Hz2 as <-. apply (mo_good _ _ _ _ _ _ Hm). }
    rewrite Hid in He. eapply (inv_one _ _ I); eauto using item_entry.
  - eapply IH; eauto using item_step. eapply item_live; eauto.
Qed.
End bulk.
