(* ===== verification/RepoInv.v ===== *)
(** The invariant of the repository object: the store invariant of its [DB],
    and that every hint in a claim channel names a pending entry that is in
    the store, each entry at most once.  [held] lists the entries whose hint a
    claim has received and not yet settled. *)

From stdpp Require Import pretty.
From S2P Require Import Prelude GoTime Domain Keys LeaseTable PebbleDB TaskRepo Invariant Bulk.

(** The name of a channel from key segments. *)
Definition qname (c t : string) (p : Z) : string := c +:+ nul +:+ t +:+ nul +:+ pretty p.

Lemma queueKey_qname cmd ten p : queueKey cmd ten p = qname (cmdSeg cmd) (tenantSeg ten) p.
Proof. done. Qed.

Lemma qname_inj c t p c' t' p' :
  seg_ok c = true -> seg_ok t = true -> seg_ok c' = true -> seg_ok t' = true ->
  qname c t p = qname c' t' p' -> c = c' /\ t = t' /\ p = p'.
Proof.
  intros Hc Ht Hc' Ht' E. unfold qname, nul in E. rewrite !app_cons_s, !app_empty_s in E.
  apply split_unique in E as [-> E]; auto with codeq.
  apply split_unique in E as [-> E]; auto with codeq.
  apply (inj pretty) in E. done.
Qed.

Definition hintKey (c t : string) (p : Z) (h : pendingHint) : qkey := KPending c t p (h_seq h) (h_id h).

(** ** Times *)

(** Clock readings: the year is far below the range of the integer types. *)
Definition time_ok (t : Z) : Prop := 0 <= t < 2 ^ 55 * second.

Lemma score_ok x : unix x < 2 ^ 56 -> score (unixSeconds x).
Proof.
  unfold unixSeconds, nonNegativeInt64, score. intros Hx. destruct (unix x <? 0) eqn:E.
  - lia.
  - apply Z.ltb_ge in E. lia.
Qed.

Lemma unix_lt x n : x < n * second -> unix x < n.
Proof. unfold unix, second. intros Hx. apply Z.div_lt_upper_bound; lia. Qed.

Lemma score_add now x : time_ok now -> score (unixSeconds (now + seconds x)).
Proof.
  intros Hn. apply score_ok, unix_lt. unfold time_ok, second in *.
  assert (seconds x < 2 ^ 63); [|lia].
  unfold seconds. pose proof (wrap64_range (x * second)) as Hw.
  unfold MinInt64, MaxInt64 in Hw. lia.
Qed.

Lemma score_retention now : time_ok now -> uint64 (unixSeconds (now + taskRetention)).
Proof.
  intros Hn. assert (score (unixSeconds (now + taskRetention))) as Hs.
  { apply score_ok, unix_lt. unfold time_ok, taskRetention, second in *. lia. }
  unfold score, uint64, two64 in *. lia.
Qed.

#[export] Hint Resolve score_add score_retention : codeq.

Lemma normalizePriority_range p : 0 <= normalizePriority p <= 9.
Proof.
  unfold normalizePriority, minPriority, maxPriority.
  destruct (p <? 0) eqn:E1; [lia|]. destruct (9 <? p) eqn:E2; lia.
Qed.

(** ** The invariant *)

Section inv.
Context {P : Type} `{PebbleLaws P} `{JSONLaws} `{Ghost}.
Implicit Types (d : DB P) (r : Repo P).

Definition DBInv d : Prop := StoreInv (stored d) (db_leases d) /\ handle_ok d.

(** A pending entry of the store. *)
Definition pendingEntry m (q : qkey) : Prop :=
  match q with KPending _ _ _ _ id => entry m id q | _ => False end.

Record HintInv m (queues : gmap string (list pendingHint)) (held : list qkey) : Prop := {
  hi_nodup : forall k l, queues !! k = Some l -> NoDup l;
  hi_key : forall k l h, queues !! k = Some l -> h ∈ l ->
    exists c t p, k = qname c t p /\ pendingEntry m (hintKey c t p h) /\ hintKey c t p h ∉ held;
  hi_held : Forall (pendingEntry m) held;
  hi_held_nodup : NoDup held
}.

Definition RInvH (held : list qkey) r : Prop :=
  DBInv (r_db r) /\ HintInv (stored (r_db r)) (r_queues r) held.

Definition RInv r : Prop := RInvH [] r.

Lemma pendingEntry_seg m c t p h :
  pendingEntry m (hintKey c t p h) -> seg_ok c = true /\ seg_ok t = true.
Proof. intros ((Hw & _) & _). simpl in Hw. tauto. Qed.

Lemma HintInv_drop m queues held : HintInv m queues held -> HintInv m queues [].
Proof.
  intros [Hn Hk _ _]. split; [done | | done | constructor].
  intros k l h Hl Hh. destruct (Hk k l h Hl Hh) as (c & t & p & -> & He & _).
  exists c, t, p. split; [done|]. split; [done | apply not_elem_of_nil].
Qed.

Lemma RInvH_drop held r : RInvH held r -> RInv r.
Proof. intros [Hd Hh]. split; [done | by eapply HintInv_drop]. Qed.

(** The store changed, and only held entries went. *)
Lemma HintInv_store m m' queues held :
  HintInv m queues held ->
  (forall q, pendingEntry m q -> q ∉ held -> pendingEntry m' q) ->
  HintInv m' queues [].
Proof.
  intros [Hn Hk _ _] Hm. split; [done | | done | constructor].
  intros k l h Hl Hh. destruct (Hk k l h Hl Hh) as (c & t & p & -> & He & Hq).
  exists c, t, p. split; [done|]. split; [by apply Hm | apply not_elem_of_nil].
Qed.

(** ** Channels *)

Lemma HintInv_push m queues c t p h :
  HintInv m queues [] -> pendingEntry m (hintKey c t p h) ->
  h ∉ default [] (queues !! qname c t p) ->
  HintInv m (<[qname c t p := default [] (queues !! qname c t p) ++ [h]]> queues) [].
Proof.
  intros [Hn Hk _ _] He Hh. split; [| | done | constructor].
  - intros k l. destruct (decide (qname c t p = k)) as [<-|Hne].
    + rewrite lookup_insert_eq. intros [= <-]. apply NoDup_app. split_and!.
      * destruct (queues !! qname c t p) eqn:E; simpl; [by eapply Hn | constructor].
      * intros x Hx ->%list_elem_of_singleton. done.
      * apply NoDup_singleton.
    + rewrite lookup_insert_ne by done. apply Hn.
  - intros k l x. destruct (decide (qname c t p = k)) as [<-|Hne].
    + rewrite lookup_insert_eq. intros [= <-] Hx. apply elem_of_app in Hx as [Hx|Hx].
      * destruct (queues !! qname c t p) eqn:E; simpl in Hx; [|by apply not_elem_of_nil in Hx].
        by eapply Hk.
      * apply list_elem_of_singleton in Hx as ->. exists c, t, p. split; [done|].
        split; [done | apply not_elem_of_nil].
    + rewrite lookup_insert_ne by done. apply Hk.
Qed.

Lemma HintInv_pop m queues held c t p h q :
  HintInv m queues held -> queues !! qname c t p = Some (h :: q) ->
  seg_ok c = true -> seg_ok t = true ->
  HintInv m (<[qname c t p := q]> queues) (hintKey c t p h :: held).
Proof.
  intros [Hn Hk Hf Hnh] Hl Hc Ht.
  pose proof (Hn _ _ Hl) as Hnd. apply NoDup_cons in Hnd as [Hhq Hq].
  assert (pendingEntry m (hintKey c t p h) /\ hintKey c t p h ∉ held) as [He Hheld].
  { destruct (Hk _ _ h Hl) as (c' & t' & p' & Hname & He & Hx); [constructor|].
    destruct (pendingEntry_seg _ _ _ _ _ He) as [Hc' Ht'].
    apply qname_inj in Hname as (-> & -> & ->); done. }
  split.
  - intros k l. destruct (decide (qname c t p = k)) as [<-|Hne].
    + rewrite lookup_insert_eq. by intros [= <-].
    + rewrite lookup_insert_ne by done. apply Hn.
  - intros k l x Hkl Hx.
    assert (exists l', queues !! k = Some l' /\ x ∈ l' /\ (k = qname c t p -> x <> h)) as (l' & Hkl' & Hx' & Hxh).
    { destruct (decide (qname c t p = k)) as [<-|Hne].
      - rewrite lookup_insert_eq in Hkl. injection Hkl as <-. exists (h :: q).
        split; [done|]. split; [by constructor | by intros _ ->].
      - rewrite lookup_insert_ne in Hkl by done. exists l. split; [done|]. split; congruence. }
    destruct (Hk _ _ _ Hkl' Hx') as (c' & t' & p' & -> & Hxe & Hxheld).
    exists c', t', p'. split; [done|]. split; [done|].
    apply not_elem_of_cons. split; [|done]. intros E. unfold hintKey in E.
    injection E as -> -> -> E1 E2. apply Hxh; [done|]. destruct x, h. simpl in *. congruence.
  - by constructor.
  - by constructor.
Qed.

(** ** Reading the state *)

Lemma set_db_id r : set_db (r_db r) r = r.
Proof. by destruct r. Qed.

Lemma wp_db_Get k Q r :
  (forall v, stored (r_db r) !! k = Some v -> Q (Ok v) r) ->
  (forall e, (is_not_found e = true -> stored (r_db r) !! k = None) -> Q (Err e) r) ->
  wp (db (PebbleDB.Get k)) Q r.
Proof.
  intros HOk HErr. unfold db. wp_step. apply wp_Get; intros; rewrite set_db_id; auto.
Qed.

Lemma wp_db_Get_reads `{!PebbleReads P} k Q r :
  (forall v, stored (r_db r) !! k = Some v -> Q (Ok v) r) ->
  (stored (r_db r) !! k = None -> Q (Err ErrNotFound) r) ->
  wp (db (PebbleDB.Get k)) Q r.
Proof.
  intros HOk HErr. unfold db. wp_step. apply wp_Get_reads; intros; rewrite set_db_id; auto.
Qed.

Lemma wp_db_Iter x Q r :
  (forall ks, ks = range_keys (stored (r_db r)) (fst x) (snd x) -> Q (Ok ks) r) ->
  (forall e, Q (Err e) r) -> wp (db (Iter x)) Q r.
Proof.
  intros HOk HErr. unfold db. wp_step. apply wp_Iter; intros; rewrite set_db_id; auto.
Qed.

Lemma wp_db_Commit b Q r :
  handle_ok (r_db r) ->
  (forall d', committed b (r_db r) d' -> Q (Ok tt) (set_db d' r)) -> (forall e, plain e -> Q (Err e) r) ->
  wp (db (CommitBatch b)) Q r.
Proof.
  intros Hr HOk HErr. unfold db. wp_step. apply wp_CommitBatch; [done | done |].
  intros. rewrite set_db_id. auto.
Qed.

Lemma wp_db_Delete k Q r :
  handle_ok (r_db r) ->
  (forall d', committed [OpDelete k] (r_db r) d' -> Q (Ok tt) (set_db d' r)) -> (forall e, plain e -> Q (Err e) r) ->
  wp (db (PebbleDB.Delete k)) Q r.
Proof.
  intros Hr HOk HErr. unfold db. wp_step. apply wp_write_through; [done | done |].
  intros. rewrite set_db_id. auto.
Qed.

Lemma wp_db_NextSeq (Q : res Z -> Repo P -> Prop) r :
  (forall n, uint64 n -> Q (Ok n) (set_db (set_seq n (r_db r)) r)) -> wp (db NextSeq) Q r.
Proof. intros HQ. unfold db. wp_step. apply wp_NextSeq. auto. Qed.

Lemma wp_send k h (Q : res bool -> Repo P -> Prop) r :
  (forall b, Q (Ok b) (if b then set_queues (<[k := channel r k ++ [h]]> (r_queues r)) r else r)) ->
  wp (send k h) Q r.
Proof.
  intros HQ. unfold wp, send. destruct (_ <? _); simpl; [apply (HQ true) | apply (HQ false)].
Qed.

Lemma wp_recv k (Q : res (option pendingHint) -> Repo P -> Prop) r :
  (channel r k = [] -> Q (Ok None) r) ->
  (forall h q, r_queues r !! k = Some (h :: q) -> Q (Ok (Some h)) (set_queues (<[k := q]> (r_queues r)) r)) ->
  wp (recv k) Q r.
Proof.
  intros HN HS. unfold wp, recv, channel in *. destruct (r_queues r !! k) as [[|h q]|] eqn:E; simpl in *; auto.
Qed.

Lemma wp_wrap {A} msg (m : M (Repo P) A) Q r :
  wp m (fun x r' => match x with Ok a => Q (Ok a) r' | Err e => Q (Err (ErrWrap msg e)) r' end) r ->
  wp (wrap_err msg m) Q r.
Proof. unfold wp, wrap_err. by destruct (m r) as [[a|e] r']. Qed.

Lemma wp_wrap_db {A} msg (m : M (DB P) A) Q d :
  wp m (fun x d' => match x with Ok a => Q (Ok a) d' | Err e => Q (Err (ErrWrap msg e)) d' end) d ->
  wp (wrap_err msg m) Q d.
Proof. unfold wp, wrap_err. by destruct (m d) as [[a|e] d']. Qed.

Lemma wp_ignore {A} (m : M (Repo P) A) Q r :
  wp m (fun _ r' => Q (Ok tt) r') r -> wp (ignore m) Q r.
Proof. intros Hm. unfold ignore. wp_step. wp_step. eapply wp_mono; [exact Hm|]. auto. Qed.

Lemma wp_leases f (Q : res unit -> Repo P -> Prop) r :
  Q (Ok tt) (set_db (set_leases (f (db_leases (r_db r))) (r_db r)) r) -> wp (leases_mod f) Q r.
Proof. done. Qed.

Lemma wp_delayedAdd cmd ten n (Q : res unit -> Repo P -> Prop) r :
  Q (Ok tt) (set_delayed (<[countKey cmd ten := delayedCounter cmd ten r + n]> (r_delayed r)) r) ->
  wp (delayedAdd cmd ten n) Q r.
Proof. done. Qed.

(** A stored body decodes to the good task it is. *)
Lemma wp_TaskGet held id Q r :
  RInvH held r ->
  (forall t, live (stored (r_db r)) id t -> good_task id t -> Q (Ok t) r) ->
  (forall e, Q (Err e) r) ->
  wp (TaskRepository.Get id) Q r.
Proof.
  intros [[I _] _] HOk HErr. unfold TaskRepository.Get. wp_step. wp_step.
  apply wp_db_Get.
  - intros v Hv. destruct (inv_body _ _ I id v Hv) as (t & Hu & Hg).
    unfold TaskRepository.decode. rewrite Hu. wp_step. apply HOk; [by exists v | done].
  - intros e _. destruct (is_not_found e); wp_step; auto.
Qed.
End inv.

(** One statement of a repository method. *)
Ltac rstep := first [ apply wp_leases | apply wp_delayedAdd | wp_step ].
