(* ===== verification/Lifecycle.v ===== *)
(** Every operation of the task repository preserves [RInv]. *)

From S2P Require Import Prelude GoTime Domain Keys LeaseTable PebbleDB Backoff TaskRepo Invariant Bulk RepoInv.

(** ** Tactics for the batches of one task *)

Ltac solve_forall := repeat (apply Forall_cons; split); [..|apply Forall_nil; done].

(** Side conditions of [mover] and [create_inv] on a concrete batch. *)
Ltac solve_tlook :=
  intros; simplify_eq; simpl in *; repeat case_decide; simplify_eq; try done; eauto; try congruence.

Section lifecycle.
Context {P : Type} `{PebbleReads P} `{JSONLaws} `{Ghost}.
Implicit Types (d : DB P) (r : Repo P).

(** The invariant of a handle beside given channels. *)
Definition DInv (queues : gmap string (list pendingHint)) d : Prop :=
  DBInv d /\ HintInv (stored d) queues [].

Lemma RInv_DInv r : RInv r <-> DInv (r_queues r) (r_db r).
Proof. done. Qed.

Lemma keeps_db {A} (m : M (DB P) A) : (forall queues, keeps (DInv queues) m) -> keeps RInv (db m).
Proof.
  intros Hm. apply keeps_wp. intros r I. unfold db. wp_step.
  apply (wp_mono m (fun _ d' => DInv (r_queues r) d')); [by apply Hm | by intros _ d']. 
Qed.

(** The state after a commit and an update of the lease table. *)
Lemma DInv_committed queues held b d d' L' :
  DBInv d -> HintInv (stored d) queues held -> committed b d d' ->
  StoreInv (apply_batch b (stored d)) L' ->
  (forall q, pendingEntry (stored d) q -> q ∉ held -> pendingEntry (apply_batch b (stored d)) q) ->
  DInv queues (set_leases L' d').
Proof.
  intros [I Hr] Hh [Hs Hq Hrep Hl] I' Hp. split; [split|].
  - by rewrite stored_leases, Hs.
  - unfold handle_ok in *. simpl. by rewrite Hrep.
  - rewrite stored_leases, Hs. by eapply HintInv_store.
Qed.

Lemma set_leases_id d : set_leases (db_leases d) d = d.
Proof. by destruct d. Qed.

(** Pending entries other than the ones of [id] survive a batch about [id]. *)
Lemma pending_survives m tb id q :
  typed tb -> Forall (fun o => about id (fst o)) tb ->
  pendingEntry m q -> qid q <> Some id -> pendingEntry (apply_batch (map op_of tb) m) q.
Proof.
  intros Ht Ha He Hq. destruct q; try done. simpl in *. apply (entry_other m id); congruence.
Qed.

Lemma pending_untouched m tb q :
  typed tb -> Forall (fun o => qid (fst o) = None) tb ->
  pendingEntry m q -> pendingEntry (apply_batch (map op_of tb) m) q.
Proof.
  intros Ht Ha He. destruct q; try done. destruct He as (Ho & Hq & Hs).
  split; [done|]. split; [done|]. rewrite lookup_typed by (auto using typed_wf with codeq).
  rewrite tlook_notin; [done|]. intros o Hin E. rewrite Forall_forall in Ha.
  specialize (Ha o Hin). by rewrite E in Ha.
Qed.

(** A mover from a place that is not pending keeps all pending entries. *)
Lemma pending_mover m L L' id t q0 oq t' tb q :
  StoreInv m L -> live m id t -> entry m id q0 -> mover L' id q0 oq t' tb ->
  pendingEntry m q -> q <> q0 -> pendingEntry (apply_batch (map op_of tb) m) q.
Proof.
  intros I Hl He Hm Hp Hne. eapply pending_survives; [apply Hm | apply Hm | done|].
  intros Hq. apply Hne. destruct q; try done. simpl in Hq. injection Hq as ->.
  by eapply (inv_one _ _ I).
Qed.

Lemma dead_body m id : m !! enc (KTask id) = None -> forall t, ~ live m id t.
Proof. intros E t (v & Hv & _). congruence. Qed.

(** ** The entry of a task in progress *)

Lemma inprog_entry m L id t :
  StoreInv m L -> live m id t -> t.(Status) = StatusInProgress ->
  entry m id (KInprog (cmdSeg t.(Command)) (tenantSeg t.(TenantID)) id).
Proof.
  intros I Hl Hs. pose proof (live_good _ _ _ _ I Hl) as G.
  destruct (inv_some _ _ I id t Hl (or_intror Hs)) as [q He].
  pose proof (inv_place _ _ I _ _ _ Hl He) as Hp.
  destruct q; simpl in Hp; try done; destruct_and?; try status_contra. subst.
  by rewrite (gt_id _ _ G) in He.
Qed.

(** ** Publishing a hint *)

Lemma publish_inv cmd ten p s id r :
  RInv r -> pendingEntry (stored (r_db r)) (KPending (cmdSeg cmd) (tenantSeg ten) p s id) ->
  mkHint s id ∉ channel r (queueKey cmd ten p) ->
  wp (publishPending cmd ten p s id) (fun _ r' => RInv r') r.
Proof.
  intros [Hd Hh] He Hn. unfold publishPending. wp_step. apply wp_send. intros [|]; wp_step; [|by split].
  split; [exact Hd|]. simpl. rewrite queueKey_qname in *. by apply HintInv_push.
Qed.

(** No hint names an entry that is not in the store. *)
Lemma hint_absent cmd ten p s id r :
  RInv r -> seg_ok cmd = true -> seg_ok ten = true ->
  ~ pendingEntry (stored (r_db r)) (KPending (cmdSeg cmd) (tenantSeg ten) p s id) ->
  mkHint s id ∉ channel r (queueKey cmd ten p).
Proof.
  intros [_ Hh] Hc Ht Hne Hin. unfold channel in Hin.
  destruct (r_queues r !! queueKey cmd ten p) as [l|] eqn:E; simpl in Hin; [|by apply not_elem_of_nil in Hin].
  destruct (hi_key _ _ _ Hh _ _ _ E Hin) as (c' & t' & p' & Hk & He & _).
  destruct (pendingEntry_seg _ _ _ _ _ He) as [Hc' Ht'].
  rewrite queueKey_qname in Hk.
  apply qname_inj in Hk as (<- & <- & <-);
    [done | by rewrite seg_ok_cmd | by apply seg_ok_tenant | done | done].
Qed.

(** ** The moves of the code *)

(** [t'] is [t] in another state. *)
Definition restated (t t' : Task) (status : string) : Prop :=
  t'.(ID) = t.(ID) /\ t'.(Command) = t.(Command) /\ t'.(TenantID) = t.(TenantID) /\
  t'.(Priority) = t.(Priority) /\ t'.(Status) = status.

Lemma restated_good id t t' st :
  restated t t' st -> st ∈ statuses -> (st = StatusInProgress -> recoverable t') ->
  good_task id t -> good_task id t'.
Proof. intros (Hi & Hc & Ht & Hp & Hs) Hst Hl []. split; try congruence. rewrite Hs. exact Hl. Qed.

Ltac in_statuses := unfold statuses; rewrite ?elem_of_cons; tauto.

Lemma to_pending L id t t' q0 s :
  good_task id t -> restated t t' StatusPending -> okq q0 -> qid q0 = Some id -> open_queue q0 ->
  (forall c t p s i, q0 <> KPending c t p s i) -> uint64 s ->
  mover L id q0
    (Some (KPending (cmdSeg t.(Command)) (tenantSeg t.(TenantID)) (normalizePriority t.(Priority)) s id)) t'
    [(q0, None);
     (KPending (cmdSeg t.(Command)) (tenantSeg t.(TenantID)) (normalizePriority t.(Priority)) s id, Some "");
     (KTask id, Some (marshal_task t'))].
Proof.
  intros G Hr Hok Hq Hoq Hq0 Hu. assert (good_task id t') as G' by (eapply restated_good; eauto; [in_statuses | intros; status_contra]).
  destruct Hr as (Hi & Hc & Ht & Hp & Hs), G as [Gid Gidok Gc Gt _ _].
  pose proof (normalizePriority_range t.(Priority)) as Hr.
  split; try solve [solve_tlook].
  - unfold typed. solve_forall; [done | by apply okq_pending | by apply okq_task].
  - solve_forall; [|done..]. simpl. destruct q0; simpl in *; congruence.
  - split; [by apply okq_pending|]. simpl. rewrite Hi, Hc, Ht, Hp, Hs. done.
  - rewrite Hs. intros. status_contra.
Qed.

Lemma to_delayed L id t t' s :
  good_task id t -> restated t t' StatusPending -> score s ->
  mover L id (KInprog (cmdSeg t.(Command)) (tenantSeg t.(TenantID)) id)
    (Some (KDelayed (cmdSeg t.(Command)) (tenantSeg t.(TenantID)) s id)) t'
    [(KInprog (cmdSeg t.(Command)) (tenantSeg t.(TenantID)) id, None);
     (KDelayed (cmdSeg t.(Command)) (tenantSeg t.(TenantID)) s id, Some "");
     (KTask id, Some (marshal_task t'))].
Proof.
  intros G Hr Hu. assert (good_task id t') as G' by (eapply restated_good; eauto; [in_statuses | intros; status_contra]).
  destruct Hr as (Hi & Hc & Ht & Hp & Hs), G as [Gid Gidok Gc Gt _ _].
  split; try solve [solve_tlook].
  - unfold typed. solve_forall; [by apply okq_inprog | by apply okq_delayed | by apply okq_task].
  - solve_forall; done.
  - split; [by apply okq_delayed|]. simpl. rewrite Hi, Hc, Ht, Hs. done.
  - rewrite Hs. intros. status_contra.
Qed.

Lemma to_dlq L id t t' :
  good_task id t -> restated t t' StatusFailed ->
  mover L id (KInprog (cmdSeg t.(Command)) (tenantSeg t.(TenantID)) id)
    (Some (KDLQ (cmdSeg t.(Command)) (tenantSeg t.(TenantID)) id)) t'
    [(KInprog (cmdSeg t.(Command)) (tenantSeg t.(TenantID)) id, None);
     (KDLQ (cmdSeg t.(Command)) (tenantSeg t.(TenantID)) id, Some "");
     (KTask id, Some (marshal_task t'))].
Proof.
  intros G Hr. assert (good_task id t') as G' by (eapply restated_good; eauto; [in_statuses | intros; status_contra]).
  destruct Hr as (Hi & Hc & Ht & Hp & Hs), G as [Gid Gidok Gc Gt _ _].
  split; try solve [solve_tlook].
  - unfold typed. solve_forall; [by apply okq_inprog | by apply okq_dlq | by apply okq_task].
  - solve_forall; done.
  - split; [by apply okq_dlq|]. simpl. rewrite Hi, Hc, Ht, Hs. done.
  - rewrite Hs. intros. status_contra.
Qed.

(** A claim: out of the pending queue, with the lease set by the caller. *)
Lemma to_inprog L id t t' p s e :
  good_task id t -> restated t t' StatusInProgress -> recoverable t' ->
  0 <= p <= 9 -> uint64 s -> uint64 e -> is_Some (L !! id) ->
  mover L id (KPending (cmdSeg t.(Command)) (tenantSeg t.(TenantID)) p s id)
    (Some (KInprog (cmdSeg t.(Command)) (tenantSeg t.(TenantID)) id)) t'
    [(KPending (cmdSeg t.(Command)) (tenantSeg t.(TenantID)) p s id, None);
     (KInprog (cmdSeg t.(Command)) (tenantSeg t.(TenantID)) id, Some "");
     (KTask id, Some (marshal_task t')); (KTTL e id, Some "")].
Proof.
  intros G Hr Hrec Hpr Hu He HL. assert (good_task id t') as G' by (eapply restated_good; eauto; in_statuses).
  destruct Hr as (Hi & Hc & Ht & Hp & Hs), G as [Gid Gidok Gc Gt _ _].
  split; try solve [solve_tlook].
  - unfold typed. solve_forall; [by apply okq_pending | by apply okq_inprog | by apply okq_task | by apply okq_ttl].
  - solve_forall; done.
  - split; [by apply okq_inprog|]. simpl. rewrite Hi, Hc, Ht, Hs. done.
Qed.

(** Completion: out of the queues. *)
Lemma to_done L id t t' e :
  good_task id t -> (restated t t' StatusCompleted \/ restated t t' StatusFailed) -> uint64 e ->
  mover L id (KInprog (cmdSeg t.(Command)) (tenantSeg t.(TenantID)) id) None t'
    [(KTask id, Some (marshal_task t'));
     (KInprog (cmdSeg t.(Command)) (tenantSeg t.(TenantID)) id, None); (KTTL e id, Some "")].
Proof.
  intros G Hr He.
  assert (good_task id t') as G' by (destruct Hr; eapply restated_good; eauto; first [in_statuses | intros; status_contra]).
  destruct G as [Gid Gidok Gc Gt _ _]. split; try solve [solve_tlook].
  - unfold typed. solve_forall; [by apply okq_task | by apply okq_inprog | by apply okq_ttl].
  - solve_forall; done.
  - unfold open_status. destruct Hr as [(_ & _ & _ & _ & ->)|(_ & _ & _ & _ & ->)];
      intros [?|?]; status_contra.
  - destruct Hr as [(_ & _ & _ & _ & ->)|(_ & _ & _ & _ & ->)]; intros; status_contra.
Qed.

Lemma leaseUntil_ok t :
  four_digit_year t = true -> FormatRFC3339 t <> "" /\ is_Some (ParseRFC3339 (FormatRFC3339 t)).
Proof.
  intros Ht. pose proof (four_digit_parse _ Ht) as Hp. rewrite Hp. split; [|by eexists].
  intros E. by rewrite E in Hp.
Qed.

(** ** Abandon and Nack *)

Lemma set_seq_inv n r : RInv r -> RInv (set_db (set_seq n (r_db r)) r).
Proof. done. Qed.

Lemma set_seq_DInv queues n d : DInv queues d -> DInv queues (set_seq n d).
Proof. done. Qed.

(** A mover, once committed and with its lease dropped, keeps the invariant. *)
Lemma mover_committed queues d d' id t q0 oq t' tb :
  DInv queues d -> live (stored d) id t -> entry (stored d) id q0 ->
  (forall c t p s i, q0 <> KPending c t p s i) ->
  mover (delete id (db_leases d)) id q0 oq t' tb ->
  committed (map op_of tb) d d' ->
  DInv queues (set_leases (delete id (db_leases d')) d').
Proof.
  intros [[I Hr] Hh] Hl He Hq0 Hm Hc. rewrite (co_leases _ _ _ Hc).
  eapply DInv_committed; [by split | done | done | |].
  - eapply mover_inv; eauto. intros i Hi. by rewrite lookup_delete_ne.
  - intros q Hq _. eapply pending_mover; eauto. intros ->. destruct q0; try done. by eapply Hq0.
Qed.

Lemma Abandon_inv now taskID workerID : keeps (S := Repo P) RInv (TaskRepository.Abandon now taskID workerID).
Proof.
  apply keeps_wp. intros r I. unfold TaskRepository.Abandon. wp_step.
  eapply wp_TaskGet; [exact I | | intros; exact I]. intros t Hl G.
  wp_step; [wp_step; exact I|]. wp_step; [wp_step; exact I|].
  match goal with H : bool_decide (Status t <> _) = false |- _ =>
    apply bool_decide_eq_false_1, dec_stable in H as Hst end.
  wp_step. apply wp_db_NextSeq. intros n Hn. apply set_seq_inv with (n := n) in I as I'.
  pose proof (inprog_entry _ _ _ _ (proj1 (proj1 I)) Hl Hst) as He.
  set (r1 := set_db (set_seq n (r_db r)) r) in *.
  pose proof (to_pending (delete taskID (db_leases (r_db r1))) _ _ (TaskRepository.abandoned now t) _ n G
    ltac:(done) (proj1 He) (proj1 (proj2 He)) ltac:(done) ltac:(done) Hn) as Hm.
  wp_step. apply wp_db_Commit; [apply I' | | intros; exact I']. intros d' Hc.
  autorewrite with keys in Hc.
  pose proof (mover_committed _ _ _ _ _ _ _ _ _ I' Hl He ltac:(done) Hm Hc) as I2.
  wp_step. rstep. apply publish_inv; [exact I2 | |].
  - simpl. rewrite stored_leases, (co_stored _ _ _ Hc). exact (mover_arrives _ _ _ _ _ _ _ Hm).
  - eapply (hint_absent _ _ _ _ _ r1); [done | apply (gt_cmd _ _ G) | apply (gt_ten _ _ G)|].
    intros Hp. pose proof (inv_one _ _ (proj1 (proj1 I)) _ _ _ _ Hl He Hp). done.
Qed.

Lemma charge_restated n t : restated t (TaskRepository.charge n t) t.(Status).
Proof.
  unfold TaskRepository.charge, restated.
  destruct (MaxAttempts t <=? 0); destruct (MaxAttempts _ <=? 0); done.
Qed.

Lemma charge_good n id t : good_task id t -> good_task id (TaskRepository.charge n t).
Proof.
  intros G. eapply restated_good; [apply charge_restated | apply G | | done].
  intros Hs. assert (recoverable t) as Hr by by apply G.
  unfold TaskRepository.charge. destruct (MaxAttempts t <=? 0); destruct (MaxAttempts _ <=? 0); exact Hr.
Qed.

Lemma set_delayed_inv c r : RInv r -> RInv (set_delayed c r).
Proof. done. Qed.

(** On an error nothing changed, and a refusal that is not plain means that
    the task is not in progress. *)
Lemma Nack_wp now taskID workerID delay maxA reason r :
  RInv r -> time_ok now ->
  wp (TaskRepository.Nack now taskID workerID delay maxA reason) (fun x r' => RInv r' /\
    match x with
    | Ok _ => True
    | Err e => r' = r /\
        (plain e \/ forall t, live (stored (r_db r)) taskID t -> t.(Status) <> StatusInProgress)
    end) r.
Proof.
  intros I Hnow. unfold TaskRepository.Nack. wp_step.
  unfold TaskRepository.Get. wp_step. wp_step. apply wp_db_Get_reads; rewrite KeyTask_enc.
  2: { intros Hn. wp_step; wp_step; (split; [done|]; split; [done|]; right); intros t Hl;
       by apply dead_body with (t := t) in Hn. }
  intros v Hv. destruct (inv_body _ _ (proj1 (proj1 I)) _ _ Hv) as (t & Hu & G).
  assert (live (stored (r_db r)) taskID t) as Hl by (by exists v).
  unfold TaskRepository.decode. rewrite Hu. wp_step.
  wp_step; [wp_step; split; [done|]; split; [done|]; left; by vm_compute|].
  wp_step.
  { wp_step. split; [done|]. split; [done|]. right. intros t' Hl' Hs.
    rewrite (live_fun _ _ _ _ Hl' Hl) in Hs. by case_bool_decide. }
  match goal with H : bool_decide (Status t <> _) = false |- _ =>
    apply bool_decide_eq_false_1, dec_stable in H as Hst end.
  pose proof (inprog_entry _ _ _ _ (proj1 (proj1 I)) Hl Hst) as He.
  pose proof (charge_good maxA _ _ G) as Gc. destruct (charge_restated maxA t) as (_ & Ec & Et & _).
  set (tc := TaskRepository.charge maxA t) in *. rewrite <- Ec, <- Et in He.
  wp_step; wp_step; (apply wp_db_Commit; [apply I | | intros; by auto]); intros d' Hc;
    autorewrite with keys in Hc; wp_step; rstep.
  - wp_step. split; [|done]. exact (mover_committed _ _ _ _ _ _ _ _ _ I Hl He ltac:(done)
      (to_dlq _ _ _ (TaskRepository.to_dlq now _ tc) Gc ltac:(done)) Hc).
  - wp_step. rstep. wp_step. split; [|done]. exact (mover_committed _ _ _ _ _ _ _ _ _ I Hl He ltac:(done)
      (to_delayed _ _ _ (TaskRepository.to_delayed now tc) _ Gc ltac:(done) (score_add _ _ Hnow)) Hc).
Qed.

Lemma Nack_inv now taskID workerID delay maxA reason :
  time_ok now -> keeps (S := Repo P) RInv (TaskRepository.Nack now taskID workerID delay maxA reason).
Proof.
  intros Hnow. apply keeps_wp. intros r I. eapply wp_mono; [by apply Nack_wp|]. by intros x r' [].
Qed.

(** ** Heartbeat *)

Lemma Heartbeat_inv now taskID workerID ext :
  time_ok now -> four_digit_year (now + seconds ext) = true ->
  keeps (S := Repo P) RInv (TaskRepository.Heartbeat now taskID workerID ext).
Proof.
  intros Hnow Hext. apply keeps_wp. intros r I. unfold TaskRepository.Heartbeat. wp_step.
  eapply wp_TaskGet; [exact I | | intros; exact I]. intros t Hl G.
  wp_step; [wp_step; exact I|]. wp_step.
  apply wp_db_Commit; [apply I | | intros; exact I]. intros d' Hc.
  autorewrite with keys in Hc. rstep. destruct I as [[I Hr] Hh].
  set (t' := set_LastKnownLocation _ _) in Hc. set (e := unixSeconds _) in Hc.
  pose (tb := [(KTask taskID, Some (marshal_task t')); (KTTL e taskID, Some "")]).
  assert (typed tb) as Htb.
  { unfold typed, tb. solve_forall; [apply okq_task | apply okq_ttl; [by apply score_retention | apply G]]. }
  change (committed (map op_of tb) (r_db r) d') in Hc.
  eapply DInv_committed; [by split | done | exact Hc | |].
  - apply (rewrite_inv _ (db_leases (r_db r)) _ taskID t tb t'); try done.
    + unfold tb. solve_forall; done.
    + destruct G as [G1 G2 G3 G4 G5 G6]. split; try done. intros Hs. destruct (G6 Hs) as (Hw & _).
      split; [done|]. by apply leaseUntil_ok.
    + unfold tb. solve_tlook.
    + unfold tb. solve_tlook.
    + intros i Hi. simpl. rewrite (co_leases _ _ _ Hc). by apply leaseTable.Extend_dom.
  - intros q Hq _. apply pending_untouched; [done | unfold tb; solve_forall; done | done].
Qed.

(** ** Enqueue *)

Definition enqueue_ops (id : string) (t : Task) (e : Z) (q1 : qkey) (idem : string) : list top :=
  [(KTask id, Some (marshal_task t)); (KTTL e id, Some "")] ++ [(q1, Some "")] ++
  (if bool_decide (idem = "") then [] else [(KIdempo idem, Some id)]).

Lemma enqueue_ops_ok id t e q1 idem :
  okq q1 -> qid q1 = Some id -> uint64 e -> id_ok id = true ->
  typed (enqueue_ops id t e q1 idem) /\ Forall (fun o => about id (fst o)) (enqueue_ops id t e q1 idem).
Proof.
  intros Hok Hq He Hid. unfold typed, enqueue_ops.
  split; case_bool_decide; simpl; solve_forall;
    first [done | exact (okq_task id) | by apply okq_ttl | by destruct q1; simpl in *; congruence].
Qed.

Lemma enqueue_created m L id t e q1 idem :
  StoreInv m L -> fresh m id -> good_task id t -> t.(Status) = StatusPending ->
  okq q1 -> place t q1 -> uint64 e ->
  StoreInv (apply_batch (map op_of (enqueue_ops id t e q1 idem)) m) L.
Proof.
  intros I Hf G Hs Hok Hp He.
  assert (qid q1 = Some id) as Hq by (rewrite (place_qid _ _ Hp); f_equal; apply G).
  destruct (enqueue_ops_ok id t e q1 idem Hok Hq He (gt_idok _ _ G)) as [Htb Hab].
  eapply (create_inv _ _ _ id _ t q1); try done; unfold enqueue_ops.
  - destruct q1; try done; case_bool_decide; solve_tlook.
  - intros q v Hqi Hne. rewrite tlook_notin; [done|]. intros o Ho <-.
    case_bool_decide; simpl in Ho; rewrite ?elem_of_cons, ?elem_of_nil in Ho;
      destruct_or?; subst; simpl in *; done.
  - intros v. destruct q1; try done; case_bool_decide; solve_tlook.
  - rewrite Hs. intros ?. status_contra.
Qed.

Lemma enqueue_batch id t e q1 idem :
  [OpSet (enc (KTask id)) (marshal_task t); OpSet (enc (KTTL e id)) ""] ++ [OpSet (enc q1) ""] ++
  (if bool_decide (idem = "") then [] else [OpSet (enc (KIdempo idem)) id]) =
  map op_of (enqueue_ops id t e q1 idem).
Proof. unfold enqueue_ops. by case_bool_decide. Qed.

Lemma enqueue_committed queues d d' id t e q1 idem :
  DInv queues d -> fresh (stored d) id -> good_task id t -> t.(Status) = StatusPending ->
  okq q1 -> place t q1 -> uint64 e ->
  committed (map op_of (enqueue_ops id t e q1 idem)) d d' ->
  DInv queues d' /\ entry (stored d') id q1.
Proof.
  intros [[I Hr] Hh] Hf G Hs Hok Hp He Hc.
  assert (qid q1 = Some id) as Hq by (rewrite (place_qid _ _ Hp); f_equal; apply G).
  destruct (enqueue_ops_ok id t e q1 idem Hok Hq He (gt_idok _ _ G)) as [Htb Hab].
  pose proof (enqueue_created _ _ _ _ _ _ idem I Hf G Hs Hok Hp He) as I'. split.
  - rewrite <- (set_leases_id d'). rewrite (co_leases _ _ _ Hc).
    eapply DInv_committed; [by split | done | done | done |].
    intros q Hpq _. eapply pending_survives; [done | done | done|]. intros Hqi.
    destruct Hf as (_ & Hf & _). destruct q; try done. destruct Hpq as (Ho & Hi & Hs').
    rewrite Hf in Hs' by done. by destruct Hs'.
  - split; [done|]. split; [done|]. rewrite (co_stored _ _ _ Hc).
    rewrite lookup_typed by (auto using typed_wf with codeq). unfold enqueue_ops.
    destruct q1; try done; case_bool_decide; solve_tlook.
Qed.

Lemma idempoLookup_wp idem (Q : res (option Task) -> Repo P -> Prop) r :
  RInv r -> (forall x, Q x r) -> wp (TaskRepository.idempoLookup idem) Q r.
Proof.
  intros I HQ. unfold TaskRepository.idempoLookup. wp_step; [wp_step; apply HQ|].
  wp_step. wp_step. apply wp_db_Get.
  - intros v _. wp_step. wp_step. eapply wp_TaskGet; [exact I|..]; intros; wp_step; apply HQ.
  - intros e _. wp_step; wp_step; apply HQ.
Qed.

Lemma EnqueueWithID_inv now id cmd payload prio webhook maxA idem visibleAt ten r :
  RInv r -> fresh (stored (r_db r)) id -> id_ok id = true -> name_ok cmdSeg cmd -> name_ok tenantSeg ten ->
  time_ok now -> unix visibleAt < 2 ^ 56 ->
  wp (TaskRepository.EnqueueWithID now id cmd payload prio webhook maxA idem visibleAt ten)
    (fun _ r' => RInv r') r.
Proof.
  intros I Hf Hid Hc Ht Hnow Hvis. unfold TaskRepository.EnqueueWithID. wp_step.
  apply idempoLookup_wp; [done|]. intros [[t|]|e]; [wp_step; exact I | | exact I].
  set (delayed := negb (is_zero visibleAt) && (now <? visibleAt)).
  set (p := normalizePriority prio). pose proof (normalizePriority_range prio) as Hp.
  set (t := TaskRepository.newTask now id cmd payload p webhook maxA ten delayed).
  assert (good_task id t) as G by (split; try done; unfold t; simpl; in_statuses).
  assert (normalizePriority p = p) as Hpp.
  { unfold p, normalizePriority, minPriority, maxPriority in *.
    destruct (prio <? 0) eqn:?, (9 <? prio) eqn:?; simpl; rewrite ?Heqb, ?Heqb0; done. }
  pose proof (score_retention _ Hnow) as Hret.
  wp_step. destruct delayed eqn:Ed.
  - wp_step. wp_step. apply wp_wrap. apply wp_db_Commit; [apply I | | intros; exact I].
    intros d' Hco. autorewrite with keys in Hco. rewrite enqueue_batch in Hco. wp_step. rstep. wp_step.
    refine (proj1 (enqueue_committed _ _ _ _ _ _ _ _ I Hf G _ _ _ Hret Hco)); try done.
    by apply okq_delayed; [..| apply score_ok|].
  - apply wp_db_NextSeq. intros n Hn. set (r1 := set_db (set_seq n (r_db r)) r).
    assert (RInv r1) as I1 by exact I.
    wp_step. apply wp_wrap. apply wp_db_Commit; [apply I | | intros; exact I].
    intros d' Hco. autorewrite with keys in Hco. rewrite enqueue_batch in Hco. wp_step.
    destruct (enqueue_committed _ _ _ _ _ _ _ _ I1 Hf G ltac:(done) (okq_pending cmd ten p n id Hc Ht Hp Hn Hid)
                ltac:(done) Hret Hco) as [I2 He].
    eapply wp_mono; [apply publish_inv; [exact I2 | exact He |] | intros [] ? ?; by try wp_step].
    apply (hint_absent _ _ _ _ _ r1); [done | apply Hc | apply Ht|]. intros (Ho & Hq & Hs).
    rewrite (proj1 (proj2 Hf)) in Hs by done. by destruct Hs.
Qed.

(** ** Claim *)

(** Deleting a queue entry of a dead task; nothing pending goes but [q]. *)
Lemma ghost_committed queues held d d' q id :
  DBInv d -> HintInv (stored d) queues held -> okq q -> qid q = Some id ->
  (forall t, ~ live (stored d) id t) -> (q ∈ held \/ ~ pendingEntry (stored d) q) ->
  committed [OpDelete (enc q)] d d' -> DInv queues d'.
Proof.
  intros [I Hr] Hh Hok Hq Hdead Hheld Hc. rewrite <- (set_leases_id d'), (co_leases _ _ _ Hc).
  eapply DInv_committed; [by split | exact Hh | exact Hc | by eapply ghost_inv|].
  intros q' Hp Hn. simpl. destruct q'; try done. destruct Hp as (Ho & Hq' & Hs).
  split; [done|]. split; [done|]. rewrite lookup_delete_ne; [done|].
  intros E. apply enc_inj in E; [|by apply Hok | by apply Ho]. subst q.
  destruct Hheld as [|Hnp]; [done|]. apply Hnp. by split.
Qed.

Lemma pending_place m L c ten p s id t :
  StoreInv m L -> live m id t -> pendingEntry m (KPending c ten p s id) ->
  t.(Status) = StatusPending /\ c = cmdSeg t.(Command) /\ ten = tenantSeg t.(TenantID) /\
  p = normalizePriority t.(Priority).
Proof. intros I Hl He. pose proof (inv_place _ _ I _ _ _ Hl He) as Hp. simpl in Hp. tauto. Qed.

(** The lease table once the claimed task is in it. *)
Lemma claim_committed queues held d d' id t t' c ten p s e le :
  DBInv d -> HintInv (stored d) queues held -> KPending c ten p s id ∈ held ->
  live (stored d) id t -> restated t t' StatusInProgress -> recoverable t' ->
  pendingEntry (stored d) (KPending c ten p s id) -> uint64 e ->
  committed [OpDelete (enc (KPending c ten p s id)); OpSet (enc (KInprog c ten id)) "";
             OpSet (enc (KTask id)) (marshal_task t'); OpSet (enc (KTTL e id)) ""] d d' ->
  DInv queues (set_leases (<[id := le]> (db_leases d')) d').
Proof.
  intros [I Hr] Hh Hheld Hl Hre Hrec Hp He Hc.
  destruct (pending_place _ _ _ _ _ _ _ _ I Hl Hp) as (Hst & -> & -> & ->).
  pose proof (live_good _ _ _ _ I Hl) as G.
  assert (uint64 s) as Hs by (destruct Hp as ((Hw & _) & _); simpl in Hw; tauto).
  rewrite (co_leases _ _ _ Hc).
  pose proof (to_inprog (<[id := le]> (db_leases d)) id t t' _ s e G Hre Hrec (normalizePriority_range t.(Priority)) Hs He
    ltac:(rewrite lookup_insert_eq; by eexists)) as Hm.
  eapply DInv_committed; [by split | exact Hh | exact Hc | |].
  - eapply (mover_inv _ _ _ _ _ _ _ _ _ Hm); eauto. intros i Hi. by rewrite lookup_insert_ne.
  - intros q Hq Hn. eapply (pending_mover _ _ _ _ _ _ _ _ _ _ I Hl Hp Hm); [done | by intros ->].
Qed.

Lemma completeClaim_inv now workerID cmd ten p lease s id r :
  time_ok now -> workerID <> "" -> four_digit_year (now + seconds lease) = true ->
  RInvH [KPending (cmdSeg cmd) (tenantSeg ten) p s id] r ->
  wp (TaskRepository.completeClaim now workerID cmd ten p lease s id) (fun _ r' => RInv r') r.
Proof.
  intros Hnow Hw Hy I. pose proof (RInvH_drop _ _ I) as I0. destruct I as [[I Hr] Hh].
  set (q := KPending (cmdSeg cmd) (tenantSeg ten) p s id) in *.
  assert (pendingEntry (stored (r_db r)) q) as He.
  { pose proof (hi_held _ _ _ Hh) as Hf. rewrite Forall_singleton in Hf. exact Hf. }
  unfold TaskRepository.completeClaim. wp_step. wp_step. autorewrite with keys. fold q.
  apply wp_db_Get_reads.
  - intros v Hv. destruct (inv_body _ _ I id v Hv) as (t & Hu & G). rewrite Hu.
    assert (live (stored (r_db r)) id t) as Hl by (by exists v).
    pose proof (pending_place _ _ _ _ _ _ _ _ I Hl He) as (Hst & _).
    cbv beta iota. rewrite bool_decide_eq_false_2 by tauto.
    wp_step. apply wp_wrap. apply wp_db_Commit; [done | | intros; exact I0]. intros d' Hc.
    autorewrite with keys in Hc. wp_step. rstep. wp_step.
    eapply (claim_committed _ _ _ _ _ _ _ _ _ _ _ _ _ (conj I Hr) Hh); eauto.
    + apply list_elem_of_here.
    + done.
    + split; [done | by apply leaseUntil_ok].
    + by apply score_retention.
  - intros Hn. cbv beta iota. simpl. wp_step. apply wp_ignore.
    apply wp_db_Delete; [done | | intros; wp_step; exact I0]. intros d' Hc. wp_step.
    eapply (ghost_committed _ _ _ _ q id (conj I Hr) Hh); eauto.
    + apply He.
    + by apply dead_body.
    + left. apply list_elem_of_here.
Qed.

(** Receiving a hint: its entry is held. *)
Lemma recv_inv cmd ten p held r (Q : res (option pendingHint) -> Repo P -> Prop) :
  RInvH held r -> seg_ok cmd = true -> seg_ok ten = true ->
  Q (Ok None) r ->
  (forall h r', RInvH (KPending (cmdSeg cmd) (tenantSeg ten) p (h_seq h) (h_id h) :: held) r' ->
     r_db r' = r_db r -> Q (Ok (Some h)) r') ->
  wp (recv (queueKey cmd ten p)) Q r.
Proof.
  intros [Hd Hh] Hc Ht HN HS. apply wp_recv; [done|]. intros h q Hq. apply HS; [|done].
  split; [exact Hd|]. simpl. rewrite queueKey_qname in *.
  apply (HintInv_pop _ _ _ _ _ _ _ _ Hh Hq); [by rewrite seg_ok_cmd | by apply seg_ok_tenant].
Qed.

Lemma tryPopPriority_inv now workerID cmd p lease ten :
  time_ok now -> workerID <> "" -> four_digit_year (now + seconds lease) = true ->
  seg_ok cmd = true -> seg_ok ten = true ->
  keeps (S := Repo P) RInv (TaskRepository.tryPopPriority now workerID cmd p lease ten).
Proof.
  intros Hnow Hw Hy Hc Ht. apply keeps_wp. intros r I. unfold TaskRepository.tryPopPriority. wp_step.
  eapply recv_inv; [exact I | done | done | wp_step; exact I|]. intros h r' I' _.
  by apply completeClaim_inv.
Qed.

Lemma popFromAnyPriority_inv now workerID cmd lease ten :
  time_ok now -> workerID <> "" -> four_digit_year (now + seconds lease) = true ->
  seg_ok cmd = true -> seg_ok ten = true ->
  keeps (S := Repo P) RInv (TaskRepository.popFromAnyPriority now workerID cmd lease ten).
Proof.
  intros Hnow Hw Hy Hc Ht. unfold TaskRepository.popFromAnyPriority.
  induction priorities as [|p ps IH]; simpl; [apply keeps_ret|].
  apply keeps_bind; [by apply tryPopPriority_inv|]. intros [t|]; [apply keeps_ret | exact IH].
Qed.

Lemma popCommands_inv cmds now workerID lease ten :
  time_ok now -> workerID <> "" -> four_digit_year (now + seconds lease) = true ->
  Forall (fun c => seg_ok c = true) cmds -> seg_ok ten = true ->
  keeps (S := Repo P) RInv (TaskRepository.popCommands cmds now workerID lease ten).
Proof.
  intros Hnow Hw Hy Hc Ht. induction Hc as [|cmd cmds Hcmd _ IH]; simpl; [apply keeps_ret|].
  apply keeps_bind; [by apply popFromAnyPriority_inv|]. intros [t|]; [apply keeps_ret | exact IH].
Qed.
End lifecycle.
