(* ===== verification/Sweeps.v ===== *)
(** The sweeps of the task repository preserve [RInv]: moving due delayed
    tasks, rescuing expired leases, retention clean-up, and the claim paths
    that run them first. *)

From S2P Require Import Prelude GoTime Domain Keys LeaseTable PebbleDB Backoff TaskRepo Invariant Bulk RepoInv Lifecycle.

Lemma prefix_queue_seg cmd ten s k :
  has_prefix (queueBase cmd ten +:+ s) k = true -> has_prefix pQueue k = true.
Proof.
  intros Hk. unfold queueBase in Hk. rewrite !app_assoc_s in Hk. by eapply has_prefix_trans.
Qed.

Section sweeps.
Context {P : Type} `{PebbleReads P} `{JSONLaws} `{Ghost}.
Implicit Types (d : DB P) (r : Repo P).

(** ** Scanned keys are typed *)

Lemma scan_delayed_keys m L cmd ten n k :
  StoreInv m L -> seg_ok cmd = true -> seg_ok ten = true -> 0 <= n < two64 - 1 ->
  k ∈ range_keys m (fst (PrefixDelayedUpTo cmd ten n)) (snd (PrefixDelayedUpTo cmd ten n)) ->
  exists s id, k = enc (KDelayed (cmdSeg cmd) (tenantSeg ten) s id) /\ s <= n /\
    entry m id (KDelayed (cmdSeg cmd) (tenantSeg ten) s id).
Proof.
  intros I Hc Ht Hn Hk. apply elem_of_range_keys in Hk as (Hs & Hr).
  destruct (inv_keys _ _ I k Hs) as (q & Hok & ->).
  { left. destruct Hr as [Hlo Hhi]. unfold PrefixDelayedUpTo in *. simpl in *.
    eapply prefix_queue_seg, prefix_between; [exact Hlo | exact Hhi]. }
  apply (PrefixDelayedUpTo_spec cmd ten n q) in Hr as (s & id & -> & Hsn); [|apply Hok | done..].
  exists s, id. split; [done|]. split; [done|]. by split.
Qed.

Lemma scan_inprog_keys m L cmd ten k :
  StoreInv m L -> seg_ok cmd = true -> seg_ok ten = true ->
  k ∈ range_keys m (fst (PrefixInprog cmd ten)) (snd (PrefixInprog cmd ten)) ->
  exists id, k = enc (KInprog (cmdSeg cmd) (tenantSeg ten) id) /\
    entry m id (KInprog (cmdSeg cmd) (tenantSeg ten) id).
Proof.
  intros I Hc Ht Hk. apply elem_of_range_keys in Hk as (Hs & Hr).
  destruct (inv_keys _ _ I k Hs) as (q & Hok & ->).
  { left. unfold PrefixInprog, segInprog in Hr. cbn [fst snd] in Hr.
    change "/inprog/" with ("/inprog" +:+ "/") in Hr. rewrite <- app_assoc_s in Hr.
    apply scan_prefix in Hr. rewrite app_assoc_s in Hr. by eapply prefix_queue_seg. }
  apply (PrefixInprog_spec cmd ten q) in Hr as (id & ->); [|apply Hok | done..].
  exists id. split; [done|]. by split.
Qed.

(** The entries a sweep collects, from the scanned keys. *)
Definition parsed (ks : list string) : list (string * string) :=
  omap (fun k => match ParseDelayedKey k with Some id => Some (k, id) | None => None end) ks.

Lemma parsed_spec ks e : e ∈ parsed ks -> fst e ∈ ks /\ ParseDelayedKey (fst e) = Some (snd e).
Proof.
  unfold parsed. intros (k & Hk & E)%list_elem_of_omap.
  destruct (ParseDelayedKey k) as [id|] eqn:Ep; [|done]. by injection E as <-.
Qed.

Lemma parsed_NoDup ks : NoDup ks -> NoDup (map fst (parsed ks)).
Proof.
  induction 1 as [|k ks Hk Hn IH]; [constructor|]. unfold parsed in *. simpl.
  destruct (ParseDelayedKey k) as [id|]; [|exact IH]. simpl. constructor; [|exact IH].
  intros (e & -> & He)%list_elem_of_fmap. apply Hk. apply (parsed_spec ks e) in He. apply He.
Qed.

Lemma take_NoDup {A B} (f : A -> B) n (l : list A) : NoDup (map f l) -> NoDup (map f (take n l)).
Proof.
  intros Hn. rewrite <- (take_drop n l) in Hn. rewrite map_app in Hn.
  by apply NoDup_app in Hn as [Hn _].
Qed.

(** ** Moving due delayed tasks *)

Abbreviation pub := (string * Z * Z * string)%type.
Definition pub_id (x : pub) : string := let '(_, _, _, id) := x in id.
Definition pub_key (cmd : string) (x : pub) : qkey :=
  let '(ten, prio, seq, id) := x in KPending (cmdSeg cmd) (tenantSeg ten) prio seq id.

(** The accumulator of the sweep after the entries [pre]. *)
Record moved_acc (now : Z) (cmd : string) m L (pre : list (string * string)) (acc : batch * list pub)
  (xs : list item) : Prop := {
  ma_items : Forall2 (fun e x => fst e = enc (i_from x) /\ snd e = i_id x /\ item_ok m L x) pre xs;
  ma_batch : fst acc = bulk_ops xs;
  ma_ids : NoDup (map pub_id (snd acc));
  ma_pubs : forall x, x ∈ snd acc -> exists e it t, e ∈ pre /\ it ∈ xs /\ fst e = enc (i_from it) /\
    i_id it = pub_id x /\ entry m (i_id it) (i_from it) /\ live m (pub_id x) t /\
    seg_ok (let '(ten, _, _, _) := x in ten) = true /\
    mover L (pub_id x) (i_from it) (Some (pub_key cmd x)) (TaskRepository.abandoned now t) (i_ops it)
}.

Lemma moved_acc_ghost now cmd m L pre acc xs e x :
  moved_acc now cmd m L pre acc xs -> fst e = enc (i_from x) -> snd e = i_id x -> item_ok m L x ->
  i_ops x = [(i_from x, None)] ->
  moved_acc now cmd m L (pre ++ [e]) (fst acc ++ [OpDelete (fst e)], snd acc) (xs ++ [x]).
Proof.
  intros [Hi Hb Hn Hp] He1 He2 Hx Hops. split; simpl; try done.
  - apply Forall2_app; [done|]. by constructor.
  - rewrite Hb. unfold bulk_ops. rewrite map_app, concat_app. simpl. by rewrite Hops, He1.
  - intros y Hy. destruct (Hp y Hy) as (e' & it & t & He' & Hit & Hrest).
    exists e', it, t. rewrite !elem_of_app. tauto.
Qed.

Lemma moved_acc_move now cmd m L pre acc xs e x t p :
  StoreInv m L -> NoDup (map fst (pre ++ [e])) ->
  moved_acc now cmd m L pre acc xs -> fst e = enc (i_from x) -> snd e = i_id x -> item_ok m L x ->
  live m (i_id x) t -> pub_id p = i_id x -> seg_ok (let '(ten, _, _, _) := p in ten) = true ->
  mover L (i_id x) (i_from x) (Some (pub_key cmd p)) (TaskRepository.abandoned now t) (i_ops x) ->
  moved_acc now cmd m L (pre ++ [e]) (fst acc ++ map op_of (i_ops x), snd acc ++ [p]) (xs ++ [x]).
Proof.
  intros I Hnd [Hi Hb Hn Hp] He1 He2 Hx Hl Hpid Hseg Hm. split; simpl.
  - apply Forall2_app; [done|]. by constructor.
  - rewrite Hb. unfold bulk_ops. rewrite map_app, concat_app. simpl. by rewrite app_nil_r.
  - rewrite map_app. apply NoDup_app. split; [done|]. split; [|apply NoDup_singleton].
    intros i (y & -> & Hy)%list_elem_of_fmap Hin. apply list_elem_of_singleton in Hin.
    destruct (Hp y Hy) as (e' & it & t' & He' & Hit & Hey & Hity & Hent & _).
    assert (i_from it = i_from x) as Hfrom.
    { rewrite Hity, Hin, Hpid in Hent. by eapply (inv_one _ _ I); eauto using item_entry. }
    rewrite map_app in Hnd. apply NoDup_app in Hnd as (_ & Hnd & _).
    apply (Hnd (fst e)); [|by constructor]. rewrite He1, <- Hfrom, <- Hey. by apply list_elem_of_fmap_2.
  - intros y [Hy|Hy]%elem_of_app.
    + destruct (Hp y Hy) as (e' & it & t' & He' & Hit & Hrest).
      exists e', it, t'. rewrite !elem_of_app. tauto.
    + apply list_elem_of_singleton in Hy as ->. exists e, x, t. rewrite Hpid.
      split_and!; try done; [apply elem_of_app; right; by constructor.. | by eapply item_entry].
Qed.

Lemma moveEntry_wp now cmd ten m pre e acc xs s id r :
  stored (r_db r) = m -> RInv r ->
  seg_ok cmd = true -> e = (enc (KDelayed (cmdSeg cmd) (tenantSeg ten) s id), id) ->
  entry m id (KDelayed (cmdSeg cmd) (tenantSeg ten) s id) ->
  NoDup (map fst (pre ++ [e])) ->
  moved_acc now cmd m (db_leases (r_db r)) pre acc xs ->
  wp (TaskRepository.moveEntry now cmd acc e) (fun y r' =>
    match y with
    | Ok acc' => exists xs' n, r' = set_db (set_seq n (r_db r)) r /\
        moved_acc now cmd m (db_leases (r_db r)) (pre ++ [e]) acc' xs'
    | Err _ => False
    end) r.
Proof.
  intros Hm [[I Hr] Hh] Hc -> He Hnd Ha. destruct acc as [b pubs].
  set (q := KDelayed (cmdSeg cmd) (tenantSeg ten) s id) in *.
  assert (set_db (set_seq (db_seq (r_db r)) (r_db r)) r = r) as Hid by (by destruct r as [[]]).
  unfold TaskRepository.moveEntry. wp_step. wp_step. rewrite KeyTask_enc. apply wp_db_Get_reads; rewrite Hm in *.
  - intros v Hv. destruct (inv_body _ _ I id v Hv) as (t & Hu & G). rewrite Hu.
    assert (live m id t) as Hl by (by exists v).
    pose proof (inv_place _ _ I _ _ _ Hl He) as (Hst & Hcc & Htt & _).
    wp_step. apply wp_db_NextSeq. intros n Hn. wp_step.
    set (p := normalizePriority (Priority t)).
    pose proof (to_pending (db_leases (r_db r)) id t (TaskRepository.abandoned now t) q n G ltac:(done)
      (proj1 He) ltac:(done) ltac:(done) ltac:(done) Hn) as Hmo.
    rewrite <- Hcc in Hmo. fold p in Hmo.
    match type of Hmo with mover _ _ _ _ _ ?tb => pose (x := mkItem q id tb) end.
    exists (xs ++ [x]), n. split; [done|]. autorewrite with keys.
    refine (moved_acc_move now cmd m (db_leases (r_db r)) pre (b, pubs) xs _ x t
              (TenantID t, p, n, id) I Hnd Ha _ _ _ Hl _ _ Hmo); try done.
    + by eapply item_move.
    + apply (gt_ten _ _ G).
  - intros Hv. cbv beta iota. wp_step. exists (xs ++ [mkItem q id [(q, None)]]), (db_seq (r_db r)).
    split; [by rewrite Hid|].
    refine (moved_acc_ghost now cmd m (db_leases (r_db r)) pre (b, pubs) xs _ (mkItem q id [(q, None)]) Ha _ _ _ _);
      try done.
    apply item_ghost; [done | by apply dead_body | done].
Qed.

Lemma publish_wp cmd ten p s id r :
  RInv r -> pendingEntry (stored (r_db r)) (KPending (cmdSeg cmd) (tenantSeg ten) p s id) ->
  mkHint s id ∉ channel r (queueKey cmd ten p) ->
  wp (publishPending cmd ten p s id) (fun x r' => x = Ok tt /\ RInv r' /\ r_db r' = r_db r /\
    forall k h, h ∈ channel r' k -> h ∈ channel r k \/ h = mkHint s id) r.
Proof.
  intros I He Hn. pose proof (publish_inv _ _ _ _ _ _ I He Hn) as Hp. revert Hp.
  unfold wp, publishPending, mbnd, send. destruct (_ <? _); simpl; intros Hp; (split; [done|]);
    (split; [exact Hp|]); (split; [done|]); intros k h Hk; [|by left].
  unfold channel in *. simpl in Hk. destruct (decide (queueKey cmd ten p = k)) as [<-|Hne].
  - rewrite lookup_insert_eq in Hk. simpl in Hk. apply elem_of_app in Hk as [|Hk]; [by left|].
    right. by apply list_elem_of_singleton in Hk.
  - left. by rewrite lookup_insert_ne in Hk.
Qed.

Lemma publish_all cmd (pubs : list pub) r :
  RInv r -> NoDup (map pub_id pubs) ->
  (forall ten p s id, (ten, p, s, id) ∈ pubs ->
     pendingEntry (stored (r_db r)) (KPending (cmdSeg cmd) (tenantSeg ten) p s id) /\
     mkHint s id ∉ channel r (queueKey cmd ten p)) ->
  wp (mfor pubs (fun '(ten, prio, seq, id) => publishPending cmd ten prio seq id))
    (fun x r' => x = Ok tt /\ RInv r') r.
Proof.
  revert r. induction pubs as [|[[[ten p] s] id] pubs IH]; intros r I Hnd Hp; simpl; [by wp_step|].
  cbn [map pub_id] in Hnd. apply NoDup_cons in Hnd as [Hid Hnd].
  destruct (Hp ten p s id) as [He Hn]; [constructor|]. wp_step.
  eapply wp_mono; [by apply publish_wp|]. intros x r' (-> & I' & Hdb & Hch). apply IH; [done | done|].
  intros ten' p' s' id' Hin. destruct (Hp ten' p' s' id') as [He' Hn']; [by constructor|].
  rewrite Hdb. split; [done|]. intros Hc. apply Hch in Hc as [|Hc]; [done|].
  injection Hc as -> ->. apply Hid. exact (list_elem_of_fmap_2 pub_id _ _ Hin).
Qed.

Lemma wp_defer {A} k (x : M (Repo P) A) (Q : res A -> Repo P -> Prop) r :
  wp x (fun y r' => Q y (set_flags (r_flags r' ∖ {[k]}) r')) r -> wp (TaskRepository.deferClear k x) Q r.
Proof. unfold wp, TaskRepository.deferClear. by destruct (x r). Qed.

Lemma wp_casFlag k (Q : res bool -> Repo P -> Prop) r :
  Q (Ok false) r -> Q (Ok true) (set_flags ({[k]} ∪ r_flags r) r) -> wp (TaskRepository.casFlag k) Q r.
Proof. intros Hf Ht. unfold wp, TaskRepository.casFlag. by case_bool_decide. Qed.

Lemma time_score now : time_ok now -> 0 <= unixSeconds now < two64 - 1.
Proof.
  intros [Hlo Hhi]. unfold unixSeconds, nonNegativeInt64. apply unix_lt in Hhi.
  destruct (unix now <? 0) eqn:E; unfold two64; lia.
Qed.

(** The sweep's batch leaves the queues consistent; its hints are new. *)
Lemma moved_committed now cmd ten es acc xs d' r :
  RInv r -> seg_ok cmd = true -> moved_acc now cmd (stored (r_db r)) (db_leases (r_db r)) es acc xs ->
  (forall x, x ∈ xs -> exists s, i_from x = KDelayed (cmdSeg cmd) (tenantSeg ten) s (i_id x)) ->
  NoDup (map fst es) -> committed (fst acc) (r_db r) d' ->
  DInv (r_queues r) d' /\
  forall ten' p s id, (ten', p, s, id) ∈ snd acc ->
    pendingEntry (stored d') (KPending (cmdSeg cmd) (tenantSeg ten') p s id) /\
    mkHint s id ∉ channel r (queueKey cmd ten' p).
Proof.
  intros I Hcmd [Hi Hb Hn Hp] Hdel Hnd Hc. rewrite Hb in Hc. pose proof I as [[IS Hr] Hh].
  assert (Forall (item_ok (stored (r_db r)) (db_leases (r_db r))) xs) as Hok.
  { eapply Forall2_Forall_r; [exact Hi|]. apply Forall_forall. intros e _ x (_ & _ & Hx). exact Hx. }
  assert (NoDup (map i_from xs)) as Hfrom.
  { apply (NoDup_fmap_1 enc). assert (enc <$> map i_from xs = map fst es) as ->; [|done].
    clear -Hi. induction Hi as [|e x es xs (He & _ & _) _ IH]; [done|]. cbn. by rewrite He, <- IH. }
  split.
  - rewrite <- (set_leases_id d'), (co_leases _ _ _ Hc).
    eapply DInv_committed; [by split | done | exact Hc | by apply bulk_inv|].
    intros q Hq _. destruct q; try done. eapply bulk_keeps; eauto.
    intros (x & Hx & Hin)%list_elem_of_fmap. destruct (Hdel x Hin) as [s' Hs']. congruence.
  - intros ten' p s id Hin. destruct (Hp _ Hin) as (e & it & t & _ & Hit & _ & Hid & He & Hl & Hseg & Hm).
    simpl in *. split.
    + rewrite (co_stored _ _ _ Hc). rewrite <- Hid in Hl, Hm.
      pose proof (bulk_arrives _ _ _ it _ _ _ _ IS Hok Hfrom Hit Hl Hm eq_refl) as Ha.
      by rewrite Hid in Ha.
    + apply hint_absent; [done | done | done|]. intros Hpe.
      rewrite Hid in He. pose proof (inv_one _ _ IS _ _ _ _ Hl He Hpe) as E.
      destruct (Hdel it Hit) as [s' Hs']. congruence.
Qed.

(** What a sweep collects from the delayed queue of [(cmd, ten)]. *)
Definition dueEntries (cmd ten : string) m (es : list (string * string)) : Prop :=
  NoDup (map fst es) /\
  forall e, e ∈ es -> exists s, fst e = enc (KDelayed (cmdSeg cmd) (tenantSeg ten) s (snd e)) /\
    entry m (snd e) (KDelayed (cmdSeg cmd) (tenantSeg ten) s (snd e)).

Lemma due_entries m L cmd ten n limit ks :
  StoreInv m L -> seg_ok cmd = true -> seg_ok ten = true -> 0 <= n < two64 - 1 ->
  ks = range_keys m (fst (PrefixDelayedUpTo cmd ten n)) (snd (PrefixDelayedUpTo cmd ten n)) ->
  dueEntries cmd ten m (take limit (parsed ks)).
Proof.
  intros I Hc Ht Hn ->. split; [apply take_NoDup, parsed_NoDup, NoDup_range_keys|].
  intros [k i] He. apply elem_of_take in He as (j & Hj & _). apply list_elem_of_lookup_2 in Hj.
  apply parsed_spec in Hj as [Hk Hp]. simpl in *.
  apply (scan_delayed_keys _ _ _ _ _ _ I Hc Ht Hn) in Hk as (s & id & -> & _ & Hent).
  assert (id_ok id = true) as Hid by apply Hent.
  rewrite ParseDelayedKey_enc in Hp by auto with codeq. injection Hp as <-. eauto.
Qed.

Lemma due_from cmd ten now m L es acc xs x :
  dueEntries cmd ten m es -> moved_acc now cmd m L es acc xs -> x ∈ xs ->
  exists s, i_from x = KDelayed (cmdSeg cmd) (tenantSeg ten) s (i_id x).
Proof.
  intros [_ Hd] [Hi _ _ _] Hin. apply list_elem_of_lookup in Hin as [j Hj].
  destruct (Forall2_lookup_r _ _ _ _ _ Hi Hj) as (e & He & Ek & Ei & Hx).
  apply list_elem_of_lookup_2 in He. destruct (Hd e He) as (s & Hs & Hent).
  exists s. rewrite <- Ei. apply item_entry in Hx.
  apply enc_inj; [apply Hx | apply Hent | congruence].
Qed.

Lemma moveFold_wp now cmd ten es r :
  RInv r -> seg_ok cmd = true -> dueEntries cmd ten (stored (r_db r)) es ->
  wp (mfold es ([], []) (TaskRepository.moveEntry now cmd)) (fun y r' =>
    exists n, r' = set_db (set_seq n (r_db r)) r /\
      match y with
      | Ok acc => exists xs, moved_acc now cmd (stored (r_db r)) (db_leases (r_db r)) es acc xs
      | Err _ => False
      end) r.
Proof.
  intros I Hc [Hnd Hd].
  eapply (wp_fold_prefix (fun pre acc r' => exists n xs, r' = set_db (set_seq n (r_db r)) r /\
    moved_acc now cmd (stored (r_db r)) (db_leases (r_db r)) pre acc xs)).
  - exists (db_seq (r_db r)), []. split; [by destruct r as [[]]|].
    split; simpl; try constructor. intros x Hx. by apply not_elem_of_nil in Hx.
  - intros pre e post acc r' El (n & xs & -> & Ha).
    destruct (Hd e) as (s & Hs & He); [rewrite El; apply elem_of_app; right; constructor|].
    destruct e as [k i]. simpl in Hs, He.
    eapply wp_mono; [eapply (moveEntry_wp now cmd ten (stored (r_db r)) pre (k, i) acc xs s i)|]; try done.
    + by rewrite Hs.
    + rewrite El in Hnd. rewrite cons_middle, app_assoc, map_app in Hnd. by apply NoDup_app in Hnd as [Hnd _].
    + intros [acc'|e'] r'' Hy; [|done]. destruct Hy as (xs' & n' & -> & Ha'). exists n', xs'. split; [done|exact Ha'].
  - intros acc r' (n & xs & -> & Ha). exists n. split; [done|]. by exists xs.
Qed.

Lemma moveDueDelayed_inv now cmd limit ten :
  time_ok now -> seg_ok cmd = true -> seg_ok ten = true ->
  keeps (S := Repo P) RInv (TaskRepository.moveDueDelayedForTenant now cmd limit ten).
Proof.
  intros Hnow Hc Ht. apply keeps_wp. intros r I. unfold TaskRepository.moveDueDelayedForTenant.
  wp_step. wp_step. wp_step; [wp_step; exact I|]. wp_step.
  apply wp_casFlag; cbn [negb]; [wp_step; exact I|].
  set (r1 := set_flags _ r). assert (RInv r1) as I1 by exact I. clearbody r1. clear I.
  apply wp_defer. wp_step. apply wp_db_Iter; [|intros; exact I1]. intros ks Hks.
  set (es := take _ _). assert (dueEntries cmd ten (stored (r_db r1)) es) as Hdue.
  { eapply due_entries; [apply I1 | done | done | by apply time_score | exact Hks]. }
  clearbody es. destruct es as [|e0 es']; [wp_step; exact I1|]. set (es := e0 :: es') in *.
  wp_step. eapply wp_mono; [by apply (moveFold_wp now cmd ten es)|].
  intros y r' (n & -> & Hy). destruct y as [[b pubs]|]; [|done]. destruct Hy as [xs Ha].
  set (r2 := set_db _ r1). assert (RInv r2) as I2 by exact I1.
  wp_step. apply wp_db_Commit; [apply I1 | | intros; exact I2]. intros d' Hco.
  destruct (moved_committed now cmd ten es (b, pubs) xs d' r2 I2 Hc Ha
    ltac:(intros; by eapply due_from) (proj1 Hdue) Hco) as [I3 Hpubs].
  wp_step. rstep. wp_step. eapply wp_mono; [apply publish_all; [exact I3 | apply Ha | exact Hpubs]|].
  intros x r'' (-> & I4). wp_step. exact I4.
Qed.

(** ** Rescuing expired leases *)

(** Dropping an in-progress entry that is stale or not there. *)
Lemma drop_inprog c ten id r :
  RInv r -> okq (KInprog c ten id) ->
  (forall t, live (stored (r_db r)) id t -> t.(Status) <> StatusInProgress) ->
  wp (ignore (db (PebbleDB.Delete (enc (KInprog c ten id))))) (fun x r' => x = Ok tt /\ RInv r') r.
Proof.
  intros I Hok Hst. pose proof I as [[IS Hr] Hh]. apply wp_ignore.
  apply wp_db_Delete; [done | | intros; by split]. intros d' Hc. split; [done|].
  change (DInv (r_queues r) d').
  destruct (stored (r_db r) !! enc (KInprog c ten id)) as [v|] eqn:E.
  - eapply (ghost_committed _ _ _ _ _ id (conj IS Hr) Hh Hok eq_refl); [|by right; intros [] | exact Hc].
    intros t Hl. assert (entry (stored (r_db r)) id (KInprog c ten id)) as He.
    { split; [done|]. split; [done | by eexists]. }
    pose proof (inv_place _ _ IS _ _ _ Hl He) as Hp. simpl in Hp. apply (Hst t Hl). tauto.
  - rewrite <- (set_leases_id d'), (co_leases _ _ _ Hc).
    eapply DInv_committed; [by split | done | exact Hc |..]; simpl; rewrite (delete_id _ _ E); [exact IS | by auto].
Qed.

Lemma requeueOne_inv cvt seed now cmd maxA moved c ten id :
  time_ok now -> okq (KInprog c ten id) ->
  keeps (S := Repo P) RInv
    (TaskRepository.requeueOne cvt seed now cmd maxA moved (enc (KInprog c ten id), id)).
Proof.
  intros Hnow Hok. apply keeps_wp. intros r I. unfold TaskRepository.requeueOne. wp_step. wp_step.
  assert (forall r' (n : Z), RInv r' ->
    (forall t, live (stored (r_db r')) id t -> t.(Status) <> StatusInProgress) ->
    wp (ignore (db (PebbleDB.Delete (enc (KInprog c ten id)))) ;;! mret n) (fun _ r'' => RInv r'') r') as Hdrop.
  { intros r' n I' Hst. wp_step. eapply wp_mono; [by apply drop_inprog|].
    intros x r'' [-> I'']. by wp_step. }
  unfold leaseTable.Get. wp_step.
  2: { apply Hdrop; [done|]. intros t Hl Hs.
       destruct (inv_lease _ _ (proj1 (proj1 I)) _ _ Hl Hs) as [e He]. congruence. }
  wp_step; [wp_step; exact I|]. wp_step. wp_step. rewrite KeyTask_enc. apply wp_db_Get_reads.
  2: { intros Hn. apply Hdrop; [done|]. intros t Hl. by apply dead_body with (t := t) in Hn. }
  intros v Hv. destruct (inv_body _ _ (proj1 (proj1 I)) _ _ Hv) as (t & Hu & G). rewrite Hu.
  wp_step; [|wp_step; exact I]. wp_step. wp_step. eapply wp_mono; [by apply Nack_wp|].
  intros [x|e] r' [I' Hx]; [wp_step; exact I'|]. destruct Hx as [-> Hplain]. wp_step; [|wp_step; exact I'].
  apply Hdrop; [done|]. destruct Hplain as [[Hp1 Hp2]|Hst]; [|exact Hst].
  match goal with H : _ || _ = true |- _ => rewrite Hp1, Hp2 in H; done end.
Qed.

Lemma requeueExpired_inv cvt seed now cmd limit maxA ten :
  time_ok now -> seg_ok cmd = true -> seg_ok ten = true ->
  keeps (S := Repo P) RInv (TaskRepository.requeueExpired cvt seed now cmd limit maxA ten).
Proof.
  intros Hnow Hc Ht. apply keeps_wp. intros r I. unfold TaskRepository.requeueExpired. wp_step.
  apply wp_db_Iter; [|intros; exact I]. intros ks Hks.
  apply (wp_fold (fun _ r => RInv r)); [exact I | | done].
  intros n [k i] r' He I'. apply elem_of_take in He as (j & Hj & _). apply list_elem_of_lookup_2 in Hj.
  apply (parsed_spec ks) in Hj as [Hk Hp]. cbn [fst snd] in Hk, Hp. rewrite Hks in Hk.
  apply (scan_inprog_keys _ _ _ _ _ (proj1 (proj1 I)) Hc Ht) in Hk as (id & -> & Hent).
  assert (id_ok id = true) as Hid by apply Hent.
  unfold ParseDelayedKey in Hp. rewrite after_last_slash_inprog in Hp by auto with codeq.
  assert (i = id) as ->.
  { destruct id; [by apply id_ok_ne in Hid|]. by injection Hp as <-. }
  apply (wp_mono _ (fun _ r => RInv r)); [|by intros [] ? ?].
  exact (requeueOne_inv _ _ _ _ _ _ _ _ _ Hnow (proj1 Hent) _ I').
Qed.

(** ** Claim *)

Lemma reconcilePrelude_inv cvt seed now cmds limit maxA ten :
  time_ok now -> Forall (fun c => seg_ok c = true) cmds -> seg_ok ten = true ->
  keeps (S := Repo P) RInv (TaskRepository.reconcilePrelude cvt seed now cmds limit maxA ten).
Proof.
  intros Hnow Hc Ht. rewrite Forall_forall in Hc. apply keeps_for. intros cmd Hin.
  apply keeps_bind; [by apply moveDueDelayed_inv; auto|]. intros _. apply keeps_bind.
  - intros r I. unfold shouldRun. destruct (r_interval r <=? 0); [exact I|]. by destruct (_ <? _).
  - intros []; [|apply keeps_ret]. apply keeps_bind; [by apply requeueExpired_inv; auto|].
    intros _. apply keeps_ret.
Qed.

Lemma Claim_inv cvt seed now workerID cmds lease limit maxA ten :
  time_ok now -> workerID <> "" -> four_digit_year (now + seconds lease) = true ->
  Forall (fun c => seg_ok c = true) cmds -> seg_ok ten = true ->
  keeps (S := Repo P) RInv (TaskRepository.Claim cvt seed now workerID cmds lease limit maxA ten).
Proof.
  intros Hnow Hw Hy Hc Ht. apply keeps_bind; [by apply reconcilePrelude_inv|].
  intros _. by apply popCommands_inv.
Qed.

(** ** Retention *)

Lemma forget_all m L (es : list (string * string)) :
  StoreInv m L -> (forall e, e ∈ es -> has_prefix pTTL (fst e) = true) ->
  StoreInv (apply_batch (concat (map (fun '(k, id) => [OpDelete (KeyTask id); OpDelete k]) es)) m)
    (fold_left (fun l e => delete (snd e) l) es L).
Proof.
  revert m L. induction es as [|[k id] es IH]; intros m L I Hp; [done|]. cbn [map concat fold_left].
  rewrite apply_batch_app. apply IH; [|intros e He; apply Hp; by constructor].
  apply (forget_inv m L id k I). apply (Hp (k, id)). constructor.
Qed.

(** A retention batch keeps every queue entry. *)
Lemma forget_pending m (es : list (string * string)) q :
  (forall e, e ∈ es -> has_prefix pTTL (fst e) = true) -> pendingEntry m q ->
  pendingEntry (apply_batch (concat (map (fun '(k, id) => [OpDelete (KeyTask id); OpDelete k]) es)) m) q.
Proof.
  revert m. induction es as [|[k id] es IH]; intros m Hp He; [done|]. cbn [map concat].
  rewrite apply_batch_app. apply IH; [intros e He'; apply Hp; by constructor|].
  destruct q as [| | | |c t p s i| | |]; try done. destruct He as (Ho & Hq & Hs).
  split; [done|]. split; [done|]. unfold apply_batch. cbn [fold_left apply_op].
  assert (has_prefix pTTL k = true) as Hk by (apply (Hp (k, id)); constructor).
  rewrite !lookup_delete_ne; [done | |].
  - intros E. rewrite KeyTask_enc in E. apply enc_inj in E; [done | done | apply Ho].
  - intros ->. pose proof (family_prefix_inj FTTL FQueue _ Hk (enc_family (KPending c t p s i))). done.
Qed.

Lemma forget_committed queues d d' es :
  DInv queues d -> (forall e, e ∈ es -> has_prefix pTTL (fst e) = true) ->
  committed (concat (map (fun '(k, id) => [OpDelete (KeyTask id); OpDelete k]) es)) d d' ->
  DInv queues (set_leases (fold_left (fun l e => delete (snd e) l) es (db_leases d')) d').
Proof.
  intros [[I Hr] Hh] Hp Hc. rewrite (co_leases _ _ _ Hc).
  eapply DInv_committed; [by split | done | exact Hc | by apply forget_all|].
  intros q Hq _. by apply forget_pending.
Qed.
End sweeps.
