(* ===== verification/BatchOps.v ===== *)
(** The remaining writers preserve the invariant: the batch claim, the two
    retention sweeps, the reaper and the result repository. *)

From S2P Require Import Prelude GoTime Domain Keys LeaseTable PebbleDB Backoff TaskRepo ResultRepo Reaper Invariant Bulk RepoInv Lifecycle Sweeps.

Section batch_ops.
Context {P : Type} `{PebbleReads P} `{JSONLaws} `{Ghost}.
Implicit Types (d : DB P) (r : Repo P).

(** ** Lease updates in a loop *)

Lemma mfor_leases {A} (f : A -> gmap string leaseEntry -> gmap string leaseEntry) l r :
  mfor l (fun x => leases_mod (f x)) r =
  (Ok tt, set_db (set_leases (fold_left (fun m x => f x m) l (db_leases (r_db r))) (r_db r)) r).
Proof.
  revert r. induction l as [|x l IH]; intros r; simpl.
  - by rewrite set_leases_id, set_db_id.
  - unfold mbnd, leases_mod, mmod. rewrite IH. done.
Qed.

Lemma mfor_dbLeases {A} (f : A -> gmap string leaseEntry -> gmap string leaseEntry) l d :
  mfor l (fun x => ResultRepository.dbLeases (f x)) d =
  (Ok tt, set_leases (fold_left (fun m x => f x m) l (db_leases d)) d).
Proof.
  revert d. induction l as [|x l IH]; intros d; simpl.
  - by rewrite set_leases_id.
  - unfold mbnd, ResultRepository.dbLeases, mmod. by rewrite IH.
Qed.

Lemma wp_dbLeases f (Q : res unit -> DB P -> Prop) d :
  Q (Ok tt) (set_leases (f (db_leases d)) d) -> wp (ResultRepository.dbLeases f) Q d.
Proof. done. Qed.

(** ** Retention *)

Lemma ttl_prefix n k : sle pTTL k -> slt k (pTTL +:+ be8 n) -> has_prefix pTTL k = true.
Proof. apply prefix_between. Qed.

Lemma ttlUpper_prefix before k : in_range (TaskRepository.ttlUpper before) k -> has_prefix pTTL k = true.
Proof.
  unfold TaskRepository.ttlUpper, in_range.
  destruct (snd PrefixTTL) as [u|] eqn:E; cbn [fst snd below]; [|intros [Hlo Hhi]; by eapply ttl_prefix].
  destruct (sltb u (pTTL +:+ be8 (wrapu64 (unixSeconds before + 1)))) eqn:Eu;
    intros [Hlo Hhi]; [|by eapply ttl_prefix].
  apply (prefixUpper_spec _ u); [exact E | by split].
Qed.

Lemma CleanupExpired_inv limit before :
  keeps (S := Repo P) RInv (TaskRepository.CleanupExpired limit before).
Proof.
  apply keeps_wp. intros r I. unfold TaskRepository.CleanupExpired. wp_step.
  apply wp_db_Iter; [|intros; exact I]. intros ks Hks. set (es := take _ _).
  assert (forall e, e ∈ es -> has_prefix pTTL (fst e) = true) as Hp.
  { intros [k i] He. apply elem_of_take in He as (j & Hj & _). apply list_elem_of_lookup_2 in Hj.
    apply list_elem_of_omap in Hj as (k' & Hk & E).
    destruct (after_last_slash k'); [|done]. injection E as <- <-. cbn [fst].
    rewrite Hks in Hk. apply elem_of_range_keys in Hk as [_ Hk]. by eapply ttlUpper_prefix. }
  clearbody es. destruct es as [|e0 es']; [wp_step; exact I|]. set (es := e0 :: es') in *.
  wp_step. apply wp_db_Commit; [apply I | | intros; exact I]. intros d' Hc. wp_step.
  unfold wp at 1. rewrite (mfor_leases (fun e => leaseTable.Delete (snd e))).
  cbn [fst snd]. wp_step. exact (forget_committed _ _ _ _ I Hp Hc).
Qed.

(** The reaper's sweep is the same batch with another bound. *)
Lemma sweepTTL_inv opts now queues : keeps (DInv (P := P) queues) (Reaper.sweepTTL opts now).
Proof.
  apply keeps_wp. intros d I. unfold Reaper.sweepTTL. wp_step.
  apply wp_Iter; [|intros; exact I]. intros ks Hks. set (es := take _ _).
  assert (forall e, e ∈ es -> has_prefix pTTL (fst e) = true) as Hp.
  { intros [k i] He. apply elem_of_take in He as (j & Hj & _). apply list_elem_of_lookup_2 in Hj.
    apply (parsed_spec ks) in Hj as [Hk _]. cbn [fst] in *. rewrite Hks in Hk.
    apply elem_of_range_keys in Hk as [_ [Hlo Hhi]]. eapply ttl_prefix; [exact Hlo | exact Hhi]. }
  clearbody es. destruct es as [|e0 es']; [wp_step; exact I|]. set (es := e0 :: es') in *.
  wp_step. apply wp_CommitBatch; [apply I | | intros; exact I]. intros d' Hc. wp_step.
  unfold wp at 1. rewrite (mfor_dbLeases (fun e => leaseTable.Delete (snd e))).
  cbn [fst snd]. wp_step. exact (forget_committed _ _ _ _ I Hp Hc).
Qed.

(** ** The reaper's lease sweep *)

Lemma charged_restated opts t : restated t (Reaper.charged opts t) t.(Status).
Proof.
  unfold Reaper.charged, restated. cbn [MaxAttempts set_Attempts].
  destruct (MaxAttempts t <=? 0); destruct (MaxAttempts _ <=? 0); done.
Qed.

Lemma charged_good opts id t : good_task id t -> good_task id (Reaper.charged opts t).
Proof.
  intros G. eapply restated_good; [apply charged_restated | apply G | | done].
  intros Hs. assert (recoverable t) as Hr by by apply G.
  unfold Reaper.charged. cbn [MaxAttempts set_Attempts].
  destruct (MaxAttempts t <=? 0); destruct (MaxAttempts _ <=? 0); exact Hr.
Qed.

Lemma requeueExpiredOne_inv opts now queues id t delay d :
  DInv queues d -> time_ok now -> live (stored d) id t -> t.(Status) = StatusInProgress ->
  wp (Reaper.requeueExpiredOne opts now t delay) (fun _ d' => DInv queues d') d.
Proof.
  intros I Hnow Hl Hst. pose proof (live_good _ _ _ _ (proj1 (proj1 I)) Hl) as G.
  pose proof (inprog_entry _ _ _ _ (proj1 (proj1 I)) Hl Hst) as He.
  pose proof (charged_good opts _ _ G) as Gc.
  destruct (charged_restated opts t) as (_ & Ec & Et & _).
  unfold Reaper.requeueExpiredOne. set (tc := Reaper.charged opts t) in *. rewrite <- Ec, <- Et in He.
  wp_step; wp_step; (apply wp_CommitBatch; [apply I | | intros; exact I]); intros d' Hc;
    cbn [ID Reaper.expired_dlq Reaper.expired_delayed set_UpdatedAt set_TaskError set_LeaseUntil
         set_WorkerID set_LastKnownLocation set_Status Command TenantID] in Hc;
    rewrite (gt_id _ _ Gc) in *; autorewrite with keys in Hc; wp_step; apply wp_dbLeases; wp_step;
    cbn [ID Reaper.expired_dlq Reaper.expired_delayed set_UpdatedAt set_TaskError set_LeaseUntil
         set_WorkerID set_LastKnownLocation set_Status]; rewrite (gt_id _ _ Gc).
  - exact (mover_committed _ _ _ _ _ _ _ _ _ I Hl He ltac:(done)
      (to_dlq _ _ _ (Reaper.expired_dlq now tc) Gc ltac:(done)) Hc).
  - exact (mover_committed _ _ _ _ _ _ _ _ _ I Hl He ltac:(done)
      (to_delayed _ _ _ (Reaper.expired_delayed now tc) _ Gc ltac:(done) (score_add _ _ Hnow)) Hc).
Qed.

(** A lease may go when its task is not in progress. *)
Lemma lease_drop m L id :
  StoreInv m L -> (forall t, live m id t -> t.(Status) <> StatusInProgress) ->
  StoreInv m (delete id L).
Proof.
  intros I Hst. eapply ext_inv; eauto. intros i t Hl Hs HL.
  rewrite lookup_delete_ne; [done|]. intros <-. by apply (Hst t).
Qed.

Lemma lease_drop_DInv queues d id :
  DInv queues d -> (forall t, live (stored d) id t -> t.(Status) <> StatusInProgress) ->
  DInv queues (set_leases (delete id (db_leases d)) d).
Proof. intros [[I Hr] Hh] Hst. split; [split|]; [by apply lease_drop | done | done]. Qed.

Lemma sweepOne_inv cvt seed opts now queues acc id :
  time_ok now -> keeps (DInv (P := P) queues) (Reaper.sweepOne cvt seed opts now acc id).
Proof.
  intros Hnow. apply keeps_wp. intros d I. destruct acc as [moved cbs]. unfold Reaper.sweepOne.
  wp_step. wp_step. wp_step; [wp_step; exact I|].
  assert ((forall t, live (stored d) id t -> t.(Status) <> StatusInProgress) ->
    wp (ResultRepository.dbLeases (leaseTable.Delete id) ;;! mret (moved, cbs))
      (fun _ d' => DInv queues d') d) as Hforget.
  { intros Hst. wp_step. apply wp_dbLeases. wp_step. by apply lease_drop_DInv. }
  wp_step. wp_step. rewrite KeyTask_enc. apply wp_Get_reads.
  2: { intros Hn. apply Hforget. intros t Hl. by apply dead_body with (t := t) in Hn. }
  intros v Hv. destruct (inv_body _ _ (proj1 (proj1 I)) _ _ Hv) as (t & Hu & G). rewrite Hu.
  assert (live (stored d) id t) as Hl by (by exists v). cbv beta iota.
  destruct (bool_decide (Status t <> StatusInProgress)) eqn:Est.
  { apply Hforget. intros t' Hl'. rewrite (live_fun _ _ _ _ Hl' Hl). by apply bool_decide_eq_true in Est. }
  apply bool_decide_eq_false_1, dec_stable in Est.
  wp_step; [|wp_step; exact I]. wp_step. wp_step.
  eapply wp_mono; [by apply (requeueExpiredOne_inv _ _ queues id)|].
  intros [cb|e] d' I'; wp_step; exact I'.
Qed.

Lemma sweepLeases_inv cvt seed opts order now queues :
  time_ok now -> keeps (DInv (P := P) queues) (Reaper.sweepLeases cvt seed opts order now).
Proof.
  intros Hnow. apply keeps_bind; [apply keeps_get|]. intros d. apply keeps_fold.
  intros acc id _. by apply sweepOne_inv.
Qed.

Lemma tick_inv {A} opts queues (sweep : M (DB P) A) :
  keeps (DInv queues) sweep -> keeps (DInv queues) (Reaper.tick opts sweep).
Proof.
  intros Hs. unfold Reaper.tick.
  assert (keeps (DInv queues)
    (let! x := mtry sweep in
     match x with
     | Ok a => mret (Some a)
     | Err (Panic m) => mthrow (Panic m)
     | Err _ => mret None
     end)) as Hk.
  { apply keeps_bind; [by apply keeps_try|]. intros [a|[]]; auto with codeq. }
  destruct (ro_LeaderGate opts) as [[]|]; [exact Hk | apply keeps_ret | exact Hk].
Qed.

(** ** Results *)

Lemma wp_GetTask queues id Q d :
  DInv queues d ->
  (forall t, live (stored d) id t -> good_task id t -> Q (Ok t) d) ->
  (forall e, Q (Err e) d) ->
  wp (ResultRepository.GetTask id) Q d.
Proof.
  intros [[I _] _] HOk HErr. unfold ResultRepository.GetTask. wp_step. wp_step.
  apply wp_Get; rewrite ?KeyTask_enc.
  - intros v Hv. destruct (inv_body _ _ I id v Hv) as (t & Hu & Hg). rewrite Hu. wp_step.
    apply HOk; [by exists v | done].
  - intros e _. destruct (is_not_found e); wp_step; auto.
Qed.

(** Bodies are rewritten at most: every live task stays where it was. *)
Definition settled m m' : Prop :=
  forall id t, live m id t -> exists t', live m' id t' /\ same_place t t'.

Lemma settled_refl m : settled m m.
Proof. intros id t Hl. by exists t. Qed.

Lemma settled_trans m1 m2 m3 : settled m1 m2 -> settled m2 m3 -> settled m1 m3.
Proof.
  intros H12 H23 id t Hl. destruct (H12 id t Hl) as (t' & Hl' & (Hi & Hc & Ht & Hp & Hs)).
  destruct (H23 id t' Hl') as (t'' & Hl'' & (Hi' & Hc' & Ht' & Hp' & Hs')).
  exists t''. split; [done|]. unfold same_place. split_and!; congruence.
Qed.

Lemma SaveResult_wp queues now rec d :
  DInv queues d -> time_ok now ->
  wp (ResultRepository.SaveResult now rec) (fun _ d' => DInv queues d' /\ settled (stored d) (stored d')) d.
Proof.
  intros I Hnow. unfold ResultRepository.SaveResult. set (i := rr_TaskID rec). wp_step.
  eapply wp_GetTask; [exact I | | intros; split; [done | apply settled_refl]]. intros t Hl G.
  set (t' := set_ResultKey "codeq:results" t). set (e := unixSeconds (now + taskRetention)).
  pose (tb := [(KResult i, Some (marshal_result rec)); (KTask i, Some (marshal_task t')); (KTTL e i, Some "")]).
  assert (typed tb) as Htb.
  { unfold typed, tb. solve_forall; [done | apply okq_task | apply okq_ttl; [by apply score_retention | apply G]]. }
  assert (Forall (fun o => about i (fst o)) tb) as Hab by (unfold tb; solve_forall; done).
  apply wp_CommitBatch; [apply I | | intros; split; [exact I | apply settled_refl]]. intros d' Hc.
  autorewrite with keys in Hc. change (committed (map op_of tb) d d') in Hc.
  destruct I as [[I Hr] Hh]. split.
  - rewrite <- (set_leases_id d'), (co_leases _ _ _ Hc).
    eapply DInv_committed; [by split | done | exact Hc | |].
    + apply (rewrite_inv _ (db_leases d) _ i t tb t'); try done; unfold tb; try solve [solve_tlook].
      by destruct G; split.
    + intros q Hq _. apply pending_untouched; [done | unfold tb; solve_forall; done | done].
  - intros id t0 Hl0. rewrite (co_stored _ _ _ Hc). destruct (decide (id = i)) as [->|Hne].
    + rewrite (live_fun _ _ _ _ Hl0 Hl). exists t'. split; [|done]. exists (marshal_task t').
      rewrite lookup_typed by auto using typed_wf, wf_task. split; [unfold tb; solve_tlook | apply task_roundtrip].
    + exists t0. split; [|done]. by apply (live_other (stored d) i).
Qed.

(** Nothing but an in-progress entry stands for [id]. *)
Definition only_inprog m (id : string) (t : Task) : Prop :=
  forall q, entry m id q -> q = KInprog (cmdSeg t.(Command)) (tenantSeg t.(TenantID)) id.

Lemma inprog_only m L id t :
  StoreInv m L -> live m id t -> t.(Status) = StatusInProgress -> only_inprog m id t.
Proof. intros I Hl Hs q Hq. eapply (inv_one _ _ I); eauto. by eapply inprog_entry. Qed.

Definition final_ops (id : string) (t t' : Task) (e : Z) : list top :=
  [(KTask id, Some (marshal_task t'));
   (KInprog (cmdSeg t.(Command)) (tenantSeg t.(TenantID)) id, None); (KTTL e id, Some "")].

Lemma finalized_restated now st msg t : restated t (ResultRepository.finalized now st msg t) st.
Proof. unfold ResultRepository.finalized. case_bool_decide; done. Qed.

Lemma finalize_inv m L id t t' st e :
  StoreInv m L -> live m id t -> only_inprog m id t -> restated t t' st ->
  (st = StatusCompleted \/ st = StatusFailed) -> uint64 e -> (forall st, ~ frozen id st) ->
  let m' := apply_batch (map op_of (final_ops id t t' e)) m in
  StoreInv m' L /\ live m' id t' /\ only_inprog m' id t' /\
  (forall q, pendingEntry m q -> pendingEntry m' q) /\
  (forall i t0, i <> id -> live m' i t0 <-> live m i t0) /\
  (forall i q, i <> id -> entry m' i q <-> entry m i q).
Proof.
  intros I Hl Ho Hr Hst He Hnz m'. pose proof (live_good _ _ _ _ I Hl) as G.
  assert (Hr' : restated t t' StatusCompleted \/ restated t t' StatusFailed)
    by (destruct Hst as [->| ->]; auto).
  pose proof (to_done L id t t' e G Hr' He) as Hm.
  assert (forall q, okq q -> qid q = Some id ->
    is_Some (tlook (final_ops id t t' e) q (m !! enc q)) <-> None = Some q) as Hnone.
  { intros q Hok Hq. split; [|done]. intros Hs. exfalso.
    destruct (decide (q = KInprog (cmdSeg t.(Command)) (tenantSeg t.(TenantID)) id)) as [->|Hne].
    - rewrite (mo_from _ _ _ _ _ _ Hm) in Hs. by destruct Hs.
    - rewrite (mo_rest _ _ _ _ _ _ Hm) in Hs by done. apply Hne, Ho. by split. }
  assert (StoreInv m' L) as I'.
  { eapply (transition_inv m L L id _ (mo_typed _ _ _ _ _ _ Hm) (mo_about _ _ _ _ _ _ Hm) t' None); try done;
      try apply Hm. intros st0 Hz. by apply Hnz in Hz. }
  split; [exact I'|]. split.
  { exists (marshal_task t'). unfold m'. rewrite lookup_typed by (apply typed_wf, Hm || done).
    split; [apply Hm | apply task_roundtrip]. }
  split.
  { intros q (Hok & Hq & Hs). exfalso. unfold m' in Hs.
    rewrite lookup_typed in Hs by (auto using typed_wf with codeq; apply typed_wf, Hm).
    apply Hnone in Hs; done. }
  split; [|split].
  - intros q Hq. eapply pending_survives; [apply Hm | apply Hm | done|].
    intros Hqi. destruct q; try done. simpl in Hqi. injection Hqi as ->. by apply Ho in Hq.
  - intros i t0 Hi. apply (live_other m id); [apply Hm | apply Hm | done].
  - intros i q Hi. apply (entry_other m id); [apply Hm | apply Hm | done].
Qed.
End batch_ops.
