(* ===== verification/ResultInv.v ===== *)
(** Completion of tasks preserves the invariant: the result repository's
    finalisation, single and batched, and the results service over it. *)

From S2P Require Import Prelude GoTime Domain Keys LeaseTable PebbleDB Backoff TaskRepo ResultRepo Reaper Scheduler ResultsService Invariant Bulk RepoInv Lifecycle Sweeps BatchOps.

Definition final_status (st : string) : Prop := st = StatusCompleted \/ st = StatusFailed.

Lemma final_not_open st t t' : restated t t' st -> final_status st -> t'.(Status) <> StatusInProgress.
Proof. intros (_ & _ & _ & _ & ->) [->| ->] ?; status_contra. Qed.

Section result_inv.
Context {P : Type} `{PebbleReads P} `{JSONLaws} `{Ghost}.
Implicit Types (d : DB P) (r : Repo P).

(** [id] may be finalised: it is in progress wherever it is live. *)
Definition in_progress m (id : string) : Prop :=
  forall t, live m id t -> t.(Status) = StatusInProgress.

Lemma UpdateTaskOnComplete_wp queues now id cmd ten st msg d :
  DInv queues d -> time_ok now -> final_status st ->
  (forall t, live (stored d) id t ->
     t.(Status) = StatusInProgress /\ t.(Command) = cmd /\ t.(TenantID) = ten) ->
  wp (ResultRepository.UpdateTaskOnComplete now id cmd ten st msg) (fun x d' => DInv queues d' /\
    match x with
    | Ok _ => exists t t', live (stored d) id t /\ live (stored d') id t' /\ restated t t' st
    | Err _ => stored d' = stored d
    end) d.
Proof.
  intros I Hnow Hst Hpre. unfold ResultRepository.UpdateTaskOnComplete. wp_step.
  eapply wp_GetTask; [exact I | | by auto]. intros t Hl G.
  destruct (Hpre t Hl) as (Hs & <- & <-). wp_step.
  apply wp_CommitBatch; [apply I | | by auto]. intros d' Hc. autorewrite with keys in Hc.
  apply wp_dbLeases. destruct I as [[I Hr] Hh].
  pose proof (finalized_restated now st msg t) as Hre. set (t' := ResultRepository.finalized _ _ _ _) in *.
  destruct (finalize_inv _ _ id t t' st _ I Hl (inprog_only _ _ _ _ I Hl Hs) Hre Hst (score_retention _ Hnow)
    (fun st0 => open_not_frozen _ _ _ _ st0 I Hl (or_intror Hs))) as (I' & Hl' & _ & Hp & _).
  split.
  - rewrite (co_leases _ _ _ Hc). eapply DInv_committed; [by split | done | exact Hc | | by auto].
    apply lease_drop; [exact I'|]. intros t0 Hl0. rewrite (live_fun _ _ _ _ Hl0 Hl').
    by eapply final_not_open.
  - rewrite stored_leases, (co_stored _ _ _ Hc). eauto.
Qed.

(** ** Batched completion *)

Lemma GetTasksBatch_wp queues ids d :
  DInv queues d ->
  wp (ResultRepository.GetTasksBatch ids) (fun x d' => d' = d /\
    match x with
    | Ok tasks => (forall id t, tasks !! id = Some t -> live (stored d) id t) /\
        (forall id t, id ∈ ids -> live (stored d) id t -> tasks !! id = Some t)
    | Err _ => True
    end) d.
Proof.
  intros [[I Hr] Hh]. unfold ResultRepository.GetTasksBatch.
  eapply (wp_fold_prefix (fun pre out d' => d' = d /\
    (forall id t, out !! id = Some t -> live (stored d) id t) /\
    (forall id t, id ∈ pre -> live (stored d) id t -> out !! id = Some t))).
  - split; [done|]. split; [intros id t; by rewrite lookup_empty|].
    intros id t Hid. by apply not_elem_of_nil in Hid.
  - intros pre x post out d' _ (-> & Hs & Hc). wp_step. wp_step. rewrite KeyTask_enc. apply wp_Get_reads.
    + intros v Hv. destruct (inv_body _ _ I _ _ Hv) as (t & Hu & G). rewrite Hu.
      assert (live (stored d) x t) as Hl by (by exists v). wp_step. split; [done|]. split.
      * intros id t0. destruct (decide (x = id)) as [<-|Hne];
          [rewrite lookup_insert_eq; by intros [= <-] | rewrite lookup_insert_ne by done; auto].
      * intros id t0 Hid Hl0. destruct (decide (x = id)) as [<-|Hne].
        -- rewrite lookup_insert_eq. f_equal. by eapply live_fun.
        -- rewrite lookup_insert_ne by done. apply Hc; [|done].
           apply elem_of_app in Hid as [|Hid]; [done|]. by apply list_elem_of_singleton in Hid as ->.
    + intros Hn. wp_step; wp_step; (split; [done|]); [|done]. split; [done|].
      intros id t Hid Hl. apply elem_of_app in Hid as [|Hid]; [by apply Hc|].
      apply list_elem_of_singleton in Hid as ->. by apply dead_body with (t := t) in Hn.
  - intros out d' (-> & Hs & Hc). done.
Qed.

Definition updates_ok (us : list TaskCompleteUpdate) : Prop :=
  forall u, u ∈ us -> final_status (up_Status u).

(** The loop's state: the store the batch would give, and the task pointers. *)
Record update_acc m L (ids : list string) (pre : list TaskCompleteUpdate)
  (acc : batch * gmap string Task) : Prop := {
  ua_inv : StoreInv (apply_batch (fst acc) m) L;
  ua_tasks : forall id, id ∈ ids -> forall t, snd acc !! id = Some t ->
    live (apply_batch (fst acc) m) id t /\ only_inprog (apply_batch (fst acc) m) id t;
  ua_frozen : forall id st, id ∈ ids -> is_Some (snd acc !! id) -> ~ frozen id st;
  ua_pending : forall q, pendingEntry m q -> pendingEntry (apply_batch (fst acc) m) q;
  ua_done : forall u, u ∈ pre -> forall t, live (apply_batch (fst acc) m) (up_ID u) t ->
    t.(Status) <> StatusInProgress
}.

Lemma updateOne_wp now m L ids pre u acc d :
  time_ok now -> final_status (up_Status u) -> up_ID u ∈ ids -> update_acc m L ids pre acc ->
  wp (ResultRepository.updateOne now acc u) (fun y d' => d' = d /\
    match y with Ok acc' => update_acc m L ids (pre ++ [u]) acc' | Err _ => True end) d.
Proof.
  intros Hnow Hst Hin [I Ht Hz Hp Hd]. destruct acc as [b tasks]. unfold ResultRepository.updateOne.
  destruct (tasks !! up_ID u) as [t|] eqn:E; [|by wp_step]. wp_step. split; [done|].
  destruct (Ht _ Hin t E) as [Hl Ho]. autorewrite with keys. cbn [fst snd] in *.
  pose proof (finalized_restated now (up_Status u) (up_ErrorMsg u) t) as Hre.
  set (t' := ResultRepository.finalized _ _ _ _) in *. pose proof Hre as (_ & Ec & Et & _). rewrite Ec, Et.
  destruct (finalize_inv _ _ _ t t' _ _ I Hl Ho Hre Hst (score_retention _ Hnow)
    ltac:(intros st0; apply Hz; [done | by eexists])) as (I' & Hl' & Ho' & Hp' & Hlo & Heo).
  split; cbn [fst snd]; rewrite ?apply_batch_app; try exact I'.
  - intros id Hid t0 Ht0. destruct (decide (up_ID u = id)) as [<-|Hne].
    + rewrite lookup_insert_eq in Ht0. injection Ht0 as <-. done.
    + rewrite lookup_insert_ne in Ht0 by done. destruct (Ht id Hid t0 Ht0) as [Hl0 Ho0].
      split; [by apply Hlo|]. intros q Hq. apply Ho0. by apply Heo.
  - intros id st Hid Hs. apply Hz; [done|]. destruct (decide (up_ID u = id)) as [<-|Hne]; [by eexists|].
    by rewrite lookup_insert_ne in Hs.
  - intros q Hq. by apply Hp', Hp.
  - intros u0 [Hu0|Hu0]%elem_of_app t0 Hl0.
    + destruct (decide (up_ID u0 = up_ID u)) as [Heq|Hne].
      * rewrite Heq in Hl0. rewrite (live_fun _ _ _ _ Hl0 Hl'). by eapply final_not_open.
      * apply (Hd u0 Hu0). by apply Hlo.
    + apply list_elem_of_singleton in Hu0 as ->. rewrite (live_fun _ _ _ _ Hl0 Hl'). by eapply final_not_open.
Qed.

Lemma delete_leases m L (us : list TaskCompleteUpdate) :
  StoreInv m L -> (forall u, u ∈ us -> forall t, live m (up_ID u) t -> t.(Status) <> StatusInProgress) ->
  StoreInv m (fold_left (fun l u => leaseTable.Delete (up_ID u) l) us L).
Proof.
  revert L. induction us as [|u us IH]; intros L I Hu; simpl; [done|].
  apply IH; [|intros; eapply Hu; [by constructor | done]].
  apply lease_drop; [done|]. apply Hu. constructor.
Qed.

Lemma BatchUpdate_inv queues now us d :
  DInv queues d -> time_ok now -> updates_ok us -> (forall u, u ∈ us -> in_progress (stored d) (up_ID u)) ->
  wp (ResultRepository.BatchUpdateTasksOnComplete now us) (fun _ d' => DInv queues d') d.
Proof.
  intros I Hnow Hok Hip. unfold ResultRepository.BatchUpdateTasksOnComplete.
  destruct us as [|u0 us']; [wp_step; exact I|]. set (us := u0 :: us') in *. set (ids := map up_ID us).
  wp_step. apply wp_wrap_db. eapply wp_mono; [by eapply GetTasksBatch_wp|].
  intros [tasks|e] d1 [-> Ht]; [|exact I]. destruct Ht as [Ht _]. wp_step.
  eapply (wp_fold_prefix (fun pre acc d' => d' = d /\
    update_acc (stored d) (db_leases d) ids pre acc)).
  - split; [done|]. split; cbn [fst snd]; [apply I | | | done | intros u Hu; by apply not_elem_of_nil in Hu].
    + intros id Hid t E. apply Ht in E as Hl. split; [exact Hl|].
      eapply inprog_only; [apply I | exact Hl|]. apply list_elem_of_fmap in Hid as (u & -> & Hu). by eapply Hip.
    + intros id st Hid [t E]. apply Ht in E as Hl. eapply open_not_frozen; [apply I | exact Hl|]. right.
      apply list_elem_of_fmap in Hid as (u & -> & Hu). by eapply Hip.
  - intros pre u post acc d' El [-> Ha]. assert (u ∈ us) as Hu by (rewrite El; apply elem_of_app; right; constructor).
    eapply wp_mono; [eapply (updateOne_wp now _ _ ids pre u acc); [done | by apply Hok | | exact Ha]|].
    + by apply list_elem_of_fmap_2.
    + intros [acc'|e] d' [-> Ha']; [done | exact I].
  - intros acc d' [-> [I' _ _ Hp Hd]]. wp_step. apply wp_CommitBatch; [apply I | | intros; exact I].
    intros d' Hc. cbv beta iota. unfold wp at 1.
    rewrite (mfor_dbLeases (fun u => leaseTable.Delete (up_ID u))). cbn [fst snd].
    rewrite (co_leases _ _ _ Hc). eapply DInv_committed; [apply I | apply I | exact Hc | | by auto].
    by apply delete_leases.
Qed.

(** ** The results service *)

Lemma checkStatus_final req : resultsService.checkStatus req = None -> final_status (sr_Status req).
Proof.
  unfold resultsService.checkStatus, final_status. case_bool_decide; [by left|].
  case_bool_decide; [by right | done].
Qed.

Section service.
Variables (UploadBytes : string -> string -> string -> res string)
  (finish : list ArtifactIn -> list ArtifactIn) (callback : bool).

Lemma Submit_inv queues now id req :
  time_ok now -> keeps (DInv (P := P) queues) (resultsService.Submit UploadBytes finish callback now id req).
Proof.
  intros Hnow. apply keeps_wp. intros d I. unfold resultsService.Submit. wp_step. wp_step.
  eapply wp_GetTask; [exact I | | intros; wp_step; exact I]. intros t Hl G.
  wp_step; [wp_step; exact I|]. wp_step; [wp_step; exact I|].
  match goal with H : bool_decide (Status t <> _) = false |- _ =>
    apply bool_decide_eq_false_1, dec_stable in H as Hst end.
  wp_step; [|wp_step; exact I]. wp_step; [wp_step; exact I|].
  match goal with H : resultsService.checkStatus _ = None |- _ => apply checkStatus_final in H as Hfin end.
  wp_step. eapply wp_mono; [by apply (SaveResult_wp queues)|]. intros [u|e] d1 [I1 Hset]; [|exact I1].
  wp_step. eapply wp_mono; [apply (UpdateTaskOnComplete_wp queues); [exact I1 | done | exact Hfin|]|].
  - intros t1 Hl1. destruct (Hset id t Hl) as (t2 & Hl2 & (_ & Hc & Ht & _ & Hs)).
    rewrite (live_fun _ _ _ _ Hl1 Hl2). split_and!; congruence.
  - intros [u'|e] d2 [I2 _]; [wp_step; exact I2 | exact I2].
Qed.

Lemma validItems_tasks now tasks i items x :
  x ∈ resultsService.validItems now tasks i items ->
  exists t, tasks !! rr_TaskID (fst (snd x)) = Some t /\ snd (snd x) = t /\ t.(Status) = StatusInProgress /\
    final_status (rr_Status (fst (snd x))).
Proof.
  revert i. induction items as [|it items IH]; intros i Hx; simpl in Hx; [by apply not_elem_of_nil in Hx|].
  destruct (resultsService.validateItem now tasks it) as [e|v] eqn:E; [by eapply IH|].
  apply elem_of_cons in Hx as [->|Hx]; [|by eapply IH]. simpl.
  unfold resultsService.validateItem in E. destruct (tasks !! it_TaskID it) as [t|] eqn:Et; [|done].
  destruct (resultsService.notOwner t (it_Req it)); [done|].
  case_bool_decide as Hs; [done|].
  destruct (resultsService.checkStatus (it_Req it)) eqn:Ec; [done|].
  injection E as <-. simpl. exists t. by apply checkStatus_final in Ec.
Qed.

Lemma submitEach_inv queues now items :
  time_ok now -> keeps (DInv (P := P) queues) (resultsService.submitEach UploadBytes finish callback now items).
Proof.
  intros Hnow. induction items as [|it items IH]; simpl; [apply keeps_ret|].
  apply keeps_bind; [by apply keeps_try, Submit_inv|]. intros x. apply keeps_bind; [exact IH|].
  intros [rs cbs]. destruct x as [[rec cb]|e]; apply keeps_ret.
Qed.

Lemma saveAll_wp queues now (valid : list (nat * (ResultRecord * Task))) rs d :
  DInv queues d -> time_ok now ->
  wp (mfold valid rs (fun (rs : list BatchSubmitResponse) '(i, (rec, _)) =>
        let! sv := mtry (ResultRepository.SaveResult now rec) in
        match sv with
        | Ok _ => mret rs
        | Err e => mret (<[i := mkResponse (rr_TaskID rec) None (error_text e)]> rs)
        end) : M (DB P) (list BatchSubmitResponse))
    (fun _ d' => DInv queues d' /\ settled (stored d) (stored d')) d.
Proof.
  intros I Hnow. eapply (wp_fold (fun _ d' => DInv queues d' /\ settled (stored d) (stored d'))).
  - split; [exact I | apply settled_refl].
  - intros rs' [i [rec t]] d' _ [I' Hs]. wp_step. wp_step.
    eapply wp_mono; [by apply (SaveResult_wp queues)|]. intros x d'' [I'' Hs'].
    assert (settled (stored d) (stored d'')) by (by eapply settled_trans).
    destruct x; wp_step; done.
  - done.
Qed.

Lemma BatchSubmit_inv queues now items :
  time_ok now -> keeps (DInv (P := P) queues) (resultsService.BatchSubmit UploadBytes finish callback now items).
Proof.
  intros Hnow. apply keeps_wp. intros d I. unfold resultsService.BatchSubmit.
  destruct items as [|it0 items']; [wp_step; exact I|]. set (items := it0 :: items').
  wp_step. wp_step. eapply wp_mono; [by eapply GetTasksBatch_wp|].
  intros [tasks|e] d1 [-> Ht].
  2: { wp_step. apply (wp_mono _ (fun _ d' => DInv queues d')); [by apply submitEach_inv|].
       intros [] d' I'; [wp_step|]; exact I'. }
  destruct Ht as [Ht _]. wp_step.
  eapply wp_mono; [by apply (saveAll_wp queues)|]. intros [rs|e] d1 [I1 Hset]; [|exact I1].
  set (valid := resultsService.validItems now tasks 0 items) in *.
  wp_step. wp_step. eapply wp_mono; [apply (BatchUpdate_inv queues); [exact I1 | done | |]|].
  - intros u (x & -> & Hx)%list_elem_of_fmap. destruct x as [i [rec t]].
    by destruct (validItems_tasks _ _ _ _ _ Hx) as (t0 & _ & _ & _ & Hf).
  - intros u (x & -> & Hx)%list_elem_of_fmap t1 Hl1. destruct x as [i [rec t]].
    destruct (validItems_tasks _ _ _ _ _ Hx) as (t0 & E & _ & Hs & _). simpl in E, Hs, Hl1.
    destruct (Hset _ _ (Ht _ _ E)) as (t2 & Hl2 & (_ & _ & _ & _ & Hs2)).
    rewrite (live_fun _ _ _ _ Hl1 Hl2). congruence.
  - intros [u|e] d2 I2; wp_step; exact I2.
Qed.
End service.
End result_inv.
