(* ===== verification/ClaimManyInv.v ===== *)
(** The batch claim preserves the invariant. *)

From S2P Require Import Prelude GoTime Domain Keys LeaseTable PebbleDB Backoff TaskRepo ResultRepo Invariant Bulk RepoInv Lifecycle Sweeps BatchOps.

Definition poppedKey (ten : string) (h : TaskRepository.popped) : qkey :=
  KPending (cmdSeg (TaskRepository.po_cmd h)) (tenantSeg ten) (TaskRepository.po_priority h)
    (TaskRepository.po_seq h) (TaskRepository.po_id h).

Section claim_many.
Context {P : Type} `{PebbleReads P} `{JSONLaws} `{Ghost}.
Implicit Types (d : DB P) (r : Repo P).

Lemma RInvH_perm held held' r : held ≡ₚ held' -> RInvH held r -> RInvH held' r.
Proof.
  intros Hp [Hd [Hn Hk Hf Hnd]]. split; [done|]. split; [done | | by rewrite <- Hp | by rewrite <- Hp].
  intros k l h Hl Hh. destruct (Hk k l h Hl Hh) as (c & t & p & E & He & Hin).
  exists c, t, p. by rewrite <- Hp.
Qed.

(** ** Collecting hints *)

Lemma drainChannel_wp room cmd ten p held r :
  RInvH held r -> seg_ok cmd = true -> seg_ok ten = true ->
  wp (TaskRepository.drainChannel room cmd ten p) (fun y r' => r_db r' = r_db r /\
    match y with
    | Ok hs => RInvH (map (poppedKey ten) hs ++ held) r'
    | Err _ => False
    end) r.
Proof.
  intros I Hc Ht. revert held r I. induction room as [|room IH]; intros held r I; simpl; [by wp_step|].
  wp_step. eapply recv_inv; [exact I | done | done | by wp_step|]. intros h r' I' Hdb. cbv beta iota.
  wp_step. eapply wp_mono; [by apply IH|]. intros [hs|e] r'' [Hdb' Hi]; [|done]. wp_step.
  split; [congruence|]. eapply RInvH_perm; [|exact Hi]. simpl. symmetry. apply Permutation_middle.
Qed.

Lemma collect_wp qs ten room held r :
  RInvH held r -> Forall (fun q => seg_ok (fst q) = true) qs -> seg_ok ten = true ->
  wp (TaskRepository.collect qs ten room) (fun y r' => r_db r' = r_db r /\
    match y with
    | Ok hs => RInvH (map (poppedKey ten) hs ++ held) r'
    | Err _ => False
    end) r.
Proof.
  intros I Hq Ht. revert room held r I.
  induction Hq as [|[cmd p] qs Hc Hq IH]; intros room held r I; simpl; [by wp_step|].
  wp_step. eapply wp_mono; [by apply drainChannel_wp|]. intros [hs|e] r' [Hdb I']; [|done].
  wp_step. eapply wp_mono; [by apply IH|]. intros [hs'|e] r'' [Hdb' I'']; [|done]. wp_step.
  split; [congruence|]. eapply RInvH_perm; [|exact I''].
  rewrite map_app, !app_assoc. f_equiv. apply Permutation_app_comm.
Qed.

(** ** Building the batch *)

Definition claimsAs (now : Z) (workerID lease ten : string) m (out : list Task)
  (h : TaskRepository.popped) (x : item) : Prop :=
  i_from x = poppedKey ten h /\ i_id x = TaskRepository.po_id h /\ entry m (i_id x) (i_from x) /\
  ((forall t, ~ live m (i_id x) t) /\ i_ops x = [(i_from x, None)] \/
   exists t q, live m (i_id x) t /\ i_id x ∈ map ID out /\
     forall L, is_Some (L !! i_id x) ->
       mover L (i_id x) (i_from x) (Some q) (TaskRepository.claimed now workerID lease t) (i_ops x)).

Lemma claimsAs_mono now w l ten m out t h x :
  claimsAs now w l ten m out h x -> claimsAs now w l ten m (out ++ [t]) h x.
Proof.
  intros (Hf & Hi & He & Hc). do 3 (split; [done|]). destruct Hc as [|(t0 & q & Hl & Hin & Hm)]; [by left|].
  right. exists t0, q. split; [done|]. split; [|done]. rewrite map_app, elem_of_app. by left.
Qed.

Lemma claimHint_wp now workerID lease ten pre h xs acc r :
  RInv r -> time_ok now -> workerID <> "" -> lease <> "" /\ is_Some (ParseRFC3339 lease) ->
  pendingEntry (stored (r_db r)) (poppedKey ten h) ->
  Forall2 (claimsAs now workerID lease ten (stored (r_db r)) (snd acc)) pre xs -> fst acc = bulk_ops xs ->
  wp (TaskRepository.claimHint now workerID lease ten acc h) (fun y r' => r' = r /\
    match y with
    | Ok acc' => exists xs', fst acc' = bulk_ops xs' /\
        Forall2 (claimsAs now workerID lease ten (stored (r_db r)) (snd acc')) (pre ++ [h]) xs'
    | Err _ => False
    end) r.
Proof.
  intros [[I Hr] Hh] Hnow Hw Hlu He Ha Hb. destruct acc as [b out]. simpl in *. subst b.
  set (m := stored (r_db r)) in *. set (q := poppedKey ten h) in *. set (id := TaskRepository.po_id h) in *.
  unfold TaskRepository.claimHint. wp_step. wp_step. autorewrite with keys. fold (poppedKey ten h) id q.
  apply wp_db_Get_reads; fold m.
  - intros v Hv. destruct (inv_body _ _ I id v Hv) as (t & Hu & G). rewrite Hu.
    assert (live m id t) as Hl by (by exists v).
    destruct (pending_place _ _ _ _ _ _ _ _ I Hl He) as (Hst & Hcc & Htt & Hpp).
    cbv beta iota. rewrite bool_decide_eq_false_2 by tauto. wp_step. split; [done|].
    assert (uint64 (TaskRepository.po_seq h)) as Hs by (destruct He as ((Hwf & _) & _); simpl in Hwf; tauto).
    set (t' := TaskRepository.claimed now workerID lease t).
    assert (forall L, is_Some (L !! id) -> mover L id q
      (Some (KInprog (cmdSeg (TaskRepository.po_cmd h)) (tenantSeg ten) id)) t'
      [(q, None); (KInprog (cmdSeg (TaskRepository.po_cmd h)) (tenantSeg ten) id, Some "");
       (KTask id, Some (marshal_task t')); (KTTL (unixSeconds (now + taskRetention)) id, Some "")]) as Hm.
    { intros L HL. unfold q, poppedKey. rewrite Hcc, Htt, Hpp.
      apply to_inprog; try done; [apply normalizePriority_range | by apply score_retention]. }
    match goal with Hm : forall L, _ -> mover _ _ _ _ _ ?tb |- _ => pose (x := mkItem q id tb) end.
    exists (xs ++ [x]). cbn [fst snd]. split.
    + unfold bulk_ops. rewrite map_app, concat_app. simpl. by rewrite ?app_nil_r.
    + apply Forall2_app.
      * eapply Forall2_impl; [exact Ha|]. intros. by apply claimsAs_mono.
      * constructor; [|constructor]. do 3 (split; [done|]). right.
        exists t, (KInprog (cmdSeg (TaskRepository.po_cmd h)) (tenantSeg ten) id).
        split; [done|]. split; [|exact Hm]. rewrite map_app, elem_of_app. right. simpl.
        rewrite (gt_id _ _ G). apply list_elem_of_here.
  - intros Hn. cbn [is_not_found]. wp_step. split; [done|]. exists (xs ++ [mkItem q id [(q, None)]]). cbn [fst snd]. split.
    + unfold bulk_ops. by rewrite map_app, concat_app.
    + apply Forall2_app; [done|]. constructor; [|constructor]. do 3 (split; [done|]). left.
      split; [by apply dead_body | done].
Qed.

(** The lease table once every claimed task is in it. *)
Definition leased (workerID ten : string) (until : Z) (out : list Task) (L : gmap string leaseEntry) :=
  fold_left (fun l t => leaseTable.Set_ t.(ID) workerID t.(Command) ten until l) out L.

Lemma leased_mono w ten u out L i : is_Some (L !! i) -> is_Some (leased w ten u out L !! i).
Proof.
  revert L. induction out as [|t out IH]; intros L Hi; simpl; [done|]. apply IH. unfold leaseTable.Set_.
  destruct (decide (t.(ID) = i)) as [<-|]; [rewrite lookup_insert_eq; by eexists | by rewrite lookup_insert_ne].
Qed.

Lemma leased_out w ten u out L i : i ∈ map ID out -> is_Some (leased w ten u out L !! i).
Proof.
  revert L. induction out as [|t out IH]; intros L Hi; simpl in *; [by apply not_elem_of_nil in Hi|].
  apply elem_of_cons in Hi as [->|Hi]; [|by apply IH]. apply leased_mono. unfold leaseTable.Set_.
  rewrite lookup_insert_eq. by eexists.
Qed.

Lemma claims_committed now w lease ten u hs out xs queues d d' :
  DBInv d -> HintInv (stored d) queues (map (poppedKey ten) hs) ->
  Forall2 (claimsAs now w lease ten (stored d) out) hs xs ->
  committed (bulk_ops xs) d d' ->
  DInv queues (set_leases (leased w ten u out (db_leases d')) d').
Proof.
  intros [I Hr] Hh Ha Hc. rewrite (co_leases _ _ _ Hc). set (L' := leased _ _ _ _ _).
  assert (map i_from xs = map (poppedKey ten) hs) as Hfrom.
  { clear -Ha. induction Ha as [|h x hs xs (Hf & _) _ IH]; [done|]. simpl. by rewrite Hf, IH. }
  assert (StoreInv (stored d) L') as I' by (eapply lease_mono; [exact I|]; intros; by apply leased_mono).
  assert (Forall (item_ok (stored d) L') xs) as Hok.
  { eapply Forall2_Forall_r; [exact Ha|]. apply Forall_forall. intros h _ x (_ & _ & He & Hx).
    destruct Hx as [[Hd Ho]|(t & q & Hl & Hin & Hm)]; [by apply item_ghost|].
    eapply item_move; [done | done | apply Hm; by apply leased_out]. }
  assert (NoDup (map i_from xs)) as Hnd by (rewrite Hfrom; apply Hh).
  eapply DInv_committed; [by split | exact Hh | exact Hc | by apply bulk_inv|].
  intros q Hq Hn. destruct q; try done. eapply bulk_keeps; eauto. by rewrite Hfrom.
Qed.

Lemma ClaimMany_inv cvt seed now workerID cmds lease max limit maxA ten :
  time_ok now -> workerID <> "" -> four_digit_year (now + seconds lease) = true ->
  Forall (fun c => seg_ok c = true) cmds -> seg_ok ten = true ->
  keeps (S := Repo P) RInv (TaskRepository.ClaimMany cvt seed now workerID cmds lease max limit maxA ten).
Proof.
  intros Hnow Hw Hy Hc Ht. unfold TaskRepository.ClaimMany. destruct (max <=? 0); [apply keeps_ret|].
  apply keeps_bind; [by apply reconcilePrelude_inv|]. intros _. apply keeps_wp. intros r I. wp_step.
  eapply wp_mono; [apply (collect_wp _ _ _ []); [exact I | | done]|].
  { rewrite Forall_forall in Hc. apply Forall_forall. intros [c p] [Hin _]%list_elem_of_In%in_prod_iff.
    apply Hc. by apply list_elem_of_In. }
  intros [hs|e] r1 [Hdb I1]; [|done]. rewrite app_nil_r in I1.
  pose proof (RInvH_drop _ _ I1) as I0. destruct hs as [|h0 hs']; [wp_step; exact I0|].
  set (hs := h0 :: hs') in *. wp_step. set (lu := FormatRFC3339 _).
  eapply (wp_fold_prefix (fun pre acc r' => r' = r1 /\ exists xs, fst acc = bulk_ops xs /\
    Forall2 (claimsAs now workerID lu ten (stored (r_db r1)) (snd acc)) pre xs)).
  - split; [done|]. exists []. split; [done | constructor].
  - intros pre h post acc r' El (-> & xs & Hb & Ha).
    eapply wp_mono; [apply (claimHint_wp now workerID lu ten pre h xs acc r1 I0 Hnow Hw (leaseUntil_ok _ Hy)); [|done..]|].
    + destruct I1 as [_ Hh]. pose proof (hi_held _ _ _ Hh) as Hf. rewrite Forall_forall in Hf.
      apply Hf. apply list_elem_of_fmap_2. rewrite El, elem_of_app. right. constructor.
    + intros [acc'|e] r' [-> Hx]; [|done]. split; [done|]. destruct Hx as (xs' & Hb' & Ha'). eauto.
  - intros [b out] r' (-> & xs & Hb & Ha). cbn [fst snd] in *. subst b. wp_step. apply wp_wrap.
    apply wp_db_Commit; [apply I1 | | intros; exact I0]. intros d' Hco. wp_step.
    unfold wp at 1. rewrite (mfor_leases (fun t => leaseTable.Set_ t.(ID) workerID t.(Command) ten _)).
    cbn [fst snd]. wp_step. destruct I1 as [Hd Hh]. by eapply claims_committed.
Qed.
End claim_many.
