(* ===== verification/Recovery.v ===== *)
(** Start-up: [NewTaskRepository] rebuilds the channels, the delayed counters
    and the lease table from the stored keys.  The channels hold exactly the
    pending entries in key order, so a restart keeps the claim order; every
    in-progress task gets its lease back; the rebuilt object satisfies the
    repository invariant. *)

From stdpp Require Import pretty.
From S2P Require Import Prelude GoTime Domain Keys LeaseTable PebbleDB TaskRepo Invariant KeyScan Bulk RepoInv Lifecycle.

(** The hint of a queue key for one channel. *)
Definition hintOf (c t : string) (p : Z) (q : qkey) : option pendingHint :=
  match q with
  | KPending c' t' p' s id => if decide (c' = c /\ t' = t /\ p' = p) then Some (mkHint s id) else None
  | _ => None
  end.

Definition hints (c t : string) (p : Z) (qs : list qkey) : list pendingHint := omap (hintOf c t p) qs.

(** A delayed entry of one queue. *)
Definition delayedOf (c t : string) (q : qkey) : bool :=
  match q with KDelayed c' t' _ _ => bool_decide (c' = c /\ t' = t) | _ => false end.

Lemma hintOf_spec c t p q h : hintOf c t p q = Some h <-> q = hintKey c t p h.
Proof.
  unfold hintKey. split.
  - destruct q; simpl; try done. destruct (decide _) as [(-> & -> & ->)|]; [|done]. by intros [= <-].
  - intros ->. simpl. rewrite decide_True by done. by destruct h.
Qed.

Lemma elem_of_hints c t p qs h : h ∈ hints c t p qs <-> hintKey c t p h ∈ qs.
Proof.
  unfold hints. rewrite list_elem_of_omap. split.
  - intros (q & Hq & E%hintOf_spec). by subst.
  - intros Hq. exists (hintKey c t p h). split; [done | by apply hintOf_spec].
Qed.

Lemma hints_cons c t p q qs :
  hints c t p (q :: qs) =
  match hintOf c t p q with Some h => h :: hints c t p qs | None => hints c t p qs end.
Proof. done. Qed.

Lemma NoDup_hints c t p qs : NoDup qs -> NoDup (hints c t p qs).
Proof.
  induction 1 as [|q qs Hq Hn IH]; [constructor|]. rewrite hints_cons.
  destruct (hintOf c t p q) as [h|] eqn:E; [|done]. constructor; [|done].
  apply hintOf_spec in E as ->. by rewrite elem_of_hints.
Qed.

Lemma hints_app c t p qs qs' : hints c t p (qs ++ qs') = hints c t p qs ++ hints c t p qs'.
Proof. apply omap_app. Qed.

(** The channel of a claim is sorted by sequence number. *)
Lemma sorted_hints c t p qs :
  Forall okq qs -> StronglySorted sle (map enc qs) ->
  StronglySorted (fun h h' => h_seq h <= h_seq h') (hints c t p qs).
Proof.
  induction qs as [|q qs IH]; intros Hok Hs; [constructor|].
  apply Forall_cons in Hok as [Hq Hok]. simpl in Hs. apply StronglySorted_inv in Hs as [Hs Hall].
  rewrite hints_cons. destruct (hintOf c t p q) as [h|] eqn:E; [|by apply IH].
  constructor; [by apply IH|]. apply hintOf_spec in E as ->. apply Forall_forall.
  intros h' Hh'. apply elem_of_hints in Hh'. rewrite Forall_forall in Hall. rewrite Forall_forall in Hok.
  specialize (Hall (enc (hintKey c t p h'))). specialize (Hok _ Hh').
  assert (sle (enc (hintKey c t p h)) (enc (hintKey c t p h'))) as Hle
    by (apply Hall, list_elem_of_In, in_map, list_elem_of_In; done).
  destruct Hq as [Hq _], Hok as [Hok _]. simpl in Hq, Hok.
  unfold sle, sleb, hintKey in Hle. rewrite pending_cmp in Hle by tauto.
  rewrite Z.compare_refl in Hle. destruct (Z.compare_spec (h_seq h) (h_seq h')); [lia | lia | done].
Qed.

(** ** The scanned keys *)

Section recovery.
Context {P : Type} `{PebbleLaws P} `{JSONLaws} `{Ghost}.
Implicit Types (d : DB P) (r : Repo P) (m : gmap string string).

(** [qs]: the typed form of the keys of the queue families, in key order. *)
Definition scanned m (qs : list qkey) : Prop :=
  range_keys m pQueue (prefixUpper pQueue) = map enc qs /\ Forall (fun q => okq q /\ qid q <> None /\ is_Some (m !! enc q)) qs /\
  forall q, okq q -> qid q <> None -> is_Some (m !! enc q) -> q ∈ qs.

Lemma okq_inj q q' : okq q -> okq q' -> enc q = enc q' -> q = q'.
Proof. intros [Hq _] [Hq' _]. by apply enc_inj. Qed.

Lemma prefix_qid q : has_prefix pQueue (enc q) = true -> qid q <> None.
Proof.
  intros Hp. pose proof (family_prefix_inj FQueue (family_of q) (enc q) Hp (enc_family q)). by destruct q.
Qed.

Lemma scanned_exists m L : StoreInv m L -> exists qs, scanned m qs.
Proof.
  intros I. set (ks := range_keys m pQueue (prefixUpper pQueue)).
  assert (forall k, k ∈ ks <-> is_Some (m !! k) /\ has_prefix pQueue k = true) as Hks.
  { intros k. unfold ks. rewrite elem_of_range_keys. change pQueue with ("codeq/q" +:+ "/"). by rewrite scan_prefix. }
  assert (exists qs, ks = map enc qs /\ Forall (fun q => okq q /\ qid q <> None /\ is_Some (m !! enc q)) qs) as (qs & E & Hqs).
  { assert (Forall (fun k => exists q, okq q /\ qid q <> None /\ k = enc q /\ is_Some (m !! enc q)) ks) as Hall.
    { apply Forall_forall. intros k [Hk Hp]%Hks. destruct (inv_keys _ _ I k Hk) as (q & Hq & ->); [by left|].
      exists q. split_and!; [done | by apply prefix_qid | done | done]. }
    clear Hks. induction Hall as [|k ks' (q & Hq & Hi & -> & Hs) _ (qs & -> & Hqs)]; [by exists []|].
    exists (q :: qs). split; [done | by constructor]. }
  exists qs. split; [done|]. split; [done|]. intros q Hq Hi Hs.
  assert (enc q ∈ ks) as Hin.
  { apply Hks. split; [done|]. destruct q; simpl in Hi; try done; apply enc_family. }
  rewrite E in Hin. apply list_elem_of_In, in_map_iff in Hin as (q' & Heq & Hq').
  apply list_elem_of_In in Hq'. rewrite Forall_forall in Hqs.
  by rewrite (okq_inj q q') by (done || by apply Hqs).
Qed.

Lemma scanned_NoDup m qs : scanned m qs -> NoDup qs.
Proof.
  intros (E & _). apply (NoDup_fmap_1 enc). change (enc <$> qs) with (map enc qs).
  rewrite <- E. apply NoDup_range_keys.
Qed.

(** ** The channels *)

Definition scan_fails d : Prop := exists e, fst (Iter (pQueue, prefixUpper pQueue) d) = Err e.

(** Some queue has more entries than a channel has room for. *)
Definition overflows (qs : list qkey) : Prop :=
  exists c t p, channelBufferSize < Z.of_nat (length (hints c t p qs)).

Lemma wp_scan (Q : res (list string) -> Repo P -> Prop) r qs :
  scanned (stored (r_db r)) qs ->
  Q (Ok (map enc qs)) r -> (forall e, scan_fails (r_db r) -> Q (Err e) r) ->
  wp (db (Iter (pQueue, prefixUpper pQueue))) Q r.
Proof.
  intros (E & _) HOk HErr. unfold db. wp_step. unfold wp, scan_fails in *. cbn [Iter fst snd].
  rewrite set_db_id. destruct (p_iter _ _ _) as [ks|e] eqn:Ei; [|apply HErr; exists e; exact Ei].
  apply p_iter_ok in Ei. unfold stored in E. rewrite Ei, E. exact HOk.
Qed.

Lemma mfor_map {S A B} (f : A -> B) (l : list A) (body : B -> M S unit) :
  mfor (map f l) body = mfor l (fun x => body (f x)).
Proof. induction l as [|x l IH]; simpl; [done|]. by rewrite IH. Qed.

Definition channels_are (qs : list qkey) r : Prop :=
  (forall c t p, seg_ok c = true -> seg_ok t = true -> channel r (qname c t p) = hints c t p qs) /\
  (forall k l, r_queues r !! k = Some l -> exists c t p, k = qname c t p /\ seg_ok c = true /\ seg_ok t = true).

(** The channel a pending key is sent to. *)
Lemma okq_channel c t p s id :
  okq (KPending c t p s id) -> queueKey c (unseg t) p = qname c t p /\ seg_ok c = true /\ seg_ok t = true.
Proof.
  intros ((Hc & Ht & _) & _ & (_ & _ & Hcc & Htt)). split; [|done].
  rewrite queueKey_qname, Hcc, unseg_seg by done. done.
Qed.

Lemma channels_push qs c t p s id r :
  okq (KPending c t p s id) -> channels_are qs r ->
  channels_are (qs ++ [KPending c t p s id])
    (set_queues (<[qname c t p := channel r (qname c t p) ++ [mkHint s id]]> (r_queues r)) r).
Proof.
  intros Hok [Hch Hk]. destruct (okq_channel _ _ _ _ _ Hok) as (_ & Hc & Ht). split.
  - intros c' t' p' Hc' Ht'. rewrite hints_app, <- Hch by done. unfold channel. cbn [r_queues set_queues].
    destruct (decide (c = c' /\ t = t' /\ p = p')) as [(<- & <- & <-)|Hne].
    + rewrite lookup_insert_eq, hints_cons. simpl. by rewrite decide_True.
    + rewrite lookup_insert_ne by (intros E; apply qname_inj in E; tauto).
      rewrite hints_cons. simpl. rewrite decide_False by done. by rewrite app_nil_r.
  - intros k l. cbn [r_queues set_queues]. destruct (decide (qname c t p = k)) as [<-|Hne]; [eauto 6|].
    rewrite lookup_insert_ne by done. apply Hk.
Qed.

Lemma channels_skip qs q r :
  (forall c t p, hintOf c t p q = None) -> channels_are qs r -> channels_are (qs ++ [q]) r.
Proof.
  intros Hq [Hch Hk]. split; [|done]. intros c t p Hc Ht.
  rewrite hints_app, hints_cons, Hq, Hch by done. by rewrite app_nil_r.
Qed.

Lemma hints_length_app c t p qs qs' :
  (length (hints c t p qs) <= length (hints c t p (qs ++ qs')))%nat.
Proof. rewrite hints_app, length_app. lia. Qed.

(** A queue key is sent to its channel, or the scan stops on a full one. *)
Lemma recoverQueueKey_wp qs q rest r :
  okq q -> qid q <> None -> channels_are qs r ->
  wp (TaskRepository.recoverQueueKey (enc q))
    (fun x r' => r_db r' = r_db r /\ r_delayed r' = r_delayed r /\
       match x with Ok _ => channels_are (qs ++ [q]) r' | Err _ => overflows (qs ++ q :: rest) end) r.
Proof.
  intros Hok Hq Hch. destruct q as [| | | |c t p s id|c t id|c t s id|c t id]; try done.
  - rewrite recover_pending by done. destruct (okq_channel _ _ _ _ _ Hok) as (-> & Hc & Ht).
    unfold wp, mbnd, send. rewrite (proj1 Hch) by done.
    destruct (Z.ltb_spec (Z.of_nat (length (hints c t p qs))) channelBufferSize) as [Hl|Hl]; simpl.
    + split; [done|]. split; [done|]. rewrite <- (proj1 Hch) by done. by apply channels_push.
    + split; [done|]. split; [done|]. exists c, t, p. rewrite hints_app, hints_cons. simpl.
      rewrite decide_True by done. rewrite length_app. simpl. lia.
  - rewrite recover_other by (by apply marker_inprog_pending). wp_step. split_and!; [done..|]. by apply channels_skip.
  - rewrite recover_other by (by apply marker_delayed_pending). wp_step. split_and!; [done..|]. by apply channels_skip.
  - rewrite recover_other by (by apply marker_dlq_pending). wp_step. split_and!; [done..|]. by apply channels_skip.
Qed.

Lemma scanned_at m qs pre q post :
  scanned m qs -> qs = pre ++ q :: post -> okq q /\ qid q <> None /\ is_Some (m !! enc q).
Proof.
  intros (_ & Hall & _) ->. apply Forall_app in Hall as [_ Hall]. by apply Forall_cons in Hall as [Hq _].
Qed.

Lemma recoverQueues_wp qs r :
  scanned (stored (r_db r)) qs -> r_queues r = ∅ ->
  wp TaskRepository.recoverQueues
    (fun x r' => r_db r' = r_db r /\ r_delayed r' = r_delayed r /\
       match x with Ok _ => channels_are qs r' | Err _ => scan_fails (r_db r) \/ overflows qs end) r.
Proof.
  intros Hs He. unfold TaskRepository.recoverQueues. wp_step.
  apply (wp_scan _ r qs); [done | | by intros; split_and!; [..|left]].
  rewrite mfor_map.
  apply (wp_for_prefix (fun pre r' => r_db r' = r_db r /\ r_delayed r' = r_delayed r /\ channels_are pre r')).
  - split_and!; [done..|]. split; intros; [unfold channel|]; rewrite He in *; [done|].
    by rewrite lookup_empty in *.
  - intros pre q post r' E (Hd & Hdel & Hch). destruct (scanned_at _ _ _ _ _ Hs E) as (Hok & Hq & _).
    eapply wp_mono; [by apply (recoverQueueKey_wp pre q post)|].
    intros [[]|e] r'' (H1' & H2' & H3'); (split; [congruence|]); (split; [congruence|]); [done|].
    right. by rewrite E.
  - done.
Qed.

(** ** The delayed counters *)

Lemma recoverDelayed_keeps d queues :
  keeps (fun r => r_db r = d /\ r_queues r = queues) (TaskRepository.recoverDelayedCounts (P := P)).
Proof.
  unfold TaskRepository.recoverDelayedCounts. apply keeps_bind.
  { intros r [Hd Hq]. done. }
  intros ks. apply keeps_for. intros k _. unfold TaskRepository.recoverDelayedKey.
  apply keeps_if; [auto with codeq|]. apply keeps_bind.
  - unfold TaskRepository.queueOf, TaskRepository.slice. apply keeps_bind; [auto with codeq|].
    intros pre. repeat case_match; auto with codeq.
  - intros [[cmd ten]|]; [|auto with codeq]. by intros r.
Qed.

Definition cname (c t : string) : string := c +:+ nul +:+ t.

Lemma cname_inj c t c' t' :
  seg_ok c = true -> seg_ok c' = true -> cname c t = cname c' t' -> c = c' /\ t = t'.
Proof.
  intros Hc Hc' E. unfold cname, nul in E. rewrite !app_cons_s, !app_empty_s in E.
  apply split_unique in E as [-> ->]; auto with codeq.
Qed.

(** The number of delayed entries of one queue. *)
Definition delayedEntries (c t : string) (qs : list qkey) : Z :=
  Z.of_nat (length (List.filter (delayedOf c t) qs)).

Lemma delayedEntries_app c t qs q :
  delayedEntries c t (qs ++ [q]) = delayedEntries c t qs + (if delayedOf c t q then 1 else 0).
Proof.
  unfold delayedEntries. rewrite List.filter_app, length_app. simpl. destruct (delayedOf c t q); simpl; lia.
Qed.

Definition counts_are (qs : list qkey) r : Prop :=
  forall c t, seg_ok c = true -> seg_ok t = true -> default 0 (r_delayed r !! cname c t) = delayedEntries c t qs.

(** Sequence numbers below the width the marker search relies on. *)
Definition small (q : qkey) : Prop := match q with KPending _ _ _ s _ => score s | _ => True end.

Lemma recoverDelayed_delayed c t s id :
  okq (KDelayed c t s id) ->
  TaskRepository.recoverDelayedKey (P := P) (enc (KDelayed c t s id)) = delayedAdd c (unseg t) 1.
Proof.
  intros Hok. unfold TaskRepository.recoverDelayedKey. rewrite marker_delayed by done.
  destruct (Z.ltb_spec (slen pQueue + slen c + 1 + slen t) 0); [unfold slen in *; lia|].
  destruct Hok as ((Hc & Ht & _) & _). cbn [enc]. rewrite queueOf_base by auto with codeq. reflexivity.
Qed.

Lemma recoverDelayed_other q :
  okq q -> qid q <> None -> small q -> (forall c t, delayedOf c t q = false) ->
  TaskRepository.recoverDelayedKey (P := P) (enc q) = mret tt.
Proof.
  intros Hok Hq Hs Hn. unfold TaskRepository.recoverDelayedKey.
  destruct q as [| | | |c t p s id|c t id|c t s id|c t id]; try done.
  - by rewrite marker_pending_delayed.
  - by rewrite marker_inprog_delayed.
  - specialize (Hn c t). simpl in Hn. by rewrite bool_decide_true in Hn.
  - by rewrite marker_dlq_delayed.
Qed.

Lemma recoverDelayedKey_wp qs q r :
  okq q -> qid q <> None -> small q -> counts_are qs r ->
  wp (TaskRepository.recoverDelayedKey (enc q))
    (fun x r' => x = Ok tt /\ counts_are (qs ++ [q]) r' /\ r_db r' = r_db r /\ r_queues r' = r_queues r) r.
Proof.
  intros Hok Hq Hs Hcnt.
  assert ((forall c t, delayedOf c t q = false) \/ exists c t s id, q = KDelayed c t s id) as [Hn|(c & t & s & id & ->)].
  { destruct q as [| | | |c t p s id|c t id|c t s id|c t id]; try (by left). right. eauto. }
  - rewrite recoverDelayed_other by done. wp_step. split_and!; [done| |done..].
    intros c t Hc Ht. rewrite delayedEntries_app, Hn, Hcnt by done. lia.
  - rewrite recoverDelayed_delayed by done. destruct Hok as ((Hc & Ht & _) & _ & ((_ & _ & Hcc & Htt) & _)).
    apply wp_delayedAdd. split_and!; [done| |done..].
    intros c' t' Hc' Ht'. rewrite delayedEntries_app, <- Hcnt by done. unfold delayedCounter.
    change (countKey c (unseg t)) with (cname (cmdSeg c) (tenantSeg (unseg t))).
    rewrite Hcc, unseg_seg by done. cbn [r_delayed set_delayed delayedOf].
    destruct (decide (c = c' /\ t = t')) as [(<- & <-)|Hne].
    + by rewrite lookup_insert_eq, bool_decide_true.
    + rewrite lookup_insert_ne by (intros E; apply cname_inj in E; tauto).
      rewrite bool_decide_false by done. lia.
Qed.

Lemma recoverDelayed_wp qs r :
  scanned (stored (r_db r)) qs -> Forall small qs -> r_delayed r = ∅ ->
  wp TaskRepository.recoverDelayedCounts
    (fun x r' => r_db r' = r_db r /\ r_queues r' = r_queues r /\
       match x with Ok _ => counts_are qs r' | Err _ => scan_fails (r_db r) end) r.
Proof.
  intros Hs Hsm He. unfold TaskRepository.recoverDelayedCounts. wp_step.
  apply (wp_scan _ r qs); [done | | by intros; split_and!]. rewrite mfor_map.
  apply (wp_for_prefix (fun pre r' => counts_are pre r' /\ r_db r' = r_db r /\ r_queues r' = r_queues r)).
  - split_and!; [|done..]. intros c t _ _. by rewrite He, lookup_empty.
  - intros pre q post r' E (Hc & Hd & Hqs). destruct (scanned_at _ _ _ _ _ Hs E) as (Hok & Hq & _).
    subst qs. apply Forall_app in Hsm as [_ Hsm]. apply Forall_cons in Hsm as [Hsm _].
    eapply wp_mono; [by apply (recoverDelayedKey_wp pre q)|].
    intros x r'' (-> & Hc' & Hd' & Hq'). split; [exact Hc' | split; congruence].
  - intros r' (Hc & Hd & Hqs). by split_and!.
Qed.

(** ** The lease table *)

(** The lease a stored body asks for. *)
Definition leaseOf (t : Task) : option leaseEntry :=
  if bool_decide (t.(LeaseUntil) = "") || bool_decide (t.(WorkerID) = "") then None
  else mkLease t.(WorkerID) t.(Command) t.(TenantID) <$> ParseRFC3339 t.(LeaseUntil).

Lemma recoverable_lease t : recoverable t -> is_Some (leaseOf t).
Proof.
  intros (Hw & Hl & u & Hu). unfold leaseOf. rewrite !bool_decide_false by done. simpl. rewrite Hu. by eexists.
Qed.

(** Every lease of the table is the one its stored body asks for. *)
Definition leases_from m (L : gmap string leaseEntry) : Prop :=
  forall id e, L !! id = Some e -> exists t, live m id t /\ leaseOf t = Some e.

(** One scanned key: the lease of the body it names. *)
Definition leaseStep m (k : string) (L : gmap string leaseEntry) : gmap string leaseEntry :=
  let idx := indexOf k segInprog in
  let id := drop_s (Z.to_nat (idx + slen segInprog)) k in
  if idx <? 0 then L
  else match ((m !! enc (KTask id)) ≫= unmarshal_task) ≫= leaseOf with Some e => <[id := e]> L | None => L end.

Lemma recoverLeaseKey_wp `{!PebbleReads P} k r :
  wp (TaskRepository.recoverLeaseKey k)
    (fun x r' => x = Ok tt /\
       r' = set_db (set_leases (leaseStep (stored (r_db r)) k (db_leases (r_db r))) (r_db r)) r) r.
Proof.
  unfold TaskRepository.recoverLeaseKey, leaseStep, leaseOf. set (id := drop_s _ k).
  destruct (indexOf k segInprog <? 0).
  { wp_step. by rewrite set_leases_id, set_db_id. }
  wp_step. wp_step. apply wp_db_Get_reads.
  - intros v Hv. change (KeyTask id) with (enc (KTask id)) in Hv. rewrite Hv. simpl. destruct (unmarshal_task v) as [t|]; simpl;
      [|wp_step; by rewrite set_leases_id, set_db_id].
    destruct (_ || _); [wp_step; by rewrite set_leases_id, set_db_id|].
    destruct (ParseRFC3339 _) as [u|]; simpl; [by apply wp_leases|].
    wp_step. by rewrite set_leases_id, set_db_id.
  - intros Hv. change (KeyTask id) with (enc (KTask id)) in Hv. rewrite Hv. simpl. wp_step. by rewrite set_leases_id, set_db_id.
Qed.

Lemma leaseStep_from m k L : leases_from m L -> leases_from m (leaseStep m k L).
Proof.
  intros HL. unfold leaseStep. set (id := drop_s _ k). destruct (_ <? 0); [done|].
  destruct (_ ≫= leaseOf) as [e|] eqn:E; [|done]. intros i e'.
  destruct (decide (id = i)) as [<-|Hne].
  - rewrite lookup_insert_eq. intros [= <-]. apply bind_Some in E as (t & Ht & He).
    apply bind_Some in Ht as (v & Hv & Hu). exists t. split; [by exists v | done].
  - rewrite lookup_insert_ne by done. apply HL.
Qed.

Lemma leaseStep_mono m k L i : is_Some (L !! i) -> is_Some (leaseStep m k L !! i).
Proof.
  intros Hi. unfold leaseStep. destruct (_ <? 0); [done|].
  destruct (_ ≫= leaseOf) as [e|]; [|done]. apply lookup_insert_is_Some'. by right.
Qed.

Lemma leaseStep_inprog m L c t id task :
  okq (KInprog c t id) -> live m id task -> is_Some (leaseOf task) ->
  is_Some (leaseStep m (enc (KInprog c t id)) L !! id).
Proof.
  intros Hok (v & Hv & Hu) [e He]. unfold leaseStep. rewrite inprog_id by done.
  rewrite marker_inprog by done. destruct (Z.ltb_spec (slen pQueue + slen c + 1 + slen t) 0).
  { unfold slen in *. lia. }
  rewrite Hv. simpl. rewrite Hu. simpl. rewrite He, lookup_insert_eq. by eexists.
Qed.

(** Every in-progress entry in the scanned prefix has its lease. *)
Definition leases_for m (qs : list qkey) (L : gmap string leaseEntry) : Prop :=
  forall c t id task, KInprog c t id ∈ qs -> live m id task -> is_Some (leaseOf task) -> is_Some (L !! id).

Lemma recoverLeases_wp `{!PebbleReads P} qs r :
  scanned (stored (r_db r)) qs -> leases_from (stored (r_db r)) (db_leases (r_db r)) ->
  wp TaskRepository.recoverLeases
    (fun x r' => match x with
       | Ok _ => exists L, r' = set_db (set_leases L (r_db r)) r /\
                   leases_from (stored (r_db r)) L /\ leases_for (stored (r_db r)) qs L
       | Err _ => scan_fails (r_db r)
       end) r.
Proof.
  intros Hs Hfrom. set (m := stored (r_db r)) in *. unfold TaskRepository.recoverLeases. wp_step.
  apply (wp_scan _ r qs); [done | | done]. rewrite mfor_map.
  apply (wp_for_prefix (fun pre r' => exists L, r' = set_db (set_leases L (r_db r)) r /\
    leases_from m L /\ leases_for m pre L)).
  - exists (db_leases (r_db r)). rewrite set_leases_id, set_db_id. split_and!; [done..|].
    intros ? ? ? ? Hin. by apply not_elem_of_nil in Hin.
  - intros pre q post r' E (L & -> & Hl & Hf). destruct (scanned_at _ _ _ _ _ Hs E) as (Hok & _).
    eapply wp_mono; [apply recoverLeaseKey_wp|]. intros x r'' [-> ->].
    exists (leaseStep m (enc q) L). split; [done|]. split; [by apply leaseStep_from|].
    intros c t id task Hin Hlive He. apply elem_of_app in Hin as [Hin|Hin%list_elem_of_singleton].
    + apply leaseStep_mono. by eapply Hf.
    + subst q. by eapply leaseStep_inprog.
  - done.
Qed.

(** ** The rebuilt object *)

Lemma channels_hints m qs r :
  scanned m qs -> channels_are qs r -> HintInv m (r_queues r) [].
Proof.
  intros Hs [Hch Hk]. pose proof (scanned_NoDup _ _ Hs) as Hnd. destruct Hs as (_ & Hall & _).
  rewrite Forall_forall in Hall.
  split; [| | done | constructor]; intros k l.
  - intros Hl. destruct (Hk k l Hl) as (c & t & p & -> & Hc & Ht). specialize (Hch c t p Hc Ht).
    unfold channel in Hch. rewrite Hl in Hch. simpl in Hch. subst l. by apply NoDup_hints.
  - intros h Hl Hh. destruct (Hk k l Hl) as (c & t & p & -> & Hc & Ht). specialize (Hch c t p Hc Ht).
    unfold channel in Hch. rewrite Hl in Hch. simpl in Hch. subst l. apply elem_of_hints in Hh.
    exists c, t, p. split; [done|]. destruct (Hall _ Hh) as (Hok & _ & Hsome).
    split; [by split_and! | apply not_elem_of_nil].
Qed.

Lemma scanned_pending m qs c t p h :
  scanned m qs -> hintKey c t p h ∈ qs <-> pendingEntry m (hintKey c t p h).
Proof.
  intros (_ & Hall & Hin). rewrite Forall_forall in Hall. split.
  - intros Hq. destruct (Hall _ Hq) as (Hok & _ & Hsome). by split_and!.
  - intros (Hok & _ & Hsome). by apply Hin.
Qed.

(** What start-up leaves: the stored map as it was, each channel with exactly
    the stored pending entries of its queue in sequence order, each
    in-progress task leased as its body says. *)
Record recovered d r : Prop := {
  rc_inv : RInv r;
  rc_stored : stored (r_db r) = stored d;
  rc_channel : forall c t p h, seg_ok c = true -> seg_ok t = true ->
    h ∈ channel r (qname c t p) <-> pendingEntry (stored d) (hintKey c t p h);
  rc_sorted : forall c t p, seg_ok c = true -> seg_ok t = true ->
    StronglySorted (fun h h' => h_seq h <= h_seq h') (channel r (qname c t p));
  rc_leases : forall id t, live (stored d) id t -> t.(Status) = StatusInProgress ->
    exists e, db_leases (r_db r) !! id = Some e /\ leaseOf t = Some e
}.

Lemma leases_restored m L qs L' id t :
  StoreInv m L -> scanned m qs -> leases_from m L' -> leases_for m qs L' ->
  live m id t -> t.(Status) = StatusInProgress ->
  exists e, L' !! id = Some e /\ leaseOf t = Some e.
Proof.
  intros I (_ & _ & Hin) Hfrom Hfor Hlive Hst.
  destruct (inv_some _ _ I id t Hlive) as (q & Hq); [by right|].
  pose proof (inv_place _ _ I id t q Hlive Hq) as Hpl. pose proof (live_good _ _ _ _ I Hlive) as Hg.
  pose proof (recoverable_lease t (gt_lease _ _ Hg Hst)) as Hle.
  destruct Hq as (Hok & Hqid & Hsome).
  assert (is_Some (L' !! id)) as [e He].
  { destruct q as [| | | |c q p s i|c q i|c q s i|c q i]; simpl in Hpl; try done;
      try (destruct Hpl as [Hs _]; rewrite Hst in Hs; by status_contra).
    simpl in Hqid. injection Hqid as ->. eapply Hfor; [by apply Hin | done | done]. }
  exists e. split; [done|]. destruct (Hfrom id e He) as (t' & Ht' & He').
  by rewrite (live_fun _ _ _ _ Hlive Ht').
Qed.

Lemma NewTaskRepository_run d pol b mx r :
  TaskRepository.NewTaskRepository d pol b mx = Ok r ->
  exists r1 r2 : Repo P, TaskRepository.recoverQueues (TaskRepository.emptyRepo d pol b mx) = (Ok tt, r1) /\
    TaskRepository.recoverDelayedCounts r1 = (Ok tt, r2) /\ TaskRepository.recoverLeases r2 = (Ok tt, r).
Proof.
  unfold TaskRepository.NewTaskRepository, mbnd. intros E.
  destruct (TaskRepository.recoverQueues _) as [[[]|e] r1]; [|done].
  destruct (TaskRepository.recoverDelayedCounts r1) as [[[]|e] r2] eqn:E2; [|done].
  destruct (TaskRepository.recoverLeases r2) as [[[]|e] r3] eqn:E3; [|done].
  exists r1, r2. split_and!; [done..|]. congruence.
Qed.

Lemma wp_run {S A} (m : M S A) Q s x s' : m s = (x, s') -> wp m Q s -> Q x s'.
Proof. unfold wp. by intros ->. Qed.

Lemma recovery_restores `{!PebbleReads P} d L pol b mx r :
  StoreInv (stored d) L -> handle_ok d -> db_leases d = ∅ ->
  TaskRepository.NewTaskRepository d pol b mx = Ok r -> recovered d r.
Proof.
  intros I Hh HL (r1 & r2 & E1 & E2 & E3)%NewTaskRepository_run.
  destruct (scanned_exists _ _ I) as [qs Hs].
  pose proof (wp_run _ _ _ _ _ E1 (recoverQueues_wp qs (TaskRepository.emptyRepo d pol b mx) Hs eq_refl)) as (D1 & _ & Hch). cbn in D1.
  pose proof (recoverDelayed_keeps _ _ r1 (conj eq_refl eq_refl)) as [D2 Q2]. rewrite E2 in D2, Q2. simpl in D2, Q2.
  rewrite D1 in D2. assert (channels_are qs r2) as Hch2.
  { unfold channels_are, channel in *. by rewrite Q2. }
  assert (scanned (stored (r_db r2)) qs) as Hs2 by by rewrite D2.
  assert (leases_from (stored (r_db r2)) (db_leases (r_db r2))) as Hf0.
  { rewrite D2, HL. intros ? ?. by rewrite lookup_empty. }
  pose proof (wp_run _ _ _ _ _ E3 (recoverLeases_wp qs r2 Hs2 Hf0)) as (L' & -> & Hfrom & Hfor).
  rewrite D2 in Hfrom, Hfor. clear E1 E2 E3.
  assert (forall id t, live (stored d) id t -> t.(Status) = StatusInProgress ->
    exists e, L' !! id = Some e /\ leaseOf t = Some e) as Hle by (intros; by eapply leases_restored).
  split; cbn [r_db set_db]; rewrite ?stored_leases, ?D2; [| done | | | done].
  - split; cbn [r_db r_queues set_db]; rewrite ?D2, ?stored_leases; [split|]; [| by destruct d | by eapply channels_hints].
    rewrite stored_leases. eapply ext_inv; [exact I | done | done | by left |].
    intros id t Hlive Hst _. destruct (Hle id t Hlive Hst) as (e & He & _). cbn. rewrite He. by eexists.
  - intros c t p h Hc Ht. unfold channel. cbn [r_queues set_db]. rewrite <- scanned_pending by done.
    rewrite <- elem_of_hints, <- (proj1 Hch2) by done. done.
  - intros c t p Hc Ht. unfold channel. cbn [r_queues set_db]. fold (channel r2 (qname c t p)).
    rewrite (proj1 Hch2) by done. destruct Hs as (Es & Hall & _). apply sorted_hints.
    + eapply Forall_impl; [exact Hall|]. by intros q (Hq & _).
    + rewrite <- Es. apply StronglySorted_range_keys.
Qed.

(** On an engine that answers, start-up succeeds unless a queue holds more
    entries than a channel, and the delayed counters are exact. *)
Lemma recovery_total `{!PebbleReliable P} d L pol b mx qs :
  StoreInv (stored d) L -> db_leases d = ∅ -> scanned (stored d) qs -> Forall small qs -> ~ overflows qs ->
  exists r, TaskRepository.NewTaskRepository d pol b mx = Ok r /\ counts_are qs r.
Proof.
  intros I HL Hs Hsm Hov. unfold TaskRepository.NewTaskRepository, mbnd.
  assert (forall d', ~ scan_fails d') as Hnf.
  { intros d' (e & E). unfold Iter in E. cbn [fst snd] in E. by rewrite p_iter_total in E. }
  pose proof (recoverQueues_wp qs (TaskRepository.emptyRepo d pol b mx) Hs eq_refl) as H1'. unfold wp in H1'.
  destruct (TaskRepository.recoverQueues _) as [[[]|e] r1]; cbn in H1'; destruct H1' as (D1 & C1 & HQ); [|naive_solver].
  assert (scanned (stored (r_db r1)) qs) as Hs1 by by rewrite D1.
  pose proof (recoverDelayed_wp qs r1 Hs1 Hsm C1) as H2'. unfold wp in H2'.
  destruct (TaskRepository.recoverDelayedCounts r1) as [[[]|e] r2]; cbn in H2'; destruct H2' as (D2 & Q2 & HC);
    [|by apply Hnf in HC].
  assert (scanned (stored (r_db r2)) qs) as Hs2 by by rewrite D2.
  assert (leases_from (stored (r_db r2)) (db_leases (r_db r2))) as Hf0.
  { rewrite D2, D1, HL. intros ? ?. by rewrite lookup_empty. }
  pose proof (recoverLeases_wp qs r2 Hs2 Hf0) as H3'. unfold wp in H3'.
  destruct (TaskRepository.recoverLeases r2) as [[[]|e] r3]; cbn in H3'; [|by apply Hnf in H3'].
  destruct H3' as (L' & -> & _). by exists (set_db (set_leases L' (r_db r2)) r2).
Qed.

(** ** The sequence counter *)

Lemma pending_seq_enc c t p s id : okq (KPending c t p s id) -> pending_seq (enc (KPending c t p s id)) = Some s.
Proof.
  intros Hok. pose proof (marker_pending _ _ _ _ _ Hok) as Hidx. destruct Hok as ((_ & _ & _ & Hs) & _).
  unfold pending_seq. rewrite Hidx. set (pre := qbase c t +:+ "pending/" +:+ String (byte p) "/").
  assert (enc (KPending c t p s id) = pre +:+ be8 s +:+ String "/" id) as ->.
  { unfold pre. cbn [enc]. by rewrite !app_assoc_s, !app_cons_s, !app_empty_s. }
  assert (String.length pre = Z.to_nat (slen pQueue + slen c + 1 + slen t + slen segPending + 1 + 1)) as Hpre.
  { unfold pre, qbase, slen. rewrite !length_app_s. cbn [String.length]. rewrite length_app_s.
    change (String.length segPending) with 9%nat. cbn [String.length]. lia. }
  rewrite <- Hpre, drop_app_s. change 8%nat with (String.length (be8 s)). rewrite take_app_s.
  assert (forall x, 0 <= slen x) as Hpos by (intros; unfold slen; lia).
  rewrite (proj2 (Z.ltb_ge _ _)) by (pose proof (Hpos c); pose proof (Hpos t); pose proof (Hpos pQueue); lia).
  rewrite (proj2 (Z.ltb_ge _ _)).
  - rewrite <- (app_nil_s (be8 s)), beUint64_be8 by done. done.
  - pose proof (Hpos c); pose proof (Hpos t); pose proof (Hpos pQueue); pose proof (Hpos segPending).
    unfold slen in *. rewrite length_app_s, Hpre, length_app_s. change (String.length (be8 s)) with 8%nat.
    cbn [String.length]. lia.
Qed.

Definition seq_max (n : Z) (k : string) : Z :=
  match pending_seq k with Some s => if n <? s then s else n | None => n end.

Lemma seq_max_ge ks n : n <= fold_left seq_max ks n.
Proof.
  revert n. induction ks as [|k ks IH]; intros n; simpl; [lia|].
  specialize (IH (seq_max n k)). unfold seq_max in *.
  destruct (pending_seq k) as [s|]; [|lia]. destruct (Z.ltb_spec n s); lia.
Qed.

Lemma seq_max_elem ks n k s : k ∈ ks -> pending_seq k = Some s -> s <= fold_left seq_max ks n.
Proof.
  revert n. induction ks as [|k' ks IH]; intros n Hin Hs; [by apply not_elem_of_nil in Hin|].
  simpl. apply elem_of_cons in Hin as [<-|Hin]; [|by apply IH].
  assert (s <= seq_max n k) by (unfold seq_max; rewrite Hs; destruct (Z.ltb_spec n s); lia).
  pose proof (seq_max_ge ks (seq_max n k)). lia.
Qed.

(** A reopened store numbers new entries above every stored pending one. *)
Lemma Open_spec (p : P) d :
  Open p = Ok d ->
  contents p = stored d /\ db_leases d = ∅ /\ db_repl d = None /\
  forall c t pr s id, pendingEntry (stored d) (KPending c t pr s id) -> s <= db_seq d.
Proof.
  unfold Open, recoverSeq, mbnd, Iter, mmod. cbn [fst snd db_pebble].
  destruct (p_iter p pQueue (prefixUpper pQueue)) as [ks|e] eqn:E; [|done]. intros [= <-].
  split_and!; [done..|]. intros c t pr s id (Hok & _ & Hsome).
  change (s <= fold_left seq_max ks 0). eapply seq_max_elem; [|by apply pending_seq_enc].
  apply p_iter_ok in E. rewrite E. apply elem_of_range_keys. split; [exact Hsome|].
  change pQueue with ("codeq/q" +:+ "/"). apply scan_prefix. apply (enc_family (KPending c t pr s id)).
Qed.
End recovery.
