(* ===== verification/System.v ===== *)
(** The whole queue on one node: the calls of the scheduler service, the
    results service and the reaper, and restarts, as events of a transition
    system over the repository object.  The theorems quantify over every
    sequence of events: a task stands in exactly one queue, the one its status
    names; a final status never changes; a restart loses no entry. *)

From S2P Require Import Prelude GoTime Domain Keys LeaseTable PebbleDB Backoff TaskRepo ResultRepo Reaper Scheduler ResultsService Invariant KeyScan Bulk RepoInv Lifecycle Sweeps BatchOps ResultInv ClaimManyInv Recovery.

(** What the rest of the system decides: conversions, generators, parsers,
    the options of the services. *)
Record environment := mkEnv {
  en_cvt : Z;
  en_seed : Z -> Z;
  en_rng : Z -> Z;
  en_url : string -> option (string * string);
  en_sched : schedulerConfig;
  en_reaper : ReaperOptions;
  en_upload : string -> string -> string -> res string;
  en_finish : list ArtifactIn -> list ArtifactIn;
  en_callback : bool
}.

Inductive event :=
  | EvCreate (newID : string) (now : Z) (cmd payload : string) (priority : Z) (webhook : string)
      (maxAttempts : Z) (idempotencyKey : string) (runAt delaySeconds : Z) (tenantID : string)
  | EvClaim (now : Z) (workerID : string) (commands : list string) (leaseSeconds waitSeconds : Z)
      (tenantID : string) (cancelled : nat -> bool)
  | EvClaimMany (now : Z) (workerID : string) (commands : list string) (leaseSeconds max : Z) (tenantID : string)
  | EvHeartbeat (now : Z) (taskID workerID : string) (extendSeconds : Z)
  | EvAbandon (now : Z) (taskID workerID : string)
  | EvNack (now : Z) (taskID workerID : string) (delaySeconds : Z) (reason : string)
  | EvSubmit (now : Z) (taskID : string) (req : SubmitResultRequest)
  | EvBatchSubmit (now : Z) (items : list BatchSubmitItem)
  | EvCleanup (now limit before : Z)
  | EvSweepLeases (order : list (string * leaseEntry) -> list (string * leaseEntry)) (now : Z)
  | EvSweepTTL (now : Z).

Definition creates (ev : event) : option string :=
  match ev with EvCreate newID _ _ _ _ _ _ _ _ _ _ => Some newID | _ => None end.

Section system.
Context {P : Type} `{PebbleLaws P} `{JSONLaws}.
Variable env : environment.
Implicit Types (r : Repo P).

(** Run a call for its effect. *)
Definition run {A} (m : M (Repo P) A) : M (Repo P) unit := m ;;! mret tt.

(** Waiting claims wait alone: what others do during a wait is covered by
    [ClaimTask_inv], and by splitting the wait into claims. *)
Definition exec (ev : event) : M (Repo P) unit :=
  match ev with
  | EvCreate newID now cmd payload priority webhook maxAttempts idem runAt delay ten =>
      run (schedulerService.CreateTask (en_url env) (en_sched env) newID now cmd payload priority webhook
             maxAttempts idem runAt delay ten)
  | EvClaim now w cmds lease wait ten cancelled =>
      run (schedulerService.ClaimTask (en_cvt env) (en_seed env) (en_sched env) (fun _ => mret tt) cancelled
             now w cmds lease wait ten)
  | EvClaimMany now w cmds lease max ten =>
      run (schedulerService.ClaimManyTasks (en_cvt env) (en_seed env) (en_sched env) now w cmds lease max ten)
  | EvHeartbeat now id w ext => run (schedulerService.Heartbeat (en_sched env) now id w ext)
  | EvAbandon now id w => run (schedulerService.Abandon now id w)
  | EvNack now id w delay reason =>
      run (schedulerService.NackTask (en_cvt env) (en_seed env) (en_rng env) (en_sched env) now id w delay reason)
  | EvSubmit now id req =>
      run (db (resultsService.Submit (en_upload env) (en_finish env) (en_callback env) now id req))
  | EvBatchSubmit now items =>
      run (db (resultsService.BatchSubmit (en_upload env) (en_finish env) (en_callback env) now items))
  | EvCleanup now limit before => run (schedulerService.CleanupExpired now limit before)
  | EvSweepLeases order now =>
      run (db (Reaper.tick (en_reaper env) (Reaper.sweepLeases (en_cvt env) (en_seed env) (en_reaper env) order now)))
  | EvSweepTTL now => run (db (Reaper.tick (en_reaper env) (Reaper.sweepTTL (en_reaper env) now)))
  end.

(** ** The events a deployment produces *)

(** A lease taken at [now] ends in a year with four digits. *)
Definition lease_ok (now leaseSeconds : Z) : Prop :=
  four_digit_year (now + seconds (schedulerService.defaultLeaseOf (en_sched env) leaseSeconds)) = true.

(** Nothing is stored under a new id. *)
Definition absent (m : gmap string string) (id : string) : Prop :=
  m !! enc (KTask id) = None /\ forall q, okq q -> qid q = Some id -> m !! enc q = None.

Definition claim_ok (commands : list string) (ten : string) : Prop :=
  Forall (fun c => seg_ok c = true) commands /\ seg_ok ten = true.

Definition allowed (ev : event) r : Prop :=
  match ev with
  | EvCreate newID now cmd _ _ _ _ _ runAt _ ten =>
      absent (stored (r_db r)) newID /\ id_ok newID = true /\ name_ok cmdSeg cmd /\ name_ok tenantSeg ten /\
      time_ok now /\ unix runAt < 2 ^ 56
  | EvClaim now _ cmds lease _ ten _ =>
      claim_ok cmds ten /\ forall x, now <= x <= now + 30 * second -> time_ok x /\ lease_ok x lease
  | EvClaimMany now _ cmds lease _ ten => claim_ok cmds ten /\ time_ok now /\ lease_ok now lease
  | EvHeartbeat now _ _ ext => time_ok now /\ lease_ok now ext
  | EvNack now _ _ _ _ | EvSubmit now _ _ | EvBatchSubmit now _ | EvSweepLeases _ now => time_ok now
  | EvAbandon _ _ _ | EvCleanup _ _ _ | EvSweepTTL _ => True
  end.

(** A process stop and start: the durable map is all that is left, the
    replicator is installed again. *)
Definition restarts r r' : Prop :=
  exists d pol b mx, Open (db_pebble (r_db r)) = Ok d /\
    TaskRepository.NewTaskRepository
      (mkDB (db_pebble d) (db_seq d) (db_repl (r_db r)) false (db_leases d)) pol b mx = Ok r'.

(** Runs: each event may succeed or fail. *)
Inductive steps : Repo P -> list event -> Repo P -> Prop :=
  | steps_refl r : steps r [] r
  | steps_exec r ev evs r' :
      allowed ev r -> steps (snd (exec ev r)) evs r' -> steps r (ev :: evs) r'
  | steps_restart r r1 evs r' : restarts r r1 -> steps r1 evs r' -> steps r evs r'.

(** A first start on an empty store. *)
Definition initial r : Prop :=
  exists d pol b mx, stored d = ∅ /\ db_leases d = ∅ /\ handle_ok d /\
    TaskRepository.NewTaskRepository d pol b mx = Ok r.

Definition reachable r : Prop := exists r0 evs, initial r0 /\ steps r0 evs r.
End system.

(** ** Preservation *)

Section preserved.
Context {P : Type} `{PebbleReads P} `{JSONLaws} `{Ghost}.
Variable env : environment.
Implicit Types (r : Repo P).

Lemma keeps_run {A} (m : M (Repo P) A) : keeps RInv m -> keeps RInv (run m).
Proof. intros Hm. apply keeps_bind; [done|]. intros _. apply keeps_ret. Qed.

Lemma CreateTask_inv newID now cmd payload prio webhook maxA idem runAt delay ten r :
  RInv r -> fresh (stored (r_db r)) newID -> id_ok newID = true -> name_ok cmdSeg cmd -> name_ok tenantSeg ten ->
  time_ok now -> unix runAt < 2 ^ 56 ->
  wp (schedulerService.CreateTask (en_url env) (en_sched env) newID now cmd payload prio webhook maxA idem
        runAt delay ten) (fun _ r' => RInv r') r.
Proof.
  intros I Hf Hid Hc Ht Hnow Hrun. unfold schedulerService.CreateTask.
  wp_step; [wp_step; exact I|]. wp_step; [wp_step; exact I|]. wp_step.
  unfold TaskRepository.EnqueueWithReady.
  apply (wp_mono _ (fun _ r' => RInv r')); [|by intros [] r' I'; [wp_step|]].
  apply EnqueueWithID_inv; try done.
  destruct (negb (is_zero runAt)); [done|]. destruct (0 <? delay); [|done].
  apply unix_lt. unfold time_ok, seconds, second in *.
  pose proof (wrap64_range (delay * 1000000000)) as Hw. unfold MinInt64, MaxInt64 in Hw. lia.
Qed.

Lemma defaultCommands_ok cmds :
  Forall (fun c => seg_ok c = true) cmds -> Forall (fun c => seg_ok c = true) (schedulerService.defaultCommands cmds).
Proof. intros Hc. destruct cmds; [by repeat constructor | done]. Qed.

(** A waiting claim, whatever the rest of the system does during its sleeps. *)
Lemma poll_inv between cancelled now0 lease cmds ten w n : forall k now deadline,
  (forall i, keeps (S := Repo P) RInv (between i)) ->
  (forall x, now0 <= x <= now0 + 30 * second -> time_ok x /\ four_digit_year (x + seconds lease) = true) ->
  w <> "" -> Forall (fun c => seg_ok c = true) cmds -> seg_ok ten = true ->
  now0 <= now <= deadline -> deadline <= now0 + 30 * second ->
  keeps RInv (schedulerService.poll (en_cvt env) (en_seed env) (en_sched env) n between cancelled k now deadline
                w cmds lease ten).
Proof.
  induction n as [|n IH]; intros k now deadline Hb Hx Hw Hc Ht Hnow Hd; simpl; [apply keeps_throw|].
  destruct (Hx now) as [Hok Hy]; [lia|].
  apply keeps_bind; [by apply Claim_inv|]. intros [t|]; [apply keeps_ret|].
  destruct (Z.leb_spec (deadline - now) 0); [apply keeps_ret|].
  apply keeps_bind; [apply keeps_try, Hb|]. intros _. destruct (cancelled k); [apply keeps_throw|].
  apply IH; try done. unfold schedulerService.pollInterval, millisecond in *.
  destruct (Z.ltb_spec (deadline - now) (250 * 1000000)); lia.
Qed.

Lemma ClaimTask_inv between cancelled now w cmds lease wait ten :
  (forall i, keeps (S := Repo P) RInv (between i)) -> claim_ok cmds ten ->
  (forall x, now <= x <= now + 30 * second -> time_ok x /\ lease_ok env x lease) ->
  keeps RInv (schedulerService.ClaimTask (en_cvt env) (en_seed env) (en_sched env) between cancelled now w cmds
                lease wait ten).
Proof.
  intros Hb [Hc Ht] Hx. unfold schedulerService.ClaimTask, lease_ok in *.
  case_bool_decide as Hw; [apply keeps_throw|]. apply defaultCommands_ok in Hc.
  destruct (Z.leb_spec wait 0).
  - destruct (Hx now) as [Hok Hy]; [unfold second; lia|]. by apply Claim_inv.
  - set (w' := if 30 <? wait then 30 else wait).
    assert (0 < w' <= 30) as Hw' by (unfold w'; destruct (Z.ltb_spec 30 wait); lia).
    assert (seconds w' = w' * second) as Hs.
    { unfold seconds. apply wrap64_id. unfold MinInt64, MaxInt64, second. lia. }
    apply poll_inv with (now0 := now); try done; rewrite Hs; unfold second; lia.
Qed.

Lemma exec_inv ev r :
  RInv r -> allowed env ev r -> (forall id st, creates ev = Some id -> ~ frozen id st) ->
  RInv (snd (exec env ev r)).
Proof.
  intros I Ha Hfz.
  assert (forall A (m : M (Repo P) A), keeps RInv m -> RInv (snd (run m r))) as Hrun
    by (intros A m Hm; by apply keeps_run).
  destruct ev; simpl in *.
  - destruct Ha as ([Hb Hq] & Hid & Hc & Ht & Hnow & Hrunat).
    unfold run. unfold mbnd. 
    pose proof (CreateTask_inv newID now cmd payload priority webhook maxAttempts idempotencyKey runAt delaySeconds
      tenantID r I ltac:(split_and!; eauto) Hid Hc Ht Hnow Hrunat) as I'. unfold wp in I'.
    by destruct (schedulerService.CreateTask _ _ _ _ _ _ _ _ _ _ _ _ _ _) as [[] r'].
  - apply Hrun. destruct Ha. apply ClaimTask_inv; try done. intros. apply keeps_ret.
  - apply Hrun. destruct Ha as ([Hc Ht] & Hnow & Hl). unfold schedulerService.ClaimManyTasks.
    case_bool_decide; [apply keeps_throw|]. destruct (max <=? 0); [apply keeps_ret|].
    apply ClaimMany_inv; try done. by apply defaultCommands_ok.
  - apply Hrun. destruct Ha. by apply Heartbeat_inv.
  - apply Hrun, Abandon_inv.
  - apply Hrun. unfold schedulerService.NackTask. case_bool_decide; [apply keeps_throw|].
    apply keeps_bind; [apply keeps_wp; intros r' I'; by eapply wp_TaskGet|]. intros t.
    repeat (apply keeps_if; [apply keeps_throw|]).
    destruct (if delaySeconds <=? 0 then _ else _); [|apply keeps_throw].
    apply keeps_bind; [by apply Nack_inv|]. intros [attempts terminal]. apply keeps_ret.
  - apply Hrun, keeps_db. intros. by apply Submit_inv.
  - apply Hrun, keeps_db. intros. by apply BatchSubmit_inv.
  - apply Hrun. apply CleanupExpired_inv.
  - apply Hrun, keeps_db. intros. apply tick_inv. by apply sweepLeases_inv.
  - apply Hrun, keeps_db. intros. apply tick_inv. by apply sweepTTL_inv.
Qed.

Lemma restart_recovers r r' : RInv r -> restarts r r' -> exists d, stored d = stored (r_db r) /\ recovered d r'.
Proof.
  intros [[I Hh] _] (d & pol & b & mx & HO & HN). apply Open_spec in HO as (Hc & HL & _ & _).
  eexists (mkDB (db_pebble d) (db_seq d) (db_repl (r_db r)) false (db_leases d)).
  split; [exact (eq_sym Hc)|]. eapply recovery_restores; [| | |exact HN]; [| exact Hh | exact HL].
  change (stored (mkDB _ _ _ _ _)) with (stored d). rewrite <- Hc. exact I.
Qed.

Lemma steps_inv r evs r' :
  steps env r evs r' -> (forall id st, frozen id st -> Forall (fun ev => creates ev <> Some id) evs) ->
  RInv r -> RInv r'.
Proof.
  induction 1 as [r|r ev evs r' Ha Hs IH|r r1 evs r' Hr Hs IH]; intros Hfz I; [done| |].
  - apply IH.
    + intros id st Hf. specialize (Hfz id st Hf). by apply Forall_cons in Hfz as [_ Hfz].
    + apply exec_inv; [done | done|]. intros id st Hc Hf. specialize (Hfz id st Hf).
      by apply Forall_cons in Hfz as [Hne _].
  - apply IH; [done|]. destruct (restart_recovers _ _ I Hr) as (d & _ & Hrec). apply Hrec.
Qed.

Lemma empty_inv : StoreInv ∅ ∅.
Proof.
  assert (forall id t, ~ live ∅ id t) as Hn by (intros id t (v & E & _); by rewrite lookup_empty in E).
  split.
  - intros k Hk. by apply lookup_empty_is_Some in Hk.
  - intros id v E. by rewrite lookup_empty in E.
  - intros id t q Hl. by apply Hn in Hl.
  - intros id t q q' Hl. by apply Hn in Hl.
  - intros id t Hl. by apply Hn in Hl.
  - intros id t Hl. by apply Hn in Hl.
  - intros id st t _ Hl. by apply Hn in Hl.
Qed.

Lemma initial_inv r : initial r -> RInv r.
Proof.
  intros (d & pol & b & mx & Hs & HL & Hh & HN).
  eapply rc_inv, recovery_restores; [|done..|exact HN]. rewrite Hs. apply empty_inv.
Qed.
End preserved.

(** ** Ghosts *)

Definition no_ghost : Ghost := {| frozen _ _ := False; frozen_final id st F := match F with end |}.

Definition freeze (id0 st0 : string) (Hst : st0 = StatusCompleted \/ st0 = StatusFailed) : Ghost :=
  {| frozen id st := id = id0 /\ st = st0;
     frozen_final id st F := match eq_sym (proj2 F) in _ = s return s = _ \/ s = _ with eq_refl => Hst end |}.

(** A task that has a final status can be frozen. *)
Lemma RInv_freeze {P} `{PebbleLaws P} `{JSONLaws} id st Hst (r : Repo P) :
  RInv (H3 := no_ghost) r -> (forall t, live (stored (r_db r)) id t -> t.(Status) = st) ->
  RInv (H3 := freeze id st Hst) r.
Proof.
  intros [[I Hh] Hi] Hl. split; [split; [|done] | done].
  destruct I as [I1 I2 I3 I4 I5 I6 _]. split; try done.
  intros i s t [-> ->]. apply Hl.
Qed.

Lemma reachable_RInv {P} `{PebbleReads P} `{JSONLaws} env (r : Repo P) : reachable env r -> RInv (H3 := no_ghost) r.
Proof. intros (r0 & evs & Hi & Hs). eapply steps_inv; [exact Hs | done | by apply initial_inv]. Qed.

(** ** A concrete run *)

Module demo.
Import framed.

Definition env0 : environment := mkEnv 0 (fun _ => 0) (fun _ => 0) (fun _ => None)
  (schedulerService.NewSchedulerService false false 60 200 5 "" 5 900)
  (Reaper.NewReaper (mkReaperOptions 0 0 0 0 "" 0 0 0 false None)) (fun _ _ _ => Ok "") (fun l => l) false.

Definition r0 : Repo memstore.store := TaskRepository.emptyRepo (mkDB (∅ : memstore.store) 0 None false ∅) "" 0 0.

(** 2023-11-14T22:13:20Z. *)
Definition t0 : Z := 1700000000 * second.

Definition create : event := EvCreate "t1" t0 "send" "body" 5 "" 3 "" zero_time 0 "acme".
Definition claim : event := EvClaim (t0 + second) "w1" ["send"] 60 0 "acme" (fun _ => false).
Definition submit : event := EvSubmit (t0 + 2 * second) "t1" (mkSubmit "w1" "COMPLETED" (Some "42") "" []).
Definition sweep : event := EvSweepLeases (fun l => l) (t0 + 100 * second).

Definition after (evs : list event) : Repo memstore.store := fold_left (fun r ev => snd (exec env0 ev r)) evs r0.

Lemma env0_handle : handle_ok (mkDB (∅ : memstore.store) 0 None false ∅).
Proof. by split. Qed.

Lemma r0_initial : initial r0.
Proof. exists (mkDB (∅ : memstore.store) 0 None false ∅), "", 0, 0. split_and!; done. Qed.

Lemma name_ok_dec seg s : seg_ok s && free (seg s) = true -> name_ok seg s.
Proof. by rewrite andb_true_iff. Qed.

Lemma create_allowed : allowed env0 create r0.
Proof.
  simpl. split_and!.
  - split; [apply lookup_empty | intros; apply lookup_empty].
  - reflexivity.
  - by apply name_ok_dec.
  - by apply name_ok_dec.
  - unfold time_ok, t0, second. lia.
  - reflexivity.
Qed.

(** The leases of the demo end on 2023-11-14. *)
Lemma lease_ok_2023 x lease : t0 <= x <= t0 + 5000 * second ->
  schedulerService.defaultLeaseOf (en_sched env0) lease = 60 -> time_ok x /\ lease_ok env0 x lease.
Proof.
  intros Hx Hl. split; [unfold time_ok, t0, second in *; lia|].
  unfold lease_ok, four_digit_year. rewrite Hl. change (seconds 60) with (60 * second).
  replace (unix (x + 60 * second) / 86400) with 19675; [reflexivity|].
  unfold unix, t0, second in *. apply Z.div_unique with ((x + 60 * 1000000000) / 1000000000 - 19675 * 86400); [|lia].
  Z.to_euclidean_division_equations. lia.
Qed.

Lemma claim_allowed r : allowed env0 claim r.
Proof.
  simpl. split; [split; [by repeat constructor | done]|]. intros x Hx.
  apply lease_ok_2023; [unfold second in *; lia | done].
Qed.

Lemma submit_allowed r : allowed env0 submit r.
Proof. simpl. unfold time_ok, t0, second. lia. Qed.

Lemma sweep_allowed r : allowed env0 sweep r.
Proof. simpl. unfold time_ok, t0, second. lia. Qed.

Lemma claimed_run : reachable env0 (after [create; claim]).
Proof.
  exists r0, [create; claim]. split; [apply r0_initial|]. constructor; [apply create_allowed|]. constructor; [apply claim_allowed | constructor].
Qed.

Lemma initial_run : reachable env0 r0.
Proof. exists r0, []. split; [apply r0_initial | constructor]. Qed.

Lemma created_run : reachable env0 (after [create]).
Proof.
  exists r0, [create]. split; [apply r0_initial|]. constructor; [apply create_allowed | constructor].
Qed.

Lemma submitted_run : reachable env0 (after [create; claim; submit]).
Proof.
  exists r0, [create; claim; submit]. split; [apply r0_initial|]. constructor; [apply create_allowed|]. constructor; [apply claim_allowed|].
  constructor; [apply submit_allowed | constructor].
Qed.

Lemma swept_run : steps env0 (after [create; claim; submit]) [sweep; claim] (after [create; claim; submit; sweep; claim]).
Proof.
  constructor; [apply sweep_allowed|]. constructor; [apply claim_allowed | constructor].
Qed.

(** A stop and a start. *)
Definition reopen (r : Repo memstore.store) : res (Repo memstore.store) :=
  match Open (db_pebble (r_db r)) with
  | Ok d => TaskRepository.NewTaskRepository
              (mkDB (db_pebble d) (db_seq d) (db_repl (r_db r)) false (db_leases d)) "" 0 0
  | Err e => Err e
  end.
Definition reopened (r : Repo memstore.store) : Repo memstore.store :=
  match reopen r with Ok r' => r' | Err _ => r end.

Lemma reopen_restarts r : is_ok (reopen r) = true -> restarts r (reopened r).
Proof.
  unfold reopened, reopen. destruct (Open _) as [d|e] eqn:E; [|done]. intros Hr.
  exists d, "", 0, 0. split; [exact E|]. by destruct (TaskRepository.NewTaskRepository _ _ _ _).
Qed.

(** The task after the claim, and after the submission. *)
Definition claimedTask : Task :=
  mkTask "t1" "send" "body" 5 "" "" "" StatusInProgress LocationInProgress "w1" "2023-11-14T22:14:21Z" 1 3 "" "" "acme"
    t0 (t0 + second).
Definition completedTask : Task :=
  mkTask "t1" "send" "body" 5 "" "" "" StatusCompleted LocationNone "" "" 1 3 "" "codeq:results" "acme" t0 (t0 + 2 * second).

(** The task as it was created. *)
Definition createdTask : Task :=
  mkTask "t1" "send" "body" 5 "" "" "" StatusPending LocationPending "" "" 0 3 "" "" "acme" t0 t0.

Lemma created_live : live (stored (r_db (after [create]))) "t1" createdTask.
Proof. eexists. split; [vm_compute; reflexivity | vm_compute; reflexivity]. Qed.

Lemma claimed_live : live (stored (r_db (after [create; claim]))) "t1" claimedTask.
Proof. eexists. split; [vm_compute; reflexivity | vm_compute; reflexivity]. Qed.

Lemma completed_live : live (stored (r_db (after [create; claim; submit]))) "t1" completedTask.
Proof. eexists. split; [vm_compute; reflexivity | vm_compute; reflexivity]. Qed.

End demo.

(** ** The properties *)

(** C1. In every reachable state a stored task stands in at most one queue,
    the one its status names (PENDING: pending or delayed; IN_PROGRESS:
    in-progress; FAILED: dead-letter), with the task's own command, tenant and
    priority in the key; a task that is not finished stands in one; an
    in-progress task has a lease in the table that a restart can rebuild. *)
Theorem reachable_one_place {P} `{PebbleReads P} `{JSONLaws} env (r : Repo P) id t :
  reachable env r -> live (stored (r_db r)) id t ->
  t.(ID) = id /\ t.(Status) ∈ statuses /\
  (forall q, entry (stored (r_db r)) id q -> place t q) /\
  (forall q q', entry (stored (r_db r)) id q -> entry (stored (r_db r)) id q' -> q = q') /\
  (open_status t -> exists q, entry (stored (r_db r)) id q) /\
  (t.(Status) = StatusInProgress -> is_Some (db_leases (r_db r) !! id) /\ recoverable t).
Proof.
  intros [[I _] _]%reachable_RInv Hl.
  destruct (live_good _ _ _ _ I Hl) as [Hid _ _ _ Hst Hle]. split_and!; try done.
  - intros q. by apply (inv_place _ _ I).
  - intros q q'. by apply (inv_one _ _ I id t).
  - by apply (inv_some _ _ I).
  - intros E. split; [by apply (inv_lease _ _ I id t) | by apply Hle].
Qed.

Lemma reachable_one_place_witness :
  exists q, entry (stored (r_db (demo.after [demo.create; demo.claim]))) "t1" q /\ place demo.claimedTask q.
Proof.
  destruct (reachable_one_place (H3 := framed.codec_laws) demo.env0 _ "t1" demo.claimedTask
    demo.claimed_run) as (_ & _ & Hp & _ & Ho & _).
  - eexists. split; [vm_compute; reflexivity | vm_compute; reflexivity].
  - destruct Ho as [q Hq]; [by right|]. exists q. split; [exact Hq | by apply Hp].
Defined.

(** C2. COMPLETED and FAILED are absorbing: once a task has a final status,
    no sequence of calls, sweeps and restarts that does not issue its id again
    changes it, for as long as the task is stored. *)
Theorem final_status_absorbing {P} `{PebbleReads P} `{JSONLaws} env (r r' : Repo P) evs id t t' :
  reachable env r -> live (stored (r_db r)) id t ->
  t.(Status) = StatusCompleted \/ t.(Status) = StatusFailed ->
  steps env r evs r' -> Forall (fun ev => creates ev <> Some id) evs ->
  live (stored (r_db r')) id t' -> t'.(Status) = t.(Status).
Proof.
  intros I%reachable_RInv Hl Hfin Hs' Hnew Hl'.
  assert (RInv (H3 := freeze id t.(Status) Hfin) r) as If.
  { apply RInv_freeze; [exact I|]. intros t1 Hl1. by rewrite (live_fun _ _ _ _ Hl1 Hl). }
  assert (RInv (H3 := freeze id t.(Status) Hfin) r') as [[I' _] _].
  { eapply steps_inv; [exact Hs' | | exact If]. by intros i st [-> _]. }
  by apply (inv_frozen _ _ I' id).
Qed.

Lemma final_status_absorbing_witness :
  demo.completedTask.(Status) = StatusCompleted.
Proof.
  refine (final_status_absorbing (H3 := framed.codec_laws) demo.env0 _ _ _ "t1"
    demo.completedTask demo.completedTask demo.submitted_run _ _ demo.swept_run _ _).
  - eexists. split; [vm_compute; reflexivity | vm_compute; reflexivity].
  - by left.
  - by repeat constructor.
  - eexists. split; [vm_compute; reflexivity | vm_compute; reflexivity].
Defined.

(** C3. A stop and a start in any reachable state leaves the stored map as it
    is; afterwards each claim channel holds exactly the pending entries of its
    queue, in the order of their sequence numbers, and every in-progress task
    has the lease its stored body records (worker, command, tenant and end). *)
Theorem restart_preserves {P} `{PebbleReads P} `{JSONLaws} env (r r1 : Repo P) :
  reachable env r -> restarts r r1 ->
  stored (r_db r1) = stored (r_db r) /\
  (forall c t p h, seg_ok c = true -> seg_ok t = true ->
     h ∈ channel r1 (qname c t p) <-> pendingEntry (stored (r_db r)) (hintKey c t p h)) /\
  (forall c t p, seg_ok c = true -> seg_ok t = true ->
     StronglySorted (fun h h' => h_seq h <= h_seq h') (channel r1 (qname c t p)) /\ NoDup (channel r1 (qname c t p))) /\
  (forall id t, live (stored (r_db r)) id t -> t.(Status) = StatusInProgress ->
     exists e, db_leases (r_db r1) !! id = Some e /\ leaseOf t = Some e).
Proof.
  intros I%reachable_RInv Hr.
  destruct (restart_recovers _ _ I Hr) as (d & Hd & [Ir Hst Hch Hso Hle]). rewrite Hd in *.
  split_and!; try done. intros c t p Hc Ht. split; [by apply Hso|].
  unfold channel. destruct (r_queues r1 !! qname c t p) as [l|] eqn:E; [|constructor].
  by apply (hi_nodup _ _ _ (proj2 Ir) _ _ E).
Qed.

Lemma restart_preserves_witness :
  mkHint 1 "t1" ∈ channel (demo.reopened (demo.after [demo.create])) (qname "send" "acme" 5).
Proof.
  destruct (restart_preserves (H3 := framed.codec_laws) demo.env0 (demo.after [demo.create])
    (demo.reopened (demo.after [demo.create])) demo.created_run) as (_ & Hch & _).
  - apply demo.reopen_restarts. vm_compute. reflexivity.
  - apply Hch; [reflexivity..|]. split_and!; [|reflexivity|].
    + split; [|split; [reflexivity|]]; [|by split_and!]. cbn. unfold uint64, two64. split_and!; try done; lia.
    + vm_compute. by eexists.
Defined.
