(* ===== verification/Effects.v ===== *)
(** What each call does to the queue, beyond keeping the invariant: the
    abstract effect of a call on one task is [moved] (its new state, the one
    queue it now stands in, everything else as before), and the theorems say
    which effect each call has on each of its branches. *)

From S2P Require Import Prelude GoTime Domain Keys LeaseTable PebbleDB Backoff TaskRepo ResultRepo Reaper Scheduler ResultsService Invariant KeyScan Bulk RepoInv Lifecycle Sweeps BatchOps ResultInv ClaimManyInv Recovery System.

Section moved.
Context `{JSONLaws} `{Ghost}.
Implicit Types (m : gmap string string) (L : gmap string leaseEntry).

(** The abstract effect: task [id] is now [t'] and stands in [oq] only; every
    other task and its entries are as before. *)
Record moved m m' (id : string) (t' : Task) (oq : option qkey) : Prop := {
  mv_live : live m' id t';
  mv_entry : forall q, entry m' id q <-> oq = Some q;
  mv_other_live : forall i t, i <> id -> live m' i t <-> live m i t;
  mv_other_entry : forall i q, i <> id -> entry m' i q <-> entry m i q
}.

Lemma mover_moved m L L' id t q0 oq t' tb :
  StoreInv m L -> live m id t -> entry m id q0 -> mover L' id q0 oq t' tb ->
  moved m (apply_batch (map op_of tb) m) id t' oq.
Proof.
  intros I Hl He Hm.
  assert (forall q, okq q -> apply_batch (map op_of tb) m !! enc q = tlook tb q (m !! enc q)) as Hlook.
  { intros q [Hw _]. apply lookup_typed; [done | apply typed_wf, Hm]. }
  split.
  - exists (marshal_task t'). rewrite Hlook by apply okq_task. rewrite (mo_body _ _ _ _ _ _ Hm).
    by rewrite task_roundtrip.
  - intros q. split.
    + intros (Hok & Hq & Hs). rewrite Hlook in Hs by done.
      destruct (decide (q = q0)) as [->|Hne]; [by rewrite (mo_from _ _ _ _ _ _ Hm) in Hs; destruct Hs|].
      destruct (decide (oq = Some q)) as [|Ho]; [done|]. exfalso. apply Hne.
      rewrite (mo_rest _ _ _ _ _ _ Hm) in Hs by done.
      apply (inv_one _ _ I id t); [done | by split_and! | done].
    + intros ->. by eapply mover_arrives.
  - intros i t1 Hi. eapply live_other; [apply Hm | apply Hm | done].
  - intros i q Hi. eapply entry_other; [apply Hm | apply Hm | done].
Qed.

(** Only the body of [id] changed. *)
Record rewritten m m' (id : string) (t' : Task) : Prop := {
  rw_live : live m' id t';
  rw_entry : forall i q, entry m' i q <-> entry m i q;
  rw_other : forall i t, i <> id -> live m' i t <-> live m i t
}.

Lemma rewritten_intro m id t' tb :
  typed tb -> Forall (fun o => qid (fst o) = None /\ about id (fst o)) tb ->
  (forall v, tlook tb (KTask id) v = Some (marshal_task t')) ->
  rewritten m (apply_batch (map op_of tb) m) id t'.
Proof.
  intros Htb Hab Hb.
  assert (Forall (fun o => about id (fst o)) tb) as Ha by (eapply Forall_impl; [exact Hab | by intros o []]).
  split.
  - exists (marshal_task t'). rewrite lookup_typed by auto using typed_wf, wf_task. by rewrite Hb, task_roundtrip.
  - intros i q. unfold entry. split; intros (Hok & Hq & Hs); (split; [done|]; split; [done|]);
      rewrite lookup_typed in * by (auto using typed_wf with codeq);
      (rewrite tlook_notin in *; [done|]); intros o Ho <-; rewrite Forall_forall in Hab;
      destruct (Hab o Ho) as [Hn _]; congruence.
  - intros i t Hi. by eapply live_other.
Qed.

Lemma rewritten_moved m m1 m2 id t1 t2 oq :
  rewritten m m1 id t1 -> moved m1 m2 id t2 oq -> moved m m2 id t2 oq.
Proof.
  intros [_ He Hl] [Hl2 He2 Ho Hoe]. split; [done | done | |].
  - intros i t Hi. by rewrite Ho, Hl.
  - intros i q Hi. by rewrite Hoe, He.
Qed.
End moved.

Section effects.
Context {P : Type} `{PebbleReads P} `{JSONLaws} `{Ghost}.
Implicit Types (d : DB P) (r : Repo P).

(** A read of a stored task. *)
Lemma wp_GetLive id t (Q : res Task -> Repo P -> Prop) r :
  live (stored (r_db r)) id t -> Q (Ok t) r -> wp (TaskRepository.Get id) Q r.
Proof.
  intros (v & Hv & Hu) HQ. unfold TaskRepository.Get. wp_step. wp_step.
  apply wp_db_Get_reads; rewrite KeyTask_enc; [|congruence].
  intros v' Hv'. rewrite Hv in Hv'. injection Hv' as <-.
  unfold TaskRepository.decode. rewrite Hu. by wp_step.
Qed.

Lemma own_guard w t :
  bool_decide (w <> "") && bool_decide (WorkerID t <> w) = false -> w = "" \/ t.(WorkerID) = w.
Proof. intros [E|E]%andb_false_iff; apply bool_decide_eq_false_1, dec_stable in E; auto. Qed.

Lemma Nack_effect_wp now id w delay maxA reason r :
  RInv r -> time_ok now ->
  wp (TaskRepository.Nack now id w delay maxA reason) (fun x r' =>
    match x with
    | Err _ => r' = r
    | Ok (dl, dead) => exists t, live (stored (r_db r)) id t /\
        (w = "" \/ t.(WorkerID) = w) /\ t.(Status) = StatusInProgress /\
        let t1 := TaskRepository.charge maxA t in
        let c := cmdSeg t.(Command) in let ten := tenantSeg t.(TenantID) in
        let delay' := if delay <? 0 then 0 else delay in
        dead = (t1.(MaxAttempts) <=? t1.(Attempts)) /\ dl = (if dead then 0 else delay') /\
        moved (stored (r_db r)) (stored (r_db r')) id
          (if dead then TaskRepository.to_dlq now (if bool_decide (reason = "") then "MAX_ATTEMPTS" else reason) t1
           else TaskRepository.to_delayed now t1)
          (Some (if dead then KDLQ c ten id else KDelayed c ten (unixSeconds (now + seconds delay')) id)) /\
        db_leases (r_db r') = delete id (db_leases (r_db r)) /\ r_queues r' = r_queues r
    end) r.
Proof.
  intros I Hnow. unfold TaskRepository.Nack. wp_step.
  eapply wp_TaskGet; [exact I | | done]. intros t Hl G.
  destruct (bool_decide (w <> "") && bool_decide (WorkerID t <> w)) eqn:Hown; [by wp_step|].
  destruct (bool_decide (Status t <> StatusInProgress)) eqn:Hst; [by wp_step|].
  apply bool_decide_eq_false_1, dec_stable in Hst.
  pose proof (own_guard _ _ Hown) as Hw.
  pose proof (inprog_entry _ _ _ _ (proj1 (proj1 I)) Hl Hst) as He.
  pose proof (charge_good maxA _ _ G) as Gc. destruct (charge_restated maxA t) as (_ & Ec & Et & _).
  rewrite <- Ec, <- Et in *. set (tc := TaskRepository.charge maxA t) in *.
  destruct (MaxAttempts tc <=? Attempts tc) eqn:Hmax; wp_step;
    (apply wp_db_Commit; [apply I | | by intros]); intros d' Hc; autorewrite with keys in Hc; wp_step; rstep.
  - wp_step. exists t. cbv zeta. fold tc. rewrite <- Ec, <- Et. split_and!; try done; cbn [r_db set_db]; rewrite ?stored_leases.
    + rewrite (co_stored _ _ _ Hc). exact (mover_moved _ _ _ _ _ _ _ _ _ (proj1 (proj1 I)) Hl He
        (to_dlq ∅ _ _ (TaskRepository.to_dlq now _ tc) Gc ltac:(done))).
    + cbn. by rewrite (co_leases _ _ _ Hc).
  - wp_step. rstep. wp_step. exists t. cbv zeta. fold tc. rewrite <- Ec, <- Et. split_and!; try done; cbn [r_db set_db set_delayed]; rewrite ?stored_leases.
    + rewrite (co_stored _ _ _ Hc). exact (mover_moved _ _ _ _ _ _ _ _ _ (proj1 (proj1 I)) Hl He
        (to_delayed ∅ _ _ (TaskRepository.to_delayed now tc) _ Gc ltac:(done) (score_add _ _ Hnow))).
    + cbn. by rewrite (co_leases _ _ _ Hc).
Qed.

Lemma wp_db_NextSeq_eq (Q : res Z -> Repo P -> Prop) r :
  Q (Ok (wrapu64 (db_seq (r_db r) + 1))) (set_db (set_seq (wrapu64 (db_seq (r_db r) + 1)) (r_db r)) r) ->
  wp (db NextSeq) Q r.
Proof. done. Qed.

(** The state after a hint is sent to channel [k]. *)
Definition published (k : string) (h : pendingHint) r : Repo P :=
  if Z.of_nat (length (channel r k)) <? channelBufferSize
  then set_queues (<[k := channel r k ++ [h]]> (r_queues r)) r else r.

Lemma wp_publish_eq cmd ten p s id (Q : res unit -> Repo P -> Prop) r :
  Q (Ok tt) (published (queueKey cmd ten p) (mkHint s id) r) -> wp (publishPending cmd ten p s id) Q r.
Proof. unfold wp, publishPending, mbnd, send, published. by destruct (_ <? _). Qed.

Lemma published_db k h r : r_db (published k h r) = r_db r.
Proof. unfold published. by destruct (_ <? _). Qed.

Lemma published_tail k h r :
  Z.of_nat (length (channel r k)) < channelBufferSize -> channel (published k h r) k = channel r k ++ [h].
Proof.
  intros Hl. unfold published. rewrite (proj2 (Z.ltb_lt _ _) Hl). unfold channel at 1. simpl.
  by rewrite lookup_insert_eq.
Qed.

Lemma Abandon_effect_wp now id w r :
  RInv r ->
  wp (TaskRepository.Abandon now id w) (fun x r' =>
    match x with
    | Err _ => stored (r_db r') = stored (r_db r) /\ db_leases (r_db r') = db_leases (r_db r) /\ r_queues r' = r_queues r
    | Ok _ => exists t, live (stored (r_db r)) id t /\ (w = "" \/ t.(WorkerID) = w) /\ t.(Status) = StatusInProgress /\
        let p := normalizePriority t.(Priority) in
        let seq := wrapu64 (db_seq (r_db r) + 1) in
        moved (stored (r_db r)) (stored (r_db r')) id (TaskRepository.abandoned now t)
          (Some (KPending (cmdSeg t.(Command)) (tenantSeg t.(TenantID)) p seq id)) /\
        db_leases (r_db r') = delete id (db_leases (r_db r)) /\
        let k := queueKey t.(Command) t.(TenantID) p in
        (Z.of_nat (length (channel r k)) < channelBufferSize -> channel r' k = channel r k ++ [mkHint seq id])
    end) r.
Proof.
  intros I. unfold TaskRepository.Abandon. wp_step. eapply wp_TaskGet; [exact I | | done]. intros t Hl G.
  destruct (bool_decide (w <> "") && bool_decide (WorkerID t <> w)) eqn:Hown; [by wp_step|].
  destruct (bool_decide (Status t <> StatusInProgress)) eqn:Hst; [by wp_step|].
  apply bool_decide_eq_false_1, dec_stable in Hst. pose proof (own_guard _ _ Hown) as Hw.
  pose proof (inprog_entry _ _ _ _ (proj1 (proj1 I)) Hl Hst) as He.
  wp_step. apply wp_db_NextSeq_eq. set (n := wrapu64 (db_seq (r_db r) + 1)).
  assert (uint64 n) as Hn by apply wrapu64_range.
  wp_step. set (r1 := set_db (set_seq n (r_db r)) r).
  apply wp_db_Commit; [apply I | | by intros]. intros d' Hc. autorewrite with keys in Hc.
  wp_step. rstep. apply wp_publish_eq. exists t. cbv zeta.
  set (r2 := set_db _ _). assert (forall k, channel r2 k = channel r k) as Hch by done.
  split_and!; try done.
  - rewrite published_db. change (stored (r_db r2)) with (stored d'). rewrite (co_stored _ _ _ Hc).
    exact (mover_moved _ _ _ _ _ _ _ _ _ (proj1 (proj1 I)) Hl He
      (to_pending ∅ _ _ (TaskRepository.abandoned now t) _ n G ltac:(done) (proj1 He) (proj1 (proj2 He))
         ltac:(done) ltac:(done) Hn)).
  - rewrite published_db. cbn. by rewrite (co_leases _ _ _ Hc).
  - intros Hlen. apply (published_tail _ _ r2). by rewrite Hch.
Qed.

(** ** Claims *)

Lemma completeClaim_effect now w cmd ten p lease s id t r :
  time_ok now -> w <> "" -> four_digit_year (now + seconds lease) = true ->
  RInvH [KPending (cmdSeg cmd) (tenantSeg ten) p s id] r -> live (stored (r_db r)) id t ->
  let t' := TaskRepository.claimed now w (FormatRFC3339 (now + seconds lease)) t in
  wp (TaskRepository.completeClaim now w cmd ten p lease s id) (fun x r' =>
    r_queues r' = r_queues r /\
    match x with
    | Err _ => stored (r_db r') = stored (r_db r)
    | Ok o => o = Some t' /\
        moved (stored (r_db r)) (stored (r_db r')) id t' (Some (KInprog (cmdSeg cmd) (tenantSeg ten) id)) /\
        db_leases (r_db r') = <[id := mkLease w cmd ten (unix (now + seconds lease))]> (db_leases (r_db r))
    end) r.
Proof.
  intros Hnow Hw Hy [[I Hr] Hh] Hl t'.
  assert (pendingEntry (stored (r_db r)) (KPending (cmdSeg cmd) (tenantSeg ten) p s id)) as He.
  { pose proof (hi_held _ _ _ Hh) as Hf. rewrite Forall_singleton in Hf. exact Hf. }
  pose proof (live_good _ _ _ _ I Hl) as G. destruct Hl as (v & Hv & Hu).
  assert (live (stored (r_db r)) id t) as Hl by (by exists v).
  destruct (pending_place _ _ _ _ _ _ _ _ I Hl He) as (Hst & Hc1 & Ht1 & Hp1).
  unfold TaskRepository.completeClaim. wp_step. wp_step. autorewrite with keys.
  apply wp_db_Get_reads; [|congruence]. intros v' Hv'. rewrite Hv in Hv'. injection Hv' as <-.
  rewrite Hu. cbv beta iota. rewrite bool_decide_eq_false_2 by tauto.
  wp_step. apply wp_wrap. apply wp_db_Commit; [done | | done]. intros d' Hc.
  autorewrite with keys in Hc. wp_step. rstep. wp_step. fold t'.
  assert (uint64 s) as Hs by (destruct He as ((Hwf & _) & _); simpl in Hwf; tauto).
  split; [done|]. split; [done|]. rewrite Hc1, Ht1, Hp1 in *. split.
  - change (stored (r_db _)) with (stored d') at 2. rewrite (co_stored _ _ _ Hc).
    assert (recoverable t') as Hrec by (split; [done | by apply leaseUntil_ok]).
    exact (mover_moved _ _ _ _ _ _ _ _ _ I Hl He
      (to_inprog (<[id := mkLease "" "" "" 0]> ∅) id t t' _ s _ G ltac:(done) Hrec (normalizePriority_range _) Hs
         (score_retention _ Hnow) ltac:(rewrite lookup_insert_eq; by eexists))).
  - cbn. by rewrite (co_leases _ _ _ Hc).
Qed.

Lemma tryPop_empty now w cmd p lease ten r :
  channel r (queueKey cmd ten p) = [] -> TaskRepository.tryPopPriority now w cmd p lease ten r = (Ok None, r).
Proof.
  intros E. unfold TaskRepository.tryPopPriority, mbnd, recv. by rewrite E.
Qed.

Lemma popPriorities_skip pre ps now w cmd lease ten r :
  (forall p, p ∈ pre -> channel r (queueKey cmd ten p) = []) ->
  TaskRepository.popPriorities (pre ++ ps) now w cmd lease ten r =
  TaskRepository.popPriorities ps now w cmd lease ten r.
Proof.
  induction pre as [|p pre IH]; intros Hpre; [done|]. cbn [app TaskRepository.popPriorities].
  unfold mbnd at 1. rewrite tryPop_empty by (apply Hpre, list_elem_of_here).
  apply IH. intros q Hq. apply Hpre. by apply list_elem_of_further.
Qed.

(** A claim takes the head of the first channel that is not empty. *)
Lemma claim_head_wp now w cmd lease ten p h rest t r :
  RInv r -> time_ok now -> w <> "" -> four_digit_year (now + seconds lease) = true ->
  seg_ok cmd = true -> seg_ok ten = true -> 0 <= p <= 9 ->
  channel r (queueKey cmd ten p) = h :: rest ->
  (forall p', p < p' <= 9 -> channel r (queueKey cmd ten p') = []) ->
  live (stored (r_db r)) (h_id h) t ->
  let t' := TaskRepository.claimed now w (FormatRFC3339 (now + seconds lease)) t in
  wp (TaskRepository.popFromAnyPriority now w cmd lease ten) (fun x r' =>
    r_queues r' = <[queueKey cmd ten p := rest]> (r_queues r) /\
    match x with
    | Err _ => stored (r_db r') = stored (r_db r)
    | Ok o => o = Some t' /\
        moved (stored (r_db r)) (stored (r_db r')) (h_id h) t' (Some (KInprog (cmdSeg cmd) (tenantSeg ten) (h_id h))) /\
        db_leases (r_db r') !! h_id h = Some (mkLease w cmd ten (unix (now + seconds lease)))
    end) r.
Proof.
  intros I Hnow Hw Hy Hc Ht Hp Hch Hhi Hl t'.
  assert (exists pre post, priorities = pre ++ p :: post /\ forall p', p' ∈ pre -> p < p' <= 9) as (pre & post & E & Hpre).
  { exists (List.filter (fun q => p <? q) priorities), (List.filter (fun q => q <? p) priorities).
    split; [|intros p' [Hin Hlt]%list_elem_of_In%filter_In; apply Z.ltb_lt in Hlt;
             unfold priorities in Hin; simpl in Hin; lia].
    assert (p ∈ [0;1;2;3;4;5;6;7;8;9]) as Hin by (rewrite !elem_of_cons; lia).
    rewrite !elem_of_cons, elem_of_nil in Hin. destruct_or?; subst; done. }
  unfold TaskRepository.popFromAnyPriority. rewrite E. unfold wp.
  rewrite popPriorities_skip by (intros p' Hp'; apply Hhi, Hpre, Hp').
  change (wp (TaskRepository.popPriorities (p :: post) now w cmd lease ten) (fun x r' =>
    r_queues r' = <[queueKey cmd ten p := rest]> (r_queues r) /\
    match x with
    | Err _ => stored (r_db r') = stored (r_db r)
    | Ok o => o = Some t' /\
        moved (stored (r_db r)) (stored (r_db r')) (h_id h) t' (Some (KInprog (cmdSeg cmd) (tenantSeg ten) (h_id h))) /\
        db_leases (r_db r') !! h_id h = Some (mkLease w cmd ten (unix (now + seconds lease)))
    end) r).
  cbn [TaskRepository.popPriorities]. wp_step. unfold TaskRepository.tryPopPriority. wp_step.
  destruct I as [Hd Hh]. apply wp_recv; [congruence|]. intros h' q Hq.
  unfold channel in Hch. rewrite Hq in Hch. simpl in Hch. injection Hch as -> ->.
  eapply wp_mono; [apply (completeClaim_effect now w cmd ten p lease (h_seq h) (h_id h) t); try done|].
  - split; [exact Hd|]. cbn [r_queues set_queues r_db]. rewrite queueKey_qname in *.
    apply (HintInv_pop _ _ _ _ _ _ _ _ Hh Hq); [by rewrite seg_ok_cmd | by apply seg_ok_tenant].
  - intros [o|e] r' [Hqs Hx]; [|by split]. destruct Hx as (-> & Hm & Hle). wp_step.
    split; [done|]. split; [done|]. split; [done|]. rewrite Hle. apply lookup_insert_eq.
Qed.

(** ** Enqueue *)

Lemma enqueue_moved m id t e q1 idem :
  fresh m id -> good_task id t -> okq q1 -> place t q1 -> uint64 e ->
  let m' := apply_batch (map op_of (enqueue_ops id t e q1 idem)) m in
  moved m m' id t (Some q1) /\ (idem <> "" -> m' !! enc (KIdempo idem) = Some id).
Proof.
  intros (Hb & Hf & _) G Hok Hp He m'.
  assert (qid q1 = Some id) as Hq by (rewrite (place_qid _ _ Hp); f_equal; apply G).
  destruct (enqueue_ops_ok id t e q1 idem Hok Hq He (gt_idok _ _ G)) as [Htb Hab].
  assert (forall q, wf_qkey q -> m' !! enc q = tlook (enqueue_ops id t e q1 idem) q (m !! enc q)) as Hlook.
  { intros q Hw. apply lookup_typed; [done | by apply typed_wf]. }
  split; [split|].
  - exists (marshal_task t). rewrite task_roundtrip, Hlook by done. split; [|done]. unfold enqueue_ops.
    destruct q1; try done; case_bool_decide; solve_tlook.
  - intros q. split.
    + intros (Hok' & Hq' & Hs). destruct (decide (q = q1)) as [->|Hne]; [done|].
      rewrite Hlook in Hs by apply Hok'. rewrite tlook_notin, (Hf q) in Hs; [by destruct Hs | done | done|].
      intros o Ho <-. unfold enqueue_ops in Ho.
      case_bool_decide; simpl in Ho; rewrite ?elem_of_cons, ?elem_of_nil in Ho;
        destruct_or?; subst; simpl in *; done.
    + intros [= <-]. split; [done|]. split; [done|]. rewrite Hlook by apply Hok. unfold enqueue_ops.
      destruct q1; try done; case_bool_decide; solve_tlook.
  - intros i t1 Hi. by eapply live_other.
  - intros i q Hi. by eapply entry_other.
  - intros Hi. rewrite Hlook by done. unfold enqueue_ops. rewrite bool_decide_false by done.
    destruct q1; try done; solve_tlook.
Qed.

Lemma idempoLookup_eq idem r :
  RInv r ->
  TaskRepository.idempoLookup idem r =
  (if bool_decide (idem = "") then Ok None
   else match stored (r_db r) !! enc (KIdempo idem) with
        | Some id => Ok (stored (r_db r) !! enc (KTask id) ≫= unmarshal_task)
        | None => Ok None
        end, r).
Proof.
  intros [[I _] _]. unfold TaskRepository.idempoLookup, TaskRepository.Get, mbnd, mtry, db, mlift, PebbleDB.Get.
  case_bool_decide; [done|]. rewrite !p_get_total. change (contents (db_pebble (r_db r))) with (stored (r_db r)).
  rewrite set_db_id. change (KeyIdempo idem) with (enc (KIdempo idem)).
  destruct (stored (r_db r) !! enc (KIdempo idem)) as [id|]; [|done]. cbv beta iota.
  change (KeyTask id) with (enc (KTask id)). rewrite p_get_total.
  change (contents (db_pebble (r_db r))) with (stored (r_db r)). rewrite set_db_id.
  destruct (stored (r_db r) !! enc (KTask id)) as [v|] eqn:Ev; [|done]. cbv beta iota. simpl.
  destruct (inv_body _ _ I _ _ Ev) as (t & Hu & _). unfold TaskRepository.decode. by rewrite Hu.
Qed.

(** The queue key a new task goes to. *)
Definition enqueuedAt (now : Z) (id cmd : string) (priority visibleAt : Z) (ten : string) (seq : Z) : qkey :=
  if negb (is_zero visibleAt) && (now <? visibleAt)
  then KDelayed (cmdSeg cmd) (tenantSeg ten) (unixSeconds visibleAt) id
  else KPending (cmdSeg cmd) (tenantSeg ten) (normalizePriority priority) seq id.

Lemma normalizePriority_idem p : normalizePriority (normalizePriority p) = normalizePriority p.
Proof.
  unfold normalizePriority, minPriority, maxPriority.
  destruct (p <? 0) eqn:E1, (9 <? p) eqn:E2; simpl; rewrite ?E1, ?E2; done.
Qed.

Lemma Enqueue_effect_wp now id cmd payload prio webhook maxA idem visibleAt ten r :
  RInv r -> fresh (stored (r_db r)) id -> id_ok id = true -> name_ok cmdSeg cmd -> name_ok tenantSeg ten ->
  time_ok now -> unix visibleAt < 2 ^ 56 -> TaskRepository.idempoLookup idem r = (Ok None, r) ->
  let delayed := negb (is_zero visibleAt) && (now <? visibleAt) in
  let t := TaskRepository.newTask now id cmd payload (normalizePriority prio) webhook maxA ten delayed in
  let seq := wrapu64 (db_seq (r_db r) + 1) in
  let k := queueKey cmd ten (normalizePriority prio) in
  wp (TaskRepository.EnqueueWithID now id cmd payload prio webhook maxA idem visibleAt ten) (fun x r' =>
    match x with
    | Err _ => stored (r_db r') = stored (r_db r) /\ r_queues r' = r_queues r /\ r_delayed r' = r_delayed r
    | Ok y => y = (t, negb delayed) /\
        moved (stored (r_db r)) (stored (r_db r')) id t (Some (enqueuedAt now id cmd prio visibleAt ten seq)) /\
        (idem <> "" -> stored (r_db r') !! enc (KIdempo idem) = Some id) /\
        if delayed then r_queues r' = r_queues r /\ delayedCounter cmd ten r' = delayedCounter cmd ten r + 1
        else Z.of_nat (length (channel r k)) < channelBufferSize -> channel r' k = channel r k ++ [mkHint seq id]
    end) r.
Proof.
  intros I Hf Hid Hc Ht Hnow Hvis Hlk delayed t seq k. unfold TaskRepository.EnqueueWithID. wp_step.
  unfold wp at 1. rewrite Hlk. cbn [fst snd]. fold delayed. cbv zeta. fold t.
  pose proof (normalizePriority_range prio) as Hp.
  assert (good_task id t) as G by (split; try done; unfold t, statuses; simpl; rewrite elem_of_cons; by left).
  pose proof (score_retention _ Hnow) as Hret. assert (uint64 seq) as Hseq by apply wrapu64_range.
  unfold enqueuedAt. fold delayed. destruct delayed eqn:Ed.
  - wp_step. wp_step. wp_step. apply wp_wrap. apply wp_db_Commit; [apply I | | done].
    intros d' Hco. autorewrite with keys in Hco. rewrite enqueue_batch in Hco. wp_step. rstep. wp_step.
    destruct (enqueue_moved (stored (r_db r)) id t _ (KDelayed (cmdSeg cmd) (tenantSeg ten) (unixSeconds visibleAt) id) idem Hf G
      (okq_delayed _ _ _ _ Hc Ht (score_ok _ Hvis) Hid) ltac:(done) Hret) as [Hm Hi].
    rewrite <- (co_stored _ _ _ Hco) in Hm, Hi. split_and!; try done.
    unfold delayedCounter at 1. cbn [r_delayed set_delayed set_db]. by rewrite lookup_insert_eq.
  - wp_step. apply wp_db_NextSeq_eq. fold seq. set (r1 := set_db (set_seq seq (r_db r)) r).
    wp_step. apply wp_wrap. apply wp_db_Commit; [apply I | | done].
    intros d' Hco. autorewrite with keys in Hco. rewrite enqueue_batch in Hco. wp_step.
    apply wp_publish_eq. wp_step.
    destruct (enqueue_moved (stored (r_db r)) id t _
      (KPending (cmdSeg cmd) (tenantSeg ten) (normalizePriority prio) seq id) idem Hf G
      (okq_pending _ _ _ _ _ Hc Ht Hp Hseq Hid)
      ltac:(split_and!; try done; cbn; by rewrite normalizePriority_idem) Hret) as [Hm Hi].
    change (stored (r_db r)) with (stored (r_db r1)) in Hm, Hi.
    rewrite <- (co_stored _ _ _ Hco) in Hm, Hi. rewrite published_db. split_and!; try done.
    intros Hl. by apply (published_tail _ _ (set_db d' r1)).
Qed.

(** The second enqueue under a key finds the first task. *)
Lemma Enqueue_hit idem id t now id2 cmd payload prio webhook maxA visibleAt ten r :
  RInv r -> idem <> "" -> stored (r_db r) !! enc (KIdempo idem) = Some id -> live (stored (r_db r)) id t ->
  TaskRepository.EnqueueWithID now id2 cmd payload prio webhook maxA idem visibleAt ten r = (Ok (t, false), r).
Proof.
  intros I Hi Hk (v & Hv & Hu). unfold TaskRepository.EnqueueWithID, mbnd. rewrite idempoLookup_eq by done.
  rewrite bool_decide_false, Hk, Hv by done. simpl. by rewrite Hu.
Qed.

(** ** Heartbeat *)

Lemma Heartbeat_effect_wp now id w ext r :
  RInv r -> time_ok now ->
  wp (TaskRepository.Heartbeat now id w ext) (fun x r' =>
    r_queues r' = r_queues r /\
    match x with
    | Err _ => r' = r
    | Ok _ => exists t, live (stored (r_db r)) id t /\ t.(WorkerID) = w /\
        rewritten (stored (r_db r)) (stored (r_db r')) id
          (set_LastKnownLocation LocationInProgress (set_UpdatedAt now
             (set_LeaseUntil (FormatRFC3339 (now + seconds ext)) t))) /\
        db_leases (r_db r') = snd (leaseTable.Extend id w (unix (now + seconds ext)) (db_leases (r_db r)))
    end) r.
Proof.
  intros I Hnow. unfold TaskRepository.Heartbeat. wp_step.
  eapply wp_TaskGet; [exact I | | done]. intros t Hl G.
  destruct (bool_decide (WorkerID t <> w)) eqn:Hw; [by wp_step|].
  apply bool_decide_eq_false_1, dec_stable in Hw.
  wp_step. apply wp_db_Commit; [apply I | | done]. intros d' Hc. autorewrite with keys in Hc. rstep.
  split; [done|]. exists t. split; [done|]. split; [done|].
  set (t' := set_LastKnownLocation _ _) in *. set (e := unixSeconds _) in Hc.
  change (committed (map op_of [(KTask id, Some (marshal_task t')); (KTTL e id, Some "")]) (r_db r) d') in Hc.
  split; [|cbn; by rewrite (co_leases _ _ _ Hc)].
  change (stored (r_db (set_db _ _))) with (stored d'). rewrite (co_stored _ _ _ Hc).
  apply rewritten_intro; [| solve_forall; done | solve_tlook].
  unfold typed. solve_forall; [apply okq_task | apply okq_ttl; [by apply score_retention | apply G]].
Qed.

(** ** Submission *)

(** A stored task read through the result repository. *)
Lemma wp_GetTaskLive id t (Q : res Task -> DB P -> Prop) d :
  live (stored d) id t -> Q (Ok t) d -> wp (ResultRepository.GetTask id) Q d.
Proof.
  intros (v & Hv & Hu) HQ. unfold ResultRepository.GetTask. wp_step. wp_step.
  apply wp_Get_reads; rewrite KeyTask_enc; [|congruence].
  intros v' Hv'. rewrite Hv in Hv'. injection Hv' as <-. rewrite Hu. by wp_step.
Qed.

Lemma SaveResult_effect now rec t d :
  handle_ok d -> time_ok now -> live (stored d) (rr_TaskID rec) t -> good_task (rr_TaskID rec) t ->
  wp (ResultRepository.SaveResult now rec) (fun x d' =>
    match x with
    | Err _ => stored d' = stored d
    | Ok _ => rewritten (stored d) (stored d') (rr_TaskID rec) (set_ResultKey "codeq:results" t) /\
        stored d' !! enc (KResult (rr_TaskID rec)) = Some (marshal_result rec)
    end) d.
Proof.
  intros Hh Hnow Hl G. unfold ResultRepository.SaveResult. wp_step. apply (wp_GetTaskLive _ t); [done|].
  apply wp_CommitBatch; [done | | done]. intros d' Hc. autorewrite with keys in Hc.
  set (i := rr_TaskID rec) in *. set (t' := set_ResultKey _ t) in *. set (e := unixSeconds _) in Hc.
  pose (tb := [(KResult i, Some (marshal_result rec)); (KTask i, Some (marshal_task t')); (KTTL e i, Some "")]).
  change (committed (map op_of tb) d d') in Hc. rewrite (co_stored _ _ _ Hc).
  assert (typed tb) as Htb.
  { unfold typed, tb. solve_forall; [done | apply okq_task | apply okq_ttl; [by apply score_retention | apply G]]. }
  split.
  - apply rewritten_intro; [done | unfold tb; solve_forall; done | unfold tb; solve_tlook].
  - rewrite lookup_typed by (done || by apply typed_wf). unfold tb. solve_tlook.
Qed.

Lemma UpdateTask_effect now id t st msg L d :
  StoreInv (stored d) L -> handle_ok d -> time_ok now -> final_status st ->
  live (stored d) id t -> t.(Status) = StatusInProgress ->
  wp (ResultRepository.UpdateTaskOnComplete now id t.(Command) t.(TenantID) st msg) (fun x d' =>
    match x with
    | Err _ => stored d' = stored d
    | Ok _ => moved (stored d) (stored d') id (ResultRepository.finalized now st msg t) None /\
        (forall i, stored d' !! enc (KResult i) = stored d !! enc (KResult i)) /\
        db_leases d' = delete id (db_leases d)
    end) d.
Proof.
  intros I Hh Hnow Hst Hl Hs. pose proof (live_good _ _ _ _ I Hl) as G.
  unfold ResultRepository.UpdateTaskOnComplete. wp_step. apply (wp_GetTaskLive _ t); [done|].
  wp_step. apply wp_CommitBatch; [done | | done]. intros d' Hc. autorewrite with keys in Hc.
  apply wp_dbLeases. rewrite stored_leases. pose proof (finalized_restated now st msg t) as Hre.
  set (t' := ResultRepository.finalized _ _ _ _) in *. set (e := unixSeconds _) in Hc.
  change (committed (map op_of (final_ops id t t' e)) d d') in Hc. rewrite (co_stored _ _ _ Hc).
  assert (mover ∅ id (KInprog (cmdSeg t.(Command)) (tenantSeg t.(TenantID)) id) None t' (final_ops id t t' e)) as Hm.
  { apply to_done; [done | destruct Hst as [->| ->]; auto | by apply score_retention]. }
  split_and!.
  - exact (mover_moved _ _ _ _ _ _ _ _ _ I Hl (inprog_entry _ _ _ _ I Hl Hs) Hm).
  - intros i. rewrite lookup_typed by (done || apply typed_wf, Hm). unfold final_ops. solve_tlook.
  - cbn. by rewrite (co_leases _ _ _ Hc).
Qed.

Lemma wp_and {S A} (m : M S A) (Q R : res A -> S -> Prop) s :
  wp m Q s -> wp m R s -> wp m (fun x s' => Q x s' /\ R x s') s.
Proof. by split. Qed.

Section submit.
Variables (UploadBytes : string -> string -> string -> res string)
  (finish : list ArtifactIn -> list ArtifactIn) (callback : bool).

Lemma notOwner_false t req :
  resultsService.notOwner t req = false ->
  t.(WorkerID) = "" \/ sr_WorkerID req = "" \/ t.(WorkerID) = sr_WorkerID req.
Proof.
  unfold resultsService.notOwner. intros [[E|E]%andb_false_iff|E]%andb_false_iff;
    apply bool_decide_eq_false_1, dec_stable in E; auto.
Qed.

Lemma Submit_effect_wp now id req queues d :
  DInv queues d -> time_ok now ->
  wp (resultsService.Submit UploadBytes finish callback now id req) (fun x d' =>
    match x with
    | Err _ => settled (stored d) (stored d')
    | Ok (rec, cb) => exists t outs, live (stored d) id t /\ t.(Status) = StatusInProgress /\
        (t.(WorkerID) = "" \/ sr_WorkerID req = "" \/ t.(WorkerID) = sr_WorkerID req) /\
        resultsService.checkStatus req = None /\
        resultsService.artifacts UploadBytes finish id (sr_Artifacts req) = Ok outs /\
        rec = mkResultRecord id (sr_Status req) (sr_Result req) (sr_Error req) outs now /\
        cb = (if callback then Some (t, rec) else None) /\
        moved (stored d) (stored d') id
          (ResultRepository.finalized now (sr_Status req) (sr_Error req) (set_ResultKey "codeq:results" t)) None /\
        stored d' !! enc (KResult id) = Some (marshal_result rec) /\ db_leases d' !! id = None
    end) d.
Proof.
  intros I Hnow. unfold resultsService.Submit. wp_step. wp_step.
  eapply wp_GetTask; [exact I | | intros; wp_step; apply settled_refl]. intros t Hl G. cbv beta iota.
  destruct (resultsService.notOwner t req) eqn:Hown; [wp_step; apply settled_refl|].
  destruct (bool_decide (Status t <> StatusInProgress)) eqn:Hst; [wp_step; apply settled_refl|].
  apply bool_decide_eq_false_1, dec_stable in Hst.
  destruct (resultsService.artifacts _ _ _ _) as [outs|e] eqn:Hart; [|wp_step; apply settled_refl].
  destruct (resultsService.checkStatus req) as [msg|] eqn:Hchk; [wp_step; apply settled_refl|].
  set (rec := mkResultRecord _ _ _ _ _ _). wp_step.
  eapply wp_mono; [apply wp_and; [by apply (SaveResult_wp queues)|
    by apply (SaveResult_effect now rec t d (proj2 (proj1 I)))]|].
  intros [u|e] d1 [[I1 Hset] Hsave]; [|done]. destruct Hsave as [Hrw Hres]. cbn [rr_TaskID rec] in Hrw, Hres.
  set (t1 := set_ResultKey _ t) in *. wp_step.
  pose proof (rw_live _ _ _ _ Hrw) as Hl1.
  eapply wp_mono; [apply (UpdateTask_effect now id t1 (sr_Status req) (sr_Error req) _ d1
    (proj1 (proj1 I1)) (proj2 (proj1 I1)) Hnow (checkStatus_final _ Hchk) Hl1 Hst)|].
  intros [u'|e] d2 Hup; [|by rewrite Hup]. destruct Hup as (Hmv & Hk & Hle). wp_step.
  exists t, outs. split_and!; try done.
  - by apply notOwner_false.
  - by eapply rewritten_moved.
  - by rewrite Hk.
  - rewrite Hle. apply lookup_delete_eq.
Qed.
End submit.

(** ** Guards *)

Lemma Get_live id t r : live (stored (r_db r)) id t -> TaskRepository.Get id r = (Ok t, r).
Proof.
  intros Hl. pose proof (wp_GetLive id t (fun x r' => x = Ok t /\ r' = r) r Hl (conj eq_refl eq_refl)) as [E1 E2].
  destruct (TaskRepository.Get id r). simpl in *. by subst.
Qed.

Lemma GetTask_live id t d : live (stored d) id t -> ResultRepository.GetTask id d = (Ok t, d).
Proof.
  intros Hl. pose proof (wp_GetTaskLive id t (fun x d' => x = Ok t /\ d' = d) d Hl (conj eq_refl eq_refl)) as [E1 E2].
  destruct (ResultRepository.GetTask id d). simpl in *. by subst.
Qed.

(** ** The reaper *)

Lemma sweepOne_held cvt seed opts now acc id e d :
  db_leases d !! id = Some e -> unix now < le_untilU e ->
  Reaper.sweepOne cvt seed opts now acc id d = (Ok acc, d).
Proof.
  intros He Hlt. destruct acc as [moved cbs]. unfold Reaper.sweepOne, mbnd, mget, leaseTable.Get.
  rewrite He, (proj2 (Z.ltb_lt _ _) Hlt). done.
Qed.

Lemma requeueExpiredOne_effect opts now id t delay d L :
  StoreInv (stored d) L -> handle_ok d -> time_ok now ->
  live (stored d) id t -> t.(Status) = StatusInProgress ->
  let tc := Reaper.charged opts t in
  let dead := tc.(MaxAttempts) <=? tc.(Attempts) in
  let c := cmdSeg t.(Command) in let ten := tenantSeg t.(TenantID) in
  wp (Reaper.requeueExpiredOne opts now t delay) (fun x d' =>
    match x with
    | Err _ => d' = d
    | Ok _ => moved (stored d) (stored d') id
          (if dead then Reaper.expired_dlq now tc else Reaper.expired_delayed now tc)
          (Some (if dead then KDLQ c ten id else KDelayed c ten (unixSeconds (now + seconds delay)) id)) /\
        db_leases d' = delete id (db_leases d)
    end) d.
Proof.
  intros I Hh Hnow Hl Hst tc dead c ten. pose proof (live_good _ _ _ _ I Hl) as G.
  pose proof (inprog_entry _ _ _ _ I Hl Hst) as He. pose proof (charged_good opts _ _ G) as Gc.
  destruct (charged_restated opts t) as (_ & Ec & Et & _). fold tc in Ec, Et, Gc.
  unfold Reaper.requeueExpiredOne, c, ten. cbv zeta. fold tc. rewrite <- Ec, <- Et in *. unfold dead.
  destruct (MaxAttempts tc <=? Attempts tc); wp_step; (apply wp_CommitBatch; [done | | done]); intros d' Hc;
    cbn [ID Reaper.expired_dlq Reaper.expired_delayed set_UpdatedAt set_TaskError set_LeaseUntil
         set_WorkerID set_LastKnownLocation set_Status Command TenantID] in Hc;
    rewrite (gt_id _ _ Gc) in *; autorewrite with keys in Hc; wp_step; apply wp_dbLeases; wp_step;
    cbn [ID Reaper.expired_dlq Reaper.expired_delayed set_UpdatedAt set_TaskError set_LeaseUntil
         set_WorkerID set_LastKnownLocation set_Status]; rewrite (gt_id _ _ Gc), stored_leases;
    (split; [|cbn; by rewrite (co_leases _ _ _ Hc)]); rewrite (co_stored _ _ _ Hc).
  - exact (mover_moved _ _ _ _ _ _ _ _ _ I Hl He (to_dlq ∅ _ _ (Reaper.expired_dlq now tc) Gc ltac:(done))).
  - exact (mover_moved _ _ _ _ _ _ _ _ _ I Hl He
      (to_delayed ∅ _ _ (Reaper.expired_delayed now tc) _ Gc ltac:(done) (score_add _ _ Hnow))).
Qed.

(** What a sweep must leave alone. *)
Definition spared (id : string) (e : leaseEntry) m d : Prop :=
  db_leases d !! id = Some e /\ (forall t, live (stored d) id t <-> live m id t) /\
  (forall q, entry (stored d) id q <-> entry m id q).

Lemma sweepOne_spares cvt seed opts now id e m queues acc i d :
  time_ok now -> unix now < le_untilU e -> DInv queues d -> spared id e m d ->
  wp (Reaper.sweepOne cvt seed opts now acc i) (fun _ d' => spared id e m d') d.
Proof.
  intros Hnow Hlt I Hsp. destruct (decide (i = id)) as [->|Hne].
  { unfold wp. by rewrite (sweepOne_held cvt seed opts now acc id e d (proj1 Hsp) Hlt). }
  assert (spared id e m (set_leases (delete i (db_leases d)) d)) as Hfor.
  { destruct Hsp as (Hl & Hs). split; [|done]. cbn. by rewrite lookup_delete_ne. }
  destruct acc as [mv cbs]. unfold Reaper.sweepOne. wp_step. wp_step. wp_step; [by wp_step|].
  assert (wp (ResultRepository.dbLeases (leaseTable.Delete i) ;;! mret (mv, cbs)) (fun _ d' => spared id e m d') d) as Hforget.
  { wp_step. apply wp_dbLeases. by wp_step. }
  wp_step. wp_step. apply wp_Get_reads; rewrite KeyTask_enc; [|intros _; exact Hforget].
  intros v Hv. destruct (inv_body _ _ (proj1 (proj1 I)) _ _ Hv) as (t & Hu & G). rewrite Hu.
  assert (live (stored d) i t) as Hl by (by exists v). wp_step; [exact Hforget|].
  match goal with H : bool_decide (Status t <> _) = false |- _ =>
    apply bool_decide_eq_false_1, dec_stable in H as Hst end.
  wp_step; [|by wp_step]. wp_step. wp_step.
  eapply wp_mono; [apply (requeueExpiredOne_effect opts now i t _ d _ (proj1 (proj1 I)) (proj2 (proj1 I)) Hnow Hl Hst)|].
  cbv zeta. intros [cb|er] d' Hd'; [|by subst; wp_step]. destruct Hd' as ([_ _ Hol Hoe] & Hle). wp_step.
  destruct Hsp as (H1' & H2' & H3'). split; [by rewrite Hle, lookup_delete_ne|]. split.
  - intros t0. by rewrite Hol.
  - intros q. by rewrite Hoe.
Qed.

Lemma sweepLeases_spares cvt seed opts order now id e queues d :
  DInv queues d -> time_ok now -> db_leases d !! id = Some e -> unix now < le_untilU e ->
  wp (Reaper.sweepLeases cvt seed opts order now) (fun _ d' => spared id e (stored d) d') d.
Proof.
  intros I Hnow He Hlt. unfold Reaper.sweepLeases. wp_step. wp_step.
  eapply (wp_mono _ (fun _ d' => DInv queues d' /\ spared id e (stored d) d')); [|by intros x d' []].
  eapply (wp_fold (fun _ d' => DInv queues d' /\ spared id e (stored d) d')).
  - by split.
  - intros acc i d1 _ [I1 Hsp]. eapply wp_mono.
    + exact (wp_and _ _ _ _ (proj1 (keeps_wp _ _) (sweepOne_inv cvt seed opts now queues acc i Hnow) d1 I1)
        (sweepOne_spares cvt seed opts now id e _ queues acc i d1 Hnow Hlt I1 Hsp)).
    + by intros [] d2 [].
  - done.
Qed.
End effects.
