(* ===== verification/Guarantees.v ===== *)
(** What callers of the queue are promised, over every reachable state: the
    effect of each call on each of its branches, the claim order, the guards
    on ownership and status, and that leases are respected. *)

From S2P Require Import Prelude GoTime Domain Keys LeaseTable PebbleDB Backoff TaskRepo ResultRepo Reaper Scheduler ResultsService Invariant KeyScan Bulk RepoInv Lifecycle Sweeps BatchOps ResultInv ClaimManyInv Recovery System Effects.

#[local] Existing Instance no_ghost.

Section guarantees.
Context {P : Type} `{PebbleReads P} `{JSONLaws}.
Variable env : environment.
Implicit Types (r : Repo P).

(** C7. Enqueue.  When the idempotency key names no stored task, a successful
    enqueue stores the new PENDING task, puts it in exactly one queue (the
    delayed one when its start lies in the future, else the pending one of its
    clamped priority under the next sequence number), leaves every other task
    alone, records the idempotency key, and a ready task's hint goes to the end
    of its channel when there is room; a failed one stores nothing. *)
Theorem enqueue_effect now id cmd payload prio webhook maxA idem visibleAt ten r :
  reachable env r -> fresh (stored (r_db r)) id -> id_ok id = true -> name_ok cmdSeg cmd -> name_ok tenantSeg ten ->
  time_ok now -> unix visibleAt < 2 ^ 56 -> TaskRepository.idempoLookup idem r = (Ok None, r) ->
  let delayed := negb (is_zero visibleAt) && (now <? visibleAt) in
  let t := TaskRepository.newTask now id cmd payload (normalizePriority prio) webhook maxA ten delayed in
  let seq := wrapu64 (db_seq (r_db r) + 1) in
  let k := queueKey cmd ten (normalizePriority prio) in
  wp (TaskRepository.EnqueueWithID now id cmd payload prio webhook maxA idem visibleAt ten) (fun x r' =>
    match x with
    | Err _ => stored (r_db r') = stored (r_db r) /\ r_queues r' = r_queues r /\ r_delayed r' = r_delayed r
    | Ok y => y = (t, negb delayed) /\
        moved (stored (r_db r)) (stored (r_db r')) id t (Some (enqueuedAt now id cmd prio visibleAt ten seq)) /\
        (idem <> "" -> stored (r_db r') !! enc (KIdempo idem) = Some id) /\
        if delayed then r_queues r' = r_queues r /\ delayedCounter cmd ten r' = delayedCounter cmd ten r + 1
        else Z.of_nat (length (channel r k)) < channelBufferSize -> channel r' k = channel r k ++ [mkHint seq id]
    end) r.
Proof. intros I%reachable_RInv. by apply Enqueue_effect_wp. Qed.


(** C4. Claim order.  When the channels above priority [p] are empty and the
    head of the channel of [p] names a stored task, a claim takes that head:
    priority first, then arrival order.  The task becomes IN_PROGRESS under
    the worker with the lease it asked for and one more attempt, it leaves the
    pending queue for the in-progress one in one commit, and every other task
    stays as it was. *)
Theorem claim_order now w cmd lease ten p h rest t r :
  reachable env r -> time_ok now -> w <> "" -> four_digit_year (now + seconds lease) = true ->
  seg_ok cmd = true -> seg_ok ten = true -> 0 <= p <= 9 ->
  channel r (queueKey cmd ten p) = h :: rest ->
  (forall p', p < p' <= 9 -> channel r (queueKey cmd ten p') = []) ->
  live (stored (r_db r)) (h_id h) t ->
  let t' := TaskRepository.claimed now w (FormatRFC3339 (now + seconds lease)) t in
  wp (TaskRepository.popFromAnyPriority now w cmd lease ten) (fun x r' =>
    r_queues r' = <[queueKey cmd ten p := rest]> (r_queues r) /\
    match x with
    | Err _ => stored (r_db r') = stored (r_db r)
    | Ok o => o = Some t' /\
        moved (stored (r_db r)) (stored (r_db r')) (h_id h) t' (Some (KInprog (cmdSeg cmd) (tenantSeg ten) (h_id h))) /\
        db_leases (r_db r') !! h_id h = Some (mkLease w cmd ten (unix (now + seconds lease)))
    end) r.
Proof. intros I%reachable_RInv. by apply claim_head_wp. Qed.

(** C6. Nack.  A successful nack was made for a stored IN_PROGRESS task by
    its worker (or anonymously); it charges one attempt and moves the task,
    lease dropped, to the dead-letter queue as FAILED when the attempts reach
    the bound, else to the delayed queue at now plus the delay (a negative
    delay counts as zero), reporting which; an error changes nothing. *)
Theorem nack_effect now id w delay maxA reason r :
  reachable env r -> time_ok now ->
  wp (TaskRepository.Nack now id w delay maxA reason) (fun x r' =>
    match x with
    | Err _ => r' = r
    | Ok (dl, dead) => exists t, live (stored (r_db r)) id t /\
        (w = "" \/ t.(WorkerID) = w) /\ t.(Status) = StatusInProgress /\
        let t1 := TaskRepository.charge maxA t in
        let c := cmdSeg t.(Command) in let ten := tenantSeg t.(TenantID) in
        let delay' := if delay <? 0 then 0 else delay in
        dead = (t1.(MaxAttempts) <=? t1.(Attempts)) /\ dl = (if dead then 0 else delay') /\
        moved (stored (r_db r)) (stored (r_db r')) id
          (if dead then TaskRepository.to_dlq now (if bool_decide (reason = "") then "MAX_ATTEMPTS" else reason) t1
           else TaskRepository.to_delayed now t1)
          (Some (if dead then KDLQ c ten id else KDelayed c ten (unixSeconds (now + seconds delay')) id)) /\
        db_leases (r_db r') = delete id (db_leases (r_db r)) /\ r_queues r' = r_queues r
    end) r.
Proof. intros I%reachable_RInv. by apply Nack_effect_wp. Qed.

(** Abandon.  A successful abandon was made for a stored IN_PROGRESS task
    by its worker (or anonymously); the task is PENDING again, at the end of
    the pending queue of its priority and of that queue's channel (when there
    is room), with its attempts unchanged and its lease dropped; an error
    changes neither store, leases nor channels. *)
Theorem abandon_effect now id w r :
  reachable env r ->
  wp (TaskRepository.Abandon now id w) (fun x r' =>
    match x with
    | Err _ => stored (r_db r') = stored (r_db r) /\ db_leases (r_db r') = db_leases (r_db r) /\ r_queues r' = r_queues r
    | Ok _ => exists t, live (stored (r_db r)) id t /\ (w = "" \/ t.(WorkerID) = w) /\ t.(Status) = StatusInProgress /\
        let p := normalizePriority t.(Priority) in
        let seq := wrapu64 (db_seq (r_db r) + 1) in
        moved (stored (r_db r)) (stored (r_db r')) id (TaskRepository.abandoned now t)
          (Some (KPending (cmdSeg t.(Command)) (tenantSeg t.(TenantID)) p seq id)) /\
        db_leases (r_db r') = delete id (db_leases (r_db r)) /\
        let k := queueKey t.(Command) t.(TenantID) p in
        (Z.of_nat (length (channel r k)) < channelBufferSize -> channel r' k = channel r k ++ [mkHint seq id])
    end) r.
Proof. intros I%reachable_RInv. by apply Abandon_effect_wp. Qed.

(** C5. Submission.  A successful submission was made for a stored IN_PROGRESS
    task by its worker (unless one side is anonymous) with a valid final
    status; the result is stored, the task has the submitted status and stands
    in no queue, its lease is gone, other tasks are untouched, and the callback
    is sent exactly when one is configured.  A failed submission leaves every
    task with its status, in its queue. *)
Theorem submit_effect now id req r :
  reachable env r -> time_ok now ->
  wp (db (resultsService.Submit (en_upload env) (en_finish env) (en_callback env) now id req)) (fun x r' =>
    match x with
    | Err _ => settled (stored (r_db r)) (stored (r_db r'))
    | Ok (rec, cb) => exists t outs, live (stored (r_db r)) id t /\ t.(Status) = StatusInProgress /\
        (t.(WorkerID) = "" \/ sr_WorkerID req = "" \/ t.(WorkerID) = sr_WorkerID req) /\
        final_status (sr_Status req) /\
        resultsService.artifacts (en_upload env) (en_finish env) id (sr_Artifacts req) = Ok outs /\
        rec = mkResultRecord id (sr_Status req) (sr_Result req) (sr_Error req) outs now /\
        cb = (if en_callback env then Some (t, rec) else None) /\
        moved (stored (r_db r)) (stored (r_db r')) id
          (ResultRepository.finalized now (sr_Status req) (sr_Error req) (set_ResultKey "codeq:results" t)) None /\
        db_leases (r_db r') !! id = None /\
        fst (resultsService.Get id (r_db r')) =
          Ok (Some rec, Some (ResultRepository.finalized now (sr_Status req) (sr_Error req)
                                (set_ResultKey "codeq:results" t)), None)
    end) r.
Proof.
  intros I%reachable_RInv Hnow. unfold db. wp_step.
  eapply wp_mono; [by apply (Submit_effect_wp _ _ _ now id req (r_queues r))|].
  intros [[rec cb]|e] d' Hx; [|exact Hx].
  destruct Hx as (t & outs & Hl & Hst & Hw & Hchk & Hart & -> & -> & Hmv & Hres & Hle).
  exists t, outs. split_and!; try done; [by apply checkStatus_final|].
  cbn [r_db set_db]. unfold resultsService.Get, ResultRepository.GetTaskAndResult, mbnd, mtry.
  rewrite (GetTask_live id _ d' (mv_live _ _ _ _ _ Hmv)). unfold ResultRepository.GetResult, mbnd, mtry, PebbleDB.Get.
  rewrite p_get_total. change (contents (db_pebble d')) with (stored d').
  change (KeyResult id) with (enc (KResult id)). rewrite Hres, result_roundtrip. done.
Qed.

(** C23. Ownership.  While a task is held by another worker, heartbeat,
    abandon, nack and submission in the name of [w] are refused with
    not-owner, and change nothing. *)
Theorem ownership_guard id t w now ext delay maxA reason req r :
  live (stored (r_db r)) id t -> t.(WorkerID) <> w -> t.(WorkerID) <> "" -> w <> "" -> sr_WorkerID req = w ->
  TaskRepository.Heartbeat now id w ext r = (Err (ErrText "not-owner"), r) /\
  TaskRepository.Abandon now id w r = (Err (ErrText "not-owner"), r) /\
  TaskRepository.Nack now id w delay maxA reason r = (Err (ErrText "not-owner"), r) /\
  resultsService.Submit (en_upload env) (en_finish env) (en_callback env) now id req (r_db r)
    = (Err (ErrText "not-owner"), r_db r).
Proof.
  intros Hl Hw Hne Hw0 Hreq.
  unfold TaskRepository.Heartbeat, TaskRepository.Abandon, TaskRepository.Nack, resultsService.Submit, mbnd, mtry.
  rewrite (Get_live id t r Hl), (GetTask_live id t (r_db r) Hl). unfold resultsService.notOwner.
  rewrite Hreq, (bool_decide_true (WorkerID t <> w)), (bool_decide_true (w <> "")),
    (bool_decide_true (WorkerID t <> "")) by done. done.
Qed.

(** Only tasks in progress are settled.  For a stored task that is not
    IN_PROGRESS, abandon, nack and submission by its recorded worker are
    refused with not-in-progress, and change nothing. *)
Theorem in_progress_guard id t now delay maxA reason req r :
  live (stored (r_db r)) id t -> t.(Status) <> StatusInProgress -> sr_WorkerID req = t.(WorkerID) ->
  TaskRepository.Abandon now id t.(WorkerID) r = (Err (ErrText "not-in-progress"), r) /\
  TaskRepository.Nack now id t.(WorkerID) delay maxA reason r = (Err (ErrText "not-in-progress"), r) /\
  resultsService.Submit (en_upload env) (en_finish env) (en_callback env) now id req (r_db r)
    = (Err (ErrText "not-in-progress"), r_db r).
Proof.
  intros Hl Hst Hreq.
  unfold TaskRepository.Abandon, TaskRepository.Nack, resultsService.Submit, mbnd, mtry.
  rewrite (Get_live id t r Hl), (GetTask_live id t (r_db r) Hl). unfold resultsService.notOwner.
  rewrite Hreq, (bool_decide_false (t.(WorkerID) <> t.(WorkerID))), !andb_false_r by tauto.
  rewrite (bool_decide_true (Status t <> StatusInProgress)) by done. done.
Qed.

(** C21. Leases are respected.  A lease sweep of the reaper, with whatever map
    order and batch limit, leaves a task whose lease has not run out with its
    body, its queue entries and its lease. *)
Theorem reaper_spares_held_leases order now id e r :
  reachable env r -> time_ok now -> db_leases (r_db r) !! id = Some e -> unix now < le_untilU e ->
  wp (db (Reaper.sweepLeases (en_cvt env) (en_seed env) (en_reaper env) order now)) (fun _ r' =>
    db_leases (r_db r') !! id = Some e /\
    (forall t, live (stored (r_db r')) id t <-> live (stored (r_db r)) id t) /\
    (forall q, entry (stored (r_db r')) id q <-> entry (stored (r_db r)) id q)) r.
Proof.
  intros I%reachable_RInv Hnow He Hlt. unfold db. wp_step.
  eapply wp_mono; [by apply (sweepLeases_spares _ _ _ _ _ id e (r_queues r))|]. by intros x d' Hsp.
Qed.

(** C22. An expired lease gives the task back.  When the reaper requeues a
    stored IN_PROGRESS task, one attempt is charged and the task goes, lease
    dropped, to the dead-letter queue as FAILED when the attempts reach the
    bound, else PENDING to the delayed queue at now plus the delay; when the
    commit fails nothing changes. *)
Theorem reaper_requeue_effect now id t delay r :
  reachable env r -> time_ok now -> live (stored (r_db r)) id t -> t.(Status) = StatusInProgress ->
  let tc := Reaper.charged (en_reaper env) t in
  let dead := tc.(MaxAttempts) <=? tc.(Attempts) in
  let c := cmdSeg t.(Command) in let ten := tenantSeg t.(TenantID) in
  wp (Reaper.requeueExpiredOne (en_reaper env) now t delay) (fun x d' =>
    match x with
    | Err _ => d' = r_db r
    | Ok _ => moved (stored (r_db r)) (stored d') id
          (if dead then Reaper.expired_dlq now tc else Reaper.expired_delayed now tc)
          (Some (if dead then KDLQ c ten id else KDelayed c ten (unixSeconds (now + seconds delay)) id)) /\
        db_leases d' = delete id (db_leases (r_db r))
    end) (r_db r).
Proof. intros [[I Hh] _]%reachable_RInv. by eapply requeueExpiredOne_effect. Qed.

(** Heartbeat.  A successful heartbeat was made by the recorded worker;
    only the body (lease end, update time) and the lease table entry change:
    every task stays in its queue. *)
Theorem heartbeat_effect now id w ext r :
  reachable env r -> time_ok now ->
  wp (TaskRepository.Heartbeat now id w ext) (fun x r' =>
    r_queues r' = r_queues r /\
    match x with
    | Err _ => r' = r
    | Ok _ => exists t, live (stored (r_db r)) id t /\ t.(WorkerID) = w /\
        rewritten (stored (r_db r)) (stored (r_db r')) id
          (set_LastKnownLocation LocationInProgress (set_UpdatedAt now
             (set_LeaseUntil (FormatRFC3339 (now + seconds ext)) t))) /\
        db_leases (r_db r') = snd (leaseTable.Extend id w (unix (now + seconds ext)) (db_leases (r_db r)))
    end) r.
Proof. intros I%reachable_RInv. by apply Heartbeat_effect_wp. Qed.
End guarantees.

(** ** Witnesses *)

(** The post-condition of a call that succeeds. *)
Lemma wp_ok {S A} (m : M S A) (Q : res A -> S -> Prop) s :
  is_ok (fst (m s)) = true -> wp m Q s -> exists a, fst (m s) = Ok a /\ Q (Ok a) (snd (m s)).
Proof. unfold wp. destruct (m s) as [[a|e] s']; [eauto | done]. Qed.

Section witnesses.
Import framed demo.

Lemma fresh_empty id : fresh ∅ id.
Proof. split_and!; [apply lookup_empty | intros; apply lookup_empty | by intros ? []]. Qed.

Lemma t0_ok n : 0 <= n <= 5000 -> time_ok (t0 + n * second).
Proof. unfold time_ok, t0, second. lia. Qed.

Lemma enqueue_effect_witness :
  let m := TaskRepository.EnqueueWithID (P := memstore.store) (t0 + 0 * second) "t1" "send" "body" 12 "" 3 "k" zero_time "acme" in
  entry (stored (r_db (snd (m r0)))) "t1" (KPending "send" "acme" 9 1 "t1") /\
  channel (snd (m r0)) (queueKey "send" "acme" 9) = [mkHint 1 "t1"].
Proof.
  intros m.
  pose proof (enqueue_effect env0 (t0 + 0 * second) "t1" "send" "body" 12 "" 3 "k" zero_time "acme" r0 initial_run
    (fresh_empty _) eq_refl (name_ok_dec cmdSeg "send" eq_refl) (name_ok_dec tenantSeg "acme" eq_refl) (t0_ok 0 ltac:(lia))
    eq_refl eq_refl) as Hw. cbv zeta in Hw.
  assert (is_ok (fst (m r0)) = true) as Hok by (vm_compute; reflexivity).
  destruct (wp_ok m _ r0 Hok Hw) as (y & _ & _ & Hm & _ & Hch). split.
  - apply (mv_entry _ _ _ _ _ Hm). vm_compute. reflexivity.
  - refine (eq_trans (Hch _) _); vm_compute; reflexivity.
Defined.


Lemma claim_order_witness :
  let m := TaskRepository.popFromAnyPriority (P := memstore.store) (t0 + 1 * second) "w1" "send" 60 "acme" in
  let r := after [create] in
  fst (m r) = Ok (Some (TaskRepository.claimed (t0 + 1 * second) "w1" "2023-11-14T22:14:21Z" createdTask)) /\
  entry (stored (r_db (snd (m r)))) "t1" (KInprog "send" "acme" "t1").
Proof.
  intros m r.
  assert (forall p', 5 < p' <= 9 -> channel r (queueKey "send" "acme" p') = []) as Hhi.
  { intros p' Hp'. assert (p' ∈ [6; 7; 8; 9]) as Hin by (rewrite !elem_of_cons; lia).
    rewrite !elem_of_cons, elem_of_nil in Hin. destruct_or?; subst; vm_compute; reflexivity. }
  pose proof (claim_order env0 (t0 + 1 * second) "w1" "send" 60 "acme" 5 (mkHint 1 "t1") [] createdTask r created_run
    (t0_ok 1 ltac:(lia)) ltac:(done) ltac:(vm_compute; reflexivity) eq_refl eq_refl ltac:(lia)
    ltac:(vm_compute; reflexivity)) as Hw. cbv zeta in Hw.
  assert (is_ok (fst (m r)) = true) as Hok by (vm_compute; reflexivity).
  destruct (wp_ok m _ r Hok (Hw Hhi created_live)) as (y & Hy & _ & Ey & Hm & _).
  split; [rewrite Hy, Ey; vm_compute; reflexivity | apply (mv_entry _ _ _ _ _ Hm); vm_compute; reflexivity].
Defined.

Lemma nack_effect_witness :
  let m := TaskRepository.Nack (P := memstore.store) (t0 + 5 * second) "t1" "w1" 30 5 "" in
  entry (stored (r_db (snd (m (after [create; claim]))))) "t1" (KDelayed "send" "acme" 1700000035 "t1").
Proof.
  intros m. pose proof (nack_effect env0 (t0 + 5 * second) "t1" "w1" 30 5 "" (after [create; claim]) claimed_run
    (t0_ok 5 ltac:(lia))) as Hw.
  assert (fst (m (after [create; claim])) = Ok (30, false)) as Hok by (vm_compute; reflexivity).
  unfold wp in Hw. fold m in Hw. rewrite Hok in Hw. destruct Hw as (t & Hl & _ & _ & _ & _ & Hm & _).
  apply (mv_entry _ _ _ _ _ Hm). rewrite (live_fun _ _ _ _ Hl claimed_live). vm_compute. reflexivity.
Defined.

Lemma abandon_effect_witness :
  let m := TaskRepository.Abandon (P := memstore.store) (t0 + 5 * second) "t1" "w1" in
  entry (stored (r_db (snd (m (after [create; claim]))))) "t1" (KPending "send" "acme" 5 2 "t1").
Proof.
  intros m. pose proof (abandon_effect env0 (t0 + 5 * second) "t1" "w1" (after [create; claim]) claimed_run) as Hw.
  assert (fst (m (after [create; claim])) = Ok tt) as Hok by (vm_compute; reflexivity).
  unfold wp in Hw. fold m in Hw. rewrite Hok in Hw. destruct Hw as (t & Hl & _ & _ & Hm & _).
  apply (mv_entry _ _ _ _ _ Hm). rewrite (live_fun _ _ _ _ Hl claimed_live). vm_compute. reflexivity.
Defined.

Lemma submit_effect_witness :
  let m := db (resultsService.Submit (P := memstore.store) (en_upload env0) (en_finish env0) (en_callback env0)
    (t0 + 5 * second) "t1" (mkSubmit "w1" "COMPLETED" (Some "42") "" [])) in
  exists t, fst (resultsService.Get "t1" (r_db (snd (m (after [create; claim]))))) =
    Ok (Some (mkResultRecord "t1" "COMPLETED" (Some "42") "" [] (t0 + 5 * second)), Some t, None).
Proof.
  intros m. pose proof (submit_effect env0 (t0 + 5 * second) "t1" (mkSubmit "w1" "COMPLETED" (Some "42") "" [])
    (after [create; claim]) claimed_run (t0_ok 5 ltac:(lia))) as Hw.
  assert (is_ok (fst (m (after [create; claim]))) = true) as Hok by (vm_compute; reflexivity).
  destruct (wp_ok m _ (after [create; claim]) Hok Hw) as ([rec cb] & _ & t & outs & _ & _ & _ & _ & Ho & -> & _ & _ & _ & Hg).
  vm_compute in Ho. injection Ho as <-. eexists. exact Hg.
Defined.

Lemma ownership_guard_witness :
  TaskRepository.Nack (t0 + 5 * second) "t1" "w2" 30 5 "" (after [create; claim])
  = (Err (ErrText "not-owner"), after [create; claim]).
Proof.
  refine (proj1 (proj2 (proj2 (ownership_guard env0 "t1" claimedTask "w2" (t0 + 5 * second) 60 30 5 ""
    (mkSubmit "w2" "COMPLETED" (Some "42") "" []) (after [create; claim]) claimed_live _ _ _ eq_refl)))); done.
Defined.

Lemma in_progress_guard_witness :
  TaskRepository.Nack (t0 + 5 * second) "t1" "" 30 5 "" (after [create; claim; submit])
  = (Err (ErrText "not-in-progress"), after [create; claim; submit]).
Proof.
  refine (proj1 (proj2 (in_progress_guard env0 "t1" completedTask (t0 + 5 * second) 30 5 ""
    (mkSubmit "" "COMPLETED" (Some "42") "" []) (after [create; claim; submit]) completed_live _ eq_refl))). done.
Defined.

Lemma reaper_spares_held_leases_witness :
  let m := db (Reaper.sweepLeases (P := memstore.store) (en_cvt env0) (en_seed env0) (en_reaper env0) (fun l => l)
                 (t0 + 30 * second)) in
  live (stored (r_db (snd (m (after [create; claim]))))) "t1" claimedTask.
Proof.
  intros m. refine (proj2 (proj1 (proj2 (reaper_spares_held_leases env0 (fun l => l) (t0 + 30 * second) "t1"
    (mkLease "w1" "send" "acme" 1700000061) (after [create; claim]) claimed_run (t0_ok 30 ltac:(lia)) _ _)) claimedTask) claimed_live);
    vm_compute; reflexivity.
Defined.

Lemma reaper_requeue_effect_witness :
  let m := Reaper.requeueExpiredOne (P := memstore.store) (en_reaper env0) (t0 + 100 * second) claimedTask 10 in
  entry (stored (snd (m (r_db (after [create; claim]))))) "t1" (KDelayed "send" "acme" 1700000110 "t1").
Proof.
  intros m. pose proof (reaper_requeue_effect env0 (t0 + 100 * second) "t1" claimedTask 10 (after [create; claim])
    claimed_run (t0_ok 100 ltac:(lia)) claimed_live eq_refl) as Hw. cbv zeta in Hw.
  assert (is_ok (fst (m (r_db (after [create; claim])))) = true) as Hok by (vm_compute; reflexivity).
  destruct (wp_ok m _ _ Hok Hw) as (cb & _ & Hm & _). apply (mv_entry _ _ _ _ _ Hm). vm_compute. reflexivity.
Defined.

Lemma heartbeat_effect_witness :
  let m := TaskRepository.Heartbeat (P := memstore.store) (t0 + 5 * second) "t1" "w1" 60 in
  exists t, live (stored (r_db (snd (m (after [create; claim]))))) "t1" t /\ t.(LeaseUntil) = "2023-11-14T22:14:25Z".
Proof.
  intros m. pose proof (heartbeat_effect env0 (t0 + 5 * second) "t1" "w1" 60 (after [create; claim]) claimed_run
    (t0_ok 5 ltac:(lia))) as Hw.
  assert (is_ok (fst (m (after [create; claim]))) = true) as Hok by (vm_compute; reflexivity).
  destruct (wp_ok m _ (after [create; claim]) Hok Hw) as (u & _ & _ & t & _ & _ & Hr & _).
  eexists. split; [apply (rw_live _ _ _ _ Hr) | vm_compute; reflexivity].
Defined.
End witnesses.
