(* ===== verification/ShardedInv.v ===== *)
(** Every task of the sharded node is on the shard of its id, where all calls
    about it go, and each shard keeps the queue invariant. *)

From S2P Require Import Prelude GoTime Domain Keys LeaseTable PebbleDB Backoff TaskRepo ResultRepo Reaper Scheduler ResultsService Invariant KeyScan Bulk RepoInv Lifecycle Sweeps BatchOps ResultInv ClaimManyInv Recovery System Effects Guarantees Hash Sharded.

(** No task whose id belongs to another shard is stored: such a task would
    have to have both final statuses. *)
Definition foreign (n i : nat) : Ghost := {|
  frozen id st := shardIndex n id <> i /\ (st = StatusCompleted \/ st = StatusFailed);
  frozen_final id st F := proj2 F
|}.

Section sharded_inv.
Context {P : Type} `{PebbleReads P} `{JSONLaws}.
Implicit Types (r : Repo P) (s : Sharded P).

Definition shardInv (n i : nat) (r : Repo P) : Prop := RInv (H3 := foreign n i) r.

Definition SInv (n : nat) s : Prop :=
  length (sh_shards s) = n /\ forall i r, sh_shards s !! i = Some r -> shardInv n i r.

Lemma onShard_keeps {A} n i (m : M (Repo P) A) : keeps (shardInv n i) m -> keeps (SInv n) (onShard i m).
Proof.
  intros Hm s [Hl Hs]. unfold onShard. destruct (sh_shards s !! i) as [r|] eqn:E; [|by split].
  specialize (Hm r (Hs _ _ E)). destruct (m r) as [x r']. cbn [snd] in *. split; cbn [sh_shards]; [by rewrite length_insert|].
  intros j r2 Hj. apply list_lookup_insert_Some in Hj as [(<- & <- & _)|[Hne Hj]]; [done | by apply Hs].
Qed.

(** A routed call runs on the shard of the key. *)
Lemma routed_keeps {A} n key (m : M (Repo P) A) : keeps (shardInv n (shardIndex n key)) m -> keeps (SInv n) (routed key m).
Proof.
  intros Hm s Hs. pose proof (onShard_keeps n _ m Hm s Hs) as Ho. unfold routed, shardOf, mbnd. by rewrite (proj1 Hs).
Qed.

Lemma nextStart_keeps n : keeps (SInv n) (nextStart (P := P)).
Proof. by intros s Hs. Qed.

Lemma shardCount_keeps n : keeps (SInv n) (shardCount (P := P)).
Proof. by intros s Hs. Qed.

Lemma claimFrom_keeps n cvt seed order now w cmds lease limit maxA ten :
  (forall i, keeps (shardInv n i) (TaskRepository.Claim cvt seed now w cmds lease limit maxA ten)) ->
  keeps (SInv n) (ShardedTaskRepository.claimFrom cvt seed order now w cmds lease limit maxA ten).
Proof.
  intros Hm. induction order as [|i order IH]; cbn [ShardedTaskRepository.claimFrom]; [apply keeps_ret|].
  apply keeps_bind; [by apply keeps_try, onShard_keeps|]. intros [[t|]|e]; [apply keeps_ret | exact IH|].
  destruct (is_not_leader e); [exact IH | apply keeps_throw].
Qed.

Lemma claimManyFrom_keeps n cvt seed order out now w cmds lease max limit maxA ten :
  (forall i k, keeps (shardInv n i) (TaskRepository.ClaimMany cvt seed now w cmds lease k limit maxA ten)) ->
  keeps (SInv n) (ShardedTaskRepository.claimManyFrom cvt seed order out now w cmds lease max limit maxA ten).
Proof.
  intros Hm. revert out. induction order as [|i order IH]; intros out; cbn [ShardedTaskRepository.claimManyFrom]; [apply keeps_ret|].
  destruct (max <=? _); [apply keeps_ret|]. apply keeps_bind; [by apply keeps_try, onShard_keeps|].
  intros [got|e]; [apply IH|]. destruct (is_not_leader e); [apply IH | apply keeps_ret].
Qed.

Lemma overShards_keeps n skip (op : M (Repo P) Z) :
  (forall i, keeps (shardInv n i) op) -> keeps (SInv n) (ShardedTaskRepository.overShards skip op).
Proof.
  intros Hm. apply keeps_bind; [apply shardCount_keeps|]. intros k. generalize 0.
  induction (seq 0 k) as [|i order IH]; intros total; cbn [ShardedTaskRepository.sumShards]; [apply keeps_ret|].
  apply keeps_bind; [by apply keeps_try, onShard_keeps|]. intros [x|e]; [apply IH|].
  destruct (_ && _); [apply IH | apply keeps_ret].
Qed.

(** ** Reading calls *)

Definition reading {S A} (m : M S A) : Prop := forall x : S, snd (m x) = x.

Lemma onShard_reading {A} i (m : M (Repo P) A) : reading m -> reading (onShard i m).
Proof.
  intros Hm [l rr]. unfold onShard. cbn [sh_shards sh_rr]. destruct (l !! i) as [r|] eqn:E; [|done].
  specialize (Hm r). destruct (m r) as [x r']. cbn in Hm. subst r'. cbn [snd]. by rewrite list_insert_id.
Qed.

Lemma routed_reading {A} key (m : M (Repo P) A) : reading m -> reading (routed key m).
Proof. intros Hm s. unfold routed, shardOf, mbnd. by apply onShard_reading. Qed.

Lemma dbGet_reading k : reading (db (P := P) (PebbleDB.Get k)).
Proof. intros r. unfold db, mlift, PebbleDB.Get. cbn. apply set_db_id. Qed.

Lemma Get_reading id : reading (TaskRepository.Get (P := P) id).
Proof.
  intros r. unfold TaskRepository.Get, mbnd, mtry. pose proof (dbGet_reading (KeyTask id) r) as Hr.
  destruct (db (PebbleDB.Get (KeyTask id)) r) as [[v|e] r']; cbn in Hr; subst r'; cbn.
  - unfold TaskRepository.decode. by destruct (unmarshal_task v).
  - by destruct (is_not_found e).
Qed.

(** The idempotency lookup decides between a hit and the enqueue on the shard
    of the new id, in the state it was called in. *)
Lemma EnqueueWithReady_cases newID now cmd payload prio webhook maxA idem visibleAt ten s :
  let e := ShardedTaskRepository.EnqueueWithReady newID now cmd payload prio webhook maxA idem visibleAt ten in
  snd (e s) = s \/
  e s = routed newID (TaskRepository.EnqueueWithID now newID cmd payload prio webhook maxA idem visibleAt ten) s.
Proof.
  cbv zeta. unfold ShardedTaskRepository.EnqueueWithReady. destruct (bool_decide (idem = "")); [by right|].
  unfold mbnd, mtry. pose proof (routed_reading idem _ (dbGet_reading (KeyIdempo idem)) s) as H1'.
  destruct (routed idem (db (PebbleDB.Get (KeyIdempo idem))) s) as [[v|e] s1]; cbn in H1'; subst s1; [|by right].
  pose proof (routed_reading v _ (Get_reading v) s) as H2'.
  destruct (routed v (TaskRepository.Get v) s) as [[t|e] s1]; cbn in H2'; subst s1; [by left | by right].
Qed.

(** ** Runs *)

Definition shardAt s (key : string) : option (Repo P) := sh_shards s !! shardIndex (length (sh_shards s)) key.

(** The calls and the reapers of the shards, with the conditions the single
    repository's calls have. *)
Inductive sstep (s : Sharded P) : Sharded P -> Prop :=
  | s_enqueue newID now cmd payload prio webhook maxA idem visibleAt ten :
      (forall r, shardAt s newID = Some r -> absent (stored (r_db r)) newID) -> id_ok newID = true ->
      name_ok cmdSeg cmd -> name_ok tenantSeg ten -> time_ok now -> unix visibleAt < 2 ^ 56 ->
      sstep s (snd (ShardedTaskRepository.EnqueueWithReady newID now cmd payload prio webhook maxA idem visibleAt ten s))
  | s_claim cvt seed now w cmds lease limit maxA ten :
      time_ok now -> w <> "" -> four_digit_year (now + seconds lease) = true -> claim_ok cmds ten ->
      sstep s (snd (ShardedTaskRepository.Claim cvt seed now w cmds lease limit maxA ten s))
  | s_claimMany cvt seed now w cmds lease max limit maxA ten :
      time_ok now -> w <> "" -> four_digit_year (now + seconds lease) = true -> claim_ok cmds ten ->
      sstep s (snd (ShardedTaskRepository.ClaimMany cvt seed now w cmds lease max limit maxA ten s))
  | s_heartbeat now id w ext :
      time_ok now -> four_digit_year (now + seconds ext) = true ->
      sstep s (snd (ShardedTaskRepository.Heartbeat now id w ext s))
  | s_abandon now id w : sstep s (snd (ShardedTaskRepository.Abandon now id w s))
  | s_nack now id w delay maxA reason :
      time_ok now -> sstep s (snd (ShardedTaskRepository.Nack now id w delay maxA reason s))
  | s_move now cmd limit :
      time_ok now -> seg_ok cmd = true -> sstep s (snd (ShardedTaskRepository.MoveDueDelayed now cmd limit s))
  | s_cleanup limit before : sstep s (snd (ShardedTaskRepository.CleanupExpired limit before s))
  | s_save now rec : time_ok now -> sstep s (snd (ShardedResultRepository.SaveResult now rec s))
  | s_update now id cmd ten st msg :
      time_ok now -> final_status st ->
      (forall r t, shardAt s id = Some r -> live (stored (r_db r)) id t ->
         t.(Status) = StatusInProgress /\ t.(Command) = cmd /\ t.(TenantID) = ten) ->
      sstep s (snd (ShardedResultRepository.UpdateTaskOnComplete now id cmd ten st msg s))
  | s_sweepLeases i cvt seed opts order now :
      time_ok now -> sstep s (snd (onShard i (db (Reaper.tick opts (Reaper.sweepLeases cvt seed opts order now))) s))
  | s_sweepTTL i opts now : sstep s (snd (onShard i (db (Reaper.tick opts (Reaper.sweepTTL opts now))) s)).

Definition sreachable s : Prop :=
  exists s0, sh_shards s0 <> [] /\ Forall initial (sh_shards s0) /\ rtc sstep s0 s.

(** A call on the shard of a key, from what it does there. *)
Lemma routed_at {A} n key (m : M (Repo P) A) s :
  SInv n s -> (forall r, shardAt s key = Some r -> shardInv n (shardIndex n key) r -> shardInv n (shardIndex n key) (snd (m r))) ->
  SInv n (snd (routed key m s)).
Proof.
  intros [Hl Hs] Hm. unfold routed, shardOf, mbnd. unfold shardAt in Hm. rewrite Hl in *. unfold onShard.
  destruct (sh_shards s !! _) as [r|] eqn:E; [|by split].
  specialize (Hm r eq_refl (Hs _ _ E)). destruct (m r) as [x r']. cbn [snd] in *. split; cbn [sh_shards]; [by rewrite length_insert|].
  intros j r2 Hj. apply list_lookup_insert_Some in Hj as [(<- & <- & _)|[Hne Hj]]; [done | by apply Hs].
Qed.

Ltac destruct_claim := match goal with Hc : claim_ok _ _ |- _ => destruct Hc end.

Lemma sstep_inv n s s' : SInv n s -> sstep s s' -> SInv n s'.
Proof.
  intros I Hst. destruct Hst.
  - destruct (EnqueueWithReady_cases newID now cmd payload prio webhook maxA idem visibleAt ten s) as [E|E]; cbv zeta in E; rewrite E; [done|].
    apply routed_at; [done|]. intros r Hr Ir.
    apply (EnqueueWithID_inv (H4 := foreign n (shardIndex n newID)) now newID cmd payload prio webhook maxA idem visibleAt ten r Ir); try done.
    destruct (H4 r Hr) as [Ha Hb]. split_and!; [done | done|]. by intros st [Hne _].
  - apply (keeps_bind _ _ _ (nextStart_keeps n)); [|done]. intros start. apply keeps_bind; [apply shardCount_keeps|].
    intros k. apply claimFrom_keeps. intros i. destruct_claim. by apply (Claim_inv (H4 := foreign n i)).
  - unfold ShardedTaskRepository.ClaimMany. destruct (max <=? 0); [done|].
    apply (keeps_bind _ _ _ (nextStart_keeps n)); [|done]. intros start. apply keeps_bind; [apply shardCount_keeps|].
    intros k. apply claimManyFrom_keeps. intros i k'. destruct_claim. by apply (ClaimMany_inv (H4 := foreign n i)).
  - apply (routed_keeps n); [|done]. by apply (Heartbeat_inv (H4 := foreign _ _)).
  - apply (routed_keeps n); [|done]. by apply (Abandon_inv (H4 := foreign _ _)).
  - apply (routed_keeps n); [|done]. by apply (Nack_inv (H4 := foreign _ _)).
  - apply overShards_keeps; [|done]. intros i. by apply (moveDueDelayed_inv (H4 := foreign n i)).
  - apply overShards_keeps; [|done]. intros i. apply (CleanupExpired_inv (H4 := foreign n i)).
  - apply (routed_keeps n); [|done]. apply (keeps_db (H4 := foreign _ _)). intros queues. apply keeps_wp. intros d Id.
    eapply wp_mono; [by apply (SaveResult_wp (H4 := foreign n (shardIndex n (rr_TaskID rec))) queues)|]. by intros x d' [].
  - apply routed_at; [done|]. intros r Hr Ir. unfold db, mlift.
    pose proof (UpdateTaskOnComplete_wp (H4 := foreign n (shardIndex n id)) (r_queues r) now id cmd ten st msg (r_db r) Ir) as Hw. unfold wp in Hw.
    destruct (ResultRepository.UpdateTaskOnComplete _ _ _ _ _ _ (r_db r)) as [x d']. apply Hw; eauto.
  - apply (onShard_keeps n); [|done]. apply (keeps_db (H4 := foreign _ _)). intros queues. apply (tick_inv (H4 := foreign _ _)).
    by apply (sweepLeases_inv (H4 := foreign _ _)).
  - apply (onShard_keeps n); [|done]. apply (keeps_db (H4 := foreign _ _)). intros queues. apply (tick_inv (H4 := foreign _ _)).
    by apply (sweepTTL_inv (H4 := foreign _ _)).
Qed.

Lemma sreachable_inv s : sreachable s -> SInv (length (sh_shards s)) s.
Proof.
  intros (s0 & _ & Hi & Hst). assert (SInv (length (sh_shards s0)) s0) as I0.
  { split; [done|]. intros i r Hr. rewrite Forall_forall in Hi. apply (initial_inv (H4 := foreign _ _)), Hi.
    by eapply list_elem_of_lookup_2. }
  clear Hi. set (n := length (sh_shards s0)) in *. assert (SInv n s) as I'.
  { clearbody n. induction Hst; [done|]. eauto using sstep_inv. }
  by rewrite (proj1 I').
Qed.

End sharded_inv.

(** ** A node of two shards *)

Section run.
Import framed demo.

Definition two : Sharded memstore.store := mkSharded [r0; r0] 0.

Definition enqueue (id key : string) : M (Sharded memstore.store) (Task * bool) :=
  ShardedTaskRepository.EnqueueWithReady id t0 "send" "body" 5 "" 3 key zero_time "acme".

Lemma two_run : sreachable (snd (enqueue "t2" "k" two)).
Proof.
  exists two. split; [done|]. split; [repeat constructor; apply r0_initial|].
  eapply rtc_l; [|apply rtc_refl].
  apply s_enqueue; [|reflexivity | by apply name_ok_dec | by apply name_ok_dec | unfold time_ok, t0, second; lia | reflexivity].
  intros r Hr. assert (r = r0) as -> by (vm_compute in Hr; injection Hr as <-; reflexivity).
  change (stored (r_db r0)) with (∅ : gmap string string). split; [apply lookup_empty | intros; apply lookup_empty].
Qed.

(** The second shard after the enqueue, and its task. *)
Definition shard1 : Repo memstore.store := default r0 (sh_shards (snd (enqueue "t2" "k" two)) !! 1%nat).

Definition task2 : Task :=
  mkTask "t2" "send" "body" 5 "" "" "" StatusPending LocationPending "" "" 0 3 "" "" "acme" t0 t0.

Lemma task2_live : live (stored (r_db shard1)) "t2" task2.
Proof. eexists. split; [vm_compute; reflexivity | vm_compute; reflexivity]. Qed.


(** Idempotency is lost between shards.  The entry of an idempotency key is
    written on the shard of the new task and looked up on the shard of the key
    (the comment says they are the same): of two enqueues with one key the
    second creates a second task when the three shards fall that way. *)
Theorem sharded_idempotency_lost :
  let s1 := snd (enqueue "t2" "k" two) in
  let s2 := snd (enqueue "t1" "k" s1) in
  (exists t, fst (enqueue "t1" "k" s1) = Ok (t, true) /\ t.(ID) = "t1") /\
  (exists t, fst (ShardedTaskRepository.Get "t2" s2) = Ok t) /\
  (exists t, fst (ShardedTaskRepository.Get "t1" s2) = Ok t) /\
  fst (ShardedTaskRepository.QueueStats "send" "acme" s2) = Ok (mkStats "send" 2 0 0 0).
Proof.
  split_and!; [eexists; split; vm_compute; reflexivity | eexists; vm_compute; reflexivity
    | eexists; vm_compute; reflexivity | vm_compute; reflexivity].
Qed.
End run.
