(* ===== verification/ClusterInv.v ===== *)
(** Every task of a cluster is on the member that owns its id, whatever the
    members call and whatever the network loses, and each member keeps the
    queue invariant. *)

From S2P Require Import Prelude GoTime Domain Keys LeaseTable PebbleDB Backoff TaskRepo ResultRepo Reaper Scheduler ResultsService Invariant KeyScan Bulk RepoInv Lifecycle Sweeps BatchOps ResultInv ClaimManyInv Recovery System Effects Guarantees Hash Sharded ShardedInv Ring Bloom Cluster ClusterRoute.

(** No task another member owns is stored: it would have to have both final
    statuses. *)
Definition elsewhere (ring : Ring) (n : string) : Ghost := {|
  frozen id st := n_ID (Owner ring id) <> n /\ (st = StatusCompleted \/ st = StatusFailed);
  frozen_final id st F := proj2 F
|}.

Section cluster_inv.
Context {P : Type} `{PebbleReads P} `{JSONLaws} `{Timestamppb} `{MapJSON}.
Variable ring : Ring.
Implicit Types (s : Cluster P) (E : cluster_env) (self n : string).

Definition homeInv n (r : Repo P) : Prop := RInv (H3 := elsewhere ring n) r.
Definition memberInv n (mb : member P) : Prop := homeInv n (mb_repo mb).
Definition CInv s : Prop := forall n mb, cl_members s !! n = Some mb -> memberInv n mb.

(** ** Calls keep the invariant *)

Lemma repo_keeps {A} n (m : M (Repo P) A) : keeps (homeInv n) m -> keeps (memberInv n) (repo m).
Proof. intros Hm mb Hmb. unfold repo, mlift. specialize (Hm _ Hmb). by destruct (m (mb_repo mb)). Qed.

Lemma CInv_put n mb' mem calls :
  CInv (mkCluster mem calls) -> memberInv n mb' -> forall calls', CInv (mkCluster (<[n := mb']> mem) calls').
Proof.
  intros HC Hm calls' k mb. cbn [cl_members]. destruct (decide (k = n)) as [->|Hne].
  - rewrite lookup_insert_eq. by intros [= <-].
  - rewrite lookup_insert_ne by done. apply HC.
Qed.

(** A computation on a member, from what it does to this member. *)
Lemma onMember_inv {A} s n (m : M (member P) A) :
  CInv s -> (forall mb, cl_members s !! n = Some mb -> memberInv n mb -> memberInv n (snd (m mb))) -> CInv (snd (onMember n m s)).
Proof.
  intros HC Hm. unfold onMember. destruct (cl_members s !! n) as [mb|] eqn:En; [|done].
  specialize (Hm mb eq_refl (HC _ _ En)). destruct (m mb) as [x mb']. cbn [snd] in *. destruct s. by eapply CInv_put.
Qed.

Lemma onMember_keeps {A} n (m : M (member P) A) : keeps (memberInv n) m -> keeps CInv (onMember n m).
Proof. intros Hm s HC. apply onMember_inv; [done|]. intros mb _ Hmb. by apply Hm. Qed.

Lemma call_inv {A} E s (nd : Node) (h : M (member P) A) :
  CInv s -> (forall mb, cl_members s !! n_ID nd = Some mb -> memberInv (n_ID nd) mb -> memberInv (n_ID nd) (snd (h mb))) ->
  CInv (snd (call E nd h s)).
Proof.
  intros HC Hh. unfold call.
  pose proof (onMember_inv (mkCluster (cl_members s) (S (cl_calls s))) (n_ID nd) h HC Hh) as Ho.
  destruct (ce_net E (cl_calls s)); [| exact HC |]; by destruct (onMember _ _ _) as [x s2].
Qed.

Lemma call_keeps {A} E (nd : Node) (h : M (member P) A) : keeps (memberInv (n_ID nd)) h -> keeps CInv (call E nd h).
Proof. intros Hh s HC. apply call_inv; [done|]. intros mb _ Hmb. by apply Hh. Qed.

(** Nothing but connections changes. *)
Definition same_repos s s' : Prop :=
  forall n, option_map mb_repo (cl_members s' !! n) = option_map mb_repo (cl_members s !! n).

Lemma same_repos_put s n mb mb' calls :
  cl_members s !! n = Some mb -> mb_repo mb' = mb_repo mb -> same_repos s (mkCluster (<[n := mb']> (cl_members s)) calls).
Proof.
  intros Hm Hr k. cbn [cl_members]. destruct (decide (k = n)) as [->|Hne].
  - rewrite lookup_insert_eq, Hm. cbn. by rewrite Hr.
  - by rewrite lookup_insert_ne.
Qed.

Lemma onMember_same {A} s n (m : M (member P) A) :
  (forall mb, mb_repo (snd (m mb)) = mb_repo mb) -> same_repos s (snd (onMember n m s)).
Proof.
  intros Hm. unfold onMember. destruct (cl_members s !! n) as [mb|] eqn:En; [|by intros k].
  specialize (Hm mb). destruct (m mb) as [x mb']. cbn [snd] in *. by eapply same_repos_put.
Qed.

Lemma Client_same E s self nd : same_repos s (snd (Client E self nd s)).
Proof. apply onMember_same. intros mb. destruct (decide _); [done|]. by destruct (ce_dial E nd). Qed.

Lemma peerHasLikely_same s self o key : same_repos s (snd (peerHasLikely self o key s)).
Proof. apply onMember_same. intros mb. by destruct (mb_cache mb). Qed.

Lemma same_repos_inv s s' : same_repos s s' -> CInv s -> CInv s'.
Proof.
  intros Hs HC n mb Hm. specialize (Hs n). rewrite Hm in Hs. cbn in Hs.
  destruct (cl_members s !! n) as [m0|] eqn:En; [|done]. injection Hs as Hs. unfold memberInv. rewrite Hs. by apply (HC n).
Qed.

Lemma same_repos_at s s' n mb : same_repos s s' -> cl_members s' !! n = Some mb ->
  exists mb0, cl_members s !! n = Some mb0 /\ mb_repo mb0 = mb_repo mb.
Proof.
  intros Hs Hm. specialize (Hs n). rewrite Hm in Hs. cbn in Hs. destruct (cl_members s !! n) as [m0|]; [|done].
  injection Hs as Hs. by exists m0.
Qed.

Lemma same_repos_trans s1 s2 s3 : same_repos s1 s2 -> same_repos s2 s3 -> same_repos s1 s3.
Proof. intros H12 H23 n. by rewrite H23, H12. Qed.

Lemma Client_keeps E self nd : keeps CInv (Client E self nd).
Proof. intros s. apply same_repos_inv, Client_same. Qed.

Lemma CallEach_keeps {A} E self nodes (fn : Node -> M (member P) A) :
  (forall nd, keeps (memberInv (n_ID nd)) (fn nd)) -> keeps CInv (CallEach E self nodes fn).
Proof.
  intros Hf. apply keeps_fold. intros out nd _. apply keeps_bind; [|intros; apply keeps_ret]. apply keeps_try.
  apply keeps_bind; [apply Client_keeps|]. intros _. by apply call_keeps.
Qed.

(** A call about an id runs on the owner's repository. *)
Lemma byID_inv {A R} E s self id (local : M (Repo P) A) (remote : M (member P) R) (answer : R -> res A) :
  ce_ring E = ring -> CInv s ->
  (forall mb0 mb, cl_members s !! ownerID E id = Some mb0 -> mb_repo mb = mb_repo mb0 -> homeInv (ownerID E id) (mb_repo mb0) ->
     homeInv (ownerID E id) (snd (local (mb_repo mb0))) /\ memberInv (ownerID E id) (snd (remote mb))) ->
  CInv (snd (byID E self id local remote answer s)).
Proof.
  intros Hr HC Hop. unfold byID. rewrite IsLocal_spec. destruct (bool_decide (self = ownerID E id)) eqn:Hs.
  - apply bool_decide_eq_true in Hs as ->. apply onMember_inv; [done|]. intros mb Hm Hi. unfold repo, mlift.
    destruct (Hop mb mb Hm eq_refl Hi) as [Hl _]. by destruct (local (mb_repo mb)).
  - unfold mbnd. pose proof (peerHasLikely_same s self (n_ID (Owner (ce_ring E) id)) id) as S1.
    destruct (peerHasLikely self _ id s) as [[b|e] s1]; cbn [snd] in S1; [|by eapply same_repos_inv].
    destruct (negb b); [by eapply same_repos_inv|]. pose proof (Client_same E s1 self (Owner (ce_ring E) id)) as S2.
    destruct (Client E self _ s1) as [[[]|e] s2]; cbn [snd] in S2; pose proof (same_repos_trans _ _ _ S1 S2) as S3;
      [|by eapply same_repos_inv].
    assert (CInv (snd (call E (Owner (ce_ring E) id) remote s2))) as HC2.
    { apply call_inv; [by eapply same_repos_inv|]. intros mb Hm Hi. destruct (same_repos_at _ _ _ _ S3 Hm) as (mb0 & Hm0 & Hr0).
      apply (Hop mb0 mb); [done | done|]. unfold memberInv in Hi. by rewrite Hr0. }
    destruct (call E _ remote s2) as [[resp|e] s4]; [|done]. by destruct (answer resp).
Qed.

Lemma byID_keeps {A R} E self id (local : M (Repo P) A) (remote : M (member P) R) (answer : R -> res A) :
  ce_ring E = ring -> keeps (homeInv (ownerID E id)) local -> keeps (memberInv (ownerID E id)) remote ->
  keeps CInv (byID E self id local remote answer).
Proof.
  intros Hr Hl Hrem s HC. apply byID_inv; [done | done|]. intros mb0 mb Hm Hmb Hi. split; [by apply Hl|].
  apply Hrem. unfold memberInv. by rewrite Hmb.
Qed.

(** A handler that runs one operation and then only answers. *)
Lemma handler_keeps {A R} n (m : M (Repo P) A) (k : res A -> M (member P) R) :
  keeps (homeInv n) m -> (forall x, keeps (memberInv n) (k x)) -> keeps (memberInv n) (let! r := mtry (repo m) in k r).
Proof. intros Hm Hk. apply keeps_bind; [by apply keeps_try, repo_keeps | exact Hk]. Qed.

Lemma publishID_keeps n id : keeps (memberInv n) (publishID id).
Proof. intros mb Hmb. unfold publishID. destruct (mb_bloom mb) as [b|]; [|done]. by destruct (Add id b). Qed.

Ltac answers := intros; repeat first [ apply keeps_ret | apply keeps_throw | progress case_match ].

(** ** Runs *)

Definition memberAt s n : option (Repo P) := option_map mb_repo (cl_members s !! n).

(** The calls of the members, their reapers, gossip and restarts; the network
    of each call is whatever its environment says. *)
Inductive cstep (s : Cluster P) : Cluster P -> Prop :=
  | c_enqueue E self genID cmd payload prio webhook maxA idem visibleAt ten :
      ce_ring E = ring ->
      let id := GenerateLocalID (localRing E self) genID in
      (forall r, memberAt s (ownerID E id) = Some r -> absent (stored (r_db r)) id) -> id_ok id = true ->
      name_ok cmdSeg cmd -> name_ok tenantSeg ten -> (forall n, time_ok (ce_clock E n)) -> unix visibleAt < 2 ^ 56 ->
      cstep s (snd (TaskRouter.EnqueueWithReady E self genID cmd payload prio webhook maxA idem visibleAt ten s))
  | c_claim E self w cmds lease limit maxA ten :
      ce_ring E = ring -> (forall n, time_ok (ce_clock E n)) -> w <> "" -> int32 lease ->
      (forall n, four_digit_year (ce_clock E n + seconds lease) = true) -> claim_ok cmds ten ->
      cstep s (snd (TaskRouter.Claim E self w cmds lease limit maxA ten s))
  | c_heartbeat E self id w ext :
      ce_ring E = ring -> (forall n, time_ok (ce_clock E n)) -> int32 ext ->
      (forall n, four_digit_year (ce_clock E n + seconds ext) = true) ->
      cstep s (snd (TaskRouter.Heartbeat E self id w ext s))
  | c_abandon E self id w : ce_ring E = ring -> cstep s (snd (TaskRouter.Abandon E self id w s))
  | c_nack E self id w delay maxA reason :
      ce_ring E = ring -> (forall n, time_ok (ce_clock E n)) ->
      cstep s (snd (TaskRouter.Nack E self id w delay maxA reason s))
  | c_move E self cmd limit :
      ce_ring E = ring -> (forall n, time_ok (ce_clock E n)) -> seg_ok cmd = true ->
      cstep s (snd (TaskRouter.MoveDueDelayed E self cmd limit s))
  | c_cleanup self limit before : cstep s (snd (TaskRouter.CleanupExpired self limit before s))
  | c_get E self id : ce_ring E = ring -> cstep s (snd (TaskRouter.Get E self id s))
  | c_getResult E self id : ce_ring E = ring -> cstep s (snd (ResultRouter.GetResult E self id s))
  | c_save E self rec :
      ce_ring E = ring -> (forall n, time_ok (ce_clock E n)) -> cstep s (snd (ResultRouter.SaveResult E self rec s))
  | c_update E self id cmd ten st msg :
      ce_ring E = ring -> (forall n, time_ok (ce_clock E n)) -> final_status st ->
      (forall r t, memberAt s (ownerID E id) = Some r -> live (stored (r_db r)) id t ->
         t.(Status) = StatusInProgress /\ t.(Command) = cmd /\ t.(TenantID) = ten) ->
      cstep s (snd (ResultRouter.UpdateTaskOnComplete E self id cmd ten st msg s))
  | c_sweepLeases n cvt seed opts order now :
      time_ok now ->
      cstep s (snd (onMember n (repo (db (Reaper.tick opts (Reaper.sweepLeases cvt seed opts order now)))) s))
  | c_sweepTTL n opts now : cstep s (snd (onMember n (repo (db (Reaper.tick opts (Reaper.sweepTTL opts now)))) s))
  | c_poll E self : cstep s (snd (pollAll E self s))
  | c_restart n mb r' b c :
      cl_members s !! n = Some mb -> restarts (mb_repo mb) r' ->
      cstep s (mkCluster (<[n := mkMember r' b c ∅]> (cl_members s)) (cl_calls s)).

Definition creachable s : Prop :=
  exists s0, (forall n mb, cl_members s0 !! n = Some mb -> initial (mb_repo mb)) /\ rtc cstep s0 s.

(** ** Preservation *)

Lemma reading_home {A} n (m : M (Repo P) A) : reading m -> keeps (homeInv n) m.
Proof. intros Hm r Hr. by rewrite Hm. Qed.

Lemma GetResult_reading id : reading (db (P := P) (ResultRepository.GetResult id)).
Proof.
  intros r. unfold db, mlift, ResultRepository.GetResult, mbnd, mtry, PebbleDB.Get. cbn.
  destruct (p_get _ _) as [v|e]; cbn.
  - destruct (unmarshal_result v); cbn; apply set_db_id.
  - destruct (is_not_found _); cbn; apply set_db_id.
Qed.

Lemma Enqueue_home now id cmd payload prio webhook maxA idem visibleAt ten n r :
  homeInv n r -> n_ID (Owner ring id) = n -> absent (stored (r_db r)) id -> id_ok id = true ->
  name_ok cmdSeg cmd -> name_ok tenantSeg ten -> time_ok now -> unix visibleAt < 2 ^ 56 ->
  homeInv n (snd (TaskRepository.EnqueueWithID now id cmd payload prio webhook maxA idem visibleAt ten r)).
Proof.
  intros Ir Hn [Ha Hb] Hid Hc Ht Hnow Hv.
  apply (EnqueueWithID_inv (H4 := elsewhere ring n) now id cmd payload prio webhook maxA idem visibleAt ten r Ir); try done.
  split_and!; [done | done|]. by intros st [Hne _].
Qed.

Lemma Save_home now rec n : time_ok now -> keeps (homeInv n) (db (ResultRepository.SaveResult now rec)).
Proof.
  intros Hnow. apply (keeps_db (H4 := elsewhere ring n)). intros queues. apply keeps_wp. intros d Id.
  eapply wp_mono; [by apply (SaveResult_wp (H4 := elsewhere ring n) queues)|]. by intros x d' [].
Qed.

Lemma Update_home now id cmd ten st msg n r :
  homeInv n r -> time_ok now -> final_status st ->
  (forall t, live (stored (r_db r)) id t -> t.(Status) = StatusInProgress /\ t.(Command) = cmd /\ t.(TenantID) = ten) ->
  homeInv n (snd (db (ResultRepository.UpdateTaskOnComplete now id cmd ten st msg) r)).
Proof.
  intros Ir Hnow Hf Hl. unfold db, mlift.
  pose proof (UpdateTaskOnComplete_wp (H4 := elsewhere ring n) (r_queues r) now id cmd ten st msg (r_db r) Ir) as Hw. unfold wp in Hw.
  destruct (ResultRepository.UpdateTaskOnComplete _ _ _ _ _ _ (r_db r)) as [x d']. by apply Hw.
Qed.

Lemma EnqueueWithReady_inv E self genID cmd payload prio webhook maxA idem visibleAt ten s :
  ce_ring E = ring -> CInv s ->
  let id := GenerateLocalID (localRing E self) genID in
  (forall r, memberAt s (ownerID E id) = Some r -> absent (stored (r_db r)) id) -> id_ok id = true ->
  name_ok cmdSeg cmd -> name_ok tenantSeg ten -> (forall n, time_ok (ce_clock E n)) -> unix visibleAt < 2 ^ 56 ->
  CInv (snd (TaskRouter.EnqueueWithReady E self genID cmd payload prio webhook maxA idem visibleAt ten s)).
Proof.
  intros Hr HC id Hab Hid Hc Ht Hnow Hv. unfold TaskRouter.EnqueueWithReady. cbv zeta. fold id. rewrite IsLocal_spec. clearbody id.
  assert (n_ID (Owner ring id) = ownerID E id) as Ho by (unfold ownerID; by rewrite Hr).
  assert (forall s1 mb, same_repos s s1 -> cl_members s1 !! ownerID E id = Some mb ->
    absent (stored (r_db (mb_repo mb))) id) as Habs.
  { intros s1 mb Hs Hm. apply Hab. unfold memberAt. destruct (same_repos_at _ _ _ _ Hs Hm) as (m0 & -> & <-). done. }
  destruct (bool_decide (self = ownerID E id)) eqn:Hs.
  - apply bool_decide_eq_true in Hs as ->. unfold mbnd.
    match goal with |- context [onMember ?n (repo ?m) s] =>
      assert (CInv (snd (onMember n (repo m) s))) as HC1; [|destruct (onMember n (repo m) s) as [[[t b]|e] s1]; cbn [snd] in *; [|exact HC1]] end.
    { apply onMember_inv; [done|]. intros mb Hm Hi. unfold repo, mlift.
      pose proof (Enqueue_home (ce_clock E (ownerID E id)) id cmd payload prio webhook maxA idem visibleAt ten _ _ Hi Ho (Habs s mb (fun _ => eq_refl) Hm) Hid Hc Ht (Hnow _) Hv).
      by destruct (TaskRepository.EnqueueWithID _ _ _ _ _ _ _ _ _ _ (mb_repo mb)). }
    pose proof (onMember_keeps (ownerID E id) _ (publishID_keeps _ t.(ID)) s1 HC1) as HC2. cbn [fst].
    by destruct (onMember (ownerID E id) (publishID t.(ID)) s1) as [[[]|e] s2].
  - unfold mbnd, wrap_err. pose proof (Client_same E s self (Owner (ce_ring E) id)) as S1.
    destruct (Client E self _ s) as [[[]|e] s1]; cbn [snd] in S1; [|by eapply same_repos_inv].
    match goal with |- context [call E ?o ?h s1] =>
      assert (CInv (snd (call E o h s1))) as HC2; [|by destruct (call E o h s1) as [[resp|e] s4]] end.
    apply call_inv; [by eapply same_repos_inv|]. intros mb Hm Hi. unfold Server.Enqueue, mbnd, repo, mlift. cbn.
    match goal with |- context [TaskRepository.EnqueueWithID ?now _ _ _ ?pr _ ?mx _ ?v _ _] =>
      pose proof (Enqueue_home now id cmd payload pr webhook mx idem v ten _ _ Hi Ho (Habs s1 mb S1 Hm) Hid Hc Ht (Hnow _)) as He end.
    assert (unix (if 0 <? (if is_zero visibleAt then 0 else unix visibleAt)
      then (if is_zero visibleAt then 0 else unix visibleAt) * second else zero_time) < 2 ^ 56) as Hv'.
    { destruct (is_zero visibleAt); [done|]. destruct (0 <? unix visibleAt); [|done].
      unfold unix at 1. by rewrite Z.div_mul. }
    specialize (He Hv'). destruct (TaskRepository.EnqueueWithID _ _ _ _ _ _ _ _ _ _ (mb_repo mb)) as [[[t b]|e] r']; cbn [snd] in *; [|exact He].
    pose proof (publishID_keeps (n_ID (Owner (ce_ring E) id)) t.(ID) (set_repo r' mb) He) as Hp. cbn [fst].
    by destruct (publishID t.(ID) (set_repo r' mb)) as [[[]|e] mb2].
Qed.

Lemma memberAt_some s n mb : cl_members s !! n = Some mb -> memberAt s n = Some (mb_repo mb).
Proof. unfold memberAt. by intros ->. Qed.

(** The server's handlers keep the invariant of their member. *)
Lemma Server_keeps n id w :
  keeps (memberInv n) (Server.GetTask id) /\
  keeps (memberInv n) (Server.GetResult id) /\
  (forall now, keeps (memberInv n) (Server.Abandon now id w)) /\
  (forall now delay maxA reason, time_ok now -> keeps (memberInv n) (Server.Nack now (clusterpb.mkNackRequest id w delay maxA reason))) /\
  (forall now ext, time_ok now -> four_digit_year (now + seconds ext) = true ->
     keeps (memberInv n) (Server.Heartbeat now (clusterpb.mkHeartbeatRequest id w ext))) /\
  (forall now rec, time_ok now -> keeps (memberInv n) (Server.SaveResult now rec)).
Proof.
  split_and!; intros; apply handler_keeps; try (by answers).
  - apply reading_home, Get_reading.
  - apply reading_home, GetResult_reading.
  - apply (Abandon_inv (H4 := elsewhere ring n)).
  - by apply (Nack_inv (H4 := elsewhere ring n)).
  - by apply (Heartbeat_inv (H4 := elsewhere ring n)).
  - by apply Save_home.
Qed.

Lemma Claim_home E k w cmds lease limit maxA ten n :
  time_ok (ce_clock E k) -> w <> "" -> four_digit_year (ce_clock E k + seconds lease) = true -> claim_ok cmds ten ->
  keeps (homeInv n) (TaskRepository.Claim (ce_cvt E) (ce_seed E) (ce_clock E k) w cmds lease limit maxA ten).
Proof. intros Hnow Hw Hy []. by apply (Claim_inv (H4 := elsewhere ring n)). Qed.

Lemma Claim_keeps E self w cmds lease limit maxA ten :
  (forall n, time_ok (ce_clock E n)) -> w <> "" -> int32 lease ->
  (forall n, four_digit_year (ce_clock E n + seconds lease) = true) -> claim_ok cmds ten ->
  keeps CInv (TaskRouter.Claim E self w cmds lease limit maxA ten).
Proof.
  intros Hnow Hw Hl Hy Hc. apply keeps_bind; [by apply onMember_keeps, repo_keeps, Claim_home|].
  intros [t|]; [apply keeps_ret|]. apply keeps_bind; [|intros; apply keeps_ret]. apply CallEach_keeps. intros nd.
  unfold Server.LocalClaim. apply keeps_bind; [|answers]. apply repo_keeps. cbn. rewrite (Int32_id lease) by done. by apply Claim_home.
Qed.

Lemma pollAll_keeps E self : keeps CInv (pollAll (P := P) E self).
Proof.
  apply keeps_bind.
  - apply CallEach_keeps. intros nd mb Hmb. exact Hmb.
  - intros rs. apply keeps_for. intros r _. apply onMember_keeps, keeps_mod. by intros mb Hmb.
Qed.

Lemma cstep_inv s s' : CInv s -> cstep s s' -> CInv s'.
Proof.
  intros HC Hst. destruct Hst as
    [E self genID cmd payload prio webhook maxA idem visibleAt ten Hr id|E self w cmds lease limit maxA ten Hr
    |E self id w ext Hr Hnow Hi Hy|E self id w Hr|E self id w delay maxA reason Hr Hnow|E self cmd limit Hr Hnow Hc|self limit before
    |E self id Hr|E self id Hr|E self rec Hr Hnow|E self id cmd ten st msg Hr Hnow Hf Hl|n cvt seed opts order now Hnow|n opts now|E self
    |n mb r' b c Hm Hre].
  - by apply EnqueueWithReady_inv.
  - by apply Claim_keeps.
  - apply byID_keeps; [done | by apply (Heartbeat_inv (H4 := elsewhere _ _)) | | done]. rewrite Int32_id by done. by apply Server_keeps.
  - apply byID_keeps; [done | by apply (Abandon_inv (H4 := elsewhere _ _)) | by apply Server_keeps | done].
  - apply byID_keeps; [done | by apply (Nack_inv (H4 := elsewhere _ _)) | by apply Server_keeps | done].
  - apply onMember_keeps; [|done]. apply repo_keeps. by apply (moveDueDelayed_inv (H4 := elsewhere _ _)).
  - apply onMember_keeps; [|done]. apply repo_keeps, (CleanupExpired_inv (H4 := elsewhere _ _)).
  - apply byID_keeps; [done | | by apply (Server_keeps _ _ "") | done].
    apply keeps_bind; [apply reading_home, Get_reading | intros; apply keeps_ret].
  - apply byID_keeps; [done | | by apply (Server_keeps _ _ "") | done].
    apply keeps_bind; [apply reading_home, GetResult_reading | intros; apply keeps_ret].
  - apply byID_keeps; [done | by apply Save_home | by apply (Server_keeps _ "" "") | done].
  - apply byID_inv; [done | done|]. intros mb0 mb Hm Hmb Hi. specialize (fun t => Hl (mb_repo mb0) t (memberAt_some _ _ _ Hm)) as Hl0.
    split; [by apply Update_home|]. unfold Server.UpdateOnComplete, results, mbnd, mtry, repo, mlift. rewrite Hmb. cbn.
    pose proof (Update_home (ce_clock E (n_ID (Owner (ce_ring E) id))) id cmd ten st msg _ _ Hi (Hnow _) Hf Hl0) as Hu.
    destruct (db (ResultRepository.UpdateTaskOnComplete _ _ _ _ _ _) (mb_repo mb0)) as [[x|e] r']; [exact Hu|]. by destruct (isNotFound e).
  - apply onMember_keeps; [|done]. apply repo_keeps, (keeps_db (H4 := elsewhere _ _)). intros queues. apply (tick_inv (H4 := elsewhere _ _)).
    by apply (sweepLeases_inv (H4 := elsewhere _ _)).
  - apply onMember_keeps; [|done]. apply repo_keeps, (keeps_db (H4 := elsewhere _ _)). intros queues. apply (tick_inv (H4 := elsewhere _ _)).
    by apply (sweepTTL_inv (H4 := elsewhere _ _)).
  - by apply pollAll_keeps.
  - destruct s as [mem calls]. eapply CInv_put; [exact HC|].
    destruct (restart_recovers (H4 := elsewhere ring n) _ _ (HC _ _ Hm) Hre) as (d & _ & Hrec). by apply rc_inv in Hrec.
Qed.

Lemma creachable_inv s : creachable s -> CInv s.
Proof.
  intros (s0 & Hi & Hst). assert (CInv s0) as I0.
  { intros n mb Hm. apply (initial_inv (H4 := elsewhere _ _)). by eapply Hi. }
  clear Hi. induction Hst; [done|]. eauto using cstep_inv.
Qed.

End cluster_inv.
