(* ===== verification/ClusterRun.v ===== *)
(** A cluster of three members: the witnesses of the routing theorems, and
    runs on which the cluster layer does not do what its comments say. *)

From S2P Require Import Prelude GoTime Domain Keys LeaseTable PebbleDB Backoff TaskRepo ResultRepo Reaper Scheduler ResultsService Invariant KeyScan Bulk RepoInv Lifecycle Sweeps BatchOps ResultInv ClaimManyInv Recovery System Effects Guarantees Hash Ring Bloom Cluster ClusterRoute ClusterInv.
From Stdlib Require Import SpecFloat.

(** Instances of the libraries on the wire. *)
Module wire.
#[export] Instance stamps : Timestamppb := {
  timestamp := Z * Z;
  ts_New t := (t / second, t mod second);
  ts_AsTime ts := fst ts * second + snd ts
}.
#[export] Instance stamps_laws : TimestamppbLaws.
Proof. constructor. intros t. cbn. pose proof (Z.div_mod t second). unfold second in *. lia. Qed.

#[export] Instance maps : MapJSON := {
  marshal_map m := match m with None => "null" | Some j => String "#" j end;
  unmarshal_map s := if bool_decide (s = "null") then Some None
                     else match s with String a j => if Ascii.eqb a "#" then Some (Some j) else None | _ => None end
}.
#[export] Instance maps_laws : MapJSONLaws.
Proof. split; by intros [j|]. Qed.
End wire.

Section run.
Import framed demo wire.

(** One position per node. *)
Definition na : Node := mkClusterNode "a" "10.0.0.1:9000".
Definition nb : Node := mkClusterNode "b" "10.0.0.2:9000".
Definition nc : Node := mkClusterNode "c" "10.0.0.3:9000".
Definition ring3 : Ring :=
  mkRing [na; nb; nc] {["a" := na; "b" := nb; "c" := nc]}
    [9223372036854775808; 12912720851596686131; 16602069666338596454]
    {[9223372036854775808 := "b"; 12912720851596686131 := "c"; 16602069666338596454 := "a"]}.

(** A network that delivers everything; the clocks stand at [t0]. *)
Definition E0 : cluster_env := mkClusterEnv ring3 (fun _ => Delivered) (fun _ => None) (fun e => e) (fun _ => t0) 0 (fun _ => 0).

Definition fresh_member : member memstore.store :=
  mkMember r0 (Some (NewBloom 0 10 S754_nan)) (Some (NewBloomCache 10 S754_nan)) ∅.
Definition cluster0 : Cluster memstore.store :=
  mkCluster {["a" := fresh_member; "b" := fresh_member; "c" := fresh_member]} 0.

Definition create_on (self id : string) : M (Cluster memstore.store) (option Task * bool) :=
  TaskRouter.EnqueueWithReady E0 self (fun _ => id) "send" "body" 5 "" 3 "" zero_time "acme".

(** [t1] belongs to [b], [t4] to [c]. *)
Definition cluster1 : Cluster memstore.store := snd (create_on "b" "t1" cluster0).
Definition cluster2 : Cluster memstore.store := snd (create_on "c" "t4" cluster1).

Definition repoOf (n : string) (s : Cluster memstore.store) : Repo memstore.store :=
  default r0 (mb_repo <$> cl_members s !! n).
Definition memberOf (n : string) (s : Cluster memstore.store) : member memstore.store :=
  default fresh_member (cl_members s !! n).

Definition task1 : Task :=
  mkTask "t1" "send" "body" 5 "" "" "" StatusPending LocationPending "" "" 0 3 "" "" "acme" t0 t0.

(** A claim that fans out strands tasks.  When the local shard is empty
    the router asks every peer and waits for all answers; each peer claims a
    task, the first answer is returned and the others are dropped (the comment
    says they are cancelled): the second task is in progress for a worker that
    never hears of it, and no claim finds it until its lease runs out. *)
Theorem claim_scatter_strands :
  let claim := TaskRouter.Claim E0 "a" "w1" ["send"] 600 200 5 "acme" in
  let s' := snd (claim cluster2) in
  (exists t, fst (claim cluster2) = Ok (Some (Some t)) /\ t.(ID) = "t1") /\
  (exists t, fst (TaskRouter.Get E0 "a" "t4" s') = Ok (Some t) /\ t.(Status) = StatusInProgress /\
     t.(WorkerID) = "w1" /\ t.(Attempts) = 1) /\
  fst (claim s') = Ok None.
Proof.
  cbv zeta. split_and!; [eexists; split; vm_compute; reflexivity | eexists; split_and!; vm_compute; reflexivity | vm_compute; reflexivity].
Qed.

(** A member after a stop and a start: the store is kept, the filter is new
    and nothing puts the stored ids into it. *)
Definition restart_member (n : string) (s : Cluster memstore.store) : Cluster memstore.store :=
  mkCluster (<[n := mkMember (reopened (repoOf n s)) (Some (NewBloom 0 10 S754_nan)) (Some (NewBloomCache 10 S754_nan)) ∅]>
               (cl_members s)) (cl_calls s).

(** A member whose filter has another size. *)
Definition resized : Cluster memstore.store :=
  mkCluster (<["b" := mkMember r0 (Some (NewBloom 0 20 S754_nan)) (Some (NewBloomCache 10 S754_nan)) ∅]>
               (cl_members cluster0)) 0.

(** The filters of the peers deny stored tasks.  The cache answers for a
    peer by the last snapshot, and the router takes a no for not-found: a task
    created after the last poll is not found from the other members until the
    next one; after the owner restarts its filter is empty, and once polled its
    stored tasks are not found from the others at all; and where the sizes of
    the filters differ the cache keeps the empty filter it started with and
    denies everything. *)
Theorem stale_filter_hides_task :
  let get self s := fst (TaskRouter.Get E0 self "t1" s) in
  let poll s := snd (pollAll E0 "a" s) in
  let created := snd (create_on "b" "t1" (poll cluster0)) in
  let restarted := poll (restart_member "b" (poll created)) in
  let differ := poll (snd (create_on "b" "t1" resized)) in
  get "b" created = Ok (Some task1) /\ get "a" created = Err (ErrText "not-found") /\
  get "a" (poll created) = Ok (Some task1) /\
  get "b" restarted = Ok (Some task1) /\ get "a" restarted = Err (ErrText "not-found") /\
  fst (TaskRouter.Heartbeat E0 "a" "t1" "" 60 restarted) = Err (ErrText "not-found") /\
  get "b" differ = Ok (Some task1) /\ get "a" differ = Err (ErrText "not-found").
Proof. cbv zeta. split_and!; vm_compute; reflexivity. Qed.

(** A result submitted through another member. *)
Definition result1 : ResultRecord :=
  mkResultRecord "t1" StatusCompleted (Some "{}") "" [mkArtifactOut "log" "https://store/log"] t0.

(** Results lose fields on the way.  A result saved through a member
    that does not own the task arrives without its completion time and its
    artifacts; one read through such a member has artifacts without addresses;
    and removing an in-progress entry through such a member sets the status of
    the task to the empty string, after which nobody can settle it. *)
Theorem remote_result_loses_fields :
  let claimed := snd (TaskRouter.Claim E0 "b" "w1" ["send"] 600 200 5 "acme" cluster1) in
  let saved self := snd (ResultRouter.SaveResult E0 self result1 claimed) in
  let removed := snd (ResultRouter.RemoveFromInprogAndClearLease E0 "a" "t1" "send" "acme" claimed) in
  fst (ResultRouter.GetResult E0 "b" "t1" (saved "b")) = Ok (Some result1) /\
  fst (ResultRouter.GetResult E0 "b" "t1" (saved "a")) =
    Ok (Some (mkResultRecord "t1" StatusCompleted (Some "{}") "" [] zero_time)) /\
  fst (ResultRouter.GetResult E0 "a" "t1" (saved "b")) =
    Ok (Some (mkResultRecord "t1" StatusCompleted (Some "{}") "" [mkArtifactOut "log" ""] t0)) /\
  (exists t, fst (TaskRouter.Get E0 "b" "t1" removed) = Ok (Some t) /\ t.(Status) = "" /\ t.(LastKnownLocation) = LocationNone) /\
  fst (TaskRouter.Nack E0 "b" "t1" "" 0 5 "" removed) = Err (ErrText "not-in-progress") /\
  fst (TaskRouter.Claim E0 "b" "w1" ["send"] 600 200 5 "acme" removed) = Ok None.
Proof.
  cbv zeta. split_and!; try (vm_compute; reflexivity). eexists. split_and!; vm_compute; reflexivity.
Qed.

(** ** Witnesses *)

Lemma member_b : cl_members cluster1 !! ownerID E0 "t1" = Some (memberOf "b" cluster1).
Proof. vm_compute. reflexivity. Qed.

Lemma router_transparent_witness :
  as_owner E0 ["not-found"] (memberOf "b" cluster1) "t1" (let! t := TaskRepository.Get "t1" in mret (Some t)) cluster1
    (TaskRouter.Get E0 "a" "t1" cluster1) /\
  as_owner E0 allFlags (memberOf "b" cluster1) "t1" (TaskRepository.Nack t0 "t1" "w1" 5 5 "") cluster1
    (TaskRouter.Nack E0 "a" "t1" "w1" 5 5 "" cluster1).
Proof.
  destruct (router_transparent E0 cluster1 "a" "t1" (memberOf "b" cluster1) "w1" 60 5 5 "" "send" "acme" StatusCompleted "" member_b)
    as (Hg & _ & _ & Hn & _); [| by unfold int32.. | | exact (conj Hg Hn)].
  - right. split; [|by split]. exists (memberOf "a" cluster1). split; vm_compute; reflexivity.
  - intros t r Ht. assert (fst (TaskRepository.Get "t1" (mb_repo (memberOf "b" cluster1))) = Ok task1) as Ht' by (vm_compute; reflexivity).
    rewrite Ht in Ht'. injection Ht' as ->. clear. unfold wire_ok, int32. cbn. lia.
Defined.

Lemma cluster1_run : creachable ring3 cluster1.
Proof.
  exists cluster0. split.
  { intros n mb. unfold cluster0. cbn [cl_members]. rewrite !lookup_insert_Some, lookup_singleton_Some.
    intros [[_ <-]|[_ [[_ <-]|[_ [_ <-]]]]]; apply r0_initial. }
  eapply rtc_l; [|apply rtc_refl]. unfold cluster1, create_on.
  apply (c_enqueue ring3 cluster0 E0 "b" (fun _ => "t1") "send" "body" 5 "" 3 "" zero_time "acme"); [done | | vm_compute; reflexivity | by apply name_ok_dec | by apply name_ok_dec
    | intros n; unfold time_ok, E0, t0, second; cbn; lia | reflexivity].
  assert (memberAt cluster0 (ownerID E0 (GenerateLocalID (localRing E0 "b") (fun _ => "t1"))) = Some r0) as Hm by (vm_compute; reflexivity).
  intros r. rewrite Hm. intros [= <-]. clear.
  change (stored (r_db r0)) with (∅ : gmap string string). split; [apply lookup_empty | intros; apply lookup_empty].
Qed.

Lemma task1_live : live (stored (r_db (mb_repo (memberOf "b" cluster1)))) "t1" task1.
Proof. eexists. split; vm_compute; reflexivity. Qed.

End run.
