(* ===== verification/Divergences.v ===== *)
(** Behaviours of the code that differ from what its comments promise, as
    theorems: a task the reaper puts back may never be delivered again, a task
    that is being worked on is deleted a day after its creation, the cleanup
    leaves the queue entries behind, and a worker stream of one tenant can finish
    the task of another. *)

From S2P Require Import Prelude GoTime Domain Keys LeaseTable PebbleDB Backoff TaskRepo ResultRepo Reaper Scheduler ResultsService Topics Auth Middleware WorkerStream Controllers Invariant KeyScan Bulk RepoInv Lifecycle Sweeps BatchOps ResultInv ClaimManyInv Recovery System Effects Guarantees.

#[local] Existing Instance no_ghost.

Section reaper.
Context {P : Type} `{PebbleReads P} `{JSONLaws}.
Variable env : environment.
Implicit Types (r : Repo P).

(** C39. A task the reaper puts back can be lost to its consumers.  The reaper
    writes the delayed entry but not the counter of the delayed queue, and the
    claim path does not look at a delayed queue whose counter is zero: when it
    was zero, the entry is stored and yet no later migration, at any time and
    with any limit, moves it. *)
Theorem reaper_requeue_stalls now id t delay r :
  reachable env r -> time_ok now -> live (stored (r_db r)) id t -> t.(Status) = StatusInProgress ->
  (Reaper.charged (en_reaper env) t).(Attempts) < (Reaper.charged (en_reaper env) t).(MaxAttempts) ->
  delayedCounter t.(Command) t.(TenantID) r = 0 ->
  wp (db (Reaper.requeueExpiredOne (en_reaper env) now t delay)) (fun x r' =>
    is_ok x = true ->
    entry (stored (r_db r')) id
      (KDelayed (cmdSeg t.(Command)) (tenantSeg t.(TenantID)) (unixSeconds (now + seconds delay)) id) /\
    forall later limit,
      TaskRepository.moveDueDelayedForTenant later t.(Command) limit t.(TenantID) r' = (Ok 0, r')) r.
Proof.
  intros [[I Hh] _]%reachable_RInv Hnow Hl Hst Ha Hc.
  pose proof (requeueExpiredOne_effect (en_reaper env) now id t delay _ _ I Hh Hnow Hl Hst) as Hw. cbv zeta in Hw.
  rewrite (proj2 (Z.leb_gt _ _) Ha) in Hw. unfold db. wp_step. eapply wp_mono; [exact Hw|].
  intros [cb|e] d' Hx; cbn; [|done]. destruct Hx as [Hm _]. intros _. split; [by apply (mv_entry _ _ _ _ _ Hm)|].
  intros later limit. unfold TaskRepository.moveDueDelayedForTenant, mbnd, mget.
  by replace (delayedCounter _ _ (set_db d' r)) with 0 by done.
Qed.
End reaper.

(** ** Retention *)

(** The batch of a cleanup: the body and the index entry of each candidate. *)
Abbreviation forgetting es :=
  (concat (map (fun '(ttlKey, id) => [OpDelete (KeyTask id); OpDelete ttlKey]) es)).

Lemma forgetting_keeps m (es : list (string * string)) k :
  (forall e, e ∈ es -> k <> KeyTask (snd e) /\ k <> fst e) -> apply_batch (forgetting es) m !! k = m !! k.
Proof.
  revert m. induction es as [|[kt i] es IH]; intros m Hk; [done|]. cbn [map concat]. rewrite apply_batch_app.
  rewrite IH by (intros; apply Hk; by constructor). destruct (Hk (kt, i)) as [H1 H2]; [constructor|].
  cbn [fst snd] in *. rewrite !apply_batch_cons, apply_batch_nil. cbn [apply_op].
  by rewrite !lookup_delete_ne by done.
Qed.

Lemma forgetting_sub m (es : list (string * string)) k v :
  apply_batch (forgetting es) m !! k = Some v -> m !! k = Some v.
Proof.
  revert m. induction es as [|[kt i] es IH]; intros m Hk; [done|]. cbn [map concat] in Hk. rewrite apply_batch_app in Hk.
  apply IH in Hk. rewrite !apply_batch_cons, apply_batch_nil in Hk. cbn [apply_op] in Hk.
  by apply lookup_delete_Some in Hk as [_ [_ Hk]%lookup_delete_Some].
Qed.

Lemma forgetting_scope `{JSON} m (es : list (string * string)) n :
  (forall e, e ∈ es -> exists s, okq (KTTL s (snd e)) /\ fst e = enc (KTTL s (snd e)) /\ s <= n /\ is_Some (m !! fst e)) ->
  let m' := apply_batch (forgetting es) m in
  (forall i q, entry m' i q <-> entry m i q) /\ (forall i t, live m' i t -> live m i t) /\
  (forall i t, live m i t -> live m' i t \/ exists e, e <= n /\ is_Some (m !! enc (KTTL e i))).
Proof.
  intros Hp m'.
  assert (forall q, okq q -> qid q <> None -> m' !! enc q = m !! enc q) as Hq.
  { intros q Hq Hi. apply forgetting_keeps. intros e (s & Ho & -> & _)%Hp. rewrite KeyTask_enc.
    split; intros E; apply enc_inj in E; subst; try done; try apply Hq; apply Ho. }
  split_and!.
  - intros i q. split; intros (Ho & Hi & Hs); (split_and!; [done..|]); [rewrite <- Hq | rewrite Hq]; congruence.
  - intros i t (v & Hv & Hu). exists v. split; [by eapply forgetting_sub | done].
  - intros i t (v & Hv & Hu). destruct (decide (i ∈ map snd es)) as [([k i'] & -> & He)%list_elem_of_fmap|Hn].
    + destruct (Hp _ He) as (s & _ & E & Hs & Hk). right. exists s. by rewrite <- E.
    + left. exists v. split; [|done]. rewrite <- Hv. apply forgetting_keeps. intros e He. split.
      * rewrite KeyTask_enc. intros E. apply Hn. apply enc_inj in E as [= ->]; [|done..]. apply list_elem_of_fmap. eauto.
      * destruct (Hp _ He) as (s & Ho & -> & _). intros E. apply enc_inj in E; [done | done | apply Ho].
Qed.

Section cleanup.
Context {P : Type} `{PebbleReads P} `{JSONLaws}.
Variable env : environment.
Implicit Types (r : Repo P).

Lemma ttlUpper_entry m L before k :
  StoreInv m L -> time_ok before -> is_Some (m !! k) -> in_range (TaskRepository.ttlUpper before) k ->
  exists e id, okq (KTTL e id) /\ k = enc (KTTL e id) /\ e <= unixSeconds before.
Proof.
  intros I Hb Hk Hr. pose proof (ttlUpper_prefix _ _ Hr) as Hp.
  destruct (inv_keys _ _ I k Hk) as (q & Hq & ->); [by right|].
  assert (in_range (ttl_range (unixSeconds before)) (enc q)) as Hr'.
  { revert Hr. unfold TaskRepository.ttlUpper, ttl_range, in_range.
    destruct (snd PrefixTTL) as [u|]; [|done]. destruct (sltb u _) eqn:Eu; [|done].
    cbn [fst snd below]. intros [Hlo Hhi]. split; [done|]. eapply slt_trans; [exact Hhi | by apply slt_sltb]. }
  apply ttl_range_spec in Hr' as (e & id & -> & He); [by exists e, id | apply Hq|].
  pose proof (score_ok before) as Hs. unfold score, two64 in *. unfold time_ok, unix, second in *.
  assert (before / 1000000000 < 2 ^ 55) by (apply Z.div_lt_upper_bound; lia). lia.
Qed.

(** What a cleanup removes.  It deletes the bodies of tasks that have an
    index entry at or before the given time and nothing else of a task: every
    queue entry stays, the pending, in-progress, delayed and dead-letter
    entries of the deleted tasks among them (the comment on the method says
    the queue references go too). *)
Theorem cleanup_scope limit before r :
  reachable env r -> time_ok before ->
  wp (TaskRepository.CleanupExpired limit before) (fun _ r' =>
    (forall i q, entry (stored (r_db r')) i q <-> entry (stored (r_db r)) i q) /\
    (forall i t, live (stored (r_db r')) i t -> live (stored (r_db r)) i t) /\
    (forall i t, live (stored (r_db r)) i t -> live (stored (r_db r')) i t \/
       exists e, e <= unixSeconds before /\ is_Some (stored (r_db r) !! enc (KTTL e i)))) r.
Proof.
  intros I%reachable_RInv Hb. unfold TaskRepository.CleanupExpired. wp_step.
  apply wp_db_Iter; [|intros; split_and!; eauto]. intros ks Hks. set (es := take _ _).
  assert (forall e, e ∈ es -> exists s, okq (KTTL s (snd e)) /\ fst e = enc (KTTL s (snd e)) /\
    s <= unixSeconds before /\ is_Some (stored (r_db r) !! fst e)) as Hp.
  { intros [k i] He. apply elem_of_take in He as (j & Hj & _). apply list_elem_of_lookup_2 in Hj.
    apply list_elem_of_omap in Hj as (k' & Hk & E). rewrite Hks in Hk. apply elem_of_range_keys in Hk as [Hs Hk].
    destruct (ttlUpper_entry _ _ _ _ (proj1 (proj1 I)) Hb Hs Hk) as (e & id & Ho & -> & He).
    assert (id_ok id = true) as Hid by apply Ho. rewrite after_last_slash_ttl in E by auto with codeq. injection E as <- <-. by exists e. }
  clearbody es. destruct es as [|e0 es']; [wp_step; split_and!; eauto|]. set (es := e0 :: es') in *.
  wp_step. apply wp_db_Commit; [apply I | | intros; split_and!; eauto]. intros d' Hc. wp_step.
  unfold wp at 1. rewrite (mfor_leases (fun e => leaseTable.Delete (snd e))).
  cbn [fst snd]. wp_step. cbn [r_db set_db]. rewrite stored_leases, (co_stored _ _ _ Hc).
  by apply forgetting_scope.
Qed.
End cleanup.

Section concrete.
Import framed framed_topic demo.

(** The same on a run: the lease of the only task expires, the reaper puts it
    back, and a claim a week later finds nothing. *)
Lemma reaper_requeue_stalls_witness :
  let r := snd (db (Reaper.requeueExpiredOne (P := memstore.store) (en_reaper env0) (t0 + 100 * second) claimedTask 10)
                  (after [create; claim])) in
  TaskRepository.moveDueDelayedForTenant (t0 + 604800 * second) "send" 100 "acme" r = (Ok 0, r).
Proof.
  intros r. pose proof (reaper_requeue_stalls env0 (t0 + 100 * second) "t1" claimedTask 10 (after [create; claim])
    claimed_run (t0_ok 100 ltac:(lia)) claimed_live eq_refl) as Hw.
  set (m := db (Reaper.requeueExpiredOne (P := memstore.store) (en_reaper env0) (t0 + 100 * second) claimedTask 10)) in *.
  assert (is_ok (fst (m (after [create; claim]))) = true) as Hok by (vm_compute; reflexivity).
  destruct (wp_ok m _ (after [create; claim]) Hok (Hw ltac:(vm_compute; reflexivity) ltac:(vm_compute; reflexivity)))
    as (cb & _ & Hr).
  destruct (Hr eq_refl) as [_ Hmv]. exact (Hmv (t0 + 604800 * second) 100).
Defined.

(** A task older than its retention is deleted, and its queue entry stays. *)
Lemma cleanup_scope_witness :
  let m := TaskRepository.CleanupExpired (P := memstore.store) 10 (t0 + 100000 * second) in
  (exists q, entry (stored (r_db (snd (m (after [create]))))) "t1" q) /\
  fst (TaskRepository.Get "t1" (snd (m (after [create])))) = Err (ErrText "not-found").
Proof.
  intros m. split; [|vm_compute; reflexivity].
  pose proof (cleanup_scope env0 10 (t0 + 100000 * second) (after [create]) created_run
    ltac:(unfold time_ok, t0, second; lia)) as Hw.
  assert (is_ok (fst (m (after [create]))) = true) as Hok by (vm_compute; reflexivity).
  destruct (wp_ok m _ (after [create]) Hok Hw) as (n & _ & He & _).
  exists (KPending "send" "acme" 5 1 "t1"). apply He. split_and!; [|reflexivity|].
  - split; [|split; [reflexivity|]]; [|by split_and!]. cbn. unfold uint64, two64. split_and!; try done; lia.
  - vm_compute. by eexists.
Defined.

(** A claim a minute before the first retention ends, and a heartbeat. *)
Definition day : Z := 86400 * second.
Definition lateClaim : event := EvClaim (t0 + day - 60 * second) "w1" ["send"] 600 0 "acme" (fun _ => false).
Definition lateHeartbeat : event := EvHeartbeat (t0 + day - 30 * second) "t1" "w1" 600.
Definition ttlTick : event := EvSweepTTL (t0 + day + second).

(** A renewed retention does not count.  Claims, heartbeats and
    completions write a further index entry and leave the old ones, and the
    sweep deletes a task by any of them: a task claimed and heartbeated in its
    last minute, with a lease of ten minutes, is deleted a day after its
    creation, its lease with it, and the worker's next heartbeat fails. *)
Theorem retention_runs_from_creation :
  let r := after [create; lateClaim; lateHeartbeat] in
  let r' := after [create; lateClaim; lateHeartbeat; ttlTick] in
  (exists t, fst (TaskRepository.Get "t1" r) = Ok t /\ t.(Status) = StatusInProgress /\
     t.(LeaseUntil) = "2023-11-15T22:22:50Z") /\
  db_leases (r_db r) !! "t1" = Some (mkLease "w1" "send" "acme" (unix (t0 + day + 570 * second))) /\
  fst (TaskRepository.Get "t1" r') = Err (ErrText "not-found") /\
  db_leases (r_db r') !! "t1" = None /\
  fst (TaskRepository.Heartbeat (t0 + day + 2 * second) "t1" "w1" 600 r') = Err (ErrText "not-found").
Proof.
  split_and!; [|vm_compute; reflexivity..].
  eexists. split_and!; [vm_compute; reflexivity | reflexivity..].
Qed.

(** The stream of a worker of another tenant: its token may only send results,
    and its Hello names the worker that holds the task. *)
Definition rivalToken : static.validatorConfig :=
  static.mkStatic "r-token" "intruder" "" ["codeq:result"] ["other"] {[ "tid" := AString "rival" ]}.
Definition rivalHello : res (session * serverEvent) :=
  fst (worker.handleHello (worker.New 300 "codeq-worker") (Some (static.Validate rivalToken)) None (EHello "r-token" "w1") tt).
Definition demoServices : services (Repo memstore.store) :=
  pebbleServices (en_cvt env0) (en_seed env0) (en_url env0) (en_rng env0) (en_sched env0) (en_upload env0) (en_finish env0)
    (en_callback env0) (fun _ => "t2") (fun _ => mret tt) (fun _ => false).
Definition onStream (sess : session) (ev : workerEvent) : M (Repo memstore.store) (list serverEvent) :=
  worker.handle (worker.New 300 "codeq-worker") demoServices (fun s => Ok (Some s)) (fun _ => t0) (fun _ => mret tt) (fun _ => false) (fun _ => false)
    sess (t0 + 2 * second) ev.

(** A stream of one tenant can finish the task of another.  The worker id of a
    stream is the one its Hello names, and a result is checked against the worker
    that holds the task, never against its tenant: with a token of tenant rival,
    for commands other than the task's, a stream that calls itself w1 completes
    the task of acme that w1 holds, with the result it likes. *)
Theorem stream_cross_tenant :
  exists sess, rivalHello = Ok (sess, SHelloAck "w1" "rival") /\
    (exists t, fst (TaskRepository.Get "t1" (after [create; claim])) = Ok t /\ t.(TenantID) = "acme" /\ t.(Status) = StatusInProgress) /\
    let p := onStream sess (EResult (mkWResult "t1" "COMPLETED" "forged" "")) (after [create; claim]) in
    fst p = Ok [SResultAck (mkAck "t1" true "")] /\
    exists t, fst (TaskRepository.Get "t1" (snd p)) = Ok t /\ t.(TenantID) = "acme" /\ t.(Status) = StatusCompleted.
Proof.
  eexists. split; [vm_compute; reflexivity|]. split; [|split].
  - eexists. split_and!; [vm_compute; reflexivity | reflexivity..].
  - vm_compute. reflexivity.
  - eexists. split_and!; [vm_compute; reflexivity | reflexivity..].
Qed.

(** A producer's token of another tenant, and the HTTP interface of the demo. *)
Definition rivalReader : Validator unit :=
  static.Validate (static.mkStatic "q-token" "reader" "" [] [] {[ "tid" := AString "rival" ]}).
Definition demoApi : api (Repo memstore.store) :=
  pebbleApi demoServices (fun _ => Err (ErrText "EOF")) (fun _ => None) (fun _ _ _ _ _ _ _ => mthrow (ErrText "down"))
    (fun _ _ _ => mthrow (ErrText "down")).
Definition demoServe (rq : request (Repo memstore.store)) (r : Repo memstore.store) : option httpResponse :=
  fst (serve mw_run.cfg (fun s => s) None (Some rivalReader) 0 (None : option (RateLimit.Limiter unit)) (RateLimit.mkBucket 0 0)
    (RateLimit.mkBucket 0 0) (RateLimit.mkBucket 0 0) [] (fun _ => Ok "null") (fun l => l) demoApi (fun _ => t0 + 3 * second)
    (mw_run.req "Bearer q-token") "/" rq (tt, tt, r)).

(** Reads are not bound to the tenant.  With a producer's token of tenant
    rival and no scopes, a lookup of the id of acme's task answers with the task,
    its payload included, and after the completion with its result: the routes
    that read ask for any accepted token and never compare the tenants. *)
Theorem http_reads_cross_tenant :
  (exists t, demoServe (GetTask "t1") (after [create; claim]) = Some (json 200 (TaskBody t)) /\ t.(TenantID) = "acme" /\
     t.(Payload) = "body") /\
  exists t rec, demoServe (GetResult "t1" "" []) (after [create; claim; submit]) = Some (json 200 (ResultBody (Some t) (Some rec))) /\
    t.(TenantID) = "acme" /\ rec.(rr_Result) = Some "42".
Proof.
  split; [eexists | eexists _, _]; (split_and!; [vm_compute; reflexivity | reflexivity..]).
Qed.
End concrete.
