(* ===== verification/Startup.v ===== *)
(** Start-up and inspection: a stop and a start succeed when the engine does,
    the sequence counter goes on above what is stored, and the queue
    statistics count the stored entries. *)

From S2P Require Import Prelude GoTime Domain Keys LeaseTable PebbleDB Backoff TaskRepo ResultRepo Reaper Scheduler ResultsService Invariant KeyScan Bulk RepoInv Lifecycle Sweeps BatchOps ResultInv ClaimManyInv Recovery System Effects Guarantees.

#[local] Existing Instance no_ghost.

Section startup.
Context {P : Type} `{PebbleReads P} `{JSONLaws}.
Variable env : environment.
Implicit Types (r : Repo P).


(** Sequence numbers are not reused.  After a start, the first number
    handed out lies above every sequence number of a stored pending entry, as
    long as the 64-bit counter has not run out, so the stored order of the
    queue is kept by what is enqueued later. *)
Theorem reopen_continues_sequence (p : P) d c t pr s id :
  Open p = Ok d -> db_seq d < two64 - 1 -> pendingEntry (stored d) (KPending c t pr s id) ->
  exists n d', NextSeq d = (Ok n, d') /\ s < n.
Proof.
  intros E Hd Hp. destruct (Open_spec _ _ E) as (_ & _ & Hr & Hle). pose proof Hp as Hp'. apply Hle in Hp.
  exists (wrapu64 (db_seq d + 1)), (set_seq (wrapu64 (db_seq d + 1)) d). split; [done|].
  destruct Hp' as (((_ & _ & _ & Hs) & _) & _ & _). unfold uint64 in Hs.
  rewrite wrapu64_id; unfold two64 in *; lia.
Qed.

(** ** Statistics *)

Definition isPending (c t : string) (q : qkey) : bool :=
  match q with KPending c' t' _ _ _ => bool_decide (c' = c /\ t' = t) | _ => false end.
Definition isInprog (c t : string) (q : qkey) : bool :=
  match q with KInprog c' t' _ => bool_decide (c' = c /\ t' = t) | _ => false end.
Definition isDLQ (c t : string) (q : qkey) : bool :=
  match q with KDLQ c' t' _ => bool_decide (c' = c /\ t' = t) | _ => false end.

Ltac kind_spec q :=
  destruct q; cbn; rewrite ?bool_decide_eq_true; naive_solver.

(** The number of entries of a kind. *)
Definition count (f : qkey -> bool) (qs : list qkey) : Z := Z.of_nat (length (List.filter f qs)).

Lemma range_count m qs range f :
  scanned m qs -> (forall k, in_range range k -> has_prefix pQueue k = true) ->
  (forall q, wf_qkey q -> in_range range (enc q) <-> f q = true) -> (forall q, f q = true -> qid q <> None) ->
  forall L, StoreInv m L -> Z.of_nat (length (range_keys m (fst range) (snd range))) = count f qs.
Proof.
  intros Hs Hp Hf Hq L I. unfold count. rewrite <- (length_map enc (List.filter f qs)). f_equal. apply Permutation_length.
  pose proof (scanned_NoDup _ _ Hs) as Hnd. destruct Hs as (_ & Hall & Hin). rewrite Forall_forall in Hall.
  apply NoDup_Permutation; [apply NoDup_range_keys | |].
  - apply NoDup_fmap_2_strong; [|by apply NoDup_ListNoDup, List.NoDup_filter, NoDup_ListNoDup].
    intros q q' [Hi _]%list_elem_of_In%List.filter_In [Hi' _]%list_elem_of_In%List.filter_In.
    apply list_elem_of_In in Hi, Hi'. apply okq_inj; [by apply (Hall q Hi) | by apply (Hall q' Hi')].
  - intros k. rewrite elem_of_range_keys, list_elem_of_fmap. split.
    + intros [Hk Hr]. destruct (inv_keys _ _ I k Hk) as (q & Ho & ->); [left; by apply Hp|].
      exists q. split; [done|]. apply Hf in Hr; [|apply Ho].
      apply list_elem_of_In, List.filter_In. split; [|done]. apply list_elem_of_In. by apply Hin; auto.
    + intros (q & -> & [Hi Hfq]%list_elem_of_In%List.filter_In). apply list_elem_of_In in Hi.
      destruct (Hall q Hi) as (Ho & _ & Hk). split; [done|]. apply Hf; [apply Ho | done].
Qed.

(** The scans of the statistics stay inside the queues. *)
Lemma queue_range_prefix cmd ten x k :
  in_range (queueBase cmd ten +:+ x +:+ "/", prefixUpper (queueBase cmd ten +:+ x +:+ "/")) k -> has_prefix pQueue k = true.
Proof.
  unfold in_range. cbn [fst snd]. rewrite <- app_assoc_s, scan_prefix. unfold queueBase.
  rewrite !app_assoc_s. apply has_prefix_trans.
Qed.

Definition iter_fails (d : DB P) : Prop := exists lo hi e, p_iter (db_pebble d) lo hi = Err e.

Lemma countPrefix_wp cmd ten x range f qs r L Q :
  StoreInv (stored (r_db r)) L -> scanned (stored (r_db r)) qs ->
  range = (queueBase cmd ten +:+ x +:+ "/", prefixUpper (queueBase cmd ten +:+ x +:+ "/")) ->
  (forall q, wf_qkey q -> in_range range (enc q) <-> f q = true) -> (forall q, f q = true -> qid q <> None) ->
  Q (Ok (count f qs)) r -> (forall e, iter_fails (r_db r) -> Q (Err e) r) ->
  wp (TaskRepository.countPrefix range) Q r.
Proof.
  intros I Hs -> Hf Hq HOk HErr. unfold TaskRepository.countPrefix, db. wp_step. wp_step.
  unfold wp. cbn [Iter fst snd]. rewrite set_db_id. destruct (p_iter _ _ _) as [ks|e] eqn:E; [|apply HErr; by eexists _, _, _].
  apply p_iter_ok in E. cbn [fst snd mret]. subst ks.
  change (Q (Ok (Z.of_nat (length (range_keys (stored (r_db r)) (queueBase cmd ten +:+ x +:+ "/")
    (prefixUpper (queueBase cmd ten +:+ x +:+ "/")))))) r).
  pose proof (range_count _ _ _ _ Hs (queue_range_prefix cmd ten x) Hf Hq _ I) as Hn. cbn [fst snd] in Hn.
  rewrite Hn. exact HOk.
Qed.

(** Queue statistics.  The four numbers are the numbers of stored pending,
    delayed, in-progress and dead-letter entries of the command and tenant;
    the call changes nothing and fails only when a scan of the engine fails. *)
Theorem queue_stats_counts cmd ten r qs :
  reachable env r -> scanned (stored (r_db r)) qs -> seg_ok cmd = true -> seg_ok ten = true ->
  let c := cmdSeg cmd in let t := tenantSeg ten in
  wp (TaskRepository.QueueStats cmd ten) (fun x r' =>
    r' = r /\ match x with
              | Ok st => st = mkStats cmd (count (isPending c t) qs) (count (delayedOf c t) qs)
                                (count (isInprog c t) qs) (count (isDLQ c t) qs)
              | Err _ => iter_fails (r_db r)
              end) r.
Proof.
  intros [[I Hh] _]%reachable_RInv Hs Hc Ht c t. unfold TaskRepository.QueueStats.
  wp_step. apply (countPrefix_wp cmd ten "/pending" (PrefixPendingAllPrios cmd ten) (isPending c t) qs r _ _ I Hs eq_refl); [| by intros [] |  | done].
  { intros q Wq. rewrite PrefixPendingAllPrios_spec by done. kind_spec q. }
  wp_step. apply (countPrefix_wp cmd ten "/inprog" (PrefixInprog cmd ten) (isInprog c t) qs r _ _ I Hs eq_refl); [| by intros [] |  | done].
  { intros q Wq. rewrite PrefixInprog_spec by done. kind_spec q. }
  wp_step. apply (countPrefix_wp cmd ten "/delayed" (PrefixDelayed cmd ten) (delayedOf c t) qs r _ _ I Hs eq_refl); [| by intros [] |  | done].
  { intros q Wq. rewrite PrefixDelayed_spec by done. kind_spec q. }
  wp_step. apply (countPrefix_wp cmd ten "/dlq" (PrefixDLQ cmd ten) (isDLQ c t) qs r _ _ I Hs eq_refl); [| by intros [] |  | done].
  { intros q Wq. rewrite PrefixDLQ_spec by done. kind_spec q. }
  wp_step. done.
Qed.
End startup.

(** ** Witnesses *)

(** A computed scan is the scan of the invariant. *)
Lemma scanned_intro (m : gmap string string) qs :
  range_keys m pQueue (prefixUpper pQueue) = map enc qs -> Forall (fun q => okq q /\ qid q <> None) qs -> scanned m qs.
Proof.
  intros E Hqs. assert (forall q, okq q -> qid q <> None -> is_Some (m !! enc q) <-> q ∈ qs) as Hin.
  { intros q Ho Hq. transitivity (enc q ∈ map enc qs).
    - rewrite <- E, elem_of_range_keys. change pQueue with ("codeq/q" +:+ "/"). rewrite scan_prefix.
      split; [|tauto]. intros Hk. split; [done|]. pose proof (enc_family q) as Hf. by destruct q.
    - rewrite list_elem_of_fmap. split; [|eauto]. intros (q' & Heq & Hi). rewrite Forall_forall in Hqs.
      destruct (Hqs q' Hi) as [Ho' _]. by rewrite (okq_inj _ _ Ho Ho' Heq). }
  split_and!; [done | | intros; by apply Hin].
  rewrite Forall_forall in *. intros q Hi. destruct (Hqs q Hi). split_and!; [done..|]. by apply Hin.
Qed.

Section witnesses.
Import framed demo.

Definition q1 : qkey := KPending "send" "acme" 5 1 "t1".

Lemma q1_ok : okq q1.
Proof. split; [|split; [reflexivity|]]; [|by split_and!]. cbn. unfold uint64, two64. split_and!; try done; lia. Qed.

Lemma created_scan : scanned (stored (r_db (after [create]))) [q1].
Proof.
  apply scanned_intro; [vm_compute; reflexivity|]. constructor; [|constructor]. split; [apply q1_ok | done].
Qed.


(** The handle a start on the store with the created task gives. *)
Definition d1 : DB memstore.store := mkDB (db_pebble (r_db (after [create]))) 1 None false ∅.

Lemma d1_opened : Open (db_pebble (r_db (after [create]))) = Ok d1.
Proof. vm_compute. reflexivity. Qed.

Lemma d1_pending : pendingEntry (stored d1) q1.
Proof. split; [apply q1_ok|]. split; [reflexivity|]. vm_compute. by eexists. Qed.

Lemma reopen_continues_sequence_witness : exists n d', NextSeq d1 = (Ok n, d') /\ 1 < n.
Proof.
  exact (reopen_continues_sequence _ d1 "send" "acme" 5 1 "t1" d1_opened ltac:(reflexivity) d1_pending).
Defined.

Lemma queue_stats_counts_witness :
  fst (TaskRepository.QueueStats "send" "acme" (after [create])) = Ok (mkStats "send" 1 0 0 0).
Proof.
  pose proof (queue_stats_counts env0 "send" "acme" (after [create]) [q1] created_run created_scan eq_refl eq_refl) as Hw.
  cbv zeta in Hw. set (m := TaskRepository.QueueStats "send" "acme") in *.
  assert (is_ok (fst (m (after [create]))) = true) as Hok by (vm_compute; reflexivity).
  destruct (wp_ok m _ (after [create]) Hok Hw) as (st & -> & _ & ->). reflexivity.
Defined.
End witnesses.
