(* ===== verification/Failover.v ===== *)
(** A change of leader: what the new leader's process knows of the replicated
    store.  The state machine ([src/internal/raft/fsm.go]) writes the engine
    only; the claim channels, the sequence counter and the lease table of the
    repository are filled at start-up and by the node's own calls. *)

From S2P Require Import Prelude GoTime Domain Keys LeaseTable PebbleDB Backoff TaskRepo ResultRepo Reaper Scheduler ResultsService Invariant KeyScan Bulk RepoInv Lifecycle Sweeps BatchOps ResultInv ClaimManyInv Recovery System Effects Guarantees RaftStore Snapshot Raft RaftGroup.

Section failover.
Import framed demo repr.

(** The batch the leader commits for the task of the run, as a log entry. *)
Definition createEntry : Log :=
  mkLog 1 1 LogCommand (Repr
    [OpSet (KeyTask "t1") (marshal_task createdTask);
     OpSet (KeyTTLIndex (unixSeconds (t0 + taskRetention)) "t1") "";
     OpSet (KeyPending "send" "acme" 5 1 "t1") ""]).

(** The process of another node, started on an empty store, after the entry
    has been applied to it and it has become the leader. *)
Definition promoted : Repo memstore.store :=
  set_db (mkDB (snd (fsm.Apply (Some createEntry) ∅)) 0 (Some (RaftDB.replicator singleDB (fun _ => None))) false ∅) r0.

End failover.
